(* ===== verification/_CoqProject ===== *)
-Q . S2P
Prelude.v
Bytes.v
Collections.v
Fixed.v
Text.v
Model.v
OrderBook.v
BookSync.v
Dispatch.v
AnalyticsCore.v
CandleFlow.v
Profile.v
Bubbles.v
Levels.v
Recording.v
RecordingHttp.v
RecordingPipeline.v
RecordingHandle.v
ProtobufWire.v
Sinks.v
Reconnect.v
Session.v
Synthetic.v
Spill.v
RecordingControl.v
Metrics.v
Runner.v
RunnerBounds.v
Replay.v
ReplayFidelity.v
PulseMath.v
PulseLog.v
PulseBook.v
PulseFeatures.v
PulsePhase.v
PulseWindow.v
PulseKeys.v
PulseInput.v
PulseSlot.v
PulseCursor.v
PulseSafety.v
PulseAdmission.v
PulseFamilies.v
PulseChain.v
PulseBreadth.v
PulseEvidence.v
PulseAuthor.v
