(* ===== verification/Prelude.v ===== *)
(** * Verification of cryptofeed-rs

    cryptofeed-rs ingests market data: venue adapters turn frames into
    normalized events with exact decimals, order books are synchronised from
    snapshots and deltas, a session runner drives each adapter and its timers,
    events travel through bounded queues to sinks and to analytics, every frame
    can be recorded to disk and replayed, and event pulse derives features and
    phases from the events of several venues.  This library models the parts of
    that system that carry its guarantees, and proves the guarantees.

    ** Files

    - [Prelude]: machine integers ([int_ty], [fits], [wrap], checked and
      saturating operations), [result] with [let?], the state-and-error monad
      [Eff] with [let!], record update [s ⟪ f := v ⟫], shared tactics, hints
      and list lemmas.
    - [Bytes], [Text]: little-endian conversions, the bytes of strings, and the
      [Write] interface of [std::io] as a class with laws, implemented by
      memory, by a disk that fills up and by [BufWriter] over any other device.
    - [Collections]: [Ord] with its laws, [BTreeMap] and [BTreeSet] as sorted
      association lists, stable [sort_by], [max_by].
    - [Fixed]: crates/model/src/fixed.rs, decimals, their parsers and [rescale].
    - [Model]: the types of crates/model/src exchanged by all components.
    - [OrderBook], [BookSync]: crates/book/src/l2.rs and sync.rs, the L2 book
      with its transactional updates and the snapshot/delta state machine.
    - [Dispatch]: crates/dispatch/src/queue.rs, bounded queues with overflow
      policies and the two-lane dispatcher.
    - [AnalyticsCore], [CandleFlow], [Profile], [Bubbles], [Levels]:
      crates/analytics/src (error.rs, config.rs and grid.rs; flow.rs;
      profile.rs; bubbles.rs; levels.rs).
    - [Recording], [RecordingHttp], [RecordingPipeline], [RecordingHandle],
      [RecordingControl]: crates/recording/src (crc32c.rs, format.rs,
      writer.rs, reader.rs and queue.rs; http.rs; pipeline.rs with the records
      of metadata.rs; the shared handle of pipeline.rs; control.rs).
    - [ProtobufWire], [Sinks], [Spill]: crates/sinks/src (protobuf_wire.rs;
      sink.rs, memory.rs and protobuf_file_bin.rs; spill.rs).
    - [Reconnect], [Metrics], [Runner], [RunnerBounds]: crates/engine/src
      (reconnect.rs; metrics.rs; runner.rs, and what bounds it).
    - [Session], [Synthetic]: crates/adapter-api/src (session.rs and
      subscription.rs, with the session machine as a class) and
      crates/adapters/synthetic/src, the adapter that implements it.
    - [Replay], [ReplayFidelity]: crates/replay/src/runner.rs, and its relation
      to the runner that recorded.
    - [PulseMath], [PulseLog], [PulseBook], [PulseFeatures], [PulseBreadth]:
      crates/event-pulse/src/features.rs (arithmetic; the accuracy of
      [log_return]; the book projection; feature rows; breadth).
    - [PulsePhase], [PulseWindow]: mechanics.rs and window.rs of event pulse.
    - [PulseKeys], [PulseInput]: wire.rs and wire_v2.rs of event pulse, keys,
      cursors, configuration, catalogues and the validation of inputs.
    - [PulseSlot], [PulseCursor], [PulseFamilies]: cursor.rs of event pulse, the
      slot of one source, the source state machine, and its second version;
      [PulseSafety], [PulseAdmission] and [PulseChain] hold their theorems.
    - [PulseEvidence], [PulseAuthor]: snapshot.rs of event pulse, the evidence
      derived from an observation and the content of an authored snapshot.

    Each struct is a [Record] with the struct's fields, each enum an
    [Inductive] with its constructors, and each method a function or an [Eff]
    computation over the state it borrows mutably; an error leaves the state
    the method left.  A prefix tells apart methods of the same name (such as
    [profile_ingest], [pb_push_batch], [mf_begin_epoch]).

    ** What the theorems show

    - Decimals: [rescale] is exact or refuses, and rounds as each mode's name
      says; the parser accepts exactly its grammar, and is exact.
    - Books: every reachable book is sorted, positive and uncrossed while
      valid; a transaction implements an abstract finite-map specification,
      trimmed to the best levels, and rolls back completely; a drain applies exactly the deltas in sequence,
      and buffering is equivalent to going live at once.
    - Queues and sinks: bounded queues conserve and order their items, a
      blocking push returns by its deadline; forwarding into any [EventSink]
      is lossless, and the binary file reads back to the events; the spill log
      implements an abstract log with a byte limit and survives a crash at any
      byte.
    - Analytics: candle and profile builders are atomic, always pass their own
      validation and record exactly the accepted volume; the value area is the
      one grown from the point of control; detection with its caches computes the reference definition;
      merging conserves; levels are bounded and their status is exact.
    - Recording: a segment survives a crash at any byte with exactly its whole
      frames, a changed payload is detected, reading terminates on any input;
      the pipeline writes exactly the frames it promised to keep, over
      rotations, and besides them exactly the registered metadata, and the
      shared handle does so under every interleaving of its threads.
    - Sessions: for any session machine, everything a runner keeps is bounded,
      polling the timers ends, a dynamic subscription happens completely or not
      at all, and credentials reach only the frames waiting to be sent; the
      synthetic adapter's feed rebuilds its book; replaying a recording ends in
      the state of the live session and emits its events.
    - Reconnection and metrics: delays are bounded, the stable reset fires
      once, and the readiness gauge counts the instruments some session holds.
    - Event pulse: decimals print and read back, logarithmic returns are within
      ten units in the last place; windows hold exactly what their calls
      promise, coverage is exact; feature sets are well formed; breadth and
      depth are computed exactly when their conditions hold, and are exact;
      phases change only after their whole dwell or at once to invalid, however
      the machine is polled; the evidence of authored features is accepted by the phase
      machine, and a published snapshot is coherent with what it was authored
      from; configurations are accepted exactly when well formed; the source
      state machine never panics, never takes back what is final, and accepts
      only inputs that continue their sequence; its second version follows
      order books without a gap.
    - Some theorems show behaviour that the code or its documentation did not
      intend: [failed_drain_serves_book], [flow_bucket_zero_never_finalizes],
      [capacity_evicts_top_levels], [flush_pending_loses_frame],
      [rescheduled_timer_fires_early], [synthetic_drain_unpublished],
      [spill_failed_write_breaks_limit], [spill_oversized_unreadable],
      [reused_epoch_leaves_live], [late_epoch_strands_siblings] and
      [display_number_shared].

    ** Choices

    - Integers have their Rust width; [usize] is 64 bits.  Arithmetic that the
      code leaves unchecked wraps, as in the release profile, which does not
      enable overflow checks.
    - Loops that are not structural carry fuel, and the theorems show that it
      is enough: one pass per level for trimming and eviction, per bucket for
      the value area, per bubble for merging, per queued item (and one more) for
      draining, forwarding and flushing, per byte (and one more) for reading
      segments and spill files, per limit of passes for the timers, two turns
      per tenth of a second (and four more) for the phase machine, ten groups
      for a 64-bit varint, twenty digits for a 64-bit decimal.
    - Time is a parameter: a list of readings for a blocking push, a function
      from the number of readings for the recorder, an argument elsewhere.
    - Concurrency is the interleaving of critical sections; no code panics
      while it holds a lock, so locks are never poisoned.
    - [Arc] and [clone] are invisible: shared values are never mutated.  An
      [expect] that could fail is an error of its own ([Panicked]).
    - Files, clocks, free-space probes, JSON codecs and SHA-256 are parameters
      with the laws the code relies on, each with a concrete instance.
    - The accuracy of logarithms is stated with the real numbers of the
      Standard Library.

    ** Not modelled

    - Adapters other than the synthetic one, transport and the venue protocols:
      JSON and WebSocket code over third-party libraries.
    - The daemon, the async runtime, supervision, the control plane and the
      user interface.
    - Sinks to sockets and brokers, the JSON wire format, normalized
      recordings, and the Prometheus text of the metrics.
    - Of event pulse, the bookkeeping of the processor that drives the modelled
      parts (its feature runtime, fault intervals and checkpoints, and the
      observations it derives from its windows), contracts, replay and research
      files, the JSON of inputs and snapshots, and the parsing of RFC 3339 times.
    - Lossy display conversions ([to_f64_lossy]) and serde derives. *)

From stdpp Require Import base tactics numbers strings option list.
From Stdlib Require Import ZArith Lia.

Local Open Scope Z_scope.

(** ** Machine integers

    Every Rust integer is a [Z] kept inside its width by the operations that
    produce it.  [usize] is 64 bits wide on every target the repository
    supports, so it shares [U64]. *)

Inductive int_ty := I32 | I64 | I128 | U8 | U16 | U32 | U64 | U128.

Definition int_min (t : int_ty) : Z :=
  match t with
  | I32 => -2147483648
  | I64 => -9223372036854775808
  | I128 => -170141183460469231731687303715884105728
  | U8 | U16 | U32 | U64 | U128 => 0
  end.

Definition int_max (t : int_ty) : Z :=
  match t with
  | I32 => 2147483647
  | I64 => 9223372036854775807
  | I128 => 170141183460469231731687303715884105727
  | U8 => 255
  | U16 => 65535
  | U32 => 4294967295
  | U64 => 18446744073709551615
  | U128 => 340282366920938463463374607431768211455
  end.

Definition fits (t : int_ty) (z : Z) : Prop := int_min t ≤ z ≤ int_max t.

Definition in_ty (t : int_ty) (z : Z) : bool :=
  (int_min t <=? z) && (z <=? int_max t).

(** [T::try_from], and the range test behind every [checked_*] operation. *)
Definition to_ty (t : int_ty) (z : Z) : option Z :=
  if in_ty t z then Some z else None.

Definition checked_add (t : int_ty) (a b : Z) : option Z := to_ty t (a + b).
Definition checked_sub (t : int_ty) (a b : Z) : option Z := to_ty t (a - b).
Definition checked_mul (t : int_ty) (a b : Z) : option Z := to_ty t (a * b).
Definition checked_neg (t : int_ty) (a : Z) : option Z := to_ty t (- a).
Definition checked_abs (t : int_ty) (a : Z) : option Z := to_ty t (Z.abs a).

(** [T::checked_pow], the square-and-multiply loop of the standard library;
    the exponent's binary digits drive the recursion. *)
Fixpoint checked_pow_pos (t : int_ty) (base acc : Z) (e : positive) : option Z :=
  match e with
  | xH => checked_mul t acc base
  | xO e' =>
      match checked_mul t base base with
      | Some base' => checked_pow_pos t base' acc e'
      | None => None
      end
  | xI e' =>
      match checked_mul t acc base with
      | Some acc' =>
          match checked_mul t base base with
          | Some base' => checked_pow_pos t base' acc' e'
          | None => None
          end
      | None => None
      end
  end.

Definition checked_pow (t : int_ty) (base e : Z) : option Z :=
  match e with
  | Zpos p => checked_pow_pos t base 1 p
  | _ => Some 1
  end.

Definition saturate (t : int_ty) (z : Z) : Z :=
  Z.max (int_min t) (Z.min (int_max t) z).

Definition saturating_add (t : int_ty) (a b : Z) : Z := saturate t (a + b).
Definition saturating_sub (t : int_ty) (a b : Z) : Z := saturate t (a - b).
Definition saturating_mul (t : int_ty) (a b : Z) : Z := saturate t (a * b).

(** [as] casts and the unchecked operators of a release build wrap around. *)
Definition wrap (t : int_ty) (z : Z) : Z :=
  (z - int_min t) mod (int_max t - int_min t + 1) + int_min t.

(** [i128::div_euclid] by a positive divisor is the floor division [Z.div];
    [/] and [%] truncate and are [Z.quot] and [Z.rem]. *)

Lemma in_ty_true t z : in_ty t z = true <-> fits t z.
Proof. unfold in_ty, fits. rewrite andb_true_iff, !Z.leb_le. lia. Qed.

Lemma in_ty_false t z : in_ty t z = false <-> ~ fits t z.
Proof. rewrite <- in_ty_true. destruct (in_ty t z); split; congruence. Qed.

#[export] Instance fits_dec t z : Decision (fits t z).
Proof. unfold fits. apply _. Defined.

Lemma to_ty_Some t z r : to_ty t z = Some r <-> r = z /\ fits t z.
Proof.
  unfold to_ty. destruct (in_ty t z) eqn:E.
  - apply in_ty_true in E. split; [intros [= <-]; auto | intros [-> _]; auto].
  - apply in_ty_false in E. split; [done | intros [_ ?]; contradiction].
Qed.

Lemma to_ty_None t z : to_ty t z = None <-> ~ fits t z.
Proof.
  unfold to_ty. destruct (in_ty t z) eqn:E.
  - apply in_ty_true in E. split; [done | contradiction].
  - apply in_ty_false in E. done.
Qed.

Lemma to_ty_fits t z : fits t z -> to_ty t z = Some z.
Proof. intros. by apply to_ty_Some. Qed.

Lemma wrap_fits t z : fits t z -> wrap t z = z.
Proof.
  unfold fits, wrap. intros. rewrite Z.mod_small; lia.
Qed.

Lemma wrap_range t z : fits t (wrap t z).
Proof.
  unfold fits, wrap.
  assert (0 < int_max t - int_min t + 1) by (destruct t; simpl; lia).
  pose proof (Z.mod_pos_bound (z - int_min t) (int_max t - int_min t + 1)). lia.
Qed.

Lemma wrap_add_l t a b : wrap t (wrap t a + b) = wrap t (a + b).
Proof.
  unfold wrap. set (m := int_min t). set (w := int_max t - m + 1). f_equal.
  replace ((a - m) mod w + m + b - m) with ((a - m) mod w + b) by lia.
  rewrite Zplus_mod_idemp_l. f_equal. lia.
Qed.

Lemma saturate_fits t z : fits t (saturate t z).
Proof. unfold fits, saturate. destruct t; simpl; lia. Qed.

Lemma saturate_id t z : fits t z -> saturate t z = z.
Proof. unfold fits, saturate. lia. Qed.

Lemma to_ty_None_mono t a b :
  int_min t <= 1 -> 1 <= a <= b -> to_ty t a = None -> to_ty t b = None.
Proof. rewrite !to_ty_None. unfold fits. lia. Qed.

Lemma checked_pow_pos_spec t base acc e :
  1 <= base -> 1 <= acc -> int_min t <= 1 ->
  checked_pow_pos t base acc e = to_ty t (acc * base ^ Zpos e).
Proof.
  intros Hb Ha Ht. revert base acc Hb Ha.
  induction e as [e IH|e IH|]; intros base acc Hb Ha; cbn [checked_pow_pos];
    [| |by rewrite Z.pow_1_r].
  all: assert (1 <= base * base) by nia.
  all: set (p := (base * base) ^ Zpos e).
  all: assert (base * base <= p)
    by (unfold p; rewrite <- (Z.pow_1_r (base * base)) at 1; apply Z.pow_le_mono_r; lia).
  - replace (base ^ Zpos e~1) with (base * p)
      by (unfold p; rewrite Pos2Z.inj_xI, Z.pow_add_r, Z.pow_1_r, Z.pow_mul_r, Z.pow_2_r
            by lia; ring).
    assert (1 * base <= acc * base) by nia.
    assert (acc * base * 1 <= acc * base * p) by (apply Z.mul_le_mono_nonneg_l; lia).
    assert (1 * p <= acc * base * p) by (apply Z.mul_le_mono_nonneg_r; lia).
    rewrite Z.mul_assoc. unfold checked_mul.
    destruct (to_ty t (acc * base)) eqn:E1;
      [|symmetry; eapply to_ty_None_mono; [| |exact E1]; lia].
    apply to_ty_Some in E1 as [-> _].
    destruct (to_ty t (base * base)) eqn:E2;
      [|symmetry; eapply to_ty_None_mono; [| |exact E2]; lia].
    apply to_ty_Some in E2 as [-> _]. rewrite IH by lia. done.
  - replace (base ^ Zpos e~0) with p
      by (unfold p; rewrite Pos2Z.inj_xO, Z.pow_mul_r, Z.pow_2_r by lia; ring).
    assert (1 * p <= acc * p) by (apply Z.mul_le_mono_nonneg_r; lia).
    unfold checked_mul. destruct (to_ty t (base * base)) eqn:E2;
      [|symmetry; eapply to_ty_None_mono; [| |exact E2]; lia].
    apply to_ty_Some in E2 as [-> _]. rewrite IH by lia. done.
Qed.

Lemma checked_pow_spec t base e :
  1 <= base -> 0 <= e -> int_min t <= 1 <= int_max t ->
  checked_pow t base e = to_ty t (base ^ e).
Proof.
  intros. destruct e as [|p|p]; simpl checked_pow.
  - rewrite Z.pow_0_r. by rewrite to_ty_fits.
  - rewrite checked_pow_pos_spec by lia. f_equal. lia.
  - lia.
Qed.

(** ** [Result] and the [?] operator *)

Inductive result (A E : Type) := Ok (a : A) | Err (e : E).
Arguments Ok {A E} a.
Arguments Err {A E} e.

Declare Scope rust_scope.
Delimit Scope rust_scope with rust.
Open Scope rust_scope.

Definition rbind {A B E} (m : result A E) (k : A -> result B E) : result B E :=
  match m with Ok a => k a | Err e => Err e end.

Notation "'let?' x := m 'in' k" := (rbind m (fun x => k))
  (at level 10, x pattern, m at level 100, k at level 200,
   format "'[v' 'let?'  x  :=  m  'in' '/' k ']'") : rust_scope.

Notation "m ?; k" := (rbind m (fun _ => k))
  (at level 199, k at level 200, right associativity,
   format "'[v' m ?; '/' k ']'") : rust_scope.

Definition rmap {A B E} (f : A -> B) (m : result A E) : result B E :=
  match m with Ok a => Ok (f a) | Err e => Err e end.

Definition map_err {A E F} (f : E -> F) (m : result A E) : result A F :=
  match m with Ok a => Ok a | Err e => Err (f e) end.

Definition ok_or {A E} (o : option A) (e : E) : result A E :=
  match o with Some a => Ok a | None => Err e end.

Definition ok {A E} (m : result A E) : option A :=
  match m with Ok a => Some a | Err _ => None end.

Definition is_ok {A E} (m : result A E) : bool :=
  match m with Ok _ => true | Err _ => false end.

(** [Option<Result<T, E>>::transpose]. *)
Definition transpose {A E} (o : option (result A E)) : result (option A) E :=
  match o with
  | None => Ok None
  | Some (Ok a) => Ok (Some a)
  | Some (Err e) => Err e
  end.

(** [Iterator::try_fold] and [collect::<Result<Vec<_>, _>>]. *)
Fixpoint try_fold {A B E} (f : B -> A -> result B E) (acc : B) (l : list A)
    : result B E :=
  match l with
  | [] => Ok acc
  | x :: l' => let? acc' := f acc x in try_fold f acc' l'
  end.

Fixpoint traverse {A B E} (f : A -> result B E) (l : list A) : result (list B) E :=
  match l with
  | [] => Ok []
  | x :: l' => let? y := f x in let? ys := traverse f l' in Ok (y :: ys)
  end.

Section Results.
Context {A B E : Type}.

Lemma rbind_Ok (m : result A E) (k : A -> result B E) b :
  rbind m k = Ok b <-> exists a, m = Ok a /\ k a = Ok b.
Proof.
  destruct m; simpl; split; intros H.
  - eauto.
  - destruct H as (? & [= ->] & ?). done.
  - done.
  - by destruct H as (? & ? & ?).
Qed.

Lemma rbind_Err (m : result A E) (k : A -> result B E) e :
  rbind m k = Err e <-> m = Err e \/ exists a, m = Ok a /\ k a = Err e.
Proof.
  destruct m; simpl; split; intros H.
  - eauto.
  - destruct H as [?|(? & [= ->] & ?)]; done.
  - left. congruence.
  - destruct H as [?|(? & ? & ?)]; congruence.
Qed.

Lemma rmap_Ok (f : A -> B) (m : result A E) b :
  rmap f m = Ok b <-> exists a, m = Ok a /\ b = f a.
Proof. destruct m; simpl; split; try done; [intros [= <-]; eauto | intros (? & [= ->] & ->); done | intros (? & [=] & _)]. Qed.

Lemma ok_or_Ok (o : option A) (e : E) a : ok_or o e = Ok a <-> o = Some a.
Proof. destruct o; simpl; split; congruence. Qed.

Lemma ok_or_Err (o : option A) (e e' : E) : ok_or o e = Err e' <-> o = None /\ e' = e.
Proof. destruct o; simpl; split; intros H; [done|by destruct H| |]; intuition congruence. Qed.

Lemma map_err_Ok {F} (f : E -> F) (m : result A E) a :
  map_err f m = Ok a <-> m = Ok a.
Proof. destruct m; simpl; split; congruence. Qed.

End Results.

Section Folds.
Context {A B E : Type}.

Lemma traverse_Ok (f : A -> result B E) l ys :
  traverse f l = Ok ys <-> Forall2 (fun x y => f x = Ok y) l ys.
Proof.
  revert ys. induction l as [|x l IH]; intros ys; simpl.
  - split; [intros [= <-]; constructor | by inversion 1].
  - rewrite rbind_Ok. setoid_rewrite rbind_Ok. setoid_rewrite IH. split.
    + intros (y & ? & zs & ? & [= <-]). by constructor.
    + inversion 1; subst. eauto 10.
Qed.

Lemma try_fold_app (f : B -> A -> result B E) l1 l2 acc :
  try_fold f acc (l1 ++ l2) = let? acc' := try_fold f acc l1 in try_fold f acc' l2.
Proof.
  revert acc. induction l1 as [|x l1 IH]; intros acc; simpl; [done|].
  destruct (f acc x); simpl; auto.
Qed.

(** An invariant of a successful fold. *)
Lemma try_fold_inv (P : B -> Prop) (f : B -> A -> result B E) l acc r :
  P acc ->
  (forall b x b', P b -> x ∈ l -> f b x = Ok b' -> P b') ->
  try_fold f acc l = Ok r -> P r.
Proof.
  revert acc. induction l as [|x l IH]; intros acc HP Hstep; simpl.
  - by intros [= <-].
  - rewrite rbind_Ok. intros (b & Hb & Hr).
    eapply IH; [| |exact Hr].
    + eapply Hstep; [exact HP| |exact Hb]. left.
    + intros. eapply Hstep; eauto. by right.
Qed.
End Folds.

Lemma existsb_Forall_false {A} (f : A -> bool) l :
  Forall (fun x => f x = false) l -> existsb f l = false.
Proof. induction 1 as [|x l Hx _ IH]; simpl; [done|]. by rewrite Hx, IH. Qed.

(** Turns hypotheses about the result combinators into equations about their
    parts, one layer at a time. *)
Ltac res_step :=
  match goal with
  | H : rbind _ _ = Ok _ |- _ =>
      let a := fresh "v" in let Ha := fresh "Hv" in
      apply rbind_Ok in H as (a & Ha & H); cbn beta in H
  | H : rmap _ _ = Ok _ |- _ =>
      let a := fresh "v" in let Ha := fresh "Hv" in
      apply rmap_Ok in H as (a & Ha & H)
  | H : ok_or _ _ = Ok _ |- _ => apply ok_or_Ok in H
  | H : ok_or _ _ = Err _ |- _ => apply ok_or_Err in H as [H ?]
  | H : map_err _ _ = Ok _ |- _ => apply map_err_Ok in H
  | H : to_ty _ _ = Some _ |- _ => apply to_ty_Some in H as [? H]
  | H : to_ty _ _ = None |- _ => apply to_ty_None in H
  | H : checked_add _ _ _ = _ |- _ => unfold checked_add in H
  | H : checked_sub _ _ _ = _ |- _ => unfold checked_sub in H
  | H : checked_mul _ _ _ = _ |- _ => unfold checked_mul in H
  | H : checked_neg _ _ = _ |- _ => unfold checked_neg in H
  | H : checked_abs _ _ = _ |- _ => unfold checked_abs in H
  | H : Ok _ = Ok _ |- _ => injection H as H
  | H : Err _ = Err _ |- _ => injection H as H
  | H : Ok _ = Err _ |- _ => discriminate H
  | H : Err _ = Ok _ |- _ => discriminate H
  end.

Ltac res := repeat (res_step; try subst).

(** ** Fallible methods on [&mut self]

    A method that may fail half-way leaves in place what it has already
    written, so its meaning is a state transformer that returns a state with
    either outcome. *)

Definition Eff (S E A : Type) : Type := S -> result A E * S.

Definition eret {S E A} (a : A) : Eff S E A := fun s => (Ok a, s).
Definition ethrow {S E A} (e : E) : Eff S E A := fun s => (Err e, s).
Definition elift {S E A} (r : result A E) : Eff S E A := fun s => (r, s).
Definition eget {S E} : Eff S E S := fun s => (Ok s, s).
Definition eput {S E} (s : S) : Eff S E unit := fun _ => (Ok tt, s).
Definition emod {S E} (f : S -> S) : Eff S E unit := fun s => (Ok tt, f s).

Definition ebind {S E A B} (m : Eff S E A) (k : A -> Eff S E B) : Eff S E B :=
  fun s =>
    match m s with
    | (Ok a, s') => k a s'
    | (Err e, s') => (Err e, s')
    end.

Notation "'let!' x := m 'in' k" := (ebind m (fun x => k))
  (at level 10, x pattern, m at level 100, k at level 200,
   format "'[v' 'let!'  x  :=  m  'in' '/' k ']'") : rust_scope.

Notation "m !; k" := (ebind m (fun _ => k))
  (at level 199, k at level 200, right associativity,
   format "'[v' m !; '/' k ']'") : rust_scope.

(** A [for] loop over a slice whose body may fail. *)
Fixpoint efor {S E A} (l : list A) (body : A -> Eff S E unit) : Eff S E unit :=
  match l with
  | [] => eret tt
  | x :: l' => body x !; efor l' body
  end.

(** A method called on one field of the receiver. *)
Definition ezoom {S T E A} (proj : S -> T) (inj : T -> S -> S) (m : Eff T E A)
    : Eff S E A :=
  fun s => let '(r, t) := m (proj s) in (r, inj t s).

Section Effects.
Context {S E : Type}.

Lemma ebind_Ok {A B} (m : Eff S E A) (k : A -> Eff S E B) s b s' :
  ebind m k s = (Ok b, s') <->
  exists a s1, m s = (Ok a, s1) /\ k a s1 = (Ok b, s').
Proof.
  unfold ebind. destruct (m s) as [[a|e] s1] eqn:Em; split; intros H.
  - eauto.
  - destruct H as (? & ? & [= -> ->] & ?). done.
  - done.
  - destruct H as (? & ? & [=] & ?).
Qed.

Lemma ebind_Err {A B} (m : Eff S E A) (k : A -> Eff S E B) s e s' :
  ebind m k s = (Err e, s') <->
  m s = (Err e, s') \/ exists a s1, m s = (Ok a, s1) /\ k a s1 = (Err e, s').
Proof.
  unfold ebind. destruct (m s) as [[a|e'] s1] eqn:Em; split; intros H.
  - right. eauto.
  - destruct H as [[=]|(? & ? & [= -> ->] & ?)]. done.
  - left. congruence.
  - destruct H as [|(? & ? & [=] & ?)]. congruence.
Qed.

(** Running the first step of a sequence. *)
Lemma ebind_elift {A B} (r : result A E) (k : A -> Eff S E B) s :
  ebind (elift r) k s = match r with Ok a => k a s | Err e => (Err e, s) end.
Proof. by destruct r. Qed.

Lemma ebind_run {A B} (m : Eff S E A) (k : A -> Eff S E B) s a s1 :
  m s = (Ok a, s1) -> ebind m k s = k a s1.
Proof. unfold ebind. by intros ->. Qed.

Lemma ebind_fail {A B} (m : Eff S E A) (k : A -> Eff S E B) s e s1 :
  m s = (Err e, s1) -> ebind m k s = (Err e, s1).
Proof. unfold ebind. by intros ->. Qed.

(** An invariant of the state is kept by a loop whose body keeps it,
    whether the loop completes or fails. *)
Lemma efor_inv {A} (P : S -> Prop) (l : list A) (body : A -> Eff S E unit) s :
  P s -> (forall x s0, x ∈ l -> P s0 -> P (snd (body x s0))) ->
  P (snd (efor l body s)).
Proof.
  revert s. induction l as [|x l IH]; intros s HP Hb; simpl; [done|].
  unfold ebind. pose proof (Hb x s (list_elem_of_here _ _) HP) as H1.
  destruct (body x s) as [[[]|e] s1]; simpl in *; [|done].
  apply IH; [done|]. intros. apply Hb; [by right|done].
Qed.
End Effects.

Ltac eff_unfold := unfold ebind, eret, ethrow, elift, eget, eput, emod, ezoom.

(** ** Assignment to one field of a struct

    [s ⟪ f := v ⟫] is [s] with field [f] replaced by [v].  A struct opts in by
    an [Eta] instance that rebuilds it from its projections; the setter of a
    field is then found by abstracting that field in the rebuilt term. *)

Class Eta (R : Type) := eta_expand : R -> R.
Class Setter {R A} (f : R -> A) := set_field : A -> R -> R.

Ltac solve_setter :=
  match goal with
  | |- @Setter ?R ?A ?f =>
      let i := constr:(_ : Eta R) in
      let v := fresh "v" in let r := fresh "r" in
      unfold Setter; intros v r;
      let t := eval cbv beta in (i r) in
      let h := eval hnf in t in
      let p := eval pattern (f r) in h in
      match p with
      | ?g _ => let u := eval cbv beta in (g v) in exact u
      end
  end.

#[export] Hint Extern 1 (Setter _) => solve_setter : typeclass_instances.

Notation "r ⟪ f := v ⟫" := (set_field (f := f) v r)
  (at level 1, left associativity, f at level 9, v at level 200) : rust_scope.

Arguments set_field {R A} f {Setter} / v r.

(** Closes goals about the ranges of concrete integer types. *)
Ltac solve_fits := unfold fits in *; simpl in *; lia.

(** ** Concrete examples *)

(** An equation between closed terms, evaluated by the virtual machine; the
    states of an example are themselves given by their values. *)
Ltac computed := vm_compute; match goal with |- _ = ?b => exact_no_check (eq_refl b) end.

(** The value of an option known to have one. *)
Definition the {A} (o : option A) : match o with Some _ => A | None => unit end :=
  match o with Some a => a | None => tt end.
