(* ===== verification/Bytes.v ===== *)
(** * Bytes

    Little-endian conversions of the Rust standard library, byte strings as
    lists of integers below 256, and the in-memory ends of [std::io]: a
    [Write] that appends and a [Read] that consumes. *)

From stdpp Require Import base tactics numbers strings option list.
From Stdlib Require Import ZArith Lia.
From S2P Require Import Prelude.

Local Open Scope Z_scope.

Definition is_byte (b : Z) : Prop := 0 <= b < 256.
Definition bytes_ok (l : list Z) : Prop := Forall is_byte l.

#[export] Instance is_byte_dec b : Decision (is_byte b).
Proof. unfold is_byte. apply _. Defined.

#[export] Instance bytes_ok_dec l : Decision (bytes_ok l).
Proof. unfold bytes_ok. apply _. Defined.

(** [x.to_le_bytes()] of an integer of [n] bytes. *)
Definition to_le_bytes (n : nat) (z : Z) : list Z :=
  (fun i => Z.land (Z.shiftr z (8 * Z.of_nat i)) 255) <$> seq 0 n.

(** [T::from_le_bytes] of an unsigned type. *)
Definition from_le_bytes (l : list Z) : Z :=
  foldr (fun b acc => Z.lor b (Z.shiftl acc 8)) 0 l.

Lemma to_le_bytes_S n z : to_le_bytes (S n) z = z mod 256 :: to_le_bytes n (z / 256).
Proof.
  unfold to_le_bytes. cbn [seq fmap list_fmap]. f_equal.
  - rewrite Z.mul_0_r, Z.shiftr_0_r. apply (Z.land_ones z 8). lia.
  - rewrite <- seq_shift. change (@List.map nat nat S (seq 0 n)) with (S <$> seq 0 n).
    rewrite <- list_fmap_compose. apply list_fmap_ext. intros i j _. unfold compose.
    rewrite Nat2Z.inj_succ. replace (8 * Z.succ (Z.of_nat j)) with (8 + 8 * Z.of_nat j) by lia.
    rewrite <- Z.shiftr_shiftr by lia. rewrite (Z.shiftr_div_pow2 z 8) by lia. done.
Qed.

Lemma length_to_le_bytes n z : length (to_le_bytes n z) = n.
Proof. unfold to_le_bytes. by rewrite length_fmap, length_seq. Qed.

Lemma to_le_bytes_ok n z : bytes_ok (to_le_bytes n z).
Proof.
  revert z. induction n as [|n IH]; intros z; [constructor|]. rewrite to_le_bytes_S.
  constructor; [|apply IH]. unfold is_byte. pose proof (Z.mod_pos_bound z 256). lia.
Qed.

Lemma lor_byte b x : is_byte b -> 0 <= x -> Z.lor b (Z.shiftl x 8) = b + 256 * x.
Proof.
  intros Hb Hx. rewrite <- Z.add_nocarry_lor.
  - rewrite Z.shiftl_mul_pow2 by lia. lia.
  - apply Z.bits_inj'. intros n Hn. rewrite Z.land_spec, Z.bits_0.
    destruct (Z.lt_ge_cases n 8).
    + rewrite Z.shiftl_spec_low by lia. apply andb_false_r.
    + rewrite (Z.bits_above_log2 b n); [done|unfold is_byte in Hb; lia|].
      destruct (Z.eq_dec b 0) as [->|]; [simpl; lia|]. apply Z.lt_le_trans with 8; [|lia].
      apply Z.log2_lt_pow2; unfold is_byte in Hb; lia.
Qed.

Lemma from_le_bytes_nonneg l : bytes_ok l -> 0 <= from_le_bytes l.
Proof.
  induction 1 as [|b l Hb _ IH]; simpl; [lia|]. rewrite lor_byte by done.
  unfold is_byte in Hb. lia.
Qed.

Lemma from_le_bytes_cons b l :
  is_byte b -> bytes_ok l -> from_le_bytes (b :: l) = b + 256 * from_le_bytes l.
Proof. intros Hb Hl. simpl. apply lor_byte; [done|by apply from_le_bytes_nonneg]. Qed.

Lemma from_to_le_bytes n z : from_le_bytes (to_le_bytes n z) = z mod 256 ^ Z.of_nat n.
Proof.
  revert z. induction n as [|n IH]; intros z.
  - simpl. by rewrite Z.mod_1_r.
  - rewrite to_le_bytes_S, from_le_bytes_cons, IH.
    + rewrite Nat2Z.inj_succ, Z.pow_succ_r by lia.
      rewrite (Z.rem_mul_r z 256) by (try apply Z.pow_nonzero; lia). lia.
    + unfold is_byte. pose proof (Z.mod_pos_bound z 256). lia.
    + apply to_le_bytes_ok.
Qed.

Lemma to_from_le_bytes l : bytes_ok l -> to_le_bytes (length l) (from_le_bytes l) = l.
Proof.
  induction 1 as [|b l Hb Hl IH]; [done|]. cbn [length]. rewrite to_le_bytes_S.
  rewrite from_le_bytes_cons by done. unfold is_byte in Hb.
  replace (b + 256 * from_le_bytes l) with (from_le_bytes l * 256 + b) by lia.
  rewrite Z.div_add_l, (Z.div_small b), Z.add_0_r, IH by lia. f_equal.
  rewrite Z.add_comm, Z_mod_plus_full. by apply Z.mod_small.
Qed.

(** The unsigned widths the formats use, and [i64] through its bit pattern. *)
Lemma le_u16 z : fits U16 z -> from_le_bytes (to_le_bytes 2 z) = z.
Proof. intros. rewrite from_to_le_bytes. apply Z.mod_small. solve_fits. Qed.
Lemma le_u32 z : fits U32 z -> from_le_bytes (to_le_bytes 4 z) = z.
Proof. intros. rewrite from_to_le_bytes. apply Z.mod_small. solve_fits. Qed.
Lemma le_u64 z : fits U64 z -> from_le_bytes (to_le_bytes 8 z) = z.
Proof. intros. rewrite from_to_le_bytes. apply Z.mod_small. solve_fits. Qed.

Lemma wrap_mod t z w : w = int_max t - int_min t + 1 -> wrap t (z mod w) = wrap t z.
Proof.
  intros ->. unfold wrap. f_equal. rewrite Zminus_mod_idemp_l. done.
Qed.

Lemma le_i64 z : fits I64 z -> wrap I64 (from_le_bytes (to_le_bytes 8 z)) = z.
Proof.
  intros. rewrite from_to_le_bytes. rewrite (wrap_mod I64) by reflexivity. by apply wrap_fits.
Qed.

(** ** Reading and writing

    [read_exact] into a buffer of [n] bytes: [None] is [UnexpectedEof], after
    which an in-memory reader is at its end. *)

Definition read_exact (n : nat) (rest : list Z) : option (list Z) * list Z :=
  if (n <=? length rest)%nat then (Some (take n rest), drop n rest) else (None, []).

Lemma read_exact_app n l rest : length l = n -> read_exact n (l ++ rest) = (Some l, rest).
Proof.
  intros <-. unfold read_exact. rewrite length_app.
  rewrite (proj2 (Nat.leb_le _ _)) by lia. by rewrite take_app_length, drop_app_length.
Qed.

Lemma read_exact_short n rest : (length rest < n)%nat -> read_exact n rest = (None, []).
Proof. intros H. unfold read_exact. by rewrite (proj2 (Nat.leb_gt _ _)). Qed.

(** [std::io::Write]: [write_all] either takes all bytes or fails, possibly
    after taking some of them; [flush] moves bytes on without changing what was
    taken. *)
Class Write (W : Type) := {
  write_all : list Z -> Eff W string unit;
  flush : Eff W string unit;
  written : W -> list Z;
  write_all_prefix : forall l w,
    exists p q, l = p ++ q /\ written (snd (write_all l w)) = written w ++ p /\
      (fst (write_all l w) = Ok tt -> q = []);
  flush_written : forall w, written (snd (flush w)) = written w
}.

(** [Vec<u8>] never fails. *)
#[export] Program Instance vec_write : Write (list Z) := {|
  write_all l := fun w => (Ok tt, w ++ l);
  flush := eret tt;
  written w := w
|}.
Next Obligation. intros l w. exists l, []. rewrite app_nil_r. done. Qed.
Next Obligation. done. Qed.

(** A device with room for [room] more bytes. *)
Record Disk := mkDisk { disk_bytes : list Z; disk_room : nat }.

Definition disk_write_all (l : list Z) : Eff Disk string unit := fun d =>
  let n := Nat.min (length l) (disk_room d) in
  let d' := mkDisk (disk_bytes d ++ take n l) (disk_room d - n) in
  if (length l <=? disk_room d)%nat then (Ok tt, d') else (Err "No space left on device"%string, d').

#[export] Program Instance disk_write : Write Disk := {|
  write_all := disk_write_all;
  flush := eret tt;
  written := disk_bytes
|}.
Next Obligation.
  intros l d. exists (take (Nat.min (length l) (disk_room d)) l),
    (drop (Nat.min (length l) (disk_room d)) l).
  split; [by rewrite take_drop|]. unfold disk_write_all.
  destruct (Nat.leb_spec (length l) (disk_room d)); simpl; (split; [done|]); [|done].
  intros _. apply drop_ge. lia.
Qed.
Next Obligation. done. Qed.

(** [BufWriter]: small writes are kept in a buffer of [BUF_CAPACITY] bytes,
    large ones go past it.  After a failed flush the bytes that did not reach
    the inner writer stay buffered. *)
Record BufWriter (W : Type) := mkBufWriter { bw_inner : W; bw_buf : list Z }.
Arguments mkBufWriter {W}.
Arguments bw_inner {W}.
Arguments bw_buf {W}.

Definition BUF_CAPACITY : nat := Z.to_nat 8192.

Section BufWriter.
Context {W : Type} `{Write W}.

Definition buf_new (w : W) : BufWriter W := mkBufWriter w [].

Definition flush_buf : Eff (BufWriter W) string unit := fun b =>
  let '(r, w) := write_all (bw_buf b) (bw_inner b) in
  match r with
  | Ok _ => (Ok tt, mkBufWriter w [])
  | Err e =>
      (Err e, mkBufWriter w (drop (length (written w) - length (written (bw_inner b))) (bw_buf b)))
  end.

Definition buf_push (l : list Z) : Eff (BufWriter W) string unit :=
  emod (fun b => mkBufWriter (bw_inner b) (bw_buf b ++ l)).

Definition spare (b : BufWriter W) : nat := BUF_CAPACITY - length (bw_buf b).

Definition buf_inner (m : Eff W string unit) : Eff (BufWriter W) string unit :=
  ezoom bw_inner (fun w b => mkBufWriter w (bw_buf b)) m.

Definition buf_write_all (l : list Z) : Eff (BufWriter W) string unit :=
  let! b := eget in
  if (length l <? spare b)%nat then buf_push l
  else
    (if (spare b <? length l)%nat then flush_buf else eret tt) !;
    if (BUF_CAPACITY <=? length l)%nat then buf_inner (write_all l) else buf_push l.

Definition buf_flush : Eff (BufWriter W) string unit := flush_buf !; buf_inner flush.

Definition buf_written (b : BufWriter W) : list Z := written (bw_inner b) ++ bw_buf b.

Lemma flush_buf_written b :
  buf_written (snd (flush_buf b)) = buf_written b /\
  (fst (flush_buf b) = Ok tt -> bw_buf (snd (flush_buf b)) = []).
Proof.
  unfold flush_buf, buf_written. destruct (write_all_prefix (bw_buf b) (bw_inner b)) as (p & q & E & Hw & Hq).
  destruct (write_all (bw_buf b) (bw_inner b)) as [[[]|e] w]; cbn [fst snd bw_inner bw_buf] in *.
  - rewrite (Hq eq_refl) in E. rewrite Hw, E, !app_nil_r. done.
  - split; [|done]. rewrite Hw, length_app, Nat.add_comm, Nat.add_sub, E.
    by rewrite drop_app_length, app_assoc.
Qed.

End BufWriter.

#[export] Program Instance buf_write {W} `{Write W} : Write (BufWriter W) := {|
  write_all := buf_write_all;
  flush := buf_flush;
  written := buf_written
|}.
Next Obligation.
  intros W HW l b.
  assert (forall b0, buf_written (snd (buf_push l b0)) = buf_written b0 ++ l) as Hpush
    by (intros b0; unfold buf_written, buf_push; cbn; by rewrite app_assoc).
  assert (exists b1 r, (if (spare b <? length l)%nat then flush_buf else eret tt) b = (r, b1) /\
    buf_written b1 = buf_written b /\ (r = Ok tt -> (spare b <? length l)%nat = true -> bw_buf b1 = []) /\
    ((spare b <? length l)%nat = false -> b1 = b)) as (b1 & r & E & Hb1 & Hempty & Hsame).
  { destruct (spare b <? length l)%nat.
    - destruct (flush_buf_written b) as [H1 H2]. destruct (flush_buf b) as [r b1].
      exists b1, r. split; [done|]. split; [done|]. by split; [intros ->; auto|].
    - exists b, (Ok tt). split; [done|]. split; [done|]. by split. }
  unfold buf_write_all, ebind, eget. destruct (length l <? spare b)%nat.
  { exists l, []. rewrite app_nil_r, Hpush. done. }
  rewrite E. destruct r as [[]|e]; cbn [fst snd].
  - destruct (Nat.leb_spec BUF_CAPACITY (length l)) as [Hc|Hc].
    + assert (bw_buf b1 = []) as Hbuf.
      { destruct (Nat.ltb_spec (spare b) (length l)) as [|Hle]; [by apply Hempty|].
        rewrite (Hsame eq_refl). unfold spare in *. destruct (bw_buf b); [done|].
        simpl length in *. unfold BUF_CAPACITY in *. lia. }
      destruct (write_all_prefix l (bw_inner b1)) as (p & q & -> & Hw & Hq).
      exists p, q. unfold buf_inner, ezoom. destruct (write_all (p ++ q) (bw_inner b1)) as [r w].
      cbn [fst snd] in *. split; [done|]. split; [|done].
      rewrite <- Hb1. unfold buf_written. cbn. by rewrite Hbuf, !app_nil_r.
    + exists l, []. by rewrite app_nil_r, Hpush, Hb1.
  - exists [], l. by rewrite app_nil_r, Hb1.
Qed.
Next Obligation.
  intros W HW b. unfold buf_flush, ebind. destruct (flush_buf_written b) as [H1 _].
  destruct (flush_buf b) as [[[]|e] b1]; cbn [fst snd] in *; [|done].
  rewrite <- H1. unfold buf_inner, ezoom, buf_written. pose proof (flush_written (bw_inner b1)) as Hf.
  destruct (flush (bw_inner b1)) as [r w]; cbn [fst snd bw_inner bw_buf] in *. by rewrite Hf.
Qed.

(** A successful flush leaves nothing in the buffer. *)
Lemma buf_flush_empty {W} `{Write W} (b : BufWriter W) :
  fst (buf_flush b) = Ok tt -> bw_buf (snd (buf_flush b)) = [].
Proof.
  unfold buf_flush, ebind. destruct (flush_buf_written b) as [_ H2].
  destruct (flush_buf b) as [[[]|e] b1]; cbn [fst snd] in *; [|done]. intros _.
  unfold buf_inner, ezoom. destruct (flush (bw_inner b1)) as [r w]. by apply H2.
Qed.

(** A writer that never fails. *)
Class Reliable (W : Type) `{Write W} := {
  write_all_ok : forall l w, fst (write_all l w) = Ok tt;
  flush_ok : forall w, fst (flush w) = Ok tt
}.

#[export] Instance vec_reliable : Reliable (list Z).
Proof. by split. Qed.

Lemma flush_buf_ok {W} `{Reliable W} (b : BufWriter W) : fst (flush_buf b) = Ok tt.
Proof.
  unfold flush_buf. pose proof (write_all_ok (bw_buf b) (bw_inner b)) as E.
  destruct (write_all (bw_buf b) (bw_inner b)) as [r w]. cbn in E. by subst r.
Qed.

#[export] Instance buf_reliable {W} `{Reliable W} : Reliable (BufWriter W).
Proof.
  split.
  - intros l b. change (fst (buf_write_all l b) = Ok tt). unfold buf_write_all, ebind, eget. destruct (length l <? spare b)%nat; [done|].
    assert (exists b1, (if (spare b <? length l)%nat then flush_buf else eret tt) b = (Ok tt, b1)) as [b1 ->].
    { pose proof (flush_buf_ok b) as E. destruct (spare b <? length l)%nat; [|by exists b].
      destruct (flush_buf b) as [r b1]. cbn in E. subst r. by exists b1. }
    destruct (BUF_CAPACITY <=? length l)%nat; [|done]. unfold buf_inner, ezoom.
    pose proof (write_all_ok l (bw_inner b1)) as E.
    destruct (write_all l (bw_inner b1)) as [r w]. exact E.
  - intros b. change (fst (buf_flush b) = Ok tt). unfold buf_flush, ebind. pose proof (flush_buf_ok b) as E.
    destruct (flush_buf b) as [r b1]. cbn in E. subst r. unfold buf_inner, ezoom.
    pose proof (flush_ok (bw_inner b1)) as E. destruct (flush (bw_inner b1)) as [r w]. exact E.
Qed.

Lemma reliable_write {W} `{Reliable W} l (w : W) :
  exists w', write_all l w = (Ok tt, w') /\ written w' = written w ++ l.
Proof.
  pose proof (write_all_ok l w) as E. destruct (write_all_prefix l w) as (p & q & -> & Hw & Hq).
  destruct (write_all (p ++ q) w) as [r w']. cbn [fst snd] in *. subst r. exists w'.
  by rewrite Hw, (Hq eq_refl), app_nil_r.
Qed.

Lemma reliable_flush {W} `{Reliable W} (w : W) :
  exists w', flush w = (Ok tt, w') /\ written w' = written w.
Proof.
  pose proof (flush_ok w) as E. pose proof (flush_written w) as Hw. destruct (flush w) as [r w'].
  cbn [fst snd] in *. subst r. by exists w'.
Qed.
