(* ===== verification/Collections.v ===== *)
(** * Ordered collections of the Rust standard library

    [Ord] and its laws, [BTreeMap]/[BTreeSet] as key-sorted association lists
    (so that iteration order is the list order), the stable [sort_by] and
    [max_by].  Every component that iterates over an ordered map is built on
    this file. *)

From stdpp Require Import base tactics numbers strings option list sorting.
From Stdlib Require Import ZArith Lia.
From S2P Require Import Prelude.

Local Open Scope Z_scope.

(** ** The [Ord] trait *)

Class Ord (K : Type) := cmp : K -> K -> comparison.

Class OrdLaws (K : Type) `{Ord K} : Prop := {
  cmp_eq : forall a b : K, cmp a b = Eq <-> a = b;
  cmp_swap : forall a b : K, cmp b a = CompOpp (cmp a b);
  cmp_trans : forall a b c : K, cmp a b = Lt -> cmp b c = Lt -> cmp a c = Lt
}.

(** [Ordering::then_with]. *)
Definition then_with (c d : comparison) : comparison :=
  match c with Eq => d | _ => c end.

#[export] Instance ord_Z : Ord Z := Z.compare.
#[export] Instance ord_prod {A B} `{Ord A, Ord B} : Ord (A * B) :=
  fun p q => then_with (cmp p.1 q.1) (cmp p.2 q.2).

#[export] Instance ord_laws_Z : OrdLaws Z.
Proof.
  split; unfold cmp, ord_Z; intros.
  - apply Z.compare_eq_iff.
  - apply Z.compare_antisym.
  - rewrite Z.compare_lt_iff in *. lia.
Qed.

Section OrdFacts.
Context {K : Type} `{OrdLaws K}.

Lemma cmp_refl (a : K) : cmp a a = Eq.
Proof. by apply cmp_eq. Qed.

Lemma cmp_gt_lt (a b : K) : cmp a b = Gt <-> cmp b a = Lt.
Proof. rewrite (cmp_swap a b). destruct (cmp a b); simpl; split; congruence. Qed.

Lemma cmp_lt_ne (a b : K) : cmp a b = Lt -> a <> b.
Proof. intros Hlt ->. rewrite cmp_refl in Hlt. done. Qed.

Lemma cmp_lt_irrefl (a : K) : cmp a a <> Lt.
Proof. by rewrite cmp_refl. Qed.
End OrdFacts.

Lemma cmp_Eq_case {K} `{OrdLaws K} `{EqDecision K} {A} (k k' : K) (x y : A) :
  match cmp k k' with Eq => x | _ => y end = if decide (k' = k) then x else y.
Proof.
  case_decide as E; [subst; by rewrite cmp_refl|].
  destruct (cmp k k') eqn:E'; [|done|done]. apply cmp_eq in E'. congruence.
Qed.

Lemma cmp_prod {A B} `{Ord A, Ord B} (a1 a2 : A) (b1 b2 : B) :
  cmp (a1, b1) (a2, b2) = then_with (cmp a1 a2) (cmp b1 b2).
Proof. done. Qed.

#[export] Instance ord_laws_prod {A B} `{OrdLaws A, OrdLaws B} : OrdLaws (A * B).
Proof.
  split.
  - intros [a1 b1] [a2 b2]. rewrite cmp_prod. destruct (cmp a1 a2) eqn:E; simpl.
    + apply cmp_eq in E as ->. rewrite cmp_eq. split; congruence.
    + split; [done|]. intros [= -> ->]. rewrite cmp_refl in E. done.
    + split; [done|]. intros [= -> ->]. rewrite cmp_refl in E. done.
  - intros [a1 b1] [a2 b2]. rewrite !cmp_prod.
    rewrite (cmp_swap a1 a2), (cmp_swap b1 b2). by destruct (cmp a1 a2).
  - intros [a1 b1] [a2 b2] [a3 b3]. rewrite !cmp_prod.
    destruct (cmp a1 a2) eqn:E1; destruct (cmp a2 a3) eqn:E2; try done; simpl.
    + apply cmp_eq in E1 as ->. rewrite E2. simpl. apply cmp_trans.
    + apply cmp_eq in E1 as ->. by rewrite E2.
    + apply cmp_eq in E2 as ->. by rewrite E1.
    + by rewrite (cmp_trans a1 a2 a3).
Qed.

(** [#[derive(Ord)]] on a newtype or a field-less enum: compare an injective
    image. *)
Definition cmp_by {A K} `{Ord K} (f : A -> K) (a b : A) : comparison := cmp (f a) (f b).

Lemma ord_laws_by {A K} `{OrdLaws K} (f : A -> K) `{!Inj (=) (=) f} :
  @OrdLaws A (cmp_by f).
Proof.
  split; unfold cmp, cmp_by; intros.
  - rewrite cmp_eq. split; [apply (inj f)|congruence].
  - apply cmp_swap.
  - by apply (cmp_trans _ (f b)).
Qed.

(** [String]s are ordered by their bytes. *)
#[export] Instance ord_string : Ord string := String.compare.

Lemma ascii_compare_eq a b : Ascii.compare a b = Eq <-> a = b.
Proof.
  unfold Ascii.compare. rewrite N.compare_eq_iff. split; [|by intros ->].
  intros E. by rewrite <- (Ascii.ascii_N_embedding a), E, Ascii.ascii_N_embedding.
Qed.

Lemma string_compare_trans (s t u : string) :
  String.compare s t = Lt -> String.compare t u = Lt -> String.compare s u = Lt.
Proof.
  revert t u. induction s as [|a s IH]; intros [|b t] [|c u]; cbn [String.compare]; try done.
  destruct (Ascii.compare a b) eqn:Eab; destruct (Ascii.compare b c) eqn:Ebc; try done; intros H1 H2.
  - apply ascii_compare_eq in Eab as ->, Ebc as ->. rewrite (proj2 (ascii_compare_eq c c) eq_refl). by eapply IH.
  - apply ascii_compare_eq in Eab as ->. by rewrite Ebc.
  - apply ascii_compare_eq in Ebc as ->. by rewrite Eab.
  - unfold Ascii.compare in *. rewrite N.compare_lt_iff in *.
    by rewrite (proj2 (N.compare_lt_iff _ _) (N.lt_trans _ _ _ Eab Ebc)).
Qed.

#[export] Instance ord_laws_string : OrdLaws string.
Proof.
  split; unfold cmp, ord_string.
  - intros a b. split; [apply String.compare_eq_iff|]. intros ->. induction b as [|c b IH]; [done|]. cbn.
    by rewrite (proj2 (ascii_compare_eq c c) eq_refl).
  - intros a b. apply String.compare_antisym.
  - exact string_compare_trans.
Qed.

(** ** [BTreeMap] *)

Module BTreeMap.
Section Defs.
Context {K V : Type} `{Ord K}.
Implicit Types m : list (K * V).

Definition empty : list (K * V) := [].

Fixpoint get m (k : K) : option V :=
  match m with
  | [] => None
  | (k', v) :: m' => match cmp k k' with Eq => Some v | _ => get m' k end
  end.

Definition contains_key m (k : K) : bool :=
  match get m k with Some _ => true | None => false end.

Fixpoint insert m (k : K) (v : V) : list (K * V) :=
  match m with
  | [] => [(k, v)]
  | (k', v') :: m' =>
      match cmp k k' with
      | Lt => (k, v) :: m
      | Eq => (k, v) :: m'
      | Gt => (k', v') :: insert m' k v
      end
  end.

Fixpoint remove m (k : K) : list (K * V) :=
  match m with
  | [] => []
  | (k', v') :: m' =>
      match cmp k k' with
      | Lt => m
      | Eq => m'
      | Gt => (k', v') :: remove m' k
      end
  end.

(** [map.get(&k).copied().unwrap_or(d)]. *)
Definition get_or m (k : K) (d : V) : V := default d (get m k).

Definition len m : Z := Z.of_nat (length m).
Definition keys m : list K := m.*1.
Definition values m : list V := m.*2.

(** [iter().next()] and [iter().next_back()]. *)
Definition first m : option (K * V) := head m.
Definition last m : option (K * V) := list.last m.

Definition key_lt (p q : K * V) : Prop := cmp p.1 q.1 = Lt.
Definition wf m : Prop := StronglySorted key_lt m.
End Defs.

Section Facts.
Context {K V : Type} `{OrdLaws K}.
Implicit Types m : list (K * V).

Lemma wf_empty : wf (empty : list (K * V)).
Proof. constructor. Qed.

Lemma wf_cons_inv k (v : V) m :
  wf ((k, v) :: m) -> wf m /\ forall k' v', (k', v') ∈ m -> cmp k k' = Lt.
Proof.
  inversion 1 as [|? ? Hs Hf]; subst. split; [done|].
  intros k' v' Hin. rewrite Forall_forall in Hf. apply (Hf (k', v') Hin).
Qed.

Lemma wf_cons k (v : V) m :
  wf m -> (forall k' v', (k', v') ∈ m -> cmp k k' = Lt) -> wf ((k, v) :: m).
Proof.
  intros Hm Hlt. constructor; [done|]. apply Forall_forall.
  intros [k' v'] Hin. by apply (Hlt k' v').
Qed.

Lemma get_Some_elem m k v : get m k = Some v -> (k, v) ∈ m.
Proof.
  induction m as [|[k' v'] m IH]; simpl; [done|].
  destruct (cmp k k') eqn:E; intros Hg.
  - apply cmp_eq in E as ->. injection Hg as ->. left.
  - right. auto.
  - right. auto.
Qed.

Lemma elem_get m k v : wf m -> (k, v) ∈ m -> get m k = Some v.
Proof.
  induction m as [|[k' v'] m IH]; intros Hwf Hin.
  - by apply not_elem_of_nil in Hin.
  - apply wf_cons_inv in Hwf as [Hwf Hlt]. simpl.
    apply elem_of_cons in Hin as [[= -> ->]|Hin].
    + by rewrite cmp_refl.
    + specialize (Hlt _ _ Hin). apply cmp_gt_lt in Hlt. rewrite Hlt. auto.
Qed.

Lemma elem_of_get m k v : wf m -> (k, v) ∈ m <-> get m k = Some v.
Proof. split; [by apply elem_get | apply get_Some_elem]. Qed.

Lemma get_below m k :
  (forall k' v', (k', v') ∈ m -> cmp k k' = Lt) -> get m k = None.
Proof.
  intros Hlt. destruct (get m k) as [v|] eqn:E; [|done].
  apply get_Some_elem, Hlt in E. by apply cmp_lt_irrefl in E.
Qed.

Lemma get_insert_eq m k v : get (insert m k v) k = Some v.
Proof.
  induction m as [|[k' v'] m IH]; simpl; [by rewrite cmp_refl|].
  destruct (cmp k k') eqn:E; simpl; rewrite ?cmp_refl, ?E; auto.
Qed.

Lemma get_insert_ne m k k' v : k' <> k -> get (insert m k v) k' = get m k'.
Proof.
  intros Hne. assert (cmp k' k <> Eq) as Hc by (by rewrite cmp_eq).
  induction m as [|[k0 v0] m IH]; simpl.
  - by destruct (cmp k' k).
  - destruct (cmp k k0) eqn:E; simpl.
    + apply cmp_eq in E as <-. by destruct (cmp k' k).
    + by destruct (cmp k' k).
    + by rewrite IH.
Qed.

Lemma elem_insert m k v p : p ∈ insert m k v -> p = (k, v) \/ p ∈ m.
Proof.
  induction m as [|[k0 v0] m IH]; simpl.
  - rewrite list_elem_of_singleton. auto.
  - destruct (cmp k k0); rewrite !elem_of_cons; naive_solver.
Qed.

Lemma elem_remove m k p : p ∈ remove m k -> p ∈ m.
Proof.
  induction m as [|[k0 v0] m IH]; simpl; [done|].
  destruct (cmp k k0); rewrite ?elem_of_cons; naive_solver.
Qed.

Lemma wf_insert m k v : wf m -> wf (insert m k v).
Proof.
  induction m as [|[k0 v0] m IH]; intros Hwf; simpl.
  - repeat constructor.
  - pose proof (wf_cons_inv _ _ _ Hwf) as [Hm Hlt]. destruct (cmp k k0) eqn:E.
    + apply cmp_eq in E as ->. by apply wf_cons.
    + apply wf_cons; [done|]. intros k' v' Hin.
      apply elem_of_cons in Hin as [[= -> ->]|Hin]; [done|].
      eapply cmp_trans; eauto.
    + apply wf_cons; [auto|]. intros k' v' Hin.
      apply elem_insert in Hin as [[= -> ->]|Hin]; [by apply cmp_gt_lt|eauto].
Qed.

Lemma wf_remove m k : wf m -> wf (remove m k).
Proof.
  induction m as [|[k0 v0] m IH]; intros Hwf; simpl; [done|].
  pose proof (wf_cons_inv _ _ _ Hwf) as [Hm Hlt]. destruct (cmp k k0); auto.
  apply wf_cons; [auto|]. intros k' v' Hin. eapply Hlt, elem_remove, Hin.
Qed.

Lemma get_remove_eq m k : wf m -> get (remove m k) k = None.
Proof.
  induction m as [|[k0 v0] m IH]; intros Hwf; simpl; [done|].
  pose proof (wf_cons_inv _ _ _ Hwf) as [Hm Hlt]. destruct (cmp k k0) eqn:E.
  - apply cmp_eq in E as ->. by apply get_below.
  - simpl. rewrite E. apply get_below. intros k' v' Hin. eapply cmp_trans; eauto.
  - simpl. rewrite E. auto.
Qed.

Lemma get_remove_ne m k k' : k' <> k -> get (remove m k) k' = get m k'.
Proof.
  intros Hne. assert (cmp k' k <> Eq) as Hc by (by rewrite cmp_eq).
  induction m as [|[k0 v0] m IH]; simpl; [done|].
  destruct (cmp k k0) eqn:E; simpl; [|done|by rewrite IH].
  apply cmp_eq in E as <-. by destruct (cmp k' k).
Qed.

Lemma get_cons_inv k v m1 m2 :
  wf ((k, v) :: m1) -> wf m2 -> (forall x, get ((k, v) :: m1) x = get m2 x) ->
  exists m2', m2 = (k, v) :: m2'.
Proof.
  intros H1 H2 Hget. destruct m2 as [|[k2 v2] m2].
  - specialize (Hget k). simpl in Hget. by rewrite cmp_refl in Hget.
  - pose proof (wf_cons_inv _ _ _ H1) as [_ L1].
    pose proof (wf_cons_inv _ _ _ H2) as [_ L2].
    assert (k = k2) as <-.
    { pose proof (Hget k) as G1. pose proof (Hget k2) as G2.
      simpl in G1, G2. rewrite cmp_refl in G1, G2.
      destruct (cmp k k2) eqn:E; [by apply cmp_eq in E| |].
      - symmetry in G1. apply get_Some_elem, L2 in G1.
        rewrite (proj2 (cmp_gt_lt _ _) E) in G1. done.
      - apply cmp_gt_lt in E. rewrite E in G2.
        apply get_Some_elem, L1, (cmp_trans _ _ _ E) in G2.
        by apply cmp_lt_irrefl in G2. }
    specialize (Hget k). simpl in Hget. rewrite cmp_refl in Hget.
    injection Hget as ->. eauto.
Qed.

(** Two well-formed maps with the same lookups are the same list. *)
Lemma map_ext m1 m2 : wf m1 -> wf m2 -> (forall k, get m1 k = get m2 k) -> m1 = m2.
Proof.
  revert m2. induction m1 as [|[k v] m1 IH]; intros m2 H1 H2 Hget.
  - destruct m2 as [|[k2 v2] m2]; [done|].
    specialize (Hget k2). simpl in Hget. by rewrite cmp_refl in Hget.
  - destruct (get_cons_inv _ _ _ _ H1 H2 Hget) as [m2' ->]. f_equal.
    pose proof (wf_cons_inv _ _ _ H1) as [W1 L1].
    pose proof (wf_cons_inv _ _ _ H2) as [W2 L2].
    apply IH; [done|done|]. intros x. specialize (Hget x). simpl in Hget.
    destruct (cmp x k) eqn:E; [|done|done].
    apply cmp_eq in E as ->. by rewrite (get_below m1 _ L1), (get_below m2' _ L2).
Qed.

Lemma length_insert m k v :
  wf m -> length (insert m k v) = if contains_key m k then length m else S (length m).
Proof.
  unfold contains_key. induction m as [|[k0 v0] m IH]; intros Hwf; simpl; [done|].
  pose proof (wf_cons_inv _ _ _ Hwf) as [Hm Hlt]. destruct (cmp k k0) eqn:E; simpl; [done| |].
  - rewrite get_below; [done|]. intros k' v' Hin. eapply cmp_trans; eauto.
  - rewrite IH by done. by destruct (get m k).
Qed.

Lemma insert_insert m k v w : insert (insert m k v) k w = insert m k w.
Proof.
  induction m as [|[k0 v0] m IH]; simpl; [by rewrite cmp_refl|].
  destruct (cmp k k0) eqn:E; simpl; rewrite ?cmp_refl, ?E; [done|done|]. by rewrite IH.
Qed.

Lemma get_or_insert m k v k' d :
  get_or (insert m k v) k' d = match cmp k' k with Eq => v | _ => get_or m k' d end.
Proof.
  unfold get_or. destruct (cmp k' k) eqn:E.
  - apply cmp_eq in E as ->. by rewrite get_insert_eq.
  - rewrite get_insert_ne; [done|]. by apply cmp_lt_ne.
  - rewrite get_insert_ne; [done|]. apply cmp_gt_lt, cmp_lt_ne in E. congruence.
Qed.

Lemma elem_keys m k : k ∈ keys m <-> contains_key m k = true.
Proof.
  unfold keys, contains_key. rewrite list_elem_of_fmap. split.
  - intros ([k' v] & -> & Hin). simpl. induction m as [|[k0 v0] m IH].
    + by apply not_elem_of_nil in Hin.
    + simpl. destruct (cmp k' k0) eqn:E; [done| |];
        (apply elem_of_cons in Hin as [[= -> ->]|Hin];
         [by rewrite cmp_refl in E|by apply IH]).
  - destruct (get m k) as [v|] eqn:E; [|done]. intros _. exists (k, v).
    split; [done|]. by apply get_Some_elem.
Qed.

Lemma keys_insert m k v k' : k' ∈ keys (insert m k v) <-> k' = k \/ k' ∈ keys m.
Proof.
  rewrite !elem_keys. unfold contains_key. destruct (cmp k' k) eqn:E.
  - apply cmp_eq in E as ->. rewrite get_insert_eq. tauto.
  - rewrite get_insert_ne by by apply cmp_lt_ne. apply cmp_lt_ne in E. tauto.
  - apply cmp_gt_lt, cmp_lt_ne in E. rewrite get_insert_ne by congruence.
    split; [tauto|]. intros [->|?]; [done|done].
Qed.

Lemma keys_NoDup m : wf m -> NoDup (keys m).
Proof.
  induction m as [|[k v] m IH]; intros Hwf; [constructor|].
  apply wf_cons_inv in Hwf as [Hwf Hlt]. constructor; [|auto].
  intros ([k' v'] & Ek & Hin)%list_elem_of_fmap. simpl in Ek. subst k'.
  by apply Hlt, cmp_lt_irrefl in Hin.
Qed.

(** A map whose keys are among those of another is no longer than it. *)
Lemma len_keys_subseteq {W} m (m' : list (K * W)) :
  wf m -> (forall k, k ∈ keys m -> k ∈ keys m') -> len m <= len m'.
Proof.
  intros Hwf Hsub. unfold len.
  rewrite <- (length_fmap fst m), <- (length_fmap fst m').
  apply inj_le, submseteq_length, NoDup_submseteq; [by apply keys_NoDup|done].
Qed.

Lemma length_remove_le m k : (length (remove m k) <= length m)%nat.
Proof.
  induction m as [|[k0 v0] m IH]; simpl; [lia|]. destruct (cmp k k0); simpl; lia.
Qed.

Lemma Forall_insert (P : K * V -> Prop) m k v :
  Forall P m -> P (k, v) -> Forall P (insert m k v).
Proof.
  rewrite !Forall_forall. intros Hm Hp x Hx.
  apply elem_insert in Hx as [->|Hx]; auto.
Qed.

Lemma Forall_remove (P : K * V -> Prop) m k : Forall P m -> Forall P (remove m k).
Proof. rewrite !Forall_forall. intros Hm x Hx. eapply Hm, elem_remove, Hx. Qed.

(** Sum of an integer measure over the values. *)
Definition sum_by (f : V -> Z) m : Z := foldr (fun p acc => f p.2 + acc) 0 m.

Lemma sum_by_insert f m k v :
  wf m ->
  sum_by f (insert m k v) =
  sum_by f m - match get m k with Some v' => f v' | None => 0 end + f v.
Proof.
  induction m as [|[k0 v0] m IH]; intros Hwf; simpl; [lia|].
  pose proof (wf_cons_inv _ _ _ Hwf) as [Hm Hlt]. destruct (cmp k k0) eqn:E; simpl.
  - lia.
  - rewrite get_below; [lia|]. intros k' v' Hin. eapply cmp_trans; eauto.
  - rewrite IH by done. lia.
Qed.

Lemma sum_by_remove f m k :
  wf m -> sum_by f (remove m k) = sum_by f m - match get m k with Some v' => f v' | None => 0 end.
Proof.
  induction m as [|[k0 v0] m IH]; intros Hwf; simpl; [lia|].
  pose proof (wf_cons_inv _ _ _ Hwf) as [Hm Hlt]. destruct (cmp k k0) eqn:E; simpl.
  - lia.
  - rewrite get_below; [lia|]. intros k' v' Hin. eapply cmp_trans; eauto.
  - rewrite IH by done. lia.
Qed.

(** Updating one entry in place, creating it when absent. *)
Lemma sum_by_update f m k d (g : V -> V) (x : Z) :
  wf m -> f d = 0 -> (forall v, f (g v) = f v + x) ->
  sum_by f (insert m k (g (get_or m k d))) = sum_by f m + x.
Proof.
  intros Hwf Hd Hg. rewrite sum_by_insert by done. unfold get_or.
  destruct (get m k) as [v|]; simpl; rewrite Hg; lia.
Qed.

Lemma get_or_Forall (P : V -> Prop) m k d :
  Forall (fun p => P p.2) m -> P d -> P (get_or m k d).
Proof.
  intros Hm Hd. unfold get_or. destruct (get m k) as [v|] eqn:E; simpl; [|done].
  rewrite Forall_forall in Hm. apply (Hm (k, v)), get_Some_elem, E.
Qed.

Lemma len_insert_le m k v n :
  wf m -> len m <= n -> (get m k = None -> len m < n) -> len (insert m k v) <= n.
Proof.
  intros Hwf Hle Hnew. unfold len in *. rewrite length_insert by done. unfold contains_key.
  destruct (get m k); [done|]. specialize (Hnew eq_refl). lia.
Qed.

(** A checked summation over the values succeeds when the total fits. *)
Lemma try_fold_values {E} (f : Z -> V -> result Z E) (g : V -> Z) m acc M :
  Forall (fun p => 0 <= g p.2) m -> 0 <= acc -> acc + sum_by g m <= M ->
  (forall k v a, (k, v) ∈ m -> 0 <= a -> a + g v <= M -> f a v = Ok (a + g v)) ->
  try_fold f acc (values m) = Ok (acc + sum_by g m).
Proof.
  intros Hm. revert acc. induction Hm as [|[k v] m Hv Hm IH]; intros acc Ha HM Hf; simpl.
  - f_equal. lia.
  - assert (0 <= sum_by g m) by (clear -Hm; induction Hm; simpl; lia). simpl in *.
    rewrite (Hf k v) by (left || lia). simpl. rewrite IH; [f_equal; lia|lia|lia|].
    intros k' v' a Hin. apply (Hf k'). by right.
Qed.

Lemma sum_by_nonneg f m : Forall (fun p => 0 <= f p.2) m -> 0 <= sum_by f m.
Proof. induction 1; simpl; lia. Qed.

Lemma sum_by_get_le f m k v :
  Forall (fun p => 0 <= f p.2) m -> get m k = Some v -> f v <= sum_by f m.
Proof.
  induction m as [|[k0 v0] m IH]; simpl; [done|].
  intros [Ha Hb]%Forall_cons. pose proof (sum_by_nonneg f m Hb). simpl in *.
  destruct (cmp k k0); [intros [= ->]; lia| |]; intros Hg; specialize (IH Hb Hg); lia.
Qed.

(** The ends of the key range. *)
Lemma first_min m k v k' v' :
  wf m -> first m = Some (k, v) -> (k', v') ∈ m -> cmp k k' <> Gt.
Proof.
  destruct m as [|[k0 v0] m]; simpl; [done|]. intros Hwf [= -> ->] Hin.
  apply wf_cons_inv in Hwf as [_ Hlt].
  apply elem_of_cons in Hin as [[= -> ->]|Hin]; [by rewrite cmp_refl|].
  by rewrite (Hlt _ _ Hin).
Qed.

Lemma wf_app_lt m1 m2 k1 v1 k2 v2 :
  wf (m1 ++ m2) -> (k1, v1) ∈ m1 -> (k2, v2) ∈ m2 -> cmp k1 k2 = Lt.
Proof.
  induction m1 as [|[k v] m1 IH]; simpl; intros Hwf H1 H2.
  - by apply not_elem_of_nil in H1.
  - apply wf_cons_inv in Hwf as [Hwf Hlt].
    apply elem_of_cons in H1 as [[= -> ->]|H1]; [|auto].
    eapply Hlt. apply elem_of_app. right. exact H2.
Qed.

Lemma last_max m k v k' v' :
  wf m -> last m = Some (k, v) -> (k', v') ∈ m -> cmp k' k <> Gt.
Proof.
  intros Hwf Hl Hin. apply last_Some in Hl as [m' ->].
  apply elem_of_app in Hin as [Hin|Hin].
  - rewrite (wf_app_lt m' [(k, v)] k' v' k v); [done|done|done|left].
  - apply elem_of_cons in Hin as [[= -> ->]|Hin]; [by rewrite cmp_refl|].
    by apply not_elem_of_nil in Hin.
Qed.

Lemma first_elem m p : first m = Some p -> p ∈ m.
Proof. destruct m; simpl; [done|]. intros [= ->]. left. Qed.

Lemma last_elem m p : last m = Some p -> p ∈ m.
Proof. intros [m' ->]%last_Some. apply elem_of_app. right. left. Qed.

(** Removing the end keys, the way the trimming loops do. *)
Lemma remove_first k v m : remove ((k, v) :: m) k = m.
Proof. simpl. by rewrite cmp_refl. Qed.

Lemma remove_last k v m : wf (m ++ [(k, v)]) -> remove (m ++ [(k, v)]) k = m.
Proof.
  induction m as [|[k0 v0] m IH]; simpl; intros Hwf.
  - by rewrite cmp_refl.
  - pose proof (wf_cons_inv _ _ _ Hwf) as [Hm Hlt].
    assert (cmp k0 k = Lt) as Hk
      by (apply (Hlt k v); apply elem_of_app; right; left).
    rewrite (proj2 (cmp_gt_lt _ _) Hk). by rewrite IH.
Qed.

(** [for (k, v) in &mut map]: every value is replaced, the keys stay. *)
Definition map_values {W} (f : K -> V -> W) m : list (K * W) := map (fun p => (p.1, f p.1 p.2)) m.

Lemma get_map_values {W} (f : K -> V -> W) m k : get (map_values f m) k = f k <$> get m k.
Proof.
  induction m as [|[k' v] m IH]; [done|]. cbn. destruct (cmp k k') eqn:E; [|done|done].
  by apply cmp_eq in E as ->.
Qed.

Lemma keys_map_values {W} (f : K -> V -> W) m : keys (map_values f m) = keys m.
Proof. unfold keys, map_values. rewrite <- list_fmap_compose. by apply list_fmap_ext. Qed.

Lemma wf_map_values {W} (f : K -> V -> W) m : wf m -> wf (map_values f m).
Proof.
  induction 1 as [|[k v] m Hs IH Hk]; [constructor|]. constructor; [done|].
  apply Forall_map. by eapply Forall_impl; [exact Hk|].
Qed.

Lemma wf_sublist m1 m2 : sublist m1 m2 -> wf m2 -> wf m1.
Proof.
  induction 1 as [|x m1 m2 Hs IH|x m1 m2 Hs IH]; intros Hwf; [done| |].
  - destruct x as [k v]. apply wf_cons_inv in Hwf as [Hwf Hlt].
    apply wf_cons; [auto|]. intros k' v' Hin. eapply Hlt.
    eapply elem_of_submseteq; [exact Hin|]. by apply sublist_submseteq.
  - destruct x as [k v]. apply wf_cons_inv in Hwf as [Hwf _]. auto.
Qed.
End Facts.
End BTreeMap.

(** ** [BTreeSet]: the map with unit values *)

Module BTreeSet.
Definition insert {K} `{Ord K} (s : list (K * unit)) (k : K) := BTreeMap.insert s k tt.
Definition contains {K} `{Ord K} (s : list (K * unit)) (k : K) : bool :=
  BTreeMap.contains_key s k.
Definition elements {K} (s : list (K * unit)) : list K := s.*1.
Definition extend {K} `{Ord K} (s : list (K * unit)) (l : list K) := foldl insert s l.
End BTreeSet.

Abbreviation BTreeMap K V := (list (K * V)) (only parsing).
Abbreviation BTreeSet K := (list (K * unit)) (only parsing).

Create HintDb btree.
#[export] Hint Resolve BTreeMap.wf_empty BTreeMap.wf_insert BTreeMap.wf_remove
  BTreeMap.Forall_insert BTreeMap.Forall_remove : btree.

(** ** Sorting and extrema *)

(** What [sort_by] and [max_by] ask of a comparator. *)
Class Comparator {A} (c : A -> A -> comparison) : Prop := {
  comp_swap : forall a b, c b a = CompOpp (c a b);
  comp_trans : forall a b d, c a b <> Gt -> c b d <> Gt -> c a d <> Gt
}.

Fixpoint insert_by {A} (c : A -> A -> comparison) (x : A) (l : list A) : list A :=
  match l with
  | [] => [x]
  | y :: l' => match c x y with Gt => y :: insert_by c x l' | _ => x :: l end
  end.

(** [slice::sort_by]: a stable sort. An element is placed before the equal
    elements that follow it in the input. *)
Definition sort_by {A} (c : A -> A -> comparison) (l : list A) : list A :=
  foldr (insert_by c) [] l.

(** [Iterator::max_by]: the last of the maximal elements. *)
Definition max_by {A} (c : A -> A -> comparison) (l : list A) : option A :=
  match l with
  | [] => None
  | x :: l' => Some (foldl (fun m y => match c m y with Gt => m | _ => y end) x l')
  end.

(** [Vec::dedup]: drop an element equal to its predecessor. *)
Fixpoint dedup {A} `{EqDecision A} (l : list A) : list A :=
  match l with
  | x :: ((y :: _) as l') => if decide (x = y) then dedup l' else x :: dedup l'
  | _ => l
  end.

Section Sorting.
Context {A : Type} (c : A -> A -> comparison).

Lemma insert_by_perm x l : insert_by c x l ≡ₚ x :: l.
Proof.
  induction l as [|y l IH]; simpl; [done|]. destruct (c x y); try done.
  rewrite IH. apply Permutation_swap.
Qed.

Lemma sort_by_perm l : sort_by c l ≡ₚ l.
Proof. induction l as [|x l IH]; simpl; [done|]. by rewrite insert_by_perm, IH. Qed.

Lemma elem_of_sort_by x l : x ∈ sort_by c l <-> x ∈ l.
Proof. by rewrite sort_by_perm. Qed.

Lemma length_sort_by l : length (sort_by c l) = length l.
Proof. by rewrite sort_by_perm. Qed.

Definition not_after (a b : A) : Prop := c a b <> Gt.

Lemma insert_by_sorted `{!Comparator c} x l :
  StronglySorted not_after l -> StronglySorted not_after (insert_by c x l).
Proof.
  induction l as [|y l IH]; intros Hs; simpl; [repeat constructor|].
  apply StronglySorted_inv in Hs as [Hs Hy]. destruct (c x y) eqn:E.
  - constructor; [by constructor|]. constructor; [unfold not_after; congruence|].
    eapply Forall_impl; [exact Hy|]. intros z. apply comp_trans. congruence.
  - constructor; [by constructor|]. constructor; [unfold not_after; congruence|].
    eapply Forall_impl; [exact Hy|]. intros z. apply comp_trans. congruence.
  - constructor; [auto|]. rewrite insert_by_perm. constructor; [|done].
    unfold not_after. rewrite comp_swap, E. done.
Qed.

Lemma sort_by_sorted `{!Comparator c} l : StronglySorted not_after (sort_by c l).
Proof. induction l as [|x l IH]; simpl; [constructor|]. by apply insert_by_sorted. Qed.

Lemma max_fold_elem x l :
  foldl (fun m y => match c m y with Gt => m | _ => y end) x l ∈ x :: l.
Proof.
  revert x. induction l as [|y l IH]; intros x; simpl; [left|].
  specialize (IH (match c x y with Gt => x | _ => y end)).
  apply elem_of_cons in IH as [->|IH]; [|by right; right].
  destruct (c x y); rewrite !elem_of_cons; auto.
Qed.

Lemma max_fold_upper `{!Comparator c} x l y :
  y ∈ x :: l -> c y (foldl (fun m y => match c m y with Gt => m | _ => y end) x l) <> Gt.
Proof.
  assert (forall a, c a a <> Gt) as Hrefl.
  { intros a Ha. pose proof (comp_swap a a) as Hs. rewrite Ha in Hs. done. }
  revert x y. induction l as [|z l IH]; intros x y Hy; simpl.
  - apply list_elem_of_singleton in Hy as ->. apply Hrefl.
  - set (m := match c x z with Gt => x | _ => z end).
    assert (c x m <> Gt /\ c z m <> Gt) as [Hx Hz].
    { unfold m. destruct (c x z) eqn:E; try by (split; [congruence|apply Hrefl]).
      split; [apply Hrefl|]. rewrite comp_swap, E. done. }
    assert (c m (foldl (fun m y => match c m y with Gt => m | _ => y end) m l) <> Gt)
      as Hm by (apply IH; left).
    apply elem_of_cons in Hy as [->|Hy]; [by eapply comp_trans|].
    apply elem_of_cons in Hy as [->|Hy]; [by eapply comp_trans|].
    apply IH. by right.
Qed.

Lemma max_by_spec `{!Comparator c} l m :
  max_by c l = Some m -> m ∈ l /\ forall y, y ∈ l -> c y m <> Gt.
Proof.
  destruct l as [|x l]; simpl; [done|]. intros [= <-]. split.
  - apply max_fold_elem.
  - intros y. apply max_fold_upper.
Qed.

Lemma max_by_None l : max_by c l = None <-> l = [].
Proof. destruct l; simpl; split; congruence. Qed.
End Sorting.

(** Comparators built the way the sources build them. *)
Lemma comparator_by {A K} `{OrdLaws K} (f : A -> K) : Comparator (fun a b => cmp (f a) (f b)).
Proof.
  split.
  - intros. apply cmp_swap.
  - intros a b d H1 H2. destruct (cmp (f a) (f b)) eqn:E1; [| |done].
    + apply cmp_eq in E1 as ->. done.
    + destruct (cmp (f b) (f d)) eqn:E2; [| |done].
      * apply cmp_eq in E2 as <-. congruence.
      * rewrite (cmp_trans _ _ _ E1 E2). done.
Qed.

Lemma comparator_rev {A} (c : A -> A -> comparison) :
  Comparator c -> Comparator (fun a b => c b a).
Proof.
  intros [Hs Ht]. split; [intros; apply Hs|]. intros a b d H1 H2. eapply Ht; eauto.
Qed.

Lemma comparator_then {A} (c d : A -> A -> comparison) :
  Comparator c -> Comparator d -> Comparator (fun a b => then_with (c a b) (d a b)).
Proof.
  intros Hc Hd. split.
  - intros a b. rewrite (comp_swap (c := c) a b), (comp_swap (c := d) a b).
    by destruct (c a b).
  - intros x y z. unfold then_with.
    pose proof (comp_trans (c := c) x y z) as T1. pose proof (comp_trans (c := d) x y z) as T2.
    pose proof (comp_trans (c := c) y z x) as T3. pose proof (comp_trans (c := c) z x y) as T4.
    rewrite (comp_swap (c := c) x z) in T3, T4. rewrite (comp_swap (c := c) x y) in T3.
    rewrite (comp_swap (c := c) y z) in T4.
    destruct (c x y), (c y z), (c x z); simpl in *; intros; try congruence; intuition congruence.
Qed.

Create HintDb comparator.
#[export] Hint Resolve comparator_by comparator_rev comparator_then : comparator.

(** ** Sorted lists under the list operations queries use *)

Lemma StronglySorted_take {A} (R : A -> A -> Prop) n l :
  StronglySorted R l -> StronglySorted R (take n l).
Proof. intros H. rewrite <- (take_drop n l) in H. by apply StronglySorted_app_1_l in H. Qed.

Lemma StronglySorted_drop {A} (R : A -> A -> Prop) n l :
  StronglySorted R l -> StronglySorted R (drop n l).
Proof. intros H. rewrite <- (take_drop n l) in H. by apply StronglySorted_app_1_r in H. Qed.

Lemma StronglySorted_reverse {A} (R : A -> A -> Prop) l :
  StronglySorted R l -> StronglySorted (fun x y => R y x) (reverse l).
Proof.
  induction 1 as [|x l Hs IH Hf]; [constructor|]. rewrite reverse_cons.
  apply StronglySorted_app_2; [|done|repeat constructor].
  intros y z Hy ->%list_elem_of_singleton. rewrite Forall_forall in Hf.
  apply Hf. by apply elem_of_reverse.
Qed.
