(* ===== verification/Fixed.v ===== *)
(** * Exact fixed-point decimals ([crates/model/src/fixed.rs])

    [Fixed] is [coefficient * 10^(-scale)] with an [i128] coefficient and a
    [u8] scale.  The file models the two parsers and [rescale], and proves
    that parsing is exact, that an [ExactOnly] rescale changes the
    representation and never the value, and that every other rounding mode
    computes the rounding its name promises. *)

From stdpp Require Import base tactics numbers strings option list.
From Stdlib Require Import ZArith Lia.
From S2P Require Import Prelude.

Local Open Scope Z_scope.

(** ** Data *)

Record Fixed := mkFixed { coefficient : Z; scale : Z }.

Record Price := mkPrice { price0 : Fixed }.
Record Quantity := mkQuantity { qty0 : Fixed }.
Record Rate := mkRate { rate0 : Fixed }.

Inductive RoundingMode :=
  | ExactOnly | TowardZero | AwayFromZero
  | TowardNegInfinity | TowardPosInfinity | HalfAwayFromZero.

Inductive FixedError := Empty | InvalidSyntax | Overflow | InexactRescale | ScaleOverflow.

#[export] Instance Fixed_eq_dec : EqDecision Fixed.
Proof. solve_decision. Defined.
#[export] Instance Price_eq_dec : EqDecision Price.
Proof. solve_decision. Defined.
#[export] Instance Quantity_eq_dec : EqDecision Quantity.
Proof. solve_decision. Defined.
#[export] Instance RoundingMode_eq_dec : EqDecision RoundingMode.
Proof. solve_decision. Defined.
#[export] Instance FixedError_eq_dec : EqDecision FixedError.
Proof. solve_decision. Defined.

Definition fixed_zero : Fixed := mkFixed 0 0.

(** The values the Rust type can hold. *)
Definition fixed_ok (f : Fixed) : Prop := fits I128 (coefficient f) /\ fits U8 (scale f).

(** ** Bytes *)

Definition byte_minus : Z := 45.
Definition byte_plus : Z := 43.
Definition byte_dot : Z := 46.
Definition byte_zero : Z := 48.

Definition is_ascii_digit (b : Z) : bool := (48 <=? b) && (b <=? 57).
Definition is_exponent_mark (b : Z) : bool := (b =? 101) || (b =? 69).

(** [iter().position(p)]. *)
Fixpoint position (p : Z -> bool) (l : list Z) : option nat :=
  match l with
  | [] => None
  | b :: l' => if p b then Some 0%nat else S <$> position p l'
  end.

Definition is_nil {A} (l : list A) : bool :=
  match l with [] => true | _ => false end.

(** ** Parsing *)

Definition trim_leading_zeros (digits : list Z) : list Z :=
  match position (fun b => negb (b =? byte_zero)) digits with
  | Some first_nonzero => drop first_nonzero digits
  | None => drop (length digits - 1) digits
  end.

Definition pow10_i128 (e : Z) : result Z FixedError :=
  ok_or (checked_pow I128 10 e) Overflow.

(** One step of the digit loops: [acc * 10 + digit], checked at width [t]. *)
Definition push_digit (t : int_ty) (acc d : Z) : result Z FixedError :=
  ok_or (checked_mul t acc 10 ≫= fun c => checked_add t c (d - byte_zero)) Overflow.

(** The leading sign of a byte string: [-] negates, [+] is dropped. *)
Definition split_sign (bytes : list Z) : bool * list Z :=
  match bytes with
  | b :: tl =>
      if b =? byte_minus then (true, tl)
      else if b =? byte_plus then (false, tl)
      else (false, bytes)
  | [] => (false, [])
  end.

Definition split_point (rest : list Z) : result (list Z * list Z) FixedError :=
  match position (fun b => b =? byte_dot) rest with
  | Some dot =>
      let int_digits := take dot rest in
      let frac_digits := drop (S dot) rest in
      if is_nil int_digits && is_nil frac_digits then Err InvalidSyntax
      else if existsb (fun b => b =? byte_dot) frac_digits then Err InvalidSyntax
      else Ok (int_digits, frac_digits)
  | None => Ok (rest, [])
  end.

Definition parse_decimal (bytes : list Z) : result Fixed FixedError :=
  if is_nil bytes then Err Empty else
  let '(neg, rest) := split_sign bytes in
  if is_nil rest then Err InvalidSyntax else
  let? (int_digits, frac_digits) := split_point rest in
  let int_digits := if is_nil int_digits then [byte_zero] else int_digits in
  if negb (forallb is_ascii_digit int_digits) || negb (forallb is_ascii_digit frac_digits)
  then Err InvalidSyntax else
  let int_digits := trim_leading_zeros int_digits in
  let? scale := ok_or (to_ty U8 (Z.of_nat (length frac_digits))) ScaleOverflow in
  let? coeff := try_fold (push_digit I128) 0 (int_digits ++ frac_digits) in
  let? coeff := (if neg then ok_or (checked_neg I128 coeff) Overflow else Ok coeff) in
  Ok (mkFixed coeff scale).

Definition parse_str (s : list Z) : result Fixed FixedError :=
  match position is_exponent_mark s with
  | None => parse_decimal s
  | Some exponent_at =>
      if existsb is_exponent_mark (drop (S exponent_at) s) then Err InvalidSyntax else
      let? mantissa := parse_decimal (take exponent_at s) in
      let exponent_bytes := drop (S exponent_at) s in
      if is_nil exponent_bytes then Err InvalidSyntax else
      let '(negative_exponent, digits) := split_sign exponent_bytes in
      if is_nil digits || negb (forallb is_ascii_digit digits) then Err InvalidSyntax else
      let? exponent := try_fold (push_digit U32) 0 digits in
      if coefficient mantissa =? 0 then Ok fixed_zero else
      if negative_exponent then
        let? exponent := ok_or (to_ty U8 exponent) ScaleOverflow in
        let? scale := ok_or (checked_add U8 (scale mantissa) exponent) ScaleOverflow in
        Ok (mkFixed (coefficient mantissa) scale)
      else
        let scale := scale mantissa in
        if exponent <=? scale then Ok (mkFixed (coefficient mantissa) (scale - exponent))
        else
          let? factor := pow10_i128 (exponent - scale) in
          let? coefficient := ok_or (checked_mul I128 (coefficient mantissa) factor) Overflow in
          Ok (mkFixed coefficient 0)
  end.

(** ** Rescaling *)

(** The rounded quotient, given the truncated quotient [q] and remainder [r]. *)
Definition round_coefficient (mode : RoundingMode) (c divisor q r : Z)
    : result Z FixedError :=
  let up := ok_or (checked_add I128 q 1) Overflow in
  let down := ok_or (checked_sub I128 q 1) Overflow in
  match mode with
  | ExactOnly => Err InexactRescale
  | TowardZero => Ok q
  | AwayFromZero => if 0 <? c then up else down
  | TowardNegInfinity => if c <? 0 then down else Ok q
  | TowardPosInfinity => if 0 <? c then up else Ok q
  | HalfAwayFromZero =>
      let half := Z.quot divisor 2 in
      let abs_r := Z.abs r in
      if wrap U128 (abs_r * 2) <? Z.abs divisor then Ok q
      else if (Z.abs half <? abs_r) || (wrap U128 (abs_r * 2) =? Z.abs divisor) then
        if 0 <? c then up else down
      else Ok q
  end.

Definition rescale (f : Fixed) (new_scale : Z) (mode : RoundingMode)
    : result Fixed FixedError :=
  if new_scale =? scale f then Ok f
  else if scale f <? new_scale then
    let? factor := pow10_i128 (new_scale - scale f) in
    let? c := ok_or (checked_mul I128 (coefficient f) factor) Overflow in
    Ok (mkFixed c new_scale)
  else
    let? divisor := pow10_i128 (scale f - new_scale) in
    let q := Z.quot (coefficient f) divisor in
    let r := Z.rem (coefficient f) divisor in
    if r =? 0 then Ok (mkFixed q new_scale)
    else
      let? c := round_coefficient mode (coefficient f) divisor q r in
      Ok (mkFixed c new_scale).

(** Sample strings for the examples below. *)
Definition bytes_of_string (s : string) : list Z :=
  map (fun a => Z.of_nat (Ascii.nat_of_ascii a)) (String.list_ascii_of_string s).

Example parse_ex1 : parse_str (bytes_of_string "123.45") = Ok (mkFixed 12345 2).
Proof. reflexivity. Qed.
Example parse_ex2 : parse_str (bytes_of_string "-0.001") = Ok (mkFixed (-1) 3).
Proof. reflexivity. Qed.
Example parse_ex3 : parse_str (bytes_of_string ".5") = Ok (mkFixed 5 1).
Proof. reflexivity. Qed.
Example parse_ex4 : parse_str (bytes_of_string "9.74e-6") = Ok (mkFixed 974 8).
Proof. reflexivity. Qed.
Example parse_ex5 : parse_str (bytes_of_string "-8713e4") = Ok (mkFixed (-87130000) 0).
Proof. reflexivity. Qed.
Example parse_ex6 : parse_str (bytes_of_string "1e999999999999999999999") = Err Overflow.
Proof. reflexivity. Qed.
Example rescale_ex1 : rescale (mkFixed (-15) 1) 0 TowardNegInfinity = Ok (mkFixed (-2) 0).
Proof. reflexivity. Qed.

(** ** Powers of ten *)

Lemma pow10_i128_small e : 0 <= e <= 38 -> pow10_i128 e = Ok (10 ^ e).
Proof.
  intros He. unfold pow10_i128. rewrite checked_pow_spec by (simpl; lia).
  rewrite to_ty_fits; [done|]. unfold fits; simpl.
  assert (0 <= 10 ^ e <= 10 ^ 38) as Hp
    by (split; [apply Z.pow_nonneg | apply Z.pow_le_mono_r]; lia).
  assert (10 ^ 38 = 100000000000000000000000000000000000000) as E by reflexivity. lia.
Qed.

Lemma pow10_i128_large e : 38 < e -> pow10_i128 e = Err Overflow.
Proof.
  intros He. unfold pow10_i128. rewrite checked_pow_spec by (simpl; lia).
  destruct (to_ty I128 (10 ^ e)) eqn:E; [|done].
  apply to_ty_Some in E as [_ E]. unfold fits in E; simpl in E.
  assert (10 ^ 39 <= 10 ^ e) as Hp by (apply Z.pow_le_mono_r; lia).
  assert (10 ^ 39 = 1000000000000000000000000000000000000000) as E' by reflexivity. lia.
Qed.

Lemma pow10_i128_Ok e p : 0 <= e -> pow10_i128 e = Ok p <-> e <= 38 /\ p = 10 ^ e.
Proof.
  intros He. destruct (Z.le_gt_cases e 38).
  - rewrite pow10_i128_small by lia. split; [intros [= <-]; auto|intros [_ ->]; done].
  - rewrite pow10_i128_large by lia. split; [done|lia].
Qed.

(** The divisors and factors a rescale works with. *)
Lemma pow10_bounds e : 1 <= e <= 38 ->
  10 <= 10 ^ e <= 100000000000000000000000000000000000000 /\ 10 ^ e = 2 * (5 * 10 ^ (e - 1)).
Proof.
  intros He. replace (10 ^ e) with (10 * 10 ^ (e - 1))
    by (rewrite <- Z.pow_succ_r by lia; f_equal; lia).
  assert (1 <= 10 ^ (e - 1)) by (apply (Z.pow_le_mono_r 10 0); lia).
  assert (10 ^ (e - 1) <= 10 ^ 37) by (apply Z.pow_le_mono_r; lia).
  assert (10 ^ 37 = 10000000000000000000000000000000000000) as E by reflexivity.
  lia.
Qed.

(** ** Rescaling keeps or rounds the value *)

(** [f] and [g] denote the same rational number. *)
Definition same_value (f g : Fixed) : Prop :=
  coefficient f * 10 ^ scale g = coefficient g * 10 ^ scale f.

Lemma same_value_up c s s' c' :
  0 <= s <= s' ->
  same_value (mkFixed c s) (mkFixed c' s') <-> c' = c * 10 ^ (s' - s).
Proof.
  intros Hs. unfold same_value; simpl. replace s' with (s + (s' - s)) at 1 by lia.
  rewrite Z.pow_add_r by lia.
  assert (0 < 10 ^ s) by (apply Z.pow_pos_nonneg; lia).
  split; intros H0; [|subst; ring].
  apply (Z.mul_reg_r _ _ (10 ^ s)); [lia|]. lia.
Qed.

Lemma same_value_sym f g : same_value f g -> same_value g f.
Proof. unfold same_value. lia. Qed.

(** The rounding each mode stands for, on the quotient [n / d]. *)
Definition rounded (mode : RoundingMode) (n d : Z) : Z :=
  match mode with
  | ExactOnly | TowardZero => Z.sgn n * (Z.abs n / d)
  | AwayFromZero => - (Z.sgn n * (- Z.abs n / d))
  | TowardNegInfinity => n / d
  | TowardPosInfinity => - (- n / d)
  | HalfAwayFromZero => Z.sgn n * ((2 * Z.abs n + d) / (2 * d))
  end.

Arguments rounded : simpl never.

Lemma quot_rem_facts n d :
  0 < d ->
  n = d * Z.quot n d + Z.rem n d /\ Z.abs (Z.rem n d) < d /\ 0 <= Z.rem n d * n /\
  Z.abs (Z.quot n d) * d <= Z.abs n.
Proof.
  intros Hd. pose proof (Z.quot_rem' n d) as E.
  pose proof (Z.rem_bound_abs n d ltac:(lia)) as B.
  pose proof (Z.rem_sign_mul n d ltac:(lia)) as S.
  repeat split; [done|lia|lia|].
  pose proof (Z.quot_abs n d ltac:(lia)) as Q. rewrite (Z.abs_eq d) in Q by lia.
  rewrite <- Q. rewrite Z.mul_comm. apply Z.mul_quot_le; lia.
Qed.

Lemma div_shift a q r d : 0 < d -> a = d * q + r -> 0 <= r < d -> a / d = q.
Proof. intros. symmetry. apply (Z.div_unique a d q r); lia. Qed.

Lemma rounded_exact mode n d :
  0 < d -> Z.rem n d = 0 -> rounded mode n d = Z.quot n d.
Proof.
  intros Hd Hr. destruct (quot_rem_facts n d Hd) as (E & _ & _ & _). rewrite Hr in E.
  set (q := Z.quot n d) in *. clearbody q. rewrite Z.add_0_r in E. subst n.
  assert (Z.abs (d * q) = d * Z.abs q) as A by (rewrite Z.abs_mul; lia).
  assert (Z.sgn (d * q) = Z.sgn q) as Sg by (rewrite Z.sgn_mul, Z.sgn_pos by lia; lia).
  unfold rounded. destruct mode; rewrite ?A, ?Sg.
  1, 2: rewrite (div_shift _ (Z.abs q) 0) by lia; lia.
  - rewrite (div_shift _ (- Z.abs q) 0) by lia. lia.
  - apply (div_shift _ q 0); lia.
  - rewrite (div_shift _ (- q) 0) by lia. lia.
  - rewrite (div_shift _ (Z.abs q) d) by lia. lia.
Qed.

Lemma round_coefficient_spec mode c d h :
  fits I128 c -> 10 <= d <= 100000000000000000000000000000000000000 -> d = 2 * h ->
  Z.rem c d <> 0 -> mode <> ExactOnly ->
  round_coefficient mode c d (Z.quot c d) (Z.rem c d) = Ok (rounded mode c d).
Proof.
  intros Hc Hd Hh Hr Hm. destruct (quot_rem_facts c d ltac:(lia)) as (E & B & S & Q).
  set (q := Z.quot c d) in *. set (r := Z.rem c d) in *. clearbody q r.
  unfold fits in Hc; simpl in Hc.
  assert (Z.quot d 2 = h) as Hq2 by (subst d; rewrite Z.mul_comm; apply Z.quot_mul; lia).
  assert (Z.abs q <= 17014118346046923173168730371588410573) as Hq by lia.
  assert (ok_or (checked_add I128 q 1) Overflow = Ok (q + 1)) as Up.
  { unfold checked_add. rewrite to_ty_fits; [done|]. unfold fits; simpl. lia. }
  assert (ok_or (checked_sub I128 q 1) Overflow = Ok (q - 1)) as Dn.
  { unfold checked_sub. rewrite to_ty_fits; [done|]. unfold fits; simpl. lia. }
  unfold round_coefficient. rewrite Up, Dn, Hq2, wrap_fits by (unfold fits; simpl; lia).
  destruct (Z.lt_total c 0) as [Hneg|[H0|Hpos]]; [|subst c; nia|].
  - assert (r < 0 /\ q <= 0) as [Hrn Hqn] by nia.
    rewrite (proj2 (Z.ltb_ge 0 c)), (proj2 (Z.ltb_lt c 0)) by lia.
    unfold rounded. rewrite (Z.sgn_neg c), (Z.abs_neq c) by lia. destruct mode; try done.
    + rewrite (div_shift (- c) (- q) (- r)) by lia. f_equal. lia.
    + rewrite (div_shift (- - c) (q - 1) (r + d)) by lia. f_equal. lia.
    + by rewrite (div_shift c (q - 1) (r + d)) by lia.
    + rewrite (div_shift (- c) (- q) (- r)) by lia. f_equal. lia.
    + destruct (Z.ltb_spec (Z.abs r * 2) (Z.abs d)).
      * rewrite (div_shift _ (- q) (2 * - r + d)) by lia. f_equal. lia.
      * replace ((Z.abs h <? Z.abs r) || (Z.abs r * 2 =? Z.abs d)) with true by lia.
        rewrite (div_shift _ (- q + 1) (2 * - r - d)) by lia. f_equal. lia.
  - assert (0 < r /\ 0 <= q) as [Hrn Hqn] by nia.
    rewrite (proj2 (Z.ltb_lt 0 c)), (proj2 (Z.ltb_ge c 0)) by lia.
    unfold rounded. rewrite (Z.sgn_pos c), (Z.abs_eq c) by lia. destruct mode; try done.
    + rewrite (div_shift c q r) by lia. f_equal. lia.
    + rewrite (div_shift (- c) (- q - 1) (- r + d)) by lia. f_equal. lia.
    + by rewrite (div_shift c q r) by lia.
    + rewrite (div_shift (- c) (- q - 1) (- r + d)) by lia. f_equal. lia.
    + destruct (Z.ltb_spec (Z.abs r * 2) (Z.abs d)).
      * rewrite (div_shift _ q (2 * r + d)) by lia. f_equal. lia.
      * replace ((Z.abs h <? Z.abs r) || (Z.abs r * 2 =? Z.abs d)) with true by lia.
        rewrite (div_shift _ (q + 1) (2 * r - d)) by lia. f_equal. lia.
Qed.

Lemma rescale_same f m : rescale f (scale f) m = Ok f.
Proof. unfold rescale. by rewrite Z.eqb_refl. Qed.

(** The upward direction multiplies. *)
Lemma rescale_up f s m :
  scale f < s ->
  rescale f s m = (if s - scale f <=? 38
                   then let c := coefficient f * 10 ^ (s - scale f) in
                        if in_ty I128 c then Ok (mkFixed c s) else Err Overflow
                   else Err Overflow).
Proof.
  intros Hlt. unfold rescale.
  rewrite (proj2 (Z.eqb_neq s (scale f))), (proj2 (Z.ltb_lt (scale f) s)) by lia.
  destruct (Z.leb_spec (s - scale f) 38).
  - rewrite pow10_i128_small by lia. simpl. unfold checked_mul, to_ty.
    by destruct (in_ty I128 _).
  - by rewrite pow10_i128_large by lia.
Qed.

(** The downward direction divides and rounds. *)
Lemma rescale_down f s m :
  fits I128 (coefficient f) -> s < scale f <= s + 38 ->
  let d := 10 ^ (scale f - s) in
  rescale f s m =
    (if bool_decide (m = ExactOnly /\ Z.rem (coefficient f) d <> 0)
     then Err InexactRescale else Ok (mkFixed (rounded m (coefficient f) d) s)).
Proof.
  intros Hc Hs d. unfold rescale.
  rewrite (proj2 (Z.eqb_neq s (scale f))), (proj2 (Z.ltb_ge (scale f) s)) by lia.
  rewrite pow10_i128_small by lia. simpl.
  destruct (pow10_bounds (scale f - s) ltac:(lia)) as [Hb He]. fold d in Hb, He |- *.
  destruct (Z.eqb_spec (Z.rem (coefficient f) d) 0) as [Hr|Hr].
  - rewrite bool_decide_eq_false_2 by tauto. by rewrite rounded_exact by lia.
  - case_bool_decide as Hm.
    + by destruct Hm as [-> _].
    + erewrite round_coefficient_spec; [done| | | | |]; eauto; tauto.
Qed.

Lemma rounded_ExactOnly_value c s s' :
  0 <= s <= s' -> Z.rem c (10 ^ (s' - s)) = 0 ->
  same_value (mkFixed c s') (mkFixed (rounded ExactOnly c (10 ^ (s' - s))) s).
Proof.
  intros Hs Hr. assert (0 < 10 ^ (s' - s)) by (apply Z.pow_pos_nonneg; lia).
  apply same_value_sym, same_value_up; [done|].
  rewrite rounded_exact by done.
  destruct (quot_rem_facts c (10 ^ (s' - s))) as (E & _); [done|].
  rewrite Hr, Z.add_0_r in E. by rewrite Z.mul_comm.
Qed.

(** What a successful exact rescale gives its callers. *)
Lemma rescale_exact_Ok f s g :
  fixed_ok f -> fits U8 s -> rescale f s ExactOnly = Ok g ->
  scale g = s /\ same_value f g /\ fits I128 (coefficient g).
Proof.
  intros [Hc Hsc] Hs Hr. unfold fits in Hsc, Hs; simpl in Hsc, Hs.
  destruct f as [c sf]; simpl in *.
  destruct (Z.lt_trichotomy s sf) as [Hlt|[->|Hlt]].
  - destruct (Z.le_gt_cases (sf - s) 38) as [H38|H38].
    + rewrite rescale_down in Hr by (simpl; done || lia). simpl in Hr.
      case_bool_decide as Hm; [done|]. injection Hr as <-. simpl.
      assert (Z.rem c (10 ^ (sf - s)) = 0) as Hrem
        by (destruct (Z.eq_dec (Z.rem c (10 ^ (sf - s))) 0); tauto).
      destruct (pow10_bounds (sf - s)) as [Hb _]; [lia|].
      split; [done|]. split.
      * apply rounded_ExactOnly_value; done || lia.
      * rewrite rounded_exact by (done || lia).
        destruct (quot_rem_facts c (10 ^ (sf - s))) as (_ & _ & _ & Hq); [lia|].
        unfold fits in *; simpl in *. nia.
    + unfold rescale in Hr. simpl in Hr.
      rewrite (proj2 (Z.eqb_neq s sf)), (proj2 (Z.ltb_ge sf s)) in Hr by lia.
      by rewrite pow10_i128_large in Hr by lia.
  - rewrite (rescale_same (mkFixed c sf)) in Hr. injection Hr as <-. done.
  - rewrite rescale_up in Hr by (simpl; lia). simpl in Hr.
    destruct (s - sf <=? 38); [|done]. destruct (in_ty I128 _) eqn:E; [|done].
    injection Hr as <-. simpl. apply in_ty_true in E. split; [done|]. split; [|done].
    apply same_value_up; lia.
Qed.

Lemma same_value_unique f g h :
  0 <= scale f -> scale g = scale h -> same_value f g -> same_value f h -> g = h.
Proof.
  destruct f as [cf sf], g as [cg sg], h as [ch sh]; unfold same_value; simpl.
  intros Hsf <- H1 H2. f_equal. apply (Z.mul_reg_r _ _ (10 ^ sf)); [|lia].
  assert (0 < 10 ^ sf) by (apply Z.pow_pos_nonneg; lia). lia.
Qed.

(** An [ExactOnly] rescale succeeds exactly when the value is
    representable at the new scale, and then returns that representation: no
    digit is ever dropped silently.  Scales at most 38 apart cover every
    power of ten an [i128] holds. *)
Theorem rescale_exact_iff f s g :
  fixed_ok f -> fits U8 s -> Z.abs (scale f - s) <= 38 ->
  rescale f s ExactOnly = Ok g <->
  scale g = s /\ same_value f g /\ fits I128 (coefficient g).
Proof.
  intros Hf Hs Hd. split; [by apply rescale_exact_Ok|]. intros (Hg & Hv & Hfit).
  assert (exists g', rescale f s ExactOnly = Ok g') as [g' Hg'].
  { destruct f as [c sf], g as [cg sg]; simpl in *. subst sg. destruct Hf as [Hc Hsf].
    unfold fits in Hsf, Hs; simpl in Hsf, Hs.
    destruct (Z.lt_trichotomy s sf) as [Hlt|[->|Hlt]].
    - rewrite rescale_down by (simpl; done || lia). simpl.
      rewrite bool_decide_eq_false_2; [eauto|]. intros [_ Hrem]. apply Hrem.
      apply same_value_sym in Hv. apply same_value_up in Hv; [|lia].
      rewrite Hv. destruct (pow10_bounds (sf - s)); [lia|]. apply Z.rem_mul. lia.
    - eexists. apply (rescale_same (mkFixed c sf)).
    - rewrite rescale_up by (simpl; lia). simpl.
      rewrite (proj2 (Z.leb_le (s - sf) 38)) by lia.
      apply same_value_up in Hv; [|lia]. rewrite <- Hv.
      rewrite (proj2 (in_ty_true I128 cg)) by done. eauto. }
  rewrite Hg'. f_equal. apply rescale_exact_Ok in Hg' as (Hs' & Hv' & _); [|done|done].
  apply (same_value_unique f); [|congruence|done|done].
  destruct Hf as [_ Hsf]. unfold fits in Hsf; simpl in Hsf. lia.
Qed.

Lemma rescale_exact_iff_witness :
  rescale (mkFixed 12345 2) 4 ExactOnly = Ok (mkFixed 1234500 4).
Proof.
  apply (rescale_exact_iff (mkFixed 12345 2) 4 (mkFixed 1234500 4));
    unfold fixed_ok, fits, same_value; simpl; lia.
Defined.

(** C33. Dropping up to 38 digits with any mode other than [ExactOnly] always
    succeeds and yields the rounding the mode names: truncation, away from
    zero, floor, ceiling, or to nearest with ties away from zero. *)
Theorem rescale_rounds f s m :
  fixed_ok f -> s < scale f <= s + 38 -> m <> ExactOnly ->
  rescale f s m = Ok (mkFixed (rounded m (coefficient f) (10 ^ (scale f - s))) s).
Proof.
  intros [Hc _] Hs Hm. rewrite rescale_down by done.
  by rewrite bool_decide_eq_false_2 by tauto.
Qed.

Lemma rescale_rounds_witness :
  rescale (mkFixed (-25) 1) 0 HalfAwayFromZero = Ok (mkFixed (-3) 0).
Proof.
  apply (rescale_rounds (mkFixed (-25) 1) 0 HalfAwayFromZero);
    [unfold fixed_ok, fits; simpl; lia | simpl; lia | discriminate].
Defined.

(** Widening the scale and narrowing it back returns the original
    decimal, whatever rounding mode the way back uses. *)
Theorem rescale_roundtrip f s g m m' :
  fixed_ok f -> scale f <= s -> rescale f s m = Ok g -> rescale g (scale f) m' = Ok f.
Proof.
  intros [Hc Hsf] Hs Hr. destruct f as [c sf]; simpl in *.
  destruct (Z.eq_dec s sf) as [->|Hne].
  - rewrite (rescale_same (mkFixed c sf)) in Hr. injection Hr as <-.
    apply (rescale_same (mkFixed c sf)).
  - rewrite rescale_up in Hr by (simpl; lia). simpl in Hr.
    destruct (Z.leb_spec (s - sf) 38); [|done].
    destruct (in_ty I128 _) eqn:E; [|done]. injection Hr as <-. apply in_ty_true in E.
    rewrite rescale_down by (simpl; done || lia). simpl.
    destruct (pow10_bounds (s - sf)) as [Hb _]; [lia|].
    assert (Z.rem (c * 10 ^ (s - sf)) (10 ^ (s - sf)) = 0) as Hrem by (apply Z.rem_mul; lia).
    rewrite bool_decide_eq_false_2 by tauto.
    rewrite rounded_exact by (done || lia). by rewrite Z.quot_mul by lia.
Qed.

Lemma rescale_roundtrip_witness :
  rescale (mkFixed 12345 4) 2 TowardZero = Ok (mkFixed 123 2) /\
  rescale (mkFixed 12300 4) 2 TowardZero = Ok (mkFixed 123 2).
Proof.
  split; [reflexivity|].
  apply (rescale_roundtrip (mkFixed 123 2) 4 (mkFixed 12300 4) ExactOnly TowardZero);
    [unfold fixed_ok, fits; simpl; lia | simpl; lia | reflexivity].
Defined.

(** ** Decimal literals *)

Inductive sign_mark := NoSign | PlusSign | MinusSign.

Definition sign_bytes (s : sign_mark) : list Z :=
  match s with NoSign => [] | PlusSign => [byte_plus] | MinusSign => [byte_minus] end.

(** A literal: an optional sign, integer digits, and optionally a point
    followed by fraction digits. *)
Record literal := mkLiteral {
  lit_sign : sign_mark;
  lit_int : list Z;
  lit_frac : option (list Z)
}.

Definition render (l : literal) : list Z :=
  sign_bytes (lit_sign l) ++ lit_int l ++
  match lit_frac l with None => [] | Some f => byte_dot :: f end.

Definition digit (b : Z) : Prop := 48 <= b <= 57.

Definition literal_ok (l : literal) : Prop :=
  Forall digit (lit_int l) /\ Forall digit (default [] (lit_frac l)) /\
  lit_int l ++ default [] (lit_frac l) <> [].

(** Value of a digit string, most significant digit first. *)
Definition digits_value (acc : Z) (l : list Z) : Z :=
  foldl (fun a b => a * 10 + (b - 48)) acc l.

(** What a literal denotes, or why it has no [Fixed] representation. *)
Definition literal_value (l : literal) : result Fixed FixedError :=
  let frac := default [] (lit_frac l) in
  let v := digits_value 0 (lit_int l ++ frac) in
  if 255 <? Z.of_nat (length frac) then Err ScaleOverflow
  else if int_max I128 <? v then Err Overflow
  else Ok (mkFixed (match lit_sign l with MinusSign => - v | _ => v end)
             (Z.of_nat (length frac))).

Lemma is_ascii_digit_true b : is_ascii_digit b = true <-> digit b.
Proof. unfold is_ascii_digit, digit. lia. Qed.

Lemma forallb_digits l : forallb is_ascii_digit l = true <-> Forall digit l.
Proof.
  induction l as [|b l IH]; simpl; [split; auto|].
  rewrite andb_true_iff, IH, is_ascii_digit_true, Forall_cons. done.
Qed.

Lemma is_nil_true {A} (l : list A) : is_nil l = true <-> l = [].
Proof. destruct l; simpl; split; congruence. Qed.

Lemma position_None p l : position p l = None <-> Forall (fun b => p b = false) l.
Proof.
  induction l as [|b l IH]; simpl; [split; auto|]. rewrite Forall_cons.
  destruct (p b); simpl; [split; [done|intros [[=] _]]|].
  rewrite <- IH. destruct (position p l); simpl; split; try done; [intros [_ [=]]].
Qed.

Lemma position_Some p l n :
  position p l = Some n <->
  exists x, l = take n l ++ x :: drop (S n) l /\ p x = true /\
            Forall (fun b => p b = false) (take n l) /\ length (take n l) = n.
Proof.
  revert n. induction l as [|b l IH]; intros n; simpl.
  - split; [done|]. intros (x & H & _). by destruct (take n []).
  - destruct (p b) eqn:E.
    + split.
      * intros [= <-]. exists b. simpl. rewrite drop_0. auto.
      * intros (x & _ & _ & Hf & _). destruct n as [|n]; [done|]. simpl in Hf.
        apply Forall_cons in Hf as [? _]. congruence.
    + destruct n as [|n]; simpl.
      * split; [by destruct (position p l)|]. intros (x & [= <-] & Hx & _). congruence.
      * transitivity (position p l = Some n); [destruct (position p l); simpl; split; congruence|].
        rewrite IH. split; intros (x & H1 & H2 & H3 & H4); exists x.
        -- rewrite Forall_cons. split; [by f_equal|]. auto.
        -- apply Forall_cons in H3 as [_ H3]. injection H1 as H1. auto.
Qed.

Lemma position_app p l1 x l2 :
  Forall (fun b => p b = false) l1 -> p x = true ->
  position p (l1 ++ x :: l2) = Some (length l1).
Proof.
  induction 1 as [|b l1 Hb _ IH]; intros Hx; simpl; [by rewrite Hx|].
  rewrite Hb, (IH Hx). done.
Qed.

(** *** The digit loops *)

Lemma digits_value_app acc l1 l2 :
  digits_value acc (l1 ++ l2) = digits_value (digits_value acc l1) l2.
Proof. apply foldl_app. Qed.

Lemma digits_value_ge acc l : 0 <= acc -> Forall digit l -> acc <= digits_value acc l.
Proof.
  intros Ha Hl. revert acc Ha. induction Hl as [|b l Hb Hl IH]; intros acc Ha; simpl; [lia|].
  unfold digit in Hb. specialize (IH (acc * 10 + (b - 48))). unfold digits_value in *. lia.
Qed.

Lemma push_digit_spec t acc b :
  int_min t <= 0 -> 0 <= acc -> digit b ->
  push_digit t acc b =
    if acc * 10 + (b - 48) <=? int_max t then Ok (acc * 10 + (b - 48)) else Err Overflow.
Proof.
  unfold digit. intros Ht Ha Hb. unfold push_digit, checked_mul, checked_add, byte_zero.
  destruct (to_ty t (acc * 10)) eqn:E; simpl.
  - apply to_ty_Some in E as [-> _]. destruct (to_ty t _) eqn:E; simpl.
    + apply to_ty_Some in E as [-> E]. unfold fits in E. by rewrite (proj2 (Z.leb_le _ _)) by lia.
    + apply to_ty_None in E. unfold fits in E. by rewrite (proj2 (Z.leb_gt _ _)) by lia.
  - apply to_ty_None in E. unfold fits in E. by rewrite (proj2 (Z.leb_gt _ _)) by lia.
Qed.

Lemma digit_loop t acc l :
  int_min t <= 0 -> 0 <= acc <= int_max t -> Forall digit l ->
  try_fold (push_digit t) acc l =
    if digits_value acc l <=? int_max t then Ok (digits_value acc l) else Err Overflow.
Proof.
  intros Ht Ha Hl. revert acc Ha.
  induction Hl as [|b l Hb Hl IH]; intros acc Ha; cbn [try_fold].
  - change (digits_value acc []) with acc. by rewrite (proj2 (Z.leb_le _ _)) by lia.
  - change (digits_value acc (b :: l)) with (digits_value (acc * 10 + (b - 48)) l).
    rewrite push_digit_spec by (done || lia). unfold digit in Hb.
    assert (acc * 10 + (b - 48) <= digits_value (acc * 10 + (b - 48)) l) as Hge
      by (apply digits_value_ge; [lia|done]).
    destruct (Z.leb_spec (acc * 10 + (b - 48)) (int_max t)); simpl.
    + apply IH. lia.
    + by rewrite (proj2 (Z.leb_gt _ _)) by lia.
Qed.

Lemma zeros_value l : Forall (fun b => b = 48) l -> digits_value 0 l = 0.
Proof. induction 1 as [|b l -> _ IH]; [done|]. exact IH. Qed.

Lemma Forall_not_zero l :
  Forall (fun b => negb (b =? byte_zero) = false) l -> Forall (fun b => b = 48) l.
Proof. intros H. eapply Forall_impl; [exact H|]. intros b. unfold byte_zero. simpl. lia. Qed.

Lemma trim_leading_zeros_spec l :
  exists z, l = z ++ trim_leading_zeros l /\ Forall (fun b => b = 48) z.
Proof.
  unfold trim_leading_zeros. destruct (position _ l) as [n|] eqn:E.
  - apply position_Some in E as (x & _ & _ & Hf & _). exists (take n l).
    split; [symmetry; apply take_drop|]. by apply Forall_not_zero.
  - apply position_None in E. exists (take (length l - 1) l).
    split; [symmetry; apply take_drop|]. by apply Forall_take, Forall_not_zero.
Qed.

Lemma trimmed_value l f :
  digits_value 0 (trim_leading_zeros l ++ f) = digits_value 0 (l ++ f).
Proof.
  destruct (trim_leading_zeros_spec l) as (z & E & Hz). rewrite E at 2.
  by rewrite <- app_assoc, (digits_value_app 0 z), (zeros_value z).
Qed.

Lemma trimmed_digits l : Forall digit l -> Forall digit (trim_leading_zeros l).
Proof.
  destruct (trim_leading_zeros_spec l) as (z & E & _). rewrite E at 1.
  by intros [_ H]%Forall_app.
Qed.

(** *** The parser accepts exactly the literals *)

Definition body_bytes (int : list Z) (frac : option (list Z)) : list Z :=
  int ++ match frac with None => [] | Some f => byte_dot :: f end.

Definition is_minus (s : sign_mark) : bool :=
  match s with MinusSign => true | _ => false end.

Lemma digits_no_dot l : Forall digit l -> Forall (fun b => (b =? byte_dot) = false) l.
Proof. intros H. eapply Forall_impl; [exact H|]. unfold digit, byte_dot. simpl. lia. Qed.

Lemma split_sign_body s b rest :
  (digit b \/ b = byte_dot) ->
  split_sign (sign_bytes s ++ b :: rest) = (is_minus s, b :: rest).
Proof.
  unfold digit, byte_dot. intros Hb. destruct s; simpl; [|done|done].
  unfold byte_minus, byte_plus.
  rewrite (proj2 (Z.eqb_neq b 45)), (proj2 (Z.eqb_neq b 43)) by lia. done.
Qed.

Lemma split_point_body int frac :
  Forall digit int -> Forall digit (default [] frac) -> int ++ default [] frac <> [] ->
  split_point (body_bytes int frac) = Ok (int, default [] frac).
Proof.
  intros Hi Hf Hne. unfold split_point, body_bytes. destruct frac as [f|]; simpl in *.
  - rewrite (position_app _ int byte_dot f) by (by apply digits_no_dot || done).
    rewrite take_app_length. replace (S (length int)) with (length int + 1)%nat by lia.
    rewrite <- drop_drop, drop_app_length. simpl. rewrite drop_0.
    destruct (is_nil int && is_nil f) eqn:E.
    { apply andb_true_iff in E as [->%is_nil_true ->%is_nil_true]. done. }
    assert (existsb (fun b => b =? byte_dot) f = false) as ->; [|done].
    apply not_true_is_false. rewrite existsb_exists. intros (b & Hb & Hd).
    apply list_elem_of_In in Hb. apply digits_no_dot in Hf. rewrite Forall_forall in Hf.
    specialize (Hf b Hb). simpl in Hf. congruence.
  - rewrite app_nil_r in *. rewrite (proj2 (position_None _ int)); [done|].
    by apply digits_no_dot.
Qed.

Lemma body_head int frac :
  Forall digit int -> int ++ default [] frac <> [] ->
  exists b rest, body_bytes int frac = b :: rest /\ (digit b \/ b = byte_dot).
Proof.
  intros Hi Hne. unfold body_bytes. destruct int as [|b int]; simpl in *.
  - destruct frac as [f|]; [eauto|done].
  - apply Forall_cons in Hi as [Hb _]. eauto.
Qed.

Lemma parse_decimal_render l : literal_ok l -> parse_decimal (render l) = literal_value l.
Proof.
  destruct l as [s int frac]. intros (Hi & Hf & Hne); simpl in *.
  destruct (body_head int frac Hi Hne) as (b & rest & Eb & Hb).
  unfold parse_decimal, render; simpl. change (int ++ _) with (body_bytes int frac).
  rewrite Eb, split_sign_body by done.
  replace (is_nil (sign_bytes s ++ b :: rest)) with false by (by destruct s). simpl.
  rewrite <- Eb, split_point_body by done. simpl. set (f := default [] frac) in *.
  set (int' := if is_nil int then [byte_zero] else int).
  assert (Forall digit int' /\ digits_value 0 (int' ++ f) = digits_value 0 (int ++ f))
    as [Hi' Hv].
  { unfold int'. destruct int; simpl; [|done].
    split; [|done]. constructor; [unfold digit, byte_zero; lia|constructor]. }
  rewrite (proj2 (forallb_digits int') Hi'), (proj2 (forallb_digits f) Hf). simpl.
  unfold literal_value; simpl. fold f. unfold to_ty, in_ty; simpl.
  destruct (Z.ltb_spec 255 (Z.of_nat (length f))).
  { rewrite (proj2 (Z.leb_gt _ 255)) by lia. by rewrite andb_false_r. }
  rewrite (proj2 (Z.leb_le _ 255)), (proj2 (Z.leb_le 0 _)) by lia. simpl.
  rewrite digit_loop; [|simpl; lia|simpl; lia|by apply Forall_app_2; [apply trimmed_digits|]].
  rewrite trimmed_value, Hv. simpl.
  pose proof (digits_value_ge 0 (int ++ f)) as Hge.
  specialize (Hge ltac:(lia) ltac:(by apply Forall_app_2)).
  set (v := digits_value 0 (int ++ f)) in *. clearbody v.
  destruct (Z.leb_spec v 170141183460469231731687303715884105727); simpl.
  - rewrite (proj2 (Z.ltb_ge _ v)) by lia. destruct s; simpl; [done|done|].
    unfold checked_neg. rewrite to_ty_fits by (unfold fits; simpl; lia). done.
  - by rewrite (proj2 (Z.ltb_lt _ v)) by lia.
Qed.

Lemma split_sign_inv bytes neg rest :
  bytes <> [] -> split_sign bytes = (neg, rest) ->
  exists s, bytes = sign_bytes s ++ rest /\ neg = is_minus s.
Proof.
  destruct bytes as [|b tl]; [done|]. intros _. simpl.
  destruct (Z.eqb_spec b byte_minus) as [->|]; [intros [= <- <-]; by exists MinusSign|].
  destruct (Z.eqb_spec b byte_plus) as [->|]; [intros [= <- <-]; by exists PlusSign|].
  intros [= <- <-]. by exists NoSign.
Qed.

Lemma split_point_inv rest int f :
  rest <> [] -> split_point rest = Ok (int, f) ->
  exists frac, rest = body_bytes int frac /\ f = default [] frac /\ int ++ f <> [].
Proof.
  intros Hne. unfold split_point, body_bytes. destruct (position _ rest) as [n|] eqn:E.
  - apply position_Some in E as (x & Hx & Hd & _ & _). apply Z.eqb_eq in Hd as ->.
    destruct (is_nil (take n rest) && is_nil (drop (S n) rest)) eqn:En; [done|].
    destruct (existsb _ _); [done|]. intros [= <- <-].
    exists (Some (drop (S n) rest)). split; [done|]. split; [done|].
    intros [E1 E2]%app_nil. by rewrite E1, E2 in En.
  - intros [= <- <-]. exists None. rewrite app_nil_r. auto.
Qed.

Lemma parse_decimal_inv bytes f :
  parse_decimal bytes = Ok f -> exists l, literal_ok l /\ render l = bytes.
Proof.
  intros Hp. unfold parse_decimal in Hp. destruct (is_nil bytes) eqn:Hb; [done|].
  destruct (split_sign bytes) as [neg rest] eqn:Hs.
  destruct (is_nil rest) eqn:Hr; [done|]. apply rbind_Ok in Hp as ([int fr] & Hsp & Hp).
  destruct (split_sign_inv bytes neg rest) as (s & -> & _);
    [by intros ->|done|].
  destruct (split_point_inv rest int fr) as (frac & -> & -> & Hne); [by intros ->|done|].
  destruct (negb _ || negb _) eqn:Hd; [done|]. apply orb_false_iff in Hd as [Hd1 Hd2].
  apply negb_false_iff, forallb_digits in Hd1, Hd2.
  exists (mkLiteral s int frac). split; [|done]. split; [|done].
  destruct int; [constructor|done].
Qed.

Lemma literal_value_range l f :
  literal_ok l -> literal_value l = Ok f ->
  fixed_ok f /\ - int_max I128 <= coefficient f.
Proof.
  intros (Hi & Hf & _). unfold literal_value. set (fr := default [] (lit_frac l)) in *.
  pose proof (digits_value_ge 0 (lit_int l ++ fr)) as Hge.
  specialize (Hge ltac:(lia) ltac:(by apply Forall_app_2)).
  destruct (Z.ltb_spec 255 (Z.of_nat (length fr))); [done|].
  destruct (Z.ltb_spec (int_max I128) (digits_value 0 (lit_int l ++ fr))); [done|].
  intros [= <-]. unfold fixed_ok, fits. simpl in *. destruct (lit_sign l); lia.
Qed.

Lemma parse_decimal_range bytes f : parse_decimal bytes = Ok f -> fixed_ok f.
Proof.
  intros Hp. destruct (parse_decimal_inv _ _ Hp) as (l & Hl & <-).
  rewrite parse_decimal_render in Hp by done. by eapply literal_value_range.
Qed.

Lemma parse_str_range bytes f : parse_str bytes = Ok f -> fixed_ok f.
Proof.
  unfold parse_str. destruct (position is_exponent_mark bytes) as [k|]; [|apply parse_decimal_range].
  destruct (existsb _ _); [done|]. intros Hp. apply rbind_Ok in Hp as (m & Hm & Hp).
  destruct (is_nil (drop (S k) bytes)); [done|]. destruct (split_sign _) as [neg digits].
  destruct (_ || _) eqn:Hd; [done|]. apply orb_false_iff in Hd as [_ Hd%negb_false_iff%forallb_digits].
  pose proof (digits_value_ge 0 digits ltac:(lia) Hd) as He.
  rewrite digit_loop in Hp by (simpl; done || lia). destruct (_ <=? int_max U32); [|done]. simpl in Hp.
  apply parse_decimal_range in Hm as [Hc Hsc].
  destruct (coefficient m =? 0); [injection Hp as <-; split; solve_fits|]. destruct neg.
  - res. by split.
  - destruct (Z.leb_spec (digits_value 0 digits) (scale m)).
    + injection Hp as <-. split; [done|]. unfold fits in *. simpl in *. lia.
    + res. split; [done|solve_fits].
Qed.

(** [parse_decimal] accepts exactly the byte strings of the form
    sign, digits, optional point and digits (with at least one digit), and
    returns exactly the number they denote: every accepted string is a
    literal with that value, and every literal whose digits fit an [i128] and
    whose fraction has at most 255 digits is accepted. *)
Theorem parse_decimal_literals bytes f :
  parse_decimal bytes = Ok f <->
  exists l, literal_ok l /\ render l = bytes /\ literal_value l = Ok f.
Proof.
  split; [|intros (l & Hl & <- & <-); by apply parse_decimal_render].
  intros Hp. destruct (parse_decimal_inv _ _ Hp) as (l & Hl & <-).
  rewrite parse_decimal_render in Hp by done. eauto.
Qed.

Example parse_plus : parse_decimal (bytes_of_string "+7.") = Ok (mkFixed 7 0).
Proof. reflexivity. Qed.

(** Scientific notation is exact: [parse_str] of a mantissa, an exponent
    mark and a signed exponent returns a decimal equal to the mantissa times
    that power of ten, never a rounded one. *)
Theorem parse_str_exact s exponent_at f :
  position is_exponent_mark s = Some exponent_at -> parse_str s = Ok f ->
  exists m neg digits,
    parse_decimal (take exponent_at s) = Ok m /\
    split_sign (drop (S exponent_at) s) = (neg, digits) /\
    digits <> [] /\ Forall digit digits /\
    let e := digits_value 0 digits in
    if (neg : bool)
    then coefficient f * 10 ^ scale m * 10 ^ e = coefficient m * 10 ^ scale f
    else coefficient f * 10 ^ scale m = coefficient m * 10 ^ scale f * 10 ^ e.
Proof.
  intros Hpos. unfold parse_str. rewrite Hpos.
  destruct (existsb _ _); [done|]. intros Hp. apply rbind_Ok in Hp as (m & Hm & Hp).
  destruct (is_nil (drop (S exponent_at) s)); [done|].
  destruct (split_sign (drop (S exponent_at) s)) as [neg digits] eqn:Hs.
  destruct (is_nil digits) eqn:Hn; [done|].
  destruct (forallb is_ascii_digit digits) eqn:Hd; [|done]. simpl in Hp.
  apply forallb_digits in Hd.
  exists m, neg, digits. split; [done|]. split; [done|]. split; [by intros ->|]. split; [done|].
  pose proof (digits_value_ge 0 digits ltac:(lia) Hd) as He.
  rewrite digit_loop in Hp by (simpl; done || lia).
  destruct (digits_value 0 digits <=? int_max U32); [|done]. simpl in Hp. simpl.
  set (e := digits_value 0 digits) in *. clearbody e.
  apply parse_decimal_range in Hm as [_ Hsc]. unfold fits in Hsc; simpl in Hsc.
  destruct m as [c sc]; simpl in *. destruct (Z.eqb_spec c 0) as [->|Hc].
  { injection Hp as <-. simpl. destruct neg; lia. }
  destruct neg.
  - res. simpl. rewrite Z.pow_add_r by lia. ring.
  - destruct (Z.leb_spec e sc).
    + injection Hp as <-. simpl.
      rewrite <- Z.mul_assoc, <- Z.pow_add_r by lia. do 2 f_equal. lia.
    + res. apply pow10_i128_Ok in Hv as [_ ->]; [|lia]. simpl.
      rewrite <- Z.mul_assoc, <- Z.pow_add_r, Z.mul_1_r by lia. do 2 f_equal. lia.
Qed.

Lemma parse_str_exact_witness :
  exists m neg digits,
    parse_decimal (bytes_of_string "-9.740") = Ok m /\
    split_sign (bytes_of_string "+5") = (neg, digits) /\
    digits <> [] /\ Forall digit digits /\
    let e := digits_value 0 digits in
    if (neg : bool)
    then -974000 * 10 ^ scale m * 10 ^ e = coefficient m * 10 ^ 0
    else -974000 * 10 ^ scale m = coefficient m * 10 ^ 0 * 10 ^ e.
Proof.
  apply (parse_str_exact (bytes_of_string "-9.740e+5") 6 (mkFixed (-974000) 0));
    reflexivity.
Defined.
