(* ===== verification/Text.v ===== *)
(** * Text

    The parts of [str] that the program uses, over UTF-8 bytes: validation,
    trimming, splitting, prefixes and the parsing of integers. *)

From stdpp Require Import base tactics numbers strings option list.
From Stdlib Require Import ZArith Lia.
From S2P Require Import Prelude Bytes Fixed.

Local Open Scope Z_scope.

(** ** UTF-8 ([String::from_utf8]) and [str::trim] *)

Definition between (a b x : Z) : bool := (a <=? x) && (x <=? b).
Definition continuation (b : Z) : bool := between 0x80 0xBF b.

(** Well-formed byte sequences, Table 3-7 of the Unicode standard. *)
Fixpoint utf8_valid (l : list Z) : bool :=
  match l with
  | [] => true
  | b0 :: l1 =>
      if between 0 0x7F b0 then utf8_valid l1 else
      match l1 with
      | [] => false
      | b1 :: l2 =>
          if between 0xC2 0xDF b0 then continuation b1 && utf8_valid l2 else
          match l2 with
          | [] => false
          | b2 :: l3 =>
              if between 0xE0 0xEF b0 then
                (if b0 =? 0xE0 then between 0xA0 0xBF b1
                 else if b0 =? 0xED then between 0x80 0x9F b1 else continuation b1) &&
                continuation b2 && utf8_valid l3
              else
                match l3 with
                | [] => false
                | b3 :: l4 =>
                    between 0xF0 0xF4 b0 &&
                    (if b0 =? 0xF0 then between 0x90 0xBF b1
                     else if b0 =? 0xF4 then between 0x80 0x8F b1 else continuation b1) &&
                    continuation b2 && continuation b3 && utf8_valid l4
                end
          end
      end
  end.

(** Where validation fails ([Utf8Error]): the number of valid bytes before the
    offending sequence, and its length, or [None] when the input ends inside
    it.  [pos] counts the bytes consumed. *)
Fixpoint utf8_error (pos : Z) (l : list Z) : option (Z * option Z) :=
  match l with
  | [] => None
  | b0 :: l1 =>
      if between 0 0x7F b0 then utf8_error (pos + 1) l1
      else if between 0xC2 0xDF b0 then
        match l1 with
        | [] => Some (pos, None)
        | b1 :: l2 => if continuation b1 then utf8_error (pos + 2) l2 else Some (pos, Some 1)
        end
      else if between 0xE0 0xEF b0 then
        match l1 with
        | [] => Some (pos, None)
        | b1 :: l2 =>
            if negb (if b0 =? 0xE0 then between 0xA0 0xBF b1
                     else if b0 =? 0xED then between 0x80 0x9F b1 else continuation b1)
            then Some (pos, Some 1) else
            match l2 with
            | [] => Some (pos, None)
            | b2 :: l3 => if continuation b2 then utf8_error (pos + 3) l3 else Some (pos, Some 2)
            end
        end
      else if between 0xF0 0xF4 b0 then
        match l1 with
        | [] => Some (pos, None)
        | b1 :: l2 =>
            if negb (if b0 =? 0xF0 then between 0x90 0xBF b1
                     else if b0 =? 0xF4 then between 0x80 0x8F b1 else continuation b1)
            then Some (pos, Some 1) else
            match l2 with
            | [] => Some (pos, None)
            | b2 :: l3 =>
                if negb (continuation b2) then Some (pos, Some 2) else
                match l3 with
                | [] => Some (pos, None)
                | b3 :: l4 => if continuation b3 then utf8_error (pos + 4) l4 else Some (pos, Some 3)
                end
            end
        end
      else Some (pos, Some 1)
  end.

(** The UTF-8 encodings of the characters with the property White_Space. *)
Definition white_space : list (list Z) :=
  [[0x09]; [0x0A]; [0x0B]; [0x0C]; [0x0D]; [0x20]; [0xC2; 0x85]; [0xC2; 0xA0]; [0xE1; 0x9A; 0x80];
   [0xE2; 0x80; 0x80]; [0xE2; 0x80; 0x81]; [0xE2; 0x80; 0x82]; [0xE2; 0x80; 0x83];
   [0xE2; 0x80; 0x84]; [0xE2; 0x80; 0x85]; [0xE2; 0x80; 0x86]; [0xE2; 0x80; 0x87];
   [0xE2; 0x80; 0x88]; [0xE2; 0x80; 0x89]; [0xE2; 0x80; 0x8A]; [0xE2; 0x80; 0xA8];
   [0xE2; 0x80; 0xA9]; [0xE2; 0x80; 0xAF]; [0xE2; 0x81; 0x9F]; [0xE3; 0x80; 0x80]].

(** One white-space character off the front, with [rev] for the back. *)
Definition strip_one (spaces : list (list Z)) (l : list Z) : option (list Z) :=
  match find (fun c => bool_decide (take (length c) l = c)) spaces with
  | Some c => Some (drop (length c) l)
  | None => None
  end.

Fixpoint strip_all (fuel : nat) (spaces : list (list Z)) (l : list Z) : list Z :=
  match fuel with
  | O => l
  | S fuel => match strip_one spaces l with Some l' => strip_all fuel spaces l' | None => l end
  end.

(** Each step removes a byte, so the length is enough fuel. *)
Definition trim (l : list Z) : list Z :=
  let l := strip_all (length l) white_space l in
  rev (strip_all (length l) (@rev Z <$> white_space) (rev l)).

Lemma strip_all_length fuel spaces l : (length (strip_all fuel spaces l) <= length l)%nat.
Proof.
  revert l. induction fuel as [|fuel IH]; intros l; cbn; [lia|].
  unfold strip_one. destruct (find _ spaces) as [c|]; [|lia].
  pose proof (IH (drop (length c) l)). rewrite length_drop in *. lia.
Qed.

Lemma trim_length l : (length (trim l) <= length l)%nat.
Proof.
  unfold trim. rewrite length_rev. etrans; [apply strip_all_length|]. rewrite length_rev. apply strip_all_length.
Qed.

Definition ascii_lower (b : Z) : Z := if between 65 90 b then b + 32 else b.

Definition string_of_bytes (l : list Z) : string :=
  String.string_of_list_ascii (map (fun b => Ascii.ascii_of_nat (Z.to_nat b)) l).

(** A Rust string survives the trip through its bytes. *)
Lemma string_of_bytes_of_string s : string_of_bytes (bytes_of_string s) = s.
Proof.
  unfold string_of_bytes, bytes_of_string. rewrite map_map.
  rewrite <- (String.string_of_list_ascii_of_string s) at 2. f_equal.
  rewrite <- (map_id (String.list_ascii_of_string s)) at 2. apply map_ext. intros a.
  by rewrite Nat2Z.id, Ascii.ascii_nat_embedding.
Qed.

(** ** Splitting *)

(** The characters up to the next white space, and the rest from there on. *)
Fixpoint span_word (l : list Z) : list Z * list Z :=
  match l with
  | [] => ([], [])
  | b :: l' =>
      match strip_one white_space l with
      | Some _ => ([], l)
      | None => let '(w, rest) := span_word l' in (b :: w, rest)
      end
  end.

(** [split_whitespace]; each word takes a byte, so the length is enough
    fuel. *)
Fixpoint words (fuel : nat) (l : list Z) : list (list Z) :=
  match fuel with
  | O => []
  | S fuel =>
      match strip_all (length l) white_space l with
      | [] => []
      | l => let '(w, rest) := span_word l in w :: words fuel rest
      end
  end.
Definition split_whitespace (l : list Z) : list (list Z) := words (length l) l.

(** [split(',')] and [split_once(':')] on an ASCII separator. *)
Fixpoint split_on (sep : Z) (l : list Z) : list (list Z) :=
  match l with
  | [] => [[]]
  | b :: l =>
      match split_on sep l with
      | [] => [[b]]
      | w :: ws => if b =? sep then [] :: w :: ws else (b :: w) :: ws
      end
  end.

Fixpoint split_once (sep : Z) (l : list Z) : option (list Z * list Z) :=
  match l with
  | [] => None
  | b :: l =>
      if b =? sep then Some ([], l)
      else match split_once sep l with
           | Some (a, rest) => Some (b :: a, rest)
           | None => None
           end
  end.

Definition strip_prefix (prefix l : list Z) : option (list Z) :=
  if bool_decide (take (length prefix) l = prefix) then Some (drop (length prefix) l) else None.

Lemma strip_prefix_length prefix l rest :
  strip_prefix prefix l = Some rest -> (length rest <= length l)%nat.
Proof. unfold strip_prefix. case_bool_decide; [|done]. intros [= <-]. rewrite length_drop. lia. Qed.

(** [chars().take(n)]: whole characters, by the continuation bytes. *)
Fixpoint chars_take (n : nat) (l : list Z) : list Z :=
  match l with
  | [] => []
  | b :: l =>
      if continuation b then b :: chars_take n l
      else match n with O => [] | S n => b :: chars_take n l end
  end.

(** ** Integers ([str::parse]) *)

(** A sign is followed by at least one digit; [-] is no sign of an unsigned
    type. *)
Definition parse_int (t : int_ty) (l : list Z) : option Z :=
  let '(negative, digits) :=
    match l with
    | b :: rest => if b =? 43 then (false, rest)
                   else if (b =? 45) && (int_min t <? 0) then (true, rest) else (false, l)
    | [] => (false, [])
    end in
  if is_nil digits || negb (forallb is_ascii_digit digits) then None
  else
    let magnitude := foldl (fun acc d => 10 * acc + (d - byte_zero)) 0 digits in
    to_ty t (if negative then - magnitude else magnitude).

(** [{}] of an unsigned integer below [10^fuel]. *)
Fixpoint dec_digits (fuel : nat) (n : Z) : list Z :=
  match fuel with
  | O => []
  | S fuel => if n <? 10 then [48 + n] else dec_digits fuel (n / 10) ++ [48 + n mod 10]
  end.

Lemma parse_int_fits t l v : parse_int t l = Some v -> fits t v.
Proof.
  unfold parse_int. destruct (match l with [] => _ | _ => _ end) as [neg digits].
  destruct (_ || _); [done|]. intros E. by apply to_ty_Some in E as [-> ?].
Qed.

Example parse_int_vectors :
  (parse_int U64 (bytes_of_string "+18446744073709551615"), parse_int U64 (bytes_of_string "-0"),
   parse_int U64 (bytes_of_string "18446744073709551616"), parse_int I64 (bytes_of_string "-7"),
   parse_int U64 (bytes_of_string "+"))
  = (Some 18446744073709551615, None, None, Some (-7), None).
Proof. reflexivity. Qed.

Example split_vectors :
  (split_whitespace (bytes_of_string "  7 BID  1:2 "), split_on 44 (bytes_of_string "a,,b"),
   split_once 58 (bytes_of_string "1:2:3"))
  = (bytes_of_string <$> ["7"; "BID"; "1:2"]%string, bytes_of_string <$> ["a"; ""; "b"]%string,
     Some (bytes_of_string "1", bytes_of_string "2:3")).
Proof. reflexivity. Qed.
