(* ===== verification/Model.v ===== *)
(** * The market-data domain model ([crates/model/src])

    Identifiers, event payloads and their envelope, quality flags, instrument
    catalogs and overflow policies.  The other components exchange these
    types. *)

From stdpp Require Import base tactics numbers strings option list.
From Stdlib Require Import ZArith Lia.
From S2P Require Import Prelude Collections Fixed.

Local Open Scope Z_scope.

(** ** Identifiers and time ([ids.rs], [time.rs])

    The process-local handles are newtypes over unsigned integers and
    [TimestampNs] over [i64]; they are used as their integer. *)

Abbreviation VenueId := Z (only parsing).
Abbreviation InstrumentId := Z (only parsing).
Abbreviation ConnectionId := Z (only parsing).
Abbreviation SessionId := Z (only parsing).
Abbreviation CatalogVersion := Z (only parsing).
Abbreviation TimestampNs := Z (only parsing).
Abbreviation SourceId := string (only parsing).

Record SequenceRange := mkSequenceRange { seq_first : Z; seq_last : Z }.

Record FrameStamp := mkFrameStamp { stamp_receive_ts : TimestampNs; stamp_mono_ns : Z }.

(** ** Event flags ([flags.rs]) *)

Module EventFlags.
Definition SNAPSHOT : Z := Z.shiftl 1 0.
Definition DELTA : Z := Z.shiftl 1 1.
Definition REPLAY : Z := Z.shiftl 1 2.
Definition RECOVERED : Z := Z.shiftl 1 3.
Definition STALE : Z := Z.shiftl 1 4.
Definition OUT_OF_ORDER_SOURCE : Z := Z.shiftl 1 5.
Definition SOURCE_TIMESTAMP_MISSING : Z := Z.shiftl 1 6.
Definition SYNTHETIC : Z := Z.shiftl 1 7.
Definition RAW_REFERENCE_AVAILABLE : Z := Z.shiftl 1 8.

Definition empty : Z := 0.
Definition contains (self other : Z) : bool := Z.land self other =? other.
Definition union (self other : Z) : Z := Z.lor self other.
Definition insert (self other : Z) : Z := Z.lor self other.

(** [contains] is inclusion of bit sets. *)
Lemma contains_bits a b :
  contains a b = true <-> forall i, 0 <= i -> Z.testbit b i = true -> Z.testbit a i = true.
Proof.
  unfold contains. rewrite Z.eqb_eq. split.
  - intros H i Hi Hb. rewrite <- H, Z.land_spec in Hb. by apply andb_true_iff in Hb as [? _].
  - intros H. apply Z.bits_inj'. intros i Hi. rewrite Z.land_spec.
    destruct (Z.testbit b i) eqn:E; [by rewrite (H i Hi E)|apply andb_false_r].
Qed.

(** [union] is the least set of flags that contains both arguments. *)
Lemma union_lub a b c :
  contains c (union a b) = true <-> contains c a = true /\ contains c b = true.
Proof.
  rewrite !contains_bits. unfold union. setoid_rewrite Z.lor_spec.
  setoid_rewrite orb_true_iff. naive_solver.
Qed.
End EventFlags.

(** ** Instruments ([instrument.rs]) *)

Inductive InstrumentKind :=
  | KindSpot | PerpetualLinear | PerpetualInverse | FutureLinear | FutureInverse | KindOption.

Inductive InstrumentStatus := Active | Suspended | Expired | Delisted | StatusUnknown.

Record InstrumentKey := mkInstrumentKey {
  key_venue : string;
  native_symbol : string;
  key_kind : InstrumentKind;
  key_settlement : option string;
  key_expiry_ns : option Z
}.

Record Instrument := mkInstrument {
  inst_id : InstrumentId;
  inst_key : InstrumentKey;
  inst_base : string;
  inst_quote : string;
  inst_settlement : option string;
  inst_price_scale : Z;
  inst_quantity_scale : Z;
  inst_price_increment : Fixed;
  inst_quantity_increment : Fixed;
  inst_min_quantity : option Fixed;
  inst_max_quantity : option Fixed;
  inst_min_notional : option Fixed;
  inst_contract_size : option Fixed;
  inst_expiry_ns : option Z;
  inst_status : InstrumentStatus;
  inst_inverse : bool;
  inst_catalog_version : CatalogVersion
}.

Record InstrumentDefinition := mkInstrumentDefinition {
  def_key : InstrumentKey;
  def_base : string;
  def_quote : string;
  def_settlement : option string;
  def_price_scale : Z;
  def_quantity_scale : Z;
  def_price_increment : Fixed;
  def_quantity_increment : Fixed;
  def_min_quantity : option Fixed;
  def_max_quantity : option Fixed;
  def_min_notional : option Fixed;
  def_contract_size : option Fixed;
  def_expiry_ns : option Z;
  def_status : InstrumentStatus;
  def_inverse : bool
}.

Definition into_instrument (self : InstrumentDefinition) (id : InstrumentId)
    (catalog_version : CatalogVersion) : Instrument :=
  {| inst_id := id;
     inst_key := def_key self;
     inst_base := def_base self;
     inst_quote := def_quote self;
     inst_settlement := def_settlement self;
     inst_price_scale := def_price_scale self;
     inst_quantity_scale := def_quantity_scale self;
     inst_price_increment := def_price_increment self;
     inst_quantity_increment := def_quantity_increment self;
     inst_min_quantity := def_min_quantity self;
     inst_max_quantity := def_max_quantity self;
     inst_min_notional := def_min_notional self;
     inst_contract_size := def_contract_size self;
     inst_expiry_ns := def_expiry_ns self;
     inst_status := def_status self;
     inst_inverse := def_inverse self;
     inst_catalog_version := catalog_version |}.

Record CatalogView := mkCatalogView {
  view_venue : VenueId;
  view_version : CatalogVersion;
  view_instruments : list Instrument
}.

Definition catalog_new (venue : VenueId) (version : CatalogVersion) : CatalogView :=
  mkCatalogView venue version [].

Definition with_instruments (venue : VenueId) (version : CatalogVersion)
    (instruments : list Instrument) : CatalogView :=
  mkCatalogView venue version instruments.

Definition find_by_native (self : CatalogView) (symbol : string) : option Instrument :=
  List.find (fun i => bool_decide (native_symbol (inst_key i) = symbol))
    (view_instruments self).

(** ** Market events ([events.rs]) *)

Inductive AggressorSide := Buy | Sell | SideUnknown.
Inductive BookSide := Bid | Ask.
Inductive BookOperation := Upsert | Delete.

#[export] Instance AggressorSide_eq_dec : EqDecision AggressorSide.
Proof. solve_decision. Defined.
#[export] Instance BookSide_eq_dec : EqDecision BookSide.
Proof. solve_decision. Defined.
#[export] Instance BookOperation_eq_dec : EqDecision BookOperation.
Proof. solve_decision. Defined.

Record Trade := mkTrade {
  trade_price : Price;
  trade_quantity : Quantity;
  trade_aggressor : AggressorSide;
  trade_id : option SourceId
}.

Record Quote := mkQuote {
  bid_price : Price;
  bid_quantity : option Quantity;
  ask_price : Price;
  ask_quantity : option Quantity
}.

Record BookLevel := mkBookLevel { level_price : Price; level_quantity : Quantity }.

Record BookChange := mkBookChange {
  change_side : BookSide;
  change_operation : BookOperation;
  change_price : Price;
  change_quantity : option Quantity
}.

Record BookSnapshot := mkBookSnapshot {
  snapshot_bids : list BookLevel;
  snapshot_asks : list BookLevel;
  snapshot_depth : option Z;
  snapshot_checksum : option SourceId
}.

Record BookDelta := mkBookDelta {
  delta_changes : list BookChange;
  delta_checksum : option SourceId
}.

Record Candle := mkCandle {
  candle_open : Price;
  candle_high : Price;
  candle_low : Price;
  candle_close : Price;
  candle_volume : Quantity;
  candle_interval_ns : Z;
  candle_start_ts : TimestampNs
}.

Record PricePoint := mkPricePoint { point_price : Price }.
Record Funding := mkFunding { funding_rate : Rate; next_funding_ts : option TimestampNs }.
Record OpenInterest := mkOpenInterest { oi_quantity : Quantity }.

Record Liquidation := mkLiquidation {
  liq_price : Price;
  liq_quantity : Quantity;
  liq_side : AggressorSide
}.

Record Statistics24h := mkStatistics24h {
  stat_open : option Price;
  stat_high : option Price;
  stat_low : option Price;
  stat_close : option Price;
  stat_volume : option Quantity;
  stat_quote_volume : option Quantity
}.

Record InstrumentUpdate := mkInstrumentUpdate { update_status : InstrumentStatus }.
Record VenueStatus := mkVenueStatus { status_message : string }.

Inductive MarketEvent :=
  | EvTrade (t : Trade)
  | EvQuote (q : Quote)
  | EvBookSnapshot (s : BookSnapshot)
  | EvBookDelta (d : BookDelta)
  | EvCandle (c : Candle)
  | EvMarkPrice (p : PricePoint)
  | EvIndexPrice (p : PricePoint)
  | EvFunding (f : Funding)
  | EvOpenInterest (o : OpenInterest)
  | EvLiquidation (l : Liquidation)
  | EvStatistics24h (s : Statistics24h)
  | EvInstrumentUpdate (u : InstrumentUpdate)
  | EvVenueStatus (v : VenueStatus).

Record EventEnvelope := mkEventEnvelope {
  env_schema_version : Z;
  env_venue : VenueId;
  env_instrument : option InstrumentId;
  env_connection : ConnectionId;
  env_session : SessionId;
  env_frame_seq : Z;
  env_event_index : Z;
  env_exchange_ts : option TimestampNs;
  env_receive_ts : TimestampNs;
  env_source_sequence : option SequenceRange;
  env_flags : Z;
  env_payload : MarketEvent
}.

Inductive SystemEvent :=
  | EngineStateChanged (state : string)
  | ConnectionStateChanged (state : string)
  | SubscriptionStateChanged (state : string)
  | InstrumentCatalogUpdated (version : Z)
  | HeartbeatMissed
  | RateLimited
  | ParseError (detail : string)
  | UnknownMessage (detail : string)
  | SequenceGap (expected actual : Z)
  | ChecksumMismatch (detail : string)
  | BookInvalidated (instrument : InstrumentId) (reason : string)
  | BookSnapshotRejected (instrument : InstrumentId) (reason : string)
  | BookResynchronized (instrument : InstrumentId)
  | QueuePressure (detail : string)
  | EventsDropped (count : Z) (detail : string)
  | RecordingRotated
  | DiskPressure
  | ClockJump (delta_ns : Z)
  | SinkStateChanged (state : string)
  | ShutdownStarted
  | ShutdownCompleted.

(** ** Overflow policies ([overflow.rs]) *)

Inductive OverflowPolicy :=
  | BlockWithDeadline | DropNewest | DropOldest | LatestPerKey
  | SpillToDisk | DisableSink | FailEngine.

#[export] Instance OverflowPolicy_eq_dec : EqDecision OverflowPolicy.
Proof. solve_decision. Defined.

(** ** Catalog lookup *)

(** The looked-up instrument is in the view, carries the symbol, and is the
    first one that does. *)
Lemma find_by_native_first view symbol i :
  find_by_native view symbol = Some i <->
  exists before after,
    view_instruments view = before ++ i :: after /\
    native_symbol (inst_key i) = symbol /\
    Forall (fun j => native_symbol (inst_key j) <> symbol) before.
Proof.
  unfold find_by_native. generalize (view_instruments view) as l.
  induction l as [|j l IH]; simpl.
  - split; [done|]. intros (b & a & H & _). by destruct b.
  - case_bool_decide as Hj.
    + split.
      * intros [= <-]. exists [], l. auto.
      * intros (b & a & H & Hi & Hb). destruct b as [|k b]; simpl in H; [congruence|].
        injection H as -> ->. apply Forall_cons in Hb as [? _]. congruence.
    + rewrite IH. split.
      * intros (b & a & -> & Hi & Hb). exists (j :: b), a. auto.
      * intros (b & a & H & Hi & Hb). destruct b as [|k b]; simpl in H; [congruence|].
        injection H as -> ->. apply Forall_cons in Hb as [_ ?]. eauto.
Qed.
