(* ===== verification/OrderBook.v ===== *)
(** * The L2 order book ([crates/book/src/l2.rs])

    Both sides are [BTreeMap]s from price coefficients to quantity
    coefficients at fixed catalog scales.  A snapshot replaces the book after
    validation, a single change may invalidate it, and a multi-level message
    is applied as one transaction with an undo log. *)

From stdpp Require Import base tactics numbers strings option list sorting.
From Stdlib Require Import ZArith Lia.
From S2P Require Import Prelude Collections Fixed Model.

Local Open Scope Z_scope.

(** ** State *)

Inductive BookValidity := Valid | Synchronizing | Invalid.

Inductive BookError :=
  | NotValid (v : BookValidity)
  | NonPositiveQuantity
  | Crossed
  | InvalidDelete
  | ScaleMismatch.

Inductive BookMode :=
  | Disabled | RawDeltas | ValidatedDeltas | Maintain (depth : option Z).

#[export] Instance BookValidity_eq_dec : EqDecision BookValidity.
Proof. solve_decision. Defined.
#[export] Instance BookError_eq_dec : EqDecision BookError.
Proof. solve_decision. Defined.

Record OrderBook := mkOrderBook {
  price_scale : Z;
  qty_scale : Z;
  bids : BTreeMap Z Z;
  asks : BTreeMap Z Z;
  validity : BookValidity;
  depth : option Z;
  sequence : option Z
}.

#[export] Instance eta_OrderBook : Eta OrderBook := fun b =>
  mkOrderBook (price_scale b) (qty_scale b) (bids b) (asks b) (validity b) (depth b)
    (sequence b).

Definition new (price_scale qty_scale : Z) (depth : option Z) : OrderBook :=
  mkOrderBook price_scale qty_scale [] [] Synchronizing depth None.

Definition set_validity (self : OrderBook) (v : BookValidity) : OrderBook :=
  self ⟪ validity := v ⟫.

Definition set_sequence (self : OrderBook) (seq : Z) : OrderBook :=
  self ⟪ sequence := Some seq ⟫.

Definition clear (self : OrderBook) : OrderBook :=
  self ⟪ bids := [] ⟫ ⟪ asks := [] ⟫ ⟪ sequence := None ⟫.

(** ** Scales and levels *)

Definition scale_coeff (value : Fixed) (target_scale : Z) : result Z BookError :=
  map_err (fun _ => ScaleMismatch) (rmap coefficient (rescale value target_scale ExactOnly)).

Definition price_key (self : OrderBook) (price : Price) : result Z BookError :=
  scale_coeff (price0 price) (price_scale self).

Definition price (self : OrderBook) (coeff : Z) : Price :=
  mkPrice (mkFixed coeff (price_scale self)).

Definition qty (self : OrderBook) (coeff : Z) : Quantity :=
  mkQuantity (mkFixed coeff (qty_scale self)).

Definition levels (self : OrderBook) (side : BookSide) : BTreeMap Z Z :=
  match side with Bid => bids self | Ask => asks self end.

(** [levels.insert(price, quantity)] or [levels.remove(&price)] on one side. *)
Definition set_level (self : OrderBook) (side : BookSide) (price : Z) (quantity : option Z)
    : OrderBook :=
  let m := match quantity with
           | Some q => BTreeMap.insert (levels self side) price q
           | None => BTreeMap.remove (levels self side) price
           end in
  match side with
  | Bid => self ⟪ bids := m ⟫
  | Ask => self ⟪ asks := m ⟫
  end.

Definition upsert (self : OrderBook) (side : BookSide) (price : Price) (qty : Quantity)
    : result OrderBook BookError :=
  if coefficient (qty0 qty) <=? 0 then Err NonPositiveQuantity else
  let? pk := price_key self price in
  let? qk := scale_coeff (qty0 qty) (qty_scale self) in
  Ok (set_level self side pk (Some qk)).

Definition delete (self : OrderBook) (side : BookSide) (price : Price) : OrderBook :=
  match price_key self price with
  | Ok pk => set_level self side pk None
  | Err _ => self
  end.

(** The two trimming loops; each pass removes one level, so the number of
    levels is enough fuel. *)
Fixpoint drop_worst_bids (fuel : nat) (depth : Z) (m : BTreeMap Z Z) : BTreeMap Z Z :=
  match fuel with
  | O => m
  | S fuel' =>
      if depth <? BTreeMap.len m then
        match BTreeMap.first m with
        | Some (k, _) => drop_worst_bids fuel' depth (BTreeMap.remove m k)
        | None => m
        end
      else m
  end.

Fixpoint drop_worst_asks (fuel : nat) (depth : Z) (m : BTreeMap Z Z) : BTreeMap Z Z :=
  match fuel with
  | O => m
  | S fuel' =>
      if depth <? BTreeMap.len m then
        match BTreeMap.last m with
        | Some (k, _) => drop_worst_asks fuel' depth (BTreeMap.remove m k)
        | None => m
        end
      else m
  end.

Definition trim_depth (self : OrderBook) : OrderBook :=
  match depth self with
  | None => self
  | Some d =>
      self ⟪ bids := drop_worst_bids (length (bids self)) d (bids self) ⟫
           ⟪ asks := drop_worst_asks (length (asks self)) d (asks self) ⟫
  end.

Definition check_not_crossed (self : OrderBook) : result unit BookError :=
  match BTreeMap.last (bids self) with
  | None => Ok tt
  | Some (bid, _) =>
      match BTreeMap.first (asks self) with
      | None => Ok tt
      | Some (ask, _) => if ask <=? bid then Err Crossed else Ok tt
      end
  end.

(** ** Operations *)

Definition upsert_all (side : BookSide) (self : OrderBook) (ls : list (Price * Quantity))
    : result OrderBook BookError :=
  try_fold (fun b '(p, q) => upsert b side p q) self ls.

Definition apply_snapshot (snap_bids snap_asks : list (Price * Quantity))
    (seq : option Z) : Eff OrderBook BookError unit :=
  let! self := eget in
  let next := new (price_scale self) (qty_scale self) (depth self) in
  let next := next ⟪ validity := Synchronizing ⟫ in
  let! next := elift (upsert_all Bid next snap_bids) in
  let! next := elift (upsert_all Ask next snap_asks) in
  let next := trim_depth next in
  elift (check_not_crossed next) !;
  let next := next ⟪ validity := Valid ⟫ in
  let next := next ⟪ sequence := seq ⟫ in
  eput next.

Definition apply_change (side : BookSide) (operation : BookOperation) (price : Price)
    (quantity : option Quantity) : Eff OrderBook BookError unit :=
  let! self := eget in
  if bool_decide (validity self <> Valid) then ethrow (NotValid (validity self)) else
  match operation with
  | Delete => eput (delete self side price)
  | Upsert =>
      let! qty := elift (ok_or quantity InvalidDelete) in
      if coefficient (qty0 qty) =? 0 then eput (delete self side price)
      else
        let! self := elift (upsert self side price qty) in
        let self := trim_depth self in
        eput self !;
        match check_not_crossed self with
        | Err err => eput (self ⟪ validity := Invalid ⟫) !; ethrow err
        | Ok _ => eret tt
        end
  end.

(** One normalised mutation: side, price key, new quantity or deletion. *)
Definition mutation : Type := BookSide * Z * option Z.

Definition prepare_change (self : OrderBook) (change : BookChange)
    : result (option mutation) BookError :=
  let as_delete :=
    (fun price => (change_side change, price, None)) <$> ok (price_key self (change_price change)) in
  match change_operation change with
  | Delete => Ok as_delete
  | Upsert =>
      let? quantity := ok_or (change_quantity change) InvalidDelete in
      if coefficient (qty0 quantity) =? 0 then Ok as_delete
      else if coefficient (qty0 quantity) <? 0 then Err NonPositiveQuantity
      else
        let? price := price_key self (change_price change) in
        let? quantity := scale_coeff (qty0 quantity) (qty_scale self) in
        Ok (Some (change_side change, price, Some quantity))
  end.

Fixpoint prepare (self : OrderBook) (changes : list BookChange)
    : result (list mutation) BookError :=
  match changes with
  | [] => Ok []
  | change :: rest =>
      let? m := prepare_change self change in
      let? ms := prepare self rest in
      Ok (match m with Some x => x :: ms | None => ms end)
  end.

(** The mutation loop: record the previous quantity of a level the first time
    it is touched, then write the level. *)
Fixpoint mutate (self : OrderBook) (undo : list mutation) (recorded : list (BookSide * Z))
    (ms : list mutation) : OrderBook * list mutation :=
  match ms with
  | [] => (self, undo)
  | (side, price, quantity) :: rest =>
      let self' := set_level self side price quantity in
      if bool_decide ((side, price) ∈ recorded)
      then mutate self' undo recorded rest
      else mutate self' (undo ++ [(side, price, BTreeMap.get (levels self side) price)])
             ((side, price) :: recorded) rest
  end.

Definition rollback (self : OrderBook) (undo : list mutation) : OrderBook :=
  foldl (fun b '(side, price, previous) => set_level b side price previous) self undo.

Definition apply_changes_atomic (changes : list BookChange) : Eff OrderBook BookError unit :=
  let! self := eget in
  if bool_decide (validity self <> Valid) then ethrow (NotValid (validity self)) else
  let! prepared := elift (prepare self changes) in
  let '(self, undo) := mutate self [] [] prepared in
  eput self !;
  match check_not_crossed self with
  | Err error => eput (rollback self undo) !; ethrow error
  | Ok _ => eput (trim_depth self)
  end.

(** ** Queries *)

Definition best_bid (self : OrderBook) : option (Price * Quantity) :=
  if bool_decide (validity self <> Valid) then None
  else (fun '(p, q) => (price self p, qty self q)) <$> BTreeMap.last (bids self).

Definition best_ask (self : OrderBook) : option (Price * Quantity) :=
  if bool_decide (validity self <> Valid) then None
  else (fun '(p, q) => (price self p, qty self q)) <$> BTreeMap.first (asks self).

Definition book_level (self : OrderBook) (pq : Z * Z) : BookLevel :=
  mkBookLevel (price self pq.1) (qty self pq.2).

Definition snapshot_levels_bounded (self : OrderBook) (limit : nat)
    : option (list BookLevel * list BookLevel) :=
  if bool_decide (validity self <> Valid) then None
  else Some (book_level self <$> take limit (reverse (bids self)),
             book_level self <$> take limit (asks self)).

(** [usize::MAX] levels is all of them. *)
Definition snapshot_levels (self : OrderBook) : option (list BookLevel * list BookLevel) :=
  snapshot_levels_bounded self (max (length (bids self)) (length (asks self))).

Definition px (c : Z) : Price := mkPrice (mkFixed c 2).
Definition qt (c : Z) : Quantity := mkQuantity (mkFixed c 3).

Definition sample_book : OrderBook :=
  snd (apply_snapshot [(px 10000, qt 1000); (px 9900, qt 2000); (px 9800, qt 3000)]
         [(px 10100, qt 1500); (px 10200, qt 2500)] (Some 1) (new 2 3 (Some 2))).

Example sample_book_bids : bids sample_book = [(9900, 2000); (10000, 1000)].
Proof. reflexivity. Qed.

Example sample_book_cross :
  fst (apply_change Bid Upsert (px 10200) (Some (qt 1)) sample_book) = Err Crossed.
Proof. reflexivity. Qed.

(** ** Trimming and crossing *)

Lemma drop_worst_bids_spec d m :
  0 <= d -> drop_worst_bids (length m) d m = drop (length m - Z.to_nat d) m.
Proof.
  intros Hd. induction m as [|[k v] m IH]; [done|].
  cbn [length drop_worst_bids]. unfold BTreeMap.len. simpl length.
  destruct (Z.ltb_spec d (Z.of_nat (S (length m)))).
  - cbn [BTreeMap.first head]. rewrite BTreeMap.remove_first, IH.
    replace (S (length m) - Z.to_nat d)%nat with (S (length m - Z.to_nat d)) by lia. done.
  - replace (S (length m) - Z.to_nat d)%nat with 0%nat by lia. done.
Qed.

Lemma drop_worst_asks_spec d m :
  0 <= d -> BTreeMap.wf m ->
  drop_worst_asks (length m) d m = take (Z.to_nat d) m.
Proof.
  intros Hd. induction m as [|[k v] m IH] using rev_ind; intros Hwf; [by rewrite take_nil|].
  rewrite length_app, Nat.add_comm. cbn [length Nat.add drop_worst_asks].
  unfold BTreeMap.len. rewrite length_app. simpl length.
  destruct (Z.ltb_spec d (Z.of_nat (length m + 1))).
  - unfold BTreeMap.last. rewrite last_snoc, BTreeMap.remove_last by done.
    rewrite IH by (eapply BTreeMap.wf_sublist; [|exact Hwf]; apply sublist_inserts_r; done).
    by rewrite take_app_le by lia.
  - rewrite take_ge; [done|]. rewrite length_app. simpl. lia.
Qed.

(** Every bid is below every ask. *)
Definition uncrossed (b : OrderBook) : Prop :=
  forall p q p' q', (p, q) ∈ bids b -> (p', q') ∈ asks b -> p < p'.

Lemma Z_cmp_not_gt (a b : Z) : cmp a b <> Gt <-> a <= b.
Proof. unfold cmp, ord_Z. rewrite Z.compare_gt_iff. lia. Qed.

Lemma check_not_crossed_Ok b :
  BTreeMap.wf (bids b) -> BTreeMap.wf (asks b) ->
  check_not_crossed b = Ok tt <-> uncrossed b.
Proof.
  intros Hb Ha. unfold check_not_crossed, uncrossed.
  destruct (BTreeMap.last (bids b)) as [[bid bq]|] eqn:El.
  - destruct (BTreeMap.first (asks b)) as [[ask aq]|] eqn:Ef.
    + destruct (Z.leb_spec ask bid) as [Hle|Hlt].
      * split; [done|]. intros Hu.
        specialize (Hu bid bq ask aq (BTreeMap.last_elem _ _ El) (BTreeMap.first_elem _ _ Ef)).
        lia.
      * split; [|done]. intros _ p q p' q' Hp Hp'.
        pose proof (BTreeMap.last_max _ _ _ _ _ Hb El Hp) as H1.
        pose proof (BTreeMap.first_min _ _ _ _ _ Ha Ef Hp') as H2.
        rewrite Z_cmp_not_gt in H1, H2. lia.
    + split; [|done]. intros _ p q p' q' _ Hp'. destruct (asks b); [|done].
      by apply not_elem_of_nil in Hp'.
  - split; [|done]. intros _ p q p' q' Hp _. apply last_None in El. rewrite El in Hp.
    by apply not_elem_of_nil in Hp.
Qed.

Lemma check_not_crossed_Err b e : check_not_crossed b = Err e -> e = Crossed.
Proof. unfold check_not_crossed. repeat case_match; congruence. Qed.

(** ** Invariant *)

Definition level_ok (p : Z * Z) : Prop := fits I128 p.1 /\ 0 < p.2 <= int_max I128.

(** Sorted sides with positive quantities at legal scales. *)
Record book_wf (b : OrderBook) : Prop := {
  wf_price_scale : fits U8 (price_scale b);
  wf_qty_scale : fits U8 (qty_scale b);
  wf_depth : forall d, depth b = Some d -> 0 <= d;
  wf_bids : BTreeMap.wf (bids b);
  wf_asks : BTreeMap.wf (asks b);
  wf_bid_levels : Forall level_ok (bids b);
  wf_ask_levels : Forall level_ok (asks b)
}.

Definition depth_ok (b : OrderBook) : Prop :=
  forall d, depth b = Some d -> BTreeMap.len (bids b) <= d /\ BTreeMap.len (asks b) <= d.

(** The whole invariant: a well-formed book that, while [Valid], is uncrossed
    and within its depth. *)
Definition book_ok (b : OrderBook) : Prop :=
  book_wf b /\ (validity b = Valid -> uncrossed b /\ depth_ok b).

Definition level_input_ok (pq : Price * Quantity) : Prop :=
  fixed_ok (price0 pq.1) /\ fixed_ok (qty0 pq.2).

Ltac solve_input :=
  simpl; first [solve_fits | discriminate | by intros ? [= <-]; split; solve_fits].

Definition change_input_ok (p : Price) (q : option Quantity) : Prop :=
  fixed_ok (price0 p) /\ forall q', q = Some q' -> fixed_ok (qty0 q').

Lemma wf_levels_side b s : book_wf b -> BTreeMap.wf (levels b s) /\ Forall level_ok (levels b s).
Proof. intros []. by destruct s. Qed.

Lemma book_wf_new ps qs d :
  fits U8 ps -> fits U8 qs -> (forall d', d = Some d' -> 0 <= d') -> book_wf (new ps qs d).
Proof. intros. split; simpl; first [done | apply BTreeMap.wf_empty | constructor]. Qed.

(** Well-formedness does not depend on the validity and the sequence. *)
Lemma book_wf_validity b v : book_wf b -> book_wf (b ⟪ validity := v ⟫).
Proof. by intros []. Qed.

Lemma book_wf_sequence b s : book_wf b -> book_wf (b ⟪ sequence := s ⟫).
Proof. by intros []. Qed.

Lemma scale_coeff_Ok f s c :
  fixed_ok f -> fits U8 s -> scale_coeff f s = Ok c ->
  fits I128 c /\ same_value f (mkFixed c s).
Proof.
  intros Hf Hs. unfold scale_coeff. destruct (rescale f s ExactOnly) as [g|] eqn:E; [|done].
  intros [= <-]. apply rescale_exact_Ok in E as (<- & Hv & Hg); [|done|done].
  split; [done|]. by destruct g.
Qed.

Lemma same_value_pos f c s :
  0 <= s -> 0 <= scale f -> same_value f (mkFixed c s) -> 0 < coefficient f -> 0 < c.
Proof.
  unfold same_value; simpl. intros Hs Hf H Hc.
  assert (0 < 10 ^ s) by (apply Z.pow_pos_nonneg; lia).
  assert (0 < 10 ^ scale f) by (apply Z.pow_pos_nonneg; lia). nia.
Qed.

(** Every level the book stores is legal. *)
Lemma stored_level_ok b p q pk qk :
  book_wf b -> level_input_ok (p, q) -> 0 < coefficient (qty0 q) ->
  price_key b p = Ok pk -> scale_coeff (qty0 q) (qty_scale b) = Ok qk -> level_ok (pk, qk).
Proof.
  intros Hb [Hp Hq] Hpos Hpk Hqk. simpl in *.
  apply scale_coeff_Ok in Hpk as [Hpk _]; [|done|apply Hb].
  pose proof Hqk as Hqk'. apply scale_coeff_Ok in Hqk' as [Hqf Hv]; [|done|apply Hb].
  split; [done|]. split; [|solve_fits].
  destruct Hq as [_ Hs]. pose proof (wf_qty_scale b Hb).
  eapply same_value_pos; [| |exact Hv|done]; solve_fits.
Qed.

Lemma set_level_wf b s p q :
  book_wf b -> (forall q', q = Some q' -> level_ok (p, q')) -> book_wf (set_level b s p q).
Proof.
  intros [] Hl. unfold set_level. destruct s, q as [q|]; split; simpl; try done;
    first [by apply BTreeMap.wf_insert | by apply BTreeMap.wf_remove
          | by apply BTreeMap.Forall_remove | apply BTreeMap.Forall_insert; auto].
Qed.

Definition book_sorted (b : OrderBook) : Prop := forall s, BTreeMap.wf (levels b s).

Lemma book_wf_sorted b : book_wf b -> book_sorted b.
Proof. intros Hb s. by apply wf_levels_side. Qed.

Lemma set_level_sorted b s p q : book_sorted b -> book_sorted (set_level b s p q).
Proof.
  intros Hb s'. pose proof (Hb Bid). pose proof (Hb Ask). unfold set_level.
  destruct s, s', q as [q|]; simpl; try done;
    first [by apply BTreeMap.wf_insert | by apply BTreeMap.wf_remove].
Qed.

Lemma get_set_level b s p q s' p' :
  book_sorted b ->
  BTreeMap.get (levels (set_level b s p q) s') p' =
  if decide ((s', p') = (s, p)) then q else BTreeMap.get (levels b s') p'.
Proof.
  intros Hb. pose proof (Hb s) as Hwf.
  destruct (decide ((s', p') = (s, p))) as [[= -> ->]|Hne].
  - unfold set_level. destruct s, q as [q|]; simpl;
      by rewrite ?BTreeMap.get_insert_eq, ?BTreeMap.get_remove_eq.
  - unfold set_level. destruct s, s', q as [q|]; simpl; try done;
      by rewrite ?BTreeMap.get_insert_ne, ?BTreeMap.get_remove_ne by congruence.
Qed.

Lemma upsert_wf b s p q b' :
  book_wf b -> level_input_ok (p, q) -> upsert b s p q = Ok b' -> book_wf b'.
Proof.
  intros Hb Hin. unfold upsert. destruct (Z.leb_spec (coefficient (qty0 q)) 0); [done|].
  intros Hu. res. apply set_level_wf; [done|]. intros q' [= <-]. by eapply stored_level_ok.
Qed.

Lemma delete_wf b s p : book_wf b -> book_wf (delete b s p).
Proof.
  intros Hb. unfold delete. destruct (price_key b p); [|done]. by apply set_level_wf.
Qed.

Lemma trim_depth_eq b :
  (forall d, depth b = Some d -> 0 <= d) -> book_sorted b ->
  trim_depth b =
  match depth b with
  | None => b
  | Some d => b ⟪ bids := drop (length (bids b) - Z.to_nat d) (bids b) ⟫
                ⟪ asks := take (Z.to_nat d) (asks b) ⟫
  end.
Proof.
  intros Hn Hb. unfold trim_depth. destruct (depth b) as [d|] eqn:Hd; [|done].
  specialize (Hn d eq_refl).
  by rewrite drop_worst_bids_spec, drop_worst_asks_spec by (done || apply (Hb Ask)).
Qed.

Lemma trim_depth_wf b : book_wf b -> book_wf (trim_depth b).
Proof.
  intros Hb. rewrite trim_depth_eq by (apply Hb || by apply book_wf_sorted).
  destruct (depth b) as [d|] eqn:Hd; [|done]. destruct Hb as [H1 H2 H3 H4 H5 H6 H7]. split; simpl; auto.
  - eapply BTreeMap.wf_sublist; [apply sublist_drop|done].
  - eapply BTreeMap.wf_sublist; [apply sublist_take|done].
  - by apply Forall_drop.
  - by apply Forall_take.
Qed.

Lemma trim_depth_bounded b :
  (forall d, depth b = Some d -> 0 <= d) -> book_sorted b -> depth_ok (trim_depth b).
Proof.
  intros Hn Hb. rewrite trim_depth_eq by done. destruct (depth b) as [d|] eqn:Hd.
  - intros d' Hd'. simpl in *. assert (d' = d) as -> by congruence.
    specialize (Hn d eq_refl). unfold BTreeMap.len. simpl.
    rewrite length_drop, length_take. lia.
  - intros d Hd'. congruence.
Qed.

Lemma trim_depth_uncrossed b :
  (forall d, depth b = Some d -> 0 <= d) -> book_sorted b ->
  uncrossed b -> uncrossed (trim_depth b).
Proof.
  intros Hn Hb Hu. rewrite trim_depth_eq by done. destruct (depth b) as [d|]; [|done].
  intros p q p' q' Hp Hp'. simpl in *. eapply Hu.
  - eapply elem_of_submseteq; [exact Hp|]. apply sublist_submseteq, sublist_drop.
  - eapply elem_of_submseteq; [exact Hp'|]. apply sublist_submseteq, sublist_take.
Qed.

Lemma trim_depth_fields b :
  validity (trim_depth b) = validity b /\ sequence (trim_depth b) = sequence b /\
  depth (trim_depth b) = depth b /\ price_scale (trim_depth b) = price_scale b /\
  qty_scale (trim_depth b) = qty_scale b.
Proof. unfold trim_depth. destruct (depth b) eqn:E; simpl; rewrite ?E; auto 10. Qed.

Lemma set_level_fields b s p q :
  validity (set_level b s p q) = validity b /\ sequence (set_level b s p q) = sequence b /\
  depth (set_level b s p q) = depth b /\ price_scale (set_level b s p q) = price_scale b /\
  qty_scale (set_level b s p q) = qty_scale b.
Proof. unfold set_level. by destruct s. Qed.

(** Deleting a level keeps an uncrossed, bounded book so. *)
Lemma remove_level_ok b s p :
  book_wf b -> uncrossed b /\ depth_ok b ->
  uncrossed (set_level b s p None) /\ depth_ok (set_level b s p None).
Proof.
  intros Hb [Hu Hd]. unfold set_level. split.
  - intros x q x' q'. destruct s; simpl; intros Hx Hx'; eapply Hu; eauto;
      by eapply BTreeMap.elem_remove.
  - intros d E. specialize (Hd d). unfold BTreeMap.len in *.
    destruct s; simpl in *; specialize (Hd E);
      [pose proof (BTreeMap.length_remove_le (bids b) p)
      |pose proof (BTreeMap.length_remove_le (asks b) p)]; lia.
Qed.

Lemma delete_ok b s p : book_ok b -> book_ok (delete b s p).
Proof.
  intros [Hb Hv]. split; [by apply delete_wf|]. unfold delete.
  destruct (price_key b p) as [pk|]; [|done].
  destruct (set_level_fields b s pk None) as (-> & _). intros HV.
  apply remove_level_ok; auto.
Qed.

(** ** The undo log *)

(** All the writes of a message, without the log. *)
Definition write_all (b : OrderBook) (ms : list mutation) : OrderBook :=
  foldl (fun b '(s, p, q) => set_level b s p q) b ms.

Lemma mutate_writes b undo recorded ms : fst (mutate b undo recorded ms) = write_all b ms.
Proof.
  revert b undo recorded. induction ms as [|[[s p] q] ms IH]; intros; simpl; [done|].
  case_bool_decide; apply IH.
Qed.

Lemma write_all_sorted b ms : book_sorted b -> book_sorted (write_all b ms).
Proof.
  revert b. induction ms as [|[[s p] q] ms IH]; intros b Hb; simpl; [done|].
  by apply IH, set_level_sorted.
Qed.

Lemma write_all_fields b ms :
  validity (write_all b ms) = validity b /\ sequence (write_all b ms) = sequence b /\
  depth (write_all b ms) = depth b /\ price_scale (write_all b ms) = price_scale b /\
  qty_scale (write_all b ms) = qty_scale b.
Proof.
  revert b. induction ms as [|[[s p] q] ms IH]; intros b; simpl; [auto|].
  destruct (IH (set_level b s p q)) as (-> & -> & -> & -> & ->). apply set_level_fields.
Qed.

(** The log records the original quantity of every level it mentions, and
    mentions every level that may have changed. *)
Definition log_ok (b0 b : OrderBook) (undo : list mutation) : Prop :=
  (forall s p q, (s, p, q) ∈ undo -> q = BTreeMap.get (levels b0 s) p) /\
  (forall s p, (s, p) ∈ undo.*1 \/
               BTreeMap.get (levels b s) p = BTreeMap.get (levels b0 s) p).

Lemma mutate_log b0 b undo recorded ms :
  book_sorted b -> log_ok b0 b undo -> (forall x, x ∈ recorded <-> x ∈ undo.*1) ->
  let '(b', undo') := mutate b undo recorded ms in log_ok b0 b' undo'.
Proof.
  revert b undo recorded.
  induction ms as [|[[s p] q] ms IH]; intros b undo recorded Hb [Hu Hg] Hr; simpl; [done|].
  assert (forall undo' : list mutation, (s, p) ∈ undo'.*1 -> (forall x, x ∈ undo.*1 -> x ∈ undo'.*1) ->
    forall s' p', (s', p') ∈ undo'.*1 \/
      BTreeMap.get (levels (set_level b s p q) s') p' = BTreeMap.get (levels b0 s') p') as Hset.
  { intros undo' Hin Hsub s' p'. rewrite get_set_level by done.
    destruct (decide ((s', p') = (s, p))) as [[= -> ->]|_]; [by left|].
    destruct (Hg s' p'); auto. }
  case_bool_decide as Hin.
  - apply IH; [by apply set_level_sorted| |done]. split; [done|].
    apply Hset; [by apply Hr|done].
  - apply IH; [by apply set_level_sorted| |].
    + split.
      * intros s' p' q' [H|H]%elem_of_app; [by apply Hu|].
        apply list_elem_of_singleton in H as [= -> -> ->].
        destruct (Hg s p) as [H|H]; [|done]. by apply Hr in H.
      * apply Hset; [|intros x Hx]; rewrite fmap_app; apply elem_of_app; [right; left|by left].
    + intros x. rewrite fmap_app, elem_of_cons, elem_of_app, Hr. simpl.
      rewrite list_elem_of_singleton. tauto.
Qed.

Lemma rollback_get b0 b undo s p :
  book_sorted b -> log_ok b0 b undo ->
  BTreeMap.get (levels (rollback b undo) s) p = BTreeMap.get (levels b0 s) p.
Proof.
  intros Hb [Hu Hg]. specialize (Hg s p). revert b Hb Hg.
  induction undo as [|[[s1 p1] q1] undo IH]; intros b Hb Hg; simpl.
  - destruct Hg as [Hg|Hg]; [by apply not_elem_of_nil in Hg|done].
  - apply IH; [intros; apply Hu; by right|by apply set_level_sorted|].
    rewrite get_set_level by done.
    destruct (decide ((s, p) = (s1, p1))) as [[= -> ->]|Hne].
    + right. apply Hu. left.
    + destruct Hg as [Hg|Hg]; [|by right]. simpl in Hg.
      apply elem_of_cons in Hg as [Hg|Hg]; [congruence|by left].
Qed.

Lemma book_ext b1 b2 :
  book_sorted b1 -> book_sorted b2 ->
  (forall s p, BTreeMap.get (levels b1 s) p = BTreeMap.get (levels b2 s) p) ->
  validity b1 = validity b2 -> sequence b1 = sequence b2 -> depth b1 = depth b2 ->
  price_scale b1 = price_scale b2 -> qty_scale b1 = qty_scale b2 -> b1 = b2.
Proof.
  intros H1 H2 Hg. pose proof (BTreeMap.map_ext _ _ (H1 Bid) (H2 Bid) (Hg Bid)) as Eb.
  pose proof (BTreeMap.map_ext _ _ (H1 Ask) (H2 Ask) (Hg Ask)) as Ea.
  destruct b1, b2; simpl in *. congruence.
Qed.

Lemma rollback_restores b ms :
  book_sorted b -> let '(b', undo) := mutate b [] [] ms in rollback b' undo = b.
Proof.
  intros Hb. pose proof (mutate_log b b [] [] ms Hb) as Hl.
  destruct (mutate b [] [] ms) as [b' undo] eqn:Em.
  assert (b' = write_all b ms) as Eb' by (by rewrite <- (mutate_writes b [] []), Em).
  assert (book_sorted b') as Hb' by (subst; by apply write_all_sorted).
  assert (log_ok b b' undo) as Hlog.
  { apply Hl; [|done]. split; [|auto]. intros s p q H. by apply not_elem_of_nil in H. }
  pose proof (write_all_fields b' undo) as F. change (write_all b' undo) with (rollback b' undo) in F.
  pose proof (write_all_fields b ms) as F'. rewrite <- Eb' in F'.
  apply book_ext; try (intuition congruence).
  - by apply (write_all_sorted b' undo).
  - intros. by apply rollback_get.
Qed.

(** ** Shape of the operations *)

Lemma upsert_all_wf s b ls b' :
  book_wf b -> Forall level_input_ok ls -> upsert_all s b ls = Ok b' -> book_wf b'.
Proof.
  intros Hb Hls. unfold upsert_all. apply try_fold_inv; [done|].
  intros b0 [p q] b1 Hb0 Hin. rewrite Forall_forall in Hls. apply upsert_wf; auto.
Qed.

Lemma upsert_fields b s p q b' :
  upsert b s p q = Ok b' ->
  validity b' = validity b /\ sequence b' = sequence b /\ depth b' = depth b /\
  price_scale b' = price_scale b /\ qty_scale b' = qty_scale b.
Proof.
  unfold upsert. destruct (_ <=? 0); [done|]. intros Hu. res. apply set_level_fields.
Qed.

Lemma upsert_all_fields s b ls b' :
  upsert_all s b ls = Ok b' ->
  validity b' = validity b /\ sequence b' = sequence b /\ depth b' = depth b /\
  price_scale b' = price_scale b /\ qty_scale b' = qty_scale b.
Proof.
  unfold upsert_all. apply (try_fold_inv (fun b' => validity b' = validity b /\
    sequence b' = sequence b /\ depth b' = depth b /\ price_scale b' = price_scale b /\
    qty_scale b' = qty_scale b)); [auto|].
  intros b0 [p q] b1 (<- & <- & <- & <- & <-) _. apply upsert_fields.
Qed.

Lemma apply_snapshot_Ok bs asks0 seq b b' :
  apply_snapshot bs asks0 seq b = (Ok tt, b') <->
  exists b1 b2,
    upsert_all Bid (new (price_scale b) (qty_scale b) (depth b)) bs = Ok b1 /\
    upsert_all Ask b1 asks0 = Ok b2 /\
    check_not_crossed (trim_depth b2) = Ok tt /\
    b' = (trim_depth b2) ⟪ validity := Valid ⟫ ⟪ sequence := seq ⟫.
Proof.
  unfold apply_snapshot. eff_unfold. change ((new ?x ?y ?z) ⟪ validity := Synchronizing ⟫) with (new x y z).
  destruct (upsert_all Bid _ bs) as [b1|]; [|split; [done|intros (? & ? & ? & ? & ? & ?); congruence]].
  destruct (upsert_all Ask b1 asks0) as [b2|] eqn:E2; [|split; [done|intros (? & ? & ? & ? & ? & ?); congruence]].
  destruct (check_not_crossed (trim_depth b2)) as [[]|] eqn:E3.
  - split; [intros [= <-]; eauto 10|].
    intros (b1' & b2' & [= <-] & E2' & _ & ->). rewrite E2 in E2'. by injection E2' as <-.
  - split; [done|]. intros (b1' & b2' & [= <-] & E2' & E3' & _). congruence.
Qed.

Lemma apply_snapshot_Err bs asks0 seq b e b' :
  apply_snapshot bs asks0 seq b = (Err e, b') -> b' = b.
Proof.
  unfold apply_snapshot. eff_unfold. repeat case_match; congruence.
Qed.

(** A change either fails without touching the book, or writes one level (and
    trims); only a crossing write invalidates. *)
Inductive change_outcome (b : OrderBook) (s : BookSide)
    : result unit BookError -> OrderBook -> Prop :=
  | change_rejected e : e <> Crossed -> change_outcome b s (Err e) b
  | change_unmatched_delete : validity b = Valid -> change_outcome b s (Ok tt) b
  | change_deleted pk :
      validity b = Valid -> change_outcome b s (Ok tt) (set_level b s pk None)
  | change_written pk qk :
      validity b = Valid ->
      check_not_crossed (trim_depth (set_level b s pk (Some qk))) = Ok tt ->
      change_outcome b s (Ok tt) (trim_depth (set_level b s pk (Some qk)))
  | change_crossed pk qk :
      validity b = Valid ->
      check_not_crossed (trim_depth (set_level b s pk (Some qk))) = Err Crossed ->
      change_outcome b s (Err Crossed)
        ((trim_depth (set_level b s pk (Some qk))) ⟪ validity := Invalid ⟫).

Lemma upsert_not_crossed b s p q e : upsert b s p q = Err e -> e <> Crossed.
Proof.
  unfold upsert, price_key, scale_coeff. destruct (_ <=? 0); [congruence|].
  destruct (rescale (price0 p) _ _); simpl; [|congruence].
  destruct (rescale (qty0 q) _ _); simpl; congruence.
Qed.

Lemma apply_change_outcome b s op p q :
  change_outcome b s (fst (apply_change s op p q b)) (snd (apply_change s op p q b)).
Proof.
  unfold apply_change. eff_unfold. case_bool_decide as Hv; [by constructor|].
  assert (validity b = Valid) as Hval by (destruct (validity b); [done| |]; destruct Hv; done).
  assert (change_outcome b s (Ok tt) (delete b s p)) as Hdel.
  { unfold delete. destruct (price_key b p); by constructor. }
  destruct op; [|done]. destruct q as [q|]; simpl; [|by constructor].
  destruct (coefficient (qty0 q) =? 0); [done|].
  destruct (upsert b s p q) as [b1|e] eqn:Hu; simpl.
  - unfold upsert in Hu. destruct (_ <=? 0); [done|]. res.
    destruct (check_not_crossed _) as [[]|e] eqn:Hc; simpl; [by constructor|].
    pose proof (check_not_crossed_Err _ _ Hc) as ->. by constructor.
  - constructor. by eapply upsert_not_crossed.
Qed.

Lemma apply_change_wf b s op p q :
  book_wf b -> change_input_ok p q -> book_wf (snd (apply_change s op p q b)).
Proof.
  intros Hb [Hp Hq]. unfold apply_change. eff_unfold. case_bool_decide; [done|].
  destruct op; simpl; [|by apply delete_wf]. destruct q as [q|]; simpl; [|done].
  destruct (coefficient (qty0 q) =? 0); simpl; [by apply delete_wf|].
  destruct (upsert b s p q) as [b1|] eqn:Hu; simpl; [|done].
  assert (book_wf (trim_depth b1)) as Ht
    by (apply trim_depth_wf; eapply upsert_wf; [done| |done]; split; simpl; auto).
  destruct (check_not_crossed _); simpl; [done|by apply book_wf_validity].
Qed.

Lemma apply_change_ok b s op p q :
  book_ok b -> change_input_ok p q -> book_ok (snd (apply_change s op p q b)).
Proof.
  intros [Hb Hv] Hin. pose proof (apply_change_wf b s op p q Hb Hin) as Hwf.
  split; [done|]. pose proof (apply_change_outcome b s op p q) as Ho. revert Hwf Ho.
  generalize (fst (apply_change s op p q b)) as r, (snd (apply_change s op p q b)) as b'.
  intros r b' Hwf Ho. destruct Ho; [done|done| | |done].
  - intros _. apply remove_level_ok; auto.
  - intros _. split.
    + apply check_not_crossed_Ok; [apply Hwf|apply Hwf|done].
    + apply trim_depth_bounded; [|by apply set_level_sorted, book_wf_sorted].
      destruct (set_level_fields b s pk (Some qk)) as (_ & _ & -> & _). apply Hb.
Qed.

Lemma apply_snapshot_ok bs asks0 seq b :
  book_ok b -> Forall level_input_ok bs -> Forall level_input_ok asks0 ->
  book_ok (snd (apply_snapshot bs asks0 seq b)).
Proof.
  intros [Hb Hv] Hbs Has.
  destruct (apply_snapshot bs asks0 seq b) as [[[]|e] b'] eqn:E; simpl.
  - apply apply_snapshot_Ok in E as (b1 & b2 & E1 & E2 & E3 & ->).
    assert (book_wf b2) as Hb2.
    { eapply upsert_all_wf; [|exact Has|exact E2].
      eapply upsert_all_wf; [|exact Hbs|exact E1]. apply book_wf_new; apply Hb. }
    pose proof (trim_depth_wf b2 Hb2) as Ht. split.
    + by apply book_wf_sequence, book_wf_validity.
    + intros _. split; [|by apply trim_depth_bounded; [apply Hb2|apply book_wf_sorted]].
      apply check_not_crossed_Ok in E3; [done|apply Ht|apply Ht].
  - apply apply_snapshot_Err in E as ->. done.
Qed.

Definition change_ok (c : BookChange) : Prop :=
  change_input_ok (change_price c) (change_quantity c).

Definition mutation_ok (m : mutation) : Prop :=
  forall q, m.2 = Some q -> level_ok (m.1.2, q).

Lemma prepare_change_ok b c m :
  book_wf b -> change_ok c -> prepare_change b c = Ok (Some m) -> mutation_ok m.
Proof.
  intros Hb [Hp Hq]. unfold prepare_change.
  assert (forall m', (fun price => (change_side c, price, None)) <$> ok (price_key b (change_price c))
    = Some m' -> mutation_ok m') as Hdel.
  { intros m'. destruct (ok _); simpl; [|done]. intros [= <-] q. done. }
  destruct (change_operation c); [|intros H; res; auto].
  intros H. apply rbind_Ok in H as (q & Eq & H). apply ok_or_Ok in Eq.
  destruct (Z.eqb_spec (coefficient (qty0 q)) 0); [res; auto|].
  destruct (Z.ltb_spec (coefficient (qty0 q)) 0); [done|]. res.
  intros q' [= <-]. simpl.
  apply (stored_level_ok b (change_price c) q); [done|split; simpl; auto|lia|done|done].
Qed.

Lemma prepare_ok b cs ms :
  book_wf b -> Forall change_ok cs -> prepare b cs = Ok ms -> Forall mutation_ok ms.
Proof.
  intros Hb Hcs. revert ms. induction Hcs as [|c cs Hc Hcs IH]; intros ms H; simpl in H.
  - injection H as <-. constructor.
  - res. specialize (IH _ Hv0). destruct v as [m|]; [|done].
    constructor; [|done]. by eapply prepare_change_ok.
Qed.

Lemma write_all_wf b ms : book_wf b -> Forall mutation_ok ms -> book_wf (write_all b ms).
Proof.
  intros Hb Hms. revert b Hb. induction Hms as [|[[s p] q] ms Hm _ IH]; intros b Hb; [done|].
  simpl. apply IH, set_level_wf; [done|]. intros q' ->. by apply (Hm q').
Qed.

(** The transaction in one equation: the prepared writes are all applied, or
    none is. *)
Lemma apply_changes_atomic_eq cs b :
  book_sorted b -> validity b = Valid ->
  apply_changes_atomic cs b =
  match prepare b cs with
  | Err e => (Err e, b)
  | Ok ms =>
      match check_not_crossed (write_all b ms) with
      | Ok _ => (Ok tt, trim_depth (write_all b ms))
      | Err e => (Err e, b)
      end
  end.
Proof.
  intros Hb Hv. unfold apply_changes_atomic. eff_unfold.
  rewrite bool_decide_eq_false_2 by (rewrite Hv; auto).
  destruct (prepare b cs) as [ms|]; [|done].
  pose proof (rollback_restores b ms Hb) as Hr. pose proof (mutate_writes b [] [] ms) as Hw.
  destruct (mutate b [] [] ms) as [b' undo]. simpl in Hw. subst b'. rewrite Hr.
  by destruct (check_not_crossed (write_all b ms)).
Qed.

Lemma apply_changes_atomic_ok cs b :
  book_ok b -> Forall change_ok cs -> book_ok (snd (apply_changes_atomic cs b)).
Proof.
  intros [Hb Hv] Hcs. destruct (decide (validity b = Valid)) as [HV|HV].
  - rewrite apply_changes_atomic_eq by (done || by apply book_wf_sorted).
    destruct (prepare b cs) as [ms|] eqn:Hp; [|done].
    destruct (check_not_crossed _) as [[]|] eqn:Hc; [|done]. simpl.
    assert (book_wf (write_all b ms)) as Hw
      by (apply write_all_wf; [done|]; by eapply prepare_ok).
    split; [by apply trim_depth_wf|]. intros _.
    split; [apply trim_depth_uncrossed|apply trim_depth_bounded];
      try apply Hw; try by apply book_wf_sorted.
    apply check_not_crossed_Ok; [apply Hw|apply Hw|done].
  - unfold apply_changes_atomic. eff_unfold. by rewrite bool_decide_eq_true_2.
Qed.

(** ** Every history of the book *)

Inductive book_op :=
  | OpSnapshot (bs asks0 : list (Price * Quantity)) (seq : option Z)
  | OpChange (s : BookSide) (op : BookOperation) (p : Price) (q : option Quantity)
  | OpAtomic (cs : list BookChange)
  | OpClear
  | OpSetSequence (seq : Z)
  | OpSuspend (v : BookValidity).

Definition book_step (op : book_op) : Eff OrderBook BookError unit :=
  match op with
  | OpSnapshot bs asks0 seq => apply_snapshot bs asks0 seq
  | OpChange s op p q => apply_change s op p q
  | OpAtomic cs => apply_changes_atomic cs
  | OpClear => emod clear
  | OpSetSequence seq => emod (fun b => set_sequence b seq)
  | OpSuspend v => emod (fun b => set_validity b v)
  end.

(** Arguments are values of their Rust types; a caller suspends a book but
    only a snapshot makes it [Valid]. *)
Definition op_ok (op : book_op) : Prop :=
  match op with
  | OpSnapshot bs asks0 _ => Forall level_input_ok bs /\ Forall level_input_ok asks0
  | OpChange _ _ p q => change_input_ok p q
  | OpAtomic cs => Forall change_ok cs
  | OpSuspend v => v <> Valid
  | OpClear | OpSetSequence _ => True
  end.

Definition run_ops (ops : list book_op) (b : OrderBook) : OrderBook :=
  foldl (fun b op => snd (book_step op b)) b ops.

Lemma book_step_ok op b : book_ok b -> op_ok op -> book_ok (snd (book_step op b)).
Proof.
  intros Hb Ho. destruct op; simpl in *.
  - destruct Ho. by apply apply_snapshot_ok.
  - by apply apply_change_ok.
  - by apply apply_changes_atomic_ok.
  - destruct Hb as [[H1 H2 H3 H4 H5 H6 H7] _].
    split; [split; simpl; first [done | apply BTreeMap.wf_empty | constructor]|].
    intros _. split.
    + intros p q p' q' H. by apply not_elem_of_nil in H.
    + intros d Hd. unfold BTreeMap.len; simpl. split; by apply H3.
  - destruct Hb as [Hw Hv]. split; [by apply book_wf_sequence|done].
  - destruct Hb as [Hw Hv]. split; [by apply book_wf_validity|]. simpl. done.
Qed.

(** C1. However snapshots, single changes, transactions, clears and
    suspensions are interleaved, and whichever of them fail, a book stays
    well formed (sorted sides, positive in-range quantities), and whenever it
    is [Valid] its best bid is below its best ask and both sides are within
    the configured depth. *)
Theorem book_reachable_ok ps qs d ops :
  fits U8 ps -> fits U8 qs -> (forall d', d = Some d' -> 0 <= d') -> Forall op_ok ops ->
  book_ok (run_ops ops (new ps qs d)).
Proof.
  intros Hp Hq Hd Hops. assert (book_ok (new ps qs d)) as Hb
    by (split; [by apply book_wf_new|done]).
  revert Hb. generalize (new ps qs d) as b. unfold run_ops.
  induction Hops as [|op ops Hop _ IH]; intros b Hb; simpl; [done|].
  by apply IH, book_step_ok.
Qed.

Definition sample_ops : list book_op :=
  [OpSnapshot [(px 10000, qt 1000); (px 9900, qt 2000)] [(px 10100, qt 1500)] (Some 1);
   OpChange Bid Upsert (px 10200) (Some (qt 1)); OpSuspend Synchronizing;
   OpAtomic [mkBookChange Ask Delete (px 10100) None]].

Lemma book_reachable_ok_witness : book_ok (run_ops sample_ops (new 2 3 (Some 1))).
Proof.
  apply (book_reachable_ok 2 3 (Some 1) sample_ops).
  - unfold fits; simpl; lia.
  - unfold fits; simpl; lia.
  - intros d' [= <-]. lia.
  - repeat first [apply Forall_nil_2 | apply Forall_cons_2 | solve_input | split].
Defined.

(** A transaction that fails, whatever the reason and however its changes
    repeat or conflict, leaves the book exactly as it was: the undo log
    restores every level. *)
Theorem apply_changes_atomic_rolls_back b cs e b' :
  book_sorted b -> apply_changes_atomic cs b = (Err e, b') -> b' = b.
Proof.
  intros Hb. destruct (decide (validity b = Valid)) as [HV|HV].
  - rewrite apply_changes_atomic_eq by done. repeat case_match; congruence.
  - unfold apply_changes_atomic. eff_unfold. rewrite bool_decide_eq_true_2 by done. congruence.
Qed.

Definition crossing_changes : list BookChange :=
  [mkBookChange Bid Upsert (px 10000) (Some (qt 7)); mkBookChange Ask Delete (px 10200) None;
   mkBookChange Bid Upsert (px 10000) (Some (qt 8)); mkBookChange Bid Upsert (px 10150) (Some (qt 1))].

Lemma apply_changes_atomic_rolls_back_witness :
  snd (apply_changes_atomic crossing_changes sample_book) = sample_book.
Proof.
  apply (apply_changes_atomic_rolls_back sample_book crossing_changes Crossed).
  - intros []; repeat constructor.
  - reflexivity.
Defined.

(** *** Refinement of an abstract book *)

(** The abstract book: the quantity at each price of each side. *)
Definition abook : Type := BookSide -> Z -> option Z.

Definition abs (b : OrderBook) : abook := fun s p => BTreeMap.get (levels b s) p.

Definition abs_write (f : abook) (m : mutation) : abook :=
  fun s p => if decide ((s, p) = m.1) then m.2 else f s p.

Definition abs_uncrossed (f : abook) : Prop :=
  forall p q p' q', f Bid p = Some q -> f Ask p' = Some q' -> p < p'.

Lemma write_all_abs b ms s p :
  book_sorted b -> abs (write_all b ms) s p = foldl abs_write (abs b) ms s p.
Proof.
  intros Hb. revert s p. induction ms as [|[[s0 p0] q0] ms IH] using rev_ind; intros s p; [done|].
  unfold write_all. rewrite !foldl_app. simpl. unfold abs at 1.
  rewrite get_set_level by (by apply write_all_sorted).
  unfold abs_write at 1. simpl. destruct (decide _); [done|]. apply IH.
Qed.

Lemma abs_uncrossed_iff b : book_sorted b -> abs_uncrossed (abs b) <-> uncrossed b.
Proof.
  intros Hb. unfold abs_uncrossed, uncrossed, abs. simpl.
  split; intros H p q p' q' H1 H2; eapply H;
    (by apply BTreeMap.elem_get; [apply (Hb Bid) || apply (Hb Ask)|]) ||
    (by apply BTreeMap.get_Some_elem).
Qed.

Lemma abs_uncrossed_ext f g :
  (forall s p, f s p = g s p) -> abs_uncrossed f -> abs_uncrossed g.
Proof. intros E H p q p' q'. rewrite <- !E. apply H. Qed.

(** What a change asks of a book, in terms of the numbers it carries: [c] is the
    value of [f] in units of [10^-s], if there is one the code can compute. *)
Definition at_scale (f : Fixed) (s c : Z) : Prop :=
  same_value f (mkFixed c s) /\ fits I128 c /\ Z.abs (scale f - s) <= 38.

Definition removes (c : BookChange) : Prop :=
  change_operation c = Delete \/
  change_operation c = Upsert /\ exists q, change_quantity c = Some q /\ coefficient (qty0 q) = 0.

Inductive requests (b : OrderBook) (c : BookChange) : option mutation -> Prop :=
  | requests_set q p k : change_operation c = Upsert -> change_quantity c = Some q -> 0 < coefficient (qty0 q) ->
      at_scale (price0 (change_price c)) (price_scale b) p -> at_scale (qty0 q) (qty_scale b) k ->
      requests b c (Some (change_side c, p, Some k))
  | requests_removal p : removes c -> at_scale (price0 (change_price c)) (price_scale b) p ->
      requests b c (Some (change_side c, p, None))
  | requests_nothing : removes c -> (forall p, ~ at_scale (price0 (change_price c)) (price_scale b) p) -> requests b c None.

Inductive refuses (b : OrderBook) (c : BookChange) : BookError -> Prop :=
  | refuses_missing : change_operation c = Upsert -> change_quantity c = None -> refuses b c InvalidDelete
  | refuses_negative q : change_operation c = Upsert -> change_quantity c = Some q -> coefficient (qty0 q) < 0 ->
      refuses b c NonPositiveQuantity
  | refuses_scale q : change_operation c = Upsert -> change_quantity c = Some q -> 0 < coefficient (qty0 q) ->
      (forall p, ~ at_scale (price0 (change_price c)) (price_scale b) p) \/
      (forall k, ~ at_scale (qty0 q) (qty_scale b) k) -> refuses b c ScaleMismatch.

Lemma scale_coeff_spec f s : fixed_ok f -> fits U8 s ->
  match scale_coeff f s with
  | Ok c => at_scale f s c
  | Err e => e = ScaleMismatch /\ forall c, ~ at_scale f s c
  end.
Proof.
  intros Hf Hs. destruct (scale_coeff f s) as [c|e] eqn:E.
  - destruct (scale_coeff_Ok f s c Hf Hs E) as [Hc Hv]. split_and! ; [done..|].
    destruct (Z.le_gt_cases (Z.abs (scale f - s)) 38) as [|Hd]; [done|]. exfalso. revert E. unfold scale_coeff, rescale.
    rewrite (proj2 (Z.eqb_neq s (scale f))) by lia.
    destruct (Z.ltb_spec (scale f) s); rewrite pow10_i128_large by lia; done.
  - assert (e = ScaleMismatch) as ->.
    { revert E. unfold scale_coeff. destruct (rescale f s ExactOnly); [done|]. by intros [= <-]. }
    split; [done|]. intros c (Hv & Hc & Hd). revert E. unfold scale_coeff.
    rewrite (proj2 (rescale_exact_iff f s (mkFixed c s) Hf Hs Hd)) by done. done.
Qed.

Lemma prepare_change_spec b c : book_wf b -> change_ok c ->
  match prepare_change b c with Ok w => requests b c w | Err e => refuses b c e end.
Proof.
  intros Hb [Hp Hq]. unfold prepare_change.
  pose proof (scale_coeff_spec _ _ Hp (wf_price_scale _ Hb)) as Hsp. unfold price_key.
  assert (Hrem : removes c -> requests b c ((fun price => (change_side c, price, None)) <$>
    ok (scale_coeff (price0 (change_price c)) (price_scale b)))).
  { intros Hr. destruct (scale_coeff _ _) as [p|e]; cbn; [by apply requests_removal|by apply requests_nothing; [|apply Hsp]]. }
  destruct (change_operation c) eqn:Eo; [|apply Hrem; by left].
  destruct (change_quantity c) as [q|] eqn:Eq; cbn [ok_or rbind]; [|by apply refuses_missing].
  destruct (Z.eqb_spec (coefficient (qty0 q)) 0) as [H0|H0]; [apply Hrem; right; eauto|].
  destruct (Z.ltb_spec (coefficient (qty0 q)) 0) as [Hn|Hn]; [by eapply refuses_negative|].
  pose proof (scale_coeff_spec _ _ (Hq q eq_refl) (wf_qty_scale _ Hb)) as Hsq.
  destruct (scale_coeff (price0 (change_price c)) (price_scale b)) as [p|e]; cbn [rbind].
  2: { destruct Hsp as [-> Hsp]. eapply refuses_scale; eauto. lia. }
  destruct (scale_coeff (qty0 q) (qty_scale b)) as [k|e]; cbn [rbind].
  - eapply requests_set; eauto. lia.
  - destruct Hsq as [-> Hsq]. eapply refuses_scale; eauto. lia.
Qed.

Lemma prepare_spec b cs : book_wf b -> Forall change_ok cs ->
  match prepare b cs with
  | Ok ms => exists ws, Forall2 (requests b) cs ws /\ ms = omap id ws
  | Err e => exists before c after, cs = before ++ c :: after /\ Forall (fun c => exists w, requests b c w) before /\ refuses b c e
  end.
Proof.
  intros Hb Hcs. induction Hcs as [|c cs Hc Hcs IH]; cbn [prepare]; [exists []; by split; [constructor|]|].
  pose proof (prepare_change_spec b c Hb Hc) as H. destruct (prepare_change b c) as [w|e]; cbn [rbind].
  2: { exists [], c, cs. by repeat split. }
  destruct (prepare b cs) as [ms|e]; cbn [rbind].
  - destruct IH as (ws & Hws & ->). exists (w :: ws). split; [by constructor|]. by destruct w.
  - destruct IH as (before & c' & after & -> & Hbefore & Hr). exists (c :: before), c', after. split_and! ; [done| |done].
    constructor; [by exists w|done].
Qed.

(** The abstract book after what the changes ask for, the later ones winning. *)
Definition asked (f : abook) (ws : list (option mutation)) : abook :=
  foldl (fun f w => match w with Some m => abs_write f m | None => f end) f ws.

Lemma asked_omap f ws : foldl abs_write f (omap id ws) = asked f ws.
Proof. revert f. induction ws as [|[m|] ws IH]; intros f; [done|apply IH..]. Qed.

(** *** The best levels of a side *)

Definition better (s : BookSide) (p p' : Z) : Prop := match s with Bid => p' < p | Ask => p < p' end.

(** Price [p] is among the [d] best that [f] has on side [s]: no [d] distinct
    prices of [f] are better. *)
Definition among_best (d : option Z) (f : abook) (s : BookSide) (p : Z) : Prop :=
  forall n, d = Some n -> forall l, NoDup l -> (forall p', p' ∈ l -> is_Some (f s p') /\ better s p' p) -> Z.of_nat (length l) < n.

Lemma sorted_lookup_lt (m : BTreeMap Z Z) i j x y : BTreeMap.wf m -> m !! i = Some x -> m !! j = Some y -> (i < j)%nat -> x.1 < y.1.
Proof.
  intros Hm. revert i j. induction Hm as [|z m _ IH Hz]; intros i j Hx Hy Hij; [done|].
  destruct j as [|j]; [lia|]. destruct i as [|i]; cbn in *; [|by apply (IH i j); [..|lia]]. injection Hx as ->.
  rewrite Forall_forall in Hz. apply list_elem_of_lookup_2, Hz in Hy. by apply Z.compare_lt_iff.
Qed.

Lemma sorted_lookup_iff (m : BTreeMap Z Z) i j x y : BTreeMap.wf m -> m !! i = Some x -> m !! j = Some y -> x.1 < y.1 <-> (i < j)%nat.
Proof.
  intros Hm Hx Hy. split; [|by apply (sorted_lookup_lt m)]. intros Hlt. destruct (Nat.lt_trichotomy i j) as [?|[->|Hji]]; [done| |].
  - rewrite Hx in Hy. injection Hy as ->. lia.
  - pose proof (sorted_lookup_lt m j i y x Hm Hy Hx Hji). lia.
Qed.

(** A list of [n] positions, cut from either end of a sorted map. *)
Lemma keys_of_part (m part rest : BTreeMap Z Z) l : BTreeMap.wf m -> m ≡ₚ part ++ rest -> NoDup l ->
  (forall p, p ∈ l -> exists q, (p, q) ∈ part) -> (length l <= length part)%nat.
Proof.
  intros Hm Hp Hl Hin. rewrite <- (length_fmap fst part). apply submseteq_length, NoDup_submseteq; [done|].
  intros p Hpl. destruct (Hin p Hpl) as [q Hq]. apply list_elem_of_fmap. by exists (p, q).
Qed.

Lemma get_index (m : BTreeMap Z Z) p q : BTreeMap.wf m -> BTreeMap.get m p = Some q <-> exists i, m !! i = Some (p, q).
Proof. intros Hm. by rewrite <- BTreeMap.elem_of_get, list_elem_of_lookup. Qed.

(** The best asks are the first ones. *)
Lemma get_take_best d (m : BTreeMap Z Z) p q : BTreeMap.wf m ->
  BTreeMap.get (take d m) p = Some q <->
  BTreeMap.get m p = Some q /\
  forall l, NoDup l -> (forall p', p' ∈ l -> is_Some (BTreeMap.get m p') /\ p' < p) -> (length l < d)%nat.
Proof.
  intros Hm. assert (BTreeMap.wf (take d m)) as Ht by (eapply BTreeMap.wf_sublist; [apply sublist_take|done]).
  rewrite !get_index by done. split.
  - intros (i & [Hi Hd]%lookup_take_Some). split; [eauto|]. intros l Hl Hin.
    apply Nat.le_lt_trans with (length (take i m)); [|rewrite length_take; lia].
    apply (keys_of_part m (take i m) (drop i m)); [done|by rewrite take_drop|done|].
    intros p' Hp'. destruct (Hin p' Hp') as [[q' (j & Hj)%get_index] Hlt]; [|done]. exists q'.
    apply (list_elem_of_lookup_2 _ j), lookup_take_Some. split; [done|]. by apply (sorted_lookup_iff m j i (p', q') (p, q)).
  - intros [(i & Hi) Hbest]. exists i. apply lookup_take_Some. split; [done|].
    assert (length (BTreeMap.keys (take i m)) = i) as Hlen.
    { unfold BTreeMap.keys. rewrite length_fmap, length_take. apply lookup_lt_Some in Hi. lia. }
    rewrite <- Hlen at 1. apply Hbest.
    + apply BTreeMap.keys_NoDup. eapply BTreeMap.wf_sublist; [apply sublist_take|done].
    + intros p' ([p0 q0] & -> & (j & [Hj Hji]%lookup_take_Some)%list_elem_of_lookup)%list_elem_of_fmap. split.
      * exists q0. apply get_index; eauto.
      * by apply (sorted_lookup_iff m j i (p0, q0) (p, q)).
Qed.

(** The best bids are the last ones. *)
Lemma get_drop_best d (m : BTreeMap Z Z) p q : BTreeMap.wf m ->
  BTreeMap.get (drop (length m - d) m) p = Some q <->
  BTreeMap.get m p = Some q /\
  forall l, NoDup l -> (forall p', p' ∈ l -> is_Some (BTreeMap.get m p') /\ p < p') -> (length l < d)%nat.
Proof.
  intros Hm. assert (BTreeMap.wf (drop (length m - d) m)) as Ht by (eapply BTreeMap.wf_sublist; [apply sublist_drop|done]).
  rewrite !get_index by done. split.
  - intros (i & Hi). rewrite lookup_drop in Hi. set (k := (length m - d + i)%nat) in *. split; [eauto|]. intros l Hl Hin.
    pose proof (lookup_lt_Some _ _ _ Hi).
    apply Nat.le_lt_trans with (length (drop (S k) m)); [|rewrite length_drop; lia].
    apply (keys_of_part m (drop (S k) m) (take (S k) m)); [done|by rewrite (Permutation_app_comm (drop _ _)), take_drop|done|].
    intros p' Hp'. destruct (Hin p' Hp') as [[q' (j & Hj)%get_index] Hlt]; [|done]. exists q'.
    apply (list_elem_of_lookup_2 _ (j - S k)). rewrite lookup_drop.
    apply (sorted_lookup_iff m k j (p, q) (p', q')) in Hlt; [|done..]. by replace (S k + (j - S k))%nat with j by lia.
  - intros [(i & Hi) Hbest]. pose proof (lookup_lt_Some _ _ _ Hi). exists (i - (length m - d))%nat. rewrite lookup_drop.
    assert (length (BTreeMap.keys (drop (S i) m)) = (length m - S i)%nat) as Hlen
      by (unfold BTreeMap.keys; by rewrite length_fmap, length_drop).
    assert (length m - S i < d)%nat as Hd.
    { rewrite <- Hlen. apply Hbest.
      - apply BTreeMap.keys_NoDup. eapply BTreeMap.wf_sublist; [apply sublist_drop|done].
      - intros p' ([p0 q0] & -> & (j & Hj)%list_elem_of_lookup)%list_elem_of_fmap. rewrite lookup_drop in Hj. split.
        + exists q0. apply get_index; eauto.
        + apply (sorted_lookup_iff m i (S i + j) (p, q) (p0, q0)); [done..|lia]. }
    replace (length m - d + (i - (length m - d)))%nat with i by lia. done.
Qed.

(** Trimming keeps the best levels of each side, and only these. *)
Lemma trim_depth_abs b s p q : (forall d, depth b = Some d -> 0 <= d) -> book_sorted b ->
  abs (trim_depth b) s p = Some q <-> abs b s p = Some q /\ among_best (depth b) (abs b) s p.
Proof.
  intros Hn Hb. rewrite trim_depth_eq by done. unfold among_best. destruct (depth b) as [d|] eqn:Hd.
  2: { split; [by split|by intros []]. }
  specialize (Hn d eq_refl). unfold abs. destruct s; cbn.
  - rewrite (get_drop_best _ _ _ _ (Hb Bid)). split; intros [H1 H2]; split; try done.
    + intros n [= <-] l Hl Hin. specialize (H2 l Hl Hin). lia.
    + intros l Hl Hin. specialize (H2 d eq_refl l Hl Hin). lia.
  - rewrite (get_take_best _ _ _ _ (Hb Ask)). split; intros [H1 H2]; split; try done.
    + intros n [= <-] l Hl Hin. specialize (H2 l Hl Hin). lia.
    + intros l Hl Hin. specialize (H2 d eq_refl l Hl Hin). lia.
Qed.

(** *** Transactions *)

(** The specification of a transaction, from a book and the changes to the
    result and the new book. *)
Inductive transaction (b : OrderBook) (cs : list BookChange) : result unit BookError -> OrderBook -> Prop :=
  | tx_not_valid : validity b <> Valid -> transaction b cs (Err (NotValid (validity b))) b
  | tx_refused before c after e : validity b = Valid -> cs = before ++ c :: after ->
      Forall (fun c => exists w, requests b c w) before -> refuses b c e -> transaction b cs (Err e) b
  | tx_crossed ws : validity b = Valid -> Forall2 (requests b) cs ws -> ~ abs_uncrossed (asked (abs b) ws) ->
      transaction b cs (Err Crossed) b
  | tx_committed ws b' : validity b = Valid -> Forall2 (requests b) cs ws -> abs_uncrossed (asked (abs b) ws) ->
      (validity b' = Valid /\ sequence b' = sequence b /\ depth b' = depth b /\ price_scale b' = price_scale b /\
       qty_scale b' = qty_scale b) ->
      (forall s p q, abs b' s p = Some q <->
         asked (abs b) ws s p = Some q /\ among_best (depth b) (asked (abs b) ws) s p) ->
      transaction b cs (Ok tt) b'.

Lemma among_best_ext d f g s p : (forall p, f s p = g s p) -> among_best d f s p -> among_best d g s p.
Proof. intros E H n Hn l Hl Hin. apply (H n Hn l Hl). intros p' Hp'. rewrite E. by apply Hin. Qed.

(** C2. Every transaction, on any well-formed book, does what the abstract book
    says.  A book that is not [Valid] refuses it.  Each change asks for a level
    to be set (a positive quantity, when price and quantity are exact at the
    book's scales), for one to be removed (a deletion or a zero quantity), for
    nothing (a removal at a price that is no price of the book), or is refused
    (no quantity, a negative one, or one the scales cannot hold), and the first
    refused change refuses the transaction.  Otherwise let the target be the
    abstract book after everything asked for, later changes winning: if it is
    crossed the transaction is refused as [Crossed], and if not it commits the
    levels of the target that are among its best, as many per side as the
    book's depth allows, and no others.  A refused transaction changes nothing,
    and crossings in between do not matter. *)
Theorem apply_changes_atomic_refines b cs : book_wf b -> Forall change_ok cs ->
  let '(r, b') := apply_changes_atomic cs b in transaction b cs r b'.
Proof.
  intros Hb Hcs. pose proof (book_wf_sorted b Hb) as Hsort. destruct (decide (validity b = Valid)) as [Hv|Hv].
  2: { unfold apply_changes_atomic. eff_unfold. rewrite bool_decide_eq_true_2 by done. by apply tx_not_valid. }
  rewrite apply_changes_atomic_eq by done. pose proof (prepare_spec b cs Hb Hcs) as Hp.
  destruct (prepare b cs) as [ms|e]; [|destruct Hp as (before & c & after & E & Hbf & Hr); by eapply tx_refused].
  destruct Hp as (ws & Hws & ->). set (b1 := write_all b (omap id ws)). pose proof (write_all_sorted b (omap id ws) Hsort) as Hw.
  assert (forall s p, abs b1 s p = asked (abs b) ws s p) as Ht by (intros; unfold b1; by rewrite write_all_abs, asked_omap).
  pose proof (check_not_crossed_Ok b1 (Hw Bid) (Hw Ask)) as Hc. rewrite <- (abs_uncrossed_iff b1 Hw) in Hc.
  destruct (check_not_crossed b1) as [[]|e] eqn:E.
  2: { rewrite (check_not_crossed_Err _ _ E). apply (tx_crossed b cs ws); [done..|]. intros Hu.
       assert (Err e = Ok tt) as [=]. apply Hc. eapply abs_uncrossed_ext; [|exact Hu]. by intros. }
  destruct (write_all_fields b (omap id ws)) as (Ev & Es & Ed & Ep & Eq).
  destruct (trim_depth_fields b1) as (Tv & Ts & Td & Tp & Tq).
  apply (tx_committed b cs ws); [done..| | |].
  - eapply abs_uncrossed_ext; [exact Ht|]. by apply Hc.
  - rewrite Tv, Ts, Td, Tp, Tq. unfold b1. by rewrite Ev, Es, Ed, Ep, Eq.
  - intros s p q. rewrite trim_depth_abs; [|intros d; unfold b1; rewrite Ed; apply Hb|done].
    rewrite Ht. unfold b1 at 1. rewrite Ed. split; intros [H1 H2]; split; try done; (eapply among_best_ext; [|exact H2]); by intros.
Qed.

Definition open_book : OrderBook := sample_book ⟪ depth := None ⟫.

(** Crossed in between, and one bid too many for a depth of two. *)
Definition swap_changes : list BookChange :=
  [mkBookChange Bid Upsert (px 10150) (Some (qt 7)); mkBookChange Ask Delete (px 10100) None;
   mkBookChange Ask Upsert (px 10200) (Some (qt 2))].

Lemma apply_changes_atomic_refines_witness :
  exists b', apply_changes_atomic swap_changes sample_book = (Ok tt, b') /\ depth b' = Some 2 /\
    levels b' Bid = [(10000, 1000); (10150, 7)] /\ levels b' Ask = [(10200, 2)] /\ transaction sample_book swap_changes (Ok tt) b'.
Proof.
  pose proof (apply_changes_atomic_refines sample_book swap_changes) as H.
  assert (exists b', apply_changes_atomic swap_changes sample_book = (Ok tt, b') /\ depth b' = Some 2 /\
    levels b' Bid = [(10000, 1000); (10150, 7)] /\ levels b' Ask = [(10200, 2)]) as (b' & E & Hd & H1 & H2)
    by (eexists; split; [vm_compute; reflexivity|auto]).
  exists b'. split; [exact E|]. split; [exact Hd|]. split; [exact H1|]. split; [exact H2|]. rewrite E in H. apply H.
  - split; simpl; first [solve_fits | intros d [= <-]; lia | repeat constructor; simpl; lia].
  - repeat first [apply Forall_nil_2 | apply Forall_cons_2 | solve_input | split].
Defined.

(** *** One transaction against single changes *)

Definition apply_each (cs : list BookChange) : Eff OrderBook BookError unit :=
  efor cs (fun c => apply_change (change_side c) (change_operation c) (change_price c)
                      (change_quantity c)).

Lemma prepare_scales b1 b2 cs :
  price_scale b1 = price_scale b2 -> qty_scale b1 = qty_scale b2 ->
  prepare b1 cs = prepare b2 cs.
Proof.
  intros Hp Hq. induction cs as [|c cs IH]; simpl; [done|].
  unfold prepare_change, price_key. by rewrite IH, Hp, Hq.
Qed.

(** An accepted change is a prepared write. *)
Lemma apply_change_prepared b c b' :
  depth b = None ->
  apply_change (change_side c) (change_operation c) (change_price c) (change_quantity c) b
    = (Ok tt, b') ->
  exists m, prepare_change b c = Ok m /\
            b' = match m with Some x => write_all b [x] | None => b end.
Proof.
  intros Hd. unfold apply_change, prepare_change. eff_unfold. case_bool_decide; [done|].
  assert (forall b', (Ok tt : result unit BookError,
    delete b (change_side c) (change_price c)) = (Ok tt, b') ->
    exists m : option mutation,
      Ok ((fun price => (change_side c, price, None)) <$> ok (price_key b (change_price c)))
        = (Ok m : result _ BookError) /\
      b' = match m with Some x => write_all b [x] | None => b end) as Hdel.
  { intros ? [= <-]. eexists. split; [done|]. unfold delete.
    by destruct (price_key b (change_price c)). }
  destruct (change_operation c); [|apply Hdel].
  destruct (change_quantity c) as [q|]; simpl; [|done].
  destruct (Z.eqb_spec (coefficient (qty0 q)) 0); [apply Hdel|].
  destruct (upsert b (change_side c) (change_price c) q) as [b1|] eqn:Hu; [|done].
  unfold upsert in Hu. destruct (Z.leb_spec (coefficient (qty0 q)) 0); [done|].
  rewrite (proj2 (Z.ltb_ge (coefficient (qty0 q)) 0)) by lia. res.
  rewrite Hv, Hv0. simpl.
  assert (trim_depth (set_level b (change_side c) v (Some v0)) =
          set_level b (change_side c) v (Some v0)) as ->.
  { unfold trim_depth. destruct (set_level_fields b (change_side c) v (Some v0))
      as (_ & _ & -> & _). by rewrite Hd. }
  destruct (check_not_crossed _); [|done]. intros [= <-]. eauto.
Qed.

Lemma apply_each_prepared b cs b' :
  depth b = None -> apply_each cs b = (Ok tt, b') ->
  exists ms, prepare b cs = Ok ms /\ b' = write_all b ms.
Proof.
  revert b. induction cs as [|c cs IH]; intros b Hd; simpl.
  - intros [= <-]. by exists [].
  - intros H. apply ebind_Ok in H as ([] & b1 & H1 & H2).
    apply apply_change_prepared in H1 as (m & Hm & ->); [|done].
    assert (exists ms, prepare b cs = Ok ms /\
      b' = write_all (match m with Some x => write_all b [x] | None => b end) ms)
      as (ms & Hms & ->).
    { destruct m as [x|]; [|by apply IH].
      destruct (write_all_fields b [x]) as (_ & _ & F1 & F2 & F3).
      destruct (IH (write_all b [x])) as (ms & Hms & ->); [by rewrite F1|done|].
      exists ms. split; [|done]. by rewrite <- (prepare_scales (write_all b [x]) b cs F2 F3). }
    rewrite Hm, Hms. simpl. eexists. split; [done|].
    destruct m; [|done]. reflexivity.
Qed.

(** A transaction accepts whatever the changes one by one accept, with
    the same book as the result; so on a book without a depth limit it is the
    sequential semantics minus the rejections caused by intermediate
    crossings. *)
Theorem apply_changes_atomic_sequential b cs b' :
  book_ok b -> validity b = Valid -> depth b = None -> Forall change_ok cs ->
  apply_each cs b = (Ok tt, b') -> apply_changes_atomic cs b = (Ok tt, b').
Proof.
  intros Hb Hv Hd Hcs Hrun.
  destruct (apply_each_prepared b cs b' Hd Hrun) as (ms & Hms & Eb').
  assert (book_ok b') as Hb'.
  { rewrite Forall_forall in Hcs.
    replace b' with (snd (apply_each cs b)) by (by rewrite Hrun).
    apply (efor_inv book_ok); [done|]. intros c b0 Hin Hb0. apply apply_change_ok; auto.
    by apply Hcs. }
  rewrite apply_changes_atomic_eq, Hms by (done || apply book_wf_sorted, Hb).
  rewrite <- Eb'. destruct Hb' as [Hw Hu].
  destruct (write_all_fields b ms) as (Fv & _ & Fd & _). rewrite <- Eb' in Fv, Fd.
  rewrite (proj2 (check_not_crossed_Ok b' (wf_bids _ Hw) (wf_asks _ Hw)))
    by (apply Hu; congruence).
  unfold trim_depth. by rewrite Fd, Hd.
Qed.

Lemma open_book_ok : book_ok open_book.
Proof.
  split.
  - split; simpl; first [solve_fits | discriminate | repeat constructor; simpl; lia].
  - intros _. split.
    + apply check_not_crossed_Ok; [repeat constructor|repeat constructor|reflexivity].
    + intros d [=].
Qed.

Lemma apply_changes_atomic_sequential_witness :
  let cs := [mkBookChange Ask Delete (px 10100) None;
             mkBookChange Bid Upsert (px 10150) (Some (qt 7))] in
  apply_changes_atomic cs open_book = (Ok tt, snd (apply_each cs open_book)).
Proof.
  intros cs. apply (apply_changes_atomic_sequential open_book cs).
  - apply open_book_ok.
  - reflexivity.
  - reflexivity.
  - repeat first [apply Forall_nil_2 | apply Forall_cons_2 | solve_input | split].
  - reflexivity.
Defined.

(** *** Queries *)

Definition level_coeff (l : BookLevel) : Z := coefficient (price0 (level_price l)).

Lemma book_level_sorted b (R : Z -> Z -> Prop) l :
  StronglySorted (fun x y => R x.1 y.1) l ->
  StronglySorted (fun x y => R (level_coeff x) (level_coeff y)) (book_level b <$> l).
Proof. apply StronglySorted_fmap. by intros [] []. Qed.

Lemma key_lt_Z (m : BTreeMap Z Z) :
  BTreeMap.wf m -> StronglySorted (fun x y => x.1 < y.1) m.
Proof.
  unfold BTreeMap.wf. induction 1 as [|x l _ IH Hf]; constructor; [done|].
  eapply Forall_impl; [exact Hf|]. intros y Hy. unfold BTreeMap.key_lt, cmp, ord_Z in Hy.
  by apply Z.compare_lt_iff in Hy.
Qed.

Lemma elem_of_bounded b n l (m : BTreeMap Z Z) :
  l ∈ book_level b <$> take n m -> exists q, (level_coeff l, q) ∈ m.
Proof.
  intros (pq & -> & Hin)%list_elem_of_fmap. exists pq.2. destruct pq; simpl.
  eapply elem_of_submseteq; [exact Hin|]. apply sublist_submseteq, sublist_take.
Qed.

(** A bounded snapshot of a valid book returns, per side, the requested
    number of levels (all when there are fewer), bids strictly descending and
    asks strictly ascending from the best quote, with every returned bid
    below every returned ask. *)
Theorem snapshot_levels_bounded_best b n bl al :
  book_ok b -> snapshot_levels_bounded b n = Some (bl, al) ->
  StronglySorted (fun x y => level_coeff y < level_coeff x) bl /\
  StronglySorted (fun x y => level_coeff x < level_coeff y) al /\
  (forall x y, x ∈ bl -> y ∈ al -> level_coeff x < level_coeff y) /\
  length bl = Nat.min n (length (bids b)) /\ length al = Nat.min n (length (asks b)) /\
  ((0 < n)%nat ->
   (fun l => (level_price l, level_quantity l)) <$> head bl = best_bid b /\
   (fun l => (level_price l, level_quantity l)) <$> head al = best_ask b).
Proof.
  intros [Hb Hv]. unfold snapshot_levels_bounded, best_bid, best_ask.
  case_bool_decide as HV; [done|]. intros [= <- <-].
  assert (validity b = Valid) as Hval by (destruct (validity b); done || (destruct HV; done)).
  destruct (Hv Hval) as [Hu _]. repeat split.
  - apply (book_level_sorted b (fun x y => y < x)), StronglySorted_take.
    apply (StronglySorted_reverse (fun x y => x.1 < y.1)), key_lt_Z, Hb.
  - apply (book_level_sorted b Z.lt), StronglySorted_take, key_lt_Z, Hb.
  - intros x y (q & Hx)%elem_of_bounded (q' & Hy)%elem_of_bounded.
    rewrite elem_of_reverse in Hx. by eapply Hu.
  - by rewrite length_fmap, length_take, length_reverse.
  - by rewrite length_fmap, length_take.
  - unfold BTreeMap.last. rewrite <- head_reverse. destruct n; [lia|].
    by destruct (reverse (bids b)) as [|[]].
  - unfold BTreeMap.first. destruct n; [lia|]. by destruct (asks b) as [|[]].
Qed.

Lemma snapshot_levels_bounded_best_witness :
  exists bl al, snapshot_levels_bounded open_book 1 = Some (bl, al) /\
  StronglySorted (fun x y => level_coeff y < level_coeff x) bl /\
  StronglySorted (fun x y => level_coeff x < level_coeff y) al /\
  (forall x y, x ∈ bl -> y ∈ al -> level_coeff x < level_coeff y) /\
  length bl = 1%nat /\ length al = 1%nat /\
  ((0 < 1)%nat ->
   (fun l => (level_price l, level_quantity l)) <$> head bl = best_bid open_book /\
   (fun l => (level_price l, level_quantity l)) <$> head al = best_ask open_book).
Proof.
  eexists _, _. split; [reflexivity|]. apply (snapshot_levels_bounded_best open_book 1).
  - apply open_book_ok.
  - reflexivity.
Defined.
