(* ===== verification/BookSync.v ===== *)
(** * Book synchronisation ([crates/book/src/sync.rs])

    The life cycle of one instrument's book: deltas are buffered until a
    snapshot arrives, the buffered deltas that follow the snapshot are
    drained in sequence order, and live deltas are accepted only in
    sequence. *)

From stdpp Require Import base tactics numbers strings option relations list sorting.
From Stdlib Require Import ZArith Lia.
From S2P Require Import Prelude Collections Fixed Model OrderBook.

Local Open Scope Z_scope.

(** ** State *)

Inductive SyncState :=
  | Idle | BufferingDeltas | SnapshotRequested | SnapshotReceived
  | ApplyingBufferedDeltas | Live | GapDetected | SyncInvalid | Resynchronizing.

#[export] Instance SyncState_eq_dec : EqDecision SyncState.
Proof. solve_decision. Defined.

Record SyncLimits := mkSyncLimits {
  max_buffered_messages : Z;
  max_buffered_bytes : Z;
  max_buffered_span_ns : Z
}.

Definition default_limits : SyncLimits := mkSyncLimits 10000 (4 * 1024 * 1024) 5000000000.

Record BufferedDelta := mkBufferedDelta {
  delta_sequence : Z;
  bytes_len : Z;
  received_mono_ns : Z;
  delta_side : BookSide;
  delta_operation : BookOperation;
  delta_price : Price;
  delta_quantity : option Quantity
}.

Record BookSynchronizer := mkBookSynchronizer {
  instrument : InstrumentId;
  state : SyncState;
  book : OrderBook;
  limits : SyncLimits;
  buffer : list BufferedDelta;
  buffered_bytes : Z;
  buffered_mono_min : option Z;
  buffered_mono_max : option Z;
  expected_sequence : option Z
}.

#[export] Instance eta_BookSynchronizer : Eta BookSynchronizer := fun s =>
  mkBookSynchronizer (instrument s) (state s) (book s) (limits s) (buffer s)
    (buffered_bytes s) (buffered_mono_min s) (buffered_mono_max s) (expected_sequence s).

Definition sync_new (instrument : InstrumentId) (book : OrderBook) (limits : SyncLimits)
    : BookSynchronizer :=
  mkBookSynchronizer instrument Idle book limits [] 0 None None None.

(** ** Transitions *)

Definition clear_buffer (self : BookSynchronizer) : BookSynchronizer :=
  self ⟪ buffer := [] ⟫ ⟪ buffered_bytes := 0 ⟫
       ⟪ buffered_mono_min := None ⟫ ⟪ buffered_mono_max := None ⟫.

Definition begin_resync (self : BookSynchronizer) : BookSynchronizer :=
  let self := self ⟪ state := Resynchronizing ⟫ in
  let self := self ⟪ book := set_validity (book self) Synchronizing ⟫ in
  let self := self ⟪ book := clear (book self) ⟫ in
  let self := clear_buffer self in
  self ⟪ expected_sequence := None ⟫.

Definition invalidate (self : BookSynchronizer) : BookSynchronizer :=
  let self := self ⟪ state := SyncInvalid ⟫ in
  let self := self ⟪ book := set_validity (book self) Invalid ⟫ in
  clear_buffer self.

Definition request_snapshot (self : BookSynchronizer) : BookSynchronizer :=
  let self := self ⟪ state := SnapshotRequested ⟫ in
  self ⟪ book := set_validity (book self) Synchronizing ⟫.

Definition note_gap (self : BookSynchronizer) : BookSynchronizer :=
  let self := self ⟪ state := GapDetected ⟫ in
  let self := self ⟪ book := set_validity (book self) Invalid ⟫ in
  clear_buffer self.

Definition buffer_delta (delta : BufferedDelta) : Eff BookSynchronizer BookError unit :=
  let! self := eget in
  let mono_min := match buffered_mono_min self with
                  | None => received_mono_ns delta
                  | Some value => Z.min value (received_mono_ns delta)
                  end in
  let mono_max := match buffered_mono_max self with
                  | None => received_mono_ns delta
                  | Some value => Z.max value (received_mono_ns delta)
                  end in
  if (max_buffered_messages (limits self) <=? Z.of_nat (length (buffer self)))
     || (max_buffered_bytes (limits self) <? wrap U64 (buffered_bytes self + bytes_len delta))
     || (max_buffered_span_ns (limits self) <? saturating_sub U64 mono_max mono_min)
  then
    emod invalidate !;
    ethrow (NotValid Invalid)
  else
    let self := self ⟪ buffered_bytes := wrap U64 (buffered_bytes self + bytes_len delta) ⟫ in
    let self := self ⟪ buffered_mono_min := Some mono_min ⟫ in
    let self := self ⟪ buffered_mono_max := Some mono_max ⟫ in
    let self := self ⟪ buffer := buffer self ++ [delta] ⟫ in
    let self :=
      if bool_decide (state self = Idle) || bool_decide (state self = SnapshotRequested)
      then self ⟪ state := BufferingDeltas ⟫ else self in
    eput self.

(** [self.book.m(...)?]. *)
Definition on_book {A} (m : Eff OrderBook BookError A) : Eff BookSynchronizer BookError A :=
  ezoom book (fun b self => self ⟪ book := b ⟫) m.

(** The [for d in pending] loop; it returns the last applied sequence. *)
Fixpoint drain_loop (pending : list BufferedDelta) (last : Z)
    : Eff BookSynchronizer BookError Z :=
  match pending with
  | [] => eret last
  | d :: rest =>
      if delta_sequence d <=? last then drain_loop rest last
      else if negb (delta_sequence d =? wrap U64 (last + 1)) then
        emod note_gap !;
        ethrow (NotValid Invalid)
      else
        on_book (apply_change (delta_side d) (delta_operation d) (delta_price d)
                   (delta_quantity d)) !;
        drain_loop rest (delta_sequence d)
  end.

Definition apply_snapshot_and_drain (snap_bids snap_asks : list (Price * Quantity))
    (sequence : Z) : Eff BookSynchronizer BookError unit :=
  emod (fun self => self ⟪ state := SnapshotReceived ⟫) !;
  on_book (apply_snapshot snap_bids snap_asks (Some sequence)) !;
  emod (fun self => self ⟪ state := ApplyingBufferedDeltas ⟫) !;
  let! self := eget in
  let pending := filter (fun d => sequence < delta_sequence d) (buffer self) in
  emod clear_buffer !;
  let! last := drain_loop pending sequence in
  emod (fun self => self ⟪ expected_sequence := Some (wrap U64 (last + 1)) ⟫) !;
  emod (fun self => self ⟪ book := set_sequence (book self) last ⟫) !;
  emod (fun self => self ⟪ book := set_validity (book self) Valid ⟫) !;
  emod (fun self => self ⟪ state := Live ⟫).

Definition on_live_delta (seq : Z) (side : BookSide) (operation : BookOperation)
    (price : Price) (quantity : option Quantity) : Eff BookSynchronizer BookError unit :=
  let! self := eget in
  if bool_decide (state self <> Live) then ethrow (NotValid (validity (book self))) else
  let expected := default seq (expected_sequence self) in
  if seq <? expected then eret tt
  else if expected <? seq then
    emod note_gap !;
    ethrow (NotValid Invalid)
  else
    on_book (apply_change side operation price quantity) !;
    emod (fun self => self ⟪ expected_sequence := Some (wrap U64 (seq + 1)) ⟫) !;
    emod (fun self => self ⟪ book := set_sequence (book self) seq ⟫).

(** ** Sample run *)

Definition delta_at (seq mono : Z) (s : BookSide) (p : Price) (q : Quantity) : BufferedDelta :=
  mkBufferedDelta seq 8 mono s Upsert p (Some q).

Definition sample_deltas : list BufferedDelta :=
  [delta_at 5 1 Bid (px 9950) (qt 10); delta_at 8 2 Bid (px 9960) (qt 10);
   delta_at 8 3 Bid (px 9970) (qt 10); delta_at 9 4 Ask (px 10300) (qt 10)].

Definition buffered_sync : BookSynchronizer :=
  snd (efor sample_deltas buffer_delta (request_snapshot (sync_new 1 (new 2 3 None) default_limits))).

Definition live_sync : BookSynchronizer :=
  snd (apply_snapshot_and_drain [(px 9900, qt 1000)] [(px 10100, qt 1500)] 7 buffered_sync).

Example live_sync_state :
  (state live_sync, expected_sequence live_sync, bids (book live_sync)) =
  (Live, Some 10, [(9900, 1000); (9960, 10)]).
Proof. reflexivity. Qed.

(** ** Invariant *)

Definition delta_ok (d : BufferedDelta) : Prop :=
  fits U64 (delta_sequence d) /\ 0 <= bytes_len d <= int_max I64 /\
  fits U64 (received_mono_ns d) /\ change_input_ok (delta_price d) (delta_quantity d).

Definition limits_ok (l : SyncLimits) : Prop :=
  0 <= max_buffered_messages l /\ 0 <= max_buffered_bytes l <= int_max I64 /\
  0 <= max_buffered_span_ns l.

Definition total_bytes (ds : list BufferedDelta) : Z :=
  foldr (fun d acc => bytes_len d + acc) 0 ds.

(** The buffer respects the three limits and its bookkeeping is exact. *)
Definition buffer_ok (s : BookSynchronizer) : Prop :=
  Z.of_nat (length (buffer s)) <= max_buffered_messages (limits s) /\
  buffered_bytes s = total_bytes (buffer s) /\
  0 <= buffered_bytes s <= max_buffered_bytes (limits s) /\
  Forall delta_ok (buffer s) /\
  match buffered_mono_min s, buffered_mono_max s with
  | Some lo, Some hi =>
      0 <= lo <= hi /\ hi <= int_max U64 /\ hi - lo <= max_buffered_span_ns (limits s) /\
      Forall (fun d => lo <= received_mono_ns d <= hi) (buffer s)
  | None, None => buffer s = []
  | _, _ => False
  end.

(** While [Live], the next expected sequence follows the book's own. *)
Definition live_ok (s : BookSynchronizer) : Prop :=
  state s = Live ->
  exists n, sequence (book s) = Some n /\ expected_sequence s = Some (wrap U64 (n + 1)).

Record sync_inv (s : BookSynchronizer) : Prop := {
  inv_book : book_ok (book s);
  inv_limits : limits_ok (limits s);
  inv_buffer : buffer_ok s;
  inv_live : live_ok s
}.

Lemma clear_buffer_ok s : limits_ok (limits s) -> buffer_ok (clear_buffer s).
Proof. intros (? & ? & ?). repeat split; simpl; try lia. constructor. Qed.

Lemma suspend_ok b v : v <> Valid -> book_ok b -> book_ok (set_validity b v).
Proof. intros Hv Hb. by apply (book_step_ok (OpSuspend v)). Qed.

Lemma total_bytes_app l1 l2 : total_bytes (l1 ++ l2) = total_bytes l1 + total_bytes l2.
Proof. induction l1 as [|d l1 IH]; simpl; [done|]. rewrite IH. lia. Qed.

Lemma invalidate_inv s : sync_inv s -> sync_inv (invalidate s).
Proof.
  intros [Hb Hl _ _]. split; [by apply suspend_ok|done|by apply clear_buffer_ok|done].
Qed.

Lemma note_gap_inv s : sync_inv s -> sync_inv (note_gap s).
Proof.
  intros [Hb Hl _ _]. split; [by apply suspend_ok|done|by apply clear_buffer_ok|done].
Qed.

Lemma request_snapshot_inv s : sync_inv s -> sync_inv (request_snapshot s).
Proof. intros [Hb Hl Hbuf _]. split; [by apply suspend_ok|done|done|done]. Qed.

Lemma begin_resync_inv s : sync_inv s -> sync_inv (begin_resync s).
Proof.
  intros [Hb Hl _ _]. split; [|done|by apply clear_buffer_ok|done].
  apply (book_step_ok OpClear (set_validity (book s) Synchronizing)); [|done].
  by apply suspend_ok.
Qed.

(** The bounds a buffered delta keeps, in the form [buffer_delta] computes
    them. *)
Lemma span_update lo hi x span :
  0 <= lo <= hi -> hi <= int_max U64 -> fits U64 x ->
  saturating_sub U64 (Z.max hi x) (Z.min lo x) <= span ->
  0 <= Z.min lo x <= Z.max hi x /\ Z.max hi x <= int_max U64 /\
  Z.max hi x - Z.min lo x <= span.
Proof. unfold saturating_sub, saturate, fits; simpl. lia. Qed.

Lemma buffer_delta_inv d s : sync_inv s -> delta_ok d -> sync_inv (snd (buffer_delta d s)).
Proof.
  intros Hs Hd. unfold buffer_delta. eff_unfold.
  destruct (_ || _ || _) eqn:Hfull; [by apply invalidate_inv|].
  apply orb_false_iff in Hfull as [[H1%Z.leb_gt H2%Z.ltb_ge]%orb_false_iff H3%Z.ltb_ge].
  destruct Hs as [Hb Hl (B1 & B2 & B3 & B4 & B5) Hlive].
  destruct Hd as (Hseq & Hlen & Hmono & Hin). destruct Hl as (L1 & L2 & L3).
  rewrite wrap_fits in H2 by solve_fits. simpl.
  match goal with |- sync_inv (if ?c then _ else ?x) =>
    enough (buffer_ok x) as Hbuf; [destruct c; split; simpl; try done; intros [=]|] end.
  unfold buffer_ok. simpl. rewrite wrap_fits by solve_fits.
  rewrite length_app, total_bytes_app. simpl.
  split; [lia|]. split; [lia|]. split; [lia|]. split.
  - apply Forall_app_2; [done|]. constructor; [done|constructor].
  - destruct (buffered_mono_min s) as [lo|], (buffered_mono_max s) as [hi|]; try done.
    + destruct B5 as (B5 & B6 & B7 & B8).
      destruct (span_update lo hi (received_mono_ns d) _ B5 B6 Hmono H3) as (S1 & S2 & S3).
      split; [done|]. split; [done|]. split; [done|].
      apply Forall_app_2; [|constructor; [lia|constructor]].
      eapply Forall_impl; [exact B8|]. simpl. lia.
    + rewrite B5. unfold fits in Hmono; simpl in Hmono. simpl.
      split; [lia|]. split; [lia|]. split; [lia|]. constructor; [lia|constructor].
Qed.

(** ** Changes of the book under the synchroniser *)

Definition apply_delta (d : BufferedDelta) : Eff OrderBook BookError unit :=
  apply_change (delta_side d) (delta_operation d) (delta_price d) (delta_quantity d).

Lemma apply_change_Valid s op p q b b' :
  apply_change s op p q b = (Ok tt, b') -> validity b = Valid /\ validity b' = Valid.
Proof.
  intros H. pose proof (apply_change_outcome b s op p q) as Ho. rewrite H in Ho.
  simpl in Ho. inversion Ho; subst; try done; split; try done.
  - by destruct (set_level_fields b s pk None) as (-> & _).
  - destruct (trim_depth_fields (set_level b s pk (Some qk))) as (-> & _).
    by destruct (set_level_fields b s pk (Some qk)) as (-> & _).
Qed.

Lemma apply_change_sequence s op p q b :
  sequence (snd (apply_change s op p q b)) = sequence b.
Proof.
  pose proof (apply_change_outcome b s op p q) as Ho.
  destruct Ho as [e He|Hv|pk Hv|pk qk Hv Hc|pk qk Hv Hc]; try done; simpl;
    rewrite ?(proj1 (proj2 (trim_depth_fields _))); apply set_level_fields.
Qed.

Lemma on_book_eq {A} (m : Eff OrderBook BookError A) s :
  on_book m s = (fst (m (book s)), s ⟪ book := snd (m (book s)) ⟫).
Proof. unfold on_book, ezoom. by destruct (m (book s)). Qed.

(** The invariant away from [Live], where it constrains the book and the
    buffer only. *)
Definition offline_inv (s : BookSynchronizer) : Prop := sync_inv s /\ state s <> Live.

Lemma on_book_change_inv sd op p q s :
  sync_inv s -> change_input_ok p q -> sync_inv (snd (on_book (apply_change sd op p q) s)).
Proof.
  intros [Hb Hl Hbuf Hlive] Hin. rewrite on_book_eq. simpl.
  split; simpl; [by apply apply_change_ok|done|done|].
  intros Hs. simpl. rewrite apply_change_sequence. by apply Hlive.
Qed.

Lemma drain_loop_inv ds last s :
  offline_inv s -> Forall delta_ok ds -> offline_inv (snd (drain_loop ds last s)).
Proof.
  intros Hs Hds. revert last s Hs. induction Hds as [|d ds Hd Hds IH]; intros last s Hs; [done|].
  cbn [drain_loop]. destruct (delta_sequence d <=? last); [by apply IH|].
  destruct (negb _); [split; [by apply note_gap_inv, Hs|done]|].
  pose proof (on_book_change_inv (delta_side d) (delta_operation d) _ _ s (proj1 Hs)
    (proj2 (proj2 (proj2 Hd)))) as H1.
  rewrite on_book_eq in H1. unfold ebind. rewrite on_book_eq. simpl in H1.
  destruct (fst _); [apply IH|]; (split; [done|apply Hs]).
Qed.

(** What a completed drain has done. *)
Lemma drain_loop_Ok ds last s last' s' :
  fits U64 last -> Forall delta_ok ds -> validity (book s) = Valid ->
  drain_loop ds last s = (Ok last', s') ->
  exists applied b',
    sublist applied ds /\
    delta_sequence <$> applied = seqZ (last + 1) (Z.of_nat (length applied)) /\
    last' = last + Z.of_nat (length applied) /\ fits U64 last' /\
    Forall (fun d => delta_sequence d <= last') ds /\
    efor applied apply_delta (book s) = (Ok tt, b') /\
    validity b' = Valid /\ s' = s ⟪ book := b' ⟫.
Proof.
  intros Hl Hds. revert last s Hl.
  induction Hds as [|d ds Hd Hds IH]; intros last s Hl Hv; cbn [drain_loop].
  - intros [= <- <-]. exists [], (book s). destruct s.
    repeat split; try done; try constructor; simpl; try lia; apply Hl.
  - destruct (Z.leb_spec (delta_sequence d) last) as [Hle|Hgt].
    + intros H. destruct (IH _ _ Hl Hv H) as (ap & b' & H1 & H2 & H3 & H4 & H5 & H6).
      exists ap, b'. split; [by constructor|]. repeat split; try done; try apply H4; try apply H6.
      constructor; [lia|done].
    + destruct (Z.eqb_spec (delta_sequence d) (wrap U64 (last + 1))) as [Heq|]; [|done].
      cbn [negb]. unfold ebind. rewrite on_book_eq.
      destruct (apply_change _ _ _ _ (book s)) as [[[]|e] b1] eqn:Ea; [|done].
      destruct Hd as (Hsq & _). apply apply_change_Valid in Ea as Ev.
      assert (delta_sequence d = last + 1) as Hseq.
      { destruct (decide (last = int_max U64)) as [->|]; 
          [change (wrap U64 (int_max U64 + 1)) with 0 in Heq; solve_fits|].
        rewrite wrap_fits in Heq; solve_fits. }
      intros H. eapply IH in H; [|done|apply Ev].
      destruct H as (ap & b' & H1 & H2 & H3 & H4 & H5 & H6 & H7 & H8).
      exists (d :: ap), b'. split; [by constructor|].
      split; [|split; [|split; [|split; [|split; [|split]]]]]; try done; try (simpl length; lia).
      * rewrite seqZ_cons by (simpl; lia). cbn [fmap list_fmap]. rewrite Hseq. f_equal.
        change (list_fmap _ _ delta_sequence ap) with (delta_sequence <$> ap).
        rewrite H2, Hseq. f_equal. simpl. lia.
      * constructor; [lia|done].
      * simpl. unfold ebind, apply_delta at 1. by rewrite Ea.
Qed.

Lemma apply_snapshot_Valid sb sa n b b' :
  apply_snapshot sb sa n b = (Ok tt, b') -> validity b' = Valid /\ sequence b' = n.
Proof. intros (b1 & b2 & _ & _ & _ & ->)%apply_snapshot_Ok. done. Qed.

(** The state in which the drain loop starts. *)
Definition drain_start (s : BookSynchronizer) (b0 : OrderBook) : BookSynchronizer :=
  clear_buffer (s ⟪ book := b0 ⟫ ⟪ state := ApplyingBufferedDeltas ⟫).

(** The state in which a completed drain leaves the synchroniser. *)
Definition go_live (s : BookSynchronizer) (last : Z) : BookSynchronizer :=
  s ⟪ expected_sequence := Some (wrap U64 (last + 1)) ⟫
    ⟪ book := set_validity (set_sequence (book s) last) Valid ⟫ ⟪ state := Live ⟫.

Lemma apply_snapshot_and_drain_eq sb sa n s :
  apply_snapshot_and_drain sb sa n s =
  match apply_snapshot sb sa (Some n) (book s) with
  | (Ok _, b0) =>
      match drain_loop (filter (fun d => n < delta_sequence d) (buffer s)) n
              (drain_start s b0) with
      | (Ok last, s1) => (Ok tt, go_live s1 last)
      | (Err e, s1) => (Err e, s1)
      end
  | (Err e, b0) => (Err e, s ⟪ state := SnapshotReceived ⟫)
  end.
Proof.
  unfold apply_snapshot_and_drain. unfold ebind at 1, emod at 1. unfold ebind at 1.
  rewrite on_book_eq. cbn [book set_field fst snd].
  destruct (apply_snapshot sb sa (Some n) (book s)) as [[[]|e] b0] eqn:E.
  - unfold ebind, emod, eget. simpl. unfold drain_start, clear_buffer. simpl.
    by destruct (drain_loop _ _ _) as [[last|e] s1].
  - apply apply_snapshot_Err in E as ->. by destruct s.
Qed.

Lemma Forall_filter_sub {A} (P Q : A -> Prop) `{!forall x, Decision (Q x)} l :
  Forall P l -> Forall P (filter Q l).
Proof. rewrite !Forall_forall. intros HP x [_ Hx]%list_elem_of_filter. auto. Qed.

Lemma apply_snapshot_and_drain_inv sb sa n s :
  sync_inv s -> Forall level_input_ok sb -> Forall level_input_ok sa -> fits U64 n ->
  sync_inv (snd (apply_snapshot_and_drain sb sa n s)).
Proof.
  intros Hs Hsb Hsa Hn. rewrite apply_snapshot_and_drain_eq.
  pose proof (apply_snapshot_ok sb sa (Some n) (book s) (inv_book _ Hs) Hsb Hsa) as Hb0.
  destruct (apply_snapshot sb sa (Some n) (book s)) as [[[]|e] b0] eqn:Es; simpl in Hb0.
  2:{ destruct Hs. by split. }
  assert (Forall delta_ok (filter (fun d => n < delta_sequence d) (buffer s))) as Hds
    by apply Forall_filter_sub, Hs.
  assert (offline_inv (drain_start s b0)) as H0.
  { split; [|done]. destruct Hs. split; [done|done|by apply clear_buffer_ok|intros [=]]. }
  pose proof (drain_loop_inv _ n _ H0 Hds) as [H1 _].
  destruct (drain_loop _ n _) as [[last|e] s1] eqn:Ed; [|done].
  apply drain_loop_Ok in Ed as (ap & b' & _ & _ & _ & _ & _ & _ & Hv & ->);
    [|done|done|by apply (apply_snapshot_Valid _ _ _ _ _ Es)].
  destruct H1 as [Hb Hl Hbuf _]. split; [|done|done|by exists last].
  simpl in *. destruct Hb as [Hb Hu]. split; [|intros _; by apply Hu].
  by apply book_wf_validity, book_wf_sequence.
Qed.

Lemma on_live_delta_inv n sd op p q s :
  sync_inv s -> change_input_ok p q -> sync_inv (snd (on_live_delta n sd op p q s)).
Proof.
  intros Hs Hin. unfold on_live_delta. unfold ebind at 1, eget.
  case_bool_decide as Hst; [done|]. destruct (n <? _); [done|].
  destruct (_ <? n); [by apply note_gap_inv|].
  pose proof (on_book_change_inv sd op p q s Hs Hin) as H1. unfold ebind at 1.
  destruct (on_book _ s) as [[[]|e] s1]; [|done]. simpl in *.
  destruct H1 as [Hb Hl Hbuf _]. split; [|done|done|by exists n].
  simpl. destruct Hb as [Hb Hu]. split; [by apply book_wf_sequence|done].
Qed.

(** ** Reachable states *)

Inductive sync_step : BookSynchronizer -> BookSynchronizer -> Prop :=
  | step_resync s : sync_step s (begin_resync s)
  | step_invalidate s : sync_step s (invalidate s)
  | step_request s : sync_step s (request_snapshot s)
  | step_gap s : sync_step s (note_gap s)
  | step_buffer s d : delta_ok d -> sync_step s (snd (buffer_delta d s))
  | step_snapshot s sb sa n :
      Forall level_input_ok sb -> Forall level_input_ok sa -> fits U64 n ->
      sync_step s (snd (apply_snapshot_and_drain sb sa n s))
  | step_live s n sd op p q :
      change_input_ok p q -> sync_step s (snd (on_live_delta n sd op p q s)).

Definition sync_reachable (i : InstrumentId) (b : OrderBook) (l : SyncLimits)
    : BookSynchronizer -> Prop := rtc sync_step (sync_new i b l).

Lemma sync_step_inv s s' : sync_inv s -> sync_step s s' -> sync_inv s'.
Proof.
  intros Hs Hstep. destruct Hstep;
    eauto using begin_resync_inv, invalidate_inv, request_snapshot_inv, note_gap_inv,
      buffer_delta_inv, apply_snapshot_and_drain_inv, on_live_delta_inv.
Qed.

Lemma sync_new_inv i b l : book_ok b -> limits_ok l -> sync_inv (sync_new i b l).
Proof.
  intros Hb Hl. split; [done|done|by apply (clear_buffer_ok (sync_new i b l))|intros [=]].
Qed.

(** C27. Every state a synchroniser can reach, through any interleaving of
    resyncs, gaps, buffered deltas, snapshots and live deltas, successful or
    not, keeps a legal book (uncrossed and within depth while [Valid]), a
    buffer within its message, byte and time limits with exact accounting,
    and, while [Live], an expected sequence that follows the book's. *)
Theorem sync_reachable_inv i b l s :
  book_ok b -> limits_ok l -> sync_reachable i b l s -> sync_inv s.
Proof.
  intros Hb Hl Hr. pose proof (sync_new_inv i b l Hb Hl) as H0. revert H0.
  induction Hr as [|s0 s1 s2 Hstep _ IH]; [done|]. intros H0.
  by apply IH, (sync_step_inv s0).
Qed.

Lemma new_book_ok ps qs : fits U8 ps -> fits U8 qs -> book_ok (new ps qs None).
Proof. intros. split; [by apply book_wf_new|intros [=]]. Qed.

Lemma delta_at_ok n t sd p q :
  fits U64 n -> fits U64 t -> fits I128 p -> fits I128 q ->
  delta_ok (delta_at n t sd (px p) (qt q)).
Proof.
  intros. split; [done|]. split; [simpl; lia|]. split; [done|].
  split; [split; solve_fits|]. intros q' [= <-]. split; solve_fits.
Qed.

Lemma sample_deltas_ok : Forall delta_ok sample_deltas.
Proof.
  unfold sample_deltas. do 4 (apply Forall_cons_2; [apply delta_at_ok; solve_fits|]).
  apply Forall_nil_2.
Qed.

Lemma buffer_reachable ds s :
  Forall delta_ok ds -> rtc sync_step s (snd (efor ds buffer_delta s)).
Proof.
  intros Hds. revert s. induction Hds as [|d ds Hd _ IH]; intros s; [done|].
  eapply rtc_l; [by apply (step_buffer s d)|]. simpl. unfold ebind.
  destruct (buffer_delta d s) as [[[]|e] s1]; [apply IH|done].
Qed.

Lemma sync_reachable_inv_witness : sync_inv live_sync.
Proof.
  apply (sync_reachable_inv 1 (new 2 3 None) default_limits).
  - apply new_book_ok; solve_fits.
  - repeat split; simpl; lia.
  - eapply rtc_l; [apply step_request|].
    etrans; [apply (buffer_reachable sample_deltas), sample_deltas_ok|].
    unfold live_sync, buffered_sync. apply rtc_once, step_snapshot;
      repeat first [apply Forall_nil_2 | apply Forall_cons_2 | solve_input | split].
Defined.

(** ** The drain *)

(** C8. A snapshot that completes applies to it exactly the buffered deltas
    numbered [n+1], [n+2], ... without a hole, each once and in buffer order;
    nothing newer is left behind; the book is the snapshot followed by those
    changes, and the synchroniser is [Live] expecting the next number. *)
Theorem drain_in_sequence sb sa n s s' :
  sync_inv s -> fits U64 n ->
  apply_snapshot_and_drain sb sa n s = (Ok tt, s') ->
  exists b0 applied b1,
    apply_snapshot sb sa (Some n) (book s) = (Ok tt, b0) /\
    sublist applied (buffer s) /\
    delta_sequence <$> applied = seqZ (n + 1) (Z.of_nat (length applied)) /\
    efor applied apply_delta b0 = (Ok tt, b1) /\
    let last := n + Z.of_nat (length applied) in
    Forall (fun d => delta_sequence d <= last) (buffer s) /\
    book s' = set_sequence b1 last /\ validity (book s') = Valid /\
    state s' = Live /\ expected_sequence s' = Some (wrap U64 (last + 1)) /\ buffer s' = [].
Proof.
  intros Hs Hn. rewrite apply_snapshot_and_drain_eq.
  destruct (apply_snapshot sb sa (Some n) (book s)) as [[[]|e] b0] eqn:Es; [|done].
  destruct (drain_loop _ n _) as [[last|e] s1] eqn:Ed; [|done]. intros [= <-].
  apply drain_loop_Ok in Ed as (ap & b1 & H1 & H2 & -> & H4 & H5 & H6 & H7 & ->);
    [|done|apply Forall_filter_sub, Hs|by apply (apply_snapshot_Valid _ _ _ _ _ Es)].
  exists b0, ap, b1. split; [done|].
  split; [etrans; [exact H1|apply sublist_filter]|]. do 2 (split; [done|]).
  split; [|repeat split; simpl; unfold set_sequence, set_validity; simpl; by rewrite <- ?H7].
  apply Forall_forall. intros d Hd. rewrite Forall_forall in H5.
  destruct (decide (n < delta_sequence d)); [|lia].
  apply H5, list_elem_of_filter. done.
Qed.

Lemma buffered_sync_inv : sync_inv buffered_sync.
Proof.
  apply (efor_inv sync_inv).
  - apply request_snapshot_inv, sync_new_inv; [apply new_book_ok; solve_fits|].
    repeat split; simpl; lia.
  - intros d s Hd Hs. apply buffer_delta_inv; [done|].
    pose proof sample_deltas_ok as H. rewrite Forall_forall in H. auto.
Qed.

Lemma drain_in_sequence_witness :
  exists b0 applied b1,
    apply_snapshot [(px 9900, qt 1000)] [(px 10100, qt 1500)] (Some 7) (book buffered_sync)
      = (Ok tt, b0) /\
    sublist applied (buffer buffered_sync) /\
    delta_sequence <$> applied = seqZ (7 + 1) (Z.of_nat (length applied)) /\
    efor applied apply_delta b0 = (Ok tt, b1) /\
    let last := 7 + Z.of_nat (length applied) in
    Forall (fun d => delta_sequence d <= last) (buffer buffered_sync) /\
    book live_sync = set_sequence b1 last /\ validity (book live_sync) = Valid /\
    state live_sync = Live /\ expected_sequence live_sync = Some (wrap U64 (last + 1)) /\
    buffer live_sync = [].
Proof.
  apply (drain_in_sequence [(px 9900, qt 1000)] [(px 10100, qt 1500)] 7 buffered_sync live_sync).
  - apply buffered_sync_inv.
  - solve_fits.
  - vm_compute. reflexivity.
Defined.

(** ** Buffered and live deltas *)

Definition on_delta (d : BufferedDelta) : Eff BookSynchronizer BookError unit :=
  on_live_delta (delta_sequence d) (delta_side d) (delta_operation d) (delta_price d)
    (delta_quantity d).

(** No operation on the levels reads or writes the book's sequence. *)
Lemma apply_change_set_sequence s op p q b n :
  apply_change s op p q (set_sequence b n) =
  (fst (apply_change s op p q b), set_sequence (snd (apply_change s op p q b)) n).
Proof.
  assert (forall b, check_not_crossed (set_sequence b n) = check_not_crossed b) as Hc by done.
  assert (forall b, trim_depth (set_sequence b n) = set_sequence (trim_depth b) n) as Ht
    by (intros b0; unfold trim_depth; simpl; by destruct (depth b0)).
  assert (delete (set_sequence b n) s p = set_sequence (delete b s p) n) as Hd.
  { unfold delete. change (price_key (set_sequence b n) p) with (price_key b p).
    destruct (price_key b p); [|done]. by destruct s. }
  assert (forall qk, upsert (set_sequence b n) s p qk =
                     rmap (fun b => set_sequence b n) (upsert b s p qk)) as Hu.
  { intros qk. unfold upsert. destruct (_ <=? 0); [done|].
    change (price_key (set_sequence b n) p) with (price_key b p).
    destruct (price_key b p); simpl; [|done].
    destruct (scale_coeff _ _); simpl; [|done]. by destruct s. }
  unfold apply_change. eff_unfold. rewrite Hd. simpl.
  case_bool_decide; [done|]. destruct op; [|done]. destruct q as [q|]; simpl; [|done].
  destruct (_ =? 0); [done|]. rewrite Hu. destruct (upsert b s p q) as [b1|]; simpl; [|done].
  rewrite Ht, Hc. by destruct (check_not_crossed _).
Qed.

Lemma drain_loop_filter n ds last :
  n <= last ->
  drain_loop (filter (fun d => n < delta_sequence d) ds) last = drain_loop ds last.
Proof.
  revert last. induction ds as [|d ds IH]; intros last Hle; [done|].
  rewrite filter_cons. cbn [drain_loop].
  destruct (decide (n < delta_sequence d)).
  - cbn [drain_loop]. destruct (Z.leb_spec (delta_sequence d) last); [by apply IH|].
    by rewrite IH by lia.
  - destruct (Z.leb_spec (delta_sequence d) last); [by apply IH|lia].
Qed.

Lemma go_live_valid s last :
  validity (book s) = Valid ->
  go_live s last = s ⟪ expected_sequence := Some (wrap U64 (last + 1)) ⟫
                     ⟪ book := set_sequence (book s) last ⟫ ⟪ state := Live ⟫.
Proof. intros Hv. unfold go_live, set_validity. simpl. by rewrite <- Hv. Qed.

Definition no_wrap (n : Z) : Prop := 0 <= n < int_max U64.

(** One live delta does to a live synchroniser what one pass of the drain
    loop does to a draining one. *)
Lemma on_delta_drain d last s :
  no_wrap last -> no_wrap (delta_sequence d) -> validity (book s) = Valid ->
  match drain_loop [d] last s with
  | (Ok last', s') => on_delta d (go_live s last) = (Ok tt, go_live s' last') /\
                      no_wrap last' /\ validity (book s') = Valid
  | (Err e, _) => fst (on_delta d (go_live s last)) = Err e
  end.
Proof.
  intros Hl Hd Hv. rewrite go_live_valid by done. unfold no_wrap in *. simpl int_max in *.
  cbn [drain_loop]. unfold on_delta, on_live_delta, ebind, eget, emod. simpl.
  rewrite !wrap_fits by solve_fits.
  destruct (Z.leb_spec (delta_sequence d) last).
  { rewrite (proj2 (Z.ltb_lt _ _)) by lia. split; [|done].
    rewrite go_live_valid, wrap_fits by (done || solve_fits). done. }
  rewrite (proj2 (Z.ltb_ge _ _)) by lia.
  destruct (Z.eqb_spec (delta_sequence d) (last + 1)) as [Heq|]; simpl.
  2:{ by rewrite (proj2 (Z.ltb_lt _ _)) by lia. }
  rewrite (proj2 (Z.ltb_ge _ _)) by lia. rewrite !on_book_eq. simpl.
  rewrite apply_change_set_sequence. simpl.
  destruct (apply_change _ _ _ _ (book s)) as [[[]|e] b1] eqn:Ea; simpl; [|done].
  apply apply_change_Valid in Ea as [_ Hb1]. split; [|done].
  rewrite go_live_valid, wrap_fits by (done || solve_fits). done.
Qed.

Lemma drain_loop_cons d ds last s :
  drain_loop (d :: ds) last s =
  match drain_loop [d] last s with
  | (Ok last', s') => drain_loop ds last' s'
  | (Err e, s') => (Err e, s')
  end.
Proof.
  cbn [drain_loop]. destruct (_ <=? last); [done|]. destruct (negb _); [done|].
  unfold ebind. by destruct (on_book _ s) as [[[]|e] s1].
Qed.

Lemma live_as_drain ds last s :
  no_wrap last -> Forall (fun d => no_wrap (delta_sequence d)) ds -> validity (book s) = Valid ->
  match drain_loop ds last s with
  | (Ok last', s') => efor ds on_delta (go_live s last) = (Ok tt, go_live s' last')
  | (Err e, _) => fst (efor ds on_delta (go_live s last)) = Err e
  end.
Proof.
  intros Hl Hds. revert last s Hl. induction Hds as [|d ds Hd Hds IH]; intros last s Hl Hv; [done|].
  rewrite drain_loop_cons. pose proof (on_delta_drain d last s Hl Hd Hv) as H1.
  cbn [efor]. unfold ebind at 1 2.
  destruct (drain_loop [d] last s) as [[last1|e] s1].
  - destruct H1 as (-> & Hl1 & Hv1). by apply IH.
  - by destruct (on_delta d (go_live s last)) as [[]].
Qed.

(** Buffering changes nothing: a snapshot with deltas waiting in the
    buffer ends exactly like the same snapshot with an empty buffer followed
    by the same deltas arriving live - the same verdict, and on success the
    same book, sequence and state. *)
Theorem buffered_equals_live sb sa n s :
  no_wrap n -> Forall (fun d => no_wrap (delta_sequence d)) (buffer s) ->
  let buffered := apply_snapshot_and_drain sb sa n s in
  let live := (apply_snapshot_and_drain sb sa n !; efor (buffer s) on_delta) (clear_buffer s) in
  fst buffered = fst live /\ (fst buffered = Ok tt -> snd buffered = snd live).
Proof.
  intros Hn Hds buffered live. unfold buffered, live, ebind.
  rewrite !apply_snapshot_and_drain_eq. simpl book. simpl buffer.
  destruct (apply_snapshot sb sa (Some n) (book s)) as [[[]|e] b0] eqn:Es; [|done].
  rewrite drain_loop_filter by lia. simpl drain_loop.
  change (drain_start (clear_buffer s) b0) with (drain_start s b0).
  apply apply_snapshot_Valid in Es as [Hv _].
  pose proof (live_as_drain (buffer s) n (drain_start s b0) Hn Hds Hv) as H.
  simpl eret. cbn [eret]. destruct (drain_loop (buffer s) n _) as [[last|e] s1].
  - rewrite H. done.
  - rewrite H. done.
Qed.

Lemma buffered_equals_live_witness :
  (apply_snapshot_and_drain [(px 9900, qt 1000)] [(px 10100, qt 1500)] 7 !;
   efor (buffer buffered_sync) on_delta) (clear_buffer buffered_sync) = (Ok tt, live_sync).
Proof.
  destruct (buffered_equals_live [(px 9900, qt 1000)] [(px 10100, qt 1500)] 7 buffered_sync)
    as [H1 H2].
  - vm_compute; split; congruence.
  - repeat first [apply Forall_nil_2 | apply Forall_cons_2; [vm_compute; split; congruence|]].
  - specialize (H2 ltac:(vm_compute; reflexivity)). unfold live_sync. rewrite H2.
    rewrite surjective_pairing at 1. f_equal.
Defined.

Lemma drain_loop_rejected ds last s e s' :
  e = ScaleMismatch \/ e = NonPositiveQuantity \/ e = InvalidDelete ->
  validity (book s) = Valid -> drain_loop ds last s = (Err e, s') ->
  state s' = state s /\ validity (book s') = Valid.
Proof.
  intros He. revert last s. induction ds as [|d ds IH]; intros last s Hv; cbn [drain_loop]; [done|].
  destruct (_ <=? last); [by apply IH|]. destruct (negb _); [intros [= <- _]; naive_solver|].
  unfold ebind. rewrite on_book_eq.
  destruct (apply_change _ _ _ _ (book s)) as [[[]|e'] b1] eqn:Ea; simpl.
  - intros H. apply apply_change_Valid in Ea as [_ Hb1].
    eapply IH in H as [-> ->]; done.
  - intros [= -> <-]. simpl. split; [done|].
    pose proof (apply_change_outcome (book s) (delta_side d) (delta_operation d)
      (delta_price d) (delta_quantity d)) as Ho. rewrite Ea in Ho. simpl in Ho.
    inversion Ho; subst; [done|naive_solver].
Qed.

(** C28. A buffered delta that the book rejects for its scale or quantity
    aborts the drain with the synchroniser not [Live], yet the book stays
    [Valid]: its queries keep serving the half-drained levels. *)
Theorem failed_drain_serves_book sb sa n s e s' :
  sync_inv s -> fits U64 n ->
  apply_snapshot_and_drain sb sa n s = (Err e, s') ->
  e = ScaleMismatch \/ e = NonPositiveQuantity \/ e = InvalidDelete ->
  is_ok (fst (apply_snapshot sb sa (Some n) (book s))) = true ->
  state s' = ApplyingBufferedDeltas /\ validity (book s') = Valid /\
  snapshot_levels (book s') <> None.
Proof.
  intros Hs Hn Hrun He Hok. rewrite apply_snapshot_and_drain_eq in Hrun.
  destruct (apply_snapshot sb sa (Some n) (book s)) as [[[]|?] b0] eqn:Es; [|done].
  destruct (drain_loop _ n _) as [[last|e'] s1] eqn:Ed; [done|]. injection Hrun as -> ->.
  apply apply_snapshot_Valid in Es as [Hv _].
  apply drain_loop_rejected in Ed as [Hst Hval]; [|done|done].
  split; [done|]. split; [done|].
  unfold snapshot_levels, snapshot_levels_bounded. by rewrite Hval.
Qed.

Definition fine_delta : BufferedDelta :=
  mkBufferedDelta 8 8 2 Bid Upsert (mkPrice (mkFixed 99605 3)) (Some (qt 10)).

Definition fine_sync : BookSynchronizer :=
  snd (buffer_delta fine_delta (request_snapshot (sync_new 1 (new 2 3 None) default_limits))).

Lemma failed_drain_serves_book_witness :
  exists s', apply_snapshot_and_drain [(px 9900, qt 1000)] [(px 10100, qt 1500)] 7 fine_sync
               = (Err ScaleMismatch, s') /\
  state s' = ApplyingBufferedDeltas /\ validity (book s') = Valid /\
  snapshot_levels (book s') <> None.
Proof.
  eexists. split; [vm_compute; reflexivity|].
  apply (failed_drain_serves_book [(px 9900, qt 1000)] [(px 10100, qt 1500)] 7 fine_sync
           ScaleMismatch).
  - apply buffer_delta_inv.
    + apply request_snapshot_inv, sync_new_inv; [apply new_book_ok; solve_fits|].
      repeat split; simpl; lia.
    + split; [solve_fits|]. split; [simpl; lia|]. split; [solve_fits|].
      split; [split; solve_fits|]. intros q' [= <-]. split; solve_fits.
  - solve_fits.
  - vm_compute. reflexivity.
  - by left.
  - vm_compute. reflexivity.
Defined.
