(* ===== verification/Dispatch.v ===== *)
(** * Bounded dispatch queues ([crates/dispatch/src/queue.rs])

    The lanes between a session and its consumers: a FIFO of bounded capacity
    with an explicit overflow policy, and the dispatcher that owns one lane
    for event batches and one for system events. *)

From stdpp Require Import base tactics numbers strings option list.
From Stdlib Require Import ZArith Lia.
From S2P Require Import Prelude Fixed Model.

Local Open Scope Z_scope.

Inductive DispatchError :=
  | EngineFailed
  | DeadlineExceeded
  | UnsupportedPolicy (p : OverflowPolicy).

Inductive PushOutcome :=
  | Accepted
  | DroppedNewest
  | DroppedOldest (dropped : Z).

Record BoundedQueue (T : Type) := mkBoundedQueue {
  capacity : Z;
  policy : OverflowPolicy;
  items : list T;
  dropped_total : Z
}.
Arguments mkBoundedQueue {T}.
Arguments capacity {T}.
Arguments policy {T}.
Arguments items {T}.
Arguments dropped_total {T}.

#[export] Instance eta_BoundedQueue T : Eta (BoundedQueue T) := fun q =>
  mkBoundedQueue (capacity q) (policy q) (items q) (dropped_total q).

(** [assert!(capacity > 0)] panics: [None]. *)
Definition queue_new {T} (capacity : Z) (policy : OverflowPolicy) : option (BoundedQueue T) :=
  if 0 <? capacity then Some (mkBoundedQueue capacity policy [] 0) else None.

Definition queue_len {T} (self : BoundedQueue T) : Z := Z.of_nat (length (items self)).

Definition front {T} (self : BoundedQueue T) : option T := head (items self).

Definition pop_front {T} (self : BoundedQueue T) : option T * BoundedQueue T :=
  match items self with
  | [] => (None, self)
  | x :: rest => (Some x, self ⟪ items := rest ⟫)
  end.

Definition try_push {T} (item : T) : Eff (BoundedQueue T) DispatchError PushOutcome :=
  let! self := eget in
  if queue_len self <? capacity self then
    eput (self ⟪ items := items self ++ [item] ⟫) !;
    eret Accepted
  else
    match policy self with
    | DropNewest =>
        eput (self ⟪ dropped_total := wrap U64 (dropped_total self + 1) ⟫) !;
        eret DroppedNewest
    | DropOldest =>
        let '(_, self) := pop_front self in
        let self := self ⟪ items := items self ++ [item] ⟫ in
        eput (self ⟪ dropped_total := wrap U64 (dropped_total self + 1) ⟫) !;
        eret (DroppedOldest 1)
    | FailEngine => ethrow EngineFailed
    | BlockWithDeadline => ethrow DeadlineExceeded
    | other => ethrow (UnsupportedPolicy other)
    end.

(** The spin loop of [push_with_deadline], over the successive readings of
    [Instant::now()]; [None] means that it is still spinning when the
    readings run out. *)
Fixpoint spin {T} (clock : list Z) (item : T) (deadline : Z) (self : BoundedQueue T)
    : option (result PushOutcome DispatchError * BoundedQueue T) :=
  if queue_len self <? capacity self then
    Some (Ok Accepted, self ⟪ items := items self ++ [item] ⟫)
  else
    match clock with
    | [] => None
    | now :: clock' =>
        if deadline <=? now then Some (Err DeadlineExceeded, self)
        else spin clock' item deadline self
    end.

Definition push_with_deadline {T} (clock : list Z) (item : T) (deadline : Z)
    (self : BoundedQueue T) : option (result PushOutcome DispatchError * BoundedQueue T) :=
  if bool_decide (policy self <> BlockWithDeadline) then Some (try_push item self)
  else spin clock item deadline self.

(** ** The dispatcher *)

(** [EventBatch] of the adapter interface. *)
Record EventBatch := mkEventBatch {
  batch_session : SessionId;
  batch_frame_seq : Z;
  batch_events : list EventEnvelope
}.

Record EventDispatcher := mkEventDispatcher {
  batches : BoundedQueue EventBatch;
  systems : BoundedQueue SystemEvent
}.

#[export] Instance eta_EventDispatcher : Eta EventDispatcher := fun d =>
  mkEventDispatcher (batches d) (systems d).

Definition dispatcher_new (batch_capacity system_capacity : Z) (policy : OverflowPolicy)
    : option EventDispatcher :=
  match queue_new batch_capacity policy with
  | None => None
  | Some batches =>
      match queue_new system_capacity policy with
      | None => None
      | Some systems => Some (mkEventDispatcher batches systems)
      end
  end.

Definition push_batch (batch : EventBatch) : Eff EventDispatcher DispatchError PushOutcome :=
  ezoom batches (fun q d => d ⟪ batches := q ⟫) (try_push batch).

Definition push_system (event : SystemEvent) : Eff EventDispatcher DispatchError PushOutcome :=
  ezoom systems (fun q d => d ⟪ systems := q ⟫) (try_push event).

Definition pop_batch (self : EventDispatcher) : option EventBatch * EventDispatcher :=
  let '(b, q) := pop_front (batches self) in (b, self ⟪ batches := q ⟫).

Definition pop_system (self : EventDispatcher) : option SystemEvent * EventDispatcher :=
  let '(e, q) := pop_front (systems self) in (e, self ⟪ systems := q ⟫).

(** [while let Some(x) = q.pop_front()]: each pass removes an item, so one
    more than the length is enough fuel. *)
Fixpoint drain_queue {T} (fuel : nat) (self : BoundedQueue T) (out : list T)
    : list T * BoundedQueue T :=
  match fuel with
  | O => (out, self)
  | S fuel' =>
      match pop_front self with
      | (Some b, self') => drain_queue fuel' self' (out ++ [b])
      | (None, self') => (out, self')
      end
  end.

Definition drain_batches (self : EventDispatcher) : list EventBatch * EventDispatcher :=
  let '(out, q) := drain_queue (S (length (items (batches self)))) (batches self) [] in
  (out, self ⟪ batches := q ⟫).

Definition drain_systems (self : EventDispatcher) : list SystemEvent * EventDispatcher :=
  let '(out, q) := drain_queue (S (length (items (systems self)))) (systems self) [] in
  (out, self ⟪ systems := q ⟫).

(** ** Histories of one queue *)

Inductive queue_op (T : Type) := OpPush (x : T) | OpPop.
Arguments OpPush {T}.
Arguments OpPop {T}.

(** What the caller of each operation observed. *)
Inductive observation (T : Type) :=
  | Pushed (x : T) (r : result PushOutcome DispatchError)
  | Popped (x : option T).
Arguments Pushed {T}.
Arguments Popped {T}.

Fixpoint run_queue {T} (ops : list (queue_op T)) (q : BoundedQueue T)
    : list (observation T) * BoundedQueue T :=
  match ops with
  | [] => ([], q)
  | OpPush x :: ops' =>
      let '(r, q1) := try_push x q in
      let '(obs, q2) := run_queue ops' q1 in (Pushed x r :: obs, q2)
  | OpPop :: ops' =>
      let '(x, q1) := pop_front q in
      let '(obs, q2) := run_queue ops' q1 in (Popped x :: obs, q2)
  end.

(** Items offered, items whose push reported that they entered, items
    delivered. *)
Definition offered {T} (obs : list (observation T)) : list T :=
  flat_map (fun o => match o with Pushed x _ => [x] | Popped _ => [] end) obs.

Definition entered {T} (obs : list (observation T)) : list T :=
  flat_map (fun o => match o with
                     | Pushed x (Ok Accepted) | Pushed x (Ok (DroppedOldest _)) => [x]
                     | _ => []
                     end) obs.

Definition delivered {T} (obs : list (observation T)) : list T :=
  flat_map (fun o => match o with Popped (Some x) => [x] | _ => [] end) obs.

Definition evicts {T} (o : observation T) : Z :=
  match o with Pushed _ (Ok (DroppedOldest _)) => 1 | _ => 0 end.

Definition drops {T} (o : observation T) : Z :=
  match o with
  | Pushed _ (Ok (DroppedOldest _)) | Pushed _ (Ok DroppedNewest) => 1
  | _ => 0
  end.

Definition total {T} (f : observation T -> Z) (obs : list (observation T)) : Z :=
  foldr (fun o n => f o + n) 0 obs.

Definition queue_ok {T} (q : BoundedQueue T) : Prop :=
  0 < capacity q /\ queue_len q <= capacity q /\ fits U64 (dropped_total q).

Section Queue.
Context {T : Type}.
Implicit Types (q : BoundedQueue T) (x : T).

(** The branches of a push. *)
Inductive push_outcome q x : result PushOutcome DispatchError -> BoundedQueue T -> Prop :=
  | push_accepted :
      queue_len q < capacity q ->
      push_outcome q x (Ok Accepted) (q ⟪ items := items q ++ [x] ⟫)
  | push_dropped_newest :
      capacity q <= queue_len q -> policy q = DropNewest ->
      push_outcome q x (Ok DroppedNewest)
        (q ⟪ dropped_total := wrap U64 (dropped_total q + 1) ⟫)
  | push_dropped_oldest :
      capacity q <= queue_len q -> policy q = DropOldest ->
      push_outcome q x (Ok (DroppedOldest 1))
        (q ⟪ items := tail (items q) ++ [x] ⟫
           ⟪ dropped_total := wrap U64 (dropped_total q + 1) ⟫)
  | push_refused e : capacity q <= queue_len q -> push_outcome q x (Err e) q.

Lemma try_push_outcome q x :
  push_outcome q x (fst (try_push x q)) (snd (try_push x q)).
Proof.
  unfold try_push. eff_unfold. destruct (Z.ltb_spec (queue_len q) (capacity q));
    [by constructor|].
  destruct (policy q) eqn:Hp; try by constructor.
  unfold pop_front. destruct q as [c p [|y l] d]; by constructor.
Qed.

Lemma push_keeps q x r q' :
  queue_ok q -> push_outcome q x r q' ->
  queue_ok q' /\ capacity q' = capacity q /\ policy q' = policy q.
Proof.
  unfold queue_ok, queue_len. intros (Hc & Hl & Hd) Ho.
  destruct Ho as [H|H Hp|H Hp|e H]; unfold queue_len in *; simpl;
    (split; [|done]); (split; [done|]).
  - rewrite length_app. simpl. split; [lia|done].
  - split; [done|apply wrap_range].
  - split; [|apply wrap_range]. rewrite length_app. destruct (items q); simpl in *; lia.
  - done.
Qed.

Lemma pop_front_keeps q (x : option T) q' :
  queue_ok q -> pop_front q = (x, q') ->
  queue_ok q' /\ capacity q' = capacity q /\ policy q' = policy q /\
  dropped_total q' = dropped_total q /\ items q = option_list x ++ items q'.
Proof.
  unfold queue_ok, queue_len, pop_front. intros (Hc & Hl & Hd) Hp.
  destruct (items q) as [|y l] eqn:E; injection Hp as <- <-; simpl;
    rewrite ?E in *; simpl in *; repeat split; try done; try lia; apply Hd.
Qed.

(** Conservation over any history, from any queue. *)
Definition conserved q (obs : list (observation T)) q' : Prop :=
  queue_ok q' /\ capacity q' = capacity q /\ policy q' = policy q /\
  sublist (delivered obs ++ items q') (items q ++ entered obs) /\
  sublist (entered obs) (offered obs) /\
  (policy q <> DropOldest -> delivered obs ++ items q' = items q ++ entered obs) /\
  queue_len q + Z.of_nat (length (entered obs)) =
    Z.of_nat (length (delivered obs)) + queue_len q' + total evicts obs /\
  dropped_total q' = wrap U64 (dropped_total q + total drops obs).

Lemma conserved_push q x r q1 obs q' :
  queue_ok q -> push_outcome q x r q1 -> conserved q1 obs q' ->
  conserved q (Pushed x r :: obs) q'.
Proof.
  intros Hq Ho (H1 & H2 & H3 & H4 & H5 & H6 & H7 & H8).
  destruct (push_keeps _ _ _ _ Hq Ho) as (_ & Hc & Hp). destruct Hq as (Q1 & Q2 & Q3).
  destruct Ho as [H|H Hpol|H Hpol|e H]; unfold conserved, queue_len in *; simpl in *;
    (split; [done|]); (split; [congruence|]); (split; [congruence|]).
  - rewrite <- app_assoc in H4. rewrite length_app in H7. simpl in *.
    split; [done|]. split; [by constructor|]. split; [|split; [lia|done]].
    intros Hne. rewrite (H6 Hne), <- app_assoc. done.
  - split; [done|]. split; [by constructor|]. split; [done|]. split; [lia|].
    rewrite H8, wrap_add_l. f_equal. lia.
  - destruct (items q) as [|y l] eqn:E; simpl in *; [lia|].
    rewrite <- app_assoc in H4. rewrite length_app in H7. simpl in *.
    split; [by constructor|]. split; [by constructor|]. split; [congruence|].
    split; [lia|]. rewrite H8, wrap_add_l. f_equal. lia.
  - split; [done|]. split; [by constructor|]. split; [done|]. split; [lia|done].
Qed.

Lemma conserved_pop q (x : option T) q1 obs q' :
  queue_ok q -> pop_front q = (x, q1) -> conserved q1 obs q' ->
  conserved q (Popped x :: obs) q'.
Proof.
  intros Hq Ho (H1 & H2 & H3 & H4 & H5 & H6 & H7 & H8).
  destruct (pop_front_keeps _ _ _ Hq Ho) as (_ & Hc & Hp & Hd & Hi).
  unfold conserved, queue_len in *. rewrite Hi, <- Hp, <- Hd, <- Hc.
  destruct x as [y|]; simpl in *.
  - repeat split; try done; try apply H1; try lia; [by constructor|].
    intros Hne. by rewrite (H6 Hne).
  - repeat split; try done; apply H1.
Qed.

Lemma run_queue_conserved ops q :
  queue_ok q -> conserved q (fst (run_queue ops q)) (snd (run_queue ops q)).
Proof.
  revert q. induction ops as [|[x|] ops IH]; intros q Hq; simpl.
  - unfold conserved. simpl. rewrite !app_nil_r, (Z.add_0_r (dropped_total q)), wrap_fits by apply Hq.
    repeat split; try done; try apply Hq.
  - pose proof (try_push_outcome q x) as Ho. destruct (try_push x q) as [r q1]. simpl in Ho.
    destruct (push_keeps _ _ _ _ Hq Ho) as (Hq1 & _). specialize (IH q1 Hq1).
    destruct (run_queue ops q1) as [obs q2]. by eapply conserved_push.
  - destruct (pop_front q) as [x q1] eqn:Ho.
    destruct (pop_front_keeps _ _ _ Hq Ho) as (Hq1 & _). specialize (IH q1 Hq1).
    destruct (run_queue ops q1) as [obs q2]. by eapply conserved_pop.
Qed.

Lemma queue_new_ok c p q : queue_new c p = Some q -> queue_ok q /\ items q = [] /\
  dropped_total q = 0 /\ capacity q = c /\ policy q = p.
Proof.
  unfold queue_new. destruct (Z.ltb_spec 0 c); [|done]. intros [= <-].
  repeat split; simpl; unfold queue_len; simpl; lia.
Qed.
End Queue.

(** C29. Over any sequence of pushes and pops on a new queue: the length never
    exceeds the capacity; what is delivered followed by what is still queued
    is an in-order selection of what entered, and under every policy but
    [DropOldest] it is exactly what entered; nothing is lost without an
    eviction being reported, and [dropped_total] counts every reported drop. *)
Theorem queue_fifo_conservation {T} (c : Z) (p : OverflowPolicy) (q : BoundedQueue T) ops :
  queue_new c p = Some q ->
  let '(obs, q') := run_queue ops q in
  queue_len q' <= c /\
  sublist (delivered obs ++ items q') (entered obs) /\
  sublist (entered obs) (offered obs) /\
  (p <> DropOldest -> delivered obs ++ items q' = entered obs) /\
  Z.of_nat (length (entered obs)) =
    Z.of_nat (length (delivered obs)) + queue_len q' + total evicts obs /\
  dropped_total q' = wrap U64 (total drops obs).
Proof.
  intros Hq. apply queue_new_ok in Hq as (Hok & Hi & Hd & Hc & Hp).
  pose proof (run_queue_conserved ops q Hok) as H.
  destruct (run_queue ops q) as [obs q'].
  destruct H as ((_ & Hlen & _) & H2 & H3 & H4 & H5 & H6 & H7 & H8). simpl in *.
  unfold queue_len in *. rewrite Hi, Hd, Hp in *. simpl in *.
  repeat split; try done; try lia.
Qed.

Lemma queue_fifo_conservation_witness :
  let '(obs, q') := run_queue [OpPush 1; OpPush 2; OpPush 3; OpPop; OpPush 4]
                      (mkBoundedQueue 2 DropOldest [] 0) in
  (delivered obs, items q') = ([2], [3; 4]) /\
  sublist (delivered obs ++ items q') (entered obs) /\ dropped_total q' = 1.
Proof.
  destruct (queue_fifo_conservation 2 DropOldest (mkBoundedQueue 2 DropOldest [] 0)
    [OpPush 1; OpPush 2; OpPush 3; OpPop; OpPush 4] ltac:(reflexivity)) as (_ & H & _).
  split; [reflexivity|]. split; [exact H|reflexivity].
Defined.

(** A burst of pushes under [DropOldest], from any queue. *)
Lemma drop_oldest_burst {T} (xs : list T) (q : BoundedQueue T) :
  queue_ok q -> policy q = DropOldest ->
  items (snd (run_queue (OpPush <$> xs) q)) =
  drop (length (items q ++ xs) - Z.to_nat (capacity q)) (items q ++ xs).
Proof.
  revert q. induction xs as [|x xs IH]; intros q Hq Hp.
  - destruct Hq as (Hc & Hl & _). unfold queue_len in Hl. rewrite app_nil_r. simpl.
    replace (length (items q) - Z.to_nat (capacity q))%nat with 0%nat by lia. done.
  - cbn [fmap list_fmap run_queue]. pose proof (try_push_outcome q x) as Ho.
    destruct (try_push x q) as [r q1] eqn:E. simpl in Ho.
    destruct (push_keeps _ _ _ _ Hq Ho) as (Hq1 & Hc & Hp1).
    change (list_fmap _ _ OpPush xs) with (@OpPush T <$> xs).
    destruct (run_queue (OpPush <$> xs) q1) as [obs q2] eqn:Er. simpl.
    specialize (IH q1 Hq1 ltac:(congruence)). rewrite Er in IH. simpl in IH. rewrite IH, Hc.
    destruct Hq as (Q1 & Q2 & _). unfold queue_len in Q2.
    destruct Ho as [H|H Hpol|H Hpol|e H]; unfold queue_len in *; simpl in *; try congruence.
    + by rewrite <- app_assoc.
    + destruct (items q) as [|y l]; simpl in *; [lia|]. rewrite <- app_assoc. simpl.
      rewrite !length_app. simpl.
      replace (S (length l + S (length xs)) - Z.to_nat (capacity q))%nat
        with (S (length l + S (length xs) - Z.to_nat (capacity q))) by lia. done.
    + unfold try_push in E. revert E. eff_unfold.
      rewrite (proj2 (Z.ltb_ge _ _)) by done. rewrite Hp. by destruct (pop_front q).
Qed.

(** Under [DropOldest] a burst of pushes on a new queue leaves exactly
    the latest items, as many as the capacity allows. *)
Theorem drop_oldest_keeps_latest {T} (c : Z) (q : BoundedQueue T) (xs : list T) :
  queue_new c DropOldest = Some q ->
  items (snd (run_queue (OpPush <$> xs) q)) = drop (length xs - Z.to_nat c) xs.
Proof.
  intros Hq. apply queue_new_ok in Hq as (Hok & Hi & _ & Hc & Hp).
  by rewrite (drop_oldest_burst xs q Hok Hp), Hi, Hc.
Qed.

Lemma drop_oldest_keeps_latest_witness :
  items (snd (run_queue (OpPush <$> [1; 2; 3; 4; 5]) (mkBoundedQueue 2 DropOldest [] 0))) = [4; 5].
Proof.
  exact (drop_oldest_keeps_latest 2 (mkBoundedQueue 2 DropOldest [] 0) [1; 2; 3; 4; 5]
           ltac:(reflexivity)).
Defined.

Lemma spin_full {T} clock (x : T) deadline q :
  capacity q <= queue_len q ->
  spin clock x deadline q =
  if bool_decide (Exists (fun now => deadline <= now) clock)
  then Some (Err DeadlineExceeded, q) else None.
Proof.
  intros Hf. induction clock as [|now clock IH]; simpl; rewrite (proj2 (Z.ltb_ge _ _)) by done.
  - done.
  - destruct (Z.leb_spec deadline now) as [Hle|Hgt].
    + rewrite bool_decide_eq_true_2; [done|by left].
    + rewrite IH. apply (f_equal (fun b : bool => if b then _ else _)).
      apply bool_decide_ext. rewrite Exists_cons. split; [auto|]. intros [?|?]; [lia|done].
Qed.

(** C30. A blocking push returns as soon as the clock has reached the
    deadline: it enters at once when there is room, and on a full queue it
    reports [DeadlineExceeded] with the queue untouched, exactly when some
    reading reaches the deadline; nothing is ever evicted. *)
Theorem push_with_deadline_returns {T} clock (x : T) deadline q :
  policy q = BlockWithDeadline ->
  (queue_len q < capacity q ->
   push_with_deadline clock x deadline q =
   Some (Ok Accepted, q ⟪ items := items q ++ [x] ⟫)) /\
  (capacity q <= queue_len q ->
   (Exists (fun now => deadline <= now) clock ->
    push_with_deadline clock x deadline q = Some (Err DeadlineExceeded, q)) /\
   (Forall (fun now => now < deadline) clock -> push_with_deadline clock x deadline q = None)).
Proof.
  intros Hp. unfold push_with_deadline. rewrite bool_decide_eq_false_2 by (rewrite Hp; auto).
  split.
  - intros Hl. destruct clock; simpl; by rewrite (proj2 (Z.ltb_lt _ _)) by done.
  - intros Hf. rewrite spin_full by done. split.
    + intros He. by rewrite bool_decide_eq_true_2.
    + intros Ha. rewrite bool_decide_eq_false_2; [done|].
      rewrite Exists_exists, Forall_forall in *. intros (now & Hin & Hle).
      specialize (Ha now Hin). lia.
Qed.

Lemma push_with_deadline_returns_witness :
  let q := mkBoundedQueue 1 BlockWithDeadline [7] 0 in
  push_with_deadline [3; 5; 9; 12] 8 9 q = Some (Err DeadlineExceeded, q).
Proof.
  apply (push_with_deadline_returns [3; 5; 9; 12] 8 9 (mkBoundedQueue 1 BlockWithDeadline [7] 0)).
  - reflexivity.
  - vm_compute. congruence.
  - do 2 right. left. lia.
Defined.

(** Draining a lane returns its content in order and leaves it empty. *)
Lemma drain_queue_all {T} fuel (q : BoundedQueue T) out :
  (length (items q) < fuel)%nat ->
  drain_queue fuel q out = (out ++ items q, q ⟪ items := [] ⟫).
Proof.
  revert q out. induction fuel as [|fuel IH]; intros q out Hf; [lia|]. simpl.
  unfold pop_front. destruct q as [c p [|y l] d]; simpl in *.
  - by rewrite app_nil_r.
  - rewrite IH by (simpl; lia). simpl. by rewrite <- app_assoc.
Qed.
