(* ===== verification/AnalyticsCore.v ===== *)
(** * Shared analytics definitions
    ([crates/analytics/src/error.rs], [config.rs], [grid.rs])

    The error type of every analytics operation, source selection, event-time
    periods, and the grid that converts model decimals into integer ticks,
    buckets and units. *)

From stdpp Require Import base tactics numbers strings option list.
From Stdlib Require Import ZArith Lia Zquot.
From S2P Require Import Prelude Collections Fixed Model.

Local Open Scope Z_scope.

(** ** Errors ([error.rs]) *)

Inductive AnalyticsError :=
  | InvalidConfig (field detail : string)
  | FixedFailure (field : string) (source : FixedError)
  | NonPositive (field : string)
  | MisalignedPrice
  | ArithmeticOverflow (operation : string)
  | LateTrade (timestamp_ns finalized_before_ns : Z)
  | MissingInstrument
  | NonTradeEvent
  | InstrumentMismatch (expected actual : Z)
  | CapacityExceeded (resource : string) (limit : Z)
  | UnsupportedSnapshotVersion (expected actual : Z)
  | SnapshotConfigMismatch
  | CorruptSnapshot (detail : string).

Definition invalid_config (field detail : string) : AnalyticsError := InvalidConfig field detail.
Definition overflow (operation : string) : AnalyticsError := ArithmeticOverflow operation.

(** [x.checked_add(y).ok_or_else(|| overflow(op))]. *)
Definition add_or (t : int_ty) (a b : Z) (op : string) : result Z AnalyticsError :=
  ok_or (checked_add t a b) (overflow op).
Definition sub_or (t : int_ty) (a b : Z) (op : string) : result Z AnalyticsError :=
  ok_or (checked_sub t a b) (overflow op).
Definition mul_or (t : int_ty) (a b : Z) (op : string) : result Z AnalyticsError :=
  ok_or (checked_mul t a b) (overflow op).

(** ** Sources ([config.rs]) *)

Definition MAX_SELECTOR_VENUES : Z := 1024.
Definition MAX_SELECTOR_SEGMENTS : Z := 16.

Inductive MarketSegment :=
  | Spot | LinearPerpetual | InversePerpetual | LinearFuture | InverseFuture
  | OptionSegment | UnknownSegment.

#[export] Instance MarketSegment_eq_dec : EqDecision MarketSegment.
Proof. solve_decision. Defined.

Definition segment_of_kind (value : InstrumentKind) : MarketSegment :=
  match value with
  | KindSpot => Spot
  | PerpetualLinear => LinearPerpetual
  | PerpetualInverse => InversePerpetual
  | FutureLinear => LinearFuture
  | FutureInverse => InverseFuture
  | KindOption => OptionSegment
  end.

(** The derived order of a field-less enum is the declaration order. *)
Definition segment_index (s : MarketSegment) : Z :=
  match s with
  | Spot => 0 | LinearPerpetual => 1 | InversePerpetual => 2 | LinearFuture => 3
  | InverseFuture => 4 | OptionSegment => 5 | UnknownSegment => 6
  end.

#[export] Instance segment_index_inj : Inj (=) (=) segment_index.
Proof. intros [] []; done. Qed.

#[export] Instance ord_MarketSegment : Ord MarketSegment := cmp_by segment_index.
#[export] Instance ord_laws_MarketSegment : OrdLaws MarketSegment := ord_laws_by segment_index.

Record FlowSource := mkFlowSource { source_venue : VenueId; source_segment : MarketSegment }.

#[export] Instance FlowSource_eq_dec : EqDecision FlowSource.
Proof. solve_decision. Defined.

Definition source_pair (s : FlowSource) : Z * MarketSegment := (source_venue s, source_segment s).

#[export] Instance source_pair_inj : Inj (=) (=) source_pair.
Proof. intros [] [] [= -> ->]. done. Qed.

#[export] Instance ord_FlowSource : Ord FlowSource := cmp_by source_pair.
#[export] Instance ord_laws_FlowSource : OrdLaws FlowSource := ord_laws_by source_pair.

Record SourceSelector := mkSourceSelector {
  venues : list VenueId;
  segments : list MarketSegment
}.

Definition selector_new (venues : list VenueId) (segments : list MarketSegment)
    : result SourceSelector AnalyticsError :=
  if MAX_SELECTOR_VENUES <? Z.of_nat (length venues) then
    Err (invalid_config "source selector venues" "must contain at most 1024 entries")
  else if MAX_SELECTOR_SEGMENTS <? Z.of_nat (length segments) then
    Err (invalid_config "source selector segments" "must contain at most 16 entries")
  else
    Ok (mkSourceSelector (dedup (sort_by cmp venues)) (dedup (sort_by cmp segments))).

Definition selector_all : SourceSelector := mkSourceSelector [] [].

Definition selector_validate (self : SourceSelector) : result unit AnalyticsError :=
  rmap (fun _ => tt) (selector_new (venues self) (segments self)).

Definition matches (self : SourceSelector) (venue : VenueId) (segment : MarketSegment) : bool :=
  (bool_decide (venues self = []) || bool_decide (venue ∈ venues self))
  && (bool_decide (segments self = []) || bool_decide (segment ∈ segments self)).

(** ** Event-time periods ([config.rs]) *)

Record TimeframeSpec := mkTimeframeSpec {
  candle_ns : Z;
  tpo_ns : Z;
  session_ns : Z;
  anchor_ns : Z;
  top_zone_window_ns : Z
}.

Definition timeframe_new (candle_ns tpo_ns session_ns anchor_ns top_zone_window_ns : Z)
    : result TimeframeSpec AnalyticsError :=
  try_fold (fun _ '(field, value) => if value <=? 0 then Err (NonPositive field) else Ok tt) tt
    [("candle_ns", candle_ns); ("tpo_ns", tpo_ns); ("session_ns", session_ns);
     ("top_zone_window_ns", top_zone_window_ns)] ?;
  if (session_ns <? candle_ns) || negb (Z.rem session_ns candle_ns =? 0) then
    Err (invalid_config "candle_ns" "must evenly divide session_ns")
  else if (session_ns <? tpo_ns) || negb (Z.rem session_ns tpo_ns =? 0) then
    Err (invalid_config "tpo_ns" "must evenly divide session_ns")
  else Ok (mkTimeframeSpec candle_ns tpo_ns session_ns anchor_ns top_zone_window_ns).

Definition timeframe_validate (self : TimeframeSpec) : result unit AnalyticsError :=
  rmap (fun _ => tt)
    (timeframe_new (candle_ns self) (tpo_ns self) (session_ns self) (anchor_ns self)
       (top_zone_window_ns self)).

Definition period_start_i128 (timestamp_ns anchor_ns duration_ns : Z) : Z :=
  (timestamp_ns - anchor_ns) / duration_ns * duration_ns + anchor_ns.

Definition period_start_saturating (timestamp_ns anchor_ns duration_ns : Z) : Z :=
  saturate I64 (period_start_i128 timestamp_ns anchor_ns duration_ns).

Definition period_start_checked (timestamp_ns anchor_ns duration_ns : Z)
    : result Z AnalyticsError :=
  ok_or (to_ty I64 (period_start_i128 timestamp_ns anchor_ns duration_ns))
    (overflow "calculating an event-time period boundary").

Definition candle_start (self : TimeframeSpec) (ts : Z) : Z :=
  period_start_saturating ts (anchor_ns self) (candle_ns self).
Definition tpo_start (self : TimeframeSpec) (ts : Z) : Z :=
  period_start_saturating ts (anchor_ns self) (tpo_ns self).
Definition session_start (self : TimeframeSpec) (ts : Z) : Z :=
  period_start_saturating ts (anchor_ns self) (session_ns self).

Definition checked_candle_start (self : TimeframeSpec) (ts : Z) : result Z AnalyticsError :=
  period_start_checked ts (anchor_ns self) (candle_ns self).
Definition checked_tpo_start (self : TimeframeSpec) (ts : Z) : result Z AnalyticsError :=
  period_start_checked ts (anchor_ns self) (tpo_ns self).
Definition checked_session_start (self : TimeframeSpec) (ts : Z) : result Z AnalyticsError :=
  period_start_checked ts (anchor_ns self) (session_ns self).

(** ** The price and quantity grid ([grid.rs])

    [PriceBucket], [PriceTick], [QuantityUnits] and [SignedQuantityUnits] are
    newtypes over [i128], used as their integer. *)

Record GridSpec := mkGridSpec {
  price_scale : Z;
  quantity_scale : Z;
  tick_size : Fixed;
  levels_per_bucket : Z
}.

Definition compare_price (left right : Price) : comparison :=
  cmp (coefficient (price0 left)) (coefficient (price0 right)).

Definition min_price (left right : Price) : Price :=
  match compare_price left right with Gt => right | _ => left end.

Definition max_price (left right : Price) : Price :=
  match compare_price left right with Lt => right | _ => left end.

Definition grid_new (price_scale quantity_scale : Z) (tick_size : Fixed) (levels_per_bucket : Z)
    : result GridSpec AnalyticsError :=
  if levels_per_bucket =? 0 then
    Err (invalid_config "levels_per_bucket" "must be greater than zero")
  else
    let? tick_size := map_err (FixedFailure "tick_size")
                        (rescale tick_size price_scale ExactOnly) in
    if coefficient tick_size <=? 0 then Err (NonPositive "tick_size")
    else
      mul_or I128 (coefficient tick_size) levels_per_bucket "calculating bucket size" ?;
      Ok (mkGridSpec price_scale quantity_scale tick_size levels_per_bucket).

Definition grid_validate (self : GridSpec) : result unit AnalyticsError :=
  rmap (fun _ => tt)
    (grid_new (price_scale self) (quantity_scale self) (tick_size self)
       (levels_per_bucket self)).

Definition bucket_size_coefficient (self : GridSpec) : result Z AnalyticsError :=
  mul_or I128 (coefficient (tick_size self)) (levels_per_bucket self) "calculating bucket size".

Definition price_tick (self : GridSpec) (price : Price) : result Z AnalyticsError :=
  let? price := map_err (FixedFailure "price") (rescale (price0 price) (price_scale self) ExactOnly) in
  if coefficient price <=? 0 then Err (NonPositive "price")
  else if negb (Z.rem (coefficient price) (coefficient (tick_size self)) =? 0) then
    Err MisalignedPrice
  else Ok (Z.quot (coefficient price) (coefficient (tick_size self))).

Definition price_bucket (self : GridSpec) (price : Price) : result Z AnalyticsError :=
  let? tick := price_tick self price in
  Ok (tick / levels_per_bucket self).

Definition price_at_tick (self : GridSpec) (tick : Z) : result Price AnalyticsError :=
  if tick <=? 0 then Err (NonPositive "price tick")
  else
    let? coefficient := mul_or I128 tick (coefficient (tick_size self)) "converting a price tick" in
    Ok (mkPrice (mkFixed coefficient (price_scale self))).

Definition price_at (self : GridSpec) (bucket : Z) : result Price AnalyticsError :=
  if bucket <=? 0 then Err (NonPositive "price bucket")
  else
    let? size := bucket_size_coefficient self in
    let? coefficient := mul_or I128 bucket size "converting a price bucket" in
    Ok (mkPrice (mkFixed coefficient (price_scale self))).

Definition non_negative_quantity_units (self : GridSpec) (quantity : Quantity)
    : result Z AnalyticsError :=
  let? quantity := map_err (FixedFailure "quantity")
                     (rescale (qty0 quantity) (quantity_scale self) ExactOnly) in
  if coefficient quantity <? 0 then Err (NonPositive "quantity")
  else Ok (coefficient quantity).

Definition quantity_units (self : GridSpec) (quantity : Quantity) : result Z AnalyticsError :=
  let? units := non_negative_quantity_units self quantity in
  if units =? 0 then Err (NonPositive "quantity") else Ok units.

Definition quantity_at (self : GridSpec) (units : Z) : result Quantity AnalyticsError :=
  if units <? 0 then Err (invalid_config "quantity units" "must not be negative")
  else Ok (mkQuantity (mkFixed units (quantity_scale self))).

Definition signed_quantity_at (self : GridSpec) (units : Z) : Fixed :=
  mkFixed units (quantity_scale self).

(** ** Checked arithmetic *)

Lemma add_or_Ok t a b op c : add_or t a b op = Ok c <-> c = a + b /\ fits t (a + b).
Proof. unfold add_or. rewrite ok_or_Ok. apply to_ty_Some. Qed.

Lemma sub_or_Ok t a b op c : sub_or t a b op = Ok c <-> c = a - b /\ fits t (a - b).
Proof. unfold sub_or. rewrite ok_or_Ok. apply to_ty_Some. Qed.

Lemma mul_or_Ok t a b op c : mul_or t a b op = Ok c <-> c = a * b /\ fits t (a * b).
Proof. unfold mul_or. rewrite ok_or_Ok. apply to_ty_Some. Qed.

Lemma add_or_fits t a b op : fits t (a + b) -> add_or t a b op = Ok (a + b).
Proof. intros. by apply add_or_Ok. Qed.

Lemma sub_or_fits t a b op : fits t (a - b) -> sub_or t a b op = Ok (a - b).
Proof. intros. by apply sub_or_Ok. Qed.

Lemma mul_or_fits t a b op : fits t (a * b) -> mul_or t a b op = Ok (a * b).
Proof. intros. by apply mul_or_Ok. Qed.

(** The analytics layer's instances of [res]. *)
Ltac ares_step :=
  match goal with
  | H : add_or _ _ _ _ = Ok _ |- _ => apply add_or_Ok in H as [? H]
  | H : sub_or _ _ _ _ = Ok _ |- _ => apply sub_or_Ok in H as [? H]
  | H : mul_or _ _ _ _ = Ok _ |- _ => apply mul_or_Ok in H as [? H]
  | _ => res_step
  end.

Ltac ares :=
  repeat (ares_step; try subst);
  repeat match goal with u : unit |- _ => destruct u end.

(** ** Source selection *)

Lemma dedup_elem {A} `{EqDecision A} (l : list A) x : x ∈ dedup l <-> x ∈ l.
Proof.
  induction l as [|y [|z l] IH]; [done|done|]. cbn [dedup].
  destruct (decide (y = z)) as [->|]; rewrite elem_of_cons, IH, !elem_of_cons; tauto.
Qed.

Lemma dedup_nil {A} `{EqDecision A} (l : list A) : dedup l = [] <-> l = [].
Proof.
  induction l as [|y [|z l] IH]; [done|done|]. cbn [dedup].
  destruct (decide (y = z)); [|done]. rewrite IH. done.
Qed.

Lemma sort_by_nil {A} (c : A -> A -> comparison) l : sort_by c l = [] <-> l = [].
Proof. rewrite <- !length_zero_iff_nil, length_sort_by. done. Qed.

(** Canonicalising a selector changes no answer: a validated selector accepts
    what the two given lists allow. *)
Lemma selector_matches vs ss sel v s :
  selector_new vs ss = Ok sel ->
  matches sel v s = true <-> (vs = [] \/ v ∈ vs) /\ (ss = [] \/ s ∈ ss).
Proof.
  unfold selector_new. destruct (_ <? _); [done|]. destruct (_ <? _); [done|].
  intros [= <-]. unfold matches. simpl.
  rewrite andb_true_iff, !orb_true_iff, !bool_decide_eq_true, !dedup_nil, !dedup_elem,
    !sort_by_nil, !elem_of_sort_by. done.
Qed.

(** ** Periods *)

Definition timeframe_ok (t : TimeframeSpec) : Prop :=
  0 < candle_ns t /\ 0 < tpo_ns t /\ 0 < session_ns t /\ 0 < top_zone_window_ns t /\
  (candle_ns t | session_ns t) /\ (tpo_ns t | session_ns t).

Lemma timeframe_new_Ok c p s a w t :
  timeframe_new c p s a w = Ok t <-> t = mkTimeframeSpec c p s a w /\ timeframe_ok t.
Proof.
  unfold timeframe_new, timeframe_ok. cbn [try_fold].
  destruct (Z.leb_spec c 0); simpl; [split; [done|intros [-> ?]; simpl in *; lia]|].
  destruct (Z.leb_spec p 0); simpl; [split; [done|intros [-> ?]; simpl in *; lia]|].
  destruct (Z.leb_spec s 0); simpl; [split; [done|intros [-> ?]; simpl in *; lia]|].
  destruct (Z.leb_spec w 0); simpl; [split; [done|intros [-> ?]; simpl in *; lia]|].
  assert (forall d, 0 < d ->
    (s <? d) || negb (Z.rem s d =? 0) = false <-> (d | s)) as Hdiv.
  { intros d Hd. rewrite orb_false_iff, Z.ltb_ge, negb_false_iff, Z.eqb_eq, Z.rem_divide by lia.
    split; [tauto|]. intros Hds. split; [by apply Z.divide_pos_le|done]. }
  destruct (_ || _) eqn:E1.
  { split; [done|]. intros (-> & ? & ? & ? & ? & H5 & ?). simpl in *.
    apply Hdiv in H5; [congruence|done]. }
  destruct ((s <? p) || _) eqn:E2.
  { split; [done|]. intros (-> & ? & ? & ? & ? & ? & H6). simpl in *.
    apply Hdiv in H6; [congruence|done]. }
  apply Hdiv in E1; [|done]. apply Hdiv in E2; [|done].
  split; [intros [= <-]; simpl; auto 10|by intros [-> _]].
Qed.

Lemma timeframe_validate_Ok t : timeframe_validate t = Ok tt <-> timeframe_ok t.
Proof.
  unfold timeframe_validate. rewrite rmap_Ok. setoid_rewrite timeframe_new_Ok. split.
  - intros (t' & [-> H] & _). exact H.
  - intros H. destruct t. eauto.
Qed.

Lemma period_start_bounds ts a d :
  0 < d -> period_start_i128 ts a d <= ts < period_start_i128 ts a d + d.
Proof.
  intros Hd. unfold period_start_i128.
  pose proof (Z.div_mod (ts - a) d ltac:(lia)). pose proof (Z.mod_pos_bound (ts - a) d Hd). nia.
Qed.

Lemma period_start_mono ts ts' a d :
  0 < d -> ts <= ts' -> period_start_i128 ts a d <= period_start_i128 ts' a d.
Proof.
  intros Hd Hle. unfold period_start_i128.
  pose proof (Z.div_le_mono (ts - a) (ts' - a) d Hd ltac:(lia)). nia.
Qed.

(** A period of a divisor lies inside the larger period. *)
Lemma period_start_nested ts a d D :
  0 < d -> 0 < D -> (d | D) ->
  period_start_i128 ts a D <= period_start_i128 ts a d /\
  period_start_i128 ts a d + d <= period_start_i128 ts a D + D /\
  (d | period_start_i128 ts a d - period_start_i128 ts a D).
Proof.
  intros Hd HD [k ->]. assert (0 < k) by nia. unfold period_start_i128. set (x := ts - a).
  replace (x / (k * d)) with (x / d / k) by (rewrite Z.div_div by lia; f_equal; lia).
  set (q := x / d). pose proof (Z.div_mod q k ltac:(lia)). pose proof (Z.mod_pos_bound q k ltac:(lia)).
  split; [nia|]. split; [nia|]. exists (q - q / k * k). lia.
Qed.

Lemma period_start_checked_Ok ts a d s :
  period_start_checked ts a d = Ok s <-> s = period_start_i128 ts a d /\ fits I64 s.
Proof.
  unfold period_start_checked. rewrite ok_or_Ok, to_ty_Some. naive_solver.
Qed.

(** With a validated timeframe, the candle and the TPO period of a
    timestamp contain it, are aligned to the start of its session and lie
    inside that session: periods never straddle a session boundary. *)
Theorem periods_nested cn tn sn an wn t ts s c p :
  timeframe_new cn tn sn an wn = Ok t ->
  checked_session_start t ts = Ok s -> checked_candle_start t ts = Ok c ->
  checked_tpo_start t ts = Ok p ->
  (s <= ts < s + sn) /\
  (s <= c <= ts /\ ts < c + cn <= s + sn /\ (cn | c - s)) /\
  (s <= p <= ts /\ ts < p + tn <= s + sn /\ (tn | p - s)).
Proof.
  intros [-> (H1 & H2 & H3 & _ & H5 & H6)]%timeframe_new_Ok. simpl in *.
  intros [-> _]%period_start_checked_Ok [-> _]%period_start_checked_Ok
    [-> _]%period_start_checked_Ok. simpl.
  pose proof (period_start_nested ts an cn sn H1 H3 H5) as (? & ? & ?).
  pose proof (period_start_nested ts an tn sn H2 H3 H6) as (? & ? & ?).
  pose proof (period_start_bounds ts an cn H1). pose proof (period_start_bounds ts an tn H2).
  pose proof (period_start_bounds ts an sn H3). repeat split; (done || lia).
Qed.

Lemma periods_nested_witness :
  (0 <= 217 < 0 + 600) /\ (0 <= 180 <= 217 /\ 217 < 180 + 60 <= 0 + 600 /\ (60 | 180 - 0)) /\
  (0 <= 200 <= 217 /\ 217 < 200 + 100 <= 0 + 600 /\ (100 | 200 - 0)).
Proof.
  apply (periods_nested 60 100 600 0 600 (mkTimeframeSpec 60 100 600 0 600) 217 0 180 200);
    reflexivity.
Defined.

(** ** The grid *)

Definition grid_ok (g : GridSpec) : Prop :=
  fits U8 (price_scale g) /\ fits U8 (quantity_scale g) /\
  scale (tick_size g) = price_scale g /\ 0 < coefficient (tick_size g) /\
  0 < levels_per_bucket g <= int_max U32 /\
  coefficient (tick_size g) * levels_per_bucket g <= int_max I128.

Lemma grid_new_Ok ps qs tick lpb g :
  fits U8 ps -> fits U8 qs -> fixed_ok tick -> fits U32 lpb ->
  grid_new ps qs tick lpb = Ok g -> grid_ok g.
Proof.
  intros Hps Hqs Htick Hl. unfold grid_new. destruct (Z.eqb_spec lpb 0); [done|].
  intros H. apply rbind_Ok in H as (tick' & Ht & H). apply map_err_Ok in Ht.
  apply rescale_exact_Ok in Ht as (Hs & _ & _); [|done|done].
  destruct (Z.leb_spec (coefficient tick') 0); [done|]. ares.
  unfold grid_ok. simpl. repeat split; (done || solve_fits).
Qed.

Lemma grid_new_id g :
  grid_ok g ->
  grid_new (price_scale g) (quantity_scale g) (tick_size g) (levels_per_bucket g) = Ok g.
Proof.
  intros (H1 & H2 & H3 & H4 & H5 & H6). unfold grid_new.
  rewrite (proj2 (Z.eqb_neq _ _)) by lia. rewrite <- H3, rescale_same. simpl.
  rewrite (proj2 (Z.leb_gt _ _)) by lia. rewrite mul_or_fits by (unfold fits; simpl in *; nia).
  simpl. rewrite H3. by destruct g.
Qed.

Lemma grid_validate_ok g : grid_ok g -> grid_validate g = Ok tt.
Proof. intros H. unfold grid_validate. by rewrite grid_new_id. Qed.

Lemma price_tick_Ok g p t :
  grid_ok g -> fixed_ok (price0 p) -> price_tick g p = Ok t ->
  0 < t /\ fits I128 (t * coefficient (tick_size g)) /\
  same_value (price0 p) (mkFixed (t * coefficient (tick_size g)) (price_scale g)).
Proof.
  intros (H1 & H2 & H3 & H4 & H5 & H6) Hp. unfold price_tick. intros H.
  apply rbind_Ok in H as (p' & Hr & H). apply map_err_Ok in Hr.
  apply rescale_exact_Ok in Hr as (Hs & Hv & Hf); [|done|done].
  destruct (Z.leb_spec (coefficient p') 0); [done|].
  destruct (Z.eqb_spec (Z.rem (coefficient p') (coefficient (tick_size g))) 0) as [Hrem|]; [|done].
  injection H as <-. pose proof (Z.quot_rem' (coefficient p') (coefficient (tick_size g))) as E.
  assert (coefficient p' ÷ coefficient (tick_size g) * coefficient (tick_size g) = coefficient p')
    as -> by lia.
  split; [nia|]. split; [done|]. destruct p'; simpl in *. by subst.
Qed.

Lemma price_at_tick_Ok g t :
  0 < t -> fits I128 (t * coefficient (tick_size g)) ->
  price_at_tick g t = Ok (mkPrice (mkFixed (t * coefficient (tick_size g)) (price_scale g))).
Proof.
  intros Ht Hf. unfold price_at_tick. rewrite (proj2 (Z.leb_gt _ _)) by done.
  by rewrite mul_or_fits.
Qed.

Lemma price_at_Ok g b :
  grid_ok g -> 0 < b -> fits I128 (b * (coefficient (tick_size g) * levels_per_bucket g)) ->
  price_at g b =
  Ok (mkPrice (mkFixed (b * (coefficient (tick_size g) * levels_per_bucket g)) (price_scale g))).
Proof.
  intros (H1 & H2 & H3 & H4 & H5 & H6) Hb Hf. unfold price_at, bucket_size_coefficient.
  rewrite (proj2 (Z.leb_gt _ _)) by done. rewrite mul_or_fits by (unfold fits; simpl in *; nia).
  simpl. by rewrite mul_or_fits.
Qed.

(** Quantising a price loses nothing and brackets it: a price the grid
    accepts is, value for value, the price of its tick; and the price of its
    bucket, when the bucket has one, is at most one bucket size below it. *)
Theorem price_grid_exact g p t :
  grid_ok g -> fixed_ok (price0 p) -> price_tick g p = Ok t ->
  exists p',
    price_at_tick g t = Ok p' /\ same_value (price0 p) (price0 p') /\
    price_bucket g p = Ok (t / levels_per_bucket g) /\
    (levels_per_bucket g <= t ->
     exists q size,
       bucket_size_coefficient g = Ok size /\
       price_at g (t / levels_per_bucket g) = Ok q /\
       coefficient (price0 q) <= coefficient (price0 p') < coefficient (price0 q) + size).
Proof.
  intros Hg Hp Ht. pose proof (price_tick_Ok g p t Hg Hp Ht) as (Hpos & Hfit & Hv).
  eexists. split; [by apply price_at_tick_Ok|]. split; [done|].
  unfold price_bucket. rewrite Ht. split; [done|]. intros Hle.
  pose proof Hg as (G1 & G2 & G3 & G4 & G5 & G6).
  set (k := coefficient (tick_size g)) in *. set (n := levels_per_bucket g) in *.
  pose proof (Z.div_mod t n ltac:(lia)). pose proof (Z.mod_pos_bound t n ltac:(lia)).
  assert (1 <= t / n) by (apply Z.div_le_lower_bound; lia).
  exists (mkPrice (mkFixed (t / n * (k * n)) (price_scale g))), (k * n).
  split; [unfold bucket_size_coefficient; fold k n; apply mul_or_fits; unfold fits; simpl in *; nia|].
  split; [apply price_at_Ok; [done|lia|]; fold k n; unfold fits in *; simpl in *; nia|].
  simpl. nia.
Qed.

Definition sample_grid : GridSpec := mkGridSpec 2 3 (mkFixed 25 2) 4.

Lemma sample_grid_ok : grid_ok sample_grid.
Proof. repeat split; simpl; lia. Qed.

Lemma price_grid_exact_witness :
  exists p', price_at_tick sample_grid 407 = Ok p' /\
  same_value (mkFixed 101750 3) (price0 p') /\
  price_bucket sample_grid (mkPrice (mkFixed 101750 3)) = Ok 101.
Proof.
  destruct (price_grid_exact sample_grid (mkPrice (mkFixed 101750 3)) 407)
    as (p' & H1 & H2 & H3 & _).
  - apply sample_grid_ok.
  - split; solve_fits.
  - reflexivity.
  - exists p'. split; [exact H1|]. split; [exact H2|exact H3].
Defined.

Lemma quantity_units_Ok g q u :
  grid_ok g -> fixed_ok (qty0 q) -> quantity_units g q = Ok u ->
  0 < u <= int_max I128 /\ same_value (qty0 q) (mkFixed u (quantity_scale g)).
Proof.
  intros (H1 & H2 & _) Hq. unfold quantity_units, non_negative_quantity_units. intros H.
  apply rbind_Ok in H as (u' & H & Hu). apply rbind_Ok in H as (q' & Hr & H).
  apply map_err_Ok in Hr. apply rescale_exact_Ok in Hr as (Hs & Hv & Hf); [|done|done].
  destruct (Z.ltb_spec (coefficient q') 0); [done|]. injection H as <-.
  destruct (Z.eqb_spec (coefficient q') 0); [done|]. injection Hu as <-.
  split; [solve_fits|]. destruct q'; simpl in *. by subst.
Qed.

Lemma quantity_at_Ok g u : 0 <= u -> quantity_at g u = Ok (mkQuantity (mkFixed u (quantity_scale g))).
Proof. intros. unfold quantity_at. by rewrite (proj2 (Z.ltb_ge _ _)). Qed.

(** The running extremes of [high] and [low]. *)
Lemma max_price_coeff p q :
  coefficient (price0 (max_price p q)) = Z.max (coefficient (price0 p)) (coefficient (price0 q)).
Proof.
  unfold max_price, compare_price, cmp, ord_Z.
  destruct (Z.compare_spec (coefficient (price0 p)) (coefficient (price0 q))); lia.
Qed.

Lemma min_price_coeff p q :
  coefficient (price0 (min_price p q)) = Z.min (coefficient (price0 p)) (coefficient (price0 q)).
Proof.
  unfold min_price, compare_price, cmp, ord_Z.
  destruct (Z.compare_spec (coefficient (price0 p)) (coefficient (price0 q))); lia.
Qed.
