(* ===== verification/CandleFlow.v ===== *)
(** * Candle flow ([crates/analytics/src/flow.rs])

    Exact per-source, per-price-bucket volume of the current candle, split by
    aggressor side, with bounded capacities.  A trade is checked before any
    field is written; a trade of a later candle finalises the current one. *)

From stdpp Require Import base tactics numbers strings option relations list sorting.
From Stdlib Require Import ZArith Lia.
From S2P Require Import Prelude Collections Fixed Model AnalyticsCore.

Local Open Scope Z_scope.

(** ** Data *)

Record FlowConfig := mkFlowConfig {
  max_sources : Z;
  max_levels_per_source : Z;
  max_trades_per_candle : Z
}.

Definition flow_config_new (max_sources max_levels_per_source max_trades_per_candle : Z)
    : result FlowConfig AnalyticsError :=
  if max_sources =? 0 then Err (invalid_config "max_sources" "must be greater than zero")
  else if max_levels_per_source =? 0 then
    Err (invalid_config "max_levels_per_source" "must be greater than zero")
  else if max_trades_per_candle =? 0 then
    Err (invalid_config "max_trades_per_candle" "must be greater than zero")
  else Ok (mkFlowConfig max_sources max_levels_per_source max_trades_per_candle).

Definition flow_config_validate (self : FlowConfig) : result unit AnalyticsError :=
  rmap (fun _ => tt)
    (flow_config_new (max_sources self) (max_levels_per_source self)
       (max_trades_per_candle self)).

Record TradeInput := mkTradeInput {
  in_instrument : InstrumentId;
  in_source : FlowSource;
  in_timestamp_ns : Z;
  in_price : Price;
  in_quantity : Quantity;
  in_aggressor : AggressorSide
}.

Definition from_envelope (envelope : EventEnvelope) (segment : MarketSegment)
    : result TradeInput AnalyticsError :=
  let? instrument := ok_or (env_instrument envelope) MissingInstrument in
  match env_payload envelope with
  | EvTrade trade =>
      Ok {| in_instrument := instrument;
            in_source := mkFlowSource (env_venue envelope) segment;
            in_timestamp_ns := default (env_receive_ts envelope) (env_exchange_ts envelope);
            in_price := trade_price trade;
            in_quantity := trade_quantity trade;
            in_aggressor := trade_aggressor trade |}
  | _ => Err NonTradeEvent
  end.

Inductive FlowState := FlowLive | FlowFinal.

Record PriceLevelFlow := mkPriceLevelFlow {
  plf_price : Price;
  plf_buy_volume : Quantity;
  plf_sell_volume : Quantity;
  plf_unknown_volume : Quantity;
  plf_total_volume : Quantity;
  plf_delta : Fixed;
  plf_trade_count : Z;
  plf_first_timestamp_ns : Z;
  plf_last_timestamp_ns : Z
}.

Record SourceCandleFlow := mkSourceCandleFlow {
  scf_source : FlowSource;
  scf_high : option Price;
  scf_low : option Price;
  scf_buy_volume : Quantity;
  scf_sell_volume : Quantity;
  scf_unknown_volume : Quantity;
  scf_total_volume : Quantity;
  scf_delta : Fixed;
  scf_trade_count : Z;
  scf_levels : list PriceLevelFlow
}.

Record CandleFlow := mkCandleFlow {
  cf_schema_version : Z;
  cf_state : FlowState;
  cf_instrument : InstrumentId;
  cf_start_ts : Z;
  cf_end_ts : Z;
  cf_high : option Price;
  cf_low : option Price;
  cf_total_volume : Quantity;
  cf_trade_count : Z;
  cf_sources : list SourceCandleFlow
}.

Record LevelAccumulator := mkLevelAccumulator {
  lvl_buy_units : Z;
  lvl_sell_units : Z;
  lvl_unknown_units : Z;
  lvl_total_units : Z;
  lvl_trade_count : Z;
  lvl_first_timestamp_ns : Z;
  lvl_last_timestamp_ns : Z
}.

#[export] Instance eta_LevelAccumulator : Eta LevelAccumulator := fun l =>
  mkLevelAccumulator (lvl_buy_units l) (lvl_sell_units l) (lvl_unknown_units l)
    (lvl_total_units l) (lvl_trade_count l) (lvl_first_timestamp_ns l) (lvl_last_timestamp_ns l).

Definition level_new (timestamp_ns : Z) : LevelAccumulator :=
  mkLevelAccumulator 0 0 0 0 0 timestamp_ns timestamp_ns.

Record SourceAccumulator := mkSourceAccumulator {
  src_high : option Price;
  src_low : option Price;
  src_buy_units : Z;
  src_sell_units : Z;
  src_unknown_units : Z;
  src_total_units : Z;
  src_trade_count : Z;
  src_levels : BTreeMap Z LevelAccumulator
}.

#[export] Instance eta_SourceAccumulator : Eta SourceAccumulator := fun s =>
  mkSourceAccumulator (src_high s) (src_low s) (src_buy_units s) (src_sell_units s)
    (src_unknown_units s) (src_total_units s) (src_trade_count s) (src_levels s).

Definition source_new : SourceAccumulator := mkSourceAccumulator None None 0 0 0 0 0 [].

Record CandleFlowBuilder := mkCandleFlowBuilder {
  instrument : InstrumentId;
  grid : GridSpec;
  time : TimeframeSpec;
  config : FlowConfig;
  candle_start : option Z;
  last_timestamp_ns : option Z;
  high : option Price;
  low : option Price;
  total_units : Z;
  trade_count : Z;
  sources : BTreeMap FlowSource SourceAccumulator
}.

#[export] Instance eta_CandleFlowBuilder : Eta CandleFlowBuilder := fun b =>
  mkCandleFlowBuilder (instrument b) (grid b) (time b) (config b) (candle_start b)
    (last_timestamp_ns b) (high b) (low b) (total_units b) (trade_count b) (sources b).

Definition SCHEMA_VERSION : Z := 1.

(** ** Operations *)

Definition builder_new (instrument : InstrumentId) (grid : GridSpec) (time : TimeframeSpec)
    (config : FlowConfig) : result CandleFlowBuilder AnalyticsError :=
  grid_validate grid ?;
  timeframe_validate time ?;
  flow_config_validate config ?;
  Ok (mkCandleFlowBuilder instrument grid time config None None None None 0 0 []).

Definition reject_late (self : CandleFlowBuilder) (timestamp_ns : Z) : result unit AnalyticsError :=
  match last_timestamp_ns self with
  | Some last => if timestamp_ns <? last then Err (LateTrade timestamp_ns last) else Ok tt
  | None => Ok tt
  end.

Definition preflight_side (buy_units sell_units unknown_units quantity : Z)
    (aggressor : AggressorSide) : result unit AnalyticsError :=
  rmap (fun _ => tt)
    match aggressor with
    | Buy => add_or I128 buy_units quantity "adding buy volume"
    | Sell => add_or I128 sell_units quantity "adding sell volume"
    | SideUnknown => add_or I128 unknown_units quantity "adding unknown volume"
    end.

(** The three counters after the call; nothing is written on failure. *)
Definition apply_side (buy_units sell_units unknown_units quantity : Z)
    (aggressor : AggressorSide) : result (Z * Z * Z) AnalyticsError :=
  match aggressor with
  | Buy =>
      let? v := add_or I128 buy_units quantity "adding buy volume" in
      Ok (v, sell_units, unknown_units)
  | Sell =>
      let? v := add_or I128 sell_units quantity "adding sell volume" in
      Ok (buy_units, v, unknown_units)
  | SideUnknown =>
      let? v := add_or I128 unknown_units quantity "adding unknown volume" in
      Ok (buy_units, sell_units, v)
  end.

Definition preflight_add (self : CandleFlowBuilder) (source : FlowSource) (bucket quantity : Z)
    (aggressor : AggressorSide) : result unit AnalyticsError :=
  if max_trades_per_candle (config self) <=? trade_count self then
    Err (CapacityExceeded "trades per candle" (max_trades_per_candle (config self)))
  else
  let source_state := BTreeMap.get (sources self) source in
  if bool_decide (source_state = None)
     && (max_sources (config self) <=? BTreeMap.len (sources self)) then
    Err (CapacityExceeded "sources per candle" (max_sources (config self)))
  else if
    match source_state with
    | Some state =>
        negb (BTreeMap.contains_key (src_levels state) bucket)
        && (max_levels_per_source (config self) <=? BTreeMap.len (src_levels state))
    | None => false
    end then
    Err (CapacityExceeded "price levels per source candle" (max_levels_per_source (config self)))
  else
    add_or U64 (trade_count self) 1 "adding candle trade count" ?;
    add_or I128 (total_units self) quantity "adding candle volume" ?;
    match source_state with
    | Some state =>
        add_or U64 (src_trade_count state) 1 "adding source trade count" ?;
        add_or I128 (src_total_units state) quantity "adding source volume" ?;
        match BTreeMap.get (src_levels state) bucket with
        | Some level =>
            add_or U64 (lvl_trade_count level) 1 "adding price-level trade count" ?;
            add_or I128 (lvl_total_units level) quantity "adding price-level volume" ?;
            preflight_side (lvl_buy_units level) (lvl_sell_units level)
              (lvl_unknown_units level) quantity aggressor
        | None => Ok tt
        end ?;
        preflight_side (src_buy_units state) (src_sell_units state) (src_unknown_units state)
          quantity aggressor
    | None => Ok tt
    end.

(** The part of [apply_add] that updates the [level] entry. *)
Definition apply_level (quantity : Z) (aggressor : AggressorSide) (timestamp_ns : Z)
    : Eff LevelAccumulator AnalyticsError unit :=
  let! level := eget in
  let! n := elift (add_or U64 (lvl_trade_count level) 1 "adding price-level trade count") in
  emod (fun level => level ⟪ lvl_trade_count := n ⟫) !;
  let! v := elift (add_or I128 (lvl_total_units level) quantity "adding price-level volume") in
  emod (fun level => level ⟪ lvl_total_units := v ⟫) !;
  let! bsu := elift (apply_side (lvl_buy_units level) (lvl_sell_units level)
                       (lvl_unknown_units level) quantity aggressor) in
  emod (fun level => level ⟪ lvl_buy_units := bsu.1.1 ⟫ ⟪ lvl_sell_units := bsu.1.2 ⟫
                           ⟪ lvl_unknown_units := bsu.2 ⟫) !;
  emod (fun level => level ⟪ lvl_last_timestamp_ns := timestamp_ns ⟫).

(** The part that updates the [source_state] entry. *)
Definition apply_source (bucket : Z) (price : Price) (quantity : Z) (aggressor : AggressorSide)
    (timestamp_ns : Z) : Eff SourceAccumulator AnalyticsError unit :=
  let! state := eget in
  let! n := elift (add_or U64 (src_trade_count state) 1 "adding source trade count") in
  emod (fun state => state ⟪ src_trade_count := n ⟫) !;
  let! v := elift (add_or I128 (src_total_units state) quantity "adding source volume") in
  emod (fun state => state ⟪ src_total_units := v ⟫) !;
  let! bsu := elift (apply_side (src_buy_units state) (src_sell_units state)
                       (src_unknown_units state) quantity aggressor) in
  emod (fun state => state ⟪ src_buy_units := bsu.1.1 ⟫ ⟪ src_sell_units := bsu.1.2 ⟫
                           ⟪ src_unknown_units := bsu.2 ⟫) !;
  emod (fun state => state ⟪ src_high := Some (from_option (fun c => max_price c price) price
                                                (src_high state)) ⟫) !;
  emod (fun state => state ⟪ src_low := Some (from_option (fun c => min_price c price) price
                                               (src_low state)) ⟫) !;
  ezoom (fun state => BTreeMap.get_or (src_levels state) bucket (level_new timestamp_ns))
    (fun level state => state ⟪ src_levels := BTreeMap.insert (src_levels state) bucket level ⟫)
    (apply_level quantity aggressor timestamp_ns).

Definition apply_add (source : FlowSource) (bucket : Z) (price : Price) (quantity : Z)
    (aggressor : AggressorSide) (timestamp_ns : Z) : Eff CandleFlowBuilder AnalyticsError unit :=
  let! self := eget in
  let! n := elift (add_or U64 (trade_count self) 1 "adding candle trade count") in
  emod (fun self => self ⟪ trade_count := n ⟫) !;
  let! v := elift (add_or I128 (total_units self) quantity "adding candle volume") in
  emod (fun self => self ⟪ total_units := v ⟫) !;
  emod (fun self => self ⟪ high := Some (from_option (fun c => max_price c price) price
                                           (high self)) ⟫) !;
  emod (fun self => self ⟪ low := Some (from_option (fun c => min_price c price) price
                                          (low self)) ⟫) !;
  ezoom (fun self => BTreeMap.get_or (sources self) source source_new)
    (fun state self => self ⟪ sources := BTreeMap.insert (sources self) source state ⟫)
    (apply_source bucket price quantity aggressor timestamp_ns).

Definition level_snapshot (self : CandleFlowBuilder) (entry : Z * LevelAccumulator)
    : result PriceLevelFlow AnalyticsError :=
  let '(bucket, level) := entry in
  let? delta := sub_or I128 (lvl_buy_units level) (lvl_sell_units level)
                  "calculating price-level delta" in
  let? price := price_at (grid self) bucket in
  let? buy := quantity_at (grid self) (lvl_buy_units level) in
  let? sell := quantity_at (grid self) (lvl_sell_units level) in
  let? unknown := quantity_at (grid self) (lvl_unknown_units level) in
  let? total := quantity_at (grid self) (lvl_total_units level) in
  Ok {| plf_price := price;
        plf_buy_volume := buy;
        plf_sell_volume := sell;
        plf_unknown_volume := unknown;
        plf_total_volume := total;
        plf_delta := signed_quantity_at (grid self) delta;
        plf_trade_count := lvl_trade_count level;
        plf_first_timestamp_ns := lvl_first_timestamp_ns level;
        plf_last_timestamp_ns := lvl_last_timestamp_ns level |}.

Definition source_snapshot (self : CandleFlowBuilder) (entry : FlowSource * SourceAccumulator)
    : result SourceCandleFlow AnalyticsError :=
  let '(source, accumulator) := entry in
  let? levels := traverse (level_snapshot self) (src_levels accumulator) in
  let? delta := sub_or I128 (src_buy_units accumulator) (src_sell_units accumulator)
                  "calculating source delta" in
  let? buy := quantity_at (grid self) (src_buy_units accumulator) in
  let? sell := quantity_at (grid self) (src_sell_units accumulator) in
  let? unknown := quantity_at (grid self) (src_unknown_units accumulator) in
  let? total := quantity_at (grid self) (src_total_units accumulator) in
  Ok {| scf_source := source;
        scf_high := src_high accumulator;
        scf_low := src_low accumulator;
        scf_buy_volume := buy;
        scf_sell_volume := sell;
        scf_unknown_volume := unknown;
        scf_total_volume := total;
        scf_delta := signed_quantity_at (grid self) delta;
        scf_trade_count := src_trade_count accumulator;
        scf_levels := levels |}.

Definition snapshot (self : CandleFlowBuilder) (state : FlowState)
    : result CandleFlow AnalyticsError :=
  let? start_ts := ok_or (candle_start self)
                     (CorruptSnapshot "cannot snapshot an inactive candle") in
  let? end_ts := add_or I64 start_ts (candle_ns (time self)) "calculating candle end" in
  let? sources := traverse (source_snapshot self) (sources self) in
  let? total := quantity_at (grid self) (total_units self) in
  Ok {| cf_schema_version := SCHEMA_VERSION;
        cf_state := state;
        cf_instrument := instrument self;
        cf_start_ts := start_ts;
        cf_end_ts := end_ts;
        cf_high := high self;
        cf_low := low self;
        cf_total_volume := total;
        cf_trade_count := trade_count self;
        cf_sources := sources |}.

Definition clear_active (self : CandleFlowBuilder) : CandleFlowBuilder :=
  self ⟪ candle_start := None ⟫ ⟪ high := None ⟫ ⟪ low := None ⟫
       ⟪ total_units := 0 ⟫ ⟪ trade_count := 0 ⟫ ⟪ sources := [] ⟫.

(** Check and add one trade to the current candle of [self]. *)
Definition ingest (trade : TradeInput) : Eff CandleFlowBuilder AnalyticsError (option CandleFlow) :=
  let! self := eget in
  if bool_decide (in_instrument trade <> instrument self) then
    ethrow (InstrumentMismatch (instrument self) (in_instrument trade))
  else
  elift (reject_late self (in_timestamp_ns trade)) !;
  let! bucket := elift (price_bucket (grid self) (in_price trade)) in
  let! tick := elift (price_tick (grid self) (in_price trade)) in
  let! price := elift (price_at_tick (grid self) tick) in
  let! quantity := elift (quantity_units (grid self) (in_quantity trade)) in
  let! target_candle := elift (checked_candle_start (time self) (in_timestamp_ns trade)) in
  let add := apply_add (in_source trade) bucket price quantity (in_aggressor trade)
               (in_timestamp_ns trade) in
  let stamp := emod (fun self => self ⟪ last_timestamp_ns := Some (in_timestamp_ns trade) ⟫) in
  match candle_start self with
  | None =>
      elift (preflight_add self (in_source trade) bucket quantity (in_aggressor trade)) !;
      emod (fun self => self ⟪ candle_start := Some target_candle ⟫) !;
      add !; stamp !; eret None
  | Some current =>
      if current <? target_candle then
        let! finalized := elift (snapshot self FlowFinal) in
        let! replacement := elift (builder_new (instrument self) (grid self) (time self)
                                     (config self)) in
        elift (preflight_add replacement (in_source trade) bucket quantity
                 (in_aggressor trade)) !;
        let replacement := replacement ⟪ candle_start := Some target_candle ⟫ in
        let '(r, replacement) := (add !; stamp) replacement in
        elift r !;
        eput replacement !;
        eret (Some finalized)
      else if target_candle <? current then
        ethrow (LateTrade (in_timestamp_ns trade) current)
      else
        elift (preflight_add self (in_source trade) bucket quantity (in_aggressor trade)) !;
        add !; stamp !; eret None
  end.

Definition advance_to (timestamp_ns : Z) : Eff CandleFlowBuilder AnalyticsError (option CandleFlow) :=
  let! self := eget in
  elift (reject_late self timestamp_ns) !;
  let stamp := emod (fun self => self ⟪ last_timestamp_ns := Some timestamp_ns ⟫) in
  match candle_start self with
  | None => stamp !; eret None
  | Some current =>
      let! target := elift (checked_candle_start (time self) timestamp_ns) in
      if current <? target then
        let! finalized := elift (snapshot self FlowFinal) in
        emod clear_active !;
        stamp !;
        eret (Some finalized)
      else stamp !; eret None
  end.

Definition live_snapshot (self : CandleFlowBuilder) : result (option CandleFlow) AnalyticsError :=
  transpose ((fun _ => snapshot self FlowLive) <$> candle_start self).

Definition finish : Eff CandleFlowBuilder AnalyticsError (option CandleFlow) :=
  let! self := eget in
  if bool_decide (candle_start self = None) then eret None
  else
    let! finalized := elift (snapshot self FlowFinal) in
    emod clear_active !;
    eret (Some finalized).

(** ** Validation of a restored builder *)

Definition validate_level (level_sum : Z) (level : LevelAccumulator) : result Z AnalyticsError :=
  if (lvl_total_units level <? 0) || (lvl_buy_units level <? 0)
     || (lvl_sell_units level <? 0) || (lvl_unknown_units level <? 0) then
    Err (CorruptSnapshot "negative price-level volume")
  else
    let? sides := ok_or (match checked_add I128 (lvl_buy_units level) (lvl_sell_units level) with
                         | Some value => checked_add I128 value (lvl_unknown_units level)
                         | None => None
                         end) (overflow "validating price-level volume") in
    if negb (sides =? lvl_total_units level) then
      Err (CorruptSnapshot "price-level total does not equal side sum")
    else add_or I128 level_sum (lvl_total_units level) "validating source volume".

Definition validate_source (sum : Z) (source : SourceAccumulator) : result Z AnalyticsError :=
  if (src_total_units source <? 0) || (src_buy_units source <? 0)
     || (src_sell_units source <? 0) || (src_unknown_units source <? 0) then
    Err (CorruptSnapshot "negative source volume")
  else
    let? level_total := try_fold validate_level 0 (BTreeMap.values (src_levels source)) in
    if negb (level_total =? src_total_units source) then
      Err (CorruptSnapshot "source total does not equal level sum")
    else add_or I128 sum (src_total_units source) "validating candle volume".

Definition validate (self : CandleFlowBuilder) : result unit AnalyticsError :=
  grid_validate (grid self) ?;
  timeframe_validate (time self) ?;
  flow_config_validate (config self) ?;
  if max_sources (config self) <? BTreeMap.len (sources self) then
    Err (CorruptSnapshot "source count exceeds configured capacity")
  else if existsb (fun source => max_levels_per_source (config self) <?
                                 BTreeMap.len (src_levels source))
            (BTreeMap.values (sources self)) then
    Err (CorruptSnapshot "source level count exceeds configured capacity")
  else if max_trades_per_candle (config self) <? trade_count self then
    Err (CorruptSnapshot "trade count exceeds configured capacity")
  else if total_units self <? 0 then Err (CorruptSnapshot "negative candle volume")
  else
    let? source_total := try_fold validate_source 0 (BTreeMap.values (sources self)) in
    if negb (source_total =? total_units self) then
      Err (CorruptSnapshot "candle total does not equal source sum")
    else if bool_decide (candle_start self = None)
            && (negb (bool_decide (sources self = [])) || negb (trade_count self =? 0)
                || negb (total_units self =? 0)) then
      Err (CorruptSnapshot "inactive candle retains flow state")
    else Ok tt.

(** [deserialize_sources]: pairs in the stored order, duplicates refused. *)
Definition deserialize_sources (pairs : list (FlowSource * SourceAccumulator))
    : option (BTreeMap FlowSource SourceAccumulator) :=
  foldl (fun acc '(source, accumulator) =>
           match acc with
           | None => None
           | Some sources =>
               if BTreeMap.contains_key sources source then None
               else Some (BTreeMap.insert sources source accumulator)
           end) (Some []) pairs.

Definition serialize_sources (sources : BTreeMap FlowSource SourceAccumulator)
    : list (FlowSource * SourceAccumulator) := sources.

(** ** The effect of an accepted trade *)

Definition on_side (side aggressor : AggressorSide) (q : Z) : Z :=
  if decide (side = aggressor) then q else 0.

Definition level_add (q : Z) (a : AggressorSide) (ts : Z) (l : LevelAccumulator)
    : LevelAccumulator :=
  mkLevelAccumulator (lvl_buy_units l + on_side Buy a q) (lvl_sell_units l + on_side Sell a q)
    (lvl_unknown_units l + on_side SideUnknown a q) (lvl_total_units l + q)
    (lvl_trade_count l + 1) (lvl_first_timestamp_ns l) ts.

Definition source_add (bucket : Z) (p : Price) (q : Z) (a : AggressorSide) (ts : Z)
    (s : SourceAccumulator) : SourceAccumulator :=
  mkSourceAccumulator
    (Some (from_option (fun c => max_price c p) p (src_high s)))
    (Some (from_option (fun c => min_price c p) p (src_low s)))
    (src_buy_units s + on_side Buy a q) (src_sell_units s + on_side Sell a q)
    (src_unknown_units s + on_side SideUnknown a q) (src_total_units s + q)
    (src_trade_count s + 1)
    (BTreeMap.insert (src_levels s) bucket
       (level_add q a ts (BTreeMap.get_or (src_levels s) bucket (level_new ts)))).

Definition builder_add (src : FlowSource) (bucket : Z) (p : Price) (q : Z) (a : AggressorSide)
    (ts : Z) (b : CandleFlowBuilder) : CandleFlowBuilder :=
  b ⟪ trade_count := trade_count b + 1 ⟫ ⟪ total_units := total_units b + q ⟫
    ⟪ high := Some (from_option (fun c => max_price c p) p (high b)) ⟫
    ⟪ low := Some (from_option (fun c => min_price c p) p (low b)) ⟫
    ⟪ sources := BTreeMap.insert (sources b) src
        (source_add bucket p q a ts (BTreeMap.get_or (sources b) src source_new)) ⟫.

Lemma apply_side_Ok b s u q a :
  preflight_side b s u q a = Ok tt ->
  apply_side b s u q a =
  Ok (b + on_side Buy a q, s + on_side Sell a q, u + on_side SideUnknown a q).
Proof.
  unfold preflight_side, apply_side. intros (v & Hv & _)%rmap_Ok.
  destruct a; rewrite Hv; apply add_or_Ok in Hv as [-> _]; simpl; by rewrite !Z.add_0_r.
Qed.

Lemma apply_level_Ok q a ts l :
  fits U64 (lvl_trade_count l + 1) -> fits I128 (lvl_total_units l + q) ->
  preflight_side (lvl_buy_units l) (lvl_sell_units l) (lvl_unknown_units l) q a = Ok tt ->
  apply_level q a ts l = (Ok tt, level_add q a ts l).
Proof.
  intros H1 H2 H3. unfold apply_level. eff_unfold.
  by rewrite !add_or_fits, (apply_side_Ok _ _ _ _ _ H3) by done.
Qed.

Lemma preflight_side_0 q a : fits I128 q -> preflight_side 0 0 0 q a = Ok tt.
Proof. intros. unfold preflight_side. by destruct a; rewrite add_or_fits. Qed.

(** What the preflight has established about the entry of one bucket. *)
Lemma apply_source_Ok bucket p q a ts s :
  fits I128 q -> fits U64 (src_trade_count s + 1) -> fits I128 (src_total_units s + q) ->
  preflight_side (src_buy_units s) (src_sell_units s) (src_unknown_units s) q a = Ok tt ->
  (forall l, BTreeMap.get (src_levels s) bucket = Some l ->
     fits U64 (lvl_trade_count l + 1) /\ fits I128 (lvl_total_units l + q) /\
     preflight_side (lvl_buy_units l) (lvl_sell_units l) (lvl_unknown_units l) q a = Ok tt) ->
  apply_source bucket p q a ts s = (Ok tt, source_add bucket p q a ts s).
Proof.
  intros Hq H1 H2 H3 Hl. unfold apply_source. eff_unfold.
  rewrite !add_or_fits, (apply_side_Ok _ _ _ _ _ H3) by done. simpl.
  unfold source_add, BTreeMap.get_or.
  destruct (BTreeMap.get (src_levels s) bucket) as [l|]; simpl.
  - destruct (Hl l eq_refl) as (L1 & L2 & L3). by rewrite apply_level_Ok.
  - rewrite apply_level_Ok; [done|solve_fits|done|by apply preflight_side_0].
Qed.

Lemma preflight_add_Ok b src bucket q a :
  preflight_add b src bucket q a = Ok tt ->
  trade_count b < max_trades_per_candle (config b) /\
  fits U64 (trade_count b + 1) /\ fits I128 (total_units b + q) /\
  match BTreeMap.get (sources b) src with
  | None => BTreeMap.len (sources b) < max_sources (config b)
  | Some s =>
      fits U64 (src_trade_count s + 1) /\ fits I128 (src_total_units s + q) /\
      preflight_side (src_buy_units s) (src_sell_units s) (src_unknown_units s) q a = Ok tt /\
      match BTreeMap.get (src_levels s) bucket with
      | None => BTreeMap.len (src_levels s) < max_levels_per_source (config b)
      | Some l =>
          fits U64 (lvl_trade_count l + 1) /\ fits I128 (lvl_total_units l + q) /\
          preflight_side (lvl_buy_units l) (lvl_sell_units l) (lvl_unknown_units l) q a = Ok tt
      end
  end.
Proof.
  unfold preflight_add. destruct (Z.leb_spec (max_trades_per_candle (config b)) (trade_count b));
    [done|].
  destruct (BTreeMap.get (sources b) src) as [s|] eqn:Es; simpl.
  - destruct (_ && _) eqn:E; [done|]. intros H'. ares. split; [done|]. split; [done|].
    split; [done|]. split; [done|]. split; [done|]. split; [done|].
    unfold BTreeMap.contains_key in E.
    destruct (BTreeMap.get (src_levels s) bucket) as [l|]; simpl in *; ares.
    + done.
    + by apply Z.leb_gt in E.
  - destruct (_ <=? BTreeMap.len _) eqn:E; [done|]. intros H'. ares.
    apply Z.leb_gt in E. done.
Qed.

(** Nothing the preflight lets through can fail later. *)
Lemma apply_add_Ok b src bucket p q a ts :
  fits I128 q -> preflight_add b src bucket q a = Ok tt ->
  apply_add src bucket p q a ts b = (Ok tt, builder_add src bucket p q a ts b).
Proof.
  intros Hq (H1 & H2 & H3 & H4)%preflight_add_Ok. unfold apply_add. eff_unfold.
  rewrite !add_or_fits by done. simpl. unfold builder_add, BTreeMap.get_or.
  destruct (BTreeMap.get (sources b) src) as [s|]; simpl.
  - destruct H4 as (S1 & S2 & S3 & S4). rewrite apply_source_Ok; try done.
    intros l Hl. by rewrite Hl in S4.
  - rewrite apply_source_Ok; [done|done|solve_fits|done|by apply preflight_side_0|done].
Qed.

(** ** The branches of [ingest] *)

(** The checks and conversions before the candle is looked at: bucket, exact
    price, units and target candle of the trade. *)
Definition decode (s : CandleFlowBuilder) (tr : TradeInput)
    : result (Z * Price * Z * Z) AnalyticsError :=
  if bool_decide (in_instrument tr <> instrument s) then
    Err (InstrumentMismatch (instrument s) (in_instrument tr))
  else
    reject_late s (in_timestamp_ns tr) ?;
    let? bucket := price_bucket (grid s) (in_price tr) in
    let? tick := price_tick (grid s) (in_price tr) in
    let? price := price_at_tick (grid s) tick in
    let? quantity := quantity_units (grid s) (in_quantity tr) in
    let? target := checked_candle_start (time s) (in_timestamp_ns tr) in
    Ok (bucket, price, quantity, target).

Definition add_trade (tr : TradeInput) (bucket : Z) (p : Price) (q c : Z) (s : CandleFlowBuilder)
    : CandleFlowBuilder :=
  (builder_add (in_source tr) bucket p q (in_aggressor tr) (in_timestamp_ns tr)
     (s ⟪ candle_start := Some c ⟫)) ⟪ last_timestamp_ns := Some (in_timestamp_ns tr) ⟫.

Definition trade_ok (tr : TradeInput) : Prop :=
  fixed_ok (price0 (in_price tr)) /\ fixed_ok (qty0 (in_quantity tr)) /\
  fits I64 (in_timestamp_ns tr).

Inductive ingest_outcome (s : CandleFlowBuilder) (tr : TradeInput)
    : result (option CandleFlow) AnalyticsError -> CandleFlowBuilder -> Prop :=
  | ingest_rejected e : ingest_outcome s tr (Err e) s
  | ingest_added b p q c :
      decode s tr = Ok (b, p, q, c) -> 0 < q <= int_max I128 ->
      candle_start s = None \/ candle_start s = Some c ->
      preflight_add s (in_source tr) b q (in_aggressor tr) = Ok tt ->
      ingest_outcome s tr (Ok None) (add_trade tr b p q c s)
  | ingest_rolled b p q c cur fin s0 :
      decode s tr = Ok (b, p, q, c) -> 0 < q <= int_max I128 ->
      candle_start s = Some cur -> cur < c -> snapshot s FlowFinal = Ok fin ->
      builder_new (instrument s) (grid s) (time s) (config s) = Ok s0 ->
      preflight_add s0 (in_source tr) b q (in_aggressor tr) = Ok tt ->
      ingest_outcome s tr (Ok (Some fin)) (add_trade tr b p q c s0).

Lemma ingest_decoded tr s :
  ingest tr s =
  match decode s tr with
  | Err e => (Err e, s)
  | Ok (bucket, price, quantity, target) =>
      let add := apply_add (in_source tr) bucket price quantity (in_aggressor tr)
                   (in_timestamp_ns tr) in
      let stamp := emod (fun s => s ⟪ last_timestamp_ns := Some (in_timestamp_ns tr) ⟫) in
      match candle_start s with
      | None =>
          (elift (preflight_add s (in_source tr) bucket quantity (in_aggressor tr)) !;
           emod (fun s => s ⟪ candle_start := Some target ⟫) !; add !; stamp !; eret None) s
      | Some current =>
          if current <? target then
            (let! finalized := elift (snapshot s FlowFinal) in
             let! s0 := elift (builder_new (instrument s) (grid s) (time s) (config s)) in
             elift (preflight_add s0 (in_source tr) bucket quantity (in_aggressor tr)) !;
             let '(r, s1) := (add !; stamp) (s0 ⟪ candle_start := Some target ⟫) in
             elift r !; eput s1 !; eret (Some finalized)) s
          else if target <? current then (Err (LateTrade (in_timestamp_ns tr) current), s)
          else
            (elift (preflight_add s (in_source tr) bucket quantity (in_aggressor tr)) !;
             add !; stamp !; eret None) s
      end
  end.
Proof.
  unfold ingest, decode. eff_unfold. case_bool_decide; [done|].
  destruct (reject_late s _); cbn [rbind]; [|done].
  destruct (price_bucket _ _); cbn [rbind]; [|done].
  destruct (price_tick _ _); cbn [rbind]; [|done].
  destruct (price_at_tick _ _); cbn [rbind]; [|done].
  destruct (quantity_units _ _); cbn [rbind]; [|done].
  destruct (checked_candle_start _ _); cbn [rbind]; [|done].
  destruct (candle_start s); [|done]. by repeat case_match.
Qed.

Lemma decode_Ok s tr b p q c :
  grid_ok (grid s) -> trade_ok tr -> decode s tr = Ok (b, p, q, c) ->
  0 < q <= int_max I128 /\ same_value (qty0 (in_quantity tr)) (mkFixed q (quantity_scale (grid s))) /\
  price_bucket (grid s) (in_price tr) = Ok b /\
  checked_candle_start (time s) (in_timestamp_ns tr) = Ok c.
Proof.
  intros Hg (Hp & Hq & Ht). unfold decode. case_bool_decide; [done|]. intros H'.
  ares.
  match goal with Hu : quantity_units _ _ = Ok _ |- _ =>
    apply quantity_units_Ok in Hu as [? ?]; [|done|done] end. done.
Qed.

Lemma ingest_cases tr s :
  grid_ok (grid s) -> trade_ok tr ->
  ingest_outcome s tr (fst (ingest tr s)) (snd (ingest tr s)).
Proof.
  intros Hg Htr. rewrite ingest_decoded.
  destruct (decode s tr) as [[[[b p] q] c]|e] eqn:Hd; [|by constructor].
  destruct (decode_Ok _ _ _ _ _ _ Hg Htr Hd) as [Hq _].
  assert (fits I128 q) as Hqf by solve_fits. eff_unfold.
  destruct (candle_start s) as [cur|] eqn:Hc.
  - destruct (Z.ltb_spec cur c).
    + destruct (snapshot s FlowFinal) as [fin|] eqn:Hf; [|by constructor].
      destruct (builder_new _ _ _ _) as [s0|] eqn:H0; [|by constructor].
      destruct (preflight_add s0 _ _ _ _) as [[]|] eqn:Hpf; [|by constructor].
      rewrite (apply_add_Ok (s0 ⟪ candle_start := Some c ⟫)) by done.
      by apply (ingest_rolled s tr b p q c cur fin s0).
    + destruct (Z.ltb_spec c cur); [by constructor|]. assert (c = cur) as -> by lia.
      destruct (preflight_add s _ _ _ _) as [[]|] eqn:Hpf; [|by constructor].
      rewrite (apply_add_Ok s) by done. simpl. rewrite Hc.
      by apply (ingest_added s tr b p q cur); auto.
  - destruct (preflight_add s _ _ _ _) as [[]|] eqn:Hpf; [|by constructor].
    rewrite (apply_add_Ok (s ⟪ candle_start := Some c ⟫)) by done.
    by apply (ingest_added s tr b p q c); auto.
Qed.

(** ** Invariant *)

Definition config_ok (c : FlowConfig) : Prop :=
  0 < max_sources c /\ 0 < max_levels_per_source c /\
  0 < max_trades_per_candle c <= int_max U64.

Definition level_inv (l : LevelAccumulator) : Prop :=
  0 <= lvl_buy_units l /\ 0 <= lvl_sell_units l /\ 0 <= lvl_unknown_units l /\
  lvl_total_units l = lvl_buy_units l + lvl_sell_units l + lvl_unknown_units l /\
  0 <= lvl_trade_count l.

(** A source is the sum of its price levels. *)
Record source_inv (c : FlowConfig) (s : SourceAccumulator) : Prop := {
  src_wf : BTreeMap.wf (src_levels s);
  src_len : BTreeMap.len (src_levels s) <= max_levels_per_source c;
  src_levels_ok : Forall (fun p => level_inv p.2) (src_levels s);
  src_total : src_total_units s = BTreeMap.sum_by lvl_total_units (src_levels s);
  src_buy : src_buy_units s = BTreeMap.sum_by lvl_buy_units (src_levels s);
  src_sell : src_sell_units s = BTreeMap.sum_by lvl_sell_units (src_levels s);
  src_unknown : src_unknown_units s = BTreeMap.sum_by lvl_unknown_units (src_levels s);
  src_count : src_trade_count s = BTreeMap.sum_by lvl_trade_count (src_levels s)
}.

(** The candle is the sum of its sources. *)
Record flow_inv (b : CandleFlowBuilder) : Prop := {
  flow_grid : grid_ok (grid b);
  flow_time : timeframe_ok (time b);
  flow_config : config_ok (config b);
  flow_wf : BTreeMap.wf (sources b);
  flow_len : BTreeMap.len (sources b) <= max_sources (config b);
  flow_sources_ok : Forall (fun p => source_inv (config b) p.2) (sources b);
  flow_total : total_units b = BTreeMap.sum_by src_total_units (sources b);
  flow_count : trade_count b = BTreeMap.sum_by src_trade_count (sources b);
  flow_total_max : total_units b <= int_max I128;
  flow_count_max : trade_count b <= max_trades_per_candle (config b);
  flow_inactive : candle_start b = None -> sources b = [];
  flow_aligned : forall c, candle_start b = Some c -> (candle_ns (time b) | c - anchor_ns (time b))
}.

Lemma on_side_sum a q : on_side Buy a q + on_side Sell a q + on_side SideUnknown a q = q.
Proof. unfold on_side. destruct a; simpl; lia. Qed.

Lemma on_side_nonneg s a q : 0 <= q -> 0 <= on_side s a q.
Proof. unfold on_side. case_decide; lia. Qed.

Lemma level_add_inv q a ts l : 0 <= q -> level_inv l -> level_inv (level_add q a ts l).
Proof.
  intros Hq (H1 & H2 & H3 & H4 & H5). pose proof (on_side_sum a q).
  pose proof (on_side_nonneg Buy a q Hq). pose proof (on_side_nonneg Sell a q Hq).
  pose proof (on_side_nonneg SideUnknown a q Hq). unfold level_inv; simpl. lia.
Qed.

Lemma source_new_inv c : config_ok c -> source_inv c source_new.
Proof.
  intros (_ & H & _). split; simpl; try done; [apply BTreeMap.wf_empty|].
  unfold BTreeMap.len. simpl. lia.
Qed.

Lemma source_add_inv c bucket p q a ts s :
  0 <= q -> source_inv c s ->
  (BTreeMap.get (src_levels s) bucket = None ->
   BTreeMap.len (src_levels s) < max_levels_per_source c) ->
  source_inv c (source_add bucket p q a ts s).
Proof.
  intros Hq [H1 H2 H3 H4 H5 H6 H7 H8] Hnew.
  split; simpl; 
    try (erewrite BTreeMap.sum_by_update; [|done|done|reflexivity]; lia).
  - by apply BTreeMap.wf_insert.
  - by apply BTreeMap.len_insert_le.
  - apply BTreeMap.Forall_insert; [done|]. apply level_add_inv; [done|].
    by apply (BTreeMap.get_or_Forall level_inv).
Qed.

Lemma sum_by_mono {K V} (f g : V -> Z) (m : list (K * V)) :
  Forall (fun p => f p.2 <= g p.2) m -> BTreeMap.sum_by f m <= BTreeMap.sum_by g m.
Proof. induction 1; simpl; lia. Qed.

Lemma source_inv_nonneg c s :
  source_inv c s ->
  0 <= src_buy_units s /\ 0 <= src_sell_units s /\ 0 <= src_unknown_units s /\
  0 <= src_total_units s /\ 0 <= src_trade_count s.
Proof.
  intros [H1 H2 H3 -> -> -> -> ->].
  repeat split; apply BTreeMap.sum_by_nonneg; eapply Forall_impl; try exact H3;
    intros [k l]; unfold level_inv; simpl; lia.
Qed.

Lemma builder_add_inv b src bucket p q a ts c :
  0 < q <= int_max I128 -> flow_inv b -> preflight_add b src bucket q a = Ok tt ->
  (candle_ns (time b) | c - anchor_ns (time b)) ->
  flow_inv (builder_add src bucket p q a ts (b ⟪ candle_start := Some c ⟫)).
Proof.
  intros Hq Hb (P1 & P2 & P3 & P4)%preflight_add_Ok Ha.
  assert (source_inv (config b) (BTreeMap.get_or (sources b) src source_new)) as Hs.
  { apply (BTreeMap.get_or_Forall (source_inv (config b))); [apply Hb|].
    apply source_new_inv, Hb. }
  destruct Hb as [B1 B2 B3 B4 B5 B6 B7 B8 B9 B10 B11 B12]. split; simpl; try done.
  - by apply BTreeMap.wf_insert.
  - apply BTreeMap.len_insert_le; [done|done|]. intros E. by rewrite E in P4.
  - apply BTreeMap.Forall_insert; [done|]. apply source_add_inv; [lia|done|].
    unfold BTreeMap.get_or. destruct (BTreeMap.get (sources b) src) as [s|]; simpl.
    + destruct P4 as (_ & _ & _ & P4). intros E. by rewrite E in P4.
    + intros _. destruct B3 as (_ & ? & _). unfold BTreeMap.len. simpl. lia.
  - erewrite BTreeMap.sum_by_update; [|done|done|reflexivity]. lia.
  - erewrite BTreeMap.sum_by_update; [|done|done|reflexivity]. lia.
  - solve_fits.
  - lia.
  - by intros ? [= <-].
Qed.

Lemma builder_new_Ok i g t c b :
  builder_new i g t c = Ok b ->
  b = mkCandleFlowBuilder i g t c None None None None 0 0 [].
Proof. unfold builder_new. intros H. by ares. Qed.

(** A builder with nothing accumulated. *)
Lemma empty_flow_inv b :
  grid_ok (grid b) -> timeframe_ok (time b) -> config_ok (config b) ->
  candle_start b = None -> sources b = [] -> total_units b = 0 -> trade_count b = 0 ->
  flow_inv b.
Proof.
  intros Hg Ht Hc En Es Eu Ec. destruct Hc as (C1 & C2 & C3).
  split; rewrite ?En, ?Es, ?Eu, ?Ec; try done; simpl; unfold BTreeMap.len; simpl; try lia.
  apply BTreeMap.wf_empty.
Qed.

Lemma decode_aligned s tr b p q c :
  decode s tr = Ok (b, p, q, c) -> (candle_ns (time s) | c - anchor_ns (time s)).
Proof.
  unfold decode. case_bool_decide; [done|]. intros H'. ares.
  match goal with Hc : checked_candle_start _ _ = Ok _ |- _ =>
    apply period_start_checked_Ok in Hc as [-> _] end.
  unfold period_start_i128. eexists. rewrite Z.add_simpl_r. reflexivity.
Qed.

Lemma ingest_inv tr s : flow_inv s -> trade_ok tr -> flow_inv (snd (ingest tr s)).
Proof.
  intros Hs Htr. destruct (ingest_cases tr s (flow_grid _ Hs) Htr)
    as [e|b p q c Hd Hq Hc Hpf|b p q c cur fin s0 Hd Hq Hc Hlt Hf H0 Hpf]; [done| |];
    pose proof (decode_aligned _ _ _ _ _ _ Hd) as Hal.
  - pose proof (builder_add_inv s (in_source tr) b p q (in_aggressor tr) (in_timestamp_ns tr) c
      Hq Hs Hpf Hal) as H. by destruct H.
  - apply builder_new_Ok in H0. assert (flow_inv s0) as H1.
    { subst s0. apply empty_flow_inv; try done; apply Hs. }
    pose proof (builder_add_inv s0 (in_source tr) b p q (in_aggressor tr) (in_timestamp_ns tr) c
      Hq H1 Hpf) as H. subst s0. by destruct (H Hal).
Qed.

Lemma clear_active_inv s : flow_inv s -> flow_inv (clear_active s).
Proof. intros Hs. apply empty_flow_inv; try done; apply Hs. Qed.

Lemma stamp_inv s ts : flow_inv s -> flow_inv (s ⟪ last_timestamp_ns := ts ⟫).
Proof. by intros []. Qed.

Lemma advance_to_inv ts s : flow_inv s -> flow_inv (snd (advance_to ts s)).
Proof.
  intros Hs. unfold advance_to. eff_unfold. destruct (reject_late s ts); [|done].
  destruct (candle_start s) as [cur|] eqn:Hc; [|by apply stamp_inv].
  destruct (checked_candle_start _ _); [|done]. destruct (cur <? a0); [|by apply stamp_inv].
  destruct (snapshot s FlowFinal); [|done]. by apply stamp_inv, clear_active_inv.
Qed.

Lemma finish_inv s : flow_inv s -> flow_inv (snd (finish s)).
Proof.
  intros Hs. unfold finish. eff_unfold. case_bool_decide; [done|].
  destruct (snapshot s FlowFinal); [by apply clear_active_inv|done].
Qed.

(** ** Histories *)

Inductive flow_op := OpIngest (tr : TradeInput) | OpAdvance (ts : Z) | OpFinish.

Definition flow_step (op : flow_op) : Eff CandleFlowBuilder AnalyticsError (option CandleFlow) :=
  match op with
  | OpIngest tr => ingest tr
  | OpAdvance ts => advance_to ts
  | OpFinish => finish
  end.

Definition flow_op_ok (op : flow_op) : Prop :=
  match op with OpIngest tr => trade_ok tr | _ => True end.

(** The caller sees every result and keeps going after a failure. *)
Fixpoint run_flow (ops : list flow_op) (s : CandleFlowBuilder)
    : list (result (option CandleFlow) AnalyticsError) * CandleFlowBuilder :=
  match ops with
  | [] => ([], s)
  | op :: ops' =>
      let '(r, s1) := flow_step op s in
      let '(rs, s2) := run_flow ops' s1 in (r :: rs, s2)
  end.

Lemma flow_step_inv op s : flow_inv s -> flow_op_ok op -> flow_inv (snd (flow_step op s)).
Proof.
  destruct op; simpl; intros; [by apply ingest_inv|by apply advance_to_inv|by apply finish_inv].
Qed.

Lemma run_flow_inv ops s :
  flow_inv s -> Forall flow_op_ok ops -> flow_inv (snd (run_flow ops s)).
Proof.
  intros Hs Hops. revert s Hs. induction Hops as [|op ops Hop _ IH]; intros s Hs; simpl; [done|].
  pose proof (flow_step_inv op s Hs Hop) as H1. destruct (flow_step op s) as [r s1]. simpl in H1.
  specialize (IH s1 H1). by destruct (run_flow ops s1).
Qed.

(** No operation is ever half done: whatever the reason a trade, an
    advance or a finish is refused for, the builder is left exactly as it
    was. *)
Theorem flow_step_atomic op s e s' :
  grid_ok (grid s) -> flow_op_ok op -> flow_step op s = (Err e, s') -> s' = s.
Proof.
  intros Hg Hop Hrun. destruct op as [tr|ts|]; simpl in *.
  - pose proof (ingest_cases tr s Hg Hop) as Ho. rewrite Hrun in Ho. simpl in Ho.
    by inversion Ho.
  - revert Hrun. unfold advance_to. eff_unfold. repeat case_match; congruence.
  - revert Hrun. unfold finish. eff_unfold. repeat case_match; congruence.
Qed.

Definition sample_time : TimeframeSpec := mkTimeframeSpec 60 100 600 0 600.
Definition sample_config : FlowConfig := mkFlowConfig 2 2 3.
Definition sample_builder : CandleFlowBuilder :=
  mkCandleFlowBuilder 7 sample_grid sample_time sample_config None None None None 0 0 [].

Definition sample_trade (ts c q : Z) (a : AggressorSide) : TradeInput :=
  mkTradeInput 7 (mkFlowSource 1 Spot) ts (mkPrice (mkFixed c 2)) (mkQuantity (mkFixed q 3)) a.

Definition sample_trades : list TradeInput :=
  [sample_trade 5 10000 250 Buy; sample_trade 9 10025 100 Sell; sample_trade 20 10100 50 Buy].

Definition sample_flow : CandleFlowBuilder :=
  snd (run_flow (OpIngest <$> sample_trades) sample_builder).

Example sample_flow_levels :
  (total_units sample_flow,
   (fun p => (p.1, lvl_buy_units p.2, lvl_sell_units p.2)) <$>
     src_levels (BTreeMap.get_or (sources sample_flow) (mkFlowSource 1 Spot) source_new))
  = (400, [(100, 250, 100); (101, 50, 0)]).
Proof. vm_compute. reflexivity. Qed.

Lemma sample_builder_inv : flow_inv sample_builder.
Proof.
  apply empty_flow_inv;
    [apply sample_grid_ok|by apply timeframe_validate_Ok|repeat split; simpl; lia|done..].
Qed.

Lemma sample_trade_ok ts c q a :
  fits I64 ts -> fits I128 c -> fits I128 q -> trade_ok (sample_trade ts c q a).
Proof. intros. repeat split; solve_fits. Qed.

Lemma flow_step_atomic_witness :
  snd (flow_step (OpIngest (sample_trade 30 10025 1 Buy)) sample_flow) = sample_flow /\
  fst (flow_step (OpIngest (sample_trade 30 10025 1 Buy)) sample_flow) =
    Err (CapacityExceeded "trades per candle" 3).
Proof.
  assert (fst (flow_step (OpIngest (sample_trade 30 10025 1 Buy)) sample_flow) =
    Err (CapacityExceeded "trades per candle" 3)) as H by (vm_compute; reflexivity).
  split; [|exact H].
  apply (flow_step_atomic (OpIngest (sample_trade 30 10025 1 Buy)) sample_flow
           (CapacityExceeded "trades per candle" 3)).
  - exact sample_grid_ok.
  - clear H. apply sample_trade_ok; solve_fits.
  - rewrite <- H. apply surjective_pairing.
Defined.

(** ** Validation *)

Lemma checked_add_fits t a b : fits t (a + b) -> checked_add t a b = Some (a + b).
Proof. apply to_ty_fits. Qed.

Lemma validate_level_Ok l acc :
  level_inv l -> 0 <= acc -> acc + lvl_total_units l <= int_max I128 ->
  validate_level acc l = Ok (acc + lvl_total_units l).
Proof.
  intros (H1 & H2 & H3 & H4 & _) Ha HM. unfold validate_level.
  rewrite !(proj2 (Z.ltb_ge _ _)) by lia. simpl orb.
  rewrite !checked_add_fits by (rewrite ?checked_add_fits; solve_fits). cbn [ok_or rbind].
  rewrite (proj2 (Z.eqb_eq _ _)) by lia. cbn [negb]. apply add_or_fits. solve_fits.
Qed.

Lemma validate_source_Ok c s acc :
  source_inv c s -> 0 <= acc -> acc + src_total_units s <= int_max I128 ->
  validate_source acc s = Ok (acc + src_total_units s).
Proof.
  intros Hs Ha HM. pose proof (source_inv_nonneg c s Hs) as (N1 & N2 & N3 & N4 & _).
  destruct Hs as [H1 H2 H3 H4 _ _ _ _]. unfold validate_source.
  rewrite !(proj2 (Z.ltb_ge _ _)) by lia. simpl orb.
  rewrite (BTreeMap.try_fold_values _ lvl_total_units _ _ (int_max I128)); [|..].
  - cbn [rbind]. rewrite <- H4, Z.add_0_l, Z.eqb_refl. cbn [negb]. apply add_or_fits. solve_fits.
  - eapply Forall_impl; [exact H3|]. intros [k l]; unfold level_inv; simpl; lia.
  - lia.
  - lia.
  - intros k l a Hin Ha' HM'. apply validate_level_Ok; [|done|done].
    rewrite Forall_forall in H3. by apply (H3 (k, l)).
Qed.

(** Every builder the program can reach passes its own integrity check:
    capacities respected, no negative volume, each level the sum of its
    sides, each source the sum of its levels, the candle the sum of its
    sources, and nothing retained while inactive. *)
Theorem flow_reachable_validates i g t c b ops :
  grid_ok g -> timeframe_ok t -> config_ok c -> builder_new i g t c = Ok b ->
  Forall flow_op_ok ops -> validate (snd (run_flow ops b)) = Ok tt.
Proof.
  intros Hg Ht Hc ->%builder_new_Ok Hops.
  pose proof (run_flow_inv ops _ (empty_flow_inv
    (mkCandleFlowBuilder i g t c None None None None 0 0 []) Hg Ht Hc eq_refl eq_refl eq_refl
    eq_refl) Hops) as Hs.
  generalize dependent (snd (run_flow ops
    (mkCandleFlowBuilder i g t c None None None None 0 0 []))). clear.
  intros s [H1 H2 H3 H4 H5 H6 H7 H8 H9 H10 H11 _]. unfold validate.
  rewrite grid_validate_ok by done. rewrite (proj2 (timeframe_validate_Ok _)) by done.
  unfold flow_config_validate, flow_config_new. destruct H3 as (C1 & C2 & C3 & C4).
  rewrite !(proj2 (Z.eqb_neq _ _)) by lia. cbn [rbind rmap].
  assert (0 <= total_units s).
  { rewrite H7. apply BTreeMap.sum_by_nonneg. eapply Forall_impl; [exact H6|].
    intros [k v] Hv. apply (source_inv_nonneg _ _ Hv). }
  rewrite (proj2 (Z.ltb_ge _ _)) by done. rewrite existsb_Forall_false.
  2:{ apply Forall_fmap. eapply Forall_impl; [exact H6|]. intros [k v] Hv. apply Z.ltb_ge, Hv. }
  rewrite !(proj2 (Z.ltb_ge _ _)) by done.
  rewrite (BTreeMap.try_fold_values _ src_total_units _ _ (int_max I128)); [|..].
  - cbn [rbind]. rewrite <- H7, Z.add_0_l, Z.eqb_refl. cbn [negb].
    case_bool_decide as Hn; [|done]. specialize (H11 Hn). rewrite H7, H8, H11. done.
  - eapply Forall_impl; [exact H6|]. intros [k v] Hv. apply (source_inv_nonneg _ _ Hv).
  - lia.
  - lia.
  - intros k v a Hin Ha HM. rewrite Forall_forall in H6.
    eapply validate_source_Ok; [apply (H6 (k, v) Hin)|done|done].
Qed.

Lemma flow_reachable_validates_witness : validate sample_flow = Ok tt.
Proof.
  apply (flow_reachable_validates 7 sample_grid sample_time sample_config sample_builder).
  - apply sample_grid_ok.
  - apply timeframe_validate_Ok. reflexivity.
  - repeat split; simpl; lia.
  - reflexivity.
  - do 3 (apply Forall_cons_2; [apply sample_trade_ok; solve_fits|]). apply Forall_nil_2.
Defined.

(** ** Volumes as sums over trades *)

(** The units recorded on one side of one bucket of one source. *)
Definition level_side (l : LevelAccumulator) (side : AggressorSide) : Z :=
  match side with
  | Buy => lvl_buy_units l
  | Sell => lvl_sell_units l
  | SideUnknown => lvl_unknown_units l
  end.

Definition recorded (s : CandleFlowBuilder) (src : FlowSource) (bucket : Z)
    (side : AggressorSide) : Z :=
  level_side (BTreeMap.get_or
    (src_levels (BTreeMap.get_or (sources s) src source_new)) bucket (level_new 0)) side.

(** The specification: the units of the trades of that source, bucket and
    side. *)
Definition units_of (g : GridSpec) (tr : TradeInput) : Z :=
  default 0 (ok (quantity_units g (in_quantity tr))).

Definition trade_at (g : GridSpec) (src : FlowSource) (bucket : Z) (side : AggressorSide)
    (tr : TradeInput) : bool :=
  bool_decide (in_source tr = src) && bool_decide (ok (price_bucket g (in_price tr)) = Some bucket)
  && bool_decide (in_aggressor tr = side).

Definition traded (g : GridSpec) (trs : list TradeInput) (src : FlowSource) (bucket : Z)
    (side : AggressorSide) : Z :=
  foldr (fun tr acc => (if trade_at g src bucket side tr then units_of g tr else 0) + acc) 0 trs.

Definition traded_total (g : GridSpec) (trs : list TradeInput) : Z :=
  foldr (fun tr acc => units_of g tr + acc) 0 trs.

(** A run of trades all accepted into the current candle. *)
Fixpoint accept_all (trs : list TradeInput) (s : CandleFlowBuilder) : option CandleFlowBuilder :=
  match trs with
  | [] => Some s
  | tr :: trs' =>
      match ingest tr s with
      | (Ok None, s') => accept_all trs' s'
      | _ => None
      end
  end.

Lemma level_side_add q a ts l side :
  level_side (level_add q a ts l) side = level_side l side + on_side side a q.
Proof. by destruct side. Qed.

(** A level that does not exist yet counts as zero whatever its timestamp. *)
Lemma get_or_level_new (m : BTreeMap Z LevelAccumulator) b ts side :
  level_side (BTreeMap.get_or m b (level_new ts)) side =
  level_side (BTreeMap.get_or m b (level_new 0)) side.
Proof. unfold BTreeMap.get_or. destruct (BTreeMap.get m b); simpl; [done|]. by destruct side. Qed.

Lemma recorded_add tr b p q c s src bucket side :
  recorded (add_trade tr b p q c s) src bucket side =
  recorded s src bucket side +
  if decide (in_source tr = src /\ b = bucket /\ side = in_aggressor tr) then q else 0.
Proof.
  unfold recorded, add_trade, builder_add. simpl. rewrite BTreeMap.get_or_insert, cmp_Eq_case.
  destruct (decide (in_source tr = src)) as [<-|Hne].
  - simpl. rewrite BTreeMap.get_or_insert, cmp_Eq_case. destruct (decide (b = bucket)) as [<-|Hne].
    + rewrite level_side_add, get_or_level_new. f_equal. unfold on_side.
      repeat case_decide; naive_solver.
    + rewrite decide_False by naive_solver. lia.
  - rewrite decide_False by naive_solver. lia.
Qed.

Lemma decode_parts s tr b p q c :
  decode s tr = Ok (b, p, q, c) ->
  price_bucket (grid s) (in_price tr) = Ok b /\ units_of (grid s) tr = q.
Proof.
  unfold decode. case_bool_decide; [done|]. intros H'. ares. unfold units_of.
  match goal with Hq : quantity_units _ _ = Ok _ |- _ => by rewrite Hq end.
Qed.

Lemma trade_at_spec g src bucket side tr b :
  price_bucket g (in_price tr) = Ok b ->
  (if trade_at g src bucket side tr then units_of g tr else 0) =
  if decide (in_source tr = src /\ b = bucket /\ side = in_aggressor tr) then units_of g tr else 0.
Proof.
  intros Hb. unfold trade_at. rewrite Hb. simpl.
  case_decide as Hd.
  - destruct Hd as (-> & -> & ->). by rewrite !bool_decide_eq_true_2.
  - repeat case_bool_decide; simpl; try done. naive_solver.
Qed.

Lemma accept_all_sums trs s s' :
  grid_ok (grid s) -> Forall trade_ok trs -> accept_all trs s = Some s' ->
  (forall src bucket side, recorded s' src bucket side =
     recorded s src bucket side + traded (grid s) trs src bucket side) /\
  total_units s' = total_units s + traded_total (grid s) trs /\
  trade_count s' = trade_count s + Z.of_nat (length trs).
Proof.
  intros Hg Htrs. revert s Hg. induction Htrs as [|tr trs Htr Htrs IH]; intros s Hg; simpl.
  - intros [= <-]. split; [intros; lia|lia].
  - pose proof (ingest_cases tr s Hg Htr) as Ho.
    destruct (ingest tr s) as [[[fin|]|e] s1]; try done. simpl in Ho.
    inversion Ho as [|b p q c Hd Hq Hc Hpf|]; subst.
    destruct (decode_parts _ _ _ _ _ _ Hd) as [Hb <-]. intros Hrun.
    apply IH in Hrun as (H1 & H2 & H3); [|done].
    change (grid (add_trade _ _ _ _ _ s)) with (grid s) in *.
    split; [|split].
    + intros. rewrite H1, recorded_add, (trade_at_spec _ _ _ _ _ b Hb). lia.
    + rewrite H2. simpl. lia.
    + rewrite H3. simpl. lia.
Qed.

(** C34. The candle is exactly the trades that went into it: after any run of
    accepted trades, the volume on each side of each price bucket of each
    source is the sum of the units of the trades of that source, bucket and
    side; the candle volume is their total, and the count their number. *)
Theorem flow_volumes_exact i g t c b trs s :
  grid_ok g -> Forall trade_ok trs ->
  builder_new i g t c = Ok b -> accept_all trs b = Some s ->
  (forall src bucket side, recorded s src bucket side = traded g trs src bucket side) /\
  total_units s = traded_total g trs /\ trade_count s = Z.of_nat (length trs).
Proof.
  intros Hg Htrs ->%builder_new_Ok Hrun.
  apply accept_all_sums in Hrun as (H1 & H2 & H3); [|done|done]. simpl in *.
  split; [|done]. intros. rewrite H1. by destruct side.
Qed.

Lemma flow_volumes_exact_witness :
  (forall src bucket side,
     recorded sample_flow src bucket side = traded sample_grid sample_trades src bucket side) /\
  total_units sample_flow = 400 /\ trade_count sample_flow = 3.
Proof.
  apply (flow_volumes_exact 7 sample_grid sample_time sample_config sample_builder
           sample_trades sample_flow).
  - apply sample_grid_ok.
  - do 3 (apply Forall_cons_2; [apply sample_trade_ok; solve_fits|]). apply Forall_nil_2.
  - reflexivity.
  - vm_compute. reflexivity.
Defined.

(** ** Rollover *)

Definition units (q : Quantity) : Z := coefficient (qty0 q).

Definition sum_over {A} (f : A -> Z) (l : list A) : Z := foldr (fun x acc => f x + acc) 0 l.

Lemma sum_over_Forall2 {A B} (f : A -> Z) (g : B -> Z) l1 l2 :
  Forall2 (fun x y => g y = f x) l1 l2 -> sum_over g l2 = sum_over f l1.
Proof. induction 1; simpl; lia. Qed.

Lemma quantity_at_units g u q : quantity_at g u = Ok q -> units q = u.
Proof. unfold quantity_at. destruct (u <? 0); [done|]. by intros [= <-]. Qed.

Lemma level_snapshot_units s e f :
  level_snapshot s e = Ok f -> units (plf_total_volume f) = lvl_total_units e.2.
Proof. destruct e as [k l]. simpl. intros H. ares. by apply (quantity_at_units (grid s)). Qed.

Lemma source_snapshot_units s e f :
  source_snapshot s e = Ok f ->
  units (scf_total_volume f) = src_total_units e.2 /\
  sum_over (fun l => units (plf_total_volume l)) (scf_levels f) =
  BTreeMap.sum_by lvl_total_units (src_levels e.2).
Proof.
  destruct e as [k acc]. simpl. intros H. ares. simpl. split; [by apply (quantity_at_units (grid s))|].
  apply (sum_over_Forall2 (fun e => lvl_total_units e.2)).
  match goal with Ht : traverse _ _ = Ok _ |- _ => apply traverse_Ok in Ht;
    eapply Forall2_impl; [exact Ht|] end.
  intros x y. apply level_snapshot_units.
Qed.

(** The same trade offered to a new builder of the same configuration. *)
Lemma ingest_fresh tr s s0 b p q c :
  decode s tr = Ok (b, p, q, c) -> 0 < q <= int_max I128 ->
  builder_new (instrument s) (grid s) (time s) (config s) = Ok s0 ->
  preflight_add s0 (in_source tr) b q (in_aggressor tr) = Ok tt ->
  ingest tr s0 = (Ok None, add_trade tr b p q c s0).
Proof.
  intros Hd Hq H0 Hpf. apply builder_new_Ok in H0. rewrite ingest_decoded.
  assert (decode s0 tr = Ok (b, p, q, c)) as ->.
  { subst s0. unfold decode in *. simpl. case_bool_decide; [done|].
    by apply rbind_Ok in Hd as ([] & _ & Hd). }
  replace (candle_start s0) with (@None Z) by (by subst). eff_unfold. rewrite Hpf.
  rewrite (apply_add_Ok (s0 ⟪ candle_start := Some c ⟫)); [done|solve_fits|done].
Qed.

(** A trade of a later candle closes the current one and opens its own:
    the returned candle is final, its window ends at or before the start of
    the new one, its volume is the sum over all the price levels it reports,
    and the builder goes on as a new builder given just that trade. *)
Theorem flow_rollover tr s fin s' :
  flow_inv s -> trade_ok tr -> ingest tr s = (Ok (Some fin), s') ->
  cf_state fin = FlowFinal /\ candle_start s = Some (cf_start_ts fin) /\
  cf_end_ts fin = cf_start_ts fin + candle_ns (time s) /\
  (exists c, candle_start s' = Some c /\ cf_end_ts fin <= c) /\
  sum_over (fun src => sum_over (fun l => units (plf_total_volume l)) (scf_levels src))
    (cf_sources fin) = units (cf_total_volume fin) /\
  units (cf_total_volume fin) = total_units s /\ cf_trade_count fin = trade_count s /\
  exists s0, builder_new (instrument s) (grid s) (time s) (config s) = Ok s0 /\
             accept_all [tr] s0 = Some s'.
Proof.
  intros Hs Htr Hrun. pose proof (ingest_cases tr s (flow_grid _ Hs) Htr) as Ho.
  rewrite Hrun in Ho. simpl in Ho.
  inversion Ho as [| |b p q c cur fin' s0 Hd Hq Hc Hlt Hf H0 Hpf]; subst.
  pose proof (decode_aligned _ _ _ _ _ _ Hd) as Hal. pose proof (flow_aligned _ Hs _ Hc) as Hal'.
  pose proof (flow_time _ Hs) as (Hpos & _).
  unfold snapshot in Hf. rewrite Hc in Hf. cbn [ok_or rbind] in Hf. ares. cbn [cf_state cf_start_ts cf_end_ts
    cf_total_volume cf_sources cf_trade_count].
  match goal with Ht : traverse _ _ = Ok _, Hu : quantity_at _ _ = Ok _ |- _ =>
    apply traverse_Ok in Ht; apply quantity_at_units in Hu; rename Ht into Hsrc; rename Hu into Htot end.
  split; [done|]. split; [done|]. split; [done|]. split.
  { exists c. split; [done|]. destruct Hal as [k1 Hk1], Hal' as [k2 Hk2].
    assert (k2 + 1 <= k1) by nia. nia. }
  split; [|split; [done|split; [done|]]].
  - rewrite Htot, (flow_total _ Hs).
    apply (sum_over_Forall2 (fun e => src_total_units e.2)).
    pose proof (flow_sources_ok _ Hs) as Hok. revert Hsrc Hok. clear.
    induction 1 as [|x y l l' Hx _ IH]; intros Hok; constructor.
    + apply source_snapshot_units in Hx as [_ ->]. apply Forall_cons in Hok as [[] _].
      simpl in *. lia.
    + apply IH. by apply Forall_cons in Hok as [_ ?].
  - exists s0. split; [done|]. cbn [accept_all].
    by rewrite (ingest_fresh tr s s0 b p q c).
Qed.


Definition next_trade : TradeInput := sample_trade 130 10025 7 Sell.

Lemma flow_rollover_witness :
  exists fin s', ingest next_trade sample_flow = (Ok (Some fin), s') /\
  cf_state fin = FlowFinal /\ candle_start sample_flow = Some (cf_start_ts fin) /\
  cf_end_ts fin = cf_start_ts fin + 60 /\
  (exists c, candle_start s' = Some c /\ cf_end_ts fin <= c) /\
  sum_over (fun src => sum_over (fun l => units (plf_total_volume l)) (scf_levels src))
    (cf_sources fin) = units (cf_total_volume fin).
Proof.
  eexists _, _. split; [vm_compute; reflexivity|].
  match goal with |- cf_state ?fin = _ /\ _ /\ _ /\ (exists c, candle_start ?s' = _ /\ _) /\ _ =>
    pose proof (flow_rollover next_trade sample_flow fin s') as H end.
  destruct H as (H1 & H2 & H3 & H4 & H5 & _).
  - apply (run_flow_inv (OpIngest <$> sample_trades) sample_builder); [apply sample_builder_inv|].
    do 3 (apply Forall_cons_2; [apply sample_trade_ok; solve_fits|]). apply Forall_nil_2.
  - apply sample_trade_ok; solve_fits.
  - vm_compute. reflexivity.
  - split; [exact H1|]. split; [exact H2|]. split; [exact H3|]. split; [exact H4|exact H5].
Defined.

(** ** Trades below one bucket *)

(** Some source holds volume in bucket zero. *)
Definition holds_bucket_zero (s : CandleFlowBuilder) : Prop :=
  exists src acc l, BTreeMap.get (sources s) src = Some acc /\
                    BTreeMap.get (src_levels acc) 0 = Some l.

Lemma traverse_elem_Err {A B E} (f : A -> result B E) l x ys :
  x ∈ l -> traverse f l = Ok ys -> exists y, f x = Ok y.
Proof.
  intros Hx H%traverse_Ok. apply list_elem_of_lookup in Hx as [i Hi].
  destruct (Forall2_lookup_l _ _ _ _ _ H Hi) as (y & _ & Hy). eauto.
Qed.

Lemma bucket_zero_no_snapshot s st f : holds_bucket_zero s -> snapshot s st <> Ok f.
Proof.
  intros (src & acc & l & Hs & Hl) Hf. unfold snapshot in Hf. ares.
  match goal with Ht : traverse _ _ = Ok _ |- _ =>
    eapply traverse_elem_Err in Ht as [y Hy]; [|by apply BTreeMap.get_Some_elem] end.
  unfold source_snapshot in Hy. apply rbind_Ok in Hy as (ys & Hys & _).
  eapply traverse_elem_Err in Hys as [z Hz]; [|by apply BTreeMap.get_Some_elem].
  unfold level_snapshot, price_at in Hz. simpl in Hz. by ares.
Qed.

Lemma add_trade_bucket_zero tr b p q c s :
  holds_bucket_zero s -> holds_bucket_zero (add_trade tr b p q c s).
Proof.
  intros (src & acc & l & Hs & Hl). unfold holds_bucket_zero, add_trade, builder_add. simpl.
  destruct (decide (src = in_source tr)) as [->|Hne].
  - eexists (in_source tr), _. rewrite BTreeMap.get_insert_eq. unfold BTreeMap.get_or.
    rewrite Hs. simpl. unfold source_add. simpl. destruct (decide (0 = b)) as [<-|Hb].
    + eexists. split; [done|]. simpl. apply BTreeMap.get_insert_eq.
    + eexists. split; [done|]. simpl. by rewrite BTreeMap.get_insert_ne.
  - exists src, acc, l. by rewrite BTreeMap.get_insert_ne.
Qed.

Lemma bucket_zero_step op s :
  grid_ok (grid s) -> flow_op_ok op -> holds_bucket_zero s ->
  (forall f, fst (flow_step op s) <> Ok (Some f)) /\
  holds_bucket_zero (snd (flow_step op s)) /\ grid (snd (flow_step op s)) = grid s.
Proof.
  intros Hg Hop Hz.
  destruct op as [tr|ts|]; simpl.
  - destruct (ingest_cases tr s Hg Hop)
      as [e|b p q c _ _ _ _|b p q c cur fin s0 _ _ _ _ Hf _ _]; [done| |].
    + split; [done|]. split; [by apply add_trade_bucket_zero|done].
    + by apply bucket_zero_no_snapshot in Hf.
  - unfold advance_to. eff_unfold. destruct (reject_late s ts); [|done].
    destruct (candle_start s); [|done]. destruct (checked_candle_start _ _); [|done].
    destruct (_ <? _); [|done]. destruct (snapshot s FlowFinal) eqn:Hf; [|done].
    by apply bucket_zero_no_snapshot in Hf.
  - unfold finish. eff_unfold. case_bool_decide; [done|].
    destruct (snapshot s FlowFinal) eqn:Hf; [|done]. by apply bucket_zero_no_snapshot in Hf.
Qed.

(** A trade cheaper than one whole bucket is accepted into bucket zero,
    whose price the grid refuses to render: from then on no operation ever
    completes a candle, the builder fails every rollover for good. *)
Theorem flow_bucket_zero_never_finalizes tr s s' ops t :
  flow_inv s -> trade_ok tr -> Forall flow_op_ok ops ->
  price_tick (grid s) (in_price tr) = Ok t -> t < levels_per_bucket (grid s) ->
  ingest tr s = (Ok None, s') ->
  Forall (fun r => forall f, r <> Ok (Some f)) (fst (run_flow ops s')).
Proof.
  intros Hs Htr Hops Ht Hlt Hrun. pose proof (flow_grid _ Hs) as Hg.
  pose proof (ingest_cases tr s Hg Htr) as Ho. rewrite Hrun in Ho. simpl in Ho.
  inversion Ho as [|b p q c Hd Hq Hc Hpf|]; subst.
  assert (b = 0) as ->.
  { destruct (decode_parts _ _ _ _ _ _ Hd) as [Hb _]. unfold price_bucket in Hb.
    rewrite Ht in Hb. injection Hb as <-.
    apply price_tick_Ok in Ht as (Hpos & _); [|done|apply Htr]. apply Z.div_small. lia. }
  assert (holds_bucket_zero (add_trade tr 0 p q c s)) as Hz.
  { eexists (in_source tr), _, _. unfold add_trade, builder_add. simpl.
    rewrite BTreeMap.get_insert_eq. split; [done|]. simpl. apply BTreeMap.get_insert_eq. }
  assert (grid_ok (grid (add_trade tr 0 p q c s))) as Hg' by done.
  revert Hz Hg'. generalize (add_trade tr 0 p q c s) as s1. clear -Hops.
  induction Hops as [|op ops Hop _ IH]; intros s1 Hz Hg; simpl; [constructor|].
  destruct (bucket_zero_step op s1 Hg Hop Hz) as (H1 & H2 & H3).
  destruct (flow_step op s1) as [r s2]. simpl in *. specialize (IH s2 H2).
  rewrite H3 in IH. specialize (IH Hg). destruct (run_flow ops s2). by constructor.
Qed.

Lemma flow_bucket_zero_never_finalizes_witness :
  let s' := snd (ingest (sample_trade 5 50 250 Buy) sample_builder) in
  Forall (fun r => forall f, r <> Ok (Some f))
    (fst (run_flow [OpIngest (sample_trade 130 10000 250 Buy); OpAdvance 500; OpFinish] s')).
Proof.
  intros s'.
  apply (flow_bucket_zero_never_finalizes (sample_trade 5 50 250 Buy) sample_builder s' _ 2).
  - apply sample_builder_inv.
  - clear s'. apply sample_trade_ok; solve_fits.
  - clear s'. apply Forall_cons_2; [apply sample_trade_ok; solve_fits|].
    repeat constructor.
  - vm_compute. reflexivity.
  - vm_compute. reflexivity.
  - vm_compute. reflexivity.
Defined.
