(* ===== verification/Profile.v ===== *)
(** * Session profile ([crates/analytics/src/profile.rs])

    Volume and time-price-opportunity (TPO) activity of one session per price
    bucket, the point of control and the value area around it, and the
    rotation factor of successive TPO periods. *)

From stdpp Require Import base tactics numbers strings option relations list sorting.
From Stdlib Require Import ZArith Lia.
From S2P Require Import Prelude Collections Fixed Model AnalyticsCore.

Local Open Scope Z_scope.

(** ** Data *)

Inductive ValueAreaBasis := Volume | Tpo.

Record ProfileConfig := mkProfileConfig {
  basis : ValueAreaBasis;
  value_area_bps : Z;
  max_levels : Z;
  max_tpo_levels_per_period : Z
}.

Definition profile_config_new (basis : ValueAreaBasis)
    (value_area_bps max_levels max_tpo_levels_per_period : Z)
    : result ProfileConfig AnalyticsError :=
  if negb ((1 <=? value_area_bps) && (value_area_bps <=? 10000)) then
    Err (invalid_config "value_area_bps" "must be between 1 and 10000")
  else if max_levels =? 0 then
    Err (invalid_config "max_levels" "must be greater than zero")
  else if max_tpo_levels_per_period =? 0 then
    Err (invalid_config "max_tpo_levels_per_period" "must be greater than zero")
  else if max_levels <? max_tpo_levels_per_period then
    Err (invalid_config "max_tpo_levels_per_period" "must not exceed max_levels")
  else Ok (mkProfileConfig basis value_area_bps max_levels max_tpo_levels_per_period).

Definition profile_config_validate (self : ProfileConfig) : result unit AnalyticsError :=
  rmap (fun _ => tt)
    (profile_config_new (basis self) (value_area_bps self) (max_levels self)
       (max_tpo_levels_per_period self)).

Inductive ProfileState := ProfileLive | ProfileFinal.

Record ProfileLevel := mkProfileLevel {
  pl_price : Price;
  pl_volume : Quantity;
  pl_tpo_count : Z
}.

Record SessionProfile := mkSessionProfile {
  sp_schema_version : Z;
  sp_state : ProfileState;
  sp_basis : ValueAreaBasis;
  sp_value_area_bps : Z;
  sp_start_ts : Z;
  sp_end_ts : Z;
  sp_high : option Price;
  sp_low : option Price;
  sp_range : option Fixed;
  sp_total_volume : Quantity;
  sp_poc : option Price;
  sp_vah : option Price;
  sp_val : option Price;
  sp_tpo_count : Z;
  sp_rotation_factor : Z;
  sp_levels : list ProfileLevel
}.

Record SessionProfileBuilder := mkSessionProfileBuilder {
  grid : GridSpec;
  time : TimeframeSpec;
  config : ProfileConfig;
  session_start : option Z;
  current_tpo_start : option Z;
  last_timestamp_ns : option Z;
  session_high : option Price;
  session_low : option Price;
  volume_by_level : BTreeMap Z Z;
  tpo_by_level : BTreeMap Z Z;
  total_volume_units : Z;
  current_tpo_levels : BTreeSet Z;
  current_tpo_high : option Z;
  current_tpo_low : option Z;
  previous_tpo_high : option Z;
  previous_tpo_low : option Z;
  rotation_factor : Z
}.

#[export] Instance eta_SessionProfileBuilder : Eta SessionProfileBuilder := fun b =>
  mkSessionProfileBuilder (grid b) (time b) (config b) (session_start b) (current_tpo_start b)
    (last_timestamp_ns b) (session_high b) (session_low b) (volume_by_level b) (tpo_by_level b)
    (total_volume_units b) (current_tpo_levels b) (current_tpo_high b) (current_tpo_low b)
    (previous_tpo_high b) (previous_tpo_low b) (rotation_factor b).

Definition PROFILE_SCHEMA_VERSION : Z := 1.

Definition profile_new (grid : GridSpec) (time : TimeframeSpec) (config : ProfileConfig)
    : result SessionProfileBuilder AnalyticsError :=
  grid_validate grid ?;
  timeframe_validate time ?;
  profile_config_validate config ?;
  Ok (mkSessionProfileBuilder grid time config None None None None None [] [] 0 [] None None
        None None 0).

(** ** Accumulation *)

Definition profile_reject_late (self : SessionProfileBuilder) (timestamp_ns : Z)
    : result unit AnalyticsError :=
  match last_timestamp_ns self with
  | Some last => if timestamp_ns <? last then Err (LateTrade timestamp_ns last) else Ok tt
  | None => Ok tt
  end.

Definition start_session (session tpo : Z) (self : SessionProfileBuilder)
    : SessionProfileBuilder :=
  self ⟪ session_start := Some session ⟫ ⟪ current_tpo_start := Some tpo ⟫.

Definition profile_preflight_add (self : SessionProfileBuilder) (bucket quantity : Z)
    (starts_new_tpo : bool) : result unit AnalyticsError :=
  if negb (BTreeMap.contains_key (volume_by_level self) bucket)
     && (max_levels (config self) <=? BTreeMap.len (volume_by_level self)) then
    Err (CapacityExceeded "session profile levels" (max_levels (config self)))
  else
    let tpo_len := if starts_new_tpo then 0 else BTreeMap.len (current_tpo_levels self) in
    let already_in_tpo :=
      negb starts_new_tpo && BTreeSet.contains (current_tpo_levels self) bucket in
    if negb already_in_tpo && (max_tpo_levels_per_period (config self) <=? tpo_len) then
      Err (CapacityExceeded "TPO levels per period" (max_tpo_levels_per_period (config self)))
    else
      add_or I128 (total_volume_units self) quantity "adding total profile volume" ?;
      add_or I128 (BTreeMap.get_or (volume_by_level self) bucket 0) quantity
        "adding profile level volume" ?;
      Ok tt.

Definition profile_apply_add (bucket : Z) (price : Price) (quantity : Z)
    : Eff SessionProfileBuilder AnalyticsError unit :=
  let! self := eget in
  let! v := elift (add_or I128 (total_volume_units self) quantity "adding total profile volume") in
  emod (fun self => self ⟪ total_volume_units := v ⟫) !;
  let level := BTreeMap.get_or (volume_by_level self) bucket 0 in
  emod (fun self =>
    self ⟪ volume_by_level := BTreeMap.insert (volume_by_level self) bucket level ⟫) !;
  let! level := elift (add_or I128 level quantity "adding profile level volume") in
  emod (fun self =>
    self ⟪ volume_by_level := BTreeMap.insert (volume_by_level self) bucket level ⟫) !;
  emod (fun self => self ⟪ session_high :=
    Some (from_option (fun c => max_price c price) price (session_high self)) ⟫) !;
  emod (fun self => self ⟪ session_low :=
    Some (from_option (fun c => min_price c price) price (session_low self)) ⟫) !;
  emod (fun self => self ⟪ current_tpo_levels :=
    BTreeSet.insert (current_tpo_levels self) bucket ⟫) !;
  emod (fun self => self ⟪ current_tpo_high :=
    Some (from_option (fun c => Z.max c bucket) bucket (current_tpo_high self)) ⟫) !;
  emod (fun self => self ⟪ current_tpo_low :=
    Some (from_option (fun c => Z.min c bucket) bucket (current_tpo_low self)) ⟫).

Definition ordering_score (current previous : Z) : Z :=
  match cmp current previous with Lt => -1 | Eq => 0 | Gt => 1 end.

Definition rotation_delta (self : SessionProfileBuilder) : Z :=
  match previous_tpo_high self, previous_tpo_low self,
        current_tpo_high self, current_tpo_low self with
  | Some previous_high, Some previous_low, Some high, Some low =>
      ordering_score high previous_high + ordering_score low previous_low
  | _, _, _, _ => 0
  end.

Definition preflight_close_current_tpo (self : SessionProfileBuilder)
    : result unit AnalyticsError :=
  try_fold (fun _ bucket =>
      add_or U64 (BTreeMap.get_or (tpo_by_level self) bucket 0) 1 "adding a TPO count" ?; Ok tt)
    tt (BTreeSet.elements (current_tpo_levels self)) ?;
  add_or I32 (rotation_factor self) (rotation_delta self) "adding rotation factor" ?;
  Ok tt.

(** One pass of the counting loop of [apply_close_current_tpo]. *)
Definition count_tpo (bucket : Z) : Eff SessionProfileBuilder AnalyticsError unit :=
  let! self := eget in
  let count := BTreeMap.get_or (tpo_by_level self) bucket 0 in
  emod (fun self =>
    self ⟪ tpo_by_level := BTreeMap.insert (tpo_by_level self) bucket count ⟫) !;
  let! count := elift (add_or U64 count 1 "adding a TPO count") in
  emod (fun self =>
    self ⟪ tpo_by_level := BTreeMap.insert (tpo_by_level self) bucket count ⟫).

Definition apply_close_current_tpo : Eff SessionProfileBuilder AnalyticsError unit :=
  let! self := eget in
  if bool_decide (current_tpo_levels self = []) then
    emod (fun self => self ⟪ current_tpo_high := None ⟫ ⟪ current_tpo_low := None ⟫)
  else
    efor (BTreeSet.elements (current_tpo_levels self)) count_tpo !;
    let! self := eget in
    let! r := elift (add_or I32 (rotation_factor self) (rotation_delta self)
                       "adding rotation factor") in
    emod (fun self =>
      self ⟪ rotation_factor := r ⟫
           ⟪ previous_tpo_high := current_tpo_high self ⟫
           ⟪ previous_tpo_low := current_tpo_low self ⟫
           ⟪ current_tpo_levels := [] ⟫
           ⟪ current_tpo_high := None ⟫ ⟪ current_tpo_low := None ⟫).

Definition profile_clear_active (self : SessionProfileBuilder) : SessionProfileBuilder :=
  self ⟪ session_start := None ⟫ ⟪ current_tpo_start := None ⟫
       ⟪ session_high := None ⟫ ⟪ session_low := None ⟫
       ⟪ volume_by_level := [] ⟫ ⟪ tpo_by_level := [] ⟫ ⟪ total_volume_units := 0 ⟫
       ⟪ current_tpo_levels := [] ⟫ ⟪ current_tpo_high := None ⟫ ⟪ current_tpo_low := None ⟫
       ⟪ previous_tpo_high := None ⟫ ⟪ previous_tpo_low := None ⟫ ⟪ rotation_factor := 0 ⟫.

(** ** The value area *)

Definition activity (self : SessionProfileBuilder) (bucket : Z) (basis : ValueAreaBasis)
    : result Z AnalyticsError :=
  match basis with
  | Volume => Ok (BTreeMap.get_or (volume_by_level self) bucket 0)
  | Tpo => Ok (BTreeMap.get_or (tpo_by_level self) bucket 0)
  end.

(** The loop over [buckets.iter().enumerate()] that selects the point of
    control; its state is the index, activity and tie distance so far. *)
Record PocState := mkPocState { poc_index : nat; poc_activity : Z; poc_distance : Z }.

Definition poc_step (self : SessionProfileBuilder) (basis : ValueAreaBasis)
    (buckets : list Z) (midpoint_twice : Z) (st : PocState) (entry : nat * Z)
    : result PocState AnalyticsError :=
  let '(index, bucket) := entry in
  let? act := activity self bucket basis in
  let? d := ok_or (checked_mul I128 bucket 2 ≫= fun twice => checked_sub I128 twice midpoint_twice)
              (overflow "calculating POC tie distance") in
  let distance := Z.abs d in
  if (poc_activity st <? act)
     || ((act =? poc_activity st) && (distance <? poc_distance st))
     || ((act =? poc_activity st) && (distance =? poc_distance st)
         && (bucket <? buckets !!! poc_index st))
  then Ok (mkPocState index act distance)
  else Ok st.

Definition enumerate {A} (l : list A) : list (nat * A) := imap (fun i x => (i, x)) l.

(** The [while selected < target] loop. Every pass takes in at least one more
    bucket, so the number of buckets is enough fuel. *)
Fixpoint expand (self : SessionProfileBuilder) (basis : ValueAreaBasis) (buckets : list Z)
    (target : Z) (fuel : nat) (selected : Z) (lower upper : nat)
    : result (nat * nat) AnalyticsError :=
  match fuel with
  | O => Ok (lower, upper)
  | S fuel' =>
      if negb (selected <? target) then Ok (lower, upper) else
      let? lower_activity :=
        (if (0 <? lower)%nat then rmap Some (activity self (buckets !!! (lower - 1)%nat) basis)
         else Ok None) in
      let? upper_activity :=
        (if (upper + 1 <? length buckets)%nat
         then rmap Some (activity self (buckets !!! (upper + 1)%nat) basis)
         else Ok None) in
      let add v := add_or I128 selected v "expanding value area" in
      match lower_activity, upper_activity with
      | Some lower_value, Some upper_value =>
          if lower_value =? upper_value then
            let? selected := add lower_value in
            if selected <? target then
              let? selected := add_or I128 selected upper_value "expanding value area" in
              expand self basis buckets target fuel' selected (lower - 1) (upper + 1)
            else expand self basis buckets target fuel' selected (lower - 1) upper
          else if upper_value <? lower_value then
            let? selected := add lower_value in
            expand self basis buckets target fuel' selected (lower - 1) upper
          else
            let? selected := add upper_value in
            expand self basis buckets target fuel' selected lower (upper + 1)
      | Some lower_value, None =>
          let? selected := add lower_value in
          expand self basis buckets target fuel' selected (lower - 1) upper
      | None, Some upper_value =>
          let? selected := add upper_value in
          expand self basis buckets target fuel' selected lower (upper + 1)
      | None, None => Ok (lower, upper)
      end
  end.

Definition value_area (self : SessionProfileBuilder) (basis : ValueAreaBasis)
    : result (option Z * option Z * option Z) AnalyticsError :=
  if bool_decide (volume_by_level self = []) then Ok (None, None, None) else
  let buckets := BTreeMap.keys (volume_by_level self) in
  let low := buckets !!! 0%nat in
  let? high := ok_or (last buckets) (CorruptSnapshot "non-empty profile has no high bucket") in
  let? midpoint_twice := add_or I128 low high "calculating POC midpoint" in
  let? poc := try_fold (poc_step self basis buckets midpoint_twice)
                (mkPocState 0 (-1) (int_max U128)) (enumerate buckets) in
  let? total_activity :=
    try_fold (fun total bucket =>
        let? a := activity self bucket basis in
        add_or I128 total a "summing value-area activity") 0 buckets in
  let? scaled_target := mul_or I128 total_activity (value_area_bps (config self))
                          "calculating value-area target" in
  let? rounded := add_or I128 scaled_target 9999 "rounding value-area target" in
  let target := Z.quot rounded 10000 in
  let? (lower, upper) := expand self basis buckets target (length buckets)
                           (poc_activity poc) (poc_index poc) (poc_index poc) in
  Ok (Some (buckets !!! poc_index poc), Some (buckets !!! lower), Some (buckets !!! upper)).

(** ** Snapshots *)

Definition profile_level (self : SessionProfileBuilder) (entry : Z * Z)
    : result ProfileLevel AnalyticsError :=
  let '(bucket, units) := entry in
  let? price := price_at (grid self) bucket in
  let? volume := quantity_at (grid self) units in
  Ok (mkProfileLevel price volume (BTreeMap.get_or (tpo_by_level self) bucket 0)).

Definition profile_snapshot (self : SessionProfileBuilder) (state : ProfileState)
    (basis : ValueAreaBasis) : result SessionProfile AnalyticsError :=
  let? start_ts := ok_or (session_start self)
                     (CorruptSnapshot "cannot snapshot an inactive profile") in
  let? end_ts := add_or I64 start_ts (session_ns (time self)) "calculating session end" in
  let low := session_low self in
  let high := session_high self in
  let? range :=
    match low, high with
    | Some low, Some high =>
        let? coefficient := sub_or I128 (coefficient (price0 high)) (coefficient (price0 low))
                              "calculating session range" in
        Ok (Some (mkFixed coefficient (price_scale (grid self))))
    | _, _ => Ok None
    end in
  let? (poc_bucket, val_bucket, vah_bucket) := value_area self basis in
  let? levels := traverse (profile_level self) (volume_by_level self) in
  let? tpo_count := try_fold (fun sum count => add_or U64 sum count "summing session TPO count")
                      0 (BTreeMap.values (tpo_by_level self)) in
  let? total_volume := quantity_at (grid self) (total_volume_units self) in
  let? poc := transpose (price_at (grid self) <$> poc_bucket) in
  let? vah := transpose (price_at (grid self) <$> vah_bucket) in
  let? val := transpose (price_at (grid self) <$> val_bucket) in
  Ok {| sp_schema_version := PROFILE_SCHEMA_VERSION;
        sp_state := state;
        sp_basis := basis;
        sp_value_area_bps := value_area_bps (config self);
        sp_start_ts := start_ts;
        sp_end_ts := end_ts;
        sp_high := high;
        sp_low := low;
        sp_range := range;
        sp_total_volume := total_volume;
        sp_poc := poc;
        sp_vah := vah;
        sp_val := val;
        sp_tpo_count := tpo_count;
        sp_rotation_factor := rotation_factor self;
        sp_levels := levels |}.

(** [preflight_close_current_tpo()?; apply_close_current_tpo()?]. *)
Definition close_current_tpo : Eff SessionProfileBuilder AnalyticsError unit :=
  let! self := eget in
  elift (preflight_close_current_tpo self) !;
  apply_close_current_tpo.

(** The snapshot of a clone whose open TPO has been closed. *)
Definition closed_snapshot (self : SessionProfileBuilder) (state : ProfileState)
    (basis : ValueAreaBasis) : result SessionProfile AnalyticsError :=
  let '(r, old) := close_current_tpo self in
  r ?; profile_snapshot old state basis.

Definition finalized_clone (self : SessionProfileBuilder) : result SessionProfile AnalyticsError :=
  closed_snapshot self ProfileFinal (basis (config self)).

Definition live_snapshot_with_basis (self : SessionProfileBuilder) (basis : ValueAreaBasis)
    : result (option SessionProfile) AnalyticsError :=
  if bool_decide (session_start self = None) then Ok None
  else rmap Some (closed_snapshot self ProfileLive basis).

Definition profile_live_snapshot (self : SessionProfileBuilder)
    : result (option SessionProfile) AnalyticsError :=
  live_snapshot_with_basis self (basis (config self)).

(** ** Operations *)

Definition missing_tpo : AnalyticsError := CorruptSnapshot "active session is missing current TPO".

Definition profile_ingest (timestamp_ns : Z) (price : Price) (quantity : Quantity)
    : Eff SessionProfileBuilder AnalyticsError (option SessionProfile) :=
  let! self := eget in
  elift (profile_reject_late self timestamp_ns) !;
  let! bucket := elift (price_bucket (grid self) price) in
  let! tick := elift (price_tick (grid self) price) in
  let! price := elift (price_at_tick (grid self) tick) in
  let! quantity := elift (quantity_units (grid self) quantity) in
  let! target_session := elift (checked_session_start (time self) timestamp_ns) in
  let! target_tpo := elift (checked_tpo_start (time self) timestamp_ns) in
  let add := profile_apply_add bucket price quantity in
  let stamp := emod (fun self => self ⟪ last_timestamp_ns := Some timestamp_ns ⟫) in
  match session_start self with
  | None =>
      elift (profile_preflight_add self bucket quantity true) !;
      emod (start_session target_session target_tpo) !;
      add !; stamp !; eret None
  | Some current_session =>
      if current_session <? target_session then
        let! finalized := elift (finalized_clone self) in
        let! replacement := elift (profile_new (grid self) (time self) (config self)) in
        elift (profile_preflight_add replacement bucket quantity true) !;
        let replacement := start_session target_session target_tpo replacement in
        let '(r, replacement) := (add !; stamp) replacement in
        elift r !;
        eput replacement !;
        eret (Some finalized)
      else if target_session <? current_session then
        ethrow (LateTrade timestamp_ns current_session)
      else
        let! current_tpo := elift (ok_or (current_tpo_start self) missing_tpo) in
        if target_tpo <? current_tpo then ethrow (LateTrade timestamp_ns current_tpo) else
        elift (profile_preflight_add self bucket quantity (negb (target_tpo =? current_tpo))) !;
        (if current_tpo <? target_tpo then
           close_current_tpo !;
           emod (fun self => self ⟪ current_tpo_start := Some target_tpo ⟫)
         else eret tt) !;
        add !; stamp !; eret None
  end.

Definition profile_advance_to (timestamp_ns : Z)
    : Eff SessionProfileBuilder AnalyticsError (option SessionProfile) :=
  let! self := eget in
  elift (profile_reject_late self timestamp_ns) !;
  let stamp := emod (fun self => self ⟪ last_timestamp_ns := Some timestamp_ns ⟫) in
  match session_start self with
  | None => stamp !; eret None
  | Some session_start =>
      let! session_end := elift (add_or I64 session_start (session_ns (time self))
                                   "calculating session end") in
      if session_end <=? timestamp_ns then
        close_current_tpo !;
        let! self := eget in
        let! finalized := elift (profile_snapshot self ProfileFinal (basis (config self))) in
        emod profile_clear_active !;
        stamp !;
        eret (Some finalized)
      else
        let! target_tpo := elift (checked_tpo_start (time self) timestamp_ns) in
        let! current_tpo := elift (ok_or (current_tpo_start self) missing_tpo) in
        (if current_tpo <? target_tpo then
           close_current_tpo !;
           emod (fun self => self ⟪ current_tpo_start := Some target_tpo ⟫)
         else eret tt) !;
        stamp !;
        eret None
  end.

Definition profile_finish : Eff SessionProfileBuilder AnalyticsError (option SessionProfile) :=
  let! self := eget in
  if bool_decide (session_start self = None) then eret None
  else
    close_current_tpo !;
    let! self := eget in
    let! finalized := elift (profile_snapshot self ProfileFinal (basis (config self))) in
    emod profile_clear_active !;
    eret (Some finalized).

(** ** Validation of a restored builder *)

Definition lifecycle_error : AnalyticsError :=
  CorruptSnapshot "session and TPO lifecycle state is inconsistent".

Definition profile_validate (self : SessionProfileBuilder) : result unit AnalyticsError :=
  grid_validate (grid self) ?;
  timeframe_validate (time self) ?;
  profile_config_validate (config self) ?;
  if (max_levels (config self) <? BTreeMap.len (volume_by_level self))
     || (max_levels (config self) <? BTreeMap.len (tpo_by_level self)) then
    Err (CorruptSnapshot "profile level count exceeds configured capacity")
  else if max_tpo_levels_per_period (config self) <? BTreeMap.len (current_tpo_levels self) then
    Err (CorruptSnapshot "current TPO level count exceeds configured capacity")
  else if (total_volume_units self <? 0)
          || existsb (fun value => value <? 0) (BTreeMap.values (volume_by_level self)) then
    Err (CorruptSnapshot "negative profile volume")
  else
    let? summed := try_fold (fun sum value => add_or I128 sum value "validating total profile volume")
                     0 (BTreeMap.values (volume_by_level self)) in
    if negb (summed =? total_volume_units self) then
      Err (CorruptSnapshot "profile total volume does not equal level sum")
    else
      match session_start self, current_tpo_start self with
      | Some session, Some tpo =>
          if session <=? tpo then
            let? session_end := add_or I64 session (session_ns (time self))
                                  "validating session end" in
            if tpo <? session_end then Ok tt else Err lifecycle_error
          else Err lifecycle_error
      | None, None => Ok tt
      | _, _ => Err lifecycle_error
      end.

(** ** The effect of adding a trade and of closing a period *)

Definition profile_add (bucket : Z) (p : Price) (q : Z) (s : SessionProfileBuilder)
    : SessionProfileBuilder :=
  s ⟪ total_volume_units := total_volume_units s + q ⟫
    ⟪ volume_by_level := BTreeMap.insert (volume_by_level s) bucket
        (BTreeMap.get_or (volume_by_level s) bucket 0 + q) ⟫
    ⟪ session_high := Some (from_option (fun c => max_price c p) p (session_high s)) ⟫
    ⟪ session_low := Some (from_option (fun c => min_price c p) p (session_low s)) ⟫
    ⟪ current_tpo_levels := BTreeSet.insert (current_tpo_levels s) bucket ⟫
    ⟪ current_tpo_high := Some (from_option (fun c => Z.max c bucket) bucket
                                  (current_tpo_high s)) ⟫
    ⟪ current_tpo_low := Some (from_option (fun c => Z.min c bucket) bucket
                                 (current_tpo_low s)) ⟫.

Definition bump (m : BTreeMap Z Z) (bs : list Z) : BTreeMap Z Z :=
  foldl (fun m b => BTreeMap.insert m b (BTreeMap.get_or m b 0 + 1)) m bs.

Definition closed (s : SessionProfileBuilder) : SessionProfileBuilder :=
  if bool_decide (current_tpo_levels s = []) then
    s ⟪ current_tpo_high := None ⟫ ⟪ current_tpo_low := None ⟫
  else
    s ⟪ tpo_by_level := bump (tpo_by_level s) (BTreeSet.elements (current_tpo_levels s)) ⟫
      ⟪ rotation_factor := rotation_factor s + rotation_delta s ⟫
      ⟪ previous_tpo_high := current_tpo_high s ⟫ ⟪ previous_tpo_low := current_tpo_low s ⟫
      ⟪ current_tpo_levels := [] ⟫ ⟪ current_tpo_high := None ⟫ ⟪ current_tpo_low := None ⟫.

Lemma profile_preflight_add_Ok s bucket q new :
  profile_preflight_add s bucket q new = Ok tt ->
  (BTreeMap.get (volume_by_level s) bucket = None ->
   BTreeMap.len (volume_by_level s) < max_levels (config s)) /\
  (if new then 0 < max_tpo_levels_per_period (config s)
   else BTreeMap.get (current_tpo_levels s) bucket = None ->
        BTreeMap.len (current_tpo_levels s) < max_tpo_levels_per_period (config s)) /\
  fits I128 (total_volume_units s + q) /\
  fits I128 (BTreeMap.get_or (volume_by_level s) bucket 0 + q).
Proof.
  unfold profile_preflight_add, BTreeSet.contains, BTreeMap.contains_key.
  destruct (_ && (max_levels (config s) <=? _)) eqn:E1; [done|].
  destruct (_ && (max_tpo_levels_per_period (config s) <=? _)) eqn:E2; [done|].
  intros H. ares. split; [|split; [|done]].
  - intros Hn. rewrite Hn in E1. simpl in E1. by apply Z.leb_gt in E1.
  - destruct new; simpl in E2; [by apply Z.leb_gt in E2|].
    intros Hn. rewrite Hn in E2. simpl in E2. by apply Z.leb_gt in E2.
Qed.

Lemma profile_apply_add_Ok s bucket p q :
  fits I128 (total_volume_units s + q) ->
  fits I128 (BTreeMap.get_or (volume_by_level s) bucket 0 + q) ->
  profile_apply_add bucket p q s = (Ok tt, profile_add bucket p q s).
Proof.
  intros H1 H2. unfold profile_apply_add. eff_unfold. rewrite !add_or_fits by done. simpl.
  by rewrite BTreeMap.insert_insert.
Qed.

Lemma count_tpo_Ok b s :
  fits U64 (BTreeMap.get_or (tpo_by_level s) b 0 + 1) ->
  count_tpo b s = (Ok tt, s ⟪ tpo_by_level := bump (tpo_by_level s) [b] ⟫).
Proof.
  intros H. unfold count_tpo. eff_unfold. rewrite add_or_fits by done. simpl.
  by rewrite BTreeMap.insert_insert.
Qed.

Lemma get_or_bump_other m bs (b' : Z) :
  b' ∉ bs -> BTreeMap.get_or (bump m bs) b' 0 = BTreeMap.get_or m b' 0.
Proof.
  revert m. induction bs as [|x bs IH]; intros m Hn; simpl; [done|].
  apply not_elem_of_cons in Hn as [Hne Hn]. rewrite IH by done.
  rewrite BTreeMap.get_or_insert, cmp_Eq_case. by rewrite decide_False.
Qed.

Lemma efor_count_tpo bs s :
  NoDup bs -> Forall (fun b => fits U64 (BTreeMap.get_or (tpo_by_level s) b 0 + 1)) bs ->
  efor bs count_tpo s = (Ok tt, s ⟪ tpo_by_level := bump (tpo_by_level s) bs ⟫).
Proof.
  revert s. induction bs as [|b bs IH]; intros s Hnd Hf; [by destruct s|].
  apply NoDup_cons in Hnd as [Hb Hnd]. apply Forall_cons in Hf as [H1 Hf].
  cbn [efor]. unfold ebind. rewrite count_tpo_Ok, IH; try done. simpl.
  rewrite Forall_forall in *. intros x Hx.
  rewrite BTreeMap.get_or_insert, cmp_Eq_case, decide_False by set_solver. auto.
Qed.

Lemma preflight_close_Ok s :
  preflight_close_current_tpo s = Ok tt ->
  Forall (fun b => fits U64 (BTreeMap.get_or (tpo_by_level s) b 0 + 1))
    (BTreeSet.elements (current_tpo_levels s)) /\
  fits I32 (rotation_factor s + rotation_delta s).
Proof.
  unfold preflight_close_current_tpo. intros H. ares. split; [|done].
  match goal with Hf : try_fold _ _ _ = Ok _ |- _ => revert Hf end.
  generalize (BTreeSet.elements (current_tpo_levels s)) as bs.
  induction bs as [|b bs IH]; simpl; [constructor|]. intros H'. ares. constructor; auto.
Qed.

Lemma close_current_tpo_cases s :
  BTreeMap.wf (current_tpo_levels s) ->
  match close_current_tpo s with
  | (Ok _, s') => s' = closed s
  | (Err e, s') => s' = s
  end.
Proof.
  intros Hwf. unfold close_current_tpo. unfold ebind, eget, elift.
  destruct (preflight_close_current_tpo s) as [[]|e] eqn:Hpf; [|done].
  apply preflight_close_Ok in Hpf as [Hf Hr]. unfold apply_close_current_tpo, closed.
  unfold ebind, eget. case_bool_decide; [done|].
  rewrite efor_count_tpo by (done || by apply BTreeMap.keys_NoDup). simpl.
  unfold elift, emod. rewrite add_or_fits; [done|exact Hr].
Qed.

(** ** The branches of [ingest] *)

Definition profile_decode (s : SessionProfileBuilder) (ts : Z) (p : Price) (q : Quantity)
    : result (Z * Price * Z * Z * Z) AnalyticsError :=
  profile_reject_late s ts ?;
  let? bucket := price_bucket (grid s) p in
  let? tick := price_tick (grid s) p in
  let? price := price_at_tick (grid s) tick in
  let? quantity := quantity_units (grid s) q in
  let? session := checked_session_start (time s) ts in
  let? tpo := checked_tpo_start (time s) ts in
  Ok (bucket, price, quantity, session, tpo).

(** The period the trade belongs to is the open one. *)
Definition opened (session tpo : Z) (s : SessionProfileBuilder) : SessionProfileBuilder :=
  match current_tpo_start s with
  | None => start_session session tpo s
  | Some cur => if cur <? tpo then (closed s) ⟪ current_tpo_start := Some tpo ⟫ else s
  end.

Definition add_stamped (ts : Z) (b : Z) (p : Price) (q : Z) (s : SessionProfileBuilder)
    : SessionProfileBuilder :=
  (profile_add b p q s) ⟪ last_timestamp_ns := Some ts ⟫.

Inductive profile_outcome (s : SessionProfileBuilder) (ts : Z) (pr : Price) (qt : Quantity)
    : result (option SessionProfile) AnalyticsError -> SessionProfileBuilder -> Prop :=
  | profile_rejected e : profile_outcome s ts pr qt (Err e) s
  | profile_first b p q se tp :
      profile_decode s ts pr qt = Ok (b, p, q, se, tp) -> session_start s = None ->
      profile_preflight_add s b q true = Ok tt ->
      profile_outcome s ts pr qt (Ok None) (add_stamped ts b p q (start_session se tp s))
  | profile_same b p q se tp cur :
      profile_decode s ts pr qt = Ok (b, p, q, se, tp) -> session_start s = Some se ->
      current_tpo_start s = Some cur -> cur <= tp ->
      profile_preflight_add s b q (negb (tp =? cur)) = Ok tt ->
      (cur < tp -> preflight_close_current_tpo s = Ok tt) ->
      profile_outcome s ts pr qt (Ok None) (add_stamped ts b p q (opened se tp s))
  | profile_rolled b p q se tp cur fin s0 :
      profile_decode s ts pr qt = Ok (b, p, q, se, tp) -> session_start s = Some cur ->
      cur < se -> finalized_clone s = Ok fin ->
      profile_new (grid s) (time s) (config s) = Ok s0 ->
      profile_preflight_add s0 b q true = Ok tt ->
      profile_outcome s ts pr qt (Ok (Some fin)) (add_stamped ts b p q (start_session se tp s0)).

Lemma closed_fields s :
  grid (closed s) = grid s /\ time (closed s) = time s /\ config (closed s) = config s /\
  session_start (closed s) = session_start s /\ volume_by_level (closed s) = volume_by_level s /\
  total_volume_units (closed s) = total_volume_units s /\
  last_timestamp_ns (closed s) = last_timestamp_ns s /\
  current_tpo_start (closed s) = current_tpo_start s /\ current_tpo_levels (closed s) = [].
Proof. unfold closed. case_bool_decide; auto 10. Qed.

Lemma profile_ingest_decoded ts pr qt s :
  profile_ingest ts pr qt s =
  match profile_decode s ts pr qt with
  | Err e => (Err e, s)
  | Ok (b, p, q, se, tp) =>
      let add := profile_apply_add b p q in
      let stamp := emod (fun s => s ⟪ last_timestamp_ns := Some ts ⟫) in
      match session_start s with
      | None =>
          (elift (profile_preflight_add s b q true) !;
           emod (start_session se tp) !; add !; stamp !; eret None) s
      | Some cur =>
          if cur <? se then
            (let! fin := elift (finalized_clone s) in
             let! s0 := elift (profile_new (grid s) (time s) (config s)) in
             elift (profile_preflight_add s0 b q true) !;
             let '(r, s1) := (add !; stamp) (start_session se tp s0) in
             elift r !; eput s1 !; eret (Some fin)) s
          else if se <? cur then (Err (LateTrade ts cur), s)
          else
            (let! cur := elift (ok_or (current_tpo_start s) missing_tpo) in
             if tp <? cur then ethrow (LateTrade ts cur) else
             elift (profile_preflight_add s b q (negb (tp =? cur))) !;
             (if cur <? tp then
                close_current_tpo !; emod (fun s => s ⟪ current_tpo_start := Some tp ⟫)
              else eret tt) !;
             add !; stamp !; eret None) s
      end
  end.
Proof.
  unfold profile_ingest, profile_decode, ebind at 1, eget.
  destruct (profile_reject_late s ts); cbn [rbind]; [|done].
  unfold ebind at 1, elift at 1. cbn beta iota.
  unfold ebind at 1, elift at 1. destruct (price_bucket _ _); cbn [rbind]; [|done].
  unfold ebind at 1, elift at 1. destruct (price_tick _ _); cbn [rbind]; [|done].
  unfold ebind at 1, elift at 1. destruct (price_at_tick _ _); cbn [rbind]; [|done].
  unfold ebind at 1, elift at 1. destruct (quantity_units _ _); cbn [rbind]; [|done].
  unfold ebind at 1, elift at 1. destruct (checked_session_start _ _); cbn [rbind]; [|done].
  unfold ebind at 1, elift at 1. destruct (checked_tpo_start _ _); cbn [rbind]; [|done].
  destruct (session_start s); [|done]. by repeat case_match.
Qed.

Lemma profile_ingest_cases ts pr qt s :
  BTreeMap.wf (current_tpo_levels s) ->
  profile_outcome s ts pr qt (fst (profile_ingest ts pr qt s)) (snd (profile_ingest ts pr qt s)).
Proof.
  intros Hwf. rewrite profile_ingest_decoded.
  destruct (profile_decode s ts pr qt) as [[[[[b p] q] se] tp]|e] eqn:Hd; [|by constructor].
  cbv zeta. destruct (session_start s) as [cur|] eqn:Hs.
  - destruct (Z.ltb_spec cur se).
    + eff_unfold. destruct (finalized_clone s) as [fin|] eqn:Hf; [|by constructor].
      destruct (profile_new _ _ _) as [s0|] eqn:H0; [|by constructor].
      destruct (profile_preflight_add s0 _ _ _) as [[]|] eqn:Hpf; [|by constructor].
      pose proof (profile_preflight_add_Ok _ _ _ _ Hpf) as (_ & _ & P3 & P4).
      rewrite (profile_apply_add_Ok (start_session se tp s0)) by done.
      by apply (profile_rolled s ts pr qt b p q se tp cur fin s0).
    + destruct (Z.ltb_spec se cur); [by constructor|]. assert (se = cur) as -> by lia.
      rewrite ebind_elift.
      destruct (current_tpo_start s) as [ct|] eqn:Ht; simpl ok_or; [|by constructor].
      cbv iota. destruct (Z.ltb_spec tp ct); [by constructor|]. rewrite ebind_elift.
      destruct (profile_preflight_add s _ _ _) as [[]|] eqn:Hpf; [|by constructor].
      pose proof (profile_preflight_add_Ok _ _ _ _ Hpf) as (_ & _ & P3 & P4).
      pose proof (profile_same s ts pr qt b p q cur tp ct Hd Hs Ht ltac:(lia) Hpf) as Ho.
      unfold opened in Ho. rewrite Ht in Ho. destruct (Z.ltb_spec ct tp).
      * pose proof (close_current_tpo_cases s Hwf) as Hc.
        destruct (close_current_tpo s) as [[[]|e] s1] eqn:Ec; subst s1.
        2:{ rewrite (ebind_fail _ _ s e s) by (by apply ebind_fail). by constructor. }
        rewrite (ebind_run _ _ s tt ((closed s) ⟪ current_tpo_start := Some tp ⟫))
          by (by erewrite ebind_run).
        destruct (closed_fields s) as (_ & _ & _ & _ & F5 & F6 & _).
        erewrite ebind_run by (apply profile_apply_add_Ok; simpl; by rewrite ?F5, ?F6).
        apply Ho. intros _. revert Ec. unfold close_current_tpo. unfold ebind at 1, eget.
        rewrite ebind_elift. by destruct (preflight_close_current_tpo s) as [[]|].
      * rewrite (ebind_run _ _ s tt s) by done.
        erewrite ebind_run by (by apply profile_apply_add_Ok). apply Ho. lia.
  - rewrite ebind_elift. destruct (profile_preflight_add s _ _ _) as [[]|] eqn:Hpf; [|by constructor].
    pose proof (profile_preflight_add_Ok _ _ _ _ Hpf) as (_ & _ & P3 & P4).
    erewrite ebind_run by done. erewrite ebind_run by (by apply profile_apply_add_Ok).
    by apply (profile_first s ts pr qt b p q se tp).
Qed.

(** ** Invariant *)

Definition pconfig_ok (c : ProfileConfig) : Prop :=
  1 <= value_area_bps c <= 10000 /\ 0 < max_levels c /\
  0 < max_tpo_levels_per_period c <= max_levels c.

(** The session and the open period contain the last accepted timestamp. *)
Definition lifecycle_ok (s : SessionProfileBuilder) : Prop :=
  match session_start s, current_tpo_start s with
  | Some se, Some tp =>
      (session_ns (time s) | se - anchor_ns (time s)) /\
      se + session_ns (time s) <= int_max I64 /\ int_min I64 <= se /\
      exists l, last_timestamp_ns s = Some l /\ se <= tp <= l /\ l < se + session_ns (time s)
  | None, None =>
      volume_by_level s = [] /\ tpo_by_level s = [] /\ current_tpo_levels s = [] /\
      total_volume_units s = 0
  | _, _ => False
  end.

Record profile_inv (s : SessionProfileBuilder) : Prop := {
  prof_grid : grid_ok (grid s);
  prof_time : timeframe_ok (time s);
  prof_config : pconfig_ok (config s);
  prof_volume_wf : BTreeMap.wf (volume_by_level s);
  prof_tpo_wf : BTreeMap.wf (tpo_by_level s);
  prof_current_wf : BTreeMap.wf (current_tpo_levels s);
  prof_volume_len : BTreeMap.len (volume_by_level s) <= max_levels (config s);
  prof_current_len : BTreeMap.len (current_tpo_levels s) <= max_tpo_levels_per_period (config s);
  prof_tpo_keys : forall b, b ∈ BTreeMap.keys (tpo_by_level s) -> b ∈ BTreeMap.keys (volume_by_level s);
  prof_current_keys :
    forall b, b ∈ BTreeMap.keys (current_tpo_levels s) -> b ∈ BTreeMap.keys (volume_by_level s);
  prof_volume_pos : Forall (fun p => 0 < p.2) (volume_by_level s);
  prof_tpo_pos : Forall (fun p => 0 <= p.2) (tpo_by_level s);
  prof_total : total_volume_units s = BTreeMap.sum_by id (volume_by_level s);
  prof_total_max : total_volume_units s <= int_max I128;
  prof_lifecycle : lifecycle_ok s
}.

Lemma bump_wf m bs : BTreeMap.wf m -> BTreeMap.wf (bump m bs).
Proof. revert m. induction bs as [|b bs IH]; intros m Hm; simpl; [done|]. by apply IH, BTreeMap.wf_insert. Qed.

Lemma bump_keys m bs b : b ∈ BTreeMap.keys (bump m bs) <-> b ∈ bs \/ b ∈ BTreeMap.keys m.
Proof.
  revert m. induction bs as [|x bs IH]; intros m; simpl; [set_solver|].
  rewrite IH, BTreeMap.keys_insert, elem_of_cons. tauto.
Qed.

Lemma bump_pos m bs : Forall (fun p => 0 <= p.2) m -> Forall (fun p => 0 <= p.2) (bump m bs).
Proof.
  revert m. induction bs as [|b bs IH]; intros m Hm; simpl; [done|].
  apply IH, BTreeMap.Forall_insert; [done|]. simpl.
  assert (0 <= BTreeMap.get_or m b 0); [|lia].
  by apply (BTreeMap.get_or_Forall (fun v => 0 <= v)).
Qed.

Lemma closed_inv s : profile_inv s -> profile_inv (closed s).
Proof.
  intros []. unfold closed. case_bool_decide; split; simpl; try done.
  - by apply bump_wf.
  - apply BTreeMap.wf_empty.
  - destruct prof_config0 as (_ & _ & ? & _). unfold BTreeMap.len. simpl. lia.
  - intros b [Hb|Hb]%bump_keys; auto.
  - intros b Hb. by apply not_elem_of_nil in Hb.
  - by apply bump_pos.
  - unfold lifecycle_ok in *. simpl. destruct (session_start s), (current_tpo_start s); try done.
    destruct prof_lifecycle0 as (_ & _ & E & _). contradiction.
Qed.

(** The invariant is about the accumulators only through what an addition
    keeps. *)
Lemma profile_add_inv ts b p q se tp s :
  profile_inv s -> 0 < q <= int_max I128 ->
  (BTreeMap.get (volume_by_level s) b = None ->
   BTreeMap.len (volume_by_level s) < max_levels (config s)) ->
  (BTreeMap.get (current_tpo_levels s) b = None ->
   BTreeMap.len (current_tpo_levels s) < max_tpo_levels_per_period (config s)) ->
  fits I128 (total_volume_units s + q) ->
  lifecycle_ok (add_stamped ts b p q (start_session se tp s)) ->
  profile_inv (add_stamped ts b p q (start_session se tp s)).
Proof.
  intros [] Hq Hv Hc Ht Hl. split; simpl; try done.
  - by apply BTreeMap.wf_insert.
  - by apply BTreeMap.wf_insert.
  - by apply BTreeMap.len_insert_le.
  - by apply BTreeMap.len_insert_le.
  - intros x Hx. apply BTreeMap.keys_insert. auto.
  - intros x. unfold BTreeSet.insert. rewrite !BTreeMap.keys_insert. intros [Hx|Hx]; auto.
  - apply BTreeMap.Forall_insert; [done|]. simpl.
    assert (0 <= BTreeMap.get_or (volume_by_level s) b 0); [|lia].
    apply (BTreeMap.get_or_Forall (fun v => 0 <= v)); [|done].
    eapply Forall_impl; [exact prof_volume_pos0|]. simpl. lia.
  - pose proof (BTreeMap.sum_by_update id (volume_by_level s) b 0 (fun v => v + q) q) as ->;
      [lia|done|done|done].
  - solve_fits.
Qed.

Lemma empty_profile_inv s :
  grid_ok (grid s) -> timeframe_ok (time s) -> pconfig_ok (config s) ->
  session_start s = None -> current_tpo_start s = None ->
  volume_by_level s = [] -> tpo_by_level s = [] -> current_tpo_levels s = [] ->
  total_volume_units s = 0 -> profile_inv s.
Proof.
  intros Hg Ht (C1 & C2 & C3) E1 E2 E3 E4 E5 E6.
  split; unfold lifecycle_ok; rewrite ?E1, ?E2, ?E3, ?E4, ?E5, ?E6; try done;
    unfold BTreeMap.len; simpl; try lia; apply BTreeMap.wf_empty.
Qed.

Lemma profile_new_Ok g t c s :
  profile_new g t c = Ok s ->
  s = mkSessionProfileBuilder g t c None None None None None [] [] 0 [] None None None None 0.
Proof. unfold profile_new. intros H. by ares. Qed.

Lemma profile_decode_Ok s ts pr qt b p q se tp :
  grid_ok (grid s) -> fixed_ok (qty0 qt) ->
  profile_decode s ts pr qt = Ok (b, p, q, se, tp) ->
  0 < q <= int_max I128 /\ price_bucket (grid s) pr = Ok b /\
  quantity_units (grid s) qt = Ok q /\
  (forall l, last_timestamp_ns s = Some l -> l <= ts) /\
  se = period_start_i128 ts (anchor_ns (time s)) (session_ns (time s)) /\
  tp = period_start_i128 ts (anchor_ns (time s)) (tpo_ns (time s)) /\ fits I64 se.
Proof.
  intros Hg Hq. unfold profile_decode, profile_reject_late. intros H.
  apply rbind_Ok in H as ([] & Hlate & H). ares.
  match goal with
  | Hs : checked_session_start _ _ = Ok _, Ht : checked_tpo_start _ _ = Ok _,
    Hu : quantity_units _ _ = Ok _ |- _ =>
      apply period_start_checked_Ok in Hs as [-> ?]; apply period_start_checked_Ok in Ht as [-> _];
      pose proof (quantity_units_Ok _ _ _ Hg Hq Hu) as [? _]
  end.
  repeat split; try done; try lia. intros l Hl. rewrite Hl in Hlate.
  destruct (Z.ltb_spec ts l); [done|lia]. all: solve_fits.
Qed.

Lemma period_start_unique ts a d se :
  0 < d -> (d | se - a) -> se <= ts < se + d -> period_start_i128 ts a d = se.
Proof.
  intros Hd [k Hk] Hts. unfold period_start_i128.
  assert ((ts - a) / d = k) as ->; [|lia].
  symmetry. apply (Z.div_unique (ts - a) d k (ts - se)); lia.
Qed.

(** The period fields a trade or a clock advance leaves behind. *)
Lemma lifecycle_at s ts se tp :
  timeframe_ok (time s) -> ts + session_ns (time s) <= int_max I64 -> fits I64 se ->
  se = period_start_i128 ts (anchor_ns (time s)) (session_ns (time s)) ->
  tp = period_start_i128 ts (anchor_ns (time s)) (tpo_ns (time s)) ->
  (session_ns (time s) | se - anchor_ns (time s)) /\
  se + session_ns (time s) <= int_max I64 /\ int_min I64 <= se /\
  se <= tp <= ts /\ ts < se + session_ns (time s).
Proof.
  intros (T1 & T2 & T3 & _ & _ & T6) Hts Hse -> ->.
  pose proof (period_start_bounds ts (anchor_ns (time s)) (session_ns (time s)) T3).
  pose proof (period_start_bounds ts (anchor_ns (time s)) (tpo_ns (time s)) T2).
  pose proof (period_start_nested ts (anchor_ns (time s)) _ _ T2 T3 T6) as (? & ? & _).
  split; [unfold period_start_i128; eexists; rewrite Z.add_simpl_r; reflexivity|].
  unfold fits in Hse. lia.
Qed.

Definition profile_input_ok (s : SessionProfileBuilder) (ts : Z) (q : Quantity) : Prop :=
  ts + session_ns (time s) <= int_max I64 /\ fixed_ok (qty0 q).

Lemma start_session_id se tp s :
  session_start s = Some se -> current_tpo_start s = Some tp -> start_session se tp s = s.
Proof. intros H1 H2. unfold start_session. rewrite <- H1, <- H2. by destruct s. Qed.

Lemma start_session_tpo se tp s :
  session_start s = Some se -> start_session se tp s = s ⟪ current_tpo_start := Some tp ⟫.
Proof. intros H1. unfold start_session. rewrite <- H1. by destruct s. Qed.

Lemma add_started_inv ts b p q se tp s new :
  profile_inv s -> ts + session_ns (time s) <= int_max I64 -> 0 < q <= int_max I128 ->
  se = period_start_i128 ts (anchor_ns (time s)) (session_ns (time s)) ->
  tp = period_start_i128 ts (anchor_ns (time s)) (tpo_ns (time s)) -> fits I64 se ->
  profile_preflight_add s b q new = Ok tt ->
  (new = true -> current_tpo_levels s = []) ->
  profile_inv (add_stamped ts b p q (start_session se tp s)).
Proof.
  intros Hs Hts Hq Hse Htp Hf Hpf Hnew.
  destruct (profile_preflight_add_Ok _ _ _ _ Hpf) as (P1 & P2 & P3 & _).
  apply profile_add_inv; try done.
  - destruct new; [|done]. rewrite Hnew by done. intros _. unfold BTreeMap.len. simpl. lia.
  - unfold lifecycle_ok. simpl.
    destruct (lifecycle_at s ts se tp (prof_time _ Hs) Hts Hf Hse Htp) as (L1 & L2 & L3 & L4 & L5).
    eauto 10.
Qed.

(** The preflight only looks at what closing a period keeps. *)
Lemma preflight_closed s b q :
  profile_preflight_add s b q true = Ok tt -> profile_preflight_add (closed s) b q true = Ok tt.
Proof.
  destruct (closed_fields s) as (_ & _ & F3 & _ & F5 & F6 & _). unfold profile_preflight_add.
  by rewrite F3, F5, F6.
Qed.

Lemma profile_ingest_inv ts pr qt s :
  profile_inv s -> profile_input_ok s ts qt -> profile_inv (snd (profile_ingest ts pr qt s)).
Proof.
  intros Hs [Hts Hqt].
  destruct (profile_ingest_cases ts pr qt s (prof_current_wf _ Hs))
    as [e|b p q se tp Hd Hn Hpf|b p q se tp cur Hd Hss Hct Hle Hpf Hcl
       |b p q se tp cur fin s0 Hd Hss Hlt Hfin H0 Hpf]; [done|..];
    destruct (profile_decode_Ok _ _ _ _ _ _ _ _ _ (prof_grid _ Hs) Hqt Hd)
      as (Hq & _ & _ & _ & Hse & Htp & Hf).
  - apply (add_started_inv _ _ _ _ _ _ _ true); try done. intros _.
    pose proof (prof_lifecycle _ Hs) as Hl. unfold lifecycle_ok in Hl. rewrite Hn in Hl.
    destruct (current_tpo_start s); [done|]. apply Hl.
  - unfold opened. rewrite Hct. destruct (Z.ltb_spec cur tp).
    + destruct (closed_fields s) as (_ & F2 & _ & F4 & _ & _ & _ & _ & F9).
      rewrite <- (start_session_tpo se) by congruence.
      apply (add_started_inv _ _ _ _ _ _ _ true); rewrite ?F2; try done; [by apply closed_inv|].
      apply preflight_closed. by rewrite (proj2 (Z.eqb_neq tp cur)) in Hpf by lia.
    + assert (cur = tp) as -> by lia. rewrite Z.eqb_refl in Hpf.
      rewrite <- (start_session_id se tp s) at 1 by done.
      by apply (add_started_inv _ _ _ _ _ _ _ false).
  - apply profile_new_Ok in H0. assert (profile_inv s0) as Hs0.
    { subst s0. apply empty_profile_inv; try done; apply Hs. }
    apply (add_started_inv _ _ _ _ _ _ _ true); try done; by subst s0.
Qed.

Lemma period_moved_inv s se tp l :
  profile_inv s -> session_start s = Some se -> current_tpo_start s <> None ->
  se <= tp <= l -> l < se + session_ns (time s) ->
  profile_inv (s ⟪ current_tpo_start := Some tp ⟫ ⟪ last_timestamp_ns := Some l ⟫).
Proof.
  intros [] Hss Hct Htp Hl. split; simpl; try done. unfold lifecycle_ok in *. simpl.
  rewrite Hss in *. destruct (current_tpo_start s); [|done].
  destruct prof_lifecycle0 as (L1 & L2 & L3 & _). eauto 10.
Qed.

(** [finish] and an [advance_to] past the end of the session. *)
Lemma finalize_inv {A} (k : SessionProfile -> A) (last : option Z) s :
  profile_inv s ->
  profile_inv (snd ((close_current_tpo !;
    let! self := eget in
    let! finalized := elift (profile_snapshot self ProfileFinal (basis (config self))) in
    emod profile_clear_active !;
    emod (fun self => match last with
                      | Some ts => self ⟪ last_timestamp_ns := Some ts ⟫
                      | None => self
                      end) !;
    eret (k finalized)) s)).
Proof.
  intros Hs. pose proof (close_current_tpo_cases s (prof_current_wf _ Hs)) as Hc.
  destruct (close_current_tpo s) as [[[]|e] s1] eqn:Ec; subst s1.
  2:{ by erewrite ebind_fail. }
  erewrite ebind_run by done. unfold ebind at 1, eget. rewrite ebind_elift.
  apply closed_inv in Hs. destruct (profile_snapshot _ _ _); [|done]. simpl.
  destruct last; apply empty_profile_inv; try done; apply Hs.
Qed.

Lemma profile_finish_inv s : profile_inv s -> profile_inv (snd (profile_finish s)).
Proof.
  intros Hs. unfold profile_finish. unfold ebind at 1, eget. case_bool_decide; [done|].
  apply (finalize_inv Some None s Hs).
Qed.

Lemma stamp_idle_inv s ts :
  profile_inv s -> session_start s = None ->
  profile_inv (s ⟪ last_timestamp_ns := Some ts ⟫).
Proof.
  intros Hs Hn. pose proof (prof_lifecycle _ Hs) as Hl. unfold lifecycle_ok in Hl.
  rewrite Hn in Hl. destruct (current_tpo_start s) eqn:E; [done|].
  destruct Hl as (E1 & E2 & E3 & E4). apply empty_profile_inv; try done; apply Hs.
Qed.

Lemma profile_advance_to_inv ts s :
  profile_inv s -> profile_inv (snd (profile_advance_to ts s)).
Proof.
  intros Hs. unfold profile_advance_to. unfold ebind at 1, eget. rewrite ebind_elift.
  destruct (profile_reject_late s ts) as [[]|] eqn:Hlate; [|done].
  destruct (session_start s) as [se|] eqn:Hss; [|by apply stamp_idle_inv].
  pose proof (prof_lifecycle _ Hs) as Hl. unfold lifecycle_ok in Hl. rewrite Hss in Hl.
  destruct (current_tpo_start s) as [ct|] eqn:Hct; [|done].
  destruct Hl as (L1 & L2 & L3 & l & Hlast & L4 & L5).
  unfold profile_reject_late in Hlate. rewrite Hlast in Hlate.
  destruct (Z.ltb_spec ts l); [done|]. rewrite ebind_elift.
  destruct (add_or _ _ _ _) as [en|] eqn:He; [|done]. apply add_or_Ok in He as [-> _].
  destruct (Z.leb_spec (se + session_ns (time s)) ts).
  { apply (finalize_inv Some (Some ts) s Hs). }
  rewrite ebind_elift. destruct (checked_tpo_start _ _) as [tp|] eqn:Htp; [|done].
  apply period_start_checked_Ok in Htp as [-> _].
  destruct (prof_time _ Hs) as (T1 & T2 & T3 & _ & _ & T6).
  pose proof (period_start_unique ts _ _ se T3 L1 ltac:(lia)) as Hu.
  pose proof (period_start_nested ts (anchor_ns (time s)) _ _ T2 T3 T6) as (N1 & _).
  pose proof (period_start_bounds ts (anchor_ns (time s)) _ T2) as N2.
  rewrite ebind_elift. cbn [ok_or]. destruct (Z.ltb_spec ct (period_start_i128 ts (anchor_ns (time s)) (tpo_ns (time s)))).
  - pose proof (close_current_tpo_cases s (prof_current_wf _ Hs)) as Hc.
    destruct (close_current_tpo s) as [[[]|e] s1] eqn:Ec; subst s1.
    2:{ rewrite (ebind_fail _ _ s e s) by (by apply ebind_fail). done. }
    erewrite ebind_run by (by erewrite ebind_run). simpl.
    destruct (closed_fields s) as (_ & F2 & _ & F4 & _ & _ & _ & F8 & _).
    apply (period_moved_inv (closed s) se); rewrite ?F2, ?F4, ?F8; try done; try lia.
    + by apply closed_inv.
    + by rewrite Hct.
  - rewrite (ebind_run _ _ s tt s) by done. simpl. rewrite Hct.
    apply (period_moved_inv s se); try done; try lia. by rewrite Hct.
Qed.

(** ** Histories *)

Inductive profile_op :=
  | PIngest (ts : Z) (p : Price) (q : Quantity) | PAdvance (ts : Z) | PFinish.

Definition profile_step (op : profile_op)
    : Eff SessionProfileBuilder AnalyticsError (option SessionProfile) :=
  match op with
  | PIngest ts p q => profile_ingest ts p q
  | PAdvance ts => profile_advance_to ts
  | PFinish => profile_finish
  end.

Definition profile_op_ok (t : TimeframeSpec) (op : profile_op) : Prop :=
  match op with
  | PIngest ts p q => ts + session_ns t <= int_max I64 /\ fixed_ok (price0 p) /\ fixed_ok (qty0 q)
  | _ => True
  end.

Definition run_profile (ops : list profile_op) (s : SessionProfileBuilder)
    : SessionProfileBuilder :=
  foldl (fun s op => snd (profile_step op s)) s ops.

Lemma close_time s : time (snd (close_current_tpo s)) = time s.
Proof.
  unfold close_current_tpo, apply_close_current_tpo. unfold ebind, eget, elift, emod.
  destruct (preflight_close_current_tpo s); [|done]. case_bool_decide; [done|].
  assert (forall bs s, time (snd (efor bs count_tpo s)) = time s) as Hl.
  { intros bs s0. apply (efor_inv (fun s' => time s' = time s0)); [done|].
    intros b s1 _ E. unfold count_tpo. eff_unfold. by destruct (add_or _ _ _ _). }
  specialize (Hl (BTreeSet.elements (current_tpo_levels s)) s).
  destruct (efor _ count_tpo s) as [[|] s1]; simpl in *; [|done].
  by destruct (add_or _ _ _ _).
Qed.

Lemma profile_step_time op s :
  BTreeMap.wf (current_tpo_levels s) -> time (snd (profile_step op s)) = time s.
Proof.
  intros Hwf. pose proof (close_time s) as Hc. destruct op as [ts p q|ts|]; simpl.
  - destruct (profile_ingest_cases ts p q s Hwf)
      as [e| |b p' q' se tp cur _ _ _ _ _ _|b p' q' se tp cur fin s0 _ _ _ _ H0 _]; [done|done| |].
    + unfold opened. destruct (current_tpo_start s); [|done].
      destruct (_ <? tp); [|done]. apply (closed_fields s).
    + by apply profile_new_Ok in H0 as ->.
  - unfold profile_advance_to. eff_unfold.
    destruct (profile_reject_late s ts); [|done]. destruct (session_start s); [|done].
    destruct (add_or _ _ _ _); [|done]. destruct (_ <=? ts).
    + destruct (close_current_tpo s) as [[|] s1]; [|done].
      by destruct (profile_snapshot _ _ _).
    + destruct (checked_tpo_start _ _); [|done]. destruct (ok_or _ _); [|done].
      destruct (_ <? _); [|done]. by destruct (close_current_tpo s) as [[|] s1].
  - unfold profile_finish. eff_unfold. case_bool_decide; [done|].
    destruct (close_current_tpo s) as [[|] s1]; [|done]. by destruct (profile_snapshot _ _ _).
Qed.

Lemma profile_step_inv t op s :
  profile_inv s /\ time s = t -> profile_op_ok t op ->
  profile_inv (snd (profile_step op s)) /\ time (snd (profile_step op s)) = t.
Proof.
  intros [Hs <-] Hop. split; [|apply profile_step_time, Hs].
  destruct op as [ts p q|ts|]; simpl in *.
  - apply profile_ingest_inv; [done|]. split; apply Hop.
  - by apply profile_advance_to_inv.
  - by apply profile_finish_inv.
Qed.

Lemma run_profile_inv t ops s :
  profile_inv s /\ time s = t -> Forall (profile_op_ok t) ops -> profile_inv (run_profile ops s).
Proof.
  intros Hs Hops. revert s Hs. induction Hops as [|op ops Hop _ IH]; intros s Hs; simpl;
    [apply Hs|]. by apply IH, profile_step_inv.
Qed.

Lemma profile_inv_validates s : profile_inv s -> profile_validate s = Ok tt.
Proof.
  intros []. unfold profile_validate. rewrite grid_validate_ok by done.
  rewrite (proj2 (timeframe_validate_Ok _)) by done.
  unfold profile_config_validate, profile_config_new. destruct prof_config0 as (C1 & C2 & C3).
  rewrite (proj2 (Z.leb_le _ _)), (proj2 (Z.leb_le (value_area_bps _) _)) by lia. simpl andb.
  cbn [negb]. rewrite !(proj2 (Z.eqb_neq _ _)), (proj2 (Z.ltb_ge _ _)) by lia. cbn [rbind rmap].
  pose proof (BTreeMap.len_keys_subseteq _ _ prof_tpo_wf0 prof_tpo_keys0) as Hlen.
  rewrite !(proj2 (Z.ltb_ge (max_levels _) _)), (proj2 (Z.ltb_ge (max_tpo_levels_per_period _) _))
    by lia. cbn [orb].
  assert (Forall (fun p : Z * Z => 0 <= id p.2) (volume_by_level s)) as Hpos.
  { eapply Forall_impl; [exact prof_volume_pos0|]. simpl. unfold id. lia. }
  pose proof (BTreeMap.sum_by_nonneg id _ Hpos) as Hsum. rewrite <- prof_total0 in Hsum.
  rewrite (proj2 (Z.ltb_ge (total_volume_units s) _)) by lia. cbn [orb].
  assert (existsb (fun value => value <? 0) (BTreeMap.values (volume_by_level s)) = false) as ->.
  { apply existsb_Forall_false, Forall_fmap. eapply Forall_impl; [exact Hpos|].
    intros [k v] Hv. by apply Z.ltb_ge. }
  rewrite (BTreeMap.try_fold_values _ id _ _ (int_max I128)); [|done|lia|lia|].
  2:{ intros k v a Hin Ha Hm. rewrite Forall_forall in Hpos. specialize (Hpos _ Hin).
      unfold id in *. apply add_or_fits. solve_fits. }
  cbn [rbind]. rewrite Z.add_0_l, <- prof_total0, Z.eqb_refl. cbn [negb].
  unfold lifecycle_ok in *. destruct (session_start s) as [se|], (current_tpo_start s) as [tp|]; try done.
  destruct prof_lifecycle0 as (_ & L2 & L3 & l & _ & L4 & L5).
  destruct prof_time0 as (_ & _ & T3 & _).
  rewrite (proj2 (Z.leb_le se tp)) by lia. rewrite add_or_fits by solve_fits. cbn [rbind].
  by rewrite (proj2 (Z.ltb_lt tp _)) by lia.
Qed.

(** Every profile builder the program can reach passes its own integrity
    check: capacities respected, no negative volume, the total equal to the
    sum of the levels, and the open TPO period inside the open session. *)
Theorem profile_reachable_validates g t c s ops :
  grid_ok g -> timeframe_ok t -> pconfig_ok c -> profile_new g t c = Ok s ->
  Forall (profile_op_ok t) ops -> profile_validate (run_profile ops s) = Ok tt.
Proof.
  intros Hg Ht Hc ->%profile_new_Ok Hops. apply profile_inv_validates.
  apply (run_profile_inv t); [|done]. split; [|done]. by apply empty_profile_inv.
Qed.

Definition sample_pconfig : ProfileConfig := mkProfileConfig Volume 7000 8 4.
Definition sample_profile : SessionProfileBuilder :=
  mkSessionProfileBuilder sample_grid (mkTimeframeSpec 60 100 600 0 600) sample_pconfig
    None None None None None [] [] 0 [] None None None None 0.

Definition pt (ts c q : Z) : profile_op :=
  PIngest ts (mkPrice (mkFixed c 2)) (mkQuantity (mkFixed q 3)).

Definition sample_profile_ops : list profile_op :=
  [pt 5 10000 30; pt 20 10200 50; pt 130 10100 60; pt 150 10000 10; pt 310 10300 5].

Definition busy_profile : SessionProfileBuilder := run_profile sample_profile_ops sample_profile.

Example busy_profile_state :
  (volume_by_level busy_profile, tpo_by_level busy_profile, rotation_factor busy_profile) =
  ([(100, 40); (101, 60); (102, 50); (103, 5)], [(100, 2); (101, 1); (102, 1)], -1).
Proof. vm_compute. reflexivity. Qed.

Lemma sample_ops_ok : Forall (profile_op_ok (time sample_profile)) sample_profile_ops.
Proof.
  unfold sample_profile_ops, pt.
  do 5 (apply Forall_cons_2; [split; [simpl; lia|split; split; solve_fits]|]). apply Forall_nil_2.
Qed.

Lemma sample_pconfig_ok : pconfig_ok sample_pconfig.
Proof. repeat split; simpl; lia. Qed.

Lemma profile_reachable_validates_witness : profile_validate busy_profile = Ok tt.
Proof.
  apply (profile_reachable_validates sample_grid (time sample_profile) sample_pconfig
           sample_profile sample_profile_ops).
  - apply sample_grid_ok.
  - apply timeframe_validate_Ok. reflexivity.
  - apply sample_pconfig_ok.
  - reflexivity.
  - apply sample_ops_ok.
Defined.

(** A trade the profile refuses leaves it exactly as it was, also when
    the refusal comes after the open period would have been closed or the
    session rolled over. *)
Theorem profile_ingest_atomic ts p q s e s' :
  profile_inv s -> profile_ingest ts p q s = (Err e, s') -> s' = s.
Proof.
  intros Hs Hrun. pose proof (profile_ingest_cases ts p q s (prof_current_wf _ Hs)) as Ho.
  rewrite Hrun in Ho. simpl in Ho. by inversion Ho.
Qed.

Lemma busy_profile_inv : profile_inv busy_profile.
Proof.
  apply (run_profile_inv (time sample_profile)); [|apply sample_ops_ok]. split; [|done].
  apply empty_profile_inv;
    [apply sample_grid_ok|by apply timeframe_validate_Ok|apply sample_pconfig_ok|done..].
Qed.

Lemma profile_ingest_atomic_witness :
  snd (profile_ingest 320 (mkPrice (mkFixed 10001 2)) (mkQuantity (mkFixed 1 3)) busy_profile) =
  busy_profile.
Proof.
  apply (profile_ingest_atomic 320 (mkPrice (mkFixed 10001 2)) (mkQuantity (mkFixed 1 3))
           busy_profile MisalignedPrice).
  - apply busy_profile_inv.
  - vm_compute. reflexivity.
Defined.

(** ** The value area *)

Section ValueArea.
Context (s : SessionProfileBuilder) (bs : ValueAreaBasis).
Context (Hs : profile_inv s).

Definition act (b : Z) : Z :=
  match bs with
  | Volume => BTreeMap.get_or (volume_by_level s) b 0
  | Tpo => BTreeMap.get_or (tpo_by_level s) b 0
  end.

Definition total_of (l : list Z) : Z := foldr (fun b acc => act b + acc) 0 l.

Lemma activity_act b : activity s b bs = Ok (act b).
Proof. unfold activity, act. by destruct bs. Qed.

Lemma act_nonneg b : 0 <= act b.
Proof.
  unfold act. destruct bs; apply (BTreeMap.get_or_Forall (fun v => 0 <= v)); try done; [|apply Hs].
  eapply Forall_impl; [apply Hs|]. simpl. lia.
Qed.

Lemma total_of_app l1 l2 : total_of (l1 ++ l2) = total_of l1 + total_of l2.
Proof. induction l1 as [|b l1 IH]; simpl; [done|]. rewrite IH. lia. Qed.

Lemma total_of_perm l1 l2 : l1 ≡ₚ l2 -> total_of l1 = total_of l2.
Proof. induction 1; simpl; lia. Qed.

Lemma total_of_nonneg l : 0 <= total_of l.
Proof. induction l as [|b l IH]; simpl; [lia|]. pose proof (act_nonneg b). lia. Qed.

Lemma total_of_submseteq l1 l2 : l1 ⊆+ l2 -> total_of l1 <= total_of l2.
Proof.
  intros [k Hk]%submseteq_Permutation. rewrite (total_of_perm _ _ Hk), total_of_app.
  pose proof (total_of_nonneg k). lia.
Qed.

Lemma total_activity_Ok l acc :
  0 <= acc -> acc + total_of l <= int_max I128 ->
  try_fold (fun total bucket =>
      let? a := activity s bucket bs in
      add_or I128 total a "summing value-area activity") acc l = Ok (acc + total_of l).
Proof.
  revert acc. induction l as [|b l IH]; intros acc Ha Hm; simpl in *; [f_equal; lia|].
  pose proof (act_nonneg b). pose proof (total_of_nonneg l).
  rewrite activity_act. cbn [rbind]. rewrite add_or_fits by solve_fits. cbn [rbind].
  rewrite IH by lia. f_equal. lia.
Qed.

(** *** The point of control *)

Context (buckets : list Z) (mid : Z).

Definition tie_distance (b : Z) : Z := Z.abs (b * 2 - mid).

(** More activity first, then nearer to the middle of the range, then lower. *)
Definition preferred (b b' : Z) : Prop :=
  act b' < act b \/
  (act b' = act b /\ (tie_distance b < tie_distance b' \/
                      (tie_distance b = tie_distance b' /\ b <= b'))).

Definition poc_ok (seen : list Z) (st : PocState) : Prop :=
  exists b, buckets !! poc_index st = Some b /\ (poc_index st < length seen)%nat /\
            poc_activity st = act b /\ poc_distance st = tie_distance b /\
            Forall (preferred b) seen.

Lemma preferred_trans a b c : preferred a b -> preferred b c -> preferred a c.
Proof. unfold preferred. lia. Qed.

Lemma preferred_refl b : preferred b b.
Proof. unfold preferred. lia. Qed.

Lemma poc_step_Ok seen st i b :
  0 <= b <= int_max I128 / 4 -> 0 <= mid <= int_max I128 / 2 ->
  i = length seen -> buckets !! i = Some b ->
  (seen = [] /\ st = mkPocState 0 (-1) (int_max U128)) \/ poc_ok seen st ->
  exists st', poc_step s bs buckets mid st (i, b) = Ok st' /\ poc_ok (seen ++ [b]) st'.
Proof.
  intros Hb Hmid Hi Hlk Hst. unfold poc_step. rewrite activity_act. cbn [rbind].
  change (int_max I128 / 4) with 42535295865117307932921825928971026431 in Hb.
  change (int_max I128 / 2) with 85070591730234615865843651857942052863 in Hmid.
  unfold checked_mul. rewrite to_ty_fits by solve_fits. simpl mbind.
  unfold checked_sub. rewrite to_ty_fits by solve_fits. cbn [ok_or rbind].
  fold (tie_distance b). pose proof (act_nonneg b).
  destruct Hst as [[-> ->]|(b0 & L0 & I0 & A0 & D0 & F0)].
  - simpl poc_activity. rewrite (proj2 (Z.ltb_lt _ _)) by lia. eexists. split; [done|].
    subst i. exists b. simpl. repeat split; try done; [lia|].
    constructor; [apply preferred_refl|constructor].
  - rewrite (list_lookup_total_correct _ _ _ L0), A0, D0.
    destruct (_ || _) eqn:Hc.
    + eexists. split; [done|]. exists b. simpl. rewrite length_app. simpl.
      assert (preferred b b0) as Hp by (unfold preferred; lia).
      repeat split; try done; [lia|]. apply Forall_app_2; [|constructor; [apply preferred_refl|constructor]].
      eapply Forall_impl; [exact F0|]. intros x. by apply preferred_trans.
    + eexists. split; [done|]. exists b0. rewrite length_app. simpl.
      assert (preferred b0 b) as Hp by (unfold preferred; lia).
      repeat split; try done; [lia|]. apply Forall_app_2; [done|]. constructor; [done|constructor].
Qed.

Lemma enumerate_snoc {A} (l : list A) x : enumerate (l ++ [x]) = enumerate l ++ [(length l, x)].
Proof. unfold enumerate. rewrite imap_app. simpl. by rewrite Nat.add_0_r. Qed.

Lemma poc_loop_Ok seen rest :
  Forall (fun b => 0 <= b <= int_max I128 / 4) buckets -> 0 <= mid <= int_max I128 / 2 ->
  buckets = seen ++ rest -> seen <> [] ->
  exists st, try_fold (poc_step s bs buckets mid) (mkPocState 0 (-1) (int_max U128))
               (enumerate seen) = Ok st /\ poc_ok seen st.
Proof.
  intros Hb Hmid. revert rest. induction seen as [|b seen IH] using rev_ind; intros rest E Hne; [done|].
  rewrite enumerate_snoc, try_fold_app. cbn [try_fold].
  assert (buckets !! length seen = Some b) as Hlk.
  { rewrite E, <- app_assoc. by apply list_lookup_middle. }
  assert (0 <= b <= int_max I128 / 4) as Hbb.
  { rewrite Forall_forall in Hb. apply Hb. by eapply list_elem_of_lookup_2. }
  destruct (decide (seen = [])) as [->|Hn].
  - destruct (poc_step_Ok [] (mkPocState 0 (-1) (int_max U128)) 0 b) as (st & Hst & Ho); try done;
      [by left|].
    change (enumerate []) with (@nil (nat * Z)). cbn [try_fold rbind length]. rewrite Hst.
    exists st. split; [done|exact Ho].
  - destruct (IH (b :: rest)) as (st & Hst & Ho); [by rewrite E, <- app_assoc|done|].
    rewrite Hst. cbn [rbind].
    destruct (poc_step_Ok seen st (length seen) b) as (st' & Hst' & Ho'); try done; [by right|].
    rewrite Hst'. cbn [rbind]. eauto.
Qed.

(** *** The expansion *)

Definition segment (lower upper : nat) : list Z := take (S upper - lower) (drop lower buckets).

Lemma segment_down lower upper b :
  (lower <= upper)%nat -> (0 < lower)%nat -> buckets !! (lower - 1)%nat = Some b ->
  segment (lower - 1) upper = b :: segment lower upper.
Proof.
  intros Hle Hpos Hb. unfold segment. rewrite (drop_S _ _ _ Hb).
  replace (S upper - (lower - 1))%nat with (S (S upper - lower)) by lia.
  simpl take. by replace (S (lower - 1)) with lower by lia.
Qed.

Lemma segment_up lower upper b :
  (lower <= upper)%nat -> buckets !! (upper + 1)%nat = Some b ->
  segment lower (upper + 1) = segment lower upper ++ [b].
Proof.
  intros Hle Hb. unfold segment.
  replace (S (upper + 1) - lower)%nat with (S (S upper - lower)) by lia.
  apply take_S_r. rewrite lookup_drop. rewrite <- Hb. f_equal. lia.
Qed.

Lemma total_segment_down lower upper b :
  (lower <= upper)%nat -> (0 < lower)%nat -> buckets !! (lower - 1)%nat = Some b ->
  total_of (segment (lower - 1) upper) = total_of (segment lower upper) + act b.
Proof. intros. rewrite (segment_down _ _ b) by done. simpl. lia. Qed.

Lemma total_segment_up lower upper b :
  (lower <= upper)%nat -> buckets !! (upper + 1)%nat = Some b ->
  total_of (segment lower (upper + 1)) = total_of (segment lower upper) + act b.
Proof. intros. rewrite (segment_up _ _ b), total_of_app by done. simpl. lia. Qed.

Lemma segment_total_le lower upper : total_of (segment lower upper) <= total_of buckets.
Proof.
  apply total_of_submseteq, sublist_submseteq. unfold segment.
  etrans; [apply sublist_take|apply sublist_drop].
Qed.

Lemma bucket_at i : (i < length buckets)%nat -> buckets !! i = Some (buckets !!! i).
Proof. intros. by apply list_lookup_lookup_total_lt. Qed.

Lemma expand_add_Ok lower upper b v :
  total_of (segment lower upper) + act b = v -> v <= total_of buckets ->
  total_of buckets <= int_max I128 ->
  add_or I128 (total_of (segment lower upper)) (act b) "expanding value area" = Ok v.
Proof.
  intros <- Hle Hm. pose proof (act_nonneg b). pose proof (total_of_nonneg (segment lower upper)).
  apply add_or_fits. solve_fits.
Qed.

(** One round of the growth of a range that is still short: it takes in the
    neighbour with more activity, or the only one; of two equal neighbours the
    lower one, and the upper one as well when that was not enough. *)
Inductive widens (short : nat -> nat -> Prop) : nat * nat -> nat * nat -> Prop :=
  | widens_lower lo up : short lo up -> (0 < lo)%nat ->
      ((up + 1 < length buckets)%nat -> act (buckets !!! (up + 1)%nat) < act (buckets !!! (lo - 1)%nat)) ->
      widens short (lo, up) ((lo - 1)%nat, up)
  | widens_upper lo up : short lo up -> (up + 1 < length buckets)%nat ->
      ((0 < lo)%nat -> act (buckets !!! (lo - 1)%nat) < act (buckets !!! (up + 1)%nat)) ->
      widens short (lo, up) (lo, (up + 1)%nat)
  | widens_tie lo up : short lo up -> (0 < lo)%nat -> (up + 1 < length buckets)%nat ->
      act (buckets !!! (lo - 1)%nat) = act (buckets !!! (up + 1)%nat) -> ~ short (lo - 1)%nat up ->
      widens short (lo, up) ((lo - 1)%nat, up)
  | widens_both lo up : short lo up -> (0 < lo)%nat -> (up + 1 < length buckets)%nat ->
      act (buckets !!! (lo - 1)%nat) = act (buckets !!! (up + 1)%nat) -> short (lo - 1)%nat up ->
      widens short (lo, up) ((lo - 1)%nat, (up + 1)%nat).

Lemma widens_ext (short short' : nat -> nat -> Prop) r r' : (forall lo up, short lo up <-> short' lo up) ->
  widens short r r' -> widens short' r r'.
Proof.
  intros He H. destruct H.
  - by apply widens_lower; [apply He|..].
  - by apply widens_upper; [apply He|..].
  - by apply widens_tie; [apply He|..|intros ?%He].
  - by apply widens_both; [apply He|..|apply He].
Qed.

(** Growth is a function of the range it starts from. *)
Lemma widens_det short r r1 r2 : widens short r r1 -> widens short r r2 -> r1 = r2.
Proof. intros H1 H2. destruct H1; inversion H2; subst; try done; exfalso; intuition lia. Qed.

(** The loop grows the range round by round, and stops with enough activity
    selected, or with everything. *)
Lemma expand_Ok target fuel lower upper :
  total_of buckets <= int_max I128 ->
  (lower <= upper < length buckets)%nat ->
  (length buckets <= fuel + (upper - lower))%nat ->
  exists lo up,
    expand s bs buckets target fuel (total_of (segment lower upper)) lower upper = Ok (lo, up) /\
    rtc (widens (fun lo up => total_of (segment lo up) < target)) (lower, upper) (lo, up) /\
    (lo <= lower)%nat /\ (upper <= up < length buckets)%nat /\
    (target <= total_of (segment lo up) \/ (lo = 0 /\ up + 1 = length buckets)%nat).
Proof.
  intros Hm. revert lower upper. induction fuel as [|fuel IH]; intros lower upper Hr Hf; [lia|].
  cbn [expand]. destruct (Z.ltb_spec (total_of (segment lower upper)) target) as [Hlt|Hge];
    cbn [negb]; [|exists lower, upper; repeat split; try done; try lia; by left].
  rewrite !activity_act. cbn [rmap]. set (short := fun lo up => total_of (segment lo up) < target).
  assert (forall lower' upper', widens short (lower, upper) (lower', upper') ->
    (lower' <= lower)%nat -> (upper <= upper' < length buckets)%nat ->
    (S (upper - lower) <= upper' - lower')%nat ->
    exists lo up,
      expand s bs buckets target fuel (total_of (segment lower' upper')) lower' upper' = Ok (lo, up) /\
      rtc (widens short) (lower, upper) (lo, up) /\
      (lo <= lower)%nat /\ (upper <= up < length buckets)%nat /\
      (target <= total_of (segment lo up) \/ (lo = 0 /\ up + 1 = length buckets)%nat)) as Hgo.
  { intros lower' upper' Hw H1 H2 H3. destruct (IH lower' upper') as (lo & up & E & G0 & G1 & G2 & G3);
      [lia|lia|]. exists lo, up. split; [done|]. split; [by eapply rtc_l|]. repeat split; try done; lia. }
  destruct (Nat.ltb_spec 0 lower) as [Hlo|Hlo]; cbn [rbind];
    destruct (Nat.ltb_spec (upper + 1) (length buckets)) as [Hup|Hup]; cbn [rbind].
  - pose proof (total_segment_down lower upper _ ltac:(lia) Hlo (bucket_at (lower - 1) ltac:(lia))) as Ed.
    pose proof (total_segment_up lower upper _ ltac:(lia) (bucket_at _ Hup)) as Eu.
    pose proof (segment_total_le (lower - 1) upper). pose proof (segment_total_le lower (upper + 1)).
    destruct (Z.eqb_spec (act (buckets !!! (lower - 1)%nat)) (act (buckets !!! (upper + 1)%nat))) as [Hq|Hq].
    + rewrite (expand_add_Ok _ _ _ _ (eq_sym Ed)) by lia. cbn [rbind].
      destruct (Z.ltb_spec (total_of (segment (lower - 1) upper)) target) as [Ht|Ht].
      * pose proof (total_segment_up (lower - 1) upper _ ltac:(lia) (bucket_at _ Hup)) as Eu'.
        pose proof (segment_total_le (lower - 1) (upper + 1)).
        rewrite (expand_add_Ok _ _ _ _ (eq_sym Eu')) by lia. apply Hgo; [by apply widens_both|lia..].
      * apply Hgo; [apply widens_tie; try done; unfold short; lia|lia..].
    + destruct (Z.ltb_spec (act (buckets !!! (upper + 1)%nat)) (act (buckets !!! (lower - 1)%nat))) as [Hc|Hc].
      * rewrite (expand_add_Ok _ _ _ _ (eq_sym Ed)) by lia. apply Hgo; [by apply widens_lower|lia..].
      * rewrite (expand_add_Ok _ _ _ _ (eq_sym Eu)) by lia. apply Hgo; [apply widens_upper; try done; lia|lia..].
  - pose proof (total_segment_down lower upper _ ltac:(lia) Hlo (bucket_at (lower - 1) ltac:(lia))) as Ed.
    pose proof (segment_total_le (lower - 1) upper).
    rewrite (expand_add_Ok _ _ _ _ (eq_sym Ed)) by lia. apply Hgo; [apply widens_lower; try done; lia|lia..].
  - pose proof (total_segment_up lower upper _ ltac:(lia) (bucket_at _ Hup)) as Eu.
    pose proof (segment_total_le lower (upper + 1)).
    rewrite (expand_add_Ok _ _ _ _ (eq_sym Eu)) by lia. apply Hgo; [apply widens_upper; try done; lia|lia..].
  - exists lower, upper. repeat split; try done; try lia.
Qed.

Lemma segment_all up : (up + 1 = length buckets)%nat -> segment 0 up = buckets.
Proof. intros E. unfold segment. rewrite drop_0. apply take_ge. lia. Qed.

Lemma sorted_lookup_le i j x y :
  StronglySorted Z.lt buckets -> (i <= j)%nat ->
  buckets !! i = Some x -> buckets !! j = Some y -> x <= y.
Proof.
  intros Hsort. revert i j. induction Hsort as [|b l _ IH Hb]; intros i j Hij Hi Hj; [done|].
  destruct j as [|j].
  - assert (i = 0%nat) as -> by lia. simpl in *. simplify_eq. lia.
  - destruct i as [|i]; simpl in *; [|by apply (IH i j); [lia|..]].
    injection Hi as ->. rewrite Forall_forall in Hb. apply Z.lt_le_incl, Hb.
    by eapply list_elem_of_lookup_2.
Qed.

(** A segment is among the buckets between its end points. *)
Lemma segment_between lower upper :
  StronglySorted Z.lt buckets -> (lower <= upper < length buckets)%nat ->
  segment lower upper ⊆+
  filter (fun b => buckets !!! lower <= b <= buckets !!! upper) buckets.
Proof.
  intros Hsort Hr. apply NoDup_submseteq.
  - eapply sublist_NoDup; [|unfold segment; etrans; [apply sublist_take|apply sublist_drop]].
    clear -Hsort. induction Hsort as [|b l _ IH Hb]; constructor; [|done].
    intros Hin. rewrite Forall_forall in Hb. specialize (Hb b Hin). lia.
  - intros x Hx. unfold segment in Hx. apply list_elem_of_lookup in Hx as [k Hk].
    apply lookup_take_Some in Hk as [Hk Hkn]. rewrite lookup_drop in Hk.
    apply list_elem_of_filter. split; [|by eapply list_elem_of_lookup_2].
    split.
    + apply (sorted_lookup_le lower (lower + k)); [done|lia|apply bucket_at; lia|done].
    + apply (sorted_lookup_le (lower + k) upper); [done|lia|done|apply bucket_at; lia].
Qed.
End ValueArea.

Lemma keys_sorted {V} (m : BTreeMap Z V) : BTreeMap.wf m -> StronglySorted Z.lt (BTreeMap.keys m).
Proof.
  unfold BTreeMap.wf, BTreeMap.keys. induction 1 as [|x l _ IH Hf]; simpl; constructor; [done|].
  apply Forall_fmap. eapply Forall_impl; [exact Hf|]. intros y H.
  unfold BTreeMap.key_lt, cmp, ord_Z in H. by apply Z.compare_lt_iff.
Qed.

Lemma ceil_target total bps : 0 <= total -> 1 <= bps <= 10000 ->
  let target := (total * bps + 9999) ÷ 10000 in
  target <= total /\ forall x, target <= x <-> total * bps <= 10000 * x.
Proof.
  intros Ht Hb target. unfold target. rewrite Z.quot_div_nonneg by nia.
  pose proof (Z.div_mod (total * bps + 9999) 10000 ltac:(lia)).
  pose proof (Z.mod_pos_bound (total * bps + 9999) 10000 ltac:(lia)).
  split; [|intros x; split; intros Hx; lia]. nia.
Qed.

(** A range of buckets that carries less than the configured share of the activity. *)
Definition short_of_share (s : SessionProfileBuilder) (bs : ValueAreaBasis) (buckets : list Z) (lo up : nat) : Prop :=
  10000 * total_of s bs (segment buckets lo up) < total_of s bs buckets * value_area_bps (config s).

(** C35. The value area is computed whenever the sums fit their width, and it
    is the one grown from the point of control.  The point of control is a
    traded bucket of maximal activity (ties go to the bucket nearest the middle
    of the range, then to the lower one).  From it the range grows round by
    round, only while it carries less than the configured share of the total
    activity, each time by the neighbouring bucket with more activity (the only
    one at an end of the range; of two equal ones the lower, and the upper as
    well when the lower is not enough); the range returned carries the
    share. *)
Theorem value_area_covers s bs :
  profile_inv s -> volume_by_level s <> [] ->
  let buckets := BTreeMap.keys (volume_by_level s) in
  let mid := buckets !!! 0%nat + default 0 (last buckets) in
  Forall (fun b => 0 <= b <= int_max I128 / 4) buckets ->
  total_of s bs buckets * value_area_bps (config s) + 9999 <= int_max I128 ->
  exists poc val vah i lo up,
    value_area s bs = Ok (Some poc, Some val, Some vah) /\
    buckets !! i = Some poc /\ buckets !! lo = Some val /\ buckets !! up = Some vah /\ val <= poc <= vah /\
    Forall (preferred s bs mid poc) buckets /\
    rtc (widens s bs buckets (short_of_share s bs buckets)) (i, i) (lo, up) /\ ~ short_of_share s bs buckets lo up /\
    total_of s bs buckets * value_area_bps (config s) <=
      10000 * total_of s bs (filter (fun b => val <= b <= vah) buckets).
Proof.
  intros Hs Hne buckets mid Hb Hfit. unfold value_area.
  rewrite bool_decide_eq_false_2 by done. fold buckets.
  assert (buckets <> []) as Hnb by (unfold buckets; by destruct (volume_by_level s)).
  pose proof (keys_sorted _ (prof_volume_wf _ Hs)) as Hsort. fold buckets in Hsort.
  destruct (last buckets) as [hi|] eqn:Hlast; [|by apply last_None in Hlast].
  assert (0 <= hi <= int_max I128 / 4) as Hhi.
  { rewrite Forall_forall in Hb. apply Hb. apply last_Some in Hlast as [l ->].
    apply elem_of_app. right. left. }
  assert (0 <= buckets !!! 0%nat <= int_max I128 / 4) as Hlow.
  { rewrite Forall_forall in Hb. apply Hb. destruct buckets; [done|]. left. }
  change (int_max I128 / 4) with 42535295865117307932921825928971026431 in Hhi, Hlow.
  cbn [ok_or rbind]. rewrite add_or_fits by solve_fits. cbn [rbind].
  change (buckets !!! 0%nat + hi) with mid.
  destruct (poc_loop_Ok s bs Hs buckets mid buckets []) as (st & Hst & poc & L & I & A & _ & Hpref);
    [done| |by rewrite app_nil_r|done|].
  { unfold mid. simpl default. change (int_max I128 / 2) with 85070591730234615865843651857942052863. lia. }
  rewrite Hst. cbn [rbind]. destruct (prof_config _ Hs) as ((B1 & B2) & _).
  pose proof (total_of_nonneg s bs Hs buckets) as Ht0.
  assert (total_of s bs buckets <= int_max I128) as Htm by nia.
  rewrite (total_activity_Ok s bs Hs) by lia. cbn [rbind]. rewrite Z.add_0_l.
  rewrite mul_or_fits by (unfold fits; simpl in *; nia). cbn [rbind].
  rewrite add_or_fits by (unfold fits; simpl in *; nia). cbn [rbind].
  destruct (ceil_target _ _ Ht0 (conj B1 B2)) as [Htle Hcover].
  destruct (expand_Ok s bs Hs buckets ((total_of s bs buckets * value_area_bps (config s) + 9999) ÷ 10000)
    (length buckets) (poc_index st) (poc_index st)) as (lo & up & He & G0 & G1 & G2 & G3); [done|lia|lia|].
  assert (segment buckets (poc_index st) (poc_index st) = [poc]) as Hseg.
  { unfold segment. rewrite (drop_S _ _ _ L).
    by replace (S (poc_index st) - poc_index st)%nat with 1%nat by lia. }
  rewrite Hseg in He. simpl total_of in He. rewrite Z.add_0_r in He. rewrite A, He. cbn [rbind].
  rewrite (list_lookup_total_correct _ _ _ L).
  exists poc, (buckets !!! lo), (buckets !!! up), (poc_index st), lo, up.
  split; [done|]. split; [done|]. split; [apply bucket_at; lia|]. split; [apply bucket_at; lia|].
  split.
  { split; [apply (sorted_lookup_le buckets lo (poc_index st))|
            apply (sorted_lookup_le buckets (poc_index st) up)]; try done; try lia; apply bucket_at; lia. }
  split; [done|].
  assert (Hshort : forall lo up, total_of s bs (segment buckets lo up) <
      (total_of s bs buckets * value_area_bps (config s) + 9999) ÷ 10000 <-> short_of_share s bs buckets lo up).
  { intros l u. unfold short_of_share. specialize (Hcover (total_of s bs (segment buckets l u))). lia. }
  assert (~ short_of_share s bs buckets lo up) as Hend.
  { rewrite <- Hshort. destruct G3 as [G3|[-> Hup]]; [lia|]. rewrite segment_all by done. lia. }
  split; [|split; [done|]].
  { eapply rtc_subrel; [|exact G0]. intros r r'. apply widens_ext. exact Hshort. }
  pose proof (total_of_submseteq s bs Hs _ _ (segment_between buckets lo up Hsort ltac:(lia))) as Hsub.
  unfold short_of_share in Hend. lia.
Qed.

Lemma value_area_covers_witness :
  exists poc val vah,
    value_area busy_profile Volume = Ok (Some poc, Some val, Some vah) /\
    (poc, val, vah) = (101, 101, 102) /\ val <= poc <= vah.
Proof.
  destruct (value_area_covers busy_profile Volume) as (poc & val & vah & i & lo & up & H1 & _ & _ & _ & H2 & _).
  - apply busy_profile_inv.
  - vm_compute. congruence.
  - assert (BTreeMap.keys (volume_by_level busy_profile) = [100; 101; 102; 103]) as ->
      by (vm_compute; reflexivity).
    repeat first [apply Forall_nil_2 | apply Forall_cons_2; [vm_compute; split; congruence|]].
  - vm_compute. congruence.
  - exists poc, val, vah. split; [exact H1|]. split; [|exact H2].
    assert (value_area busy_profile Volume = Ok (Some 101, Some 101, Some 102)) as E
      by (vm_compute; reflexivity).
    rewrite E in H1. congruence.
Defined.

(** ** Volume and TPO counts as facts about the trades *)

Definition ptrade : Type := Z * Price * Quantity.
Definition pt_ts (tr : ptrade) : Z := tr.1.1.
Definition pt_bucket (g : GridSpec) (tr : ptrade) : option Z := ok (price_bucket g tr.1.2).
Definition pt_units (g : GridSpec) (tr : ptrade) : Z := default 0 (ok (quantity_units g tr.2)).
Definition pt_period (t : TimeframeSpec) (tr : ptrade) : Z :=
  period_start_i128 (pt_ts tr) (anchor_ns t) (tpo_ns t).

(** The units traded in a bucket, and the distinct periods it traded in. *)
Definition bucket_volume (g : GridSpec) (b : Z) (trs : list ptrade) : Z :=
  foldl (fun acc tr => acc + if bool_decide (pt_bucket g tr = Some b) then pt_units g tr else 0)
    0 trs.

Definition bucket_periods (g : GridSpec) (t : TimeframeSpec) (b : Z) (trs : list ptrade)
    : list Z :=
  foldl (fun acc tr =>
           if bool_decide (pt_bucket g tr = Some b) && negb (bool_decide (pt_period t tr ∈ acc))
           then pt_period t tr :: acc else acc) [] trs.

(** A run of trades all accepted into one session. *)
Definition paccept_all (trs : list ptrade) (s : SessionProfileBuilder)
    : option SessionProfileBuilder :=
  foldl (fun acc tr =>
           s ← acc;
           match profile_ingest (pt_ts tr) tr.1.2 tr.2 s with
           | (Ok None, s') => Some s'
           | _ => None
           end) (Some s) trs.

Definition ptrade_ok (t : TimeframeSpec) (tr : ptrade) : Prop :=
  pt_ts tr + session_ns t <= int_max I64 /\ fixed_ok (qty0 tr.2).

Lemma get_or_bump m bs b :
  NoDup bs ->
  BTreeMap.get_or (bump m bs) b 0 =
  BTreeMap.get_or m b 0 + if bool_decide (b ∈ bs) then 1 else 0.
Proof.
  revert m. induction bs as [|x bs IH]; intros m Hnd.
  - simpl. lia.
  - apply NoDup_cons in Hnd as [Hx Hnd].
    change (bump m (x :: bs)) with (bump (BTreeMap.insert m x (BTreeMap.get_or m x 0 + 1)) bs).
    rewrite IH by done. rewrite BTreeMap.get_or_insert, cmp_Eq_case.
    destruct (decide (x = b)) as [->|E].
    + rewrite bool_decide_eq_false_2 by done. rewrite bool_decide_eq_true_2 by left. lia.
    + rewrite (bool_decide_ext (b ∈ x :: bs) (b ∈ bs)) by (rewrite elem_of_cons; naive_solver).
      done.
Qed.

Lemma closed_count s b :
  BTreeMap.wf (current_tpo_levels s) ->
  BTreeMap.get_or (tpo_by_level (closed s)) b 0 =
  BTreeMap.get_or (tpo_by_level s) b 0 +
  if bool_decide (b ∈ BTreeMap.keys (current_tpo_levels s)) then 1 else 0.
Proof.
  intros Hwf. unfold closed. case_bool_decide as E; simpl.
  - rewrite E. rewrite bool_decide_eq_false_2 by apply not_elem_of_nil. lia.
  - apply get_or_bump. by apply BTreeMap.keys_NoDup.
Qed.

(** What the accumulators say about the trades so far. *)
Record tally (g : GridSpec) (t : TimeframeSpec) (trs : list ptrade) (s : SessionProfileBuilder)
    : Prop := {
  tally_volume : forall b, BTreeMap.get_or (volume_by_level s) b 0 = bucket_volume g b trs;
  tally_count : forall b, BTreeMap.get_or (tpo_by_level (closed s)) b 0 =
                          Z.of_nat (length (bucket_periods g t b trs));
  tally_current : forall b ct, current_tpo_start s = Some ct ->
    (b ∈ BTreeMap.keys (current_tpo_levels s) <-> ct ∈ bucket_periods g t b trs);
  tally_bound : forall b p ct, current_tpo_start s = Some ct ->
    p ∈ bucket_periods g t b trs -> p <= ct;
  tally_idle : session_start s = None -> trs = []
}.

Lemma bucket_volume_snoc g b trs tr b0 q :
  pt_bucket g tr = Some b0 -> pt_units g tr = q ->
  bucket_volume g b (trs ++ [tr]) = bucket_volume g b trs + if decide (b0 = b) then q else 0.
Proof.
  intros Hb Hq. unfold bucket_volume. rewrite foldl_app. simpl. rewrite Hb, Hq. f_equal.
  case_bool_decide; case_decide; congruence.
Qed.

Lemma bucket_periods_snoc g t b trs tr b0 tp :
  pt_bucket g tr = Some b0 -> pt_period t tr = tp ->
  bucket_periods g t b (trs ++ [tr]) =
  if decide (b0 = b /\ tp ∉ bucket_periods g t b trs) then tp :: bucket_periods g t b trs
  else bucket_periods g t b trs.
Proof.
  intros Hb Ht. unfold bucket_periods. rewrite foldl_app. simpl. rewrite Hb, Ht.
  repeat case_bool_decide; case_decide; simpl; naive_solver.
Qed.

(** Adding a trade to a builder whose open period is [tp]. *)
Lemma tally_add g t trs tr s b0 p q tp se :
  tally g t trs s -> BTreeMap.wf (current_tpo_levels s) -> BTreeMap.wf (volume_by_level s) ->
  current_tpo_start s = Some tp \/ (current_tpo_levels s = [] /\
    forall b x, x ∈ bucket_periods g t b trs -> x < tp) ->
  pt_bucket g tr = Some b0 -> pt_units g tr = q -> pt_period t tr = tp ->
  tally g t (trs ++ [tr]) (add_stamped (pt_ts tr) b0 p q (start_session se tp s)).
Proof.
  intros [H1 H2 H3 H4 _] Hwf Hvw Hopen Hb Hq Hp.
  assert (forall b, b ∈ BTreeMap.keys (current_tpo_levels s) <-> tp ∈ bucket_periods g t b trs)
    as Hcur.
  { intros b. destruct Hopen as [Ho|[Ho Hlt]]; [by apply H3|]. rewrite Ho. split.
    - intros Hin. by apply not_elem_of_nil in Hin.
    - intros Hin. apply Hlt in Hin. lia. }
  assert (forall b x, x ∈ bucket_periods g t b trs -> x <= tp) as Hbound.
  { intros b x Hx. destruct Hopen as [Ho|[Ho Hlt]]; [by apply (H4 b)|]. apply Hlt in Hx. lia. }
  split.
  - intros b. rewrite (bucket_volume_snoc g b trs tr b0 q) by done. simpl.
    rewrite BTreeMap.get_or_insert, cmp_Eq_case. case_decide; [subst; by rewrite H1|].
    rewrite H1. lia.
  - intros b. rewrite (bucket_periods_snoc g t b trs tr b0 tp) by done.
    rewrite closed_count by (by apply BTreeMap.wf_insert). simpl. unfold BTreeSet.insert.
    specialize (H2 b). rewrite closed_count in H2 by done.
    rewrite (bool_decide_ext _ (b = b0 \/ b ∈ BTreeMap.keys (current_tpo_levels s)))
      by apply BTreeMap.keys_insert.
    specialize (Hcur b). repeat case_bool_decide; case_decide; simpl; naive_solver lia.
  - intros b ct [= <-]. rewrite (bucket_periods_snoc g t b trs tr b0 tp) by done. simpl.
    unfold BTreeSet.insert. rewrite BTreeMap.keys_insert, Hcur.
    destruct (decide (b0 = b /\ _)) as [[-> Hn]|Hn]; [rewrite elem_of_cons; tauto|].
    split; [|tauto]. intros [->|Hin]; [|done].
    destruct (decide (tp ∈ bucket_periods g t b0 trs)); tauto.
  - intros b x ct [= <-]. rewrite (bucket_periods_snoc g t b trs tr b0 tp) by done.
    case_decide; [|by apply Hbound]. intros [->|Hx]%elem_of_cons; [lia|by apply (Hbound b)].
  - done.
Qed.

Lemma closed_idle s : current_tpo_levels s = [] ->
  closed s = s ⟪ current_tpo_high := None ⟫ ⟪ current_tpo_low := None ⟫.
Proof. intros E. unfold closed. by rewrite bool_decide_eq_true_2. Qed.

(** The tally does not depend on the session fields being open. *)
Lemma tally_closed g t trs s ct :
  tally g t trs s -> current_tpo_start s = Some ct -> session_start s <> None ->
  tally g t trs ((closed s) ⟪ current_tpo_start := None ⟫).
Proof.
  intros [H1 H2 H3 H4 H5] Hct Hss.
  destruct (closed_fields s) as (_ & _ & _ & F4 & F5 & _ & _ & _ & F9). split; simpl.
  - intros b. by rewrite F5.
  - intros b. rewrite closed_idle by (simpl; done). simpl. apply H2.
  - done.
  - done.
  - rewrite F4. done.
Qed.

Lemma profile_decode_parts s ts pr qt b p q se tp :
  profile_decode s ts pr qt = Ok (b, p, q, se, tp) ->
  pt_bucket (grid s) (ts, pr, qt) = Some b /\ pt_units (grid s) (ts, pr, qt) = q /\
  pt_period (time s) (ts, pr, qt) = tp.
Proof.
  unfold profile_decode, pt_bucket, pt_units, pt_period. intros H. ares. simpl.
  repeat match goal with
  | Hx : price_bucket _ _ = Ok _ |- _ => rewrite Hx; clear Hx
  | Hx : quantity_units _ _ = Ok _ |- _ => rewrite Hx; clear Hx
  | Hx : checked_tpo_start _ _ = Ok _ |- _ => apply period_start_checked_Ok in Hx as [-> _]
  end. done.
Qed.

Lemma tally_step g t trs tr s s' :
  profile_inv s -> grid s = g -> time s = t -> tally g t trs s -> ptrade_ok t tr ->
  profile_ingest (pt_ts tr) tr.1.2 tr.2 s = (Ok None, s') ->
  tally g t (trs ++ [tr]) s' /\ grid s' = g.
Proof.
  intros Hs <- <- Ht [Hts Hq] Hrun. destruct tr as [[ts pr] qt].
  change (pt_ts (ts, pr, qt)) with ts in *. simpl in Hq, Hrun.
  pose proof (profile_ingest_cases ts pr qt s (prof_current_wf _ Hs)) as Ho.
  rewrite Hrun in Ho. simpl in Ho.
  inversion Ho as [|b p q se tp Hd Hn Hpf|b p q se tp cur Hd Hss Hct Hle Hpf Hcl|]; subst;
    destruct (profile_decode_parts _ _ _ _ _ _ _ _ _ Hd) as (D1 & D2 & D3).
  - split; [|done]. pose proof (prof_lifecycle _ Hs) as Hl. unfold lifecycle_ok in Hl.
    rewrite Hn in Hl. destruct (current_tpo_start s) eqn:Ec; [done|].
    apply (tally_add _ _ trs (ts, pr, qt)); try done; [apply Hs|apply Hs|].
    right. split; [apply Hl|]. rewrite (tally_idle _ _ _ _ Ht Hn). intros b' x Hx.
    by apply not_elem_of_nil in Hx.
  - unfold opened. rewrite Hct. destruct (Z.ltb_spec cur tp).
    + destruct (closed_fields s) as (F1 & F2 & _ & F4 & F5 & _ & _ & F8 & F9).
      split; [|by simpl; rewrite F1].
      assert (((closed s) ⟪ current_tpo_start := Some tp ⟫) =
              start_session se tp ((closed s) ⟪ current_tpo_start := None ⟫)) as ->
        by (unfold start_session; simpl; by rewrite F4, Hss).
      apply (tally_add _ _ trs (ts, pr, qt)); try done; simpl.
      * apply (tally_closed _ _ _ _ cur); try done. by rewrite Hss.
      * rewrite F9. apply BTreeMap.wf_empty.
      * rewrite F5. apply Hs.
      * right. split; [done|]. intros b' x Hx.
        pose proof (tally_bound _ _ _ _ Ht b' x cur Hct Hx). lia.
    + assert (cur = tp) as -> by lia. split; [|done].
      pose proof (tally_add (grid s) (time s) trs (ts, pr, qt) s b p q tp se Ht
        (prof_current_wf _ Hs) (prof_volume_wf _ Hs) (or_introl Hct) D1 D2 D3) as Ha.
      by rewrite (start_session_id se tp s) in Ha.
Qed.

(** Within a session the profile is exactly the trades that went into
    it: the volume of every bucket is the sum of the units traded there, and
    its TPO count, once the open period is closed as every snapshot does, is
    the number of distinct periods in which it traded. *)
Theorem profile_counts_exact g t c s0 trs s :
  grid_ok g -> timeframe_ok t -> pconfig_ok c -> Forall (ptrade_ok t) trs ->
  profile_new g t c = Ok s0 -> paccept_all trs s0 = Some s ->
  forall b,
    BTreeMap.get_or (volume_by_level s) b 0 = bucket_volume g b trs /\
    BTreeMap.get_or (tpo_by_level (closed s)) b 0 = Z.of_nat (length (bucket_periods g t b trs)).
Proof.
  intros Hg Htm Hc Htrs H0 Hrun.
  assert (profile_inv s /\ grid s = g /\ time s = t /\ tally g t trs s) as (_ & _ & _ & Ht).
  { revert s Hrun. apply profile_new_Ok in H0 as ->.
    induction trs as [|tr trs IH] using rev_ind; intros s Hrun.
    - injection Hrun as <-. split; [by apply empty_profile_inv|]. repeat split; try done.
    - unfold paccept_all in Hrun. rewrite foldl_app in Hrun. fold (paccept_all trs) in Hrun.
      apply Forall_app in Htrs as [Htrs Htr]. apply Forall_cons in Htr as [Htr _].
      cbn [foldl] in Hrun. apply bind_Some in Hrun as (s1 & Hrun1 & Hrun).
      destruct (IH Htrs s1 Hrun1) as (I1 & I2 & I3 & I4).
      destruct (profile_ingest _ _ _ s1) as [[[?|]|] s2] eqn:Hi; try done. injection Hrun as <-.
      destruct (tally_step g t trs tr s1 s2 I1 I2 I3 I4 Htr Hi) as [T1 T2].
      pose proof (profile_ingest_inv (pt_ts tr) tr.1.2 tr.2 s1 I1) as I1'.
      pose proof (profile_step_time (PIngest (pt_ts tr) tr.1.2 tr.2) s1 (prof_current_wf _ I1)) as I3'.
      simpl in I3'. rewrite Hi in I1', I3'. simpl in *. split; [|split; [done|split; [congruence|done]]].
      apply I1'. unfold profile_input_ok. rewrite I3. exact Htr. }
  intros b. split; apply Ht.
Qed.

Definition sample_ptrades : list ptrade :=
  [(5, mkPrice (mkFixed 10000 2), mkQuantity (mkFixed 30 3));
   (20, mkPrice (mkFixed 10200 2), mkQuantity (mkFixed 50 3));
   (130, mkPrice (mkFixed 10025 2), mkQuantity (mkFixed 60 3));
   (150, mkPrice (mkFixed 10000 2), mkQuantity (mkFixed 10 3))].

Definition counted_profile : SessionProfileBuilder :=
  default sample_profile (paccept_all sample_ptrades sample_profile).

Lemma profile_counts_exact_witness :
  BTreeMap.get_or (volume_by_level counted_profile) 100 0 =
    bucket_volume sample_grid 100 sample_ptrades /\
  BTreeMap.get_or (tpo_by_level (closed counted_profile)) 100 0 =
    Z.of_nat (length (bucket_periods sample_grid (time sample_profile) 100 sample_ptrades)).
Proof.
  apply (profile_counts_exact sample_grid (time sample_profile) sample_pconfig sample_profile
           sample_ptrades counted_profile).
  - apply sample_grid_ok.
  - apply timeframe_validate_Ok. reflexivity.
  - apply sample_pconfig_ok.
  - do 4 (apply Forall_cons_2; [split; [vm_compute; congruence|split; solve_fits]|]).
    apply Forall_nil_2.
  - reflexivity.
  - vm_compute. reflexivity.
Defined.

Example counted_profile_100 :
  (BTreeMap.get_or (volume_by_level counted_profile) 100 0,
   BTreeMap.get_or (tpo_by_level (closed counted_profile)) 100 0) = (100, 2).
Proof. vm_compute. reflexivity. Qed.
