(* ===== verification/Bubbles.v ===== *)
(** * Order-flow bubbles ([crates/analytics/src/bubbles.rs])

    Detection of unusually strong price buckets of a candle in three strict
    priority tiers, against manual thresholds or thresholds adapted to a
    bounded history of finalised candles, with ranking, truncation and the
    merging of neighbouring bubbles. *)

From stdpp Require Import base tactics numbers strings option relations list sorting.
From Stdlib Require Import ZArith Lia.
From S2P Require Import Prelude Bytes Collections Fixed Model AnalyticsCore CandleFlow.

Local Open Scope Z_scope.

(** ** Configuration *)

Inductive BubbleMode := ModeVolume | ModeDelta.

Inductive BubbleTier := F1 | F2 | F3.

#[export] Instance BubbleMode_eq_dec : EqDecision BubbleMode.
Proof. solve_decision. Defined.
#[export] Instance BubbleTier_eq_dec : EqDecision BubbleTier.
Proof. solve_decision. Defined.
#[export] Instance FlowState_eq_dec : EqDecision FlowState.
Proof. solve_decision. Defined.

Definition priority (self : BubbleTier) : Z :=
  match self with F1 => 1 | F2 => 2 | F3 => 3 end.

Definition tier_index (self : BubbleTier) : nat :=
  match self with F1 => 0%nat | F2 => 1%nat | F3 => 2%nat end.

#[export] Instance priority_inj : Inj (=) (=) priority.
Proof. intros [] []; done. Qed.

#[export] Instance ord_BubbleTier : Ord BubbleTier := cmp_by priority.
#[export] Instance ord_laws_BubbleTier : OrdLaws BubbleTier := ord_laws_by priority.

Inductive BubbleShape := Circle | Square | Diamond.
Inductive LabelMode := LabelOff | LabelRaw.

Record BubbleStyle := mkBubbleStyle {
  bs_shape : BubbleShape;
  bs_min_size : Z;
  bs_max_size : Z;
  bs_volume_cap : Quantity;
  bs_delta_cap : Quantity;
  bs_label_mode : LabelMode
}.

Definition style_new (shape : BubbleShape) (min_size max_size : Z)
    (volume_cap delta_cap : Quantity) (label_mode : LabelMode)
    : result BubbleStyle AnalyticsError :=
  if (min_size =? 0) || (max_size <? min_size) then
    Err (invalid_config "bubble size" "min_size must be positive and no greater than max_size")
  else if (coefficient (qty0 volume_cap) <=? 0) || (coefficient (qty0 delta_cap) <=? 0) then
    Err (invalid_config "bubble strength cap" "volume and delta caps must be positive")
  else Ok (mkBubbleStyle shape min_size max_size volume_cap delta_cap label_mode).

Definition style_validate (self : BubbleStyle) : result unit AnalyticsError :=
  rmap (fun _ => tt)
    (style_new (bs_shape self) (bs_min_size self) (bs_max_size self) (bs_volume_cap self)
       (bs_delta_cap self) (bs_label_mode self)).

Inductive AdaptivePreset :=
  | UltraPermissive | Permissive | Balanced | Strict
  | VeryStrict | UltraStrict | Extreme | Custom.

Definition percentile_bps (self : AdaptivePreset) (custom : Z) : Z :=
  match self with
  | UltraPermissive => 4500
  | Permissive => 6000
  | Balanced => 7500
  | Strict => 8500
  | VeryStrict => 9000
  | UltraStrict => 9500
  | Extreme => 9900
  | Custom => custom
  end.

Record AdaptiveThreshold := mkAdaptiveThreshold {
  at_preset : AdaptivePreset;
  at_custom_percentile_bps : Z;
  at_minimum_floor : option Quantity;
  at_minimum_samples : Z;
  at_calibration_candles : Z;
  at_outlier_cap_percentile_bps : Z;
  at_spike_adaptation_bps : Z
}.

Definition adaptive_new (preset : AdaptivePreset) (custom_percentile_bps : Z)
    (minimum_floor : option Quantity) (minimum_samples calibration_candles
     outlier_cap_percentile_bps spike_adaptation_bps : Z)
    : result AdaptiveThreshold AnalyticsError :=
  try_fold (fun _ '(field, value) =>
      if 10000 <? value then Err (invalid_config field "must be between 0 and 10,000") else Ok tt)
    tt
    [("custom_percentile_bps", custom_percentile_bps);
     ("outlier_cap_percentile_bps", outlier_cap_percentile_bps);
     ("spike_adaptation_bps", spike_adaptation_bps)] ?;
  if (minimum_samples =? 0) || (calibration_candles =? 0) then
    Err (invalid_config "adaptive history"
           "minimum_samples and calibration_candles must be positive")
  else if from_option (fun value => coefficient (qty0 value) <=? 0) false minimum_floor then
    Err (invalid_config "minimum_floor" "must be positive when configured")
  else
    Ok (mkAdaptiveThreshold preset custom_percentile_bps minimum_floor minimum_samples
          calibration_candles outlier_cap_percentile_bps spike_adaptation_bps).

Definition adaptive_validate (self : AdaptiveThreshold) : result unit AnalyticsError :=
  rmap (fun _ => tt)
    (adaptive_new (at_preset self) (at_custom_percentile_bps self) (at_minimum_floor self)
       (at_minimum_samples self) (at_calibration_candles self)
       (at_outlier_cap_percentile_bps self) (at_spike_adaptation_bps self)).

Inductive ThresholdMode :=
  | ThresholdOff
  | Manual (quantity : Quantity)
  | Adaptive (config : AdaptiveThreshold).

Record BubbleFilter := mkBubbleFilter {
  bf_tier : BubbleTier;
  bf_mode : BubbleMode;
  bf_threshold : ThresholdMode;
  bf_sources : SourceSelector;
  bf_max_bubbles_per_candle : Z;
  bf_style : BubbleStyle
}.

Definition filter_new (tier : BubbleTier) (mode : BubbleMode) (threshold : ThresholdMode)
    (sources : SourceSelector) (max_bubbles_per_candle : Z) (style : BubbleStyle)
    : result BubbleFilter AnalyticsError :=
  if max_bubbles_per_candle =? 0 then
    Err (invalid_config "max_bubbles_per_candle" "must be positive")
  else if match threshold with
          | Manual value => coefficient (qty0 value) <=? 0
          | _ => false
          end then
    Err (invalid_config "manual threshold" "must be positive")
  else
    match threshold with
    | Adaptive config => adaptive_validate config
    | _ => Ok tt
    end ?;
    selector_validate sources ?;
    style_validate style ?;
    Ok (mkBubbleFilter tier mode threshold sources max_bubbles_per_candle style).

Definition filter_validate (self : BubbleFilter) (expected : BubbleTier)
    : result unit AnalyticsError :=
  if negb (bool_decide (bf_tier self = expected)) then
    Err (invalid_config "bubble tier" "filter tier does not match its configuration slot")
  else
    rmap (fun _ => tt)
      (filter_new (bf_tier self) (bf_mode self) (bf_threshold self) (bf_sources self)
         (bf_max_bubbles_per_candle self) (bf_style self)).

(** The array [enabled_tiers : [bool; 3]], indexed by tier. *)
Record MergeConfig := mkMergeConfig {
  mc_enabled_tiers : bool * bool * bool;
  mc_max_distance_buckets : Z;
  mc_style : BubbleStyle
}.

Definition merge_config_new (enabled_tiers : bool * bool * bool) (max_distance_buckets : Z)
    (style : BubbleStyle) : result MergeConfig AnalyticsError :=
  style_validate style ?;
  Ok (mkMergeConfig enabled_tiers max_distance_buckets style).

Definition merge_disabled : MergeConfig :=
  {| mc_enabled_tiers := (false, false, false);
     mc_max_distance_buckets := 0;
     mc_style := {| bs_shape := Circle;
                    bs_min_size := 8;
                    bs_max_size := 48;
                    bs_volume_cap := mkQuantity (mkFixed 1 0);
                    bs_delta_cap := mkQuantity (mkFixed 1 0);
                    bs_label_mode := LabelOff |} |}.

Definition merge_enabled (self : MergeConfig) (tier : BubbleTier) : bool :=
  let '(f1, f2, f3) := mc_enabled_tiers self in
  match tier with F1 => f1 | F2 => f2 | F3 => f3 end.

Inductive PerformanceMode :=
  | Full
  | High (live_tier_count : Z) (defer_merging : bool).

Record BubbleConfig := mkBubbleConfig {
  bc_f1 : BubbleFilter;
  bc_f2 : BubbleFilter;
  bc_f3 : BubbleFilter;
  bc_merge : MergeConfig;
  bc_performance : PerformanceMode;
  bc_max_history_candles : Z
}.

Definition bubble_config_new (f1 f2 f3 : BubbleFilter) (merge : MergeConfig)
    (performance : PerformanceMode) (max_history_candles : Z)
    : result BubbleConfig AnalyticsError :=
  if max_history_candles =? 0 then
    Err (invalid_config "max_history_candles" "must be positive")
  else
    filter_validate f1 F1 ?;
    filter_validate f2 F2 ?;
    filter_validate f3 F3 ?;
    style_validate (mc_style merge) ?;
    if match performance with
       | High live_tier_count _ => (live_tier_count =? 0) || (4 <=? live_tier_count)
       | Full => false
       end then
      Err (invalid_config "live_tier_count" "must be between one and three")
    else Ok (mkBubbleConfig f1 f2 f3 merge performance max_history_candles).

Definition bubble_config_validate (self : BubbleConfig) : result unit AnalyticsError :=
  rmap (fun _ => tt)
    (bubble_config_new (bc_f1 self) (bc_f2 self) (bc_f3 self) (bc_merge self)
       (bc_performance self) (bc_max_history_candles self)).

(** ** Data *)

Inductive DetectionPhase := PhaseLive | PhaseFinal.

#[export] Instance DetectionPhase_eq_dec : EqDecision DetectionPhase.
Proof. solve_decision. Defined.

Inductive BubbleDirection := DirSell | DirNeutral | DirBuy.

#[export] Instance BubbleDirection_eq_dec : EqDecision BubbleDirection.
Proof. solve_decision. Defined.

Definition direction_index (d : BubbleDirection) : Z :=
  match d with DirSell => 0 | DirNeutral => 1 | DirBuy => 2 end.

#[export] Instance direction_index_inj : Inj (=) (=) direction_index.
Proof. intros [] []; done. Qed.

#[export] Instance ord_BubbleDirection : Ord BubbleDirection := cmp_by direction_index.
#[export] Instance ord_laws_BubbleDirection : OrdLaws BubbleDirection :=
  ord_laws_by direction_index.

Record OrderFlowBubble := mkOrderFlowBubble {
  ofb_id : Z;
  ofb_instrument : InstrumentId;
  ofb_candle_start_ns : Z;
  ofb_candle_end_ns : Z;
  ofb_segment : MarketSegment;
  ofb_sources : list VenueId;
  ofb_tier : BubbleTier;
  ofb_mode : BubbleMode;
  ofb_direction : BubbleDirection;
  ofb_anchor_price : Price;
  ofb_low_price : Price;
  ofb_high_price : Price;
  ofb_buy_volume : Quantity;
  ofb_sell_volume : Quantity;
  ofb_unknown_volume : Quantity;
  ofb_total_volume : Quantity;
  ofb_delta : Fixed;
  ofb_strength : Fixed;
  ofb_threshold : Fixed;
  ofb_visual_size : Z;
  ofb_label : option Fixed;
  ofb_shape : BubbleShape;
  ofb_merged_count : Z
}.

Record BubbleBatch := mkBubbleBatch {
  bb_candle_start_ns : Z;
  bb_candle_end_ns : Z;
  bb_phase : DetectionPhase;
  bb_bubbles : list OrderFlowBubble
}.

Record CandidateKey := mkCandidateKey { ck_segment : MarketSegment; ck_bucket : Z }.

#[export] Instance CandidateKey_eq_dec : EqDecision CandidateKey.
Proof. solve_decision. Defined.

Definition key_pair (k : CandidateKey) : MarketSegment * Z := (ck_segment k, ck_bucket k).

#[export] Instance key_pair_inj : Inj (=) (=) key_pair.
Proof. intros [] [] [= -> ->]. done. Qed.

#[export] Instance ord_CandidateKey : Ord CandidateKey := cmp_by key_pair.
#[export] Instance ord_laws_CandidateKey : OrdLaws CandidateKey := ord_laws_by key_pair.

Record Aggregate := mkAggregate {
  ag_segment : MarketSegment;
  ag_bucket : Z;
  ag_sources : list VenueId;
  ag_buy_units : Z;
  ag_sell_units : Z;
  ag_unknown_units : Z;
  ag_total_units : Z
}.

(** [u128::try_from(x).map_err(|_| overflow(op))] and its [i128] twin. *)
Definition narrow_or (t : int_ty) (z : Z) (op : string) : result Z AnalyticsError :=
  ok_or (to_ty t z) (overflow op).

Definition delta_units (self : Aggregate) : result Z AnalyticsError :=
  sub_or I128 (ag_buy_units self) (ag_sell_units self) "calculating bubble delta".

Definition strength_units (self : Aggregate) (mode : BubbleMode) : result Z AnalyticsError :=
  let? value :=
    match mode with
    | ModeVolume => Ok (ag_total_units self)
    | ModeDelta =>
        let? d := delta_units self in
        ok_or (checked_abs I128 d) (overflow "calculating absolute bubble delta")
    end in
  narrow_or U128 value "converting bubble strength".

(** The match on [x.cmp(&0)]. *)
Definition direction_of (delta : Z) : BubbleDirection :=
  match cmp delta 0 with Lt => DirSell | Eq => DirNeutral | Gt => DirBuy end.

Definition direction (self : Aggregate) : result BubbleDirection AnalyticsError :=
  let? d := delta_units self in Ok (direction_of d).

Record BubbleDetector := mkBubbleDetector {
  bd_grid : GridSpec;
  bd_config : BubbleConfig;
  bd_history : list CandleFlow;
  bd_last_finalized_start_ns : option Z
}.

#[export] Instance eta_BubbleDetector : Eta BubbleDetector := fun d =>
  mkBubbleDetector (bd_grid d) (bd_config d) (bd_history d) (bd_last_finalized_start_ns d).

Inductive ThresholdBaseline :=
  | BaselineOff
  | BaselineManual (threshold : Z)
  | BaselineFloorOnly (threshold : option Z)
  | BaselineAdaptive (floor cap historical historical_weight_bps spike_weight_bps : Z).

(** ** Hashing *)

Definition hash_bytes (hash : Z) (bytes : list Z) : Z :=
  foldl (fun hash byte => wrap U64 (Z.lxor hash byte * 1099511628211)) hash bytes.

Definition bubble_id (candle_start_ns : Z) (instrument : InstrumentId)
    (segment : MarketSegment) (bucket : Z) (tier : BubbleTier) : Z :=
  let hash := 14695981039346656037 in
  let hash := hash_bytes hash (to_le_bytes 8 candle_start_ns) in
  let hash := hash_bytes hash (to_le_bytes 4 instrument) in
  let hash := hash_bytes hash [segment_index segment] in
  let hash := hash_bytes hash (to_le_bytes 16 bucket) in
  hash_bytes hash [priority tier].

(** ** Statistics *)

(** The index is in range for a non-empty slice, so the default of the list
    access is never taken. *)
Definition percentile (values : list Z) (bps : Z) : result Z AnalyticsError :=
  if is_nil values then Err (invalid_config "percentile" "requires at least one sample")
  else
    let len := Z.of_nat (length values) in
    let? numerator := mul_or U64 bps len "calculating percentile rank" in
    let? rounded := add_or U64 numerator 9999 "rounding percentile rank" in
    let rank := rounded / 10000 in
    Ok (nth (Z.to_nat (Z.min (saturating_sub U64 rank 1) (len - 1))) values 0).

Definition weighted_bps (left left_bps right right_bps : Z) : result Z AnalyticsError :=
  ok_or
    ((fun value => value / 10000) <$>
       (value ← checked_mul U128 left left_bps;
        other ← checked_mul U128 right right_bps;
        checked_add U128 value other))
    (overflow "calculating adaptive threshold").

(** [max_size - min_size] is an unchecked [u16] subtraction. *)
Definition scaled_size (strength cap min_size max_size : Z) : result Z AnalyticsError :=
  let cap := Z.max cap 1 in
  let range := wrap U16 (max_size - min_size) in
  let? product := mul_or U128 (Z.min strength cap) range "calculating bubble size" in
  let scaled := product / cap in
  narrow_or U16 (wrap U128 (min_size + scaled)) "converting bubble size".

(** ** Aggregation *)

Definition candidate_keys (candle : CandleFlow) (grid : GridSpec)
    : result (BTreeSet CandidateKey) AnalyticsError :=
  try_fold (fun keys source =>
      try_fold (fun keys level =>
          let? bucket := price_bucket grid (plf_price level) in
          Ok (BTreeSet.insert keys (mkCandidateKey (source_segment (scf_source source)) bucket)))
        keys (scf_levels source))
    [] (cf_sources candle).

(** The local variables of [aggregate_for]. *)
Record AggregateAcc := mkAggregateAcc {
  aa_sources : BTreeSet VenueId;
  aa_buy : Z;
  aa_sell : Z;
  aa_unknown : Z;
  aa_total : Z
}.

Definition aggregate_level (grid : GridSpec) (bucket : Z) (venue : VenueId) (acc : AggregateAcc)
    (level : PriceLevelFlow) : result AggregateAcc AnalyticsError :=
  let? level_bucket := price_bucket grid (plf_price level) in
  if negb (level_bucket =? bucket) then Ok acc
  else
    let? b := non_negative_quantity_units grid (plf_buy_volume level) in
    let? buy := add_or I128 (aa_buy acc) b "aggregating buy volume" in
    let? s := non_negative_quantity_units grid (plf_sell_volume level) in
    let? sell := add_or I128 (aa_sell acc) s "aggregating sell volume" in
    let? u := non_negative_quantity_units grid (plf_unknown_volume level) in
    let? unknown := add_or I128 (aa_unknown acc) u "aggregating unknown volume" in
    let? t := quantity_units grid (plf_total_volume level) in
    let? total := add_or I128 (aa_total acc) t "aggregating total volume" in
    Ok (mkAggregateAcc (BTreeSet.insert (aa_sources acc) venue) buy sell unknown total).

Definition aggregate_source (grid : GridSpec) (key : CandidateKey) (selector : SourceSelector)
    (acc : AggregateAcc) (source : SourceCandleFlow) : result AggregateAcc AnalyticsError :=
  let src := scf_source source in
  if negb (bool_decide (source_segment src = ck_segment key))
     || negb (matches selector (source_venue src) (source_segment src)) then Ok acc
  else try_fold (aggregate_level grid (ck_bucket key) (source_venue src)) acc (scf_levels source).

Definition aggregate_for (candle : CandleFlow) (key : CandidateKey) (selector : SourceSelector)
    (grid : GridSpec) : result Aggregate AnalyticsError :=
  let? acc := try_fold (aggregate_source grid key selector) (mkAggregateAcc [] 0 0 0 0)
                (cf_sources candle) in
  Ok {| ag_segment := ck_segment key;
        ag_bucket := ck_bucket key;
        ag_sources := BTreeSet.elements (aa_sources acc);
        ag_buy_units := aa_buy acc;
        ag_sell_units := aa_sell acc;
        ag_unknown_units := aa_unknown acc;
        ag_total_units := aa_total acc |}.

(** ** Thresholds *)

Definition tier_filter (self : BubbleDetector) (tier : BubbleTier) : BubbleFilter :=
  match tier with
  | F1 => bc_f1 (bd_config self)
  | F2 => bc_f2 (bd_config self)
  | F3 => bc_f3 (bd_config self)
  end.

(** The slice is in range because a validated configuration has a
    [live_tier_count] of one to three. *)
Definition active_tiers (self : BubbleDetector) (phase : DetectionPhase) : list BubbleTier :=
  let tiers := [F3; F2; F1] in
  match phase, bc_performance (bd_config self) with
  | PhaseLive, High live_tier_count _ => take (Z.to_nat live_tier_count) tiers
  | _, _ => tiers
  end.

(** The samples one candle of the history contributes. *)
Definition candle_samples (self : BubbleDetector) (filter : BubbleFilter)
    (segment : MarketSegment) (samples : list Z) (candle : CandleFlow)
    : result (list Z) AnalyticsError :=
  let? keys := candidate_keys candle (bd_grid self) in
  try_fold (fun samples key =>
      if negb (bool_decide (ck_segment key = segment)) then Ok samples
      else
        let? aggregate := aggregate_for candle key (bf_sources filter) (bd_grid self) in
        if is_nil (ag_sources aggregate) then Ok samples
        else
          let? strength := strength_units aggregate (bf_mode filter) in
          if negb (bool_decide (bf_mode filter = ModeDelta)) || (0 <? strength)
          then Ok (samples ++ [strength]) else Ok samples)
    samples (BTreeSet.elements keys).

Definition adaptive_floor (self : BubbleDetector) (config : AdaptiveThreshold)
    : result Z AnalyticsError :=
  let? units := transpose (quantity_units (bd_grid self) <$> at_minimum_floor config) in
  let? floor := transpose ((fun u => narrow_or U128 u "converting adaptive floor") <$> units) in
  Ok (default 0 floor).

Definition adaptive_baseline (floor : Z) (config : AdaptiveThreshold) (samples : list Z)
    : result ThresholdBaseline AnalyticsError :=
  if Z.of_nat (length samples) <? at_minimum_samples config then
    Ok (BaselineFloorOnly (if 0 <? floor then Some floor else None))
  else
    let samples := sort_by cmp samples in
    let? cap := percentile samples (at_outlier_cap_percentile_bps config) in
    let samples := sort_by cmp ((fun sample => Z.min sample cap) <$> samples) in
    let? historical := percentile samples
                         (percentile_bps (at_preset config) (at_custom_percentile_bps config)) in
    Ok (BaselineAdaptive floor cap historical
          (saturating_sub U16 10000 (at_spike_adaptation_bps config))
          (at_spike_adaptation_bps config)).

Definition threshold_baseline (self : BubbleDetector) (filter : BubbleFilter)
    (segment : MarketSegment) : result ThresholdBaseline AnalyticsError :=
  match bf_threshold filter with
  | ThresholdOff => Ok BaselineOff
  | Manual quantity =>
      let? units := quantity_units (bd_grid self) quantity in
      let? threshold := narrow_or U128 units "converting manual threshold" in
      Ok (BaselineManual threshold)
  | Adaptive config =>
      let? floor := adaptive_floor self config in
      let? samples := try_fold (candle_samples self filter segment) []
                        (take (Z.to_nat (at_calibration_candles config))
                           (reverse (bd_history self))) in
      adaptive_baseline floor config samples
  end.

Definition threshold_units (baseline : ThresholdBaseline) (current_strength : Z)
    : result (option Z) AnalyticsError :=
  match baseline with
  | BaselineOff => Ok None
  | BaselineManual threshold => Ok (Some threshold)
  | BaselineFloorOnly threshold => Ok threshold
  | BaselineAdaptive floor cap historical historical_weight_bps spike_weight_bps =>
      let? w := weighted_bps historical historical_weight_bps (Z.min current_strength cap)
                  spike_weight_bps in
      Ok (Some (Z.max w floor))
  end.

Definition strength_cap (style : BubbleStyle) (mode : BubbleMode) : Quantity :=
  match mode with ModeVolume => bs_volume_cap style | ModeDelta => bs_delta_cap style end.

Definition materialize (self : BubbleDetector) (candle : CandleFlow) (tier : BubbleTier)
    (filter : BubbleFilter) (aggregate : Aggregate) (strength threshold : Z)
    : result OrderFlowBubble AnalyticsError :=
  let grid := bd_grid self in
  let? delta_units := delta_units aggregate in
  let? cap_units := quantity_units grid (strength_cap (bf_style filter) (bf_mode filter)) in
  let? cap := narrow_or U128 cap_units "converting bubble strength cap" in
  let? strength_i128 := narrow_or I128 strength "converting bubble strength" in
  let? threshold_i128 := narrow_or I128 threshold "converting bubble threshold" in
  let? anchor_price := price_at grid (ag_bucket aggregate) in
  let label :=
    match bs_label_mode (bf_style filter) with
    | LabelOff => None
    | LabelRaw =>
        Some (match bf_mode filter with
              | ModeVolume => mkFixed strength_i128 (quantity_scale grid)
              | ModeDelta => mkFixed delta_units (quantity_scale grid)
              end)
    end in
  let? dir := direction aggregate in
  let? buy := quantity_at grid (ag_buy_units aggregate) in
  let? sell := quantity_at grid (ag_sell_units aggregate) in
  let? unknown := quantity_at grid (ag_unknown_units aggregate) in
  let? total := quantity_at grid (ag_total_units aggregate) in
  let? size := scaled_size strength cap (bs_min_size (bf_style filter))
                 (bs_max_size (bf_style filter)) in
  Ok {| ofb_id := bubble_id (cf_start_ts candle) (cf_instrument candle) (ag_segment aggregate)
                    (ag_bucket aggregate) tier;
        ofb_instrument := cf_instrument candle;
        ofb_candle_start_ns := cf_start_ts candle;
        ofb_candle_end_ns := cf_end_ts candle;
        ofb_segment := ag_segment aggregate;
        ofb_sources := ag_sources aggregate;
        ofb_tier := tier;
        ofb_mode := bf_mode filter;
        ofb_direction := dir;
        ofb_anchor_price := anchor_price;
        ofb_low_price := anchor_price;
        ofb_high_price := anchor_price;
        ofb_buy_volume := buy;
        ofb_sell_volume := sell;
        ofb_unknown_volume := unknown;
        ofb_total_volume := total;
        ofb_delta := mkFixed delta_units (quantity_scale grid);
        ofb_strength := mkFixed strength_i128 (quantity_scale grid);
        ofb_threshold := mkFixed threshold_i128 (quantity_scale grid);
        ofb_visual_size := size;
        ofb_label := label;
        ofb_shape := bs_shape (bf_style filter);
        ofb_merged_count := 1 |}.

(** ** Merging *)

Definition strength_of (b : OrderFlowBubble) : Z := coefficient (ofb_strength b).

(** The comparators of the three sorts and of the anchor of a group. *)
Definition rank_cmp (left right : OrderFlowBubble) : comparison :=
  then_with (cmp (strength_of right) (strength_of left))
    (then_with (compare_price (ofb_anchor_price left) (ofb_anchor_price right))
       (cmp (ofb_id left) (ofb_id right))).

Definition merge_cmp (left right : OrderFlowBubble) : comparison :=
  then_with (cmp (ofb_segment left) (ofb_segment right))
    (then_with (cmp (ofb_direction left) (ofb_direction right))
       (then_with (compare_price (ofb_anchor_price left) (ofb_anchor_price right))
          (then_with (cmp (priority (ofb_tier right)) (priority (ofb_tier left)))
             (cmp (ofb_id left) (ofb_id right))))).

Definition output_cmp (left right : OrderFlowBubble) : comparison :=
  then_with (cmp (priority (ofb_tier right)) (priority (ofb_tier left)))
    (then_with (cmp (strength_of right) (strength_of left))
       (then_with (cmp (ofb_segment left) (ofb_segment right))
          (then_with (compare_price (ofb_anchor_price left) (ofb_anchor_price right))
             (cmp (ofb_id left) (ofb_id right))))).

Definition anchor_cmp (left right : OrderFlowBubble) : comparison :=
  then_with (cmp (strength_of left) (strength_of right))
    (compare_price (ofb_anchor_price right) (ofb_anchor_price left)).

(** The local variables of [merge_group]. *)
Record MergeAcc := mkMergeAcc {
  ma_sources : BTreeSet VenueId;
  ma_buy : Z;
  ma_sell : Z;
  ma_unknown : Z;
  ma_total : Z;
  ma_strength : Z;
  ma_low : Price;
  ma_high : Price;
  ma_tier : BubbleTier
}.

Definition merge_step (grid : GridSpec) (acc : MergeAcc) (bubble : OrderFlowBubble)
    : result MergeAcc AnalyticsError :=
  let? b := non_negative_quantity_units grid (ofb_buy_volume bubble) in
  let? buy := add_or I128 (ma_buy acc) b "merging buy volume" in
  let? s := non_negative_quantity_units grid (ofb_sell_volume bubble) in
  let? sell := add_or I128 (ma_sell acc) s "merging sell volume" in
  let? u := non_negative_quantity_units grid (ofb_unknown_volume bubble) in
  let? unknown := add_or I128 (ma_unknown acc) u "merging unknown volume" in
  let? t := quantity_units grid (ofb_total_volume bubble) in
  let? total := add_or I128 (ma_total acc) t "merging total volume" in
  let? strength := add_or I128 (ma_strength acc) (strength_of bubble)
                     "merging bubble strength" in
  Ok {| ma_sources := BTreeSet.extend (ma_sources acc) (ofb_sources bubble);
        ma_buy := buy;
        ma_sell := sell;
        ma_unknown := unknown;
        ma_total := total;
        ma_strength := strength;
        ma_low := min_price (ma_low acc) (ofb_low_price bubble);
        ma_high := max_price (ma_high acc) (ofb_high_price bubble);
        ma_tier := if priority (ma_tier acc) <? priority (ofb_tier bubble)
                   then ofb_tier bubble else ma_tier acc |}.

(** A group of at least one bubble, given by its first element and the rest. *)
Definition merge_group (self : BubbleDetector) (first : OrderFlowBubble)
    (rest : list OrderFlowBubble) : result OrderFlowBubble AnalyticsError :=
  let group := first :: rest in
  let grid := bd_grid self in
  let style := mc_style (bc_merge (bd_config self)) in
  let? anchor := ok_or (max_by anchor_cmp group)
                   (invalid_config "merge group" "must not be empty") in
  let? acc := try_fold (merge_step grid)
                (mkMergeAcc [] 0 0 0 0 0 (ofb_low_price first) (ofb_high_price first) F1) group in
  let? delta := sub_or I128 (ma_buy acc) (ma_sell acc) "merging bubble delta" in
  let mode := ofb_mode anchor in
  let? cap_units := quantity_units grid (strength_cap style mode) in
  let? cap := narrow_or U128 cap_units "converting merged bubble cap" in
  let? strength_unsigned := narrow_or U128 (ma_strength acc) "converting merged bubble strength" in
  let label :=
    match bs_label_mode style with
    | LabelOff => None
    | LabelRaw => Some (mkFixed (if bool_decide (mode = ModeVolume) then ma_total acc else delta)
                          (quantity_scale grid))
    end in
  let id := foldl (fun id bubble => hash_bytes id (to_le_bytes 8 (ofb_id bubble)))
              14695981039346656037 group in
  let? buy := quantity_at grid (ma_buy acc) in
  let? sell := quantity_at grid (ma_sell acc) in
  let? unknown := quantity_at grid (ma_unknown acc) in
  let? total := quantity_at grid (ma_total acc) in
  let? size := scaled_size strength_unsigned cap (bs_min_size style) (bs_max_size style) in
  let? count := narrow_or U16 (Z.of_nat (length group)) "converting merged bubble count" in
  Ok {| ofb_id := id;
        ofb_instrument := ofb_instrument anchor;
        ofb_candle_start_ns := ofb_candle_start_ns anchor;
        ofb_candle_end_ns := ofb_candle_end_ns anchor;
        ofb_segment := ofb_segment anchor;
        ofb_sources := BTreeSet.elements (ma_sources acc);
        ofb_tier := ma_tier acc;
        ofb_mode := mode;
        ofb_direction := direction_of delta;
        ofb_anchor_price := ofb_anchor_price anchor;
        ofb_low_price := ma_low acc;
        ofb_high_price := ma_high acc;
        ofb_buy_volume := buy;
        ofb_sell_volume := sell;
        ofb_unknown_volume := unknown;
        ofb_total_volume := total;
        ofb_delta := mkFixed delta (quantity_scale grid);
        ofb_strength := mkFixed (ma_strength acc) (quantity_scale grid);
        ofb_threshold := default fixed_zero
                           (max_by (fun a b => cmp (coefficient a) (coefficient b))
                              (ofb_threshold <$> group));
        ofb_visual_size := size;
        ofb_label := label;
        ofb_shape := bs_shape style;
        ofb_merged_count := count |}.

(** The inner [while]: splits the rest of the row at the first bubble that
    does not continue the group of [previous]. *)
Fixpoint merge_run (self : BubbleDetector) (previous : OrderFlowBubble)
    (rest : list OrderFlowBubble)
    : result (list OrderFlowBubble * list OrderFlowBubble) AnalyticsError :=
  match rest with
  | [] => Ok ([], [])
  | next :: rest' =>
      if negb (bool_decide (ofb_segment previous = ofb_segment next))
         || negb (bool_decide (ofb_direction previous = ofb_direction next))
         || negb (merge_enabled (bc_merge (bd_config self)) (ofb_tier next))
      then Ok ([], rest)
      else
        let? previous_bucket := price_bucket (bd_grid self) (ofb_anchor_price previous) in
        let? next_bucket := price_bucket (bd_grid self) (ofb_anchor_price next) in
        let? distance := ok_or (d ← checked_sub I128 previous_bucket next_bucket;
                                checked_abs I128 d)
                           (overflow "calculating bubble merge distance") in
        let? distance := narrow_or U128 distance "converting bubble merge distance" in
        if mc_max_distance_buckets (bc_merge (bd_config self)) <? distance then Ok ([], rest)
        else
          let? (group, rest) := merge_run self next rest' in
          Ok (next :: group, rest)
  end.

(** The outer [while]; every round consumes at least one bubble, so the number
    of bubbles is enough fuel. *)
Fixpoint merge_loop (self : BubbleDetector) (fuel : nat) (bubbles : list OrderFlowBubble)
    : result (list OrderFlowBubble) AnalyticsError :=
  match fuel, bubbles with
  | _, [] => Ok []
  | O, _ :: _ => Ok []
  | S fuel, bubble :: rest =>
      if negb (merge_enabled (bc_merge (bd_config self)) (ofb_tier bubble)) then
        let? out := merge_loop self fuel rest in Ok (bubble :: out)
      else
        let? (group, rest) := merge_run self bubble rest in
        let? merged := if is_nil group then Ok bubble else merge_group self bubble group in
        let? out := merge_loop self fuel rest in
        Ok (merged :: out)
  end.

Definition merge (self : BubbleDetector) (bubbles : list OrderFlowBubble)
    : result (list OrderFlowBubble) AnalyticsError :=
  merge_loop self (length bubbles) (sort_by merge_cmp bubbles).

(** ** The detector *)

Definition detector_new (grid : GridSpec) (config : BubbleConfig)
    : result BubbleDetector AnalyticsError :=
  grid_validate grid ?;
  bubble_config_validate config ?;
  Ok (mkBubbleDetector grid config [] None).

Definition history_len (self : BubbleDetector) : Z := Z.of_nat (length (bd_history self)).

(** The local variables of [detect]: the three rows [by_tier], indexed by
    tier, and the cache of threshold baselines. *)
Record DetectState := mkDetectState {
  by_tier : list (list OrderFlowBubble);
  baselines : BTreeMap (BubbleTier * MarketSegment) ThresholdBaseline
}.

#[export] Instance eta_DetectState : Eta DetectState := fun s =>
  mkDetectState (by_tier s) (baselines s).

Definition tier_rows (rows : list (list OrderFlowBubble)) (tier : BubbleTier)
    : list OrderFlowBubble := default [] (rows !! tier_index tier).

Definition push_row (rows : list (list OrderFlowBubble)) (tier : BubbleTier)
    (b : OrderFlowBubble) : list (list OrderFlowBubble) :=
  <[tier_index tier := tier_rows rows tier ++ [b]]> rows.

(** [baselines.entry((tier, segment))]: computed on first use. *)
Definition baseline_entry (self : BubbleDetector) (tier : BubbleTier) (segment : MarketSegment)
    (st : DetectState) : result (ThresholdBaseline * DetectState) AnalyticsError :=
  match BTreeMap.get (baselines st) (tier, segment) with
  | Some baseline => Ok (baseline, st)
  | None =>
      let? baseline := threshold_baseline self (tier_filter self tier) segment in
      Ok (baseline, st ⟪ baselines := BTreeMap.insert (baselines st) (tier, segment) baseline ⟫)
  end.

(** The inner loop over the tiers: [continue] goes on with the next tier,
    [break] stops at the first tier that takes the bucket. *)
Fixpoint detect_tiers (self : BubbleDetector) (candle : CandleFlow) (key : CandidateKey)
    (tiers : list BubbleTier) (st : DetectState) : result DetectState AnalyticsError :=
  match tiers with
  | [] => Ok st
  | tier :: tiers' =>
      let filter := tier_filter self tier in
      let continue := detect_tiers self candle key tiers' in
      match bf_threshold filter with
      | ThresholdOff => continue st
      | _ =>
          let? aggregate := aggregate_for candle key (bf_sources filter) (bd_grid self) in
          if is_nil (ag_sources aggregate) then continue st
          else
            let? strength := strength_units aggregate (bf_mode filter) in
            if bool_decide (bf_mode filter = ModeDelta) && (strength =? 0) then continue st
            else
              let? (baseline, st) := baseline_entry self tier (ck_segment key) st in
              let? threshold := threshold_units baseline strength in
              match threshold with
              | None => continue st
              | Some threshold =>
                  if threshold <=? strength then
                    let? b := materialize self candle tier filter aggregate strength threshold in
                    Ok (st ⟪ by_tier := push_row (by_tier st) tier b ⟫)
                  else continue st
              end
      end
  end.

(** The loop that ranks and truncates the row of each tier. *)
Definition rank_row (self : BubbleDetector) (rows : list (list OrderFlowBubble))
    (tier : BubbleTier) : list (list OrderFlowBubble) :=
  <[tier_index tier :=
      take (Z.to_nat (bf_max_bubbles_per_candle (tier_filter self tier)))
        (sort_by rank_cmp (tier_rows rows tier))]> rows.

Definition defer_merging (self : BubbleDetector) (phase : DetectionPhase) : bool :=
  match bc_performance (bd_config self) with High _ true => true | _ => false end
  && bool_decide (phase = PhaseLive).

Definition any_merge (self : BubbleDetector) : bool :=
  let '(f1, f2, f3) := mc_enabled_tiers (bc_merge (bd_config self)) in f1 || f2 || f3.

Definition detect (self : BubbleDetector) (candle : CandleFlow) (phase : DetectionPhase)
    : result (list OrderFlowBubble) AnalyticsError :=
  let? keys := candidate_keys candle (bd_grid self) in
  let active := active_tiers self phase in
  let? st := try_fold (fun st key => detect_tiers self candle key active st)
               (mkDetectState [[]; []; []] []) (BTreeSet.elements keys) in
  let rows := foldl (rank_row self) (by_tier st) [F1; F2; F3] in
  let output := tier_rows rows F3 ++ tier_rows rows F2 ++ tier_rows rows F1 in
  let? output :=
    if negb (defer_merging self phase) && any_merge self then merge self output
    else Ok output in
  Ok (sort_by output_cmp output).

Definition detect_batch (self : BubbleDetector) (candle : CandleFlow) (phase : DetectionPhase)
    : result BubbleBatch AnalyticsError :=
  let? bubbles := detect self candle phase in
  Ok (mkBubbleBatch (cf_start_ts candle) (cf_end_ts candle) phase bubbles).

(** [while history.len() > max { pop_front }] keeps the latest [max]. *)
Fixpoint pop_front_while {A} (max : Z) (l : list A) : list A :=
  match l with
  | [] => []
  | _ :: l' => if max <? Z.of_nat (length l) then pop_front_while max l' else l
  end.

(** The history holds [Arc]s of immutable candles: sharing is not observable. *)
Definition record_finalized (candle : CandleFlow) : Eff BubbleDetector AnalyticsError unit :=
  let! self := eget in
  if negb (bool_decide (cf_state candle = FlowFinal)) then
    ethrow (invalid_config "finalized bubble history" "only finalized candles may be recorded")
  else if from_option (fun last => cf_start_ts candle <=? last) false
            (bd_last_finalized_start_ns self) then
    ethrow (LateTrade (cf_start_ts candle)
              (default (cf_start_ts candle) (bd_last_finalized_start_ns self)))
  else
    emod (fun self => self ⟪ bd_history := bd_history self ++ [candle] ⟫) !;
    emod (fun self => self ⟪ bd_history :=
            pop_front_while (bc_max_history_candles (bd_config self)) (bd_history self) ⟫) !;
    emod (fun self => self ⟪ bd_last_finalized_start_ns := Some (cf_start_ts candle) ⟫).

Definition validate_candle (previous : option Z) (candle : CandleFlow)
    : result (option Z) AnalyticsError :=
  if negb (bool_decide (cf_state candle = FlowFinal)) then
    Err (CorruptSnapshot "bubble history contains a live candle")
  else if from_option (fun value => cf_start_ts candle <=? value) false previous then
    Err (CorruptSnapshot "bubble history is not strictly ordered")
  else Ok (Some (cf_start_ts candle)).

Definition detector_validate (self : BubbleDetector) : result unit AnalyticsError :=
  grid_validate (bd_grid self) ?;
  bubble_config_validate (bd_config self) ?;
  if bc_max_history_candles (bd_config self) <? history_len self then
    Err (CorruptSnapshot "bubble history exceeds capacity")
  else
    rmap (fun _ => tt) (try_fold validate_candle None (bd_history self)).

(** ** Detection without the loop machinery

    What [detect] computes, stated without the baseline cache, the mutable
    rows and the early exit: every candidate bucket goes to the first active
    tier whose own threshold it reaches. *)

Section Reference.
Context (self : BubbleDetector) (candle : CandleFlow).

Definition tier_verdict (key : CandidateKey) (tier : BubbleTier)
    : result (option OrderFlowBubble) AnalyticsError :=
  let filter := tier_filter self tier in
  match bf_threshold filter with
  | ThresholdOff => Ok None
  | _ =>
      let? aggregate := aggregate_for candle key (bf_sources filter) (bd_grid self) in
      if is_nil (ag_sources aggregate) then Ok None
      else
        let? strength := strength_units aggregate (bf_mode filter) in
        if bool_decide (bf_mode filter = ModeDelta) && (strength =? 0) then Ok None
        else
          let? baseline := threshold_baseline self filter (ck_segment key) in
          let? threshold := threshold_units baseline strength in
          match threshold with
          | None => Ok None
          | Some threshold =>
              if threshold <=? strength then
                rmap Some (materialize self candle tier filter aggregate strength threshold)
              else Ok None
          end
  end.

Fixpoint classify (tiers : list BubbleTier) (key : CandidateKey)
    : result (option OrderFlowBubble) AnalyticsError :=
  match tiers with
  | [] => Ok None
  | tier :: tiers' =>
      let? verdict := tier_verdict key tier in
      match verdict with Some b => Ok (Some b) | None => classify tiers' key end
  end.

Definition in_tier (tier : BubbleTier) (found : list OrderFlowBubble) : list OrderFlowBubble :=
  filter (fun b => ofb_tier b = tier) found.

Definition ranked (tier : BubbleTier) (found : list OrderFlowBubble) : list OrderFlowBubble :=
  take (Z.to_nat (bf_max_bubbles_per_candle (tier_filter self tier)))
    (sort_by rank_cmp (in_tier tier found)).

Definition detect_spec (phase : DetectionPhase) : result (list OrderFlowBubble) AnalyticsError :=
  let? keys := candidate_keys candle (bd_grid self) in
  let? verdicts := traverse (classify (active_tiers self phase)) (BTreeSet.elements keys) in
  let found := omap id verdicts in
  let output := ranked F3 found ++ ranked F2 found ++ ranked F1 found in
  let? output :=
    if negb (defer_merging self phase) && any_merge self then merge self output
    else Ok output in
  Ok (sort_by output_cmp output).

(** A cached baseline is the one that would be computed now. *)
Definition cache_ok (st : DetectState) : Prop :=
  forall tier segment b, BTreeMap.get (baselines st) (tier, segment) = Some b ->
  threshold_baseline self (tier_filter self tier) segment = Ok b.

Lemma baseline_entry_spec tier segment st :
  cache_ok st ->
  match threshold_baseline self (tier_filter self tier) segment with
  | Err e => baseline_entry self tier segment st = Err e
  | Ok b => exists st', baseline_entry self tier segment st = Ok (b, st') /\
            by_tier st' = by_tier st /\ cache_ok st'
  end.
Proof.
  intros Hc. unfold baseline_entry.
  destruct (BTreeMap.get (baselines st) (tier, segment)) as [b|] eqn:Eg.
  - rewrite (Hc _ _ _ Eg). eauto.
  - destruct (threshold_baseline _ _ segment) as [b|e] eqn:Eb; [|done]. simpl.
    eexists. split; [done|]. split; [done|]. intros t s b'. simpl.
    destruct (decide ((t, s) = (tier, segment))) as [[= -> ->]|Hne].
    + rewrite BTreeMap.get_insert_eq. congruence.
    + rewrite BTreeMap.get_insert_ne by done. apply Hc.
Qed.

Lemma materialize_tier tier f ag s t b :
  materialize self candle tier f ag s t = Ok b -> ofb_tier b = tier.
Proof. unfold materialize. intros. ares. done. Qed.

(** What one bucket adds to the state, by the verdict of [classify]. *)
Definition adds (st : DetectState) (v : option OrderFlowBubble) (st' : DetectState) : Prop :=
  by_tier st' = from_option (fun b => push_row (by_tier st) (ofb_tier b) b) (by_tier st) v /\
  cache_ok st'.

Lemma detect_tiers_classify key tiers st :
  cache_ok st ->
  match classify tiers key with
  | Err e => detect_tiers self candle key tiers st = Err e
  | Ok v => exists st', detect_tiers self candle key tiers st = Ok st' /\ adds st v st'
  end.
Proof.
  unfold adds. revert st. induction tiers as [|tier tiers IH]; intros st Hc; cbn [classify detect_tiers].
  { eauto. }
  unfold tier_verdict. destruct (bf_threshold (tier_filter self tier)) eqn:Et.
  { cbn [rbind]. by apply IH. }
  all: destruct (aggregate_for candle key _ _) as [ag|]; cbn [rbind]; [|done].
  all: destruct (is_nil (ag_sources ag)); cbn [rbind]; [by apply IH|].
  all: destruct (strength_units ag _) as [s|]; cbn [rbind]; [|done].
  all: destruct (_ && _); cbn [rbind]; [by apply IH|].
  all: pose proof (baseline_entry_spec tier (ck_segment key) st Hc) as Hb.
  all: destruct (threshold_baseline self (tier_filter self tier) (ck_segment key)) as [b|];
    cbn [rbind]; [|by rewrite Hb].
  all: destruct Hb as (st1 & -> & Hrows & Hc1); cbn [rbind].
  all: destruct (threshold_units b s) as [[t|]|]; cbn [rbind]; [|rewrite <- Hrows; by apply IH|done].
  all: destruct (t <=? s); cbn [rbind]; [|rewrite <- Hrows; by apply IH].
  all: destruct (materialize self candle tier _ ag s t) as [m|] eqn:Em; cbn [rbind rmap]; [|done].
  all: apply materialize_tier in Em; eexists; split; [done|]; split; [|exact Hc1].
  all: simpl; by rewrite Em, Hrows.
Qed.

Definition rows_of (found : list OrderFlowBubble) : list (list OrderFlowBubble) :=
  [in_tier F1 found; in_tier F2 found; in_tier F3 found].

Lemma push_rows_of found b : push_row (rows_of found) (ofb_tier b) b = rows_of (found ++ [b]).
Proof.
  unfold push_row, rows_of, in_tier. rewrite !filter_app.
  destruct (ofb_tier b) eqn:E; simpl; rewrite !filter_cons, E; simpl;
    by rewrite !app_nil_r.
Qed.

Lemma detect_loop_classify tiers keys found st :
  cache_ok st -> by_tier st = rows_of found ->
  match traverse (classify tiers) keys with
  | Err e => try_fold (fun st key => detect_tiers self candle key tiers st) st keys = Err e
  | Ok vs => exists st',
      try_fold (fun st key => detect_tiers self candle key tiers st) st keys = Ok st' /\
      by_tier st' = rows_of (found ++ omap id vs)
  end.
Proof.
  revert found st. induction keys as [|key keys IH]; intros found st Hc Hrows; simpl.
  { exists st. by rewrite app_nil_r. }
  pose proof (detect_tiers_classify key tiers st Hc) as H1.
  destruct (classify tiers key) as [v|]; simpl; [|by rewrite H1].
  destruct H1 as (st1 & -> & Hr1 & Hc1). simpl.
  assert (by_tier st1 = rows_of (found ++ omap id [v])) as Hr.
  { rewrite Hr1, Hrows. destruct v; simpl; [apply push_rows_of|by rewrite app_nil_r]. }
  specialize (IH _ st1 Hc1 Hr). destruct (traverse (classify tiers) keys) as [vs|]; simpl; [|done].
  destruct IH as (st' & -> & Hr'). exists st'. split; [done|]. rewrite Hr', <- app_assoc.
  by destruct v.
Qed.

Lemma rank_rows_of found :
  foldl (rank_row self) (rows_of found) [F1; F2; F3] =
  [ranked F1 found; ranked F2 found; ranked F3 found].
Proof. done. Qed.
End Reference.

(** C24. The detector computes its reference definition: caching the
    threshold baselines per tier and segment and filling three mutable rows
    give, errors included, the bubbles obtained by sending every bucket to the
    first active tier whose freshly computed threshold it reaches, ranking and
    truncating every tier, merging, and sorting. *)
Theorem detect_computes_spec self candle phase :
  detect self candle phase = detect_spec self candle phase.
Proof.
  unfold detect, detect_spec. destruct (candidate_keys candle _) as [keys|]; [|done].
  cbn [rbind].
  pose proof (detect_loop_classify self candle (active_tiers self phase)
                (BTreeSet.elements keys) [] (mkDetectState [[]; []; []] [])) as H.
  destruct (traverse _ _) as [vs|]; cbn [rbind].
  - destruct H as (st & -> & Hrows); [done|done|]. cbn [rbind].
    by rewrite Hrows, rank_rows_of.
  - by rewrite H.
Qed.

(** ** What a detection contains *)

#[export] Instance comparator_rank : Comparator rank_cmp.
Proof.
  unfold rank_cmp, compare_price. apply comparator_then; [apply (comparator_rev (fun a b => cmp (strength_of a) (strength_of b))), comparator_by|].
  apply comparator_then; [apply (comparator_by (fun b => coefficient (price0 (ofb_anchor_price b))))|apply comparator_by].
Qed.

#[export] Instance comparator_output : Comparator output_cmp.
Proof.
  unfold output_cmp, compare_price.
  apply comparator_then; [apply (comparator_rev (fun a b => cmp (priority (ofb_tier a)) (priority (ofb_tier b)))), (comparator_by (fun b => priority (ofb_tier b)))|].
  apply comparator_then; [apply (comparator_rev (fun a b => cmp (strength_of a) (strength_of b))), comparator_by|].
  apply comparator_then; [apply comparator_by|].
  apply comparator_then; [apply (comparator_by (fun b => coefficient (price0 (ofb_anchor_price b))))|apply comparator_by].
Qed.

(** An element that a bounded prefix of a sorted list leaves out comes after a
    full prefix. *)
Lemma take_sorted_rest {A} (R : A -> A -> Prop) n l x :
  StronglySorted R l -> x ∈ l -> x ∈ take n l \/ (length (take n l) = n /\ Forall (fun y => R y x) (take n l)).
Proof.
  intros Hs Hx. rewrite <- (take_drop n l) in Hx. apply elem_of_app in Hx as [Hx|Hx]; [by left|].
  right. split.
  - rewrite length_take. assert (length (drop n l) <> 0%nat) as Hd.
    { destruct (drop n l); [by apply not_elem_of_nil in Hx|done]. }
    rewrite length_drop in Hd. lia.
  - apply Forall_forall. intros y Hy. rewrite <- (take_drop n l) in Hs.
    eapply StronglySorted_app_1_elem_of; eauto.
Qed.

Lemma aggregate_for_key candle key sel g ag :
  aggregate_for candle key sel g = Ok ag ->
  ag_segment ag = ck_segment key /\ ag_bucket ag = ck_bucket key.
Proof. unfold aggregate_for. intros. ares. done. Qed.

(** The position and strength of a materialised bubble. *)
Definition places (self : BubbleDetector) (key : CandidateKey) (b : OrderFlowBubble) : Prop :=
  ofb_segment b = ck_segment key /\
  price_at (bd_grid self) (ck_bucket key) = Ok (ofb_anchor_price b) /\
  coefficient (ofb_threshold b) <= strength_of b.

Lemma materialize_places self candle key tier f ag s t b :
  ag_segment ag = ck_segment key -> ag_bucket ag = ck_bucket key -> t <= s ->
  materialize self candle tier f ag s t = Ok b -> places self key b.
Proof.
  unfold materialize, narrow_or. intros Hs Hb Hle H. ares. unfold places, strength_of. simpl.
  rewrite <- Hb. done.
Qed.

Lemma tier_verdict_Some self candle key tier b :
  tier_verdict self candle key tier = Ok (Some b) -> places self key b /\ ofb_tier b = tier.
Proof.
  unfold tier_verdict. intros H.
  destruct (bf_threshold (tier_filter self tier)); [done|..].
  all: apply rbind_Ok in H as (ag & Hag & H).
  all: destruct (is_nil (ag_sources ag)); [done|].
  all: apply rbind_Ok in H as (s & Hs & H).
  all: destruct (_ && _); [done|].
  all: apply rbind_Ok in H as (bl & Hb & H); apply rbind_Ok in H as ([t|] & Ht & H); [|done].
  all: destruct (Z.leb_spec t s); [|done].
  all: apply rmap_Ok in H as (m & Hm & [= <-]).
  all: apply aggregate_for_key in Hag as [? ?].
  all: split; [by eapply materialize_places|by eapply materialize_tier].
Qed.

Lemma classify_Some self candle tiers key b :
  classify self candle tiers key = Ok (Some b) -> places self key b /\ ofb_tier b ∈ tiers.
Proof.
  induction tiers as [|tier tiers IH]; simpl; [done|].
  intros ([b'|] & Hv & H)%rbind_Ok.
  - injection H as <-. apply tier_verdict_Some in Hv as [? ->]. split; [done|left].
  - apply IH in H as [? ?]. split; [done|by right].
Qed.

Lemma candidate_keys_NoDup candle g keys :
  candidate_keys candle g = Ok keys -> NoDup (BTreeSet.elements keys).
Proof.
  intros H. apply (BTreeMap.keys_NoDup (V := unit)).
  revert H. apply (try_fold_inv BTreeMap.wf); [constructor|].
  intros ks src ks' Hwf _. apply (try_fold_inv BTreeMap.wf); [done|].
  intros k0 l k1 Hk _ H. ares. by apply BTreeMap.wf_insert.
Qed.

Lemma price_at_inj g b b' p :
  grid_ok g -> price_at g b = Ok p -> price_at g b' = Ok p -> b = b'.
Proof.
  intros (_ & _ & _ & H1 & H2 & _). unfold price_at, bucket_size_coefficient.
  destruct (b <=? 0); [done|]. destruct (b' <=? 0); [done|]. intros Ha Hb. ares.
  eapply Z.mul_reg_r; [|eassumption]. nia.
Qed.

(** Bubbles of different buckets are at different places. *)
Lemma found_NoDup self candle tiers keys vs :
  grid_ok (bd_grid self) -> NoDup keys ->
  traverse (classify self candle tiers) keys = Ok vs ->
  NoDup ((fun b => (ofb_segment b, ofb_anchor_price b)) <$> omap id vs).
Proof.
  intros Hg Hnd H%traverse_Ok. induction H as [|key v keys vs Hv H IH]; simpl; [constructor|].
  apply NoDup_cons in Hnd as [Hnin Hnd]. specialize (IH Hnd).
  destruct v as [b|]; simpl; [|done]. constructor; [|done].
  intros (b' & Heq & Hb')%list_elem_of_fmap. apply list_elem_of_omap in Hb' as (v' & Hv' & Hb').
  destruct v' as [?|]; [|done]. injection Hb' as ->.
  apply list_elem_of_lookup in Hv' as [i Hi].
  destruct (Forall2_lookup_r _ _ _ _ _ H Hi) as (key' & Hk' & Hc').
  apply classify_Some in Hv as [(S1 & P1 & _) _]. apply classify_Some in Hc' as [(S2 & P2 & _) _].
  injection Heq as Hseg Hpr. rewrite <- Hpr in P2.
  apply Hnin. apply list_elem_of_lookup. exists i. rewrite Hk'. f_equal.
  destruct key, key'; simpl in *. f_equal; [congruence|by eapply price_at_inj].
Qed.

Section Output.
Context (self : BubbleDetector) (found : list OrderFlowBubble).

Definition unmerged : list OrderFlowBubble :=
  sort_by output_cmp (ranked self F3 found ++ ranked self F2 found ++ ranked self F1 found).

Lemma ranked_tier tier : Forall (fun b => ofb_tier b = tier) (ranked self tier found).
Proof.
  unfold ranked. apply Forall_take, Forall_forall. intros b.
  rewrite elem_of_sort_by. unfold in_tier. rewrite list_elem_of_filter. tauto.
Qed.

Lemma in_tier_all tier l : Forall (fun b => ofb_tier b = tier) l -> in_tier tier l = l.
Proof. unfold in_tier. induction 1; [done|]. rewrite filter_cons_True by done. by f_equal. Qed.

Lemma in_tier_none tier tier' l :
  tier <> tier' -> Forall (fun b => ofb_tier b = tier) l -> in_tier tier' l = [].
Proof.
  unfold in_tier. intros Hne. induction 1; [done|]. rewrite filter_cons_False by congruence. done.
Qed.

Lemma in_tier_unmerged tier : in_tier tier unmerged ≡ₚ ranked self tier found.
Proof.
  unfold unmerged. transitivity (in_tier tier (ranked self F3 found ++ ranked self F2 found ++ ranked self F1 found)).
  { unfold in_tier. by rewrite sort_by_perm. }
  unfold in_tier at 1. rewrite !filter_app. fold (in_tier tier (ranked self F1 found)).
  fold (in_tier tier (ranked self F2 found)). fold (in_tier tier (ranked self F3 found)).
  destruct tier;
    rewrite ?(in_tier_none F1 F2 (ranked self F1 found)), ?(in_tier_none F1 F3 (ranked self F1 found)),
      ?(in_tier_none F2 F1 (ranked self F2 found)), ?(in_tier_none F2 F3 (ranked self F2 found)),
      ?(in_tier_none F3 F1 (ranked self F3 found)), ?(in_tier_none F3 F2 (ranked self F3 found))
      by (done || apply ranked_tier);
    rewrite (in_tier_all _ (ranked self _ found)) by apply ranked_tier;
    by rewrite ?app_nil_r.
Qed.

Lemma in_tiers_perm : in_tier F3 found ++ in_tier F2 found ++ in_tier F1 found ≡ₚ found.
Proof.
  unfold in_tier. induction found as [|b l IH]; [done|]. rewrite !filter_cons.
  destruct (ofb_tier b); simpl; rewrite <- IH at 4; solve_Permutation.
Qed.

Lemma ranked_submseteq tier : ranked self tier found ⊆+ in_tier tier found.
Proof.
  unfold ranked. rewrite <- (sort_by_perm rank_cmp (in_tier tier found)) at 2.
  apply sublist_submseteq, sublist_take.
Qed.

Lemma unmerged_submseteq : unmerged ⊆+ found.
Proof.
  unfold unmerged. rewrite sort_by_perm. rewrite <- in_tiers_perm at 4.
  repeat apply submseteq_app; apply ranked_submseteq.
Qed.

Lemma unmerged_best b :
  b ∈ found -> b ∈ unmerged \/
    (length (in_tier (ofb_tier b) unmerged) =
       Z.to_nat (bf_max_bubbles_per_candle (tier_filter self (ofb_tier b))) /\
     Forall (fun b' => rank_cmp b' b <> Gt) (in_tier (ofb_tier b) unmerged)).
Proof.
  intros Hb. rewrite in_tier_unmerged.
  destruct (take_sorted_rest (not_after rank_cmp)
    (Z.to_nat (bf_max_bubbles_per_candle (tier_filter self (ofb_tier b))))
    (sort_by rank_cmp (in_tier (ofb_tier b) found)) b) as [Hin|Hrest].
  - apply sort_by_sorted. apply _.
  - apply elem_of_sort_by, list_elem_of_filter. done.
  - left. fold (ranked self (ofb_tier b) found) in Hin.
    rewrite <- in_tier_unmerged in Hin. by apply list_elem_of_filter in Hin as [_ ?].
  - right. exact Hrest.
Qed.
End Output.

Lemma NoDup_submseteq_mono {A} (l k : list A) : l ⊆+ k -> NoDup k -> NoDup l.
Proof.
  intros [k' Hk]%submseteq_Permutation. rewrite Hk. intros Hnd. by apply NoDup_app in Hnd as [? _].
Qed.

Lemma detect_unmerged self candle phase keys out :
  candidate_keys candle (bd_grid self) = Ok keys ->
  negb (defer_merging self phase) && any_merge self = false ->
  detect self candle phase = Ok out ->
  exists vs,
    traverse (classify self candle (active_tiers self phase)) (BTreeSet.elements keys) = Ok vs /\
    out = unmerged self (omap id vs).
Proof.
  intros Hk Hm H. unfold detect in H. rewrite Hk in H. cbn [rbind] in H.
  pose proof (detect_loop_classify self candle (active_tiers self phase)
                (BTreeSet.elements keys) [] (mkDetectState [[]; []; []] [])) as Hl.
  destruct (traverse _ _) as [vs|]; cbn [rbind]; [|rewrite Hl in H; done].
  destruct Hl as (st & Hfold & Hrows); [done|done|]. rewrite Hfold in H. cbn [rbind] in H.
  rewrite Hm, Hrows, rank_rows_of in H. cbn [rbind] in H. injection H as <-. eauto.
Qed.

(** Without merging, a detection is ranked, bounded, sound and complete:
    the bubbles come in strict tier priority and then by strength; no tier
    exceeds its limit and no bucket is reported twice; every bubble belongs to
    an active tier and reaches its threshold; and a bucket that qualifies is
    left out only when its tier is full of bubbles that rank no lower. *)
Theorem detect_ranks self candle phase keys out :
  grid_ok (bd_grid self) ->
  candidate_keys candle (bd_grid self) = Ok keys ->
  negb (defer_merging self phase) && any_merge self = false ->
  detect self candle phase = Ok out ->
  StronglySorted (not_after output_cmp) out /\
  (forall tier, (length (in_tier tier out) <=
     Z.to_nat (bf_max_bubbles_per_candle (tier_filter self tier)))%nat) /\
  NoDup ((fun b => (ofb_segment b, ofb_anchor_price b)) <$> out) /\
  (forall b, b ∈ out -> ofb_tier b ∈ active_tiers self phase /\
     coefficient (ofb_threshold b) <= strength_of b) /\
  (forall key b, key ∈ BTreeSet.elements keys ->
     classify self candle (active_tiers self phase) key = Ok (Some b) ->
     b ∈ out \/
     (length (in_tier (ofb_tier b) out) =
        Z.to_nat (bf_max_bubbles_per_candle (tier_filter self (ofb_tier b))) /\
      Forall (fun b' => rank_cmp b' b <> Gt) (in_tier (ofb_tier b) out))).
Proof.
  intros Hg Hk Hm Hd. pose proof (detect_unmerged _ _ _ _ _ Hk Hm Hd) as (vs & Hvs & ->).
  pose proof (proj1 (traverse_Ok _ _ _) Hvs) as Hall. set (found := omap id vs).
  split; [apply sort_by_sorted; apply _|]. split.
  { intros tier. rewrite in_tier_unmerged. unfold ranked. rewrite length_take. lia. }
  split.
  { eapply (NoDup_submseteq_mono _ _ (fmap_submseteq _ _ _ (unmerged_submseteq self found))).
    by eapply found_NoDup; [|eapply candidate_keys_NoDup|]. }
  split.
  - intros b Hb. pose proof (elem_of_submseteq _ _ _ Hb (unmerged_submseteq self found)) as Hf.
    apply list_elem_of_omap in Hf as (v & Hv & Hvb).
    destruct v as [?|]; [|done]. injection Hvb as ->. apply list_elem_of_lookup in Hv as [i Hi].
    destruct (Forall2_lookup_r _ _ _ _ _ Hall Hi) as (key & _ & Hc).
    apply classify_Some in Hc as [(_ & _ & ?) ?]. done.
  - intros key b Hkey Hc. apply unmerged_best. apply list_elem_of_omap.
    apply list_elem_of_lookup in Hkey as [i Hi].
    destruct (Forall2_lookup_l _ _ _ _ _ Hall Hi) as (v & Hv & Hc'). rewrite Hc in Hc'.
    injection Hc' as <-. exists (Some b). split; [|done]. apply list_elem_of_lookup. eauto.
Qed.

Definition sample_style : BubbleStyle :=
  mkBubbleStyle Circle 8 48 (mkQuantity (mkFixed 1 0)) (mkQuantity (mkFixed 1 0)) LabelRaw.

Definition sample_filter (tier : BubbleTier) (threshold : ThresholdMode) : BubbleFilter :=
  mkBubbleFilter tier ModeVolume threshold selector_all 1 sample_style.

Definition milli (n : Z) : Quantity := mkQuantity (mkFixed n 3).

Definition sample_bubble_config : BubbleConfig :=
  mkBubbleConfig
    (sample_filter F1 (Adaptive (mkAdaptiveThreshold Balanced 0 (Some (milli 10)) 2 4 9900 2500)))
    (sample_filter F2 (Manual (milli 40))) (sample_filter F3 (Manual (milli 300)))
    merge_disabled Full 2.

Definition sample_detector : BubbleDetector :=
  mkBubbleDetector sample_grid sample_bubble_config [] None.

Definition sample_candle : CandleFlow :=
  match snapshot sample_flow FlowFinal with
  | Ok c => c
  | Err _ => mkCandleFlow 0 FlowLive 0 0 0 None None (milli 0) 0 []
  end.

Example sample_detection :
  rmap (fmap (fun b => (ofb_tier b, strength_of b, ofb_visual_size b, ofb_direction b)))
    (detect sample_detector sample_candle PhaseFinal)
  = Ok [(F3, 350, 22, DirBuy); (F2, 50, 10, DirBuy)].
Proof. vm_compute. reflexivity. Qed.

Definition sample_keys : BTreeSet CandidateKey :=
  [(mkCandidateKey Spot 100, tt); (mkCandidateKey Spot 101, tt)].

Definition sample_output : list OrderFlowBubble :=
  default [] (ok (detect sample_detector sample_candle PhaseFinal)).

Lemma detect_ranks_witness :
  StronglySorted (not_after output_cmp) sample_output /\ length sample_output = 2%nat.
Proof.
  split; [|vm_compute; reflexivity].
  apply (detect_ranks sample_detector sample_candle PhaseFinal sample_keys sample_output).
  - exact sample_grid_ok.
  - vm_compute. reflexivity.
  - reflexivity.
  - vm_compute. reflexivity.
Defined.

(** ** Percentiles and adaptive thresholds *)

Definition count (p : Z -> bool) (l : list Z) : Z := Z.of_nat (length (List.filter p l)).

Definition samples_ok (l : list Z) : Prop :=
  l <> [] /\ Forall (fits U128) l /\ 10000 * Z.of_nat (length l) + 9999 <= int_max U64.

Lemma samples_ok_sort l : samples_ok l -> samples_ok (sort_by cmp l).
Proof.
  intros (H1 & H2 & H3). split; [by rewrite sort_by_nil|]. split; [by rewrite sort_by_perm|].
  by rewrite length_sort_by.
Qed.

Lemma samples_ok_min cap l :
  fits U128 cap -> samples_ok l -> samples_ok ((fun x => Z.min x cap) <$> l).
Proof.
  intros Hc (H1 & H2 & H3). split; [by destruct l|]. split; [|by rewrite length_fmap].
  apply Forall_fmap. eapply Forall_impl; [exact H2|]. intros x Hx. clear -Hx Hc.
  unfold compose. solve_fits.
Qed.

(** The number of elements below and up to the element at one index. *)
Lemma count_le_index (l : list Z) i v :
  StronglySorted (fun a b => a <= b) l -> l !! i = Some v ->
  Z.of_nat i + 1 <= count (fun x => x <=? v) l /\ count (fun x => x <? v) l <= Z.of_nat i.
Proof.
  unfold count. intros Hs. revert i. induction Hs as [|x l Hs IH Hf]; intros i Hi; [done|].
  destruct i as [|i]; simpl in Hi.
  - injection Hi as ->. simpl. rewrite Z.leb_refl, Z.ltb_irrefl. simpl. split; [lia|].
    replace (List.filter (fun x => x <? v) l) with (@nil Z); [simpl; lia|].
    clear -Hf. induction Hf; simpl; [done|]. rewrite (proj2 (Z.ltb_ge _ _)) by done. done.
  - destruct (IH i Hi) as [H1 H2]. simpl. assert (x <= v) as Hx.
    { rewrite Forall_forall in Hf. apply Hf. by eapply list_elem_of_lookup_2. }
    rewrite (proj2 (Z.leb_le _ _) Hx). simpl. split; [lia|].
    destruct (x <? v); simpl; lia.
Qed.

Lemma StronglySorted_weaken {A} (R R' : A -> A -> Prop) l :
  (forall a b, R a b -> R' a b) -> StronglySorted R l -> StronglySorted R' l.
Proof.
  intros HR. induction 1 as [|x l Hs IH Hx]; constructor; [done|].
  eapply Forall_impl; [exact Hx|]. eauto.
Qed.

Lemma sort_by_Z_sorted l : StronglySorted (fun a b => a <= b) (sort_by cmp l).
Proof.
  pose proof (@sort_by_sorted Z (fun a b => cmp (id a) (id b)) (comparator_by id) l) as H.
  eapply StronglySorted_weaken; [|exact H]. intros a b. apply Z.compare_le_iff.
Qed.

Lemma percentile_Ok l bps :
  samples_ok l -> 0 <= bps <= 10000 ->
  exists i v, percentile l bps = Ok v /\ l !! i = Some v /\
    Z.of_nat i = Z.max 0 ((bps * Z.of_nat (length l) + 9999) / 10000 - 1).
Proof.
  intros (Hne & _ & Hlen) Hb. unfold percentile. destruct l as [|x l']; [done|].
  set (l := x :: l') in *. cbn [is_nil l]. fold l.
  set (n := Z.of_nat (length l)) in *. assert (1 <= n) by (unfold n, l; simpl; lia).
  assert (0 <= bps * n <= 10000 * n) by nia.
  rewrite mul_or_fits by (unfold fits; cbn [int_min int_max] in *; lia). cbn [rbind].
  rewrite add_or_fits by (unfold fits; cbn [int_min int_max] in *; lia). cbn [rbind].
  set (r := (bps * n + 9999) / 10000). assert (0 <= r <= n) as Hr.
  { unfold r. split; [apply Z.div_pos; lia|].
    apply Z.lt_succ_r, Z.div_lt_upper_bound; lia. }
  assert (Z.min (saturating_sub U64 r 1) (n - 1) = Z.max 0 (r - 1)) as ->.
  { unfold saturating_sub, saturate. cbn [int_min int_max] in *. lia. }
  exists (Z.to_nat (Z.max 0 (r - 1))).
  destruct (lookup_lt_is_Some_2 l (Z.to_nat (Z.max 0 (r - 1)))) as [v Hv]; [lia|].
  exists v. split; [f_equal; by apply nth_lookup_Some|]. split; [done|]. lia.
Qed.

(** [percentile] is the nearest-rank percentile: on sorted samples it
    returns a sample such that at least the requested share of the samples is
    no greater, and less than that share is smaller; it never fails and never
    indexes out of range. *)
Theorem percentile_nearest_rank l bps :
  samples_ok l -> 0 <= bps <= 10000 ->
  exists v,
    percentile (sort_by cmp l) bps = Ok v /\ v ∈ l /\
    bps * Z.of_nat (length l) <= 10000 * count (fun x => x <=? v) (sort_by cmp l) /\
    (0 < bps -> 10000 * count (fun x => x <? v) (sort_by cmp l) < bps * Z.of_nat (length l)).
Proof.
  intros Hl Hb. set (s := sort_by cmp l).
  assert (samples_ok s) as Hs by by apply samples_ok_sort.
  assert (length s = length l) as Hlen by apply length_sort_by.
  destruct (percentile_Ok s bps Hs Hb) as (i & v & Hp & Hi & Ei). exists v.
  split; [done|]. split; [apply (elem_of_sort_by cmp); by eapply list_elem_of_lookup_2|].
  destruct (count_le_index s i v (sort_by_Z_sorted l) Hi) as [H1 H2]. rewrite Hlen in Ei.
  pose proof (Z.div_mod (bps * Z.of_nat (length l) + 9999) 10000 ltac:(lia)).
  pose proof (Z.mod_pos_bound (bps * Z.of_nat (length l) + 9999) 10000 ltac:(lia)).
  assert (0 < Z.of_nat (length l)) by (destruct Hl as [? _]; destruct l; [done|simpl; lia]).
  split; [lia|]. intros. assert (1 <= bps * Z.of_nat (length l)) by nia. lia.
Qed.

Lemma percentile_nearest_rank_witness :
  exists v, percentile (sort_by cmp [30; 10; 40; 20]) 7500 = Ok v /\ v ∈ [30; 10; 40; 20].
Proof.
  destruct (percentile_nearest_rank [30; 10; 40; 20] 7500) as (v & H1 & H2 & _).
  - split; [done|]. split; [repeat constructor; simpl; lia|simpl; lia].
  - lia.
  - exists v. split; [exact H1|exact H2].
Defined.

Definition adaptive_ok (c : AdaptiveThreshold) : Prop :=
  0 <= at_custom_percentile_bps c <= 10000 /\ 0 <= at_outlier_cap_percentile_bps c <= 10000 /\
  0 <= at_spike_adaptation_bps c <= 10000 /\ 0 < at_minimum_samples c.

Lemma percentile_bps_range p c : 0 <= c <= 10000 -> 0 <= percentile_bps p c <= 10000.
Proof. destruct p; simpl; lia. Qed.

Lemma percentile_elem l bps v :
  samples_ok l -> 0 <= bps <= 10000 -> percentile l bps = Ok v -> v ∈ l.
Proof.
  intros Hl Hb Hp. destruct (percentile_Ok l bps Hl Hb) as (i & v' & Hp' & Hi & _).
  rewrite Hp' in Hp. injection Hp as <-. by eapply list_elem_of_lookup_2.
Qed.

(** The baseline of enough samples: the cap and the historical percentile are
    among the (capped) samples. *)
Lemma adaptive_baseline_Ok floor c samples b :
  adaptive_ok c -> samples_ok samples -> adaptive_baseline floor c samples = Ok b ->
  b = BaselineFloorOnly (if 0 <? floor then Some floor else None) \/
  exists cap hist, cap ∈ samples /\ 0 <= hist <= cap /\
    b = BaselineAdaptive floor cap hist (10000 - at_spike_adaptation_bps c)
          (at_spike_adaptation_bps c).
Proof.
  intros (H1 & H2 & H3 & H4) Hs. unfold adaptive_baseline.
  destruct (_ <? _); [intros [= <-]; by left|]. intros H.
  apply rbind_Ok in H as (cap & Hcap & H). apply rbind_Ok in H as (hist & Hhist & [= <-]).
  right. exists cap, hist.
  pose proof (samples_ok_sort _ Hs) as Hs1.
  apply percentile_elem in Hcap; [|done|done]. rewrite elem_of_sort_by in Hcap.
  assert (forall x, x ∈ samples -> fits U128 x) as Hfit.
  { destruct Hs as (_ & B & _). by rewrite Forall_forall in B. }
  apply percentile_elem in Hhist; [|..|by apply percentile_bps_range].
  - rewrite elem_of_sort_by in Hhist. apply list_elem_of_fmap in Hhist as (x & -> & Hx).
    rewrite elem_of_sort_by in Hx. apply Hfit in Hx. pose proof (Hfit cap Hcap).
    split; [done|]. split; [solve_fits|]. f_equal. unfold saturating_sub, saturate. simpl. lia.
  - apply samples_ok_sort, samples_ok_min; auto.
Qed.

(** An adaptive threshold is bounded by what it was calibrated on: it is
    never below the configured floor and never above the larger of the floor
    and some recorded sample, however strong the bucket under test; so a
    bucket at least as strong as the floor and every sample always passes. *)
Theorem adaptive_threshold_bounds floor c samples b strength t :
  adaptive_ok c -> samples_ok samples -> 0 <= floor -> 0 <= strength ->
  adaptive_baseline floor c samples = Ok b -> threshold_units b strength = Ok (Some t) ->
  floor <= t /\ (t = floor \/ exists sample, sample ∈ samples /\ t <= sample) /\
  (floor <= strength -> Forall (fun sample => sample <= strength) samples -> t <= strength).
Proof.
  intros Hc Hs Hf Hst Hb Ht.
  apply adaptive_baseline_Ok in Hb as [->|(cap & hist & Hcap & Hh & ->)]; [..|done|done].
  - simpl in Ht. destruct (0 <? floor); [|done]. injection Ht as <-.
    split; [lia|]. split; [by left|]. done.
  - simpl in Ht. apply rbind_Ok in Ht as (w & Hw & [= <-]).
    unfold weighted_bps in Hw. apply ok_or_Ok, fmap_Some in Hw as (x & Hx & ->).
    apply bind_Some in Hx as (y & Hy & Hx). apply bind_Some in Hx as (z & Hz & Hx).
    apply to_ty_Some in Hy as [-> _]. apply to_ty_Some in Hz as [-> _].
    apply to_ty_Some in Hx as [-> _]. destruct Hc as (_ & _ & Hsp & _).
    set (k := at_spike_adaptation_bps c) in *. set (m := Z.min strength cap).
    assert ((hist * (10000 - k) + m * k) / 10000 <= cap) as Hle.
    { apply Z.div_le_upper_bound; [lia|]. unfold m. nia. }
    split; [lia|]. split.
    + destruct (Z.max_spec ((hist * (10000 - k) + m * k) / 10000) floor) as [[_ ->]|[_ ->]];
        [by left|right; eauto].
    + intros Hfs Hall. rewrite Forall_forall in Hall. specialize (Hall cap Hcap). simpl in Hall. lia.
Qed.

Definition sample_adaptive : AdaptiveThreshold :=
  mkAdaptiveThreshold Balanced 0 None 2 4 9000 2500.

Lemma adaptive_threshold_bounds_witness :
  5 <= 250 /\ (250 = 5 \/ exists sample, sample ∈ [100; 300; 200; 400] /\ 250 <= sample).
Proof.
  destruct (adaptive_threshold_bounds 5 sample_adaptive [100; 300; 200; 400]
              (BaselineAdaptive 5 400 300 7500 2500) 100 250) as (H1 & H2 & _).
  - repeat split; simpl; lia.
  - split; [done|]. split; [repeat constructor; simpl; lia|simpl; lia].
  - lia.
  - lia.
  - vm_compute. reflexivity.
  - vm_compute. reflexivity.
  - split; [exact H1|exact H2].
Defined.

(** ** The calibration history *)

Definition newer (last : option Z) (candle : CandleFlow) : bool :=
  bool_decide (cf_state candle = FlowFinal)
  && negb (from_option (fun last => cf_start_ts candle <=? last) false last).

(** The candles a sequence of recordings accepts: finalised, and strictly
    newer than the last one accepted. *)
Fixpoint accepted (last : option Z) (cs : list CandleFlow) : list CandleFlow :=
  match cs with
  | [] => []
  | c :: cs' =>
      if newer last c then c :: accepted (Some (cf_start_ts c)) cs' else accepted last cs'
  end.

Definition latest {A} (n : nat) (l : list A) : list A := drop (length l - n) l.

Definition run_record (cs : list CandleFlow) (d : BubbleDetector) : BubbleDetector :=
  foldl (fun d c => snd (record_finalized c d)) d cs.

Lemma pop_front_while_latest {A} max (l : list A) :
  0 <= max -> pop_front_while max l = latest (Z.to_nat max) l.
Proof.
  intros Hm. unfold latest. induction l as [|x l IH]; [done|]. cbn [pop_front_while length].
  destruct (Z.ltb_spec max (Z.of_nat (S (length l)))).
  - rewrite IH. replace (S (length l) - Z.to_nat max)%nat with (S (length l - Z.to_nat max)) by lia.
    done.
  - replace (S (length l) - Z.to_nat max)%nat with 0%nat by lia. done.
Qed.

Lemma latest_snoc {A} n (l : list A) x :
  (1 <= n)%nat -> latest n (latest n l ++ [x]) = latest n (l ++ [x]).
Proof.
  intros Hn. unfold latest. rewrite !length_app, !length_drop. simpl.
  rewrite !drop_app, !drop_drop, !length_drop. f_equal.
  - destruct (decide (n <= length l)%nat); f_equal; lia.
  - f_equal. lia.
Qed.

Lemma record_finalized_cases c d :
  0 <= bc_max_history_candles (bd_config d) ->
  (newer (bd_last_finalized_start_ns d) c = true /\
   record_finalized c d =
     (Ok tt, mkBubbleDetector (bd_grid d) (bd_config d)
               (latest (Z.to_nat (bc_max_history_candles (bd_config d))) (bd_history d ++ [c]))
               (Some (cf_start_ts c)))) \/
  (newer (bd_last_finalized_start_ns d) c = false /\ exists e, record_finalized c d = (Err e, d)).
Proof.
  intros Hm. unfold record_finalized, newer. eff_unfold.
  destruct (bool_decide (cf_state c = FlowFinal)); simpl; [|right; eauto].
  destruct (from_option _ _ _); simpl; [right; eauto|]. left.
  by rewrite pop_front_while_latest.
Qed.

Definition starts_before (a b : CandleFlow) : Prop := cf_start_ts a < cf_start_ts b.

Lemma accepted_ok last cs :
  Forall (fun c => cf_state c = FlowFinal) (accepted last cs) /\
  StronglySorted starts_before (accepted last cs) /\
  forall l, last = Some l -> Forall (fun c => l < cf_start_ts c) (accepted last cs).
Proof.
  revert last. induction cs as [|c cs IH]; intros last; simpl; [repeat constructor|].
  destruct (newer last c) eqn:En; [|apply IH].
  unfold newer in En. apply andb_true_iff in En as [Hf Hn]. apply bool_decide_eq_true in Hf.
  destruct (IH (Some (cf_start_ts c))) as (H1 & H2 & H3). specialize (H3 _ eq_refl).
  split; [by constructor|]. split; [by constructor|]. intros l ->. simpl in Hn.
  apply negb_true_iff, Z.leb_gt in Hn. constructor; [done|].
  eapply Forall_impl; [exact H3|]. simpl. lia.
Qed.

Lemma run_record_spec cs d past :
  1 <= bc_max_history_candles (bd_config d) ->
  bd_history d = latest (Z.to_nat (bc_max_history_candles (bd_config d))) past ->
  bd_grid (run_record cs d) = bd_grid d /\ bd_config (run_record cs d) = bd_config d /\
  bd_history (run_record cs d) =
    latest (Z.to_nat (bc_max_history_candles (bd_config d)))
      (past ++ accepted (bd_last_finalized_start_ns d) cs).
Proof.
  revert d past. induction cs as [|c cs IH]; intros d past Hm Hh; simpl.
  { by rewrite app_nil_r. }
  destruct (record_finalized_cases c d) as [[Hn Hr]|[Hn [e Hr]]]; [lia|..]; rewrite Hr, Hn; simpl.
  - destruct (IH (mkBubbleDetector (bd_grid d) (bd_config d)
               (latest (Z.to_nat (bc_max_history_candles (bd_config d))) (bd_history d ++ [c]))
               (Some (cf_start_ts c))) (past ++ [c])) as (H1 & H2 & H3); simpl; [done|..].
    + rewrite Hh. apply latest_snoc. lia.
    + split; [done|]. split; [done|]. rewrite H3. simpl. by rewrite <- app_assoc.
  - by apply IH.
Qed.

Lemma validate_candles_Ok l previous :
  Forall (fun c => cf_state c = FlowFinal) l -> StronglySorted starts_before l ->
  (forall p, previous = Some p -> Forall (fun c => p < cf_start_ts c) l) ->
  exists r, try_fold validate_candle previous l = Ok r.
Proof.
  intros Hf Hs. revert previous Hf. induction Hs as [|c l Hs IH Hc]; intros previous Hf Hp; simpl.
  { eauto. }
  apply Forall_cons in Hf as [Hfc Hf]. unfold validate_candle at 1.
  rewrite bool_decide_eq_true_2 by done. simpl.
  assert (from_option (fun value => cf_start_ts c <=? value) false previous = false) as ->.
  { destruct previous as [p|]; [|done]. specialize (Hp p eq_refl).
    apply Forall_cons in Hp as [Hp _]. simpl. apply Z.leb_gt. exact Hp. }
  simpl. apply IH; [done|]. intros p [= <-]. exact Hc.
Qed.

(** The detector's history is exactly the latest accepted candles: after
    any sequence of recordings it holds the last [max_history_candles] of the
    finalised, strictly newer candles it was given and nothing of the refused
    ones, it passes the detector's own integrity validation, and a refusal
    changes nothing. *)
Theorem history_latest grid config d cs :
  0 <= bc_max_history_candles config -> detector_new grid config = Ok d ->
  bd_history (run_record cs d) =
    latest (Z.to_nat (bc_max_history_candles config)) (accepted None cs) /\
  detector_validate (run_record cs d) = Ok tt /\
  forall c e d', record_finalized c (run_record cs d) = (Err e, d') -> d' = run_record cs d.
Proof.
  intros Hpos Hnew. unfold detector_new in Hnew.
  destruct (grid_validate grid) as [[]|] eqn:Hg; [|done].
  destruct (bubble_config_validate config) as [[]|] eqn:Hc; [|done]. injection Hnew as <-.
  assert (1 <= bc_max_history_candles config) as Hm.
  { revert Hc. unfold bubble_config_validate, bubble_config_new.
    destruct (Z.eqb_spec (bc_max_history_candles config) 0); [done|lia]. }
  destruct (run_record_spec cs (mkBubbleDetector grid config [] None) [] Hm eq_refl)
    as (Eg & Ec & Eh). simpl in Eg, Ec, Eh.
  split; [exact Eh|]. split.
  - unfold detector_validate, history_len. rewrite Eg, Ec, Eh, Hg, Hc. cbn [rbind].
    destruct (accepted_ok None cs) as (A1 & A2 & _).
    unfold latest. rewrite (proj2 (Z.ltb_ge _ _)) by (rewrite length_drop; lia).
    destruct (validate_candles_Ok (drop (length (accepted None cs) -
        Z.to_nat (bc_max_history_candles config)) (accepted None cs)) None) as [r ->];
      [by apply Forall_drop|by apply StronglySorted_drop|done|done].
  - intros c e d' Hr.
    destruct (record_finalized_cases c (run_record cs (mkBubbleDetector grid config [] None)))
      as [[_ Hr']|[_ [e' Hr']]]; [rewrite Ec; simpl; lia|congruence|congruence].
Qed.

Definition candle_at (ts : Z) : CandleFlow :=
  mkCandleFlow 1 FlowFinal 7 ts (ts + 60) None None (milli 0) 0 [].

Lemma history_latest_witness :
  cf_start_ts <$> bd_history (run_record (candle_at <$> [60; 120; 60; 180; 240]) sample_detector)
  = [180; 240] /\
  detector_validate (run_record (candle_at <$> [60; 120; 60; 180; 240]) sample_detector) = Ok tt.
Proof.
  destruct (history_latest sample_grid sample_bubble_config sample_detector
              (candle_at <$> [60; 120; 60; 180; 240])) as (H1 & H2 & _).
  - simpl. lia.
  - reflexivity.
  - split; [rewrite H1; reflexivity|exact H2].
Defined.

(** ** Merging conserves what it merges *)

Definition sum_of (m : OrderFlowBubble -> Z) (l : list OrderFlowBubble) : Z :=
  foldr (fun b acc => m b + acc) 0 l.

Definition units_of (volume : OrderFlowBubble -> Quantity) (b : OrderFlowBubble) : Z :=
  coefficient (qty0 (volume b)).

(** The quantities a merge adds up. *)
Definition measures : list (OrderFlowBubble -> Z) :=
  [units_of ofb_buy_volume; units_of ofb_sell_volume; units_of ofb_unknown_volume;
   units_of ofb_total_volume; strength_of; ofb_merged_count].

Definition delta_of (b : OrderFlowBubble) : Z :=
  units_of ofb_buy_volume b - units_of ofb_sell_volume b.

(** The shape of the bubbles [materialize] produces. *)
Definition single (g : GridSpec) (b : OrderFlowBubble) : Prop :=
  Forall (fun v => scale (qty0 (v b)) = quantity_scale g)
    [ofb_buy_volume; ofb_sell_volume; ofb_unknown_volume; ofb_total_volume] /\
  ofb_direction b = direction_of (delta_of b) /\ ofb_merged_count b = 1.

Definition in_class (s : MarketSegment) (d : BubbleDirection) (b : OrderFlowBubble) : bool :=
  bool_decide (ofb_segment b = s) && bool_decide (ofb_direction b = d).

Definition class_sum (s : MarketSegment) (d : BubbleDirection) (m : OrderFlowBubble -> Z)
    (l : list OrderFlowBubble) : Z := sum_of (fun b => if in_class s d b then m b else 0) l.

Lemma sum_of_app m l1 l2 : sum_of m (l1 ++ l2) = sum_of m l1 + sum_of m l2.
Proof. induction l1; simpl; lia. Qed.

Lemma sum_of_perm m l1 l2 : l1 ≡ₚ l2 -> sum_of m l1 = sum_of m l2.
Proof. induction 1; simpl; lia. Qed.

Lemma non_negative_units_on_grid g q u :
  scale (qty0 q) = quantity_scale g -> non_negative_quantity_units g q = Ok u ->
  u = coefficient (qty0 q).
Proof.
  intros Hs. unfold non_negative_quantity_units. rewrite <- Hs, rescale_same. simpl.
  destruct (_ <? 0); [done|]. by intros [= <-].
Qed.

Lemma quantity_units_on_grid g q u :
  scale (qty0 q) = quantity_scale g -> quantity_units g q = Ok u -> u = coefficient (qty0 q).
Proof.
  intros Hs. unfold quantity_units. intros (u' & Hu & H)%rbind_Ok.
  apply non_negative_units_on_grid in Hu; [|done]. destruct (_ =? 0); [done|]. congruence.
Qed.

Lemma merge_fold_sums g l acc acc' :
  Forall (single g) l -> try_fold (merge_step g) acc l = Ok acc' ->
  ma_buy acc' = ma_buy acc + sum_of (units_of ofb_buy_volume) l /\
  ma_sell acc' = ma_sell acc + sum_of (units_of ofb_sell_volume) l /\
  ma_unknown acc' = ma_unknown acc + sum_of (units_of ofb_unknown_volume) l /\
  ma_total acc' = ma_total acc + sum_of (units_of ofb_total_volume) l /\
  ma_strength acc' = ma_strength acc + sum_of strength_of l.
Proof.
  intros Hl. revert acc. induction Hl as [|b l (Hv & _ & _) Hl IH]; intros acc; simpl.
  { intros [= <-]. repeat split; lia. }
  intros (acc1 & H1 & H2)%rbind_Ok. apply IH in H2 as (E1 & E2 & E3 & E4 & E5).
  unfold merge_step in H1. ares. simpl in *.
  repeat match goal with H : Forall _ (_ :: _) |- _ => apply Forall_cons in H as [? H] end.
  repeat match goal with
  | H : non_negative_quantity_units _ _ = Ok _ |- _ => apply non_negative_units_on_grid in H; [|done]
  | H : quantity_units _ _ = Ok _ |- _ => apply quantity_units_on_grid in H; [|done]
  end.
  unfold units_of in *. repeat split; lia.
Qed.

Lemma direction_of_cases d x :
  direction_of x = d <-> match d with DirSell => x < 0 | DirNeutral => x = 0 | DirBuy => 0 < x end.
Proof.
  unfold direction_of, cmp, ord_Z. destruct (Z.compare_spec x 0), d; split; (done || lia).
Qed.

Lemma direction_of_sum d b l :
  Forall (fun b => direction_of (delta_of b) = d) (b :: l) ->
  direction_of (sum_of delta_of (b :: l)) = d.
Proof.
  intros [Hb Hl]%Forall_cons. rewrite !direction_of_cases in *.
  assert (match d with DirSell => sum_of delta_of l <= 0 | DirNeutral => sum_of delta_of l = 0
          | DirBuy => 0 <= sum_of delta_of l end) as H.
  { induction Hl as [|c l Hc Hl IH]; simpl; [by destruct d|].
    rewrite direction_of_cases in Hc. destruct d; lia. }
  simpl. destruct d; lia.
Qed.

Lemma sum_of_delta l :
  sum_of delta_of l = sum_of (units_of ofb_buy_volume) l - sum_of (units_of ofb_sell_volume) l.
Proof. induction l as [|b l IH]; [done|]. simpl. rewrite IH. unfold delta_of. lia. Qed.

Lemma sum_of_count l : Forall (fun b => ofb_merged_count b = 1) l -> sum_of ofb_merged_count l = Z.of_nat (length l).
Proof. induction 1; simpl; lia. Qed.

Definition same_class (a b : OrderFlowBubble) : Prop :=
  ofb_segment a = ofb_segment b /\ ofb_direction a = ofb_direction b.

Lemma Ok_inj {A E} (a b : A) : (Ok a : result A E) = Ok b -> a = b.
Proof. congruence. Qed.

Lemma quantity_at_inv g u q :
  quantity_at g u = Ok q -> q = mkQuantity (mkFixed u (quantity_scale g)).
Proof. unfold quantity_at. destruct (_ <? _); [done|]. by intros [= <-]. Qed.

Lemma merge_group_sums self first rest b :
  Forall (single (bd_grid self)) (first :: rest) -> Forall (same_class first) rest ->
  merge_group self first rest = Ok b ->
  same_class first b /\ Forall (fun m => m b = sum_of m (first :: rest)) measures.
Proof.
  intros Hs Hc H. unfold merge_group in H.
  apply rbind_Ok in H as (anchor & Ha & H). apply ok_or_Ok in Ha.
  apply rbind_Ok in H as (acc & Hacc & H).
  apply merge_fold_sums in Hacc as (E1 & E2 & E3 & E4 & E5); [|done].
  cbn [ma_buy ma_sell ma_unknown ma_total ma_strength] in *.
  assert (same_class first anchor) as [Hseg Hdir].
  { pose proof (max_fold_elem anchor_cmp first rest) as Hin. injection Ha as Ha.
    rewrite Ha in Hin. apply elem_of_cons in Hin as [->|Hin]; [done|].
    rewrite Forall_forall in Hc. by apply Hc. }
  apply rbind_Ok in H as (delta & [-> _]%sub_or_Ok & H).
  do 3 (apply rbind_Ok in H as (? & _ & H)).
  apply rbind_Ok in H as (buy & ->%quantity_at_inv & H).
  apply rbind_Ok in H as (sell & ->%quantity_at_inv & H).
  apply rbind_Ok in H as (unknown & ->%quantity_at_inv & H).
  apply rbind_Ok in H as (total & ->%quantity_at_inv & H).
  apply rbind_Ok in H as (? & _ & H).
  apply rbind_Ok in H as (count & [-> _]%ok_or_Ok%to_ty_Some & H).
  apply Ok_inj in H as <-. split.
  - split; [exact Hseg|]. cbn [ofb_direction]. symmetry.
    rewrite E1, E2, !Z.add_0_l, <- sum_of_delta. apply direction_of_sum.
    assert (Forall (same_class first) (first :: rest)) as Hc' by (by constructor).
    apply Forall_forall. intros y Hy. rewrite Forall_forall in Hs, Hc'.
    destruct (Hs y Hy) as (_ & Hd & _). destruct (Hc' y Hy) as [_ Hd']. congruence.
  - unfold measures. repeat (apply Forall_cons; split); [..|done];
      [unfold units_of at 1; cbn [ofb_buy_volume ofb_sell_volume ofb_unknown_volume
         ofb_total_volume qty0 coefficient]; lia..
      |unfold strength_of at 1; cbn [ofb_strength coefficient]; lia|cbn [ofb_merged_count]].
    rewrite sum_of_count; [done|]. eapply Forall_impl; [exact Hs|]. by intros y (_ & _ & ?).
Qed.

Lemma merge_run_split self previous rest group rest' :
  merge_run self previous rest = Ok (group, rest') ->
  rest = group ++ rest' /\ Forall (same_class previous) group.
Proof.
  revert previous group rest'. induction rest as [|next rest IH]; intros previous group rest'; simpl.
  { intros [= <- <-]. done. }
  destruct (decide (ofb_segment previous = ofb_segment next)) as [E1|];
    [|rewrite bool_decide_eq_false_2 by done; intros [= <- <-]; done].
  destruct (decide (ofb_direction previous = ofb_direction next)) as [E2|];
    [|rewrite (bool_decide_eq_false_2 (ofb_direction _ = _)), orb_true_r by done;
      intros [= <- <-]; done].
  destruct (_ || _); [intros [= <- <-]; done|].
  intros H. do 4 (apply rbind_Ok in H as (? & _ & H)).
  destruct (_ <? _); [injection H as <- <-; done|].
  apply rbind_Ok in H as ([g r] & Hr & [= <- <-]). apply IH in Hr as [-> Hg].
  split; [done|]. constructor; [done|]. eapply Forall_impl; [exact Hg|].
  intros y [? ?]. split; congruence.
Qed.

Lemma class_sum_group s d m first rest b :
  same_class first b -> Forall (same_class first) rest -> m b = sum_of m (first :: rest) ->
  class_sum s d m [b] = class_sum s d m (first :: rest).
Proof.
  intros Hb Hr Hm. unfold class_sum.
  assert (forall y, same_class first y -> in_class s d y = in_class s d first) as Hin.
  { intros y [H1 H2]. unfold in_class. by rewrite H1, H2. }
  assert (sum_of (fun y => if in_class s d y then m y else 0) (first :: rest) =
          if in_class s d first then sum_of m (first :: rest) else 0) as ->.
  { simpl. clear Hm. induction Hr as [|y rest Hy Hr IH]; simpl.
    - destruct (in_class s d first); lia.
    - rewrite (Hin y Hy). destruct (in_class s d first); lia. }
  rewrite <- Hm. simpl. rewrite (Hin b Hb). destruct (in_class s d first); lia.
Qed.

Lemma merge_loop_conserves self fuel l out s d :
  (length l <= fuel)%nat -> Forall (single (bd_grid self)) l -> merge_loop self fuel l = Ok out ->
  Forall (fun m => class_sum s d m out = class_sum s d m l) measures.
Proof.
  revert l out. induction fuel as [|fuel IH]; intros [|b l] out Hlen Hs; simpl in Hlen; try lia.
  1,2: intros [= <-]; by apply Forall_true.
  cbn [merge_loop]. pose proof Hs as [Hb Hl]%Forall_cons.
  destruct (merge_enabled _ _); cbn [negb].
  - intros ([group rest] & Hrun & H)%rbind_Ok. apply merge_run_split in Hrun as [-> Hc].
    apply Forall_app in Hl as [Hg Hrest]. rewrite length_app in Hlen.
    apply rbind_Ok in H as (merged & Hm & H). apply rbind_Ok in H as (out' & Hout & H).
    apply Ok_inj in H as <-. apply IH in Hout; [|lia|done].
    assert (Forall (fun m => class_sum s d m [merged] = class_sum s d m (b :: group)) measures) as Hg'.
    { destruct group as [|b' group]; [apply Ok_inj in Hm as ->; by apply Forall_true|].
      apply merge_group_sums in Hm as [Hb' Hsum]; [|by constructor|done].
      eapply Forall_impl; [exact Hsum|]. intros m. by apply class_sum_group. }
    eapply Forall_impl; [apply Forall_and; split; [exact Hg'|exact Hout]|]. intros m [E1 E2].
    unfold class_sum in *. rewrite app_comm_cons, sum_of_app, <- E1, <- E2. simpl. lia.
  - intros (out' & Hout & H)%rbind_Ok. apply Ok_inj in H as <-. apply IH in Hout; [|lia|done].
    eapply Forall_impl; [exact Hout|]. intros m E. unfold class_sum in *. simpl. lia.
Qed.

(** Merging only regroups: per market segment and direction, the buy,
    sell, unknown and total volumes, the strengths and the number of merged
    bubbles add up to the same totals before and after, so different segments
    or opposite directions are never collapsed into one bubble. *)
Theorem merge_conserves self bubbles out s d :
  Forall (single (bd_grid self)) bubbles -> merge self bubbles = Ok out ->
  Forall (fun m => class_sum s d m out = class_sum s d m bubbles) measures.
Proof.
  intros Hs Hm. unfold merge in Hm.
  apply (merge_loop_conserves _ _ _ _ s d) in Hm.
  - eapply Forall_impl; [exact Hm|]. intros m ->. apply sum_of_perm, sort_by_perm.
  - by rewrite length_sort_by.
  - by rewrite sort_by_perm.
Qed.

Definition merging_detector : BubbleDetector :=
  mkBubbleDetector sample_grid
    (mkBubbleConfig (sample_filter F1 ThresholdOff) (sample_filter F2 (Manual (milli 40)))
       (sample_filter F3 (Manual (milli 300))) (mkMergeConfig (true, true, true) 2 sample_style)
       Full 2) [] None.

Definition sample_merged : list OrderFlowBubble :=
  default [] (ok (merge merging_detector sample_output)).

Lemma merge_conserves_witness :
  length sample_merged = 1%nat /\
  Forall (fun m => class_sum Spot DirBuy m sample_merged = class_sum Spot DirBuy m sample_output)
    measures /\
  class_sum Spot DirBuy (units_of ofb_total_volume) sample_merged = 400.
Proof.
  split; [vm_compute; reflexivity|]. split; [|vm_compute; reflexivity].
  apply (merge_conserves merging_detector).
  - vm_compute. repeat constructor.
  - vm_compute. reflexivity.
Defined.
