(* ===== verification/Levels.v ===== *)
(** * Structural levels ([crates/analytics/src/levels.rs])

    A bounded state machine over finalised candles and their bubbles: naked
    levels that no later candle has touched, reaction highs and lows confirmed
    by three candles, and the strongest bubbles of the day and of the week per
    side. *)

From stdpp Require Import base tactics numbers strings option relations list sorting.
From Stdlib Require Import ZArith Lia.
From S2P Require Import Prelude Collections Fixed Model AnalyticsCore CandleFlow Bubbles.

Local Open Scope Z_scope.

Definition DAY_NS : Z := 86400000000000.
Definition WEEK_NS : Z := 604800000000000.

(** ** Data *)

Inductive StructuralLevelKind := Naked | ReactionHigh | ReactionLow | TopDay | TopWeek.
Inductive StructuralLevelState := Active | Touched.

#[export] Instance StructuralLevelKind_eq_dec : EqDecision StructuralLevelKind.
Proof. solve_decision. Defined.
#[export] Instance StructuralLevelState_eq_dec : EqDecision StructuralLevelState.
Proof. solve_decision. Defined.

Record StructuralLevel := mkStructuralLevel {
  sl_id : Z;
  sl_kind : StructuralLevelKind;
  sl_state : StructuralLevelState;
  sl_source_bubble_id : Z;
  sl_direction : BubbleDirection;
  sl_tier : BubbleTier;
  sl_price : Price;
  sl_strength : Fixed;
  sl_created_at_ns : Z;
  sl_touched_at_ns : option Z;
  sl_window_start_ns : option Z;
  sl_expires_at_ns : option Z
}.

#[export] Instance eta_StructuralLevel : Eta StructuralLevel := fun l =>
  mkStructuralLevel (sl_id l) (sl_kind l) (sl_state l) (sl_source_bubble_id l) (sl_direction l)
    (sl_tier l) (sl_price l) (sl_strength l) (sl_created_at_ns l) (sl_touched_at_ns l)
    (sl_window_start_ns l) (sl_expires_at_ns l).

Record StructuralLevelConfig := mkStructuralLevelConfig {
  slc_touch_tolerance_ticks : Z;
  slc_max_levels : Z;
  slc_top_per_side : Z
}.

Definition level_config_new (touch_tolerance_ticks max_levels top_per_side : Z)
    : result StructuralLevelConfig AnalyticsError :=
  if max_levels =? 0 then Err (invalid_config "max_levels" "must be greater than zero")
  else if top_per_side =? 0 then Err (invalid_config "top_per_side" "must be greater than zero")
  else
    let? reserved_top_levels :=
      ok_or (checked_mul U64 top_per_side 4)
        (invalid_config "top_per_side" "is too large to reserve daily and weekly levels") in
    if max_levels <? reserved_top_levels then
      Err (invalid_config "max_levels" "must fit daily and weekly top levels for both sides")
    else Ok (mkStructuralLevelConfig touch_tolerance_ticks max_levels top_per_side).

Record CandleFrame := mkCandleFrame {
  frame_candle : CandleFlow;
  frame_bubbles : list OrderFlowBubble
}.

Record StructuralLevelEngine := mkStructuralLevelEngine {
  sle_grid : GridSpec;
  sle_config : StructuralLevelConfig;
  sle_last_candle_start_ns : option Z;
  sle_frames : list CandleFrame;
  sle_pending_naked : list OrderFlowBubble;
  sle_levels : list StructuralLevel
}.

#[export] Instance eta_StructuralLevelEngine : Eta StructuralLevelEngine := fun e =>
  mkStructuralLevelEngine (sle_grid e) (sle_config e) (sle_last_candle_start_ns e)
    (sle_frames e) (sle_pending_naked e) (sle_levels e).

Definition engine_new (grid : GridSpec) (config : StructuralLevelConfig)
    : result StructuralLevelEngine AnalyticsError :=
  grid_validate grid ?;
  level_config_new (slc_touch_tolerance_ticks config) (slc_max_levels config)
    (slc_top_per_side config) ?;
  Ok (mkStructuralLevelEngine grid config None [] [] []).

Definition level_snapshots (self : StructuralLevelEngine) : list StructuralLevel :=
  sle_levels self.

(** ** Helpers *)

Definition compare_fixed (left right : Fixed) : comparison :=
  if scale left =? scale right then cmp (coefficient left) (coefficient right)
  else
    let s := Z.max (scale left) (scale right) in
    match rescale left s ExactOnly, rescale right s ExactOnly with
    | Ok l, Ok r => cmp (coefficient l) (coefficient r)
    | _, _ =>
        then_with (cmp (scale left) (scale right)) (cmp (coefficient left) (coefficient right))
    end.

Definition kind_code (kind : StructuralLevelKind) : Z :=
  match kind with
  | Naked => 1 | ReactionHigh => 2 | ReactionLow => 3 | TopDay => 4 | TopWeek => 5
  end.

Definition level_id (kind : StructuralLevelKind) (bubble_id salt : Z) : Z :=
  foldl (fun value part => wrap U64 (Z.lxor value part * 1099511628211))
    14695981039346656037 [kind_code kind; bubble_id; wrap U64 salt].

Definition level_from_bubble (kind : StructuralLevelKind) (price : Price) (created_at_ns : Z)
    (window_start_ns expires_at_ns : option Z) (bubble : OrderFlowBubble) : StructuralLevel :=
  {| sl_id := level_id kind (ofb_id bubble) (default created_at_ns window_start_ns);
     sl_kind := kind;
     sl_state := Active;
     sl_source_bubble_id := ofb_id bubble;
     sl_direction := ofb_direction bubble;
     sl_tier := ofb_tier bubble;
     sl_price := price;
     sl_strength := ofb_strength bubble;
     sl_created_at_ns := created_at_ns;
     sl_touched_at_ns := None;
     sl_window_start_ns := window_start_ns;
     sl_expires_at_ns := expires_at_ns |}.

(** A candle's tick range, widened by the tolerance, contains [tick]. *)
Definition in_reach (tolerance low_tick high_tick tick : Z) : bool :=
  (low_tick <=? saturating_add I128 tick tolerance)
  && (saturating_sub I128 tick tolerance <=? high_tick).

(** [VecDeque::remove(index)]. *)
Definition remove_at {A} (l : list A) (i : nat) : list A := delete i l.

Definition is_top (kind : StructuralLevelKind) : bool :=
  match kind with TopDay | TopWeek => true | _ => false end.

(** ** Operations

    All of them work on a clone that replaces the engine only on success, so
    an error needs no partial state. *)

Definition touch_level (self : StructuralLevelEngine) (candle : CandleFlow)
    (low_tick high_tick : Z) (level : StructuralLevel) : result StructuralLevel AnalyticsError :=
  if negb (bool_decide (sl_state level = Active)) || is_top (sl_kind level)
     || (cf_end_ts candle <=? sl_created_at_ns level) then Ok level
  else
    let? tick := price_tick (sle_grid self) (sl_price level) in
    if in_reach (slc_touch_tolerance_ticks (sle_config self)) low_tick high_tick tick then
      Ok (level ⟪ sl_state := Touched ⟫ ⟪ sl_touched_at_ns := Some (cf_end_ts candle) ⟫)
    else Ok level.

Definition touch_existing (candle : CandleFlow) (low_tick high_tick : Z)
    (self : StructuralLevelEngine) : result StructuralLevelEngine AnalyticsError :=
  let? levels := traverse (touch_level self candle low_tick high_tick) (sle_levels self) in
  Ok (self ⟪ sle_levels := levels ⟫).

Definition activate_bubble (self : StructuralLevelEngine) (candle : CandleFlow)
    (low_tick high_tick : Z) (levels : list StructuralLevel) (bubble : OrderFlowBubble)
    : result (list StructuralLevel) AnalyticsError :=
  let? tick := price_tick (sle_grid self) (ofb_anchor_price bubble) in
  if in_reach (slc_touch_tolerance_ticks (sle_config self)) low_tick high_tick tick then Ok levels
  else Ok (levels ++ [level_from_bubble Naked (ofb_anchor_price bubble) (cf_end_ts candle) None
                        None bubble]).

Definition activate_naked (candle : CandleFlow) (low_tick high_tick : Z)
    (self : StructuralLevelEngine) : result StructuralLevelEngine AnalyticsError :=
  let? levels := try_fold (activate_bubble self candle low_tick high_tick) (sle_levels self)
                   (sle_pending_naked self) in
  Ok (self ⟪ sle_pending_naked := [] ⟫ ⟪ sle_levels := levels ⟫).

Definition strongest_cmp (left right : OrderFlowBubble) : comparison :=
  then_with (compare_fixed (ofb_strength left) (ofb_strength right))
    (cmp (ofb_id right) (ofb_id left)).

Definition confirm_reactions (self : StructuralLevelEngine)
    : result StructuralLevelEngine AnalyticsError :=
  match sle_frames self with
  | [l; c; r] =>
      match cf_high (frame_candle l), cf_high (frame_candle c),
            cf_high (frame_candle r), cf_low (frame_candle l),
            cf_low (frame_candle c), cf_low (frame_candle r) with
      | Some left_high, Some center_high, Some right_high,
        Some left_low, Some center_low, Some right_low =>
          let? lh := price_tick (sle_grid self) left_high in
          let? ch := price_tick (sle_grid self) center_high in
          let? rh := price_tick (sle_grid self) right_high in
          let? ll := price_tick (sle_grid self) left_low in
          let? cl := price_tick (sle_grid self) center_low in
          let? rl := price_tick (sle_grid self) right_low in
          let is_high := (lh <? ch) && (rh <? ch) in
          let is_low := (cl <? ll) && (cl <? rl) in
          let created := cf_end_ts (frame_candle r) in
          match max_by strongest_cmp (frame_bubbles c) with
          | None => Ok self
          | Some bubble =>
              let highs := if is_high then
                             [level_from_bubble ReactionHigh center_high created None None bubble]
                           else [] in
              let lows := if is_low then
                            [level_from_bubble ReactionLow center_low created None None bubble]
                          else [] in
              Ok (self ⟪ sle_levels := sle_levels self ++ highs ++ lows ⟫)
          end
      | _, _, _, _, _, _ => Ok self
      end
  | _ => Ok self
  end.

(** One candidate of [trim_top]: index, strength, source bubble. *)
Definition trim_cmp (a b : nat * Fixed * Z) : comparison :=
  then_with (compare_fixed b.1.2 a.1.2)
    (then_with (cmp a.2 b.2) (cmp (Z.of_nat a.1.1) (Z.of_nat b.1.1))).

Definition trim_class (kind : StructuralLevelKind) (window_start : Z)
    (direction : BubbleDirection) (level : StructuralLevel) : Prop :=
  sl_kind level = kind /\ sl_window_start_ns level = Some window_start /\
  sl_direction level = direction.

#[export] Instance trim_class_dec kind w d level : Decision (trim_class kind w d level).
Proof. unfold trim_class. apply _. Defined.

Definition trim_triple (p : nat * StructuralLevel) : nat * Fixed * Z :=
  (p.1, sl_strength p.2, sl_source_bubble_id p.2).

Definition trim_side (top_per_side : Z) (class : StructuralLevel -> Prop)
    `{forall level, Decision (class level)} (levels : list StructuralLevel)
    : list StructuralLevel :=
  let matches := trim_triple <$> filter (fun p => class p.2) (imap pair levels) in
  let matches := sort_by trim_cmp matches in
  let remove := (fun m => m.1.1) <$> drop (Z.to_nat top_per_side) matches in
  foldl remove_at levels
    (sort_by (fun left right => cmp (Z.of_nat right) (Z.of_nat left)) remove).

Definition trim_top (kind : StructuralLevelKind) (window_start : Z)
    (self : StructuralLevelEngine) : StructuralLevelEngine :=
  foldl (fun self direction =>
      self ⟪ sle_levels := trim_side (slc_top_per_side (sle_config self))
                             (trim_class kind window_start direction) (sle_levels self) ⟫)
    self [DirBuy; DirSell].

(** The product of the window start is an unchecked [i64] multiplication. *)
Definition window_start (start_ts window_ns : Z) : Z :=
  wrap I64 (start_ts / window_ns * window_ns).

Definition update_top_kind (candle : CandleFlow) (bubbles : list OrderFlowBubble)
    (self : StructuralLevelEngine) (window : StructuralLevelKind * Z)
    : result StructuralLevelEngine AnalyticsError :=
  let '(kind, window_ns) := window in
  let start := window_start (cf_start_ts candle) window_ns in
  let? expires := ok_or (checked_add I64 start window_ns)
                    (ArithmeticOverflow "calculating structural level expiry") in
  let retained := filter (fun level =>
      sl_kind level <> kind \/ sl_window_start_ns level = Some start) (sle_levels self) in
  let added := (fun bubble => level_from_bubble kind (ofb_anchor_price bubble)
                                (cf_end_ts candle) (Some start) (Some expires) bubble) <$>
    filter (fun bubble => ofb_direction bubble <> DirNeutral) bubbles in
  Ok (trim_top kind start (self ⟪ sle_levels := retained ++ added ⟫)).

Definition update_top_levels (candle : CandleFlow) (bubbles : list OrderFlowBubble)
    (self : StructuralLevelEngine) : result StructuralLevelEngine AnalyticsError :=
  try_fold (update_top_kind candle bubbles) self [(TopDay, DAY_NS); (TopWeek, WEEK_NS)].

(** [iter().position(p)]. *)
Fixpoint position_of {A} (p : A -> bool) (l : list A) : option nat :=
  match l with
  | [] => None
  | x :: l' => if p x then Some 0%nat else S <$> position_of p l'
  end.

(** Every round of the loop removes a level, so the number of levels is
    enough fuel. *)
Fixpoint evict (fuel : nat) (max_levels : Z) (levels : list StructuralLevel)
    : list StructuralLevel :=
  match fuel with
  | O => levels
  | S fuel =>
      if max_levels <? Z.of_nat (length levels) then
        let remove := default 0%nat
                        (position_of (fun level => bool_decide (sl_state level = Touched)) levels) in
        evict fuel max_levels (remove_at levels remove)
      else levels
  end.

Definition enforce_capacity (self : StructuralLevelEngine) : StructuralLevelEngine :=
  self ⟪ sle_levels := evict (length (sle_levels self)) (slc_max_levels (sle_config self))
                         (sle_levels self) ⟫.

Definition check_bubble (self : StructuralLevelEngine) (candle : CandleFlow)
    (bubble : OrderFlowBubble) : result unit AnalyticsError :=
  if negb (ofb_instrument bubble =? cf_instrument candle)
     || negb (ofb_candle_start_ns bubble =? cf_start_ts candle)
     || negb (ofb_candle_end_ns bubble =? cf_end_ts candle) then
    Err (CorruptSnapshot "bubble does not belong to finalized candle")
  else price_tick (sle_grid self) (ofb_anchor_price bubble) ?; Ok tt.

Definition ingest_checked (candle : CandleFlow) (bubbles : list OrderFlowBubble)
    (self : StructuralLevelEngine) : result StructuralLevelEngine AnalyticsError :=
  if negb (bool_decide (cf_state candle = FlowFinal)) then
    Err (CorruptSnapshot "structural levels require a finalized candle")
  else
    match sle_last_candle_start_ns self with
    | Some previous =>
        if cf_start_ts candle <=? previous then
          Err (LateTrade (cf_start_ts candle) (saturating_add I64 previous 1))
        else Ok tt
    | None => Ok tt
    end ?;
    try_fold (fun _ bubble => check_bubble self candle bubble) tt bubbles ?;
    let? high := ok_or (cf_high candle) (CorruptSnapshot "finalized candle is missing high") in
    let? low := ok_or (cf_low candle) (CorruptSnapshot "finalized candle is missing low") in
    let? high_tick := price_tick (sle_grid self) high in
    let? low_tick := price_tick (sle_grid self) low in
    if high_tick <? low_tick then Err (CorruptSnapshot "finalized candle low exceeds high")
    else
      let? self := touch_existing candle low_tick high_tick self in
      let? self := activate_naked candle low_tick high_tick self in
      let self := self ⟪ sle_frames :=
                    pop_front_while 3 (sle_frames self ++ [mkCandleFrame candle bubbles]) ⟫ in
      let? self := confirm_reactions self in
      let? self := update_top_levels candle bubbles self in
      let self := self ⟪ sle_pending_naked := bubbles ⟫
                       ⟪ sle_last_candle_start_ns := Some (cf_start_ts candle) ⟫ in
      Ok (enforce_capacity self).

Definition ingest_finalized (candle : CandleFlow) (bubbles : list OrderFlowBubble)
    : Eff StructuralLevelEngine AnalyticsError unit := fun self =>
  match ingest_checked candle bubbles self with
  | Ok next => (Ok tt, next)
  | Err e => (Err e, self)
  end.

(** ** Removing by index *)

Fixpoint index_from {A} (n : nat) (l : list A) : list (nat * A) :=
  match l with [] => [] | x :: l' => (n, x) :: index_from (S n) l' end.

Lemma imap_index_from {A} (l : list A) : imap pair l = index_from 0 l.
Proof.
  cut (forall n, imap (fun i x => ((n + i)%nat, x)) l = index_from n l); [intros H; apply (H 0%nat)|].
  induction l as [|x l IH]; intros n; [done|]. cbn [imap index_from].
  rewrite Nat.add_0_r. f_equal. rewrite <- IH. apply imap_ext. intros i y _. unfold compose.
  f_equal. lia.
Qed.

Lemma index_from_ge {A} n (l : list A) i x : (i, x) ∈ index_from n l -> (n <= i)%nat.
Proof.
  revert n. induction l as [|y l IH]; intros n; simpl; [by intros ?%not_elem_of_nil|].
  intros [[= -> ->]|H]%elem_of_cons; [done|]. apply IH in H. lia.
Qed.

Lemma index_from_NoDup {A} n (l : list A) : NoDup (index_from n l).*1.
Proof.
  revert n. induction l as [|x l IH]; intros n; simpl; constructor; [|done].
  intros ([i y] & Hi & Hin)%list_elem_of_fmap. apply index_from_ge in Hin. simpl in Hi. lia.
Qed.

Lemma index_from_snd {A} n (l : list A) : (index_from n l).*2 = l.
Proof. revert n. induction l as [|x l IH]; intros n; simpl; [done|]. by rewrite IH. Qed.

(** The elements whose index is not among [idxs]. *)
Definition keep_except {A} (n : nat) (idxs : list nat) (l : list A) : list A :=
  (filter (fun p => p.1 ∉ idxs) (index_from n l)).*2.

Lemma keep_except_above {A} n idxs (l : list A) :
  Forall (fun i => (i < n)%nat) idxs -> keep_except n idxs l = l.
Proof.
  unfold keep_except. revert n. induction l as [|x l IH]; intros n Hi; [done|]. simpl.
  rewrite filter_cons_True.
  - simpl. f_equal. apply IH. eapply Forall_impl; [exact Hi|]. simpl. lia.
  - rewrite Forall_forall in Hi. intros H%Hi. simpl in H. lia.
Qed.

Lemma keep_except_delete {A} n i idxs (l : list A) :
  Forall (fun j => (j < n + i)%nat) idxs ->
  keep_except n idxs (delete i l) = keep_except n ((n + i)%nat :: idxs) l.
Proof.
  revert n i. induction l as [|x l IH]; intros n i Hi; [by destruct i|].
  destruct i as [|i].
  - rewrite Nat.add_0_r in *. simpl. rewrite keep_except_above by done.
    unfold keep_except. simpl. rewrite filter_cons_False by (simpl; set_solver).
    symmetry. apply keep_except_above. constructor; [lia|].
    eapply Forall_impl; [exact Hi|]. simpl. lia.
  - specialize (IH (S n) i). replace (S n + i)%nat with (n + S i)%nat in IH by lia.
    specialize (IH Hi). unfold keep_except in *. cbn [delete list_delete index_from].
    destruct (decide (n ∈ idxs)) as [Hin|Hin].
    + rewrite !filter_cons_False by (simpl; set_solver). exact IH.
    + rewrite !filter_cons_True by (simpl; rewrite ?not_elem_of_cons;
        first [done | split; [lia|done]]).
      cbn [fmap list_fmap]. f_equal. exact IH.
Qed.

Lemma remove_descending {A} idxs (l : list A) :
  StronglySorted (fun i j => (j < i)%nat) idxs ->
  foldl remove_at l idxs = keep_except 0 idxs l.
Proof.
  intros Hs. revert l. induction Hs as [|i idxs Hs IH Hi]; intros l; simpl.
  - by rewrite keep_except_above.
  - rewrite IH. unfold remove_at. by rewrite (keep_except_delete 0 i).
Qed.

Lemma sort_descending (l : list nat) :
  NoDup l -> StronglySorted (fun i j => (j < i)%nat)
    (sort_by (fun left right => cmp (Z.of_nat right) (Z.of_nat left)) l).
Proof.
  intros Hnd. assert (NoDup (sort_by (fun left right => cmp (Z.of_nat right) (Z.of_nat left)) l))
    as Hnd' by by rewrite sort_by_perm.
  pose proof (@sort_by_sorted nat (fun left right => cmp (Z.of_nat right) (Z.of_nat left))
    (comparator_rev _ (comparator_by Z.of_nat)) l) as Hs.
  induction Hs as [|i s Hs IH Hi]; constructor.
  - apply IH. by apply NoDup_cons in Hnd' as [_ ?].
  - apply NoDup_cons in Hnd' as [Hni _]. rewrite Forall_forall in *. intros j Hj.
    specialize (Hi j Hj). unfold not_after, cmp, ord_Z in Hi. rewrite Z.compare_le_iff in Hi.
    assert (i <> j) by congruence. lia.
Qed.

(** ** Trimming a side keeps its strongest levels *)

Lemma insert_by_fmap {A B} (f : A -> B) c x l :
  insert_by c (f x) (f <$> l) = f <$> insert_by (fun a b => c (f a) (f b)) x l.
Proof.
  induction l as [|y l IH]; [done|]. simpl. destruct (c (f x) (f y)); [done|done|].
  simpl. f_equal. exact IH.
Qed.

Lemma sort_by_fmap {A B} (f : A -> B) c l :
  sort_by c (f <$> l) = f <$> sort_by (fun a b => c (f a) (f b)) l.
Proof. 
  unfold sort_by. induction l as [|x l IH]; [done|]. rewrite fmap_cons. cbn [foldr].
  rewrite IH. apply insert_by_fmap.
Qed.

Lemma insert_by_ext {A} (c c' : A -> A -> comparison) x l :
  (forall y, y ∈ l -> c x y = c' x y) -> insert_by c x l = insert_by c' x l.
Proof.
  induction l as [|y l IH]; intros H; [done|]. simpl. rewrite (H y) by left.
  destruct (c' x y); [done|done|]. f_equal. apply IH. intros. apply H. by right.
Qed.

Lemma sort_by_ext {A} (c c' : A -> A -> comparison) l :
  (forall x y, x ∈ l -> y ∈ l -> c x y = c' x y) -> sort_by c l = sort_by c' l.
Proof.
  induction l as [|x l IH]; intros H; [done|]. simpl.
  rewrite IH by (intros; apply H; by right). apply insert_by_ext.
  intros y Hy. rewrite elem_of_sort_by in Hy. apply H; [left|by right].
Qed.

Lemma filter_fmap_snd {A} (P : A -> Prop) `{forall x, Decision (P x)} (l : list (nat * A)) :
  filter P l.*2 = (filter (fun p => P p.2) l).*2.
Proof.
  induction l as [|[i x] l IH]; [done|]. cbn [fmap list_fmap snd]. rewrite !filter_cons. simpl.
  rewrite IH. by destruct (decide (P x)).
Qed.

Lemma filter_all {A} (P : A -> Prop) `{forall x, Decision (P x)} l : Forall P l -> filter P l = l.
Proof. induction 1; [done|]. rewrite filter_cons_True by done. by f_equal. Qed.

Lemma filter_none {A} (P : A -> Prop) `{forall x, Decision (P x)} l :
  Forall (fun x => ~ P x) l -> filter P l = [].
Proof. induction 1; [done|]. by rewrite filter_cons_False. Qed.

Lemma NoDup_fst_inj {A} (l : list (nat * A)) i x y :
  NoDup l.*1 -> (i, x) ∈ l -> (i, y) ∈ l -> x = y.
Proof.
  intros Hnd. induction l as [|[j z] l IH]; [by intros ?%not_elem_of_nil|].
  simpl in Hnd. apply NoDup_cons in Hnd as [Hni Hnd].
  assert (forall w, (j, w) ∉ l) as Hj.
  { intros w Hw. apply Hni, list_elem_of_fmap. by exists (j, w). }
  intros [Hx|Hx]%elem_of_cons [Hy|Hy]%elem_of_cons; simplify_eq; auto;
    (by apply Hj in Hx) || (by apply Hj in Hy).
Qed.

Section Trim.
Context (class : StructuralLevel -> Prop) `{forall level, Decision (class level)}.
Context (top_per_side : Z) (levels : list StructuralLevel).

Definition class_pairs : list (nat * StructuralLevel) :=
  filter (fun p => class p.2) (index_from 0 levels).

(** The members of the class, best first. *)
Definition trim_order : list (nat * StructuralLevel) :=
  sort_by (fun a b => trim_cmp (trim_triple a) (trim_triple b)) class_pairs.

Definition trim_kept : list StructuralLevel := (take (Z.to_nat top_per_side) trim_order).*2.
Definition trim_removed : list StructuralLevel := (drop (Z.to_nat top_per_side) trim_order).*2.

Lemma keep_except_ext {A} n idxs idxs' (l : list A) :
  (forall i, i ∈ idxs <-> i ∈ idxs') -> keep_except n idxs l = keep_except n idxs' l.
Proof.
  intros Hi. unfold keep_except. f_equal. apply list_filter_iff. intros p. by rewrite Hi.
Qed.

Lemma trim_order_perm : trim_order ≡ₚ class_pairs.
Proof. apply sort_by_perm. Qed.

Lemma class_pairs_NoDup : NoDup class_pairs.*1.
Proof.
  unfold class_pairs. eapply NoDup_submseteq_mono; [|apply (index_from_NoDup 0 levels)].
  apply fmap_submseteq, sublist_submseteq, sublist_filter.
Qed.

Lemma trim_side_keep :
  trim_side top_per_side class levels =
  keep_except 0 (drop (Z.to_nat top_per_side) trim_order).*1 levels.
Proof.
  unfold trim_side. rewrite imap_index_from. fold class_pairs.
  rewrite (sort_by_fmap trim_triple). fold trim_order. rewrite <- fmap_drop, <- list_fmap_compose.
  change (compose _ trim_triple) with (@fst nat StructuralLevel).
  rewrite remove_descending.
  - apply keep_except_ext. intros i. apply elem_of_sort_by.
  - apply sort_descending. eapply NoDup_submseteq_mono; [|exact class_pairs_NoDup].
    rewrite <- trim_order_perm. apply fmap_submseteq, sublist_submseteq, sublist_drop.
Qed.

Lemma class_pairs_snd : class_pairs.*2 = filter class levels.
Proof.
  unfold class_pairs. rewrite <- (index_from_snd 0 levels) at 2.
  by rewrite filter_fmap_snd.
Qed.

Lemma trim_split : filter class levels ≡ₚ trim_kept ++ trim_removed.
Proof.
  rewrite <- class_pairs_snd, <- trim_order_perm. unfold trim_kept, trim_removed.
  by rewrite <- fmap_app, take_drop.
Qed.

Lemma filter_not_second (k r : list (nat * StructuralLevel)) :
  NoDup (k ++ r).*1 -> filter (fun p => p.1 ∉ r.*1) (k ++ r) = k.
Proof.
  rewrite fmap_app. intros (_ & Hd & _)%NoDup_app. rewrite filter_app.
  rewrite (filter_none _ r), (filter_all _ k), app_nil_r; [done|..]; apply Forall_forall.
  - intros [i x] Hx Hi. apply (Hd i); [|done]. apply list_elem_of_fmap. by exists (i, x).
  - intros [i x] Hx Hi. apply Hi, list_elem_of_fmap. by exists (i, x).
Qed.

Lemma trim_side_class : filter class (trim_side top_per_side class levels) ≡ₚ trim_kept.
Proof.
  rewrite trim_side_keep. unfold keep_except, trim_kept. rewrite filter_fmap_snd.
  apply fmap_Permutation. rewrite list_filter_filter.
  rewrite (list_filter_iff _ (fun p => (p.1 ∉ (drop (Z.to_nat top_per_side) trim_order).*1) /\ class p.2))
    by (intros; tauto).
  rewrite <- list_filter_filter. fold class_pairs.
  pose proof (filter_not_second (take (Z.to_nat top_per_side) trim_order)
                (drop (Z.to_nat top_per_side) trim_order)) as Hf.
  rewrite take_drop in Hf.
  rewrite <- Hf by (rewrite trim_order_perm; apply class_pairs_NoDup).
  apply filter_Permutation. by rewrite trim_order_perm.
Qed.

Lemma trim_side_others :
  filter (fun level => ~ class level) (trim_side top_per_side class levels) =
  filter (fun level => ~ class level) levels.
Proof.
  rewrite trim_side_keep. rewrite <- (index_from_snd 0 levels) at 2. unfold keep_except.
  rewrite !filter_fmap_snd, list_filter_filter. f_equal.
  rewrite <- (filter_all (fun p => p.1 ∉ (drop (Z.to_nat top_per_side) trim_order).*1)
               (filter (fun p => ~ class p.2) (index_from 0 levels))).
  - rewrite list_filter_filter. apply list_filter_iff. intros; tauto.
  - apply Forall_forall. intros [i x] [Hc Hx]%list_elem_of_filter.
    intros ([j y] & E & Hy)%list_elem_of_fmap. apply Hc. simpl in E, Hc. subst j.
    assert ((i, y) ∈ class_pairs) as [Hcy Hin]%list_elem_of_filter.
    { rewrite <- trim_order_perm. eapply elem_of_submseteq; [exact Hy|].
      apply sublist_submseteq, sublist_drop. }
    simpl in *. replace x with y; [done|]. revert Hin Hx.
    apply NoDup_fst_inj, index_from_NoDup.
Qed.

Lemma trim_side_elem x : x ∈ trim_side top_per_side class levels -> x ∈ levels.
Proof.
  rewrite trim_side_keep. unfold keep_except. intros ([i y] & -> & Hy)%list_elem_of_fmap.
  apply list_elem_of_filter in Hy as [_ Hy]. rewrite <- (index_from_snd 0 levels).
  apply list_elem_of_fmap. by exists (i, y).
Qed.
End Trim.

Definition coeff (level : StructuralLevel) : Z := coefficient (sl_strength level).

Definition same_scale (sc : Z) (levels : list StructuralLevel) : Prop :=
  Forall (fun level => scale (sl_strength level) = sc) levels.

Lemma compare_fixed_same a b :
  scale a = scale b -> compare_fixed a b = cmp (coefficient a) (coefficient b).
Proof. unfold compare_fixed. intros ->. by rewrite Z.eqb_refl. Qed.

Definition trim_cmp_same (a b : nat * StructuralLevel) : comparison :=
  then_with (cmp (coeff b.2) (coeff a.2))
    (then_with (cmp (sl_source_bubble_id a.2) (sl_source_bubble_id b.2))
       (cmp (Z.of_nat a.1) (Z.of_nat b.1))).

#[export] Instance comparator_trim_same : Comparator trim_cmp_same.
Proof.
  apply comparator_then;
    [apply (comparator_rev (fun a b : nat * StructuralLevel => cmp (coeff a.2) (coeff b.2))),
       (comparator_by (fun a : nat * StructuralLevel => coeff a.2))|].
  apply comparator_then;
    [apply (comparator_by (fun a : nat * StructuralLevel => sl_source_bubble_id a.2))
    |apply (comparator_by (fun a : nat * StructuralLevel => Z.of_nat a.1))].
Qed.

Lemma trim_order_strongest class `{forall level, Decision (class level)} top levels sc k r :
  same_scale sc levels -> k ∈ trim_kept class top levels -> r ∈ trim_removed class top levels ->
  coeff r <= coeff k.
Proof.
  intros Hsc ([i x] & -> & Hk)%list_elem_of_fmap ([j y] & -> & Hr)%list_elem_of_fmap. simpl.
  assert (forall p, p ∈ class_pairs class levels -> scale (sl_strength p.2) = sc) as Hs.
  { intros p [_ Hp]%list_elem_of_filter. unfold same_scale in Hsc. rewrite Forall_forall in Hsc.
    apply Hsc. rewrite <- (index_from_snd 0 levels). apply list_elem_of_fmap. eauto. }
  assert (trim_order class levels = sort_by trim_cmp_same (class_pairs class levels)) as E.
  { apply sort_by_ext. intros a b Ha%Hs Hb%Hs. unfold trim_cmp, trim_triple. simpl.
    rewrite compare_fixed_same by congruence. done. }
  rewrite E in Hk, Hr.
  pose proof (sort_by_sorted trim_cmp_same (class_pairs class levels)) as Hsorted.
  rewrite <- (take_drop (Z.to_nat top)) in Hsorted.
  pose proof (StronglySorted_app_1_elem_of _ _ _ _ _ Hsorted Hk Hr) as Hc.
  unfold not_after, trim_cmp_same, cmp, ord_Z in Hc. simpl in Hc.
  destruct (Z.compare_spec (coeff y) (coeff x)); simpl in Hc; (lia || done).
Qed.

(** Trimming one class keeps its strongest [top_per_side] members and leaves
    every other level in place. *)
Definition keeps_strongest (top : Z) (before after : list StructuralLevel) : Prop :=
  exists kept removed,
    before ≡ₚ kept ++ removed /\ after ≡ₚ kept /\
    (length kept <= Z.to_nat top)%nat /\ (removed <> [] -> length kept = Z.to_nat top) /\
    (forall k r, k ∈ kept -> r ∈ removed -> coeff r <= coeff k).

Lemma trim_side_strongest class `{forall level, Decision (class level)} top levels sc :
  same_scale sc levels ->
  keeps_strongest top (filter class levels) (filter class (trim_side top class levels)).
Proof.
  intros Hsc. exists (trim_kept class top levels), (trim_removed class top levels).
  split; [apply trim_split|]. split; [apply trim_side_class|].
  unfold trim_kept, trim_removed. rewrite !length_fmap, length_take. split; [lia|]. split.
  - intros Hne. assert (drop (Z.to_nat top) (trim_order class levels) <> []) as Hd
      by (intros E; by rewrite E in Hne).
    assert (length (drop (Z.to_nat top) (trim_order class levels)) <> 0%nat) as Hl
      by (by destruct (drop (Z.to_nat top) (trim_order class levels))).
    rewrite length_drop in Hl. lia.
  - intros k r. by apply (trim_order_strongest class top levels sc).
Qed.

Lemma filter_implied {A} (P Q : A -> Prop)
    `{!forall x, Decision (P x), !forall x, Decision (Q x)} (l l' : list A) :
  (forall x, P x -> Q x) -> filter Q l = filter Q l' -> filter P l = filter P l'.
Proof.
  intros HPQ E. rewrite <- (list_filter_filter_l P Q l), <- (list_filter_filter_l P Q l') by done.
  by rewrite E.
Qed.

Lemma trim_side_scale class `{forall level, Decision (class level)} top levels sc :
  same_scale sc levels -> same_scale sc (trim_side top class levels).
Proof.
  unfold same_scale. rewrite !Forall_forall. intros Hs x Hx. apply Hs. by eapply trim_side_elem.
Qed.

(** Trimming the top levels of a window keeps, for each side, the
    strongest bubbles up to the configured number, drops the others of that
    window and side, and touches no level of another kind, window or side. *)
Theorem trim_top_keeps_strongest kind w sc s direction :
  same_scale sc (sle_levels s) -> direction <> DirNeutral ->
  keeps_strongest (slc_top_per_side (sle_config s))
    (filter (trim_class kind w direction) (sle_levels s))
    (filter (trim_class kind w direction) (sle_levels (trim_top kind w s))) /\
  filter (fun l => ~ trim_class kind w DirBuy l /\ ~ trim_class kind w DirSell l)
    (sle_levels (trim_top kind w s)) =
  filter (fun l => ~ trim_class kind w DirBuy l /\ ~ trim_class kind w DirSell l) (sle_levels s).
Proof.
  intros Hsc Hd. unfold trim_top. cbn [foldl sle_levels sle_config set_field].
  set (top := slc_top_per_side (sle_config s)). set (l := sle_levels s) in *.
  set (buy := trim_class kind w DirBuy). set (sell := trim_class kind w DirSell).
  set (l1 := trim_side top buy l).
  assert (filter (fun x => ~ buy x) l1 = filter (fun x => ~ buy x) l) as E1
    by apply trim_side_others.
  assert (filter (fun x => ~ sell x) (trim_side top sell l1) = filter (fun x => ~ sell x) l1) as E2
    by apply trim_side_others.
  split.
  - destruct direction; [|done|].
    + fold sell.
      rewrite <- (filter_implied sell (fun x => ~ buy x) l1 l);
        [|intros x (_ & _ & ?) (_ & _ & ?); congruence|exact E1].
      apply (trim_side_strongest sell top l1 sc), trim_side_scale, Hsc.
    + fold buy.
      rewrite (filter_implied buy (fun x => ~ sell x) (trim_side top sell l1) l1);
        [|intros x (_ & _ & ?) (_ & _ & ?); congruence|exact E2].
      by apply (trim_side_strongest buy top l sc).
  - etransitivity.
    + apply (filter_implied _ (fun x => ~ sell x) _ l1); [tauto|exact E2].
    + apply (filter_implied _ (fun x => ~ buy x) l1 l); [tauto|exact E1].
Qed.

(** ** The engine's invariant *)

Definition of_side (kind : StructuralLevelKind) (direction : BubbleDirection)
    (level : StructuralLevel) : Prop := sl_kind level = kind /\ sl_direction level = direction.

#[export] Instance of_side_dec kind d level : Decision (of_side kind d level).
Proof. unfold of_side. apply _. Defined.

Definition side_count (kind : StructuralLevelKind) (direction : BubbleDirection)
    (levels : list StructuralLevel) : nat := length (filter (of_side kind direction) levels).

Definition level_ok (level : StructuralLevel) : Prop :=
  (sl_state level = Touched <-> is_Some (sl_touched_at_ns level)) /\
  (is_top (sl_kind level) = true ->
   sl_state level = Active /\ sl_direction level <> DirNeutral).

(** What holds of the levels at every point of an ingestion. *)
Definition levels_ok (top : Z) (levels : list StructuralLevel) : Prop :=
  Forall level_ok levels /\
  forall kind d, is_top kind = true -> (side_count kind d levels <= Z.to_nat top)%nat.

Record engine_inv (s : StructuralLevelEngine) : Prop := {
  ei_levels : levels_ok (slc_top_per_side (sle_config s)) (sle_levels s);
  ei_capacity : Z.of_nat (length (sle_levels s)) <= slc_max_levels (sle_config s);
  ei_frames : (length (sle_frames s) <= 3)%nat;
  ei_last : sle_last_candle_start_ns s =
            (fun f => cf_start_ts (frame_candle f)) <$> last (sle_frames s);
  ei_pending : sle_pending_naked s = default [] (frame_bubbles <$> last (sle_frames s))
}.

Lemma side_count_app kind d l1 l2 :
  side_count kind d (l1 ++ l2) = (side_count kind d l1 + side_count kind d l2)%nat.
Proof. unfold side_count. by rewrite filter_app, length_app. Qed.

Lemma side_count_none kind d l :
  Forall (fun level => sl_kind level <> kind) l -> side_count kind d l = 0%nat.
Proof.
  intros Hl. unfold side_count. rewrite filter_none; [done|].
  eapply Forall_impl; [exact Hl|]. intros x Hx [? _]. done.
Qed.

(** Appending levels that are not top levels. *)
Lemma levels_ok_app top l l' :
  levels_ok top l -> Forall level_ok l' -> Forall (fun x => is_top (sl_kind x) = false) l' ->
  levels_ok top (l ++ l').
Proof.
  intros [H1 H2] Hok Hnt. split; [by apply Forall_app|]. intros kind d Hk.
  rewrite side_count_app, (side_count_none _ _ l'); [specialize (H2 kind d Hk); lia|].
  eapply Forall_impl; [exact Hnt|]. intros x Hx. congruence.
Qed.

Lemma length_filter_sublist {A} (P : A -> Prop) `{forall x, Decision (P x)} (l l' : list A) :
  sublist l' l -> (length (filter P l') <= length (filter P l))%nat.
Proof.
  induction 1 as [|x l' l Hs IH|x l' l Hs IH]; [done|..]; rewrite !filter_cons;
    repeat case_decide; simpl; lia.
Qed.

Lemma levels_ok_sublist top l l' : sublist l' l -> levels_ok top l -> levels_ok top l'.
Proof.
  intros Hs [H1 H2]. split.
  - rewrite Forall_forall in *. intros x Hx. apply H1.
    eapply elem_of_submseteq; [exact Hx|by apply sublist_submseteq].
  - intros kind d Hk. etransitivity; [|apply (H2 kind d Hk)].
    by apply length_filter_sublist.
Qed.

Lemma touch_level_Ok s c lo hi l l' :
  touch_level s c lo hi l = Ok l' ->
  l' = l \/
  (sl_state l = Active /\ is_top (sl_kind l) = false /\
   l' = l ⟪ sl_state := Touched ⟫ ⟪ sl_touched_at_ns := Some (cf_end_ts c) ⟫).
Proof.
  unfold touch_level. destruct (bool_decide (sl_state l = Active)) eqn:Ea; simpl;
    [|intros [= <-]; by left].
  apply bool_decide_eq_true in Ea. destruct (is_top (sl_kind l)); simpl; [intros [= <-]; by left|].
  destruct (_ <=? _); [intros [= <-]; by left|]. intros (t & _ & H)%rbind_Ok.
  destruct (in_reach _ _ _ _); injection H as <-; auto.
Qed.

Lemma touch_levels_ok top s c lo hi l l' :
  levels_ok top l -> traverse (touch_level s c lo hi) l = Ok l' -> levels_ok top l'.
Proof.
  intros [H1 H2] H%traverse_Ok.
  assert (Forall2 (fun x y => level_ok x -> level_ok y /\ sl_kind y = sl_kind x /\
                                sl_direction y = sl_direction x) l l') as Hr.
  { eapply Forall2_impl; [exact H|]. intros x y [->|(Ha & Ht & ->)]%touch_level_Ok Hx; [done|].
    destruct Hx as [_ Hx]. split; [|done]. split; simpl; [split; eauto|congruence]. }
  clear H. split.
  - clear H2. induction Hr as [|x y l l' Hxy Hr IH]; [constructor|].
    apply Forall_cons in H1 as [Hx H1]. constructor; [by apply Hxy|auto].
  - intros kind d Hk. specialize (H2 kind d Hk). etransitivity; [|exact H2].
    clear H2. unfold side_count. induction Hr as [|x y l l' Hxy Hr IH]; [done|].
    apply Forall_cons in H1 as [Hx H1]. specialize (IH H1). destruct (Hxy Hx) as (_ & E1 & E2).
    rewrite !filter_cons.
    destruct (decide (of_side kind d y)) as [[? ?]|], (decide (of_side kind d x)) as [|Hn];
      simpl; try lia. exfalso. apply Hn. split; congruence.
Qed.

Lemma level_from_bubble_ok kind p c w e b :
  (is_top kind = true -> ofb_direction b <> DirNeutral) ->
  level_ok (level_from_bubble kind p c w e b).
Proof.
  intros Hd. split; simpl; [|by auto]. split; [done|by intros [? ?]].
Qed.

Lemma activate_levels_ok top s c lo hi bs l l' :
  levels_ok top l -> try_fold (activate_bubble s c lo hi) l bs = Ok l' -> levels_ok top l'.
Proof.
  intros Hl. apply (try_fold_inv (levels_ok top)); [done|]. clear l Hl.
  intros l b l1 Hl _. unfold activate_bubble. intros (t & _ & H)%rbind_Ok.
  destruct (in_reach _ _ _ _); injection H as <-; [done|].
  apply levels_ok_app; [done|repeat constructor..]; simpl; done.
Qed.

(** The fields an ingestion step leaves alone. *)
Definition same_frame (s s' : StructuralLevelEngine) : Prop :=
  sle_grid s' = sle_grid s /\ sle_config s' = sle_config s /\ sle_frames s' = sle_frames s /\
  sle_last_candle_start_ns s' = sle_last_candle_start_ns s /\
  sle_pending_naked s' = sle_pending_naked s.

(** [confirm_reactions] only appends reaction levels dated by the last frame. *)
Definition reaction_level (s : StructuralLevelEngine) (x : StructuralLevel) : Prop :=
  level_ok x /\ sl_state x = Active /\ (sl_kind x = ReactionHigh \/ sl_kind x = ReactionLow) /\
  Some (sl_created_at_ns x) = (fun f => cf_end_ts (frame_candle f)) <$> last (sle_frames s).

Lemma confirm_reactions_Ok s s' :
  confirm_reactions s = Ok s' ->
  exists added, s' = s ⟪ sle_levels := sle_levels s ++ added ⟫ /\
    Forall (reaction_level s) added.
Proof.
  assert (forall e, (Ok s : result StructuralLevelEngine AnalyticsError) = Ok e ->
    exists added, e = s ⟪ sle_levels := sle_levels s ++ added ⟫ /\
    Forall (reaction_level s) added) as Hid.
  { intros e [= <-]. exists []. rewrite app_nil_r. by destruct s. }
  unfold reaction_level in *.
  unfold confirm_reactions. destruct (sle_frames s) as [|l [|c [|r [|]]]] eqn:Ef; try apply Hid.
  destruct (cf_high (frame_candle l)); [|apply Hid].
  destruct (cf_high (frame_candle c)) as [ph|]; [|apply Hid].
  destruct (cf_high (frame_candle r)); [|apply Hid].
  destruct (cf_low (frame_candle l)); [|apply Hid].
  destruct (cf_low (frame_candle c)) as [pl|]; [|apply Hid].
  destruct (cf_low (frame_candle r)); [|apply Hid].
  intros H. do 6 (apply rbind_Ok in H as (? & _ & H)).
  destruct (max_by _ _) as [b|]; [|by apply Hid]. injection H as <-.
  eexists. split; [done|].
  apply Forall_app; split; (case_match; [apply Forall_singleton|apply Forall_nil_2]);
    (split; [by apply level_from_bubble_ok|simpl; auto]).
Qed.

(** With all levels of a kind in one window, trimming bounds each side. *)
Lemma trim_top_count kind w s d :
  Forall level_ok (sle_levels s) -> is_top kind = true ->
  Forall (fun x => sl_kind x = kind -> sl_window_start_ns x = Some w) (sle_levels s) ->
  (side_count kind d (sle_levels (trim_top kind w s)) <=
     Z.to_nat (slc_top_per_side (sle_config s)))%nat.
Proof.
  intros Hok Hk Hw. unfold trim_top. cbn [foldl sle_levels sle_config set_field].
  set (top := slc_top_per_side (sle_config s)). set (l := sle_levels s) in *.
  set (l1 := trim_side top (trim_class kind w DirBuy) l).
  set (l2 := trim_side top (trim_class kind w DirSell) l1).
  assert (forall x, x ∈ l2 -> x ∈ l) as Hin.
  { intros x Hx%trim_side_elem. by apply trim_side_elem in Hx. }
  assert (side_count kind d l2 = length (filter (trim_class kind w d) l2)) as ->.
  { unfold side_count. clear -Hin Hw. induction l2 as [|x l2 IH]; [done|].
    rewrite Forall_forall in Hw. rewrite !filter_cons.
    assert (of_side kind d x <-> trim_class kind w d x) as Hiff.
    { unfold of_side, trim_class. specialize (Hw x (Hin x ltac:(left))). tauto. }
    destruct (decide (of_side kind d x)), (decide (trim_class kind w d x)); try tauto;
      simpl; rewrite IH; try done; intros; apply Hin; by right. }
  destruct d.
  - unfold l2. rewrite trim_side_class. unfold trim_kept. rewrite length_fmap, length_take. lia.
  - rewrite filter_none; [simpl; lia|]. apply Forall_forall. intros x Hx%Hin (E & _ & Hd).
    rewrite Forall_forall in Hok. destruct (Hok x Hx) as [_ Ht].
    destruct (Ht ltac:(by rewrite E)) as [_ ?]. done.
  - unfold l2. rewrite (filter_implied _ (fun x => ~ trim_class kind w DirSell x) _ l1);
      [|intros x (_ & _ & ?) (_ & _ & ?); congruence|apply trim_side_others].
    unfold l1. rewrite trim_side_class. unfold trim_kept. rewrite length_fmap, length_take. lia.
Qed.

Lemma trim_top_elem kind w s x : x ∈ sle_levels (trim_top kind w s) -> x ∈ sle_levels s.
Proof.
  unfold trim_top. cbn [foldl sle_levels sle_config set_field].
  intros H%trim_side_elem. by apply trim_side_elem in H.
Qed.

Lemma trim_top_other kind kind' w d s :
  kind' <> kind -> side_count kind' d (sle_levels (trim_top kind w s)) = side_count kind' d (sle_levels s).
Proof.
  intros Hne. unfold trim_top, side_count. cbn [foldl sle_levels sle_config set_field].
  f_equal. etransitivity.
  - apply (filter_implied _ (fun x => ~ trim_class kind w DirSell x)); [|apply trim_side_others].
    intros x [? _] [? _]. congruence.
  - apply (filter_implied _ (fun x => ~ trim_class kind w DirBuy x)); [|apply trim_side_others].
    intros x [? _] [? _]. congruence.
Qed.

Lemma update_top_kind_ok c bs s kind wns s' :
  is_top kind = true -> levels_ok (slc_top_per_side (sle_config s)) (sle_levels s) ->
  update_top_kind c bs s (kind, wns) = Ok s' ->
  levels_ok (slc_top_per_side (sle_config s)) (sle_levels s') /\ same_frame s s'.
Proof.
  intros Hk [H1 H2]. unfold update_top_kind. intros (e & _ & H)%rbind_Ok. injection H as <-.
  set (w := window_start (cf_start_ts c) wns). set (kept := filter _ (sle_levels s)).
  set (added := _ <$> filter _ bs).
  set (s1 := s ⟪ sle_levels := kept ++ added ⟫).
  assert (Forall level_ok (sle_levels s1)) as Hok.
  { simpl. apply Forall_app. split.
    { apply Forall_forall. intros x [_ Hx]%list_elem_of_filter. rewrite Forall_forall in H1. auto. }
    unfold added.
    apply Forall_fmap, Forall_forall. intros b [Hb _]%list_elem_of_filter.
    by apply level_from_bubble_ok. }
  split; [|done]. split.
  - rewrite Forall_forall in *. intros x Hx%trim_top_elem. by apply Hok.
  - intros kind' d Hk'. destruct (decide (kind' = kind)) as [->|Hne].
    + apply (trim_top_count kind w s1 d Hok Hk). simpl. apply Forall_app. split.
      * apply Forall_forall. intros x [[Hx|Hx] _]%list_elem_of_filter E; done.
      * unfold added. apply Forall_fmap, Forall_true. done.
    + rewrite trim_top_other by done. simpl. rewrite side_count_app.
      rewrite (side_count_none kind' d added).
      * specialize (H2 kind' d Hk'). unfold kept.
        pose proof (length_filter_sublist (of_side kind' d) (sle_levels s) kept (sublist_filter _ _)).
        unfold side_count in *. fold kept. lia.
      * unfold added. apply Forall_fmap, Forall_true. intros. simpl. congruence.
Qed.

Lemma update_top_levels_ok c bs s s' :
  levels_ok (slc_top_per_side (sle_config s)) (sle_levels s) ->
  update_top_levels c bs s = Ok s' ->
  levels_ok (slc_top_per_side (sle_config s')) (sle_levels s') /\ same_frame s s'.
Proof.
  intros Hl. unfold update_top_levels. cbn [try_fold].
  intros (s1 & Hs1 & H)%rbind_Ok. apply rbind_Ok in H as (s2 & Hs2 & H). injection H as <-.
  apply update_top_kind_ok in Hs1 as [L1 F1]; [|done|done].
  destruct F1 as (G1 & C1 & R1 & T1 & P1). rewrite <- C1 in L1.
  apply update_top_kind_ok in Hs2 as [L2 F2]; [|done|done].
  destruct F2 as (G2 & C2 & R2 & T2 & P2). rewrite C2. split; [done|]. repeat split; congruence.
Qed.

Lemma position_of_lt {A} (p : A -> bool) l i : position_of p l = Some i -> (i < length l)%nat.
Proof.
  revert i. induction l as [|x l IH]; intros i; simpl; [done|]. destruct (p x); [intros [= <-]; lia|].
  intros (j & Hj & ->)%fmap_Some. apply IH in Hj. lia.
Qed.

Lemma evict_sublist fuel max l : sublist (evict fuel max l) l.
Proof.
  revert l. induction fuel as [|fuel IH]; intros l; simpl; [done|].
  destruct (_ <? _); [|done]. etransitivity; [apply IH|]. apply sublist_delete.
Qed.

Lemma evict_bounded fuel max l :
  0 <= max -> (length l <= fuel)%nat -> Z.of_nat (length (evict fuel max l)) <= max.
Proof.
  intros Hm. revert l. induction fuel as [|fuel IH]; intros l Hl; simpl; [lia|].
  destruct (Z.ltb_spec max (Z.of_nat (length l))) as [Hlt|]; [|done]. apply IH.
  unfold remove_at. rewrite length_delete; [lia|]. apply lookup_lt_is_Some_2.
  destruct (position_of _ l) as [i|] eqn:E; simpl; [by eapply position_of_lt|lia].
Qed.

(** The stages of an accepted candle. *)
Record accepted_stages (c : CandleFlow) (bs : list OrderFlowBubble) (s s' : StructuralLevelEngine)
    (hi lo : Price) (ht lt : Z) (l1 l2 : list StructuralLevel) (s3 s4 : StructuralLevelEngine)
    : Prop := {
  as_newer : forall p, sle_last_candle_start_ns s = Some p -> p < cf_start_ts c;
  as_high : cf_high c = Some hi;
  as_low : cf_low c = Some lo;
  as_high_tick : price_tick (sle_grid s) hi = Ok ht;
  as_low_tick : price_tick (sle_grid s) lo = Ok lt;
  as_touch : traverse (touch_level s c lt ht) (sle_levels s) = Ok l1;
  as_activate : try_fold (activate_bubble (s ⟪ sle_levels := l1 ⟫) c lt ht) l1
                  (sle_pending_naked s) = Ok l2;
  as_confirm : confirm_reactions
      (mkStructuralLevelEngine (sle_grid s) (sle_config s) (sle_last_candle_start_ns s)
         (latest 3 (sle_frames s ++ [mkCandleFrame c bs])) [] l2) = Ok s3;
  as_update : update_top_levels c bs s3 = Ok s4;
  as_final : s' = enforce_capacity
      (s4 ⟪ sle_pending_naked := bs ⟫ ⟪ sle_last_candle_start_ns := Some (cf_start_ts c) ⟫)
}.

Lemma ingest_checked_Ok c bs s s' :
  ingest_checked c bs s = Ok s' ->
  exists hi lo ht lt l1 l2 s3 s4, accepted_stages c bs s s' hi lo ht lt l1 l2 s3 s4.
Proof.
  unfold ingest_checked. destruct (negb _); [done|]. intros H.
  apply rbind_Ok in H as (u & Hlast & H). apply rbind_Ok in H as (u' & _ & H).
  apply rbind_Ok in H as (hi & Hhi%ok_or_Ok & H). apply rbind_Ok in H as (lo & Hlo%ok_or_Ok & H).
  apply rbind_Ok in H as (ht & Hht & H). apply rbind_Ok in H as (lt & Hlt & H).
  destruct (ht <? lt); [done|].
  apply rbind_Ok in H as (s1 & H1 & H). apply rbind_Ok in H as (s2 & H2 & H).
  apply rbind_Ok in H as (s3 & H3 & H). apply rbind_Ok in H as (s4 & H4 & H). injection H as <-.
  unfold touch_existing in H1. apply rbind_Ok in H1 as (l1 & Hl1 & [= <-]).
  unfold activate_naked in H2. apply rbind_Ok in H2 as (l2 & Hl2 & [= <-]).
  rewrite pop_front_while_latest in H3 by lia.
  exists hi, lo, ht, lt, l1, l2, s3, s4. split; try done.
  intros p Hp. rewrite Hp in Hlast. by destruct (Z.leb_spec (cf_start_ts c) p).
Qed.

Definition config_ok (c : StructuralLevelConfig) : Prop :=
  0 <= slc_max_levels c /\ 4 * slc_top_per_side c <= slc_max_levels c.

Lemma last_latest_snoc {A} (l : list A) x : last (latest 3 (l ++ [x])) = Some x.
Proof.
  unfold latest. rewrite length_app. simpl. rewrite drop_app.
  replace (length l + 1 - 3 - length l)%nat with 0%nat by lia. apply last_snoc.
Qed.

Lemma ingest_checked_inv c bs s s' :
  config_ok (sle_config s) -> engine_inv s -> ingest_checked c bs s = Ok s' ->
  engine_inv s' /\ sle_config s' = sle_config s /\ sle_grid s' = sle_grid s.
Proof.
  intros [Hmax _] Hinv H. apply ingest_checked_Ok in H as (hi & lo & ht & lt & l1 & l2 & s3 & s4 & A).
  destruct A as [_ _ _ _ _ Ht Ha Hc Hu ->].
  pose proof (ei_levels s Hinv) as L0.
  pose proof (touch_levels_ok _ _ _ _ _ _ _ L0 Ht) as L1.
  pose proof (activate_levels_ok _ _ _ _ _ _ _ _ L1 Ha) as L2.
  apply confirm_reactions_Ok in Hc as (added & -> & Hadd). simpl in *.
  apply update_top_levels_ok in Hu as [L4 (G & C & R & T & P)]; simpl in *.
  - rewrite C in L4. split; [|simpl; split; congruence]. split; simpl.
    + rewrite C. eapply levels_ok_sublist; [apply evict_sublist|done].
    + rewrite C. by apply evict_bounded.
    + rewrite R. unfold latest. rewrite length_drop. lia.
    + rewrite R, last_latest_snoc. done.
    + rewrite R, last_latest_snoc. done.
  - apply levels_ok_app; [done|..]; (eapply Forall_impl; [exact Hadd|]).
    + by intros x [? _].
    + intros x (_ & _ & [->| ->] & _); done.
Qed.

Definition run_levels (ops : list (CandleFlow * list OrderFlowBubble))
    (s : StructuralLevelEngine) : StructuralLevelEngine :=
  foldl (fun s op => snd (ingest_finalized op.1 op.2 s)) s ops.

Lemma ingest_finalized_inv c bs s :
  config_ok (sle_config s) -> engine_inv s ->
  engine_inv (snd (ingest_finalized c bs s)) /\
  sle_config (snd (ingest_finalized c bs s)) = sle_config s /\
  sle_grid (snd (ingest_finalized c bs s)) = sle_grid s.
Proof.
  intros Hc Hi. unfold ingest_finalized. destruct (ingest_checked c bs s) as [s'|] eqn:E; [|done].
  by apply ingest_checked_inv in E.
Qed.

Lemma engine_new_Ok grid config s :
  engine_new grid config = Ok s ->
  s = mkStructuralLevelEngine grid config None [] [] [] /\ config_ok config.
Proof.
  unfold engine_new. intros (u & _ & H)%rbind_Ok. apply rbind_Ok in H as (c & Hc & [= <-]).
  split; [done|]. unfold level_config_new in Hc.
  destruct (slc_max_levels config =? 0); [done|].
  destruct (slc_top_per_side config =? 0); [done|].
  apply rbind_Ok in Hc as (r & Hr%ok_or_Ok & Hc). apply to_ty_Some in Hr as [-> Hf].
  destruct (Z.ltb_spec (slc_max_levels config) (slc_top_per_side config * 4)); [done|].
  unfold config_ok. unfold fits in Hf. simpl in Hf. lia.
Qed.

Lemma run_levels_inv ops s :
  config_ok (sle_config s) -> engine_inv s ->
  engine_inv (run_levels ops s) /\ sle_config (run_levels ops s) = sle_config s.
Proof.
  revert s. induction ops as [|[c bs] ops IH]; intros s Hc Hi; [done|]. simpl.
  destruct (ingest_finalized_inv c bs s Hc Hi) as (Hi' & Ec & _).
  rewrite <- Ec. apply IH; [by rewrite Ec|done].
Qed.

(** C36. Every reachable level engine is bounded and consistent: at most
    [max_levels] levels and three candle frames are held, the day's and the
    week's top levels never exceed [top_per_side] per side, a level is marked
    touched exactly when it has a touch time, top levels are never touched nor
    neutral, and the pending bubbles and the last candle time are those of the
    last accepted frame. *)
Theorem levels_reachable_inv grid config s ops :
  engine_new grid config = Ok s ->
  engine_inv (run_levels ops s) /\ sle_config (run_levels ops s) = config.
Proof.
  intros [-> Hc]%engine_new_Ok. apply run_levels_inv; [done|]. split; simpl; try done.
  - split; [constructor|]. intros. unfold side_count. simpl. lia.
  - by destruct Hc.
  - lia.
Qed.

(** ** A level's state tells what later candles did *)

(** The price lies within the tolerance of the candle's range. *)
Definition touches (g : GridSpec) (tolerance : Z) (c : CandleFlow) (p : Price) : bool :=
  match cf_low c, cf_high c with
  | Some lo, Some hi =>
      match price_tick g lo, price_tick g hi, price_tick g p with
      | Ok lt, Ok ht, Ok t => in_reach tolerance lt ht t
      | _, _, _ => false
      end
  | _, _ => false
  end.

(** The candles a sequence of ingestions accepts. *)
Fixpoint accepted_candles (ops : list (CandleFlow * list OrderFlowBubble))
    (s : StructuralLevelEngine) : list CandleFlow :=
  match ops with
  | [] => []
  | (c, bs) :: ops' =>
      match ingest_checked c bs s with
      | Ok s' => c :: accepted_candles ops' s'
      | Err _ => accepted_candles ops' s
      end
  end.

Section Status.
Context (g : GridSpec) (tolerance duration : Z).

(** The candles that count against a level: those after its creation, and for
    a naked level also the candle that confirmed it. *)
Definition later (level : StructuralLevel) (c : CandleFlow) : Prop :=
  sl_created_at_ns level < cf_end_ts c \/
  (sl_kind level = Naked /\ sl_created_at_ns level = cf_end_ts c).

Definition status_ok (past : list CandleFlow) (level : StructuralLevel) : Prop :=
  is_top (sl_kind level) = false ->
  match sl_state level with
  | Active => forall c, c ∈ past -> later level c -> touches g tolerance c (sl_price level) = false
  | Touched => exists c, c ∈ past /\ sl_touched_at_ns level = Some (cf_end_ts c) /\
                 sl_created_at_ns level < cf_end_ts c /\
                 touches g tolerance c (sl_price level) = true
  end.

Record status_inv (past : list CandleFlow) (s : StructuralLevelEngine) : Prop := {
  si_grid : sle_grid s = g;
  si_tolerance : slc_touch_tolerance_ticks (sle_config s) = tolerance;
  si_status : Forall (status_ok past) (sle_levels s);
  si_created : forall l p, l ∈ sle_levels s -> sle_last_candle_start_ns s = Some p ->
                 is_top (sl_kind l) = false -> sl_created_at_ns l <= p + duration;
  si_fresh : sle_last_candle_start_ns s = None -> past = [] /\ sle_levels s = [];
  si_past : forall c p, c ∈ past -> sle_last_candle_start_ns s = Some p ->
              cf_end_ts c <= p + duration
}.

Lemma update_top_kind_elem c bs s kind w s' x :
  is_top kind = true -> update_top_kind c bs s (kind, w) = Ok s' -> x ∈ sle_levels s' ->
  x ∈ sle_levels s \/ is_top (sl_kind x) = true.
Proof.
  intros Hk. unfold update_top_kind. intros (e & _ & H)%rbind_Ok. injection H as <-.
  intros Hx%trim_top_elem. simpl in Hx. apply elem_of_app in Hx as [Hx|Hx].
  - apply list_elem_of_filter in Hx as [_ ?]. by left.
  - apply list_elem_of_fmap in Hx as (b & -> & _). by right.
Qed.

Lemma update_top_levels_elem c bs s s' x :
  update_top_levels c bs s = Ok s' -> x ∈ sle_levels s' ->
  x ∈ sle_levels s \/ is_top (sl_kind x) = true.
Proof.
  unfold update_top_levels. cbn [try_fold]. intros (s1 & H1 & H)%rbind_Ok Hx.
  apply rbind_Ok in H as (s2 & H2 & [= <-]).
  destruct (update_top_kind_elem _ _ _ TopWeek _ _ _ eq_refl H2 Hx) as [Hx'|]; [|by right].
  by apply (update_top_kind_elem _ _ _ TopDay _ _ _ eq_refl H1) in Hx'.
Qed.

Lemma activate_bubbles_elem s c lt ht bs l l' x :
  try_fold (activate_bubble s c lt ht) l bs = Ok l' -> x ∈ l' ->
  x ∈ l \/
  (sl_kind x = Naked /\ sl_state x = Active /\ sl_created_at_ns x = cf_end_ts c /\
   exists t, price_tick (sle_grid s) (sl_price x) = Ok t /\
     in_reach (slc_touch_tolerance_ticks (sle_config s)) lt ht t = false).
Proof.
  intros H. revert x. pattern l'. revert H. apply try_fold_inv; [by left|].
  intros l0 b l1 IH _ H x. unfold activate_bubble in H. apply rbind_Ok in H as (t & Ht & H).
  destruct (in_reach _ _ _ _) eqn:Er; injection H as <-; [apply IH|].
  intros [Hx| ->%list_elem_of_singleton]%elem_of_app; [by apply IH|]. right. simpl. eauto 10.
Qed.

(** The status of one level across the candle that has just been accepted. *)
Lemma touch_level_status past s c lt ht hi lo x y p :
  sle_grid s = g -> slc_touch_tolerance_ticks (sle_config s) = tolerance ->
  cf_high c = Some hi -> cf_low c = Some lo ->
  price_tick g hi = Ok ht -> price_tick g lo = Ok lt ->
  sl_created_at_ns x <= p -> p < cf_end_ts c ->
  touch_level s c lt ht x = Ok y -> status_ok past x -> status_ok (past ++ [c]) y.
Proof.
  intros Hg Htol Hh Hl Hht Hlt Hcr Hp Ht Hx Htop. unfold touch_level in Ht.
  rewrite Hg, Htol in Ht.
  assert (forall t, price_tick g (sl_price x) = Ok t ->
    touches g tolerance c (sl_price x) = in_reach tolerance lt ht t) as Htouch.
  { intros t E. unfold touches. by rewrite Hl, Hh, Hlt, Hht, E. }
  destruct (bool_decide (sl_state x = Active)) eqn:Ea; simpl in Ht.
  - apply bool_decide_eq_true in Ea. destruct (is_top (sl_kind x)) eqn:Ek; simpl in Ht.
    { injection Ht as <-. congruence. }
    rewrite (proj2 (Z.leb_gt _ _)) in Ht by lia. apply rbind_Ok in Ht as (t & Et & Ht).
    specialize (Htouch t Et). destruct (in_reach _ _ _ _); injection Ht as <-; simpl.
    + exists c. split; [apply elem_of_app; right; left|]. split; [done|]. split; [lia|done].
    + rewrite Ea. specialize (Hx Ek). rewrite Ea in Hx. intros c' [Hc'| ->%list_elem_of_singleton]%elem_of_app;
        [by apply Hx|done].
  - apply bool_decide_eq_false in Ea. injection Ht as <-. specialize (Hx Htop).
    destruct (sl_state x); [done|]. destruct Hx as (c' & Hc' & Hrest). exists c'.
    split; [apply elem_of_app; by left|done].
Qed.

Lemma fresh_level_status past c x :
  (forall c', c' ∈ past -> cf_end_ts c' < cf_end_ts c) ->
  sl_state x = Active -> sl_created_at_ns x = cf_end_ts c ->
  (sl_kind x = Naked -> touches g tolerance c (sl_price x) = false) ->
  status_ok (past ++ [c]) x.
Proof.
  intros Hpast Ha Hcr Hn _. rewrite Ha. intros c' [Hc'| ->%list_elem_of_singleton]%elem_of_app.
  - specialize (Hpast c' Hc'). intros [?|[_ ?]]; lia.
  - intros [?|[? _]]; [lia|auto].
Qed.
Lemma status_before past s c :
  status_inv past s -> cf_end_ts c = cf_start_ts c + duration ->
  (forall p, sle_last_candle_start_ns s = Some p -> p < cf_start_ts c) ->
  (forall c', c' ∈ past -> cf_end_ts c' < cf_end_ts c) /\
  (forall l, l ∈ sle_levels s -> is_top (sl_kind l) = false ->
     sl_created_at_ns l <= cf_end_ts c - 1).
Proof.
  intros Hi Hend Hnew. destruct (sle_last_candle_start_ns s) as [p|] eqn:Ep.
  - specialize (Hnew p eq_refl). split.
    + intros c' Hc'. pose proof (si_past _ _ Hi c' p Hc' Ep). lia.
    + intros l Hl Ht. pose proof (si_created _ _ Hi l p Hl Ep Ht). lia.
  - destruct (si_fresh _ _ Hi Ep) as [-> E]. rewrite E.
    split; intros ? H%not_elem_of_nil; done.
Qed.

(** Where a level that is not a top level comes from after an ingestion, and
    what its status is then. *)
Lemma ingest_level_status past s c bs s' y :
  status_inv past s -> cf_end_ts c = cf_start_ts c + duration ->
  ingest_checked c bs s = Ok s' -> y ∈ sle_levels s' -> is_top (sl_kind y) = false ->
  status_ok (past ++ [c]) y /\ sl_created_at_ns y <= cf_end_ts c.
Proof.
  intros Hi Hend H Hy Htop.
  apply ingest_checked_Ok in H as (hi & lo & ht & lt & l1 & l2 & s3 & s4 & A).
  destruct A as [Hnew Hhi Hlo Hht Hlt Ht Ha Hc Hu ->]. simpl in Hy.
  destruct (status_before past s c Hi Hend Hnew) as [Hpast Hcreated].
  pose proof (elem_of_submseteq _ _ _ Hy (sublist_submseteq _ _ (evict_sublist _ _ _))) as Hy4.
  destruct (update_top_levels_elem _ _ _ _ _ Hu Hy4) as [Hy3|]; [|congruence].
  apply confirm_reactions_Ok in Hc as (added & -> & Hadd). simpl in Hy3.
  pose proof (si_grid _ _ Hi) as Eg. pose proof (si_tolerance _ _ Hi) as Etol.
  rewrite Eg in Hht, Hlt.
  apply elem_of_app in Hy3 as [Hy2|Hya].
  - destruct (activate_bubbles_elem _ _ _ _ _ _ _ _ Ha Hy2) as [Hy1|(Hk & Hs & Hcr & t & Et & Er)].
    + apply traverse_Ok in Ht. apply list_elem_of_lookup in Hy1 as [i Hi1].
      destruct (Forall2_lookup_r _ _ _ _ _ Ht Hi1) as (x & Hx%list_elem_of_lookup_2 & Htx).
      assert (sl_kind y = sl_kind x /\ sl_created_at_ns y = sl_created_at_ns x) as [Ek Ec].
      { by destruct (touch_level_Ok _ _ _ _ _ _ Htx) as [->|(_ & _ & ->)]. }
      specialize (Hcreated x Hx ltac:(congruence)). split; [|lia].
      pose proof (si_status _ _ Hi) as Hall. rewrite Forall_forall in Hall.
      eapply (touch_level_status past s c lt ht hi lo x y); try done; [lia|by apply Hall].
    + split; [|lia]. apply fresh_level_status; [done|done|done|]. intros _. simpl in Et, Er.
      rewrite Eg in Et. rewrite Etol in Er.
      unfold touches. rewrite Hlo, Hhi, Hlt, Hht, Et. exact Er.
  - rewrite Forall_forall in Hadd. destruct (Hadd y Hya) as (_ & Hs & Hk & Hcr). simpl in Hcr.
    rewrite last_latest_snoc in Hcr. simpl in Hcr. injection Hcr as Hcr.
    split; [|lia]. apply fresh_level_status; [done|done|done|]. intros E.
    rewrite E in Hk. by destruct Hk.
Qed.
End Status.

Lemma ingest_frame c bs s s' :
  ingest_checked c bs s = Ok s' ->
  sle_grid s' = sle_grid s /\ sle_config s' = sle_config s /\
  sle_last_candle_start_ns s' = Some (cf_start_ts c) /\
  (forall p, sle_last_candle_start_ns s = Some p -> p < cf_start_ts c).
Proof.
  intros H. apply ingest_checked_Ok in H as (hi & lo & ht & lt & l1 & l2 & s3 & s4 & A).
  destruct A as [Hnew _ _ _ _ _ _ Hc Hu ->]. simpl.
  apply confirm_reactions_Ok in Hc as (added & -> & _). revert Hu. unfold update_top_levels.
  cbn [try_fold]. intros (s5 & H5 & H)%rbind_Ok. apply rbind_Ok in H as (s6 & H6 & [= <-]).
  unfold update_top_kind in H5, H6. apply rbind_Ok in H5 as (? & _ & H5).
  apply rbind_Ok in H6 as (? & _ & H6). injection H5 as <-. injection H6 as <-. done.
Qed.

Lemma ingest_status g tol D past s c bs s' :
  status_inv g tol D past s -> cf_end_ts c = cf_start_ts c + D ->
  ingest_checked c bs s = Ok s' -> status_inv g tol D (past ++ [c]) s'.
Proof.
  intros Hi Hend H. pose proof (ingest_frame _ _ _ _ H) as (Eg & Ec & El & Hnew).
  destruct (status_before g tol D past s c Hi Hend Hnew) as [Hpast _]. split.
  - rewrite Eg. apply (si_grid _ _ _ _ _ Hi).
  - rewrite Ec. apply (si_tolerance _ _ _ _ _ Hi).
  - apply Forall_forall. intros y Hy Htop.
    by destruct (ingest_level_status g tol D past s c bs s' y Hi Hend H Hy Htop) as [Hs _]; apply Hs.
  - intros l p Hl [= <-]%(eq_trans (eq_sym El)) Htop.
    destruct (ingest_level_status g tol D past s c bs s' l Hi Hend H Hl Htop) as [_ ?]. lia.
  - congruence.
  - intros c' p [Hc'| ->%list_elem_of_singleton]%elem_of_app [= <-]%(eq_trans (eq_sym El)); [|lia].
    specialize (Hpast c' Hc'). lia.
Qed.

Lemma run_status g tol D ops past s :
  status_inv g tol D past s ->
  Forall (fun op => cf_end_ts op.1 = cf_start_ts op.1 + D) ops ->
  status_inv g tol D (past ++ accepted_candles ops s) (run_levels ops s).
Proof.
  intros Hi Hops. revert past s Hi. induction Hops as [|[c bs] ops Hc Hops IH]; intros past s Hi.
  { simpl. by rewrite app_nil_r. }
  simpl in *. unfold ingest_finalized.
  destruct (ingest_checked c bs s) as [s'|] eqn:E; simpl; [|by apply IH].
  rewrite cons_middle, app_assoc. apply IH. by eapply ingest_status.
Qed.

(** The state of a structural level is exact: after any sequence of
    finalised candles of one duration, a naked or reaction level is active
    exactly as long as no candle accepted after it came within the tolerance
    of its price (for a naked level including the candle that confirmed it),
    and a touched one carries the end time of an accepted candle that did. *)
Theorem level_status_exact grid config s ops D level :
  engine_new grid config = Ok s ->
  Forall (fun op => cf_end_ts op.1 = cf_start_ts op.1 + D) ops ->
  level ∈ sle_levels (run_levels ops s) -> is_top (sl_kind level) = false ->
  match sl_state level with
  | Active => forall c, c ∈ accepted_candles ops s -> later level c ->
      touches grid (slc_touch_tolerance_ticks config) c (sl_price level) = false
  | Touched => exists c, c ∈ accepted_candles ops s /\
      sl_touched_at_ns level = Some (cf_end_ts c) /\ sl_created_at_ns level < cf_end_ts c /\
      touches grid (slc_touch_tolerance_ticks config) c (sl_price level) = true
  end.
Proof.
  intros [-> _]%engine_new_Ok Hops Hl Htop.
  set (s0 := mkStructuralLevelEngine grid config None [] [] []) in *.
  assert (status_inv grid (slc_touch_tolerance_ticks config) D [] s0) as H0.
  { split; try done. }
  pose proof (run_status _ _ _ ops [] s0 H0 Hops) as Hi. simpl in Hi.
  pose proof (si_status _ _ _ _ _ Hi) as Hall. rewrite Forall_forall in Hall.
  exact (Hall level Hl Htop).
Qed.

(** *** Concrete candles and bubbles *)

Definition level_candle (ts lo hi : Z) : CandleFlow :=
  mkCandleFlow 1 FlowFinal 7 ts (ts + 60) (Some (mkPrice (mkFixed hi 2)))
    (Some (mkPrice (mkFixed lo 2))) (milli 0) 0 [].

Definition level_bubble (id ts price strength : Z) : OrderFlowBubble :=
  {| ofb_id := id; ofb_instrument := 7; ofb_candle_start_ns := ts; ofb_candle_end_ns := ts + 60;
     ofb_segment := Spot; ofb_sources := [1]; ofb_tier := F2; ofb_mode := ModeVolume;
     ofb_direction := DirBuy; ofb_anchor_price := mkPrice (mkFixed price 2);
     ofb_low_price := mkPrice (mkFixed price 2); ofb_high_price := mkPrice (mkFixed price 2);
     ofb_buy_volume := milli strength; ofb_sell_volume := milli 0; ofb_unknown_volume := milli 0;
     ofb_total_volume := milli strength; ofb_delta := mkFixed strength 3;
     ofb_strength := mkFixed strength 3; ofb_threshold := mkFixed 1 3; ofb_visual_size := 8;
     ofb_label := None; ofb_shape := Circle; ofb_merged_count := 1 |}.

Definition small_levels : StructuralLevelConfig := mkStructuralLevelConfig 0 4 1.

Definition small_engine : StructuralLevelEngine :=
  mkStructuralLevelEngine sample_grid small_levels None [] [] [].

(** A strong bubble, then three weaker ones, then a candle elsewhere. *)
Definition level_ops : list (CandleFlow * list OrderFlowBubble) :=
  [(level_candle 0 10000 10100, [level_bubble 1 0 10000 900]);
   (level_candle 60 20000 20100, [level_bubble 2 60 20000 10; level_bubble 3 60 20025 20;
                                  level_bubble 4 60 20050 30]);
   (level_candle 120 30000 30100, [])].

Lemma levels_reachable_inv_witness :
  engine_inv (run_levels level_ops small_engine) /\
  sle_config (run_levels level_ops small_engine) = small_levels.
Proof. apply (levels_reachable_inv sample_grid small_levels small_engine level_ops). reflexivity. Defined.

Definition top_sample : StructuralLevelEngine :=
  small_engine ⟪ sle_levels :=
    (fun b => level_from_bubble TopDay (ofb_anchor_price b) 60 (Some 0) (Some DAY_NS) b) <$>
      [level_bubble 1 0 10000 900; level_bubble 2 0 10100 950] ⟫.

Lemma trim_top_keeps_strongest_witness :
  sl_source_bubble_id <$> sle_levels (trim_top TopDay 0 top_sample) = [2] /\
  keeps_strongest 1 (filter (trim_class TopDay 0 DirBuy) (sle_levels top_sample))
    (filter (trim_class TopDay 0 DirBuy) (sle_levels (trim_top TopDay 0 top_sample))).
Proof.
  split; [vm_compute; reflexivity|].
  apply (trim_top_keeps_strongest TopDay 0 3 top_sample DirBuy).
  - repeat constructor.
  - discriminate.
Defined.

Definition naked_sample : StructuralLevel :=
  level_from_bubble Naked (mkPrice (mkFixed 20050 2)) 180 None None (level_bubble 4 60 20050 30).

Lemma level_status_exact_witness :
  touches sample_grid 0 (level_candle 120 30000 30100) (mkPrice (mkFixed 20050 2)) = false.
Proof.
  apply (level_status_exact sample_grid small_levels small_engine level_ops 60 naked_sample).
  - reflexivity.
  - repeat constructor.
  - vm_compute. repeat (first [left | right]).
  - reflexivity.
  - vm_compute. repeat (first [left | right]).
  - right. split; reflexivity.
Defined.

(** The configuration makes room for the daily and weekly top levels of
    both sides, but the eviction takes the oldest level whatever its kind: here the
    strongest bubble of the day loses its top-of-day level to three weaker
    naked levels. *)
Theorem capacity_evicts_top_levels :
  4 * slc_top_per_side small_levels <= slc_max_levels small_levels /\
  (fun l => (sl_kind l, sl_source_bubble_id l)) <$> sle_levels (run_levels (take 2 level_ops) small_engine)
    = [(TopDay, 1); (TopWeek, 1); (Naked, 1)] /\
  (fun l => (sl_kind l, sl_source_bubble_id l)) <$> sle_levels (run_levels level_ops small_engine)
    = [(Naked, 1); (Naked, 2); (Naked, 3); (Naked, 4)].
Proof. split; [simpl; lia|]. split; vm_compute; reflexivity. Qed.
