(* ===== verification/Recording.v ===== *)
(** * Raw recordings ([crates/recording/src/crc32c.rs], [format.rs],
    [writer.rs], [reader.rs], [queue.rs])

    The MFR1 segment format: its checksum, the append-only writer over any
    [Write], the reader with checksum validation and truncated-tail recovery,
    and the bounded queue in front of the disk. *)

From stdpp Require Import base tactics numbers strings option list pretty.
From Stdlib Require Import ZArith Lia.
From S2P Require Import Prelude Bytes Fixed Model Dispatch.

Local Open Scope Z_scope.

(** ** Checksum ([crc32c.rs]) *)

Definition POLY : Z := 0x82F63B78.

Definition crc_bit (crc : Z) : Z :=
  if negb (Z.land crc 1 =? 0) then Z.lxor (Z.shiftr crc 1) POLY else Z.shiftr crc 1.

Definition table : list Z :=
  (fun i => Nat.iter 8 crc_bit (Z.of_nat i)) <$> seq 0 256.

Definition crc_step (table : list Z) (crc b : Z) : Z :=
  let idx := Z.land (Z.lxor crc b) 0xFF in
  Z.lxor (nth (Z.to_nat idx) table 0) (Z.shiftr crc 8).

Definition crc32c (data : list Z) : Z :=
  let table := table in
  Z.lxor (foldl (crc_step table) 0xFFFFFFFF data) 0xFFFFFFFF.

(** ** Format ([format.rs]) *)

Definition MAGIC : list Z := [77; 70; 82; 49].
Definition FORMAT_VERSION : Z := 3.
Definition MIN_SUPPORTED_FORMAT_VERSION : Z := 1.
Definition HEADER_SIZE : Z := 4 + 2 + 8 + 8.
Definition MAX_RAW_RECORD_LEN : Z := 16 * 1024 * 1024.
Definition RAW_HEADER_BODY_LEN : Z := 8 + 8 + 8 + 8 + 1 + 1 + 1 + 4 + 4.

Inductive Direction := Inbound | Outbound.

Inductive FrameOpcode :=
  | OpText | OpBinary | OpPing | OpPong | OpClose | OpHttpResponse | OpMetadata
  | OpSubscriptionCommand.

(** [x as u8] of the two [repr(u8)] enums. *)
Definition direction_u8 (d : Direction) : Z :=
  match d with Inbound => 0 | Outbound => 1 end.

Definition opcode_u8 (o : FrameOpcode) : Z :=
  match o with
  | OpText => 1 | OpBinary => 2 | OpPing => 3 | OpPong => 4 | OpClose => 5
  | OpHttpResponse => 6 | OpMetadata => 7 | OpSubscriptionCommand => 8
  end.

Definition from_u8_for_version (v format_version : Z) : option FrameOpcode :=
  match v with
  | 1 => Some OpText
  | 2 => Some OpBinary
  | 3 => Some OpPing
  | 4 => Some OpPong
  | 5 => Some OpClose
  | 6 => if 2 <=? format_version then Some OpHttpResponse else None
  | 7 => if 2 <=? format_version then Some OpMetadata else None
  | 8 => if 3 <=? format_version then Some OpSubscriptionCommand else None
  | _ => None
  end.

Definition direction_from_u8 (v : Z) : option Direction :=
  match v with 0 => Some Inbound | 1 => Some Outbound | _ => None end.

Record RawRecordHeader := mkRawRecordHeader {
  rh_record_len : Z;
  rh_session : SessionId;
  rh_frame_seq : Z;
  rh_receive_ts_ns : Z;
  rh_monotonic_ns : Z;
  rh_direction : Direction;
  rh_opcode : FrameOpcode;
  rh_flags : Z;
  rh_payload_len : Z;
  rh_payload_crc32c : Z
}.

Record RawRecord := mkRawRecord { rr_header : RawRecordHeader; rr_payload : list Z }.

Inductive RecordingError :=
  | Io (detail : string)
  | BadMagic
  | UnsupportedVersion (version : Z)
  | Truncated
  | CrcMismatch
  | InvalidHeader
  | MetadataConflict (key : string)
  | InvalidControlCommand (detail : string)
  | RecordTooLarge (record_len max : Z)
  | QueueFull
  | UnsupportedOverflow (policy : string)
  | ShutdownTimeout (remaining : Z)
  | NormalizedBoundExceeded (kind : string) (limit : Z)
  | DiskFull.

(** ** Writer ([writer.rs]) *)

Record RawSegmentWriter (W : Type) := mkRawSegmentWriter {
  rw_writer : W;
  rw_records_written : Z;
  rw_started : bool
}.
Arguments mkRawSegmentWriter {W}.
Arguments rw_writer {W}.
Arguments rw_records_written {W}.
Arguments rw_started {W}.

#[export] Instance eta_RawSegmentWriter W : Eta (RawSegmentWriter W) := fun w =>
  mkRawSegmentWriter (rw_writer w) (rw_records_written w) (rw_started w).

Section Writer.
Context {W : Type} `{Write W}.

(** [writer.write_all(bytes)?] with the conversion of the [io::Error]. *)
Definition put (bytes : list Z) : Eff W RecordingError unit := fun w =>
  let '(r, w) := write_all bytes w in (map_err Io r, w).

(** The device is part of the result: what was written stays written when
    [create] fails. *)
Definition create (writer : W) (start_ts_ns : Z)
    : result (RawSegmentWriter W) RecordingError * W :=
  let '(r, w) := (put MAGIC !;
                  put (to_le_bytes 2 FORMAT_VERSION) !;
                  put (to_le_bytes 8 start_ts_ns) !;
                  put (to_le_bytes 8 0)) writer in
  (rmap (fun _ => mkRawSegmentWriter w 0 true) r, w).

(** [self.writer.write_all(bytes)?]. *)
Definition put_self (bytes : list Z) : Eff (RawSegmentWriter W) RecordingError unit :=
  ezoom rw_writer (fun w self => self ⟪ rw_writer := w ⟫) (put bytes).

Definition write_header (h : RawRecordHeader) : Eff (RawSegmentWriter W) RecordingError unit :=
  put_self (to_le_bytes 4 (rh_record_len h)) !;
  put_self (to_le_bytes 8 (rh_session h)) !;
  put_self (to_le_bytes 8 (rh_frame_seq h)) !;
  put_self (to_le_bytes 8 (rh_receive_ts_ns h)) !;
  put_self (to_le_bytes 8 (rh_monotonic_ns h)) !;
  put_self [direction_u8 (rh_direction h)] !;
  put_self [opcode_u8 (rh_opcode h)] !;
  put_self [rh_flags h] !;
  put_self (to_le_bytes 4 (rh_payload_len h)) !;
  put_self (to_le_bytes 4 (rh_payload_crc32c h)).

Definition write_record (session frame_seq receive_ts_ns monotonic_ns : Z)
    (direction : Direction) (opcode : FrameOpcode) (flags : Z) (payload : list Z)
    : Eff (RawSegmentWriter W) RecordingError unit :=
  let! self := eget in
  if negb (rw_started self) then ethrow (Io "writer not started") else
  let len := Z.of_nat (length payload) in
  let! payload_len := elift (ok_or (to_ty U32 len) InvalidHeader) in
  let payload_crc := crc32c payload in
  let! record_len := elift (ok_or (to_ty U32 (4 + RAW_HEADER_BODY_LEN + len)) InvalidHeader) in
  if MAX_RAW_RECORD_LEN <? record_len then ethrow (RecordTooLarge record_len MAX_RAW_RECORD_LEN)
  else
    write_header {| rh_record_len := record_len;
                    rh_session := session;
                    rh_frame_seq := frame_seq;
                    rh_receive_ts_ns := receive_ts_ns;
                    rh_monotonic_ns := monotonic_ns;
                    rh_direction := direction;
                    rh_opcode := opcode;
                    rh_flags := flags;
                    rh_payload_len := payload_len;
                    rh_payload_crc32c := payload_crc |} !;
    put_self payload !;
    emod (fun self => self ⟪ rw_records_written := wrap U64 (rw_records_written self + 1) ⟫).

Definition rw_flush : Eff (RawSegmentWriter W) RecordingError unit := fun self =>
  let '(r, w) := flush (rw_writer self) in (map_err Io r, self ⟪ rw_writer := w ⟫).

Definition write_raw (record : RawRecord) : Eff (RawSegmentWriter W) RecordingError unit :=
  let h := rr_header record in
  write_record (rh_session h) (rh_frame_seq h) (rh_receive_ts_ns h) (rh_monotonic_ns h)
    (rh_direction h) (rh_opcode h) (rh_flags h) (rr_payload record).
End Writer.

(** ** Reader ([reader.rs]) over the bytes of a segment *)

Record RawSegmentReader := mkRawSegmentReader {
  rd_rest : list Z;
  rd_format_version : Z;
  rd_start_ts_ns : Z;
  rd_records_read : Z
}.

#[export] Instance eta_RawSegmentReader : Eta RawSegmentReader := fun r =>
  mkRawSegmentReader (rd_rest r) (rd_format_version r) (rd_start_ts_ns r) (rd_records_read r).

(** [reader.read_exact(&mut buf)?]. *)
Definition take_exact (n : nat) : Eff (list Z) RecordingError (list Z) := fun rest =>
  let '(r, rest) := read_exact n rest in (ok_or r (Io "failed to fill whole buffer"), rest).

Definition read_u16 : Eff (list Z) RecordingError Z :=
  let! b := take_exact 2 in eret (from_le_bytes b).
Definition read_u64 : Eff (list Z) RecordingError Z :=
  let! b := take_exact 8 in eret (from_le_bytes b).
Definition read_i64 : Eff (list Z) RecordingError Z :=
  let! b := take_exact 8 in eret (wrap I64 (from_le_bytes b)).

Definition open_segment : Eff (list Z) RecordingError (Z * Z) :=
  let! magic := take_exact 4 in
  if negb (bool_decide (magic = MAGIC)) then ethrow BadMagic else
  let! version := read_u16 in
  if negb ((MIN_SUPPORTED_FORMAT_VERSION <=? version) && (version <=? FORMAT_VERSION)) then
    ethrow (UnsupportedVersion version)
  else
    let! start_ts_ns := read_i64 in
    let! _session_count := read_u64 in
    eret (version, start_ts_ns).

Definition from_bytes (bytes : list Z) : result RawSegmentReader RecordingError :=
  let '(r, rest) := open_segment bytes in
  let? vs := r in
  Ok (mkRawSegmentReader rest vs.1 vs.2 0).

(** [rest[a..b]]. *)
Definition slice (a b : nat) (l : list Z) : list Z := take (b - a) (drop a l).

(** Decoding the bytes that follow the length field. *)
Definition decode_body (format_version record_len : Z) (rest : list Z)
    : result RawRecord RecordingError :=
  let session := from_le_bytes (slice 0 8 rest) in
  let frame_seq := from_le_bytes (slice 8 16 rest) in
  let receive_ts_ns := wrap I64 (from_le_bytes (slice 16 24 rest)) in
  let monotonic_ns := from_le_bytes (slice 24 32 rest) in
  let? direction := ok_or (direction_from_u8 (nth 32 rest 0)) InvalidHeader in
  let? opcode := ok_or (from_u8_for_version (nth 33 rest 0) format_version) InvalidHeader in
  let flags := nth 34 rest 0 in
  let payload_len := from_le_bytes (slice 35 39 rest) in
  let payload_crc := from_le_bytes (slice 39 43 rest) in
  if negb (Z.of_nat (length rest) =? RAW_HEADER_BODY_LEN + payload_len) then Err InvalidHeader
  else
    let payload := drop (Z.to_nat RAW_HEADER_BODY_LEN) rest in
    if negb (crc32c payload =? payload_crc) then Err CrcMismatch
    else
      Ok {| rr_header := {| rh_record_len := record_len;
                            rh_session := session;
                            rh_frame_seq := frame_seq;
                            rh_receive_ts_ns := receive_ts_ns;
                            rh_monotonic_ns := monotonic_ns;
                            rh_direction := direction;
                            rh_opcode := opcode;
                            rh_flags := flags;
                            rh_payload_len := payload_len;
                            rh_payload_crc32c := payload_crc |};
            rr_payload := payload |}.

(** [self.reader.read_exact], with its end-of-file outcome. *)
Definition read_self (n : nat) : Eff RawSegmentReader RecordingError (option (list Z)) :=
  fun self => let '(r, rest) := read_exact n (rd_rest self) in
              (Ok r, self ⟪ rd_rest := rest ⟫).

Definition read_record : Eff RawSegmentReader RecordingError (option RawRecord) :=
  let! len_buf := read_self 4 in
  match len_buf with
  | None => eret None
  | Some len_buf =>
      let record_len := from_le_bytes len_buf in
      if record_len <? 4 + RAW_HEADER_BODY_LEN then ethrow InvalidHeader
      else if MAX_RAW_RECORD_LEN <? record_len then
        ethrow (RecordTooLarge record_len MAX_RAW_RECORD_LEN)
      else
        let! rest := read_self (Z.to_nat (record_len - 4)) in
        match rest with
        | None => ethrow Truncated
        | Some rest =>
            let! self := eget in
            let! record := elift (decode_body (rd_format_version self) record_len rest) in
            emod (fun self => self ⟪ rd_records_read := wrap U64 (rd_records_read self + 1) ⟫) !;
            eret (Some record)
        end
  end.

(** A record takes at least 47 bytes, so the number of bytes left is enough
    fuel; [None] would mean that it was not. *)
Fixpoint read_loop (fuel : nat) (out : list RawRecord) (self : RawSegmentReader)
    : option (result (list RawRecord) RecordingError) * RawSegmentReader :=
  match fuel with
  | O => (None, self)
  | S fuel =>
      match read_record self with
      | (Ok (Some r), self) => read_loop fuel (out ++ [r]) self
      | (Ok None, self) => (Some (Ok out), self)
      | (Err Truncated, self) => (Some (Ok out), self)
      | (Err e, self) => (Some (Err e), self)
      end
  end.

Definition read_all (self : RawSegmentReader)
    : option (result (list RawRecord) RecordingError) * RawSegmentReader :=
  read_loop (S (length (rd_rest self))) [] self.

(** ** Queue ([queue.rs]) *)

Record PendingFrame := mkPendingFrame {
  pf_session : SessionId;
  pf_frame_seq : Z;
  pf_receive_ts_ns : Z;
  pf_monotonic_ns : Z;
  pf_direction : Direction;
  pf_opcode : FrameOpcode;
  pf_flags : Z;
  pf_payload : list Z
}.

Inductive EnqueueOutcome := EnqAccepted | EnqDroppedNewest | EnqDroppedOldest (dropped : Z).

Record RecordingQueue := mkRecordingQueue {
  rq_capacity : Z;
  rq_policy : OverflowPolicy;
  rq_items : list PendingFrame;
  rq_dropped_total : Z
}.

#[export] Instance eta_RecordingQueue : Eta RecordingQueue := fun q =>
  mkRecordingQueue (rq_capacity q) (rq_policy q) (rq_items q) (rq_dropped_total q).

(** [None] is the panic of the assertion. *)
Definition recording_queue_new (capacity : Z) (policy : OverflowPolicy) : option RecordingQueue :=
  if 0 <? capacity then Some (mkRecordingQueue capacity policy [] 0) else None.

Definition recording_queue_len (self : RecordingQueue) : Z := Z.of_nat (length (rq_items self)).

(** [format!("{policy:?}")]. *)
Definition policy_debug (p : OverflowPolicy) : string :=
  match p with
  | BlockWithDeadline => "BlockWithDeadline"
  | DropNewest => "DropNewest"
  | DropOldest => "DropOldest"
  | LatestPerKey => "LatestPerKey"
  | SpillToDisk => "SpillToDisk"
  | DisableSink => "DisableSink"
  | FailEngine => "FailEngine"
  end.

Definition recording_push (frame : PendingFrame)
    : Eff RecordingQueue RecordingError EnqueueOutcome :=
  let! self := eget in
  if recording_queue_len self <? rq_capacity self then
    emod (fun self => self ⟪ rq_items := rq_items self ++ [frame] ⟫) !;
    eret EnqAccepted
  else
    match rq_policy self with
    | DropNewest =>
        emod (fun self => self ⟪ rq_dropped_total := wrap U64 (rq_dropped_total self + 1) ⟫) !;
        eret EnqDroppedNewest
    | DropOldest =>
        emod (fun self => self ⟪ rq_items := drop 1 (rq_items self) ⟫) !;
        emod (fun self => self ⟪ rq_items := rq_items self ++ [frame] ⟫) !;
        emod (fun self => self ⟪ rq_dropped_total := wrap U64 (rq_dropped_total self + 1) ⟫) !;
        eret (EnqDroppedOldest 1)
    | FailEngine => ethrow QueueFull
    | other => ethrow (UnsupportedOverflow (policy_debug other))
    end.

Definition recording_pop_front (self : RecordingQueue) : option PendingFrame * RecordingQueue :=
  (head (rq_items self), self ⟪ rq_items := drop 1 (rq_items self) ⟫).

Definition drain_front (max : Z) (self : RecordingQueue) : list PendingFrame * RecordingQueue :=
  let count := Z.to_nat (Z.min max (recording_queue_len self)) in
  (take count (rq_items self), self ⟪ rq_items := drop count (rq_items self) ⟫).

Definition overflow_events (outcome : EnqueueOutcome) (dropped_total : Z) : list SystemEvent :=
  match outcome with
  | EnqAccepted => []
  | EnqDroppedNewest | EnqDroppedOldest _ =>
      [QueuePressure "recording queue full";
       EventsDropped 1 ("recording_queue dropped_total=" +:+ pretty dropped_total)]
  end.

Example crc_vectors :
  crc32c [] = 0 /\ crc32c (bytes_of_string "123456789") = 0xE3069283.
Proof. split; vm_compute; reflexivity. Qed.

(** ** The checksum detects every burst of up to four bytes *)

Definition in32 (x : Z) : Prop := 0 <= x < 2 ^ 32.

(** One step with the byte already folded into the register. *)
Definition step0 (x : Z) : Z := Z.lxor (nth (Z.to_nat (Z.land x 255)) table 0) (Z.shiftr x 8).

Lemma lt_pow2_bits x n : 0 <= n -> 0 <= x -> (forall i, n <= i -> Z.testbit x i = false) -> x < 2 ^ n.
Proof.
  intros Hn Hx Hb. destruct (Z.lt_ge_cases x (2 ^ n)) as [|Hge]; [done|exfalso].
  assert (0 < x) by (pose proof (Z.pow_pos_nonneg 2 n ltac:(lia) Hn); lia).
  pose proof (proj1 (Z.log2_le_pow2 x n ltac:(lia)) Hge) as Hl.
  pose proof (Z.bit_log2 x ltac:(lia)). rewrite (Hb _ Hl) in *. done.
Qed.

Lemma in32_lxor x y : in32 x -> in32 y -> in32 (Z.lxor x y).
Proof.
  intros [Hx Hx'] [Hy Hy']. assert (0 <= Z.lxor x y) by (by apply Z.lxor_nonneg).
  split; [done|]. apply lt_pow2_bits; [lia|done|]. intros i Hi. rewrite Z.lxor_spec.
  assert (forall z, 0 <= z < 2 ^ 32 -> Z.testbit z i = false) as Hz.
  { intros z Hz. destruct (Z.eq_dec z 0) as [->|]; [apply Z.bits_0|].
    apply Z.bits_above_log2; [lia|]. apply Z.lt_le_trans with 32; [|done].
    apply Z.log2_lt_pow2; lia. }
  by rewrite !Hz.
Qed.

Lemma table_facts :
  length table = 256%nat /\ Forall in32 table /\ NoDup ((fun x => Z.shiftr x 24) <$> table).
Proof.
  split; [vm_compute; reflexivity|]. split.
  - apply (bool_decide_unpack _). vm_compute. exact I.
  - apply (bool_decide_unpack _). vm_compute. exact I.
Qed.

Lemma low_byte x : Z.land x 255 = x mod 256.
Proof. apply (Z.land_ones x 8). lia. Qed.

Lemma low_index x : exists t, table !! Z.to_nat (Z.land x 255) = Some t /\
  nth (Z.to_nat (Z.land x 255)) table 0 = t /\ in32 t.
Proof.
  destruct table_facts as (Hl & Hf & _). rewrite low_byte.
  pose proof (Z.mod_pos_bound x 256 ltac:(lia)).
  destruct (lookup_lt_is_Some_2 table (Z.to_nat (x mod 256))) as [t Ht]; [lia|].
  exists t. split; [done|]. split; [by apply nth_lookup_Some|].
  rewrite Forall_forall in Hf. apply Hf. by eapply list_elem_of_lookup_2.
Qed.

Lemma shiftr8_range x : in32 x -> 0 <= Z.shiftr x 8 < 2 ^ 24.
Proof.
  intros [H1 H2]. rewrite Z.shiftr_div_pow2 by lia. split; [apply Z.div_pos; lia|].
  apply Z.div_lt_upper_bound; lia.
Qed.

Lemma step0_in32 x : in32 x -> in32 (step0 x).
Proof.
  intros Hx. unfold step0. destruct (low_index x) as (t & _ & -> & Ht). apply in32_lxor; [done|].
  pose proof (shiftr8_range x Hx). unfold in32. lia.
Qed.

Lemma step0_inj x y : in32 x -> in32 y -> step0 x = step0 y -> x = y.
Proof.
  intros Hx Hy. unfold step0.
  destruct (low_index x) as (t & Htx & -> & Ht). destruct (low_index y) as (u & Huy & -> & Hu).
  intros E. assert (t = u /\ Z.to_nat (Z.land x 255) = Z.to_nat (Z.land y 255)) as [-> Hi].
  { assert (Z.shiftr t 24 = Z.shiftr u 24) as E24.
    { apply (f_equal (fun z => Z.shiftr z 24)) in E. rewrite !Z.shiftr_lxor in E.
      rewrite !Z.shiftr_shiftr in E by lia.
      assert (forall z, in32 z -> Z.shiftr z (8 + 24) = 0) as Hz.
      { intros z [? ?]. rewrite Z.shiftr_div_pow2 by lia. apply Z.div_small. lia. }
      rewrite !Hz, !Z.lxor_0_r in E by done. done. }
    destruct table_facts as (_ & _ & Hnd).
    assert (Z.to_nat (Z.land x 255) = Z.to_nat (Z.land y 255)) as Hi.
    { eapply (NoDup_lookup _ _ _ (Z.shiftr t 24) Hnd).
      - rewrite list_lookup_fmap, Htx. done.
      - rewrite list_lookup_fmap, Huy. simpl. by rewrite E24. }
    split; [|done]. rewrite Hi in Htx. congruence. }
  assert (Z.shiftr x 8 = Z.shiftr y 8) as E8.
  { apply (f_equal (Z.lxor u)) in E. rewrite <- !Z.lxor_assoc, !Z.lxor_nilpotent, !Z.lxor_0_l in E.
    done. }
  rewrite !low_byte in Hi. rewrite !Z.shiftr_div_pow2 in E8 by lia.
  pose proof (Z.mod_pos_bound x 256 ltac:(lia)). pose proof (Z.mod_pos_bound y 256 ltac:(lia)).
  pose proof (Z.div_mod x 256 ltac:(lia)). pose proof (Z.div_mod y 256 ltac:(lia)).
  change (2 ^ 8) with 256 in E8. lia.
Qed.

Lemma byte_shiftr b : is_byte b -> Z.shiftr b 8 = 0.
Proof. intros [? ?]. rewrite Z.shiftr_div_pow2 by lia. by apply Z.div_small. Qed.

Lemma crc_step_step0 c b : is_byte b -> crc_step table c b = step0 (Z.lxor c b).
Proof.
  intros Hb. unfold crc_step, step0. by rewrite Z.shiftr_lxor, (byte_shiftr b Hb), Z.lxor_0_r.
Qed.

Lemma is_byte_in32 b : is_byte b -> in32 b.
Proof. unfold is_byte, in32. lia. Qed.

Lemma crc_fold_in32 l c : bytes_ok l -> in32 c -> in32 (foldl (crc_step table) c l).
Proof.
  intros Hl. revert c. induction Hl as [|b l Hb _ IH]; intros c Hc; [done|]. simpl. apply IH.
  rewrite crc_step_step0 by done. apply step0_in32, in32_lxor; [done|by apply is_byte_in32].
Qed.

Lemma lxor_cancel a b c : Z.lxor a c = Z.lxor b c -> a = b.
Proof.
  intros E. apply (f_equal (fun z => Z.lxor z c)) in E.
  by rewrite !Z.lxor_assoc, Z.lxor_nilpotent, !Z.lxor_0_r in E.
Qed.

(** The register never forgets a difference. *)
Lemma crc_fold_inj l c c' :
  bytes_ok l -> in32 c -> in32 c' ->
  foldl (crc_step table) c l = foldl (crc_step table) c' l -> c = c'.
Proof.
  intros Hl. revert c c'. induction Hl as [|b l Hb Hl IH]; intros c c' Hc Hc'; [done|]. simpl.
  rewrite !crc_step_step0 by done. intros E.
  assert (in32 (Z.lxor c b) /\ in32 (Z.lxor c' b)) as [H1 H2]
    by (split; apply in32_lxor; (done || by apply is_byte_in32)).
  apply IH in E; [|by apply step0_in32..]. apply step0_inj in E; [|done|done].
  by apply lxor_cancel in E.
Qed.

Lemma step0_shifted z w : step0 (Z.lxor z (Z.shiftl w 8)) = Z.lxor (step0 z) w.
Proof.
  unfold step0. rewrite Z.shiftr_lxor, Z.shiftr_shiftl_l by lia. rewrite Z.shiftl_0_r.
  rewrite Z.lxor_assoc. f_equal. f_equal. f_equal. apply Z.bits_inj'. intros i Hi.
  rewrite !Z.land_spec, Z.lxor_spec. destruct (Z.lt_ge_cases i 8).
  - rewrite Z.shiftl_spec_low by lia. by rewrite xorb_false_r.
  - assert (Z.testbit 255 i = false) as -> by (apply Z.bits_above_log2; simpl; lia).
    by rewrite !andb_false_r.
Qed.

(** Feeding some bytes is stepping with their little-endian word added. *)
Lemma crc_fold_word l c :
  bytes_ok l ->
  foldl (crc_step table) c l = Nat.iter (length l) step0 (Z.lxor c (from_le_bytes l)).
Proof.
  intros Hl. revert c. induction Hl as [|b l Hb Hl IH]; intros c; simpl.
  { by rewrite Z.lxor_0_r. }
  rewrite IH, crc_step_step0 by done. rewrite <- step0_shifted, <- Nat.iter_swap. f_equal. f_equal.
  rewrite Z.lxor_assoc. f_equal. rewrite lor_byte by (done || by apply from_le_bytes_nonneg).
  rewrite <- Z.add_nocarry_lxor; [rewrite Z.shiftl_mul_pow2 by lia; lia|].
  apply Z.bits_inj'. intros i Hi. rewrite Z.land_spec, Z.bits_0.
  destruct (Z.lt_ge_cases i 8); [rewrite Z.shiftl_spec_low by lia; apply andb_false_r|].
  assert (Z.testbit b i = Z.testbit (Z.shiftr b 8) (i - 8)) as ->
    by (rewrite Z.shiftr_spec by lia; f_equal; lia).
  by rewrite (byte_shiftr b Hb), Z.bits_0.
Qed.

Lemma iter_step0_inj n x y :
  in32 x -> in32 y -> Nat.iter n step0 x = Nat.iter n step0 y -> x = y.
Proof.
  revert x y. induction n as [|n IH]; intros x y Hx Hy; [done|]. rewrite !Nat.iter_succ_r.
  intros E%IH; [|by apply step0_in32..]. by apply step0_inj in E.
Qed.

Lemma word_in32 l : bytes_ok l -> (length l <= 4)%nat -> in32 (from_le_bytes l).
Proof.
  intros Hl Hlen. split; [by apply from_le_bytes_nonneg|].
  rewrite <- (to_from_le_bytes l Hl) at 1. rewrite from_to_le_bytes.
  eapply Z.lt_le_trans; [apply Z.mod_pos_bound, Z.pow_pos_nonneg; lia|].
  change (2 ^ 32) with (256 ^ 4). apply Z.pow_le_mono_r; lia.
Qed.

Lemma crc32c_burst pre b b' suf :
  bytes_ok (pre ++ b ++ suf) -> bytes_ok b' -> length b' = length b -> (length b <= 4)%nat ->
  b' <> b -> crc32c (pre ++ b' ++ suf) <> crc32c (pre ++ b ++ suf).
Proof.
  intros [Hpre [Hb Hsuf]%Forall_app]%Forall_app Hb' Hlen H4 Hne E. apply Hne.
  unfold crc32c in E. apply lxor_cancel in E. rewrite !foldl_app in E.
  set (c := foldl (crc_step table) 4294967295 pre) in *.
  assert (in32 c) as Hc by (apply crc_fold_in32; [done|unfold in32; lia]).
  apply crc_fold_inj in E; [|done|by apply crc_fold_in32..].
  rewrite !crc_fold_word, Hlen in E by done.
  assert (in32 (from_le_bytes b) /\ in32 (from_le_bytes b')) as [W1 W2]
    by (split; apply word_in32; (done || lia)).
  apply iter_step0_inj in E; [|by apply in32_lxor..].
  rewrite (Z.lxor_comm c), (Z.lxor_comm c) in E. apply lxor_cancel in E.
  rewrite <- (to_from_le_bytes b' Hb'), E, Hlen. by apply to_from_le_bytes.
Qed.

(** ** Segments: what is written is read back *)

(** The header [write_record] gives a frame, and the bytes of a frame. *)
Definition frame_header (f : PendingFrame) : RawRecordHeader :=
  let len := Z.of_nat (length (pf_payload f)) in
  {| rh_record_len := 4 + RAW_HEADER_BODY_LEN + len;
     rh_session := pf_session f;
     rh_frame_seq := pf_frame_seq f;
     rh_receive_ts_ns := pf_receive_ts_ns f;
     rh_monotonic_ns := pf_monotonic_ns f;
     rh_direction := pf_direction f;
     rh_opcode := pf_opcode f;
     rh_flags := pf_flags f;
     rh_payload_len := len;
     rh_payload_crc32c := crc32c (pf_payload f) |}.

Definition record_of (f : PendingFrame) : RawRecord := mkRawRecord (frame_header f) (pf_payload f).

Definition header_body (h : RawRecordHeader) : list Z :=
  to_le_bytes 8 (rh_session h) ++ to_le_bytes 8 (rh_frame_seq h) ++
  to_le_bytes 8 (rh_receive_ts_ns h) ++ to_le_bytes 8 (rh_monotonic_ns h) ++
  [direction_u8 (rh_direction h)] ++ [opcode_u8 (rh_opcode h)] ++ [rh_flags h] ++
  to_le_bytes 4 (rh_payload_len h) ++ to_le_bytes 4 (rh_payload_crc32c h).

Definition encode_frame (f : PendingFrame) : list Z :=
  to_le_bytes 4 (rh_record_len (frame_header f)) ++ header_body (frame_header f) ++ pf_payload f.

Definition segment_header (start_ts_ns : Z) : list Z :=
  MAGIC ++ to_le_bytes 2 FORMAT_VERSION ++ to_le_bytes 8 start_ts_ns ++ to_le_bytes 8 0.

Definition write_frame {W} `{Write W} (f : PendingFrame)
    : Eff (RawSegmentWriter W) RecordingError unit :=
  write_record (pf_session f) (pf_frame_seq f) (pf_receive_ts_ns f) (pf_monotonic_ns f)
    (pf_direction f) (pf_opcode f) (pf_flags f) (pf_payload f).

Definition frame_ok (f : PendingFrame) : Prop :=
  fits U64 (pf_session f) /\ fits U64 (pf_frame_seq f) /\ fits I64 (pf_receive_ts_ns f) /\
  fits U64 (pf_monotonic_ns f) /\ is_byte (pf_flags f) /\ bytes_ok (pf_payload f) /\
  4 + RAW_HEADER_BODY_LEN + Z.of_nat (length (pf_payload f)) <= MAX_RAW_RECORD_LEN.

Lemma crc32c_in32 l : bytes_ok l -> in32 (crc32c l).
Proof.
  intros Hl. unfold crc32c. apply in32_lxor; [apply crc_fold_in32; [done|]|]; unfold in32; lia.
Qed.

Lemma length_encode_frame f : length (encode_frame f) = (47 + length (pf_payload f))%nat.
Proof. reflexivity. Qed.

(** Decoding the body of a written frame. *)
Lemma decode_body_frame f payload :
  frame_ok f -> length payload = length (pf_payload f) ->
  decode_body FORMAT_VERSION (rh_record_len (frame_header f))
    (header_body (frame_header f) ++ payload) =
  if negb (crc32c payload =? crc32c (pf_payload f)) then Err CrcMismatch
  else Ok (mkRawRecord (frame_header f) payload).
Proof.
  intros (H1 & H2 & H3 & H4 & H5 & H6 & H7) Hlen. set (h := frame_header f).
  set (body := header_body h ++ payload). unfold decode_body.
  change (slice 0 8 body) with (to_le_bytes 8 (rh_session h)).
  change (slice 8 16 body) with (to_le_bytes 8 (rh_frame_seq h)).
  change (slice 16 24 body) with (to_le_bytes 8 (rh_receive_ts_ns h)).
  change (slice 24 32 body) with (to_le_bytes 8 (rh_monotonic_ns h)).
  change (nth 32 body 0) with (direction_u8 (rh_direction h)).
  change (nth 33 body 0) with (opcode_u8 (rh_opcode h)).
  change (nth 34 body 0) with (rh_flags h).
  change (slice 35 39 body) with (to_le_bytes 4 (rh_payload_len h)).
  change (slice 39 43 body) with (to_le_bytes 4 (rh_payload_crc32c h)).
  change (drop (Z.to_nat RAW_HEADER_BODY_LEN) body) with payload.
  change (length body) with (43 + length payload)%nat.
  pose proof (crc32c_in32 _ H6) as [C1 C2].
  unfold MAX_RAW_RECORD_LEN, RAW_HEADER_BODY_LEN in H7.
  assert (fits U32 (rh_payload_len h)) by (unfold fits; simpl; lia).
  assert (fits U32 (rh_payload_crc32c h)) by (unfold fits; simpl; lia).
  rewrite (le_u64 (rh_session h) H1), (le_u64 (rh_frame_seq h) H2), (le_u64 (rh_monotonic_ns h) H4).
  rewrite (le_i64 (rh_receive_ts_ns h) H3), !le_u32 by done.
  assert (direction_from_u8 (direction_u8 (rh_direction h)) = Some (rh_direction h)) as ->
    by (by destruct (rh_direction h)).
  assert (from_u8_for_version (opcode_u8 (rh_opcode h)) FORMAT_VERSION = Some (rh_opcode h)) as ->
    by (by destruct (rh_opcode h)).
  cbn [ok_or rbind]. rewrite (proj2 (Z.eqb_eq _ _)).
  - done.
  - rewrite Hlen. unfold h. cbn [rh_payload_len frame_header]. unfold RAW_HEADER_BODY_LEN. lia.
Qed.

Lemma record_len_ok f :
  frame_ok f -> fits U32 (rh_record_len (frame_header f)) /\
  47 <= rh_record_len (frame_header f) <= MAX_RAW_RECORD_LEN.
Proof.
  intros (_ & _ & _ & _ & _ & _ & H). unfold fits, frame_header. cbn [rh_record_len].
  unfold MAX_RAW_RECORD_LEN, RAW_HEADER_BODY_LEN in *. cbn [int_min int_max]. lia.
Qed.

(** Reading from bytes that start with a frame whose payload may have been
    changed. *)
Lemma read_record_frame f payload tail rd :
  frame_ok f -> length payload = length (pf_payload f) -> rd_format_version rd = FORMAT_VERSION ->
  rd_rest rd = to_le_bytes 4 (rh_record_len (frame_header f)) ++
               (header_body (frame_header f) ++ payload) ++ tail ->
  read_record rd =
  if negb (crc32c payload =? crc32c (pf_payload f)) then (Err CrcMismatch, rd ⟪ rd_rest := tail ⟫)
  else (Ok (Some (mkRawRecord (frame_header f) payload)),
        rd ⟪ rd_rest := tail ⟫ ⟪ rd_records_read := wrap U64 (rd_records_read rd + 1) ⟫).
Proof.
  intros Hf Hlen Hv Hrest. destruct (record_len_ok f Hf) as [Hfit Hrange].
  pose proof (decode_body_frame f payload Hf Hlen) as Hd.
  set (h := frame_header f) in *.
  unfold read_record, read_self. eff_unfold. rewrite Hrest.
  rewrite read_exact_app by apply length_to_le_bytes. rewrite le_u32 by done.
  rewrite (proj2 (Z.ltb_ge _ _)) by (unfold RAW_HEADER_BODY_LEN; lia).
  rewrite (proj2 (Z.ltb_ge _ _)) by lia. cbn [rd_rest set_field].
  rewrite read_exact_app.
  - cbn [rd_format_version]. rewrite Hv, Hd. by destruct (crc32c payload =? _).
  - change (length (header_body h ++ payload)) with (43 + length payload)%nat.
    rewrite Hlen. unfold h, frame_header, RAW_HEADER_BODY_LEN. cbn [rh_record_len]. lia.
Qed.

(** Reading from a frame that was cut short. *)
Lemma read_record_cut f p q rd :
  frame_ok f -> encode_frame f = p ++ q -> q <> [] -> rd_rest rd = p ->
  exists r rd', read_record rd = (r, rd') /\ (r = Ok None \/ r = Err Truncated).
Proof.
  intros Hf He Hq Hrest. destruct (record_len_ok f Hf) as [Hfit Hrange].
  assert (length p < length (encode_frame f))%nat as Hl.
  { rewrite He, length_app. destruct q; [done|simpl; lia]. }
  unfold read_record, read_self. eff_unfold. rewrite Hrest.
  destruct (le_lt_dec 4 (length p)) as [H4|H4].
  - assert (p = to_le_bytes 4 (rh_record_len (frame_header f)) ++ drop 4 p) as Hp.
    { rewrite <- (take_drop 4 p) at 1. f_equal.
      transitivity (take 4 (p ++ q)); [by rewrite take_app_le|]. rewrite <- He. done. }
    rewrite Hp, read_exact_app by apply length_to_le_bytes. rewrite le_u32 by done.
    rewrite (proj2 (Z.ltb_ge _ _)) by (unfold RAW_HEADER_BODY_LEN; lia).
    rewrite (proj2 (Z.ltb_ge _ _)) by lia. cbn [rd_rest set_field].
    rewrite read_exact_short; [by eauto|].
    rewrite length_drop. rewrite length_encode_frame in Hl.
    unfold frame_header, RAW_HEADER_BODY_LEN. cbn [rh_record_len]. lia.
  - rewrite read_exact_short by done. eauto.
Qed.

(** ** Whole segments

    A client of the writer that stops at the first failed write; the bytes on
    the device are part of the result either way. *)

Section Segments.
Context {W : Type} `{Write W}.

Definition record_segment (dev : W) (start_ts_ns : Z) (fs : list PendingFrame)
    : result unit RecordingError * W :=
  match create dev start_ts_ns with
  | (Err e, w) => (Err e, w)
  | (Ok rw, _) => let '(r, rw) := efor fs write_frame rw in (r, rw_writer rw)
  end.

(** [m] keeps [I] and puts [bytes] on the output [out], all of them when it
    succeeds and a prefix of them when it fails. *)
Definition appends {S A} (I : S -> Prop) (out : S -> list Z) (bytes : list Z)
    (m : Eff S RecordingError A) : Prop :=
  forall s, I s -> I (snd (m s)) /\
    exists p q, bytes = p ++ q /\ out (snd (m s)) = out s ++ p /\
                (forall a, fst (m s) = Ok a -> q = []).

Lemma appends_seq {S A B} I (out : S -> list Z) b1 b2
    (m : Eff S RecordingError A) (k : Eff S RecordingError B) :
  appends I out b1 m -> appends I out b2 k -> appends I out (b1 ++ b2) (m !; k).
Proof.
  intros Hm Hk s Hs. unfold ebind. destruct (Hm s Hs) as (H1 & p & q & -> & Hout & Hq).
  destruct (m s) as [[a|e] s1]; cbn [fst snd] in *.
  - rewrite (Hq a eq_refl) in *. destruct (Hk s1 H1) as (H2 & p2 & q2 & -> & Hout2 & Hq2).
    split; [done|]. exists (p ++ p2), q2. rewrite app_nil_r, !app_assoc, Hout2, Hout. done.
  - split; [done|]. exists p, (q ++ b2). by rewrite app_assoc.
Qed.

Lemma appends_ret {S} I (out : S -> list Z) (f : S -> S) :
  (forall s, I s -> I (f s) /\ out (f s) = out s) -> appends I out [] (emod f).
Proof.
  intros Hf s Hs. destruct (Hf s Hs) as [H1 H2]. split; [done|]. exists [], [].
  rewrite (app_nil_r (out s)). done.
Qed.

(** An invariant [J] of the device that writing keeps. *)
Context (J : W -> Prop).
Hypothesis (HJ : forall l w, J w -> J (snd (write_all l w))).

Lemma appends_put bytes : appends J written bytes (put bytes).
Proof.
  intros w Hw0. specialize (HJ bytes w Hw0).
  destruct (write_all_prefix bytes w) as (p & q & -> & Hw & Hq).
  unfold put. destruct (write_all (p ++ q) w) as [r w1]; cbn [fst snd] in *.
  split; [done|]. exists p, q. split; [done|]. split; [done|].
  intros a. destruct r as [[]|]; [by intros _; apply Hq|done].
Qed.

Lemma appends_header ts :
  appends J written (segment_header ts)
    (put MAGIC !; put (to_le_bytes 2 FORMAT_VERSION) !; put (to_le_bytes 8 ts) !;
     put (to_le_bytes 8 0)).
Proof.
  unfold segment_header. repeat (apply appends_seq; [apply appends_put|]). apply appends_put.
Qed.

Definition rw_ready (rw : RawSegmentWriter W) : Prop := rw_started rw = true /\ J (rw_writer rw).
Definition rw_written (rw : RawSegmentWriter W) : list Z := written (rw_writer rw).

Lemma appends_put_self bytes : appends rw_ready rw_written bytes (put_self bytes).
Proof.
  intros rw [Hrw HJw]. destruct (appends_put bytes (rw_writer rw) HJw) as (HJ1 & p & q & E & Hw & Hq).
  unfold put_self, ezoom. destruct (put bytes (rw_writer rw)) as [r w1]; cbn [fst snd] in *.
  split; [done|]. by exists p, q.
Qed.

(** The guards of [write_record] pass on a frame that fits. *)
Lemma write_frame_eq f rw :
  frame_ok f -> rw_started rw = true ->
  write_frame f rw =
  (write_header (frame_header f) !; put_self (pf_payload f) !;
   emod (fun self => self ⟪ rw_records_written := wrap U64 (rw_records_written self + 1) ⟫)) rw.
Proof.
  intros Hf Hrw. destruct (record_len_ok f Hf) as [Hfit Hrange].
  assert (fits U32 (Z.of_nat (length (pf_payload f)))) as Hfit'.
  { unfold fits, frame_header, RAW_HEADER_BODY_LEN in *. cbn [rh_record_len int_min int_max] in *. lia. }
  unfold write_frame, write_record. unfold ebind at 1. unfold eget at 1. rewrite Hrw.
  rewrite (proj2 (to_ty_Some U32 (Z.of_nat _) _)) by (split; [reflexivity|exact Hfit']).
  rewrite (proj2 (to_ty_Some U32 (4 + RAW_HEADER_BODY_LEN + _) _))
    by (split; [reflexivity|exact Hfit]).
  cbn [ok_or negb]. unfold ebind at 1. unfold elift at 1. unfold ebind at 1. unfold elift at 1.
  by rewrite (proj2 (Z.ltb_ge _ _)) by apply Hrange.
Qed.

Lemma appends_frame f :
  frame_ok f -> appends rw_ready rw_written (encode_frame f) (write_frame f).
Proof.
  intros Hf rw Hrw. rewrite (write_frame_eq f rw Hf (proj1 Hrw)). revert rw Hrw.
  replace (encode_frame f)
    with ((to_le_bytes 4 (rh_record_len (frame_header f)) ++ header_body (frame_header f)) ++
          pf_payload f ++ []) by (unfold encode_frame; by rewrite app_nil_r, <- app_assoc).
  apply appends_seq; [|apply appends_seq; [apply appends_put_self|by apply appends_ret]].
  unfold header_body, write_header.
  repeat (apply appends_seq; [apply appends_put_self|]). apply appends_put_self.
Qed.

Lemma appends_frames fs :
  Forall frame_ok fs ->
  appends rw_ready rw_written (concat (encode_frame <$> fs)) (efor fs write_frame).
Proof.
  induction 1 as [|f fs Hf _ IH]; cbn [fmap list_fmap concat efor].
  - intros rw Hrw. split; [done|]. exists [], []. by rewrite (app_nil_r (rw_written rw)).
  - apply appends_seq; [by apply appends_frame|done].
Qed.

End Segments.

(** What a recording leaves on an empty device: a prefix of the segment, the
    whole of it when every write succeeded. *)
Lemma record_segment_written {W} `{Write W} (dev : W) ts fs :
  written dev = [] -> Forall frame_ok fs ->
  exists q : list Z, segment_header ts ++ concat (encode_frame <$> fs)
              = written (snd (record_segment dev ts fs)) ++ q /\
            (fst (record_segment dev ts fs) = Ok tt -> q = []).
Proof.
  intros Hdev Hfs. unfold record_segment, create.
  pose proof (appends_header (fun _ => True) ltac:(done) ts) as Hc.
  destruct (Hc dev I) as (_ & p & q & -> & Hw & Hq). clear Hc.
  destruct ((put MAGIC !; _) dev) as [[[]|e] w1]; cbn [fst snd rmap] in *; rewrite Hdev in Hw.
  - rewrite (Hq tt eq_refl) in *. set (rw := mkRawSegmentWriter w1 0 true).
    destruct (appends_frames (fun _ => True) ltac:(done) fs Hfs rw (conj eq_refl I)) as (_ & p2 & q2 & -> & Hw2 & Hq2).
    destruct (efor fs write_frame rw) as [r rw2]; cbn [fst snd] in *. exists q2.
    unfold rw_written in Hw2. rewrite Hw2. cbn [rw_writer rw]. rewrite Hw, !app_nil_r, app_assoc.
    split; [done|]. intros ->. by apply (Hq2 tt).
  - exists (q ++ concat (encode_frame <$> fs)). by rewrite Hw, app_assoc.
Qed.

(** The frames that lie within the first [n] bytes. *)
Fixpoint whole_frames (n : nat) (fs : list PendingFrame) : list PendingFrame :=
  match fs with
  | [] => []
  | f :: fs =>
      if (length (encode_frame f) <=? n)%nat
      then f :: whole_frames (n - length (encode_frame f)) fs else []
  end.

Lemma whole_frames_take n fs :
  exists k, whole_frames n fs = take k fs /\ (k <= length fs)%nat /\
    forall m, (m <= length fs)%nat ->
      (length (concat (encode_frame <$> take m fs)) <= n)%nat <-> (m <= k)%nat.
Proof.
  revert n. induction fs as [|f fs IH]; intros n; cbn [whole_frames].
  { exists 0%nat. split; [done|]. split; [done|]. intros [|m] Hm; simpl in *; lia. }
  destruct (Nat.leb_spec (length (encode_frame f)) n).
  - destruct (IH (n - length (encode_frame f))%nat) as (k & -> & Hk & Hmax).
    exists (S k). split; [done|]. split; [simpl; lia|]. intros [|m] Hm; [simpl; lia|].
    cbn [take fmap list_fmap concat]. rewrite length_app. rewrite <- Nat.succ_le_mono.
    rewrite <- (Hmax m) by (simpl in Hm; lia). unfold fmap. lia.
  - exists 0%nat. split; [done|]. split; [lia|]. intros [|m] Hm; [simpl; lia|].
    cbn [take fmap list_fmap concat]. rewrite length_app. lia.
Qed.

Lemma read_loop_frames fs fuel out rd p q :
  Forall frame_ok fs -> rd_format_version rd = FORMAT_VERSION ->
  concat (encode_frame <$> fs) = p ++ q -> rd_rest rd = p -> (length p < fuel)%nat ->
  fst (read_loop fuel out rd) = Some (Ok (out ++ (record_of <$> whole_frames (length p) fs))).
Proof.
  intros Hfs. revert fuel out rd p q.
  induction Hfs as [|f fs Hf Hfs IH]; intros [|fuel] out rd p q Hv Hc Hrest Hfuel; try lia.
  - cbn in Hc. symmetry in Hc. apply app_eq_nil in Hc as [-> ->].
    cbn [read_loop]. unfold read_record, read_self, ebind. rewrite Hrest. by rewrite app_nil_r.
  - cbn [fmap list_fmap concat whole_frames] in *.
    destruct (Nat.leb_spec (length (encode_frame f)) (length p)) as [Hle|Hlt].
    + assert (exists p', p = encode_frame f ++ p') as [p' ->].
      { exists (drop (length (encode_frame f)) p).
        rewrite <- (take_drop (length (encode_frame f)) p) at 1. f_equal.
        rewrite <- (take_app_le p q) by done. rewrite <- Hc. by rewrite take_app_length. }
      rewrite <- app_assoc in Hc. apply app_inv_head in Hc.
      cbn [read_loop]. rewrite (read_record_frame f (pf_payload f) p' rd Hf eq_refl Hv).
      * rewrite Z.eqb_refl. cbn [negb].
        rewrite (IH _ _ _ p' q) by (first [done|rewrite length_app, length_encode_frame in Hfuel; lia]).
        rewrite length_app, Nat.add_comm, Nat.add_sub. by rewrite <- app_assoc.
      * rewrite Hrest. unfold encode_frame. by rewrite <- !app_assoc.
    + apply app_eq_inv in Hc as [(k & He & Hk)|(k & He & Hk)].
      * destruct k as [|b k].
        { exfalso. rewrite He, app_nil_r in Hlt. lia. }
        destruct (read_record_cut f p (b :: k) rd Hf He ltac:(done) Hrest) as (r & rd' & E & Hr).
        cbn [read_loop]. rewrite E, app_nil_r. by destruct Hr as [->| ->].
      * exfalso. rewrite He, length_app in Hlt. lia.
Qed.

Lemma from_bytes_header ts rest :
  fits I64 ts ->
  from_bytes (segment_header ts ++ rest) = Ok (mkRawSegmentReader rest FORMAT_VERSION ts 0).
Proof.
  intros Hts. unfold from_bytes, open_segment, read_u16, read_i64, read_u64, take_exact, segment_header.
  eff_unfold. rewrite <- !app_assoc. rewrite (read_exact_app 4) by done. cbn [ok_or].
  rewrite bool_decide_eq_true_2 by done. cbn [negb].
  rewrite (read_exact_app 2) by done. cbn [ok_or].
  change (negb _) with false. cbv iota beta. rewrite (read_exact_app 8) by done. cbn [ok_or].
  rewrite (read_exact_app 8) by done. cbn [ok_or rbind fst snd]. by rewrite le_i64.
Qed.

(** A surviving prefix of a segment reads back as the frames that lie in it. *)
Lemma read_prefix ts fs p q :
  fits I64 ts -> Forall frame_ok fs ->
  segment_header ts ++ concat (encode_frame <$> fs) = p ++ q -> HEADER_SIZE <= Z.of_nat (length p) ->
  exists rd, from_bytes p = Ok rd /\ rd_start_ts_ns rd = ts /\
    fst (read_all rd) = Some (Ok (record_of <$> whole_frames (length p - Z.to_nat HEADER_SIZE) fs)).
Proof.
  intros Hts Hfs Hc Hlen. change HEADER_SIZE with 22 in *.
  assert (length (segment_header ts) = 22%nat) as Hh by done.
  assert (exists p', p = segment_header ts ++ p') as [p' ->].
  { exists (drop 22 p). rewrite <- (take_drop 22 p) at 1. f_equal.
    rewrite <- (take_app_le p q 22) by lia. rewrite <- Hc, <- Hh. by rewrite take_app_length. }
  rewrite <- app_assoc in Hc. apply app_inv_head in Hc. rewrite from_bytes_header by done.
  eexists; split; [done|]; split; [done|]. unfold read_all. cbn [rd_rest].
  rewrite (read_loop_frames fs _ _ _ p' q) by (first [done|simpl; lia]).
  rewrite length_app, Hh, Nat.add_comm. change (Z.to_nat 22) with 22%nat. by rewrite Nat.add_sub.
Qed.

(** A complete segment reads back as all of its frames. *)
Lemma read_segment ts fs :
  fits I64 ts -> Forall frame_ok fs ->
  exists rd, from_bytes (segment_header ts ++ concat (encode_frame <$> fs)) = Ok rd /\
    rd_start_ts_ns rd = ts /\ fst (read_all rd) = Some (Ok (record_of <$> fs)).
Proof.
  intros Hts Hfs. set (bytes := segment_header ts ++ concat (encode_frame <$> fs)).
  assert (length bytes = 22 + length (concat (encode_frame <$> fs)))%nat as Hlen
    by (unfold bytes; by rewrite length_app).
  destruct (read_prefix ts fs bytes [] Hts Hfs) as (rd & H1 & H2 & H3).
  { by rewrite app_nil_r. }
  { rewrite Hlen. change HEADER_SIZE with 22. lia. }
  exists rd. split; [done|]. split; [done|]. rewrite H3. do 3 f_equal.
  destruct (whole_frames_take (length bytes - Z.to_nat HEADER_SIZE) fs) as (k & -> & Hk & Hmax).
  apply take_ge. apply (Hmax (length fs)); [done|]. rewrite take_ge by done.
  rewrite Hlen. change (Z.to_nat HEADER_SIZE) with 22%nat. lia.
Qed.

Lemma vec_frames_ok fs rw :
  Forall frame_ok fs -> rw_started rw = true ->
  fst (efor (S := RawSegmentWriter (list Z)) fs write_frame rw) = Ok tt.
Proof.
  intros Hfs. revert rw. induction Hfs as [|f fs Hf _ IH]; intros rw Hrw; [done|].
  cbn [efor]. unfold ebind. rewrite write_frame_eq by done. by apply IH.
Qed.

(** Round trip of a raw segment: recording frames that respect the format's
    widths and size limit to an in-memory segment succeeds, and the reader opens
    the bytes, finds the start time, and returns exactly the frames written, in
    order, each with its header fields and payload. *)
Theorem segment_round_trip ts fs :
  fits I64 ts -> Forall frame_ok fs ->
  exists bytes rd,
    record_segment (@nil Z) ts fs = (Ok tt, bytes) /\
    from_bytes bytes = Ok rd /\ rd_start_ts_ns rd = ts /\
    fst (read_all rd) = Some (Ok (record_of <$> fs)).
Proof.
  intros Hts Hfs. pose proof (record_segment_written (@nil Z) ts fs) as Hw.
  destruct (Hw eq_refl Hfs) as (q & Hc & Hq). clear Hw.
  assert (fst (record_segment (@nil Z) ts fs) = Ok tt) as Hr.
  { unfold record_segment. destruct (create (@nil Z) ts) as [r w] eqn:E. injection E as <- _.
    match goal with |- context [efor fs write_frame ?rw] =>
      pose proof (vec_frames_ok fs rw Hfs eq_refl); by destruct (efor fs write_frame rw) end. }
  destruct (record_segment (@nil Z) ts fs) as [r bytes]; cbn [fst snd written vec_write] in *. subst r.
  rewrite (Hq eq_refl), app_nil_r in Hc. destruct (read_segment ts fs Hts Hfs) as (rd & H1 & H2 & H3).
  rewrite Hc in H1. by exists bytes, rd.
Qed.

(** C25. Crash recovery: record onto any device that starts empty and may fail at
    any write, possibly after taking part of it; stop at the first failure; lose
    any tail of what reached the device.  If the segment header survived, the
    segment opens and [read_all] succeeds with a prefix of the frames, namely
    all of those whose bytes survived completely and no other. *)
Theorem crash_recovery W `{Write W} (dev : W) ts fs n :
  written dev = [] -> fits I64 ts -> Forall frame_ok fs ->
  HEADER_SIZE <= Z.of_nat (length (take n (written (snd (record_segment dev ts fs))))) ->
  exists rd k,
    from_bytes (take n (written (snd (record_segment dev ts fs)))) = Ok rd /\
    fst (read_all rd) = Some (Ok (record_of <$> take k fs)) /\ (k <= length fs)%nat /\
    forall m, (m <= length fs)%nat ->
      (m <= k)%nat <->
      HEADER_SIZE + Z.of_nat (length (concat (encode_frame <$> take m fs))) <=
      Z.of_nat (length (take n (written (snd (record_segment dev ts fs))))).
Proof.
  intros Hdev Hts Hfs Hlen. destruct (record_segment_written dev ts fs Hdev Hfs) as (q & Hc & _).
  set (w := written (snd _)) in *. rewrite <- (take_drop n w), <- app_assoc in Hc.
  destruct (read_prefix ts fs _ _ Hts Hfs Hc Hlen) as (rd & H1 & _ & H3).
  destruct (whole_frames_take (length (take n w) - Z.to_nat HEADER_SIZE) fs) as (k & Hk & Hkl & Hmax).
  exists rd, k. rewrite Hk in H3. split_and! ; try done. intros m Hm. rewrite <- (Hmax m Hm).
  change HEADER_SIZE with 22 in *. lia.
Qed.

(** Corruption: change up to four consecutive bytes of a recorded payload
    anywhere in it, and the reader rejects the record with [CrcMismatch] and
    does not count it. *)
Theorem corrupted_payload_rejected f pre b b' suf tail rd :
  frame_ok f -> pf_payload f = pre ++ b ++ suf ->
  bytes_ok b' -> length b' = length b -> (length b <= 4)%nat -> b' <> b ->
  rd_format_version rd = FORMAT_VERSION ->
  rd_rest rd = take (4 + Z.to_nat RAW_HEADER_BODY_LEN) (encode_frame f) ++ (pre ++ b' ++ suf) ++ tail ->
  read_record rd = (Err CrcMismatch, rd ⟪ rd_rest := tail ⟫).
Proof.
  intros Hf Hp Hb' Hlen H4 Hne Hv Hrest.
  rewrite (read_record_frame f (pre ++ b' ++ suf) tail rd Hf) by
    (first [done | rewrite Hp, !length_app; lia | by rewrite Hrest]).
  destruct (Z.eqb_spec (crc32c (pre ++ b' ++ suf)) (crc32c (pf_payload f))) as [E|]; [|done].
  exfalso. revert E. rewrite Hp. apply crc32c_burst; try done. rewrite <- Hp. apply Hf.
Qed.

(** ** Reading arbitrary bytes *)

(** What was decoded, as the frame that would be written for it. *)
Definition frame_of (r : RawRecord) : PendingFrame :=
  let h := rr_header r in
  {| pf_session := rh_session h;
     pf_frame_seq := rh_frame_seq h;
     pf_receive_ts_ns := rh_receive_ts_ns h;
     pf_monotonic_ns := rh_monotonic_ns h;
     pf_direction := rh_direction h;
     pf_opcode := rh_opcode h;
     pf_flags := rh_flags h;
     pf_payload := rr_payload r |}.

Lemma drop_slice a b l : (a <= b)%nat -> drop a l = slice a b l ++ drop b l.
Proof.
  intros Hab. unfold slice. rewrite <- (take_drop (b - a) (drop a l)) at 1.
  rewrite drop_drop. by replace (a + (b - a))%nat with b by lia.
Qed.

Lemma drop_nth a (l : list Z) : (a < length l)%nat -> drop a l = [nth a l 0] ++ drop (S a) l.
Proof.
  intros Ha. destruct (lookup_lt_is_Some_2 l a Ha) as [x Hx].
  rewrite (drop_S l x a Hx), (nth_lookup_Some l a 0 x Hx). done.
Qed.

Lemma length_slice a b l : (b <= length l)%nat -> length (slice a b l) = (b - a)%nat.
Proof. intros Hb. unfold slice. rewrite length_take, length_drop. lia. Qed.

Lemma slice_ok a b l : bytes_ok l -> bytes_ok (slice a b l).
Proof. intros Hl. unfold slice. by apply Forall_take, Forall_drop. Qed.

Lemma le_slice n a b l :
  bytes_ok l -> (b <= length l)%nat -> (b - a)%nat = n ->
  to_le_bytes n (from_le_bytes (slice a b l)) = slice a b l.
Proof.
  intros Hl Hb <-. rewrite <- (length_slice a b l Hb) at 1. apply to_from_le_bytes. by apply slice_ok.
Qed.

Lemma to_le_bytes_wrap z : to_le_bytes 8 (wrap I64 z) = to_le_bytes 8 z.
Proof.
  rewrite <- (to_from_le_bytes (to_le_bytes 8 (wrap I64 z)) (to_le_bytes_ok 8 _)) at 1.
  rewrite <- (to_from_le_bytes (to_le_bytes 8 z) (to_le_bytes_ok 8 _)), !length_to_le_bytes.
  f_equal. rewrite !from_to_le_bytes. unfold wrap. cbn [int_min int_max].
  change (256 ^ Z.of_nat 8) with 18446744073709551616.
  change (9223372036854775807 - -9223372036854775808 + 1) with 18446744073709551616.
  rewrite Zplus_mod_idemp_l. f_equal. lia.
Qed.

Lemma from_le_bytes_fits n l : bytes_ok l -> length l = n -> 0 <= from_le_bytes l < 256 ^ Z.of_nat n.
Proof.
  intros Hl <-. split; [by apply from_le_bytes_nonneg|].
  rewrite <- (to_from_le_bytes l Hl) at 1. rewrite from_to_le_bytes.
  apply Z.mod_pos_bound, Z.pow_pos_nonneg; lia.
Qed.

Lemma opcode_of_u8 v n o : from_u8_for_version v n = Some o -> opcode_u8 o = v.
Proof.
  unfold from_u8_for_version. intros H.
  repeat (case_match; try done); by injection H as <-.
Qed.

Lemma direction_of_u8 v d : direction_from_u8 v = Some d -> direction_u8 d = v.
Proof. unfold direction_from_u8. intros H. repeat (case_match; try done); by injection H as <-. Qed.

Lemma decode_body_inv v L body r :
  bytes_ok body -> Z.of_nat (length body) = L - 4 -> 4 + RAW_HEADER_BODY_LEN <= L <= MAX_RAW_RECORD_LEN ->
  decode_body v L body = Ok r ->
  frame_ok (frame_of r) /\ r = record_of (frame_of r) /\
  body = header_body (rr_header r) ++ rr_payload r /\ rh_record_len (rr_header r) = L.
Proof.
  intros Hb HL HR. change RAW_HEADER_BODY_LEN with 43 in *. unfold decode_body. intros H. res.
  apply direction_of_u8 in Hv. apply opcode_of_u8 in Hv0.
  change RAW_HEADER_BODY_LEN with 43 in *.
  set (P := drop (Z.to_nat 43) body) in *.
  destruct (Z.eqb_spec (Z.of_nat (length body)) (43 + from_le_bytes (slice 35 39 body))) as [E|];
    cbn [negb] in H; [|done].
  destruct (Z.eqb_spec (crc32c P) (from_le_bytes (slice 39 43 body))) as [Ec|]; cbn [negb] in H; [|done].
  injection H as <-.
  assert (Z.of_nat (length P) = from_le_bytes (slice 35 39 body)) as HP
    by (unfold P; rewrite length_drop; lia).
  assert (43 <= length body)%nat as Hlen by lia.
  assert (forall a b n, (b <= length body)%nat -> (b - a)%nat = n ->
    0 <= from_le_bytes (slice a b body) < 256 ^ Z.of_nat n) as Hfit.
  { intros a b n Hn <-. apply from_le_bytes_fits; [by apply slice_ok|by apply length_slice]. }
  assert (forall i, is_byte (nth i body 0)) as Hnth.
  { intros i. destruct (nth_in_or_default i body 0) as [Hi| ->]; [|unfold is_byte; lia].
    unfold bytes_ok in Hb. rewrite Forall_forall in Hb. apply Hb. by apply list_elem_of_In. }
  unfold frame_ok, frame_of, record_of, frame_header, header_body.
  cbn [rr_header rr_payload rh_record_len rh_session rh_frame_seq rh_receive_ts_ns rh_monotonic_ns
       rh_direction rh_opcode rh_flags rh_payload_len rh_payload_crc32c
       pf_session pf_frame_seq pf_receive_ts_ns pf_monotonic_ns pf_direction pf_opcode pf_flags
       pf_payload] in *.
  change RAW_HEADER_BODY_LEN with 43. split_and!.
  - pose proof (Hfit 0%nat 8%nat 8%nat ltac:(lia) eq_refl). unfold fits; cbn [int_min int_max]; lia.
  - pose proof (Hfit 8%nat 16%nat 8%nat ltac:(lia) eq_refl). unfold fits; cbn [int_min int_max]; lia.
  - apply wrap_range.
  - pose proof (Hfit 24%nat 32%nat 8%nat ltac:(lia) eq_refl). unfold fits; cbn [int_min int_max]; lia.
  - apply Hnth.
  - by apply Forall_drop.
  - lia.
  - rewrite HP, Ec. by replace (4 + 43 + from_le_bytes (slice 35 39 body)) with L by lia.
  - rewrite to_le_bytes_wrap, !le_slice by (done || lia).
    rewrite Hv, Hv0. rewrite <- (drop_0 body) at 1.
    rewrite (drop_slice 0 8), (drop_slice 8 16), (drop_slice 16 24), (drop_slice 24 32) by lia.
    rewrite (drop_nth 32), (drop_nth 33), (drop_nth 34) by lia.
    rewrite (drop_slice 35 39), (drop_slice 39 43) by lia. by rewrite <- !app_assoc.
  - done.
Qed.

(** The three ways reading a record ends. *)
Lemma read_record_inv rd :
  bytes_ok (rd_rest rd) ->
  match read_record rd with
  | (Ok (Some r), rd') =>
      frame_ok (frame_of r) /\ r = record_of (frame_of r) /\
      rd_rest rd = encode_frame (frame_of r) ++ rd_rest rd' /\
      rd_format_version rd' = rd_format_version rd
  | (Ok None, _) => (length (rd_rest rd) < 4)%nat
  | (Err e, _) =>
      e = Truncated \/ e = InvalidHeader \/ e = CrcMismatch \/
      exists n, e = RecordTooLarge n MAX_RAW_RECORD_LEN
  end.
Proof.
  intros Hb. destruct rd as [rest v ts n]. cbn [rd_rest rd_format_version] in *.
  unfold read_record, read_self. eff_unfold. cbn [rd_rest]. unfold read_exact at 1.
  destruct (Nat.leb_spec 4 (length rest)) as [H4|H4]; [|done].
  set (L := from_le_bytes (take 4 rest)).
  destruct (Z.ltb_spec L (4 + RAW_HEADER_BODY_LEN)) as [|HL]; [by auto|].
  destruct (Z.ltb_spec MAX_RAW_RECORD_LEN L) as [|HU]; [by eauto 6|]. cbn [rd_rest set_field].
  unfold read_exact at 1. destruct (Nat.leb_spec (Z.to_nat (L - 4)) (length (drop 4 rest)));
    [|by auto].
  set (body := take (Z.to_nat (L - 4)) (drop 4 rest)). cbn [rd_format_version].
  assert (bytes_ok body) as Hbody by (by apply Forall_take, Forall_drop).
  assert (Z.of_nat (length body) = L - 4) as Hlen
    by (change RAW_HEADER_BODY_LEN with 43 in HL; unfold body; rewrite length_take; lia).
  destruct (decode_body v L body) as [r|e] eqn:E.
  - destruct (decode_body_inv v L body r Hbody Hlen (conj HL HU) E) as (H1 & H2 & H3 & H5).
    split_and! ; [done|done| |done]. cbn [rd_rest].
    transitivity (take 4 rest ++ body ++ drop (Z.to_nat (L - 4)) (drop 4 rest));
      [unfold body; by rewrite !take_drop|].
    rewrite app_assoc. f_equal. rewrite H3. unfold encode_frame.
    pose proof (f_equal rr_header H2) as Hh. cbn [record_of rr_header] in Hh.
    rewrite <- Hh, H5. f_equal. transitivity (to_le_bytes (length (take 4 rest)) L).
    + symmetry. apply to_from_le_bytes. by apply Forall_take.
    + f_equal. rewrite length_take. lia.
  - revert E. unfold decode_body. unfold rbind, ok_or. intros E.
    repeat (case_match; simplify_eq; auto).
Qed.

Lemma read_loop_inv fuel out rd :
  bytes_ok (rd_rest rd) -> (length (rd_rest rd) < fuel)%nat ->
  exists fs tail r,
    Forall frame_ok fs /\ rd_rest rd = concat (encode_frame <$> fs) ++ tail /\
    fst (read_loop fuel out rd) = Some r /\
    (r = Ok (out ++ (record_of <$> fs)) \/ r = Err InvalidHeader \/ r = Err CrcMismatch \/
     exists n, r = Err (RecordTooLarge n MAX_RAW_RECORD_LEN)).
Proof.
  revert out rd. induction fuel as [|fuel IH]; intros out rd Hb Hfuel; [lia|].
  cbn [read_loop]. pose proof (read_record_inv rd Hb) as Hr.
  destruct (read_record rd) as [[[r|]|e] rd'].
  - destruct Hr as (Hf & Er & Hrest & _). rewrite Hrest in Hb, Hfuel.
    apply Forall_app in Hb as [_ Hb]. rewrite length_app, length_encode_frame in Hfuel.
    destruct (IH (out ++ [r]) rd' Hb ltac:(lia)) as (fs & tail & res & Hfs & Htail & Hres & Hcase).
    exists (frame_of r :: fs), tail, res. split; [by constructor|].
    split; [by cbn; rewrite Hrest, Htail, <- app_assoc|]. split; [done|].
    destruct Hcase as [->|]; [left|by right]. cbn. by rewrite <- app_assoc, <- Er.
  - exists [], (rd_rest rd), (Ok out). split; [constructor|]. rewrite app_nil_r. auto.
  - exists [], (rd_rest rd). destruct Hr as [->|[->|[->|[n ->]]]]; cbn [fst];
      eexists; (split; [constructor|]); rewrite ?app_nil_r; split; eauto 8.
Qed.

(** Reading arbitrary bytes: [read_all] terminates on every input, and its
    outcome is either a header error, a checksum error or an oversized record, or
    the records of well-formed frames whose encodings are exactly the bytes at
    the front of the segment, so writing the records again reproduces them. *)
Theorem read_all_total rd :
  bytes_ok (rd_rest rd) ->
  exists fs tail r,
    Forall frame_ok fs /\ rd_rest rd = concat (encode_frame <$> fs) ++ tail /\
    fst (read_all rd) = Some r /\
    (r = Ok (record_of <$> fs) \/ r = Err InvalidHeader \/ r = Err CrcMismatch \/
     exists n, r = Err (RecordTooLarge n MAX_RAW_RECORD_LEN)).
Proof. intros Hb. apply (read_loop_inv _ []); [done|lia]. Qed.

(** ** Witnesses *)

Definition sample_frame (seq : Z) (payload : string) : PendingFrame :=
  mkPendingFrame 7 seq 100 200 Inbound OpText 0 (bytes_of_string payload).

Definition sample_frames : list PendingFrame :=
  [sample_frame 1 "SUB BTC-USD"; sample_frame 2 "TRADE 1 1.00"].

#[export] Instance frame_ok_dec f : Decision (frame_ok f).
Proof. unfold frame_ok, bytes_ok. apply _. Defined.

Lemma sample_frames_ok : Forall frame_ok sample_frames.
Proof. apply (bool_decide_unpack _). vm_compute. exact I. Qed.

Lemma segment_round_trip_witness :
  exists bytes rd,
    record_segment (@nil Z) 42 sample_frames = (Ok tt, bytes) /\
    from_bytes bytes = Ok rd /\ rd_start_ts_ns rd = 42 /\
    fst (read_all rd) = Some (Ok (record_of <$> sample_frames)).
Proof.
  apply (segment_round_trip 42 sample_frames); [vm_compute; split; discriminate|].
  exact sample_frames_ok.
Defined.

(** A device that fills up in the middle of the second record, after which
    two more bytes are lost. *)
Lemma crash_recovery_witness :
  exists rd k,
    from_bytes (take 98 (written (snd (record_segment (mkDisk [] 100) 42 sample_frames)))) = Ok rd /\
    fst (read_all rd) = Some (Ok (record_of <$> take k sample_frames)) /\ k = 1%nat.
Proof.
  destruct (crash_recovery Disk (mkDisk [] 100) 42 sample_frames 98) as (rd & k & H1 & H2 & H3 & H4).
  - reflexivity.
  - vm_compute; split; discriminate.
  - exact sample_frames_ok.
  - vm_compute. discriminate.
  - exists rd, k. split; [exact H1|]. split; [exact H2|].
    assert (1 <= k)%nat by (apply (H4 1%nat); vm_compute; [lia|discriminate]).
    assert (~ 2 <= k)%nat by (rewrite (H4 2%nat) by (vm_compute; lia); vm_compute; auto). lia.
Defined.

Lemma corrupted_payload_rejected_witness :
  let f := sample_frame 1 "SUB BTC-USD" in
  let bytes := take 47 (encode_frame f) ++ bytes_of_string "SUB ETH-USD" ++ [1; 2] in
  read_record (mkRawSegmentReader bytes FORMAT_VERSION 42 0)
  = (Err CrcMismatch, mkRawSegmentReader [1; 2] FORMAT_VERSION 42 0).
Proof.
  cbv zeta.
  apply (corrupted_payload_rejected (sample_frame 1 "SUB BTC-USD") (bytes_of_string "SUB ")
           (bytes_of_string "BTC") (bytes_of_string "ETH") (bytes_of_string "-USD") [1; 2]
           (mkRawSegmentReader (take 47 (encode_frame (sample_frame 1 "SUB BTC-USD")) ++
             bytes_of_string "SUB ETH-USD" ++ [1; 2]) FORMAT_VERSION 42 0)).
  - apply (bool_decide_unpack _). vm_compute. exact I.
  - reflexivity.
  - apply (bool_decide_unpack _). vm_compute. exact I.
  - reflexivity.
  - vm_compute. lia.
  - vm_compute. discriminate.
  - reflexivity.
  - reflexivity.
Defined.

Lemma read_all_total_witness :
  exists fs tail r,
    Forall frame_ok fs /\ [1; 2; 3] = concat (encode_frame <$> fs) ++ tail /\
    fst (read_all (mkRawSegmentReader [1; 2; 3] 1 0 0)) = Some r /\
    (r = Ok (record_of <$> fs) \/ r = Err InvalidHeader \/ r = Err CrcMismatch \/
     exists n, r = Err (RecordTooLarge n MAX_RAW_RECORD_LEN)).
Proof.
  apply (read_all_total (mkRawSegmentReader [1; 2; 3] 1 0 0)).
  apply (bool_decide_unpack _). vm_compute. exact I.
Defined.
