(* ===== verification/RecordingHttp.v ===== *)
(** * Recorded HTTP responses ([crates/recording/src/http.rs])

    The payload of an HTTP-response record: a bounded binary encoding that
    redacts the values of credential-bearing headers before they reach disk.
    A Rust [String] is the list of its UTF-8 bytes. *)

From stdpp Require Import base tactics numbers strings option list.
From Stdlib Require Import ZArith Lia.
From S2P Require Import Prelude Bytes Fixed Text Model Dispatch Recording.

Local Open Scope Z_scope.

(** ** Encoding *)

Record HttpResponse := mkHttpResponse {
  hr_status : Z;
  hr_headers : list (list Z * list Z);
  hr_body : list Z
}.

Definition MAX_HEADERS : Z := 1024.
Definition MAX_HEADER_FIELD_BYTES : Z := 64 * 1024.
Definition REDACTED : list Z := bytes_of_string "[REDACTED]".

Definition sensitive_names : list (list Z) :=
  bytes_of_string <$>
    ["authorization"; "proxy-authorization"; "cookie"; "set-cookie"; "x-api-key"; "x-auth-token"]%string.

Definition is_sensitive_header (name : list Z) : bool :=
  bool_decide (ascii_lower <$> trim name ∈ sensitive_names).

Definition record_too_large (payload_len : Z) : RecordingError :=
  RecordTooLarge (default (int_max U32) (to_ty U32 (4 + RAW_HEADER_BODY_LEN + payload_len)))
    MAX_RAW_RECORD_LEN.

Definition push_u32 (value : Z) : Eff (list Z) RecordingError unit :=
  let! value := elift (ok_or (to_ty U32 value) InvalidHeader) in
  emod (fun out => out ++ to_le_bytes 4 value).

Definition push_bytes (value : list Z) (maximum : Z) : Eff (list Z) RecordingError unit :=
  let len := Z.of_nat (length value) in
  if maximum <? len then ethrow InvalidHeader
  else push_u32 len !; emod (fun out => out ++ value).

Definition push_header (h : list Z * list Z) : Eff (list Z) RecordingError unit :=
  let '(name, value) := h in
  push_bytes name MAX_HEADER_FIELD_BYTES !;
  let value := if is_sensitive_header name then REDACTED else value in
  push_bytes value MAX_HEADER_FIELD_BYTES.

Definition encode_http_response (request_id : Z) (response : HttpResponse)
    : result (list Z) RecordingError :=
  let nheaders := Z.of_nat (length (hr_headers response)) in
  if MAX_HEADERS <? nheaders then Err InvalidHeader else
  let maximum_payload_len := MAX_RAW_RECORD_LEN - 4 - RAW_HEADER_BODY_LEN in
  let body_len := Z.of_nat (length (hr_body response)) in
  if maximum_payload_len <? body_len then Err (record_too_large body_len) else
  let '(r, out) :=
    (emod (fun out => out ++ to_le_bytes 8 request_id) !;
     emod (fun out => out ++ to_le_bytes 2 (hr_status response)) !;
     push_u32 nheaders !;
     efor (hr_headers response) push_header !;
     push_bytes (hr_body response) (int_max U32)) [] in
  let? _ := r in
  let out_len := Z.of_nat (length out) in
  if maximum_payload_len <? out_len then Err (record_too_large out_len) else Ok out.

(** ** Decoding *)

Record PayloadCursor := mkPayloadCursor { pc_bytes : list Z; pc_offset : Z }.

#[export] Instance eta_PayloadCursor : Eta PayloadCursor := fun c =>
  mkPayloadCursor (pc_bytes c) (pc_offset c).

Definition Cursor := Eff PayloadCursor RecordingError.

Definition cur_read_exact (length : Z) : Cursor (list Z) :=
  let! self := eget in
  let! stop := elift (ok_or (checked_add U64 (pc_offset self) length) InvalidHeader) in
  if Z.of_nat (List.length (pc_bytes self)) <? stop then ethrow Truncated else
  let value := slice (Z.to_nat (pc_offset self)) (Z.to_nat stop) (pc_bytes self) in
  emod (fun self => self ⟪ pc_offset := stop ⟫) !;
  eret value.

Definition cur_read_u16 : Cursor Z := let! b := cur_read_exact 2 in eret (from_le_bytes b).
Definition cur_read_u32 : Cursor Z := let! b := cur_read_exact 4 in eret (from_le_bytes b).
Definition cur_read_u64 : Cursor Z := let! b := cur_read_exact 8 in eret (from_le_bytes b).

Definition cur_read_bytes (maximum : Z) : Cursor (list Z) :=
  let! length := cur_read_u32 in
  if maximum <? length then ethrow InvalidHeader else cur_read_exact length.

Definition cur_read_string (maximum : Z) : Cursor (list Z) :=
  let! bytes := cur_read_bytes maximum in
  if utf8_valid bytes then eret bytes else ethrow InvalidHeader.

Definition cur_is_empty (self : PayloadCursor) : bool :=
  pc_offset self =? Z.of_nat (length (pc_bytes self)).

(** [for _ in 0..header_count]. *)
Fixpoint cur_read_headers (header_count : nat) : Cursor (list (list Z * list Z)) :=
  match header_count with
  | O => eret []
  | S n =>
      let! name := cur_read_string MAX_HEADER_FIELD_BYTES in
      let! value := cur_read_string MAX_HEADER_FIELD_BYTES in
      let! headers := cur_read_headers n in
      eret ((name, value) :: headers)
  end.

Definition decode_http_response (payload : list Z) : result (Z * HttpResponse) RecordingError :=
  fst ((let! request_id := cur_read_u64 in
        let! status := cur_read_u16 in
        let! header_count := cur_read_u32 in
        if MAX_HEADERS <? header_count then ethrow InvalidHeader else
        let! headers := cur_read_headers (Z.to_nat header_count) in
        let! body := cur_read_bytes (int_max U32) in
        let! self := eget in
        if negb (cur_is_empty self) then ethrow InvalidHeader
        else eret (request_id, mkHttpResponse status headers body))
       (mkPayloadCursor payload 0)).

Definition sample_response : HttpResponse :=
  mkHttpResponse 200
    [(bytes_of_string " Set-Cookie ", bytes_of_string "session=secret");
     (bytes_of_string "X-Request-Id", bytes_of_string "public-id")] (bytes_of_string "body").

Example http_ex :
  (let? p := encode_http_response 42 sample_response in decode_http_response p)
  = Ok (42, mkHttpResponse 200
              [(bytes_of_string " Set-Cookie ", REDACTED);
               (bytes_of_string "X-Request-Id", bytes_of_string "public-id")]
              (bytes_of_string "body")).
Proof. vm_compute. reflexivity. Qed.

Example http_truncated :
  (let? p := encode_http_response 1 sample_response in
   decode_http_response (take (length p - 1) p)) = Err Truncated /\
  (let? p := encode_http_response 1 sample_response in decode_http_response (p ++ [0]))
  = Err InvalidHeader.
Proof. split; vm_compute; reflexivity. Qed.

(** ** The encoding, in closed form *)

Definition redact_header (h : list Z * list Z) : list Z * list Z :=
  (h.1, if is_sensitive_header h.1 then REDACTED else h.2).

Definition redact (r : HttpResponse) : HttpResponse :=
  mkHttpResponse (hr_status r) (redact_header <$> hr_headers r) (hr_body r).

Definition field (v : list Z) : list Z := to_le_bytes 4 (Z.of_nat (length v)) ++ v.
Definition header_bytes (h : list Z * list Z) : list Z := field h.1 ++ field h.2.

Definition field_ok (v : list Z) : Prop := Z.of_nat (length v) <= MAX_HEADER_FIELD_BYTES.
Definition header_fits (h : list Z * list Z) : Prop := field_ok h.1 /\ field_ok h.2.

Definition http_bytes (request_id : Z) (r : HttpResponse) : list Z :=
  to_le_bytes 8 request_id ++ to_le_bytes 2 (hr_status r) ++
  to_le_bytes 4 (Z.of_nat (length (hr_headers r))) ++
  concat (header_bytes <$> hr_headers r) ++ field (hr_body r).

Lemma push_u32_eq v out :
  fits U32 v -> push_u32 v out = (Ok tt, out ++ to_le_bytes 4 v).
Proof. intros Hv. unfold push_u32. rewrite (to_ty_fits _ _ Hv). done. Qed.

Lemma push_bytes_eq v m out :
  m <= int_max U32 ->
  push_bytes v m out =
  if m <? Z.of_nat (length v) then (Err InvalidHeader, out) else (Ok tt, out ++ field v).
Proof.
  intros Hm. unfold push_bytes. destruct (Z.ltb_spec m (Z.of_nat (length v))); [done|].
  unfold ebind. rewrite push_u32_eq by (unfold fits; cbn [int_min]; lia).
  unfold emod, field. by rewrite app_assoc.
Qed.

Lemma max_field_u32 : MAX_HEADER_FIELD_BYTES <= int_max U32.
Proof. vm_compute. discriminate. Qed.

Lemma push_header_ok h out :
  header_fits (redact_header h) ->
  push_header h out = (Ok tt, out ++ header_bytes (redact_header h)).
Proof.
  destruct h as [n v]. intros [Hn Hv]. unfold field_ok, redact_header in *. cbn [fst snd] in *.
  unfold push_header, ebind. rewrite !push_bytes_eq by apply max_field_u32.
  rewrite (proj2 (Z.ltb_ge _ _)) by done. cbv iota. rewrite push_bytes_eq by apply max_field_u32.
  rewrite (proj2 (Z.ltb_ge _ _)) by done. unfold header_bytes. by rewrite app_assoc.
Qed.

Lemma push_header_err h out :
  ~ header_fits (redact_header h) -> fst (push_header h out) = Err InvalidHeader.
Proof.
  destruct h as [n v]. unfold header_fits, field_ok, redact_header. cbn [fst snd]. intros Hno.
  unfold push_header, ebind. rewrite push_bytes_eq by apply max_field_u32.
  destruct (Z.ltb_spec MAX_HEADER_FIELD_BYTES (Z.of_nat (length n))); [done|].
  rewrite push_bytes_eq by apply max_field_u32.
  destruct (Z.ltb_spec MAX_HEADER_FIELD_BYTES
    (Z.of_nat (length (if is_sensitive_header n then REDACTED else v)))); [done|]. tauto.
Qed.

#[export] Instance header_fits_dec h : Decision (header_fits h).
Proof. unfold header_fits, field_ok. apply _. Defined.

Lemma push_headers_eq hs out :
  efor hs push_header out =
  (if decide (Forall header_fits (redact_header <$> hs))
   then (Ok tt, out ++ concat (header_bytes <$> (redact_header <$> hs)))
   else (Err InvalidHeader, snd (efor hs push_header out))).
Proof.
  revert out. induction hs as [|h hs IH]; intros out.
  { rewrite decide_True by constructor. by rewrite app_nil_r. }
  cbn [efor fmap list_fmap]. unfold ebind at 1 2.
  destruct (decide (header_fits (redact_header h))) as [Hh|Hh].
  - rewrite (push_header_ok h out Hh). rewrite IH at 1.
    destruct (decide (Forall header_fits (redact_header <$> hs))) as [Hf|Hf].
    + rewrite decide_True by (by constructor). cbn [concat]. by rewrite app_assoc.
    + rewrite decide_False by (by intros [_ ?]%Forall_cons). done.
  - pose proof (push_header_err h out Hh) as He. rewrite decide_False by (by intros [? _]%Forall_cons).
    destruct (push_header h out) as [[[]|e] out']; [done|]. cbn [fst snd] in *. congruence.
Qed.

(** What [encode_http_response] returns on every input. *)
Lemma encode_http_eq id r :
  encode_http_response id r =
  if MAX_HEADERS <? Z.of_nat (length (hr_headers r)) then Err InvalidHeader
  else if MAX_RAW_RECORD_LEN - 4 - RAW_HEADER_BODY_LEN <? Z.of_nat (length (hr_body r))
  then Err (record_too_large (Z.of_nat (length (hr_body r))))
  else if decide (Forall header_fits (hr_headers (redact r))) then
    let p := http_bytes id (redact r) in
    if MAX_RAW_RECORD_LEN - 4 - RAW_HEADER_BODY_LEN <? Z.of_nat (length p)
    then Err (record_too_large (Z.of_nat (length p))) else Ok p
  else Err InvalidHeader.
Proof.
  unfold encode_http_response.
  destruct (Z.ltb_spec MAX_HEADERS (Z.of_nat (length (hr_headers r)))) as [|Hh]; [done|].
  destruct (Z.ltb_spec (MAX_RAW_RECORD_LEN - 4 - RAW_HEADER_BODY_LEN)
              (Z.of_nat (length (hr_body r)))) as [|Hb]; [done|].
  assert (fits U32 (Z.of_nat (length (hr_headers r)))) as Hn
    by (unfold fits, MAX_HEADERS in *; cbn [int_min int_max]; lia).
  unfold ebind, emod. rewrite push_u32_eq by done. rewrite push_headers_eq.
  cbn [redact hr_headers]. destruct (decide _) as [Hf|Hf]; [|done].
  rewrite push_bytes_eq by lia. rewrite (proj2 (Z.ltb_ge (int_max U32) _)).
  - cbn [rbind]. unfold http_bytes. cbn [redact hr_headers hr_status hr_body].
    rewrite length_fmap. by rewrite !app_nil_l, <- !app_assoc.
  - unfold MAX_RAW_RECORD_LEN, RAW_HEADER_BODY_LEN in *. cbn [int_max]. lia.
Qed.

(** ** Decoding what was encoded *)

(** A cursor that has consumed [pre] and has [post] ahead. *)
Definition cur_at (pre post : list Z) : PayloadCursor :=
  mkPayloadCursor (pre ++ post) (Z.of_nat (length pre)).

Lemma cur_read_exact_at pre x post :
  fits U64 (Z.of_nat (length (pre ++ x ++ post))) ->
  cur_read_exact (Z.of_nat (length x)) (cur_at pre (x ++ post)) = (Ok x, cur_at (pre ++ x) post).
Proof.
  intros Hfit. unfold cur_read_exact, cur_at. eff_unfold. cbn [pc_offset pc_bytes].
  rewrite !length_app in *. unfold checked_add.
  rewrite to_ty_fits by (unfold fits in *; cbn [int_min int_max] in *; lia). cbn [ok_or].
  rewrite (proj2 (Z.ltb_ge _ _)) by lia. unfold slice. rewrite !Nat2Z.id.
  replace (Z.to_nat (Z.of_nat (length pre) + Z.of_nat (length x)) - length pre)%nat
    with (length x) by lia.
  rewrite drop_app_length, take_app_length.
  cbn [set_field]. f_equal. unfold set_field, cur_at. cbn. rewrite <- app_assoc. f_equal. lia.
Qed.

(** The reads, each over bytes that start with the encoding it expects. *)
Section ReadBack.
Variables (pre post : list Z).

Lemma cur_read_u16_at v :
  fits U16 v -> fits U64 (Z.of_nat (length (pre ++ to_le_bytes 2 v ++ post))) ->
  cur_read_u16 (cur_at pre (to_le_bytes 2 v ++ post)) = (Ok v, cur_at (pre ++ to_le_bytes 2 v) post).
Proof.
  intros Hv Hf. unfold cur_read_u16, ebind. change 2 with (Z.of_nat (length (to_le_bytes 2 v))) at 1.
  rewrite cur_read_exact_at by done. unfold eret. by rewrite le_u16.
Qed.

Lemma cur_read_u32_at v :
  fits U32 v -> fits U64 (Z.of_nat (length (pre ++ to_le_bytes 4 v ++ post))) ->
  cur_read_u32 (cur_at pre (to_le_bytes 4 v ++ post)) = (Ok v, cur_at (pre ++ to_le_bytes 4 v) post).
Proof.
  intros Hv Hf. unfold cur_read_u32, ebind. change 4 with (Z.of_nat (length (to_le_bytes 4 v))) at 1.
  rewrite cur_read_exact_at by done. unfold eret. by rewrite le_u32.
Qed.

Lemma cur_read_u64_at v :
  fits U64 v -> fits U64 (Z.of_nat (length (pre ++ to_le_bytes 8 v ++ post))) ->
  cur_read_u64 (cur_at pre (to_le_bytes 8 v ++ post)) = (Ok v, cur_at (pre ++ to_le_bytes 8 v) post).
Proof.
  intros Hv Hf. unfold cur_read_u64, ebind. change 8 with (Z.of_nat (length (to_le_bytes 8 v))) at 1.
  rewrite cur_read_exact_at by done. unfold eret. by rewrite le_u64.
Qed.
End ReadBack.

Lemma cur_read_bytes_at pre v post m :
  Z.of_nat (length v) <= m <= int_max U32 -> fits U64 (Z.of_nat (length (pre ++ field v ++ post))) ->
  cur_read_bytes m (cur_at pre (field v ++ post)) = (Ok v, cur_at (pre ++ field v) post).
Proof.
  intros Hm Hf. unfold cur_read_bytes, field in *. unfold ebind. rewrite <- app_assoc in *.
  rewrite cur_read_u32_at; [|unfold fits; cbn [int_min]; lia|done].
  rewrite (proj2 (Z.ltb_ge _ _)) by lia. rewrite cur_read_exact_at.
  - by rewrite <- app_assoc.
  - by rewrite <- app_assoc.
Qed.

Lemma cur_read_string_at pre v post :
  field_ok v -> utf8_valid v = true -> fits U64 (Z.of_nat (length (pre ++ field v ++ post))) ->
  cur_read_string MAX_HEADER_FIELD_BYTES (cur_at pre (field v ++ post))
  = (Ok v, cur_at (pre ++ field v) post).
Proof.
  intros Hv Hu Hf. unfold cur_read_string, ebind.
  rewrite cur_read_bytes_at by (first [done|split; [exact Hv|apply max_field_u32]]). by rewrite Hu.
Qed.

Definition header_utf8 (h : list Z * list Z) : Prop :=
  utf8_valid h.1 = true /\ utf8_valid h.2 = true.

Lemma cur_read_headers_at pre hs post :
  Forall header_fits hs -> Forall header_utf8 hs ->
  fits U64 (Z.of_nat (length (pre ++ concat (header_bytes <$> hs) ++ post))) ->
  cur_read_headers (length hs) (cur_at pre (concat (header_bytes <$> hs) ++ post))
  = (Ok hs, cur_at (pre ++ concat (header_bytes <$> hs)) post).
Proof.
  intros Hfit. revert pre. induction Hfit as [|[n v] hs [Hn Hv] Hfs IH]; intros pre Hutf Hlen.
  { by rewrite app_nil_r. }
  apply Forall_cons in Hutf as [[Un Uv] Hutf]. cbn [fst snd] in *.
  change (concat (header_bytes <$> (n, v) :: hs))
    with ((field n ++ field v) ++ concat (header_bytes <$> hs)) in *.
  rewrite <- !app_assoc in *. cbn [cur_read_headers length]. unfold ebind.
  rewrite cur_read_string_at by done. rewrite cur_read_string_at by (by rewrite <- ?app_assoc).
  rewrite IH by (by rewrite <- ?app_assoc). unfold eret. by rewrite <- !app_assoc.
Qed.

Lemma decode_http_bytes id r :
  fits U64 id -> fits U16 (hr_status r) -> Z.of_nat (length (hr_headers r)) <= MAX_HEADERS ->
  Forall header_fits (hr_headers r) -> Forall header_utf8 (hr_headers r) ->
  fits U32 (Z.of_nat (length (http_bytes id r))) ->
  decode_http_response (http_bytes id r) = Ok (id, r).
Proof.
  destruct r as [status hs body]. cbn [hr_status hr_headers]. intros Hid Hst Hh Hfit Hutf Hlen.
  assert (fits U64 (Z.of_nat (length (http_bytes id (mkHttpResponse status hs body))))) as Hl64
    by (unfold fits in *; cbn [int_min int_max] in *; lia).
  assert (Z.of_nat (length body) <= int_max U32) as Hbody.
  { unfold http_bytes, field in Hlen. rewrite !length_app in Hlen. unfold fits in Hlen.
    cbn [hr_body] in Hlen. lia. }
  unfold decode_http_response, http_bytes in *. cbn [hr_status hr_headers hr_body] in *.
  change (mkPayloadCursor ?p 0) with (cur_at [] p). unfold ebind.
  rewrite cur_read_u64_at by done. cbn [app].
  rewrite cur_read_u16_at by (first [done|by rewrite ?app_assoc in *]).
  rewrite cur_read_u32_at by
    (first [unfold fits, MAX_HEADERS in *; cbn [int_min int_max]; lia|by rewrite ?app_assoc in *]).
  rewrite (proj2 (Z.ltb_ge _ _)) by done. rewrite Nat2Z.id.
  rewrite cur_read_headers_at by (first [done|by rewrite ?app_assoc in *]).
  rewrite <- (app_nil_r (field body)).
  rewrite cur_read_bytes_at by (first [lia|by rewrite ?app_nil_r, ?app_assoc in *]).
  unfold eget, cur_is_empty. cbn [cur_at pc_offset pc_bytes]. rewrite app_nil_r, Z.eqb_refl. done.
Qed.

Lemma redact_idemp h : redact_header (redact_header h) = redact_header h.
Proof. destruct h as [n v]. unfold redact_header. cbn. by destruct (is_sensitive_header n). Qed.

Lemma redact_utf8 h : header_utf8 h -> header_utf8 (redact_header h).
Proof.
  destruct h as [n v]. intros [Hn Hv]. split; [done|]. cbn in *.
  destruct (is_sensitive_header n); [vm_compute; reflexivity|done].
Qed.

(** An encoded response is within every bound. *)
Lemma encode_http_Ok id r p :
  encode_http_response id r = Ok p ->
  p = http_bytes id (redact r) /\ Z.of_nat (length (hr_headers r)) <= MAX_HEADERS /\
  Z.of_nat (length (hr_body r)) <= MAX_RAW_RECORD_LEN - 4 - RAW_HEADER_BODY_LEN /\
  Forall header_fits (hr_headers (redact r)) /\
  Z.of_nat (length p) <= MAX_RAW_RECORD_LEN - 4 - RAW_HEADER_BODY_LEN.
Proof.
  intros H. rewrite encode_http_eq in H. cbv zeta in H.
  destruct (Z.ltb_spec MAX_HEADERS (Z.of_nat (length (hr_headers r)))); try done.
  destruct (Z.ltb_spec (MAX_RAW_RECORD_LEN - 4 - RAW_HEADER_BODY_LEN) (Z.of_nat (length (hr_body r)))); try done.
  destruct (decide (Forall header_fits (hr_headers (redact r)))) as [Hf|]; try done.
  destruct (Z.ltb_spec (MAX_RAW_RECORD_LEN - 4 - RAW_HEADER_BODY_LEN)
    (Z.of_nat (length (http_bytes id (redact r))))); try done. by injection H as <-.
Qed.

Lemma encode_decode_http id r p :
  fits U64 id -> fits U16 (hr_status r) -> Forall header_utf8 (hr_headers r) ->
  encode_http_response id r = Ok p -> decode_http_response p = Ok (id, redact r).
Proof.
  intros Hid Hst Hutf (-> & Hh & Hb & Hf & Hl)%encode_http_Ok. apply decode_http_bytes; try done.
  - cbn. by rewrite length_fmap.
  - cbn. apply Forall_fmap. eapply Forall_impl; [exact Hutf|]. intros h. apply redact_utf8.
  - unfold fits, MAX_RAW_RECORD_LEN, RAW_HEADER_BODY_LEN in *. cbn [int_min int_max]. lia.
Qed.

(** C32. Recorded HTTP responses: when a response is encoded, the payload fits a raw
    record and decodes to the same request id, status, header names and body, with
    the values of credential headers replaced by the redaction marker and all other
    values kept; and the payload is the same for every response that differs
    from this one in credential values only, so none of them reach the disk. *)
Theorem http_round_trip id r p :
  fits U64 id -> fits U16 (hr_status r) -> Forall header_utf8 (hr_headers r) ->
  encode_http_response id r = Ok p ->
  decode_http_response p = Ok (id, redact r) /\
  4 + RAW_HEADER_BODY_LEN + Z.of_nat (length p) <= MAX_RAW_RECORD_LEN /\
  forall r', redact r' = redact r -> encode_http_response id r' = Ok p.
Proof.
  intros Hid Hst Hutf H. split; [by apply encode_decode_http|].
  split; [apply encode_http_Ok in H as (_ & _ & _ & _ & H); lia|].
  intros r' Er. rewrite <- H, !encode_http_eq, Er.
  assert (hr_body r' = hr_body r) as -> by (exact (f_equal hr_body Er)).
  assert (length (hr_headers r') = length (hr_headers r)) as ->; [|done].
  pose proof (f_equal (fun x => length (hr_headers x)) Er) as El. cbn in El.
  by rewrite !length_fmap in El.
Qed.

Lemma http_round_trip_witness :
  let p := http_bytes 42 (redact sample_response) in
  decode_http_response p = Ok (42, redact sample_response) /\
  4 + RAW_HEADER_BODY_LEN + Z.of_nat (length p) <= MAX_RAW_RECORD_LEN /\
  encode_http_response 42 (mkHttpResponse 200
    [(bytes_of_string " Set-Cookie ", bytes_of_string "another secret");
     (bytes_of_string "X-Request-Id", bytes_of_string "public-id")] (bytes_of_string "body")) = Ok p.
Proof.
  cbv zeta. destruct (http_round_trip 42 sample_response (http_bytes 42 (redact sample_response)))
    as (H1 & H2 & H3).
  - vm_compute; split; discriminate.
  - vm_compute; split; discriminate.
  - repeat constructor.
  - vm_compute; reflexivity.
  - split; [exact H1|]. split; [exact H2|]. apply H3. vm_compute; reflexivity.
Defined.
