(* ===== verification/RecordingPipeline.v ===== *)
(** * The recording pipeline ([crates/recording/src/pipeline.rs], with the
    metadata records of [metadata.rs])

    The rotating recorder: a bounded queue in front of one open segment file
    at a time, rotation by size and age, the disk-pressure gate, metadata at
    the head of every segment, and the drain at shutdown.  The file system,
    the clock, the free-space probe and the JSON encoder are parameters. *)

From stdpp Require Import base tactics numbers strings option list pretty.
From Stdlib Require Import ZArith Lia.
From S2P Require Import Prelude Bytes Fixed Text Model Dispatch Recording.

Local Open Scope Z_scope.

(** ** The file system

    A path is the list of its bytes.  A file is created empty, or truncated,
    and grows at its end; a failed write may have taken a prefix. *)

Class FileSystem (FS : Type) := {
  fs_mkdir : list Z -> Eff FS string unit;
  fs_create : list Z -> Eff FS string unit;
  fs_write : list Z -> list Z -> Eff FS string unit;
  fs_remove : list Z -> Eff FS string unit;
  fs_read : FS -> list Z -> list Z;
  fs_mkdir_keeps : forall d fs p, fs_read (snd (fs_mkdir d fs)) p = fs_read fs p;
  fs_create_empty : forall p fs, fst (fs_create p fs) = Ok tt -> fs_read (snd (fs_create p fs)) p = [];
  fs_create_keeps : forall p p' fs, p' <> p -> fs_read (snd (fs_create p fs)) p' = fs_read fs p';
  fs_write_prefix : forall p l fs,
    exists a b, l = a ++ b /\ fs_read (snd (fs_write p l fs)) p = fs_read fs p ++ a /\
                (fst (fs_write p l fs) = Ok tt -> b = []);
  fs_write_keeps : forall p p' l fs, p' <> p -> fs_read (snd (fs_write p l fs)) p' = fs_read fs p';
  fs_remove_keeps : forall p p' fs, p' <> p -> fs_read (snd (fs_remove p fs)) p' = fs_read fs p'
}.

(** An open [File]. *)
Record File (FS : Type) := mkFile { file_fs : FS; file_path : list Z }.
Arguments mkFile {FS}.
Arguments file_fs {FS}.
Arguments file_path {FS}.

Definition file_written {FS} `{FileSystem FS} (f : File FS) : list Z := fs_read (file_fs f) (file_path f).

Definition file_write_all {FS} `{FileSystem FS} (l : list Z) : Eff (File FS) string unit := fun f =>
  let '(r, fs) := fs_write (file_path f) l (file_fs f) in (r, mkFile fs (file_path f)).

#[export] Program Instance file_write {FS} `{FileSystem FS} : Write (File FS) := {|
  write_all := file_write_all;
  flush := eret tt;
  written := file_written
|}.
Next Obligation.
  intros FS HF l f. destruct (fs_write_prefix (file_path f) l (file_fs f)) as (a & b & E & Hw & Hok).
  exists a, b. unfold file_write_all, file_written.
  destruct (fs_write (file_path f) l (file_fs f)) as [r fs]. done.
Qed.
Next Obligation. done. Qed.

(** ** Metadata records ([metadata.rs]) *)

Record BuildMetadata := mkBuildMetadata {
  bm_schema_version : Z;
  bm_package_name : string;
  bm_package_version : string;
  bm_build_sha : option string;
  bm_target_os : string;
  bm_target_arch : string
}.

Record FixedMetadata := mkFixedMetadata { fm_coefficient : string; fm_scale : Z }.

Record CatalogInstrumentMetadata := mkCatalogInstrumentMetadata {
  cim_instrument_id : Z;
  cim_native_symbol : string;
  cim_kind : string;
  cim_base : string;
  cim_quote : string;
  cim_settlement : option string;
  cim_price_scale : Z;
  cim_quantity_scale : Z;
  cim_price_increment : FixedMetadata;
  cim_quantity_increment : FixedMetadata;
  cim_min_quantity : option FixedMetadata;
  cim_max_quantity : option FixedMetadata;
  cim_min_notional : option FixedMetadata;
  cim_contract_size : option FixedMetadata;
  cim_expiry_ns : option Z;
  cim_status : string;
  cim_inverse : bool
}.

Record SubscriptionMetadata := mkSubscriptionMetadata {
  sm_instrument_id : Z;
  sm_channel : string;
  sm_emit_book_snapshots : bool;
  sm_emit_book_deltas : bool;
  sm_emit_bbo : bool
}.

Record SessionRecordingMetadata := mkSessionRecordingMetadata {
  srm_schema_version : Z;
  srm_session_id : Z;
  srm_venue_id : Z;
  srm_adapter : string;
  srm_environment : string;
  srm_endpoint : string;
  srm_catalog_version : Z;
  srm_catalog : list CatalogInstrumentMetadata;
  srm_initial_subscriptions : list SubscriptionMetadata
}.

Inductive MetadataRecord := Build (b : BuildMetadata) | Session (s : SessionRecordingMetadata).

#[export] Instance FixedMetadata_eq_dec : EqDecision FixedMetadata.
Proof. solve_decision. Defined.
#[export] Instance CatalogInstrumentMetadata_eq_dec : EqDecision CatalogInstrumentMetadata.
Proof. solve_decision. Defined.
#[export] Instance SubscriptionMetadata_eq_dec : EqDecision SubscriptionMetadata.
Proof. solve_decision. Defined.
#[export] Instance BuildMetadata_eq_dec : EqDecision BuildMetadata.
Proof. solve_decision. Defined.
#[export] Instance SessionRecordingMetadata_eq_dec : EqDecision SessionRecordingMetadata.
Proof. solve_decision. Defined.
#[export] Instance MetadataRecord_eq_dec : EqDecision MetadataRecord.
Proof. solve_decision. Defined.

Definition metadata_session_id (m : MetadataRecord) : SessionId :=
  match m with Build _ => 0 | Session s => srm_session_id s end.

Definition stable_key (m : MetadataRecord) : string :=
  match m with Build _ => "build" | Session s => "session:" +:+ pretty (srm_session_id s) end.

Definition MAX_METADATA_BYTES : Z := 4 * 1024 * 1024.

(** ** Configuration and state *)

Record RotationConfig := mkRotationConfig { max_bytes : Z; max_duration : Z }.

Record PipelineConfig := mkPipelineConfig {
  directory : list Z;
  queue_capacity : Z;
  overflow : OverflowPolicy;
  rotation : RotationConfig;
  min_free_bytes : Z
}.

(** The open segment, without the file system its file lives in. *)
Abbreviation OpenSegment := (RawSegmentWriter (BufWriter (list Z))).

Record RecordingPipeline := mkRecordingPipeline {
  rp_cfg : PipelineConfig;
  rp_queue : RecordingQueue;
  rp_writer : option OpenSegment;
  rp_current_path : option (list Z);
  rp_current_start_ts_ns : option Z;
  rp_segment_bytes : Z;
  rp_segment_started : Z;
  rp_segment_seq : Z;
  rp_free_space : option (nat -> option Z);
  rp_free_space_check_interval : Z;
  rp_last_free_space_check : option Z;
  rp_disk_pressure_active : bool;
  rp_system_events : list SystemEvent;
  rp_records_written : Z;
  rp_segments_opened : Z;
  rp_rotations : Z;
  rp_metadata : list MetadataRecord
}.

#[export] Instance eta_RecordingPipeline : Eta RecordingPipeline := fun p =>
  mkRecordingPipeline (rp_cfg p) (rp_queue p) (rp_writer p) (rp_current_path p)
    (rp_current_start_ts_ns p) (rp_segment_bytes p) (rp_segment_started p) (rp_segment_seq p)
    (rp_free_space p) (rp_free_space_check_interval p) (rp_last_free_space_check p)
    (rp_disk_pressure_active p) (rp_system_events p) (rp_records_written p) (rp_segments_opened p)
    (rp_rotations p) (rp_metadata p).

(** The pipeline with the world it acts on: the files, and how many times the
    clock and the free-space probe have been read. *)
Record Sys (FS : Type) := mkSys { sys_fs : FS; sys_ticks : nat; sys_probes : nat; sys_rp : RecordingPipeline }.
Arguments mkSys {FS}.
Arguments sys_fs {FS}.
Arguments sys_ticks {FS}.
Arguments sys_probes {FS}.
Arguments sys_rp {FS}.

#[export] Instance eta_Sys FS : Eta (Sys FS) := fun s =>
  mkSys (sys_fs s) (sys_ticks s) (sys_probes s) (sys_rp s).

(** [{:06}] of an unsigned integer, in bytes; a [u64] has at most 20 digits. *)
Definition pad6 (n : Z) : list Z :=
  let d := dec_digits 20 n in replicate (6 - length d) 48 ++ d.

(** [{}] of an [i64]. *)
Definition dec_i64 (n : Z) : list Z := if n <? 0 then 45 :: dec_digits 20 (- n) else dec_digits 20 n.

(** [format!("seg-{}-{:06}.mfr1", start_ts_ns, segment_seq)]. *)
Definition segment_name (start_ts_ns segment_seq : Z) : list Z :=
  bytes_of_string "seg-" ++ dec_i64 start_ts_ns ++ [45] ++ pad6 segment_seq ++ bytes_of_string ".mfr1".

(** [directory.join(name)] of a relative name. *)
Definition path_join (dir name : list Z) : list Z :=
  match last dir with
  | None => name
  | Some c => if c =? 47 then dir ++ name else dir ++ [47] ++ name
  end.

Section Pipeline.
Context {FS : Type} `{FileSystem FS}.

(** The reading [Instant::now()] gives the [n]-th time, and the bytes
    [serde_json::to_vec] makes of a metadata record. *)
Context (clock : nat -> Z) (to_json : MetadataRecord -> option (list Z)).

Abbreviation Pipe := (Eff (Sys FS) RecordingError).

Definition encode_metadata (m : MetadataRecord) : result (list Z) RecordingError :=
  let? bytes := ok_or (to_json m) InvalidHeader in
  let len := Z.of_nat (length bytes) in
  if MAX_METADATA_BYTES <? len then
    Err (RecordTooLarge (default (int_max U32) (to_ty U32 len)) MAX_METADATA_BYTES)
  else Ok bytes.

(** [writer.write_metadata(metadata, start_ts_ns)]. *)
Definition write_metadata {W} `{Write W} (m : MetadataRecord) (start_ts_ns : Z)
    : Eff (RawSegmentWriter W) RecordingError unit :=
  let! payload := elift (encode_metadata m) in
  write_record (metadata_session_id m) 0 start_ts_ns 0 Inbound OpMetadata 0 payload.

Definition rp : Pipe RecordingPipeline := fun s => (Ok (sys_rp s), s).
Definition upd (f : RecordingPipeline -> RecordingPipeline) : Pipe unit :=
  emod (fun s => s ⟪ sys_rp := f (sys_rp s) ⟫).

Definition now : Pipe Z := fun s => (Ok (clock (sys_ticks s)), s ⟪ sys_ticks := S (sys_ticks s) ⟫).

(** [start.elapsed()]. *)
Definition elapsed (start : Z) : Pipe Z := let! t := now in eret (Z.max 0 (t - start)).

Definition io (m : Eff FS string unit) : Pipe unit := fun s =>
  let '(r, fs) := m (sys_fs s) in (map_err Io r, s ⟪ sys_fs := fs ⟫).

(** The open segment over the current files, and back. *)
Definition attach (fs : FS) (w : OpenSegment) : RawSegmentWriter (BufWriter (File FS)) :=
  mkRawSegmentWriter (mkBufWriter (mkFile fs (bw_inner (rw_writer w))) (bw_buf (rw_writer w)))
    (rw_records_written w) (rw_started w).
Definition detach (w : RawSegmentWriter (BufWriter (File FS))) : OpenSegment :=
  mkRawSegmentWriter (mkBufWriter (file_path (bw_inner (rw_writer w))) (bw_buf (rw_writer w)))
    (rw_records_written w) (rw_started w).
Definition seg_fs (w : RawSegmentWriter (BufWriter (File FS))) : FS := file_fs (bw_inner (rw_writer w)).

(** A method of [self.writer], which is left with what the method made of it,
    also on failure. *)
Definition on_writer {A} (w : OpenSegment)
    (m : Eff (RawSegmentWriter (BufWriter (File FS))) RecordingError A) : Pipe A := fun s =>
  let '(r, w') := m (attach (sys_fs s) w) in
  (r, s ⟪ sys_fs := seg_fs w' ⟫ ⟪ sys_rp := (sys_rp s) ⟪ rp_writer := Some (detach w') ⟫ ⟫).

(** A [BufWriter] that goes out of scope tries to write out its buffer. *)
Definition drop_segment (w : RawSegmentWriter (BufWriter (File FS))) : FS :=
  file_fs (bw_inner (snd (flush_buf (rw_writer w)))).

(** A method of a segment that the caller drops when it fails. *)
Definition or_drop {A} (m : Eff (RawSegmentWriter (BufWriter (File FS))) RecordingError A)
    (w : OpenSegment) : Pipe (A * OpenSegment) := fun s =>
  match m (attach (sys_fs s) w) with
  | (Ok a, w') => (Ok (a, detach w'), s ⟪ sys_fs := seg_fs w' ⟫)
  | (Err e, w') => (Err e, s ⟪ sys_fs := drop_segment w' ⟫)
  end.

(** ** Opening *)

Fixpoint validate_metadata_registry (keys : list string) (l : list MetadataRecord)
    : result unit RecordingError :=
  match l with
  | [] => Ok tt
  | m :: l =>
      let? _ := encode_metadata m in
      if bool_decide (stable_key m ∈ keys) then Err InvalidHeader
      else validate_metadata_registry (stable_key m :: keys) l
  end.

(** [create_new] and [sync_all] of the probe file are a creation and nothing;
    its name is given by the process and a counter. *)
Definition probe_directory_writable (path : list Z) : Eff FS string unit := fun fs =>
  match fs_create path fs with
  | (Err e, fs) => (Err e, fs)
  | (Ok _, fs) =>
      let '(write_result, fs) := fs_write path (bytes_of_string "marketfeed recording probe") fs in
      let '(remove_result, fs) := fs_remove path fs in
      (match write_result with Err e => Err e | Ok _ => remove_result end, fs)
  end.

Definition open_with_metadata (probe_path : list Z) (cfg : PipelineConfig) (metadata : list MetadataRecord)
    (fs : FS) (ticks : nat) : result (Sys FS) RecordingError * FS :=
  if queue_capacity cfg =? 0 then (Err (Io "queue_capacity must be > 0"), fs) else
  match validate_metadata_registry [] metadata with
  | Err e => (Err e, fs)
  | Ok _ =>
      match fs_mkdir (directory cfg) fs with
      | (Err e, fs) => (Err (Io e), fs)
      | (Ok _, fs) =>
          match probe_directory_writable probe_path fs with
          | (Err e, fs) => (Err (Io e), fs)
          | (Ok _, fs) =>
              let rp := {|
                rp_cfg := cfg;
                rp_queue := mkRecordingQueue (queue_capacity cfg) (overflow cfg) [] 0;
                rp_writer := None;
                rp_current_path := None;
                rp_current_start_ts_ns := None;
                rp_segment_bytes := 0;
                rp_segment_started := clock ticks;
                rp_segment_seq := 0;
                rp_free_space := None;
                rp_free_space_check_interval := 1000000000;
                rp_last_free_space_check := None;
                rp_disk_pressure_active := false;
                rp_system_events := [];
                rp_records_written := 0;
                rp_segments_opened := 0;
                rp_rotations := 0;
                rp_metadata := metadata |} in
              (Ok (mkSys fs (S ticks) 0 rp), fs)
          end
      end
  end.

(** ** Segments *)

(** The loop over the registered metadata; the segment is dropped when a
    record fails. *)
Fixpoint write_all_metadata (l : list MetadataRecord) (start_ts_ns : Z) (segment_bytes : Z)
    (w : OpenSegment) : Pipe (Z * OpenSegment) :=
  match l with
  | [] => eret (segment_bytes, w)
  | m :: l =>
      let! r := or_drop (let! encoded := elift (encode_metadata m) in
                         write_metadata m start_ts_ns !;
                         eret (Z.of_nat (length encoded))) w in
      write_all_metadata l start_ts_ns
        (saturating_add U64 segment_bytes (4 + RAW_HEADER_BODY_LEN + r.1)) r.2
  end.

Definition pl_open_segment (start_ts_ns : Z) : Pipe unit :=
  let! self := rp in
  io (fs_mkdir (directory (rp_cfg self))) !;
  let path := path_join (directory (rp_cfg self)) (segment_name start_ts_ns (rp_segment_seq self)) in
  io (fs_create path) !;
  let! w := (fun s : Sys FS =>
    match create (mkBufWriter (mkFile (sys_fs s) path) []) start_ts_ns with
    | (Ok w, _) => (Ok (detach w), s ⟪ sys_fs := seg_fs w ⟫)
    | (Err e, b) => (Err e, s ⟪ sys_fs := file_fs (bw_inner (snd (flush_buf b))) ⟫)
    end) in
  let! r := write_all_metadata (rp_metadata self) start_ts_ns HEADER_SIZE w in
  upd (fun p => p ⟪ rp_writer := Some r.2 ⟫) !;
  upd (fun p => p ⟪ rp_current_path := Some path ⟫) !;
  upd (fun p => p ⟪ rp_current_start_ts_ns := Some start_ts_ns ⟫) !;
  upd (fun p => p ⟪ rp_segment_bytes := r.1 ⟫) !;
  let! t := now in
  upd (fun p => p ⟪ rp_segment_started := t ⟫) !;
  upd (fun p => p ⟪ rp_segment_seq := wrap U64 (rp_segment_seq p + 1) ⟫) !;
  upd (fun p => p ⟪ rp_segments_opened := wrap U64 (rp_segments_opened p + 1) ⟫).

Definition ensure_segment (start_ts_ns : Z) : Pipe unit :=
  let! self := rp in
  match rp_writer self with None => pl_open_segment start_ts_ns | Some _ => eret tt end.

(** [self.writer.take()], the flush, and the drop of the writer. *)
Definition close_segment : Pipe unit :=
  let! self := rp in
  match rp_writer self with
  | None => eret tt
  | Some w =>
      upd (fun p => p ⟪ rp_writer := None ⟫) !;
      (fun s : Sys FS =>
         let '(r, w') := rw_flush (attach (sys_fs s) w) in
         (r, s ⟪ sys_fs := drop_segment w' ⟫))
  end !;
  upd (fun p => p ⟪ rp_current_path := None ⟫) !;
  upd (fun p => p ⟪ rp_current_start_ts_ns := None ⟫) !;
  upd (fun p => p ⟪ rp_segment_bytes := 0 ⟫).

Definition push_event (e : SystemEvent) : Pipe unit :=
  upd (fun p => p ⟪ rp_system_events := rp_system_events p ++ [e] ⟫).

Definition rotated : Pipe unit :=
  upd (fun p => p ⟪ rp_rotations := wrap U64 (rp_rotations p + 1) ⟫) !;
  push_event RecordingRotated.

Definition rotate_now (start_ts_ns : Z) : Pipe unit :=
  let! self := rp in
  (match rp_writer self with None => eret tt | Some _ => close_segment !; rotated end) !;
  pl_open_segment start_ts_ns.

(** [&&] reads the clock only when the duration axis is enabled. *)
Definition should_rotate_before_write : Pipe bool :=
  let! self := rp in
  let dur := max_duration (rotation (rp_cfg self)) in
  if dur =? 0 then eret false
  else
    let! e := elapsed (rp_segment_started self) in
    eret ((dur <=? e) && match rp_writer self with Some _ => true | None => false end).

Definition should_rotate_after_write : Pipe bool :=
  let! self := rp in
  let max := max_bytes (rotation (rp_cfg self)) in
  eret ((0 <? max) && (max <=? rp_segment_bytes self) &&
        match rp_writer self with Some _ => true | None => false end).

(** ** Disk pressure *)

Definition set_free_space_probe_with_interval (probe : nat -> option Z) (interval : Z) : Pipe unit :=
  upd (fun p => p ⟪ rp_free_space := Some probe ⟫) !;
  upd (fun p => p ⟪ rp_free_space_check_interval := interval ⟫) !;
  upd (fun p => p ⟪ rp_last_free_space_check := None ⟫).

Definition set_free_space_probe (probe : nat -> option Z) : Pipe unit :=
  set_free_space_probe_with_interval probe 1000000000.

Definition refresh_disk_pressure : Pipe unit :=
  let! self := rp in
  let min := min_free_bytes (rp_cfg self) in
  if min =? 0 then eret tt else
  match rp_free_space self with
  | None => eret tt
  | Some probe =>
      let! fresh :=
        match rp_last_free_space_check self with
        | None => eret false
        | Some last => let! e := elapsed last in eret (e <? rp_free_space_check_interval self)
        end in
      if (fresh : bool) then eret tt else
      let! t := now in
      upd (fun p => p ⟪ rp_last_free_space_check := Some t ⟫) !;
      let! reading := (fun s : Sys FS =>
        (Ok (probe (sys_probes s)), s ⟪ sys_probes := S (sys_probes s) ⟫)) in
      match reading with
      | None => eret tt
      | Some free =>
          if free <? min then
            if negb (rp_disk_pressure_active self) then
              upd (fun p => p ⟪ rp_disk_pressure_active := true ⟫) !;
              push_event DiskPressure
            else eret tt
          else if rp_disk_pressure_active self then
            upd (fun p => p ⟪ rp_disk_pressure_active := false ⟫) !;
            push_event (SinkStateChanged "disk_ok")
          else eret tt
      end
  end.

Definition fail_closed_if_disk_full : Pipe unit :=
  let! self := rp in
  if rp_disk_pressure_active self && bool_decide (overflow (rp_cfg self) = FailEngine)
  then ethrow DiskFull else eret tt.

(** ** Enqueueing and writing *)

Definition on_queue {A} (m : Eff RecordingQueue RecordingError A) : Pipe A := fun s =>
  let '(r, q) := m (rp_queue (sys_rp s)) in
  (r, s ⟪ sys_rp := (sys_rp s) ⟪ rp_queue := q ⟫ ⟫).

Definition enqueue (frame : PendingFrame) : Pipe EnqueueOutcome :=
  refresh_disk_pressure !;
  fail_closed_if_disk_full !;
  let! outcome := on_queue (recording_push frame) in
  let! self := rp in
  efor (overflow_events outcome (rq_dropped_total (rp_queue self))) push_event !;
  eret outcome.

Definition pl_write_frame (frame : PendingFrame) : Pipe unit :=
  refresh_disk_pressure !;
  fail_closed_if_disk_full !;
  ensure_segment (pf_receive_ts_ns frame) !;
  let! before := should_rotate_before_write in
  (if (before : bool) then rotate_now (pf_receive_ts_ns frame) else eret tt) !;
  let! self := rp in
  let! w := elift (ok_or (rp_writer self) (Io "no open segment")) in
  on_writer w (write_frame frame) !;
  let written := 4 + RAW_HEADER_BODY_LEN + Z.of_nat (length (pf_payload frame)) in
  upd (fun p => p ⟪ rp_segment_bytes := wrap U64 (rp_segment_bytes p + written) ⟫) !;
  upd (fun p => p ⟪ rp_records_written := wrap U64 (rp_records_written p + 1) ⟫) !;
  let! after := should_rotate_after_write in
  if (after : bool) then close_segment !; rotated else eret tt.

Definition write_pending_frame (frame : PendingFrame) : Pipe unit :=
  refresh_disk_pressure !;
  fail_closed_if_disk_full !;
  pl_write_frame frame.

(** [while n < max]; every pass takes a frame off the queue, so one more than
    its length is enough fuel. *)
Fixpoint flush_loop (fuel : nat) (max n : Z) : Pipe Z :=
  match fuel with
  | O => eret n
  | S fuel =>
      if n <? max then
        refresh_disk_pressure !;
        fail_closed_if_disk_full !;
        let! frame := on_queue (fun q => let '(f, q) := recording_pop_front q in (Ok f, q)) in
        match frame with
        | None => eret n
        | Some frame => pl_write_frame frame !; flush_loop fuel max (n + 1)
        end
      else eret n
  end.

Definition flush_pending (max : Z) : Pipe Z :=
  let! self := rp in flush_loop (S (length (rq_items (rp_queue self)))) max 0.

(** The drain flushes up to 64 frames a pass; every pass takes at least one. *)
Fixpoint drain_loop (fuel : nat) (deadline : Z) : Pipe unit :=
  match fuel with
  | O => eret tt
  | S fuel =>
      let! self := rp in
      match rq_items (rp_queue self) with
      | [] => eret tt
      | _ :: _ =>
          let! t := now in
          if deadline <=? t then ethrow (ShutdownTimeout (recording_queue_len (rp_queue self))) else
          let! _n := flush_pending 64 in
          drain_loop fuel deadline
      end
  end.

Definition flush_writer : Pipe unit :=
  let! self := rp in
  match rp_writer self with None => eret tt | Some w => on_writer w rw_flush end.

Definition shutdown_drain (deadline : Z) : Pipe unit :=
  push_event ShutdownStarted !;
  let! self := rp in
  drain_loop (S (length (rq_items (rp_queue self)))) deadline !;
  flush_writer !;
  push_event ShutdownCompleted.

Definition register_metadata (m : MetadataRecord) : Pipe unit :=
  let! self := rp in
  match List.find (fun e => bool_decide (stable_key e = stable_key m)) (rp_metadata self) with
  | Some existing =>
      if bool_decide (existing = m) then eret tt else ethrow (MetadataConflict (stable_key m))
  | None =>
      let! encoded := elift (encode_metadata m) in
      match rp_writer self with
      | None => eret tt
      | Some w =>
          let start_ts_ns := default 0 (rp_current_start_ts_ns self) in
          on_writer w (write_metadata m start_ts_ns) !;
          upd (fun p => p ⟪ rp_segment_bytes :=
            saturating_add U64 (rp_segment_bytes p)
              (4 + RAW_HEADER_BODY_LEN + Z.of_nat (length encoded)) ⟫)
      end !;
      upd (fun p => p ⟪ rp_metadata := rp_metadata p ++ [m] ⟫)
  end.
End Pipeline.

(** ** Segment names are distinct *)

(** The value of a string of decimal digits. *)
Definition dec_value (l : list Z) : Z := foldl (fun acc d => 10 * acc + (d - 48)) 0 l.

Lemma dec_value_snoc l d : dec_value (l ++ [d]) = 10 * dec_value l + (d - 48).
Proof. unfold dec_value. by rewrite foldl_app. Qed.

Lemma dec_digits_value fuel n : 0 <= n < 10 ^ Z.of_nat fuel -> dec_value (dec_digits fuel n) = n.
Proof.
  revert n. induction fuel as [|fuel IH]; intros n Hn; [simpl in Hn; unfold dec_value; simpl; lia|].
  cbn [dec_digits]. destruct (Z.ltb_spec n 10); [unfold dec_value; simpl; lia|].
  rewrite dec_value_snoc, IH; [pose proof (Z.div_mod n 10); lia|].
  rewrite Nat2Z.inj_succ, Z.pow_succ_r in Hn by lia.
  split; [apply Z.div_pos; lia|apply Z.div_lt_upper_bound; lia].
Qed.

Lemma dec_value_zeros k l : dec_value (replicate k 48 ++ l) = dec_value l.
Proof.
  unfold dec_value. rewrite foldl_app. f_equal. induction k as [|k IH]; [done|]. cbn [replicate foldl].
  exact IH.
Qed.

Lemma pad6_value n : fits U64 n -> dec_value (pad6 n) = n.
Proof.
  intros [H1 H2]. unfold pad6. rewrite dec_value_zeros. apply dec_digits_value.
  cbn [int_min int_max] in *. change (10 ^ Z.of_nat 20) with 100000000000000000000. lia.
Qed.

Definition is_digit (d : Z) : Prop := 48 <= d <= 57.

Lemma dec_digits_digits fuel n : 0 <= n -> Forall is_digit (dec_digits fuel n).
Proof.
  revert n. induction fuel as [|fuel IH]; intros n Hn; [constructor|]. cbn [dec_digits].
  destruct (Z.ltb_spec n 10).
  - constructor; [unfold is_digit; lia|constructor].
  - apply Forall_app_2; [apply IH, Z.div_pos; lia|]. constructor; [|constructor].
    unfold is_digit. pose proof (Z.mod_pos_bound n 10). lia.
Qed.

Lemma pad6_digits n : 0 <= n -> Forall is_digit (pad6 n).
Proof.
  intros Hn. unfold pad6. apply Forall_app_2; [|by apply dec_digits_digits].
  apply Forall_replicate. unfold is_digit. lia.
Qed.

(** The digits after the last dash are determined. *)
Lemma last_dash_inj a1 a2 d1 d2 :
  Forall is_digit d1 -> Forall is_digit d2 -> a1 ++ [45] ++ d1 = a2 ++ [45] ++ d2 -> d1 = d2.
Proof.
  intros H1 H2 E. apply app_eq_inv in E as [(k & Ha & Hk)|(k & Ha & Hk)].
  - destruct k as [|x k]; [by injection Hk|]. cbn [app] in Hk. injection Hk as <- Hk.
    rewrite Hk in H2. apply Forall_app in H2 as [_ H2]. inversion H2. unfold is_digit in *. lia.
  - destruct k as [|x k]; [by injection Hk|]. cbn [app] in Hk. injection Hk as <- Hk.
    rewrite Hk in H1. apply Forall_app in H1 as [_ H1]. inversion H1. unfold is_digit in *. lia.
Qed.

Lemma segment_name_inj t1 t2 s1 s2 :
  fits U64 s1 -> fits U64 s2 -> segment_name t1 s1 = segment_name t2 s2 -> s1 = s2.
Proof.
  intros H1 H2. unfold segment_name. intros E%app_inv_head.
  rewrite !app_assoc in E. apply app_inv_tail in E. rewrite <- !app_assoc in E.
  apply last_dash_inj in E; [|by apply pad6_digits; destruct H1|by apply pad6_digits; destruct H2].
  by rewrite <- (pad6_value s1 H1), E, pad6_value.
Qed.

Lemma path_join_inj d n1 n2 : path_join d n1 = path_join d n2 -> n1 = n2.
Proof.
  unfold path_join. destruct (last d) as [c|]; [|done].
  destruct (c =? 47); [apply app_inv_head|]. by intros E%app_inv_head%app_inv_head.
Qed.

(** ** One open segment over the file system *)

Section SegmentFile.
Context {FS : Type} `{FileSystem FS}.
Implicit Types (w : RawSegmentWriter (BufWriter (File FS))) (b : BufWriter (File FS)).

(** The buffered file is the one at [p], and all other files are as in [R]. *)
Definition file_at (p : list Z) (R : list Z -> list Z) b : Prop :=
  file_path (bw_inner b) = p /\ forall p', p' <> p -> fs_read (file_fs (bw_inner b)) p' = R p'.

Lemma file_write_at p R l (f : File FS) :
  file_path f = p -> (forall p', p' <> p -> fs_read (file_fs f) p' = R p') ->
  file_path (snd (file_write_all l f)) = p /\
  forall p', p' <> p -> fs_read (file_fs (snd (file_write_all l f))) p' = R p'.
Proof.
  intros Hp HR. unfold file_write_all. pose proof (fs_write_keeps (file_path f)) as Hk.
  destruct (fs_write (file_path f) l (file_fs f)) as [r fs] eqn:E. cbn. split; [done|].
  intros p' Hp'. rewrite <- (HR p' Hp'). specialize (Hk p' l (file_fs f)). rewrite E in Hk.
  apply Hk. congruence.
Qed.

Lemma flush_buf_at p R b : file_at p R b -> file_at p R (snd (flush_buf b)).
Proof.
  intros [Hp HR]. unfold flush_buf. pose proof (file_write_at p R (bw_buf b) (bw_inner b) Hp HR) as Hw.
  cbn [write_all file_write]. destruct (file_write_all (bw_buf b) (bw_inner b)) as [[[]|e] f]; exact Hw.
Qed.

Lemma buf_write_at p R l b : file_at p R b -> file_at p R (snd (write_all l b)).
Proof.
  intros Hb. change (write_all l b) with (buf_write_all l b). unfold buf_write_all, ebind, eget. destruct (length l <? spare b)%nat; [exact Hb|].
  assert (exists r b1, (if (spare b <? length l)%nat then flush_buf else eret tt) b = (r, b1) /\
    file_at p R b1) as (r & b1 & -> & [Hp HR]).
  { pose proof (flush_buf_at p R b Hb). destruct (spare b <? length l)%nat; [|by eexists _, _].
    destruct (flush_buf b) as [r b1]. by eexists _, _. }
  destruct r as [[]|e]; [|done]. destruct (BUF_CAPACITY <=? length l)%nat; [|done].
  unfold buf_inner, ezoom. pose proof (file_write_at p R l (bw_inner b1) Hp HR) as Hw.
  cbn [write_all file_write]. destruct (file_write_all l (bw_inner b1)) as [r f]. exact Hw.
Qed.

Lemma buf_flush_at p R b : file_at p R b -> file_at p R (snd (buf_flush b)).
Proof.
  intros Hb. unfold buf_flush, ebind. pose proof (flush_buf_at p R b Hb) as Hf.
  destruct (flush_buf b) as [[[]|e] b1]; [|done]. exact Hf.
Qed.

(** An [OpenSegment] at [p] whose bytes so far, buffered ones included, are
    [bytes]. *)
Definition segment_at (fs : FS) (w : OpenSegment) (p bytes : list Z) : Prop :=
  bw_inner (rw_writer w) = p /\ rw_started w = true /\ fs_read fs p ++ bw_buf (rw_writer w) = bytes.

(** Everything but the file at [p] is the same. *)
Definition same_but (p : list Z) (fs fs' : FS) : Prop :=
  forall p', p' <> p -> fs_read fs' p' = fs_read fs p'.

Lemma same_but_refl p fs : same_but p fs fs.
Proof. done. Qed.
Lemma same_but_trans p fs1 fs2 fs3 : same_but p fs1 fs2 -> same_but p fs2 fs3 -> same_but p fs1 fs3.
Proof. intros H1 H2 p' Hp'. by rewrite H2, H1. Qed.

Lemma attach_file_at fs (w : OpenSegment) p bytes :
  segment_at fs w p bytes -> file_at p (fs_read fs) (rw_writer (attach fs w)).
Proof. intros (Hp & _ & _). by split. Qed.

Lemma write_frame_segment fs (w : OpenSegment) p bytes f w' :
  frame_ok f -> segment_at fs w p bytes -> write_frame f (attach fs w) = (Ok tt, w') ->
  segment_at (seg_fs w') (detach w') p (bytes ++ encode_frame f) /\ same_but p fs (seg_fs w').
Proof.
  intros Hf Hs E. pose proof (attach_file_at fs w p bytes Hs) as Hat. destruct Hs as (Hp & Hst & Hb).
  destruct (appends_frame (file_at p (fs_read fs)) (buf_write_at p (fs_read fs)) f Hf (attach fs w)
    (conj Hst Hat)) as ([Hst' [Hp' HR']] & x & q & Ex & Hw & Hq).
  rewrite E in *. cbn [fst snd] in *. rewrite (Hq tt eq_refl), app_nil_r in Ex. subst x.
  split; [|exact HR']. split; [exact Hp'|]. split; [exact Hst'|].
  unfold rw_written in Hw. cbn [written buf_write] in Hw. unfold buf_written in Hw.
  cbn [written file_write] in Hw. unfold file_written in Hw. rewrite Hp' in Hw.
  cbn [attach rw_writer bw_inner bw_buf file_fs file_path] in Hw. rewrite Hp in Hw.
  change (fs_read (seg_fs w') p ++ bw_buf (rw_writer w') = bytes ++ encode_frame f).
  unfold seg_fs. rewrite Hw. by rewrite <- Hb.
Qed.

Lemma create_segment fs p ts w b :
  create (mkBufWriter (mkFile fs p) []) ts = (Ok w, b) ->
  segment_at (seg_fs w) (detach w) p (fs_read fs p ++ segment_header ts) /\ same_but p fs (seg_fs w).
Proof.
  unfold create. set (b0 := mkBufWriter (mkFile fs p) []).
  assert (file_at p (fs_read fs) b0) as Hat by done.
  destruct (appends_header (file_at p (fs_read fs)) (buf_write_at p (fs_read fs)) ts b0 Hat)
    as ([Hp HR] & x & q & Ex & Hw & Hq).
  destruct ((put MAGIC !; _) b0) as [[[]|e] b1]; [|done]. cbn [rmap fst snd] in *. intros [= <- <-].
  rewrite (Hq tt eq_refl), app_nil_r in Ex. subst x. split; [|exact HR].
  split; [exact Hp|]. split; [done|]. cbn [written buf_write] in Hw. unfold buf_written in Hw.
  cbn [written file_write] in Hw. unfold file_written in Hw. rewrite Hp in Hw. unfold b0 in Hw.
  cbn [bw_inner bw_buf file_fs file_path] in Hw. rewrite app_nil_r in Hw. exact Hw.
Qed.

Lemma flush_segment fs (w : OpenSegment) p bytes w' :
  segment_at fs w p bytes -> rw_flush (attach fs w) = (Ok tt, w') ->
  segment_at (seg_fs w') (detach w') p bytes /\ same_but p fs (seg_fs w') /\
  bw_buf (rw_writer w') = [].
Proof.
  intros Hs. pose proof (attach_file_at fs w p bytes Hs) as Hat. destruct Hs as (Hp & Hst & Hb).
  unfold rw_flush. set (b0 := rw_writer (attach fs w)) in *. cbn [flush buf_write].
  destruct (buf_flush_at p (fs_read fs) b0 Hat) as [Hp' HR'].
  pose proof (buf_flush_empty b0) as He. pose proof (flush_written (Write := buf_write) b0) as Hw.
  cbn [flush buf_write written] in Hw. destruct (buf_flush b0) as [r b1]. cbn [fst snd] in *.
  destruct r as [[]|e]; [|done]. cbn [map_err]. intros [= <-]. specialize (He eq_refl).
  unfold buf_written in Hw. cbn [written file_write] in Hw. unfold file_written in Hw. rewrite Hp' in Hw.
  split; [|by split]. split; [exact Hp'|]. split; [exact Hst|]. rewrite <- Hb.
  unfold b0 in Hw. cbn [attach rw_writer bw_inner bw_buf file_fs file_path] in Hw. rewrite Hp in Hw.
  exact Hw.
Qed.

Lemma drop_segment_at fs w p bytes :
  segment_at fs (detach w) p bytes -> seg_fs w = fs -> bw_buf (rw_writer w) = [] ->
  fs_read (drop_segment w) p = bytes /\ same_but p fs (drop_segment w).
Proof.
  intros (Hp & _ & Hb) Hfs Hbuf. unfold drop_segment.
  assert (file_at p (fs_read fs) (rw_writer w)) as Hat by (split; [exact Hp|]; intros p' _; by rewrite <- Hfs).
  destruct (flush_buf_at p (fs_read fs) (rw_writer w) Hat) as [Hp' HR'].
  destruct (flush_buf_written (rw_writer w)) as [Hw _]. unfold flush_buf in *. rewrite Hbuf in *.
  split; [|exact HR']. cbn [write_all file_write] in *.
  pose proof (write_all_prefix (Write := file_write) [] (bw_inner (rw_writer w))) as (a & q & Ea & Hwr & _).
  symmetry in Ea. apply app_eq_nil in Ea as [-> ->]. rewrite app_nil_r in Hwr.
  cbn [write_all file_write written] in Hwr.
  destruct (file_write_all [] (bw_inner (rw_writer w))) as [[[]|e] f]; cbn [fst snd bw_inner] in *;
    unfold file_written in Hwr; rewrite Hp' in Hwr; rewrite Hwr;
    cbn [detach rw_writer bw_inner bw_buf] in *; rewrite Hp, Hbuf, app_nil_r in *; by rewrite <- Hb, <- Hfs.
Qed.
End SegmentFile.

(** ** What is on disk

    A segment as the sequence of frames written to it; the flag tells
    recorded frames from metadata. *)

Record Segment := mkSegment {
  sg_path : list Z;
  sg_ts : Z;
  sg_entries : list (bool * PendingFrame)
}.

Definition sg_frames (sg : Segment) : list PendingFrame := snd <$> sg_entries sg.
Definition sg_data (sg : Segment) : list PendingFrame :=
  snd <$> filter (fun e => e.1 = true) (sg_entries sg).
Definition sg_meta (sg : Segment) : list PendingFrame :=
  snd <$> filter (fun e => e.1 = false) (sg_entries sg).
Definition sg_bytes (sg : Segment) : list Z :=
  segment_header (sg_ts sg) ++ concat (encode_frame <$> sg_frames sg).
Definition sg_ok (sg : Segment) : Prop := fits I64 (sg_ts sg) /\ Forall frame_ok (sg_frames sg).

(** All recorded frames, in the order of the segments. *)
Definition recorded (segs : list Segment) : list PendingFrame := concat (sg_data <$> segs).

Definition sg_add (sg : Segment) (data : bool) (f : PendingFrame) : Segment :=
  mkSegment (sg_path sg) (sg_ts sg) (sg_entries sg ++ [(data, f)]).

Lemma sg_add_bytes sg data f : sg_bytes (sg_add sg data f) = sg_bytes sg ++ encode_frame f.
Proof.
  unfold sg_bytes, sg_frames. cbn [sg_add sg_ts sg_entries].
  rewrite !fmap_app, concat_app, app_assoc. cbn. by rewrite app_nil_r.
Qed.

Lemma sg_add_data sg data f : sg_data (sg_add sg data f) = sg_data sg ++ (if data then [f] else []).
Proof.
  unfold sg_data. cbn [sg_add sg_entries]. rewrite filter_app, fmap_app. by destruct data.
Qed.

Lemma sg_add_meta sg data f : sg_meta (sg_add sg data f) = sg_meta sg ++ (if data then [] else [f]).
Proof.
  unfold sg_meta. cbn [sg_add sg_entries]. rewrite filter_app, fmap_app. by destruct data.
Qed.

Lemma sg_add_ok sg data f : sg_ok sg -> frame_ok f -> sg_ok (sg_add sg data f).
Proof.
  intros [H1 H2] Hf. split; [done|]. unfold sg_frames. cbn [sg_add sg_entries].
  rewrite fmap_app. apply Forall_app_2; [done|]. by constructor.
Qed.

Lemma recorded_app l1 l2 : recorded (l1 ++ l2) = recorded l1 ++ recorded l2.
Proof. unfold recorded. by rewrite fmap_app, concat_app. Qed.

Lemma recorded_one sg : recorded [sg] = sg_data sg.
Proof. apply app_nil_r. Qed.

(** The frame that carries a metadata record. *)
Definition meta_frame (m : MetadataRecord) (ts : Z) (payload : list Z) : PendingFrame :=
  mkPendingFrame (metadata_session_id m) 0 ts 0 Inbound OpMetadata 0 payload.

(** The frames of a segment that are not recorded frames are exactly the
    metadata records [ms], each once and in this order. *)
Definition describes (to_json : MetadataRecord -> option (list Z)) (ms : list MetadataRecord) (sg : Segment) : Prop :=
  Forall2 (fun m f => exists b, encode_metadata to_json m = Ok b /\ f = meta_frame m (sg_ts sg) b) ms (sg_meta sg).

Section Durability.
Context {FS : Type} `{FileSystem FS}.
Context (clock : nat -> Z) (to_json : MetadataRecord -> option (list Z)).

Hypothesis json_bytes : forall m b, to_json m = Some b -> bytes_ok b.

Abbreviation Pipe := (Eff (Sys FS) RecordingError).
Implicit Types (s : Sys FS) (segs : list Segment).

(** The part of the state the segments depend on. *)
Definition core s :=
  (sys_fs s, rp_writer (sys_rp s), rp_queue (sys_rp s), rp_segment_seq (sys_rp s),
   rp_metadata (sys_rp s), directory (rp_cfg (sys_rp s)), rp_current_start_ts_ns (sys_rp s)).

Definition segment_path s (ts : Z) (i : nat) : list Z :=
  path_join (directory (rp_cfg (sys_rp s))) (segment_name ts (Z.of_nat i)).

Definition stored (fs : FS) (sg : Segment) : Prop := fs_read fs (sg_path sg) = sg_bytes sg.

(** The files hold [segs]: all but the open segment completely, the open one
    together with its write buffer. *)
Definition holds s segs : Prop :=
  match rp_writer (sys_rp s) with
  | None => Forall (stored (sys_fs s)) segs
  | Some w => exists closed sg, segs = closed ++ [sg] /\ Forall (stored (sys_fs s)) closed /\
                segment_at (sys_fs s) w (sg_path sg) (sg_bytes sg)
  end.

Record Rec s segs : Prop := mkRec {
  rec_paths : forall i sg, segs !! i = Some sg -> sg_path sg = segment_path s (sg_ts sg) i;
  rec_seq : rp_segment_seq (sys_rp s) = Z.of_nat (length segs);
  rec_ok : Forall sg_ok segs;
  rec_queue : Forall frame_ok (rq_items (rp_queue (sys_rp s)));
  rec_meta : Forall (fun m => fits U64 (metadata_session_id m)) (rp_metadata (sys_rp s));
  rec_start : forall t, rp_current_start_ts_ns (sys_rp s) = Some t -> fits I64 t;
  rec_holds : holds s segs
}.

Lemma Rec_core s s' segs : core s' = core s -> Rec s segs -> Rec s' segs.
Proof.
  unfold core. intros [= E1 E2 E3 E4 E5 E6 E7] [H1 H2 H3 H4 H5 H6 H7].
  constructor; rewrite ?E4, ?E3, ?E5, ?E7; try done.
  - intros i sg Hi. unfold segment_path. rewrite E6. by apply H1.
  - unfold holds. by rewrite E1, E2.
Qed.

(** The metadata in the segments: every segment holds a prefix of the registry that
    includes the records the pipeline was opened with ([base]), and the open
    segment holds all of it. *)
Record Doc (base : list MetadataRecord) s segs : Prop := mkDoc {
  doc_base : base `prefix_of` rp_metadata (sys_rp s);
  doc_segs : Forall (fun sg => exists ms, base `prefix_of` ms /\ ms `prefix_of` rp_metadata (sys_rp s) /\ describes to_json ms sg) segs;
  doc_open : forall w, rp_writer (sys_rp s) = Some w -> exists closed sg, segs = closed ++ [sg] /\
    describes to_json (rp_metadata (sys_rp s)) sg /\ rp_current_start_ts_ns (sys_rp s) = Some (sg_ts sg);
  doc_keys : NoDup (stable_key <$> rp_metadata (sys_rp s))
}.

(** Steps that keep the registry and open nothing. *)
Lemma Doc_same base s s' segs : rp_metadata (sys_rp s') = rp_metadata (sys_rp s) ->
  (forall w, rp_writer (sys_rp s') = Some w ->
     (exists w0, rp_writer (sys_rp s) = Some w0) /\ rp_current_start_ts_ns (sys_rp s') = rp_current_start_ts_ns (sys_rp s)) ->
  Doc base s segs -> Doc base s' segs.
Proof.
  intros Em Hw [H1 H2 H3 H4]. constructor; rewrite ?Em; try done. intros w Ew. destruct (Hw w Ew) as [[w0 E0] ->]. by apply (H3 w0).
Qed.

Lemma Doc_core base s s' segs : core s' = core s -> Doc base s segs -> Doc base s' segs.
Proof.
  unfold core. intros [= _ Ew _ _ Em _ Es]. apply Doc_same; [done|]. intros w Hw. split; [|done]. exists w. congruence.
Qed.

(** A recorded frame at the end of the open segment. *)
Lemma Doc_data base s s' closed sg f : rp_metadata (sys_rp s') = rp_metadata (sys_rp s) ->
  rp_current_start_ts_ns (sys_rp s') = rp_current_start_ts_ns (sys_rp s) -> (exists w, rp_writer (sys_rp s) = Some w) ->
  Doc base s (closed ++ [sg]) -> Doc base s' (closed ++ [sg_add sg true f]).
Proof.
  intros Em Es [w Hw] [H1 H2 H3 H4]. assert (sg_meta (sg_add sg true f) = sg_meta sg) as Hsg by (rewrite sg_add_meta; apply app_nil_r).
  constructor; rewrite ?Em; try done.
  - apply Forall_app in H2 as [H2 H2']. apply Forall_app_2; [done|]. constructor; [|constructor].
    apply Forall_cons in H2' as [(ms & Hb & Hp & Hd) _]. exists ms. split_and! ; try done. unfold describes. by rewrite Hsg.
  - intros _ _. destruct (H3 w Hw) as (closed' & sg' & [-> [= <-]]%app_inj_tail & Hd & Ht). exists closed', (sg_add sg true f).
    rewrite Es. split_and! ; [done| |done]. unfold describes. by rewrite Hsg.
Qed.

(** A new metadata record at the end of the open segment and of the registry. *)
Lemma Doc_register base s s' closed sg m b : rp_metadata (sys_rp s') = rp_metadata (sys_rp s) ++ [m] ->
  stable_key m ∉ (stable_key <$> rp_metadata (sys_rp s)) -> encode_metadata to_json m = Ok b ->
  rp_current_start_ts_ns (sys_rp s') = rp_current_start_ts_ns (sys_rp s) -> (exists w, rp_writer (sys_rp s) = Some w) ->
  Doc base s (closed ++ [sg]) ->
  Doc base s' (closed ++ [sg_add sg false (meta_frame m (default 0 (rp_current_start_ts_ns (sys_rp s))) b)]).
Proof.
  intros Em Hk Eb Es [w Hw] [H1 H2 H3 H4]. destruct (H3 w Hw) as (closed' & sg' & [<- [= <-]]%app_inj_tail & Hd & Ht). rewrite Ht. cbn.
  assert (describes to_json (rp_metadata (sys_rp s) ++ [m]) (sg_add sg false (meta_frame m (sg_ts sg) b))) as Hd'.
  { unfold describes. rewrite sg_add_meta. apply Forall2_app; [done|]. constructor; [by exists b|constructor]. }
  constructor; rewrite ?Em.
  - by apply prefix_app_r.
  - apply Forall_app in H2 as [H2 _]. apply Forall_app_2.
    + eapply Forall_impl; [exact H2|]. intros x (ms & Hb & Hp & Hx). exists ms. split_and! ; [done|by apply prefix_app_r|done].
    + constructor; [|constructor]. eexists. split_and! ; [by apply prefix_app_r|done|exact Hd'].
  - intros _ _. eexists closed, _. split_and! ; [done|done|by rewrite Es].
  - rewrite fmap_app. apply NoDup_app. split_and! ; [done| |repeat constructor; by intros ?%not_elem_of_nil].
    intros k Hin [->|[]%not_elem_of_nil]%elem_of_cons. done.
Qed.

(** A new record in the registry, with no segment open. *)
Lemma Doc_register_closed base s s' segs m : rp_metadata (sys_rp s') = rp_metadata (sys_rp s) ++ [m] ->
  stable_key m ∉ (stable_key <$> rp_metadata (sys_rp s)) -> rp_writer (sys_rp s') = None ->
  Doc base s segs -> Doc base s' segs.
Proof.
  intros Em Hk Ew [H1 H2 H3 H4]. constructor; rewrite ?Em, ?Ew; [by apply prefix_app_r| |done|].
  - eapply Forall_impl; [exact H2|]. intros x (ms & Hb & Hp & Hx). exists ms. split_and! ; [done|by apply prefix_app_r|done].
  - rewrite fmap_app. apply NoDup_app. split_and! ; [done| |repeat constructor; by intros ?%not_elem_of_nil].
    intros k Hin [->|[]%not_elem_of_nil]%elem_of_cons. done.
Qed.

(** ** Steps that do not touch the segments *)

Definition quiet {A} (m : Pipe A) : Prop := forall s, core (snd (m s)) = core s.

Lemma quiet_bind {A B} (m : Pipe A) (k : A -> Pipe B) :
  quiet m -> (forall a, quiet (k a)) -> quiet (ebind m k).
Proof.
  intros Hm Hk s. unfold ebind. specialize (Hm s). destruct (m s) as [[a|e] s1]; cbn in *; [|done].
  by rewrite Hk.
Qed.
Lemma quiet_ret {A} (a : A) : quiet (eret a).
Proof. done. Qed.
Lemma quiet_throw {A} e : quiet (ethrow (A := A) e).
Proof. done. Qed.
Lemma quiet_rp : quiet rp.
Proof. done. Qed.
Lemma quiet_now : quiet (now clock).
Proof. done. Qed.
Lemma quiet_elapsed t : quiet (elapsed clock t).
Proof. apply quiet_bind; [apply quiet_now|done]. Qed.
Lemma quiet_event e : quiet (push_event e).
Proof. done. Qed.
Lemma quiet_events l : quiet (efor l push_event).
Proof.
  induction l as [|e l IH]; [apply quiet_ret|]. cbn [efor]. apply quiet_bind; [apply quiet_event|done].
Qed.

Lemma quiet_refresh : quiet (refresh_disk_pressure clock).
Proof.
  unfold refresh_disk_pressure. apply quiet_bind; [apply quiet_rp|]. intros p.
  destruct (min_free_bytes (rp_cfg p) =? 0); [apply quiet_ret|].
  destruct (rp_free_space p) as [probe|]; [|apply quiet_ret].
  apply quiet_bind.
  { destruct (rp_last_free_space_check p); [|apply quiet_ret].
    apply quiet_bind; [apply quiet_elapsed|]. intros. apply quiet_ret. }
  intros [|]; [apply quiet_ret|]. apply quiet_bind; [apply quiet_now|]. intros t.
  apply quiet_bind; [done|]. intros _. apply quiet_bind; [done|]. intros [free|]; [|apply quiet_ret].
  destruct (free <? _); [destruct (negb _)|destruct (rp_disk_pressure_active p)]; try apply quiet_ret;
    (apply quiet_bind; [done|intros; apply quiet_event]).
Qed.

Lemma quiet_fail_closed : quiet fail_closed_if_disk_full.
Proof.
  unfold fail_closed_if_disk_full. apply quiet_bind; [apply quiet_rp|]. intros p.
  destruct (_ && _); [apply quiet_throw|apply quiet_ret].
Qed.

Lemma quiet_before : quiet (should_rotate_before_write clock).
Proof.
  unfold should_rotate_before_write. apply quiet_bind; [apply quiet_rp|]. intros p.
  destruct (_ =? 0); [apply quiet_ret|]. apply quiet_bind; [apply quiet_elapsed|]. intros. apply quiet_ret.
Qed.

Lemma quiet_after : quiet should_rotate_after_write.
Proof. unfold should_rotate_after_write. apply quiet_bind; [apply quiet_rp|]. intros. apply quiet_ret. Qed.

Lemma quiet_rotated : quiet rotated.
Proof. unfold rotated. apply quiet_bind; [done|]. intros. apply quiet_event. Qed.

Lemma quiet_Rec {A} (m : Pipe A) s a s' segs :
  quiet m -> m s = (Ok a, s') -> Rec s segs -> Rec s' segs /\ core s' = core s.
Proof.
  intros Hq E HR. specialize (Hq s). rewrite E in Hq. cbn in Hq. split; [|done].
  by eapply Rec_core.
Qed.

(** ** Distinct paths *)

Lemma segment_path_inj s t1 t2 i j :
  Z.of_nat i < 2 ^ 64 -> Z.of_nat j < 2 ^ 64 -> segment_path s t1 i = segment_path s t2 j -> i = j.
Proof.
  intros Hi Hj E%path_join_inj%segment_name_inj; [lia|..]; unfold fits; cbn [int_min int_max]; lia.
Qed.

Lemma Rec_fresh s segs ts :
  Rec s segs -> Z.of_nat (length segs) < 2 ^ 64 ->
  Forall (fun sg => sg_path sg <> segment_path s ts (length segs)) segs.
Proof.
  intros HR Hlen. apply Forall_lookup. intros i sg Hi E. rewrite (rec_paths _ _ HR i sg Hi) in E.
  pose proof (lookup_lt_Some _ _ _ Hi). apply segment_path_inj in E; lia.
Qed.

Lemma Rec_open_distinct s closed sg :
  Rec s (closed ++ [sg]) -> Z.of_nat (length (closed ++ [sg])) < 2 ^ 64 ->
  Forall (fun c => sg_path c <> sg_path sg) closed.
Proof.
  intros HR Hlen. rewrite length_app in Hlen. cbn in Hlen. apply Forall_lookup. intros i c Hi E.
  pose proof (lookup_lt_Some _ _ _ Hi).
  rewrite (rec_paths _ _ HR i c) in E by (by rewrite lookup_app_l).
  rewrite (rec_paths _ _ HR (length closed) sg) in E by (by rewrite list_lookup_middle).
  apply segment_path_inj in E; lia.
Qed.

Lemma stored_same p fs fs' segs :
  same_but p fs fs' -> Forall (fun c => sg_path c <> p) segs ->
  Forall (stored fs) segs -> Forall (stored fs') segs.
Proof.
  intros Hsame Hp Hs. rewrite Forall_forall in *. intros c Hc. unfold stored.
  rewrite Hsame by (by apply Hp). by apply Hs.
Qed.

(** ** Writing one frame to the open segment *)

Lemma on_writer_frame s segs w f data s' :
  Rec s segs -> Z.of_nat (length segs) < 2 ^ 64 -> frame_ok f -> rp_writer (sys_rp s) = Some w ->
  on_writer w (write_frame f) s = (Ok tt, s') ->
  exists closed sg, segs = closed ++ [sg] /\ Rec s' (closed ++ [sg_add sg data f]) /\
    rp_queue (sys_rp s') = rp_queue (sys_rp s) /\ rp_metadata (sys_rp s') = rp_metadata (sys_rp s) /\
    rp_current_start_ts_ns (sys_rp s') = rp_current_start_ts_ns (sys_rp s) /\
    exists w', rp_writer (sys_rp s') = Some w'.
Proof.
  intros HR Hlen Hf Hw. pose proof (rec_holds _ _ HR) as Hh. unfold holds in Hh. rewrite Hw in Hh.
  destruct Hh as (closed & sg & -> & Hc & Hat). unfold on_writer.
  destruct (write_frame f (attach (sys_fs s) w)) as [[[]|e] w'] eqn:E; [|done].
  intros [= <-]. destruct (write_frame_segment _ _ _ _ _ _ Hf Hat E) as [Hat' Hsame].
  pose proof (Rec_open_distinct _ _ _ HR Hlen) as Hd. destruct HR as [H1 H2 H3 H4 H5 H6 _].
  exists closed, sg. split; [done|]. split; [|by cbn; eauto].
  apply Forall_app in H3 as [H3 H3']. inversion H3' as [|? ? Hsg]; subst.
  constructor; [| | |exact H4|exact H5|exact H6|].
  - intros i c Hi. change (sg_path c = segment_path s (sg_ts c) i). destruct (decide (i < length closed)%nat) as [Hlt|Hge].
    + rewrite lookup_app_l in Hi by done. apply (H1 i). by rewrite lookup_app_l.
    + rewrite lookup_app_r in Hi by lia. destruct (i - length closed)%nat as [|k] eqn:Ei; [|done].
      injection Hi as <-. apply (H1 i sg). rewrite lookup_app_r by lia. by rewrite Ei.
  - change (rp_segment_seq (sys_rp s) = Z.of_nat (length (closed ++ [sg_add sg data f]))).
    by rewrite H2, !length_app.
  - apply Forall_app_2; [done|]. constructor; [by apply sg_add_ok|constructor].
  - unfold holds. cbn -[sg_bytes sg_add segment_at stored]. exists closed, (sg_add sg data f). split; [done|]. split; [by eapply stored_same|].
    rewrite sg_add_bytes. exact Hat'.
Qed.

(** ** Metadata *)

Lemma encode_metadata_Ok m b :
  encode_metadata to_json m = Ok b -> to_json m = Some b /\ Z.of_nat (length b) <= MAX_METADATA_BYTES.
Proof.
  unfold encode_metadata. intros E. res. destruct (Z.ltb_spec MAX_METADATA_BYTES (Z.of_nat (length v))); [done|].
  injection E as <-. done.
Qed.

Lemma meta_frame_ok m ts b :
  fits U64 (metadata_session_id m) -> fits I64 ts -> encode_metadata to_json m = Ok b ->
  frame_ok (meta_frame m ts b).
Proof.
  intros Hm Hts [Hj Hlen]%encode_metadata_Ok. apply json_bytes in Hj.
  unfold frame_ok, meta_frame. cbn [pf_session pf_frame_seq pf_receive_ts_ns pf_monotonic_ns pf_flags pf_payload].
  unfold MAX_METADATA_BYTES, MAX_RAW_RECORD_LEN, RAW_HEADER_BODY_LEN in *.
  split_and! ; first [done | unfold fits, is_byte; cbn [int_min int_max]; lia].
Qed.

Lemma write_metadata_eq {W} `{Write W} m ts b (w : RawSegmentWriter W) :
  encode_metadata to_json m = Ok b -> write_metadata to_json m ts w = write_frame (meta_frame m ts b) w.
Proof. intros E. unfold write_metadata. rewrite E. done. Qed.

Lemma write_all_metadata_segment l ts n w s n' w' s' p bytes :
  Forall (fun m => fits U64 (metadata_session_id m)) l -> fits I64 ts ->
  segment_at (sys_fs s) w p bytes -> write_all_metadata to_json l ts n w s = (Ok (n', w'), s') ->
  exists ms, Forall frame_ok ms /\ segment_at (sys_fs s') w' p (bytes ++ concat (encode_frame <$> ms)) /\
    same_but p (sys_fs s) (sys_fs s') /\ sys_rp s' = sys_rp s /\
    Forall2 (fun m f => exists b, encode_metadata to_json m = Ok b /\ f = meta_frame m ts b) l ms.
Proof.
  intros Hl Hts. revert n w s bytes. induction Hl as [|m l Hm _ IH]; intros n w s bytes Hat.
  { cbn [write_all_metadata]. intros [= <- <- <-]. exists []. cbn. rewrite app_nil_r. split_and! ; try done; constructor. }
  cbn [write_all_metadata]. intros ((k & w1) & s1 & E & E')%ebind_Ok. cbn [fst snd] in E'.
  unfold or_drop in E.
  destruct ((let! encoded := elift (encode_metadata to_json m) in _) (attach (sys_fs s) w))
    as [[x|e] w2] eqn:Em; [|done].
  injection E as <- <- <-. apply ebind_Ok in Em as (b & w3 & Eb & Em).
  injection Eb as Eb <-. apply ebind_Ok in Em as ([] & w4 & Em & Ek). injection Ek as _ <-.
  rewrite (write_metadata_eq _ _ _ _ Eb) in Em.
  pose proof (meta_frame_ok m ts b Hm Hts Eb) as Hf.
  destruct (write_frame_segment _ _ _ _ _ _ Hf Hat Em) as [Hat1 Hsame1].
  destruct (IH _ _ (mkSys (seg_fs w4) (sys_ticks s) (sys_probes s) (sys_rp s)) _ Hat1 E')
    as (ms & Hms & Hat2 & Hsame2 & Hrp & Hall).
  exists (meta_frame m ts b :: ms). split; [by constructor|]. split.
  - rewrite <- app_assoc in Hat2. exact Hat2.
  - split; [by eapply same_but_trans|]. split; [exact Hrp|]. constructor; [by exists b|done].
Qed.

(** ** Opening and closing segments *)

Lemma io_Ok (m : Eff FS string unit) s u s' :
  io m s = (Ok u, s') ->
  exists fs', m (sys_fs s) = (Ok tt, fs') /\ s' = mkSys fs' (sys_ticks s) (sys_probes s) (sys_rp s).
Proof.
  unfold io. destruct (m (sys_fs s)) as [[[]|e] fs']; [|done]. intros [= <- <-]. by exists fs'.
Qed.

(** The assignments at the end of [open_segment]. *)
Definition opened (w : OpenSegment) (path : list Z) (ts bytes t : Z) (p : RecordingPipeline) :=
  p ⟪ rp_writer := Some w ⟫ ⟪ rp_current_path := Some path ⟫ ⟪ rp_current_start_ts_ns := Some ts ⟫
    ⟪ rp_segment_bytes := bytes ⟫ ⟪ rp_segment_started := t ⟫
    ⟪ rp_segment_seq := wrap U64 (rp_segment_seq p + 1) ⟫
    ⟪ rp_segments_opened := wrap U64 (rp_segments_opened p + 1) ⟫.

Lemma open_segment_steps ts s u s' :
  pl_open_segment clock to_json ts s = (Ok u, s') ->
  let path := path_join (directory (rp_cfg (sys_rp s))) (segment_name ts (rp_segment_seq (sys_rp s))) in
  exists fs1 fs2 w b s3 n w' s4,
    fs_mkdir (directory (rp_cfg (sys_rp s))) (sys_fs s) = (Ok tt, fs1) /\
    fs_create path fs1 = (Ok tt, fs2) /\
    create (mkBufWriter (mkFile fs2 path) []) ts = (Ok w, b) /\
    sys_fs s3 = seg_fs w /\ sys_rp s3 = sys_rp s /\
    write_all_metadata to_json (rp_metadata (sys_rp s)) ts HEADER_SIZE (detach w) s3 = (Ok (n, w'), s4) /\
    sys_fs s' = sys_fs s4 /\
    sys_rp s' = opened w' path ts n (clock (sys_ticks s4)) (sys_rp s4).
Proof.
  unfold pl_open_segment. intros (p & s0 & [= <- <-] & E)%ebind_Ok. cbv zeta.
  apply ebind_Ok in E as ([] & s1 & (fs1 & E1 & ->)%io_Ok & E).
  apply ebind_Ok in E as ([] & s2 & (fs2 & E2 & ->)%io_Ok & E). cbn [sys_fs] in E2.
  apply ebind_Ok in E as (w0 & s3 & E3 & E). cbn [sys_fs sys_rp] in E3.
  destruct (create (mkBufWriter (mkFile fs2 _) []) ts) as [[w|e] b] eqn:Ec; [|done].
  injection E3 as <- <-. apply ebind_Ok in E as ((n & w') & s4 & E4 & E).
  eexists fs1, fs2, w, b, _, n, w', s4. split; [exact E1|]. split; [exact E2|]. split; [done|].
  split; [|split; [|split; [exact E4|]]]; [done|done|].
  unfold upd, now, emod, ebind in E. cbn [fst snd] in E. injection E as _ <-. done.
Qed.

Lemma open_segment_Rec s segs ts u s' :
  Rec s segs -> rp_writer (sys_rp s) = None -> fits I64 ts -> Z.of_nat (length segs) + 1 < 2 ^ 64 ->
  pl_open_segment clock to_json ts s = (Ok u, s') ->
  exists sg, Rec s' (segs ++ [sg]) /\ sg_data sg = [] /\
    rp_queue (sys_rp s') = rp_queue (sys_rp s) /\ (exists w, rp_writer (sys_rp s') = Some w) /\
    rp_metadata (sys_rp s') = rp_metadata (sys_rp s) /\ (forall base, Doc base s segs -> Doc base s' (segs ++ [sg])).
Proof.
  intros HR Hw Hts Hlen E. apply open_segment_steps in E.
  destruct E as (fs1 & fs2 & w & b & s3 & n & w' & s4 & E1 & E2 & E3 & Hfs3 & Hrp3 & E4 & Hfs' & Hrp').
  set (path := path_join _ _) in *.
  assert (path = segment_path s ts (length segs)) as Hpath
    by (unfold path, segment_path; by rewrite (rec_seq _ _ HR)).
  pose proof (Rec_fresh s segs ts HR ltac:(lia)) as Hfresh. rewrite <- Hpath in Hfresh.
  pose proof (rec_holds _ _ HR) as Hh. unfold holds in Hh. rewrite Hw in Hh.
  assert (same_but path (sys_fs s) fs2) as Hs2.
  { intros p' Hp'. pose proof (fs_create_keeps path p' fs1 Hp') as H1. rewrite E2 in H1. cbn in H1.
    pose proof (fs_mkdir_keeps (directory (rp_cfg (sys_rp s))) (sys_fs s) p') as H2. rewrite E1 in H2.
    cbn in H2. congruence. }
  assert (fs_read fs2 path = []) as Hempty.
  { pose proof (fs_create_empty path fs1) as H1. rewrite E2 in H1. by apply H1. }
  destruct (create_segment _ _ _ _ _ E3) as [Hat Hsame]. rewrite Hempty, app_nil_l in Hat.
  rewrite <- Hfs3 in Hat, Hsame.
  destruct (write_all_metadata_segment _ _ _ _ _ _ _ _ _ _ (rec_meta _ _ HR) Hts Hat E4)
    as (ms & Hms & Hat4 & Hsame4 & Hrp4 & Hall).
  exists (mkSegment path ts ((fun f => (false, f)) <$> ms)).
  assert (sg_frames (mkSegment path ts ((fun f => (false, f)) <$> ms)) = ms) as Hfr.
  { unfold sg_frames. cbn [sg_entries]. rewrite <- list_fmap_compose. apply list_fmap_id. }
  assert (describes to_json (rp_metadata (sys_rp s)) (mkSegment path ts ((fun f => (false, f)) <$> ms))) as Hdesc.
  { unfold describes. replace (sg_meta _) with ms; [exact Hall|]. unfold sg_meta. cbn [sg_entries]. clear.
    induction ms as [|f ms IH]; [done|]. cbn. by rewrite IH at 1. }
  rewrite Hrp4, Hrp3 in Hrp'. rewrite Hrp'. cbn [opened]. split; [|split].
  - destruct HR as [H1 H2 H3 H4 H5 H6 _]. constructor; rewrite ?Hrp'; try done.
    + intros i sg Hi. unfold segment_path. rewrite Hrp'.
      change (sg_path sg = segment_path s (sg_ts sg) i).
      destruct (decide (i < length segs)%nat).
      * rewrite lookup_app_l in Hi by done. by apply H1.
      * rewrite lookup_app_r in Hi by lia. destruct (i - length segs)%nat as [|k] eqn:Ei; [|done].
        injection Hi as <-. cbn [sg_path sg_ts]. replace i with (length segs) by lia. done.
    + change (wrap U64 (rp_segment_seq (sys_rp s) + 1) = Z.of_nat (length (segs ++ [mkSegment path ts
        ((fun f => (false, f)) <$> ms)]))).
      rewrite H2, length_app. rewrite wrap_fits by (unfold fits; cbn [int_min int_max]; lia). cbn. lia.
    + apply Forall_app_2; [done|]. constructor; [|constructor]. split; [done|]. by rewrite Hfr.
    + intros t [= <-]. done.
    + unfold holds. rewrite Hrp', Hfs'. cbn [opened rp_writer set_field].
      eexists segs, _. split; [done|]. split.
      * eapply stored_same; [|exact Hfresh|exact Hh].
        eapply same_but_trans; [exact Hs2|]. eapply same_but_trans; [exact Hsame|exact Hsame4].
      * unfold sg_bytes. cbn [sg_path sg_ts]. by rewrite Hfr.
  - unfold sg_data. cbn [sg_entries]. clear. induction ms as [|f ms IH]; [done|]. exact IH.
  - split; [done|]. split; [by exists w'|]. split; [done|]. intros base [D1 D2 D3 D4].
    constructor; rewrite ?Hrp'; cbn [opened rp_metadata set_field]; try done.
    + apply Forall_app_2; [done|]. constructor; [|constructor]. by exists (rp_metadata (sys_rp s)).
    + intros _ _. by eexists segs, _.
Qed.

Lemma close_segment_Rec s segs u s' :
  Rec s segs -> Z.of_nat (length segs) < 2 ^ 64 -> close_segment s = (Ok u, s') ->
  Rec s' segs /\ rp_queue (sys_rp s') = rp_queue (sys_rp s) /\ rp_writer (sys_rp s') = None /\
  rp_metadata (sys_rp s') = rp_metadata (sys_rp s).
Proof.
  intros HR Hlen. unfold close_segment. intros (p & s0 & [= <- <-] & E)%ebind_Ok.
  pose proof (rec_holds _ _ HR) as Hh. unfold holds in Hh.
  apply ebind_Ok in E as ([] & s1 & E1 & E). unfold upd, emod, ebind in E. injection E as _ <-.
  destruct HR as [H1 H2 H3 H4 H5 H6 H7].
  destruct (rp_writer (sys_rp s)) as [w|] eqn:Ew.
  - destruct Hh as (closed & sg & -> & Hc & Hat).
    pose proof (Rec_open_distinct s closed sg ltac:(by constructor) Hlen) as Hd.
    unfold upd, emod, ebind in E1. cbn [sys_fs set_field] in E1.
    match type of E1 with (let '(r, w') := ?m in _) = _ => destruct m as [[[]|e] w'] eqn:Ef end; [|done].
    injection E1 as <-. destruct (flush_segment _ _ _ _ _ Hat Ef) as (Hat' & Hsame & Hbuf).
    destruct (drop_segment_at _ w' _ _ Hat' eq_refl Hbuf) as [Hread Hsame'].
    split; [|by split_and! ]. constructor; try done. unfold holds. cbn -[stored sg_bytes drop_segment].
    apply Forall_app_2; [|constructor; [exact Hread|constructor]].
    eapply stored_same; [|exact Hd|exact Hc]. by eapply same_but_trans.
  - injection E1 as <-. split; [|by split_and! ]. by constructor.
Qed.

(** ** Rotation and writing

    [moved s segs s' segs' fs n]: the recorded frames grew by [fs], the queue is
    the same, and at most [n] segments were opened. *)

Record moved s segs s' segs' (fs : list PendingFrame) (n : nat) : Prop := mkMoved {
  moved_rec : Rec s' segs';
  moved_frames : recorded segs' = recorded segs ++ fs;
  moved_queue : rp_queue (sys_rp s') = rp_queue (sys_rp s);
  moved_count : (length segs' <= length segs + n)%nat;
  moved_meta : rp_metadata (sys_rp s') = rp_metadata (sys_rp s);
  moved_doc : forall base, Doc base s segs -> Doc base s' segs'
}.

Lemma moved_trans s1 g1 s2 g2 s3 g3 fs1 fs2 n1 n2 :
  moved s1 g1 s2 g2 fs1 n1 -> moved s2 g2 s3 g3 fs2 n2 -> moved s1 g1 s3 g3 (fs1 ++ fs2) (n1 + n2).
Proof.
  intros [H1 H2 H3 H4 M1 D1] [H5 H6 H7 H8 M2 D2]. constructor; [done| |congruence|lia|congruence|auto].
  by rewrite H6, H2, app_assoc.
Qed.

Lemma moved_same s segs s' :
  Rec s segs -> core s' = core s -> moved s segs s' segs [] 0.
Proof.
  intros HR Hc. pose proof Hc as [= _ _ Hq _ Hm _ _].
  constructor; [by eapply Rec_core|by rewrite app_nil_r|done|lia|done|]. intros base. by apply Doc_core.
Qed.

(** A step that, when it succeeds from a state with [P], records [fs], opens at
    most [n] segments and ends with [Q]. *)
Definition moves {A} (P : Sys FS -> Prop) (m : Pipe A) (fs : list PendingFrame) (n : nat)
    (Q : A -> Sys FS -> Prop) : Prop :=
  forall s segs a s', Rec s segs -> Z.of_nat (length segs + n) < 2 ^ 64 -> P s -> m s = (Ok a, s') ->
    exists segs', moved s segs s' segs' fs n /\ Q a s'.

Lemma moves_bind {A B} P (m : Pipe A) (k : A -> Pipe B) fs1 fs2 n1 n2 Q R :
  moves P m fs1 n1 Q -> (forall a, moves (Q a) (k a) fs2 n2 R) ->
  moves P (ebind m k) (fs1 ++ fs2) (n1 + n2) R.
Proof.
  intros Hm Hk s segs b s' HR Hlen HP (a & s1 & E1 & E2)%ebind_Ok.
  destruct (Hm s segs a s1 HR ltac:(lia) HP E1) as (g1 & M1 & HQ).
  pose proof (moved_count _ _ _ _ _ _ M1) as Hc.
  destruct (Hk a s1 g1 b s' (moved_rec _ _ _ _ _ _ M1) ltac:(lia) HQ E2) as (g2 & M2 & HR2).
  exists g2. split; [by eapply moved_trans|done].
Qed.

(** The open writer is all a later step asks of an earlier one. *)
Definition any : Sys FS -> Prop := fun _ => True.
Definition has_writer s : Prop := exists w, rp_writer (sys_rp s) = Some w.

Lemma moves_quiet {A} (P : Sys FS -> Prop) (m : Pipe A) :
  quiet m -> (forall s s', core s' = core s -> P s -> P s') -> moves P m [] 0 (fun _ => P).
Proof.
  intros Hq HP s segs a s' HR _ HPs E. destruct (quiet_Rec m s a s' segs Hq E HR) as [HR' Hc].
  exists segs. split; [|by eapply HP]. by apply moved_same.
Qed.

Lemma core_any s s' : core s' = core s -> any s -> any s'.
Proof. done. Qed.
Lemma core_writer s s' : core s' = core s -> has_writer s -> has_writer s'.
Proof. intros [= _ E _ _ _ _ _] [w Hw]. exists w. congruence. Qed.

Lemma moves_weaken {A} (P : Sys FS -> Prop) (m : Pipe A) fs n n' Q :
  moves P m fs n Q -> (n <= n')%nat -> moves P m fs n' Q.
Proof.
  intros Hm Hn s segs a s' HR Hlen HP E. destruct (Hm s segs a s' HR ltac:(lia) HP E) as (g & [] & HQ).
  exists g. split; [|done]. constructor; try done. lia.
Qed.

Lemma moves_ret {A} (P : Sys FS -> Prop) (a : A) : moves P (eret a) [] 0 (fun _ => P).
Proof. intros s segs b s' HR _ HP [= <- <-]. exists segs. split; [|done]. by apply moved_same. Qed.

Lemma moves_open ts :
  fits I64 ts ->
  moves (fun s => rp_writer (sys_rp s) = None) (pl_open_segment clock to_json ts) [] 1 (fun _ => has_writer).
Proof.
  intros Hts s segs u s' HR Hlen Hw E.
  destruct (open_segment_Rec s segs ts u s' HR Hw Hts ltac:(lia) E) as (sg & HR' & Hd & Hq & Hw' & Hm & Hdoc).
  exists (segs ++ [sg]). split; [|done]. constructor; [done| |done| |done|done].
  - rewrite recorded_app, recorded_one, Hd. done.
  - rewrite length_app. done.
Qed.

Lemma moves_close : moves any close_segment [] 0 (fun _ s => rp_writer (sys_rp s) = None).
Proof.
  intros s segs u s' HR Hlen _ E.
  destruct (close_segment_Rec s segs u s' HR ltac:(lia) E) as (HR' & Hq & Hw & Hm).
  exists segs. split; [|done]. constructor; [done|by rewrite app_nil_r|done|lia|done|].
  intros base. apply Doc_same; [done|]. intros w. by rewrite Hw.
Qed.

Lemma moves_close_rotated :
  moves any (close_segment !; rotated) [] 0 (fun _ s => rp_writer (sys_rp s) = None).
Proof.
  apply (moves_bind any close_segment (fun _ => rotated) [] [] 0 0 _ _ moves_close). intros _.
  apply moves_quiet; [apply quiet_rotated|]. intros s s' [= _ E _ _ _ _ _] Hw. congruence.
Qed.

Lemma moves_rotate ts :
  fits I64 ts -> moves any (rotate_now clock to_json ts) [] 1 (fun _ => has_writer).
Proof.
  intros Hts s segs u s' HR Hlen _. unfold rotate_now. intros (p & s0 & [= <- <-] & E)%ebind_Ok.
  revert E. revert s segs HR Hlen. assert (moves any (
    (let! self := rp in match rp_writer self with None => eret tt | Some _ => close_segment !; rotated end))
    [] 0 (fun _ s => rp_writer (sys_rp s) = None)) as H1.
  { intros s segs v s1 HR Hlen _ (p & s0 & [= <- <-] & E)%ebind_Ok.
    destruct (rp_writer (sys_rp s)) as [w|] eqn:Ew; [by eapply moves_close_rotated|].
    injection E as _ <-. exists segs. split; [by apply moved_same|done]. }
  intros s segs HR Hlen E.
  apply (moves_bind any _ (fun _ => pl_open_segment clock to_json ts) [] [] 0 1 _ _ H1
    (fun _ => moves_open ts Hts) s segs u s' HR Hlen I).
  unfold ebind in *. exact E.
Qed.

Lemma moves_ensure ts :
  fits I64 ts -> moves any (ensure_segment clock to_json ts) [] 1 (fun _ => has_writer).
Proof.
  intros Hts s segs u s' HR Hlen _. unfold ensure_segment. intros (p & s0 & [= <- <-] & E)%ebind_Ok.
  destruct (rp_writer (sys_rp s)) as [w|] eqn:Ew; [|by eapply (moves_open ts Hts)].
  injection E as _ <-. exists segs. split; [|by exists w].
  constructor; [done|by rewrite app_nil_r|done|lia|done|auto].
Qed.

Lemma moves_on_writer w f :
  frame_ok f ->
  moves (fun s => rp_writer (sys_rp s) = Some w) (on_writer w (write_frame f)) [f] 0 (fun _ => any).
Proof.
  intros Hf s segs [] s' HR Hlen Hw E.
  destruct (on_writer_frame s segs w f true s' HR ltac:(lia) Hf Hw E)
    as (closed & sg & -> & HR7 & Hq7 & Hm7 & Hs7 & _).
  exists (closed ++ [sg_add sg true f]). split; [|done].
  constructor; [done| |done|rewrite !length_app; simpl; lia|done|intros base; apply Doc_data; eauto].
  rewrite !recorded_app, !recorded_one, sg_add_data. by rewrite app_assoc.
Qed.

Lemma moves_write_frame f :
  frame_ok f -> moves any (pl_write_frame clock to_json f) [f] 2 (fun _ => any).
Proof.
  intros Hf. pose proof Hf as (_ & _ & Hts & _). unfold pl_write_frame.
  refine (moves_bind _ _ _ [] [f] 0 2 _ _ (moves_quiet any _ quiet_refresh core_any) (fun _ => _)).
  refine (moves_bind _ _ _ [] [f] 0 2 _ _ (moves_quiet any _ quiet_fail_closed core_any) (fun _ => _)).
  refine (moves_bind _ _ _ [] [f] 1 1 _ _ (moves_ensure _ Hts) (fun _ => _)).
  refine (moves_bind _ _ _ [] [f] 0 1 _ _ (moves_quiet has_writer _ quiet_before core_writer) (fun before => _)).
  refine (moves_bind _ _ _ [] [f] 1 0 (fun _ => has_writer) _ _ (fun _ => _)).
  { destruct before; [|apply (moves_weaken _ _ _ 0); [apply moves_ret|lia]].
    intros s segs a s' HR Hlen _. by apply (moves_rotate _ Hts). }
  refine (moves_bind _ _ _ [] [f] 0 0 (fun p s => has_writer s /\ p = sys_rp s) _ _ (fun p => _)).
  { intros s segs a s' HR _ Hw [= <- <-]. exists segs. split; [by apply moved_same|done]. }
  refine (moves_bind _ _ _ [] [f] 0 0 (fun w s => rp_writer (sys_rp s) = Some w) _ _ (fun w => _)).
  { intros s segs a s' HR _ [_ ->] [= E <-]. exists segs. split; [by apply moved_same|].
    destruct (rp_writer (sys_rp s)); [by injection E as <-|done]. }
  refine (moves_bind _ _ _ [f] [] 0 0 _ _ (moves_on_writer w f Hf) (fun _ => _)).
  refine (moves_bind _ _ _ [] [] 0 0 _ _ (moves_quiet any _ _ core_any) (fun _ => _)); [done|].
  refine (moves_bind _ _ _ [] [] 0 0 _ _ (moves_quiet any _ _ core_any) (fun _ => _)); [done|].
  refine (moves_bind _ _ _ [] [] 0 0 _ _ (moves_quiet any _ quiet_after core_any) (fun after => _)).
  destruct after; [|apply moves_ret].
  intros s segs a s' HR Hlen HP E. destruct (moves_close_rotated s segs a s' HR Hlen HP E) as (g & Hm & _).
  by exists g.
Qed.

(** ** From the queue to the segments *)

Definition pending s : list PendingFrame := rq_items (rp_queue (sys_rp s)).

(** The number of segments that may exist once the queue is written. *)
Definition load s segs : Z := Z.of_nat (length segs + 2 * length (pending s)).

(** [k] frames went from the front of the queue to the end of the record. *)
Record flushed_k s segs s' segs' (k : nat) : Prop := mkFlushed {
  fl_rec : Rec s' segs';
  fl_frames : recorded segs' = recorded segs ++ take k (pending s);
  fl_queue : rp_queue (sys_rp s') = (rp_queue (sys_rp s)) ⟪ rq_items := drop k (pending s) ⟫;
  fl_load : load s' segs' <= load s segs;
  fl_meta : rp_metadata (sys_rp s') = rp_metadata (sys_rp s);
  fl_doc : forall base, Doc base s segs -> Doc base s' segs'
}.

Lemma flushed_moved s segs s' segs' :
  moved s segs s' segs' [] 0 -> flushed_k s segs s' segs' 0.
Proof.
  intros [H1 H2 H3 H4 H5 H6]. constructor; [done|by rewrite H2| | |done|done].
  - rewrite H3. unfold pending. by destruct (rp_queue (sys_rp s)).
  - unfold load, pending. rewrite H3. lia.
Qed.

(** Taking a frame off the queue. *)
Lemma pop_Rec s segs q :
  Rec s segs -> Forall frame_ok (rq_items q) ->
  Rec (s ⟪ sys_rp := (sys_rp s) ⟪ rp_queue := q ⟫ ⟫) segs.
Proof. intros [] Hq. by constructor. Qed.

Lemma pop_Doc base s segs q : Doc base s segs -> Doc base (s ⟪ sys_rp := (sys_rp s) ⟪ rp_queue := q ⟫ ⟫) segs.
Proof. by intros []. Qed.

Lemma flush_loop_spec fuel max n s segs n' s' :
  Rec s segs -> (length (pending s) < fuel)%nat -> load s segs < 2 ^ 64 ->
  flush_loop clock to_json fuel max n s = (Ok n', s') ->
  let k := Nat.min (Z.to_nat (max - n)) (length (pending s)) in
  n' = n + Z.of_nat k /\ exists segs', flushed_k s segs s' segs' k.
Proof.
  revert n s segs. induction fuel as [|fuel IH]; intros n s segs HR Hfuel Hload; [lia|].
  cbn [flush_loop]. destruct (Z.ltb_spec n max) as [Hn|Hn].
  2: { intros [= <- <-]. replace (Z.to_nat (max - n)) with 0%nat by lia. cbn.
       split; [lia|]. exists segs. apply flushed_moved. by apply moved_same. }
  intros E. apply ebind_Ok in E as ([] & s1 & E1 & E).
  destruct (quiet_Rec _ _ _ _ _ quiet_refresh E1 HR) as [HR1 Hc1].
  apply ebind_Ok in E as ([] & s2 & E2 & E).
  destruct (quiet_Rec _ _ _ _ _ quiet_fail_closed E2 HR1) as [HR2 Hc2].
  assert (rp_queue (sys_rp s2) = rp_queue (sys_rp s)) as Hq2 by (unfold core in *; congruence).
  apply ebind_Ok in E as (fr & s3 & E3 & E). unfold on_queue, recording_pop_front in E3.
  injection E3 as <- <-. rewrite Hq2 in E. fold (pending s) in E.
  destruct (pending s) as [|f rest] eqn:Ep; cbn [head] in E.
  { injection E as <- <-. rewrite Nat.min_0_r. split; [lia|]. exists segs.
    constructor; [|by rewrite app_nil_r| | |unfold core in *; cbn; congruence|].
    - apply pop_Rec; [done|constructor].
    - by cbn; rewrite ?Ep.
    - unfold load, pending in *. cbn. rewrite Ep. cbn. lia.
    - intros base Hd. apply (pop_Doc base s2). apply (Doc_core base s); [congruence|done]. }
  match type of E with _ ?x = _ => set (s3 := x) in * end.
  pose proof (rec_queue _ _ HR) as Hqok. fold (pending s) in Hqok. rewrite Ep in Hqok.
  apply Forall_cons in Hqok as [Hf Hrest].
  assert (Rec s3 segs) as HR3 by (by apply pop_Rec).
  assert (pending s3 = rest) as Hp3 by done.
  unfold load in Hload. rewrite Ep in Hload. cbn [length] in *.
  apply ebind_Ok in E as ([] & s4 & E4 & E).
  destruct (moves_write_frame f Hf s3 segs tt s4 HR3 ltac:(lia) I E4) as (g4 & [HR4 Hr4 Hq4 Hc4 Hm4 Hd4] & _).
  assert (pending s4 = rest) as Hp4 by (unfold pending; by rewrite Hq4).
  destruct (IH (n + 1) s4 g4 HR4) as [-> (g5 & [HR5 Hr5 Hq5 Hl5 Hm5 Hd5])];
    [rewrite Hp4; lia|unfold load; rewrite Hp4; lia|exact E|].
  rewrite Hp4 in *. replace (Z.to_nat (max - n)) with (S (Z.to_nat (max - (n + 1)))) by lia.
  cbn [Nat.min]. split; [lia|]. exists g5.
  assert (rp_metadata (sys_rp s2) = rp_metadata (sys_rp s)) as Hm2 by (unfold core in *; congruence).
  constructor; [done| | | |by rewrite Hm5, Hm4|intros base Hd; apply Hd5, Hd4, pop_Doc, (Doc_core base s); [congruence|done]].
  - rewrite Hr5, Hr4, Ep, <- app_assoc. done.
  - rewrite Hq5, Hq4, Ep. done.
  - unfold load in *. rewrite Ep, Hp4 in *. cbn [length]. lia.
Qed.

Lemma flush_pending_spec max s segs n s' :
  Rec s segs -> load s segs < 2 ^ 64 -> flush_pending clock to_json max s = (Ok n, s') ->
  let k := Nat.min (Z.to_nat max) (length (pending s)) in
  n = Z.of_nat k /\ exists segs', flushed_k s segs s' segs' k.
Proof.
  intros HR Hload. unfold flush_pending. intros (p & s0 & [= <- <-] & E)%ebind_Ok.
  destruct (flush_loop_spec _ _ _ s segs n s' HR (Nat.lt_succ_diag_r _) Hload E) as [Hn Hg].
  by rewrite Z.sub_0_r in *.
Qed.

Lemma flushed_trans s1 g1 s2 g2 s3 g3 k1 k2 :
  flushed_k s1 g1 s2 g2 k1 -> flushed_k s2 g2 s3 g3 k2 -> flushed_k s1 g1 s3 g3 (k1 + k2).
Proof.
  intros [H1 H2 H3 H4 M1 D1] [H5 H6 H7 H8 M2 D2].
  assert (pending s2 = drop k1 (pending s1)) as Hp by (unfold pending at 1; by rewrite H3).
  constructor; [done| | |lia|congruence|auto].
  - rewrite H6, H2, Hp, <- app_assoc. by rewrite take_take_drop.
  - rewrite H7, H3, Hp. cbn. by rewrite drop_drop.
Qed.

Lemma drain_loop_spec fuel deadline s segs u s' :
  Rec s segs -> (length (pending s) < fuel)%nat -> load s segs < 2 ^ 64 ->
  drain_loop clock to_json fuel deadline s = (Ok u, s') ->
  exists segs', flushed_k s segs s' segs' (length (pending s)).
Proof.
  revert s segs. induction fuel as [|fuel IH]; intros s segs HR Hfuel Hload; [lia|].
  cbn [drain_loop]. intros (p & s0 & [= <- <-] & E)%ebind_Ok. fold (pending s) in E.
  destruct (pending s) as [|f rest] eqn:Ep.
  { injection E as _ <-. exists segs. apply flushed_moved. by apply moved_same. }
  apply ebind_Ok in E as (t & s1 & E1 & E). destruct (quiet_Rec _ _ _ _ _ (quiet_now) E1 HR) as [HR1 Hc1].
  assert (pending s1 = f :: rest) as Hp1 by (rewrite <- Ep; unfold pending, core in *; congruence).
  destruct (deadline <=? t); [done|]. apply ebind_Ok in E as (n & s2 & E2 & E).
  assert (load s1 segs = load s segs) as Hl1 by (unfold load; by rewrite Hp1, Ep).
  destruct (flush_pending_spec 64 s1 segs n s2 HR1 ltac:(lia) E2) as [_ (g2 & F2)].
  rewrite Hp1 in F2. set (k := Nat.min _ _) in F2.
  assert (1 <= k <= length (f :: rest))%nat as Hk
    by (unfold k; change (Z.to_nat 64) with 64%nat; cbn [length]; lia).
  assert (pending s2 = drop k (f :: rest)) as Hp2
    by (unfold pending; rewrite (fl_queue _ _ _ _ _ F2); cbn; by rewrite Hp1).
  destruct (IH s2 g2 (fl_rec _ _ _ _ _ F2)) as (g3 & F3); [|pose proof (fl_load _ _ _ _ _ F2); lia|exact E|].
  { rewrite Hp2, length_drop. lia. }
  exists g3. rewrite Hp2, length_drop in F3. pose proof (flushed_trans _ _ _ _ _ _ _ _ F2 F3) as F.
  replace (k + (length (f :: rest) - k))%nat with (length (f :: rest)) in F by lia.
  destruct F as [F1 F4 F5 F6 F7 F8].
  assert (rp_queue (sys_rp s1) = rp_queue (sys_rp s) /\ rp_metadata (sys_rp s1) = rp_metadata (sys_rp s)) as [Hq1 Hm1]
    by (unfold core in *; split; congruence).
  constructor; [done|by rewrite F4, Hp1, Ep|by rewrite F5, Hp1, Ep, Hq1|lia|by rewrite F7|].
  intros base Hd. by apply F8, (Doc_core base s).
Qed.

(** The last flush moves the buffer of the open segment to its file. *)
Lemma flush_writer_Rec s segs u s' :
  Rec s segs -> Z.of_nat (length segs) < 2 ^ 64 -> flush_writer s = (Ok u, s') ->
  Rec s' segs /\ rp_queue (sys_rp s') = rp_queue (sys_rp s) /\ Forall (stored (sys_fs s')) segs /\
  rp_metadata (sys_rp s') = rp_metadata (sys_rp s) /\ (forall base, Doc base s segs -> Doc base s' segs).
Proof.
  intros HR Hlen. unfold flush_writer. intros (p & s0 & [= <- <-] & E)%ebind_Ok.
  pose proof (rec_holds _ _ HR) as Hh. unfold holds in Hh.
  destruct (rp_writer (sys_rp s)) as [w|] eqn:Ew; [|injection E as _ <-; by split_and! ].
  destruct Hh as (closed & sg & -> & Hc & Hat). unfold on_writer in E.
  destruct (rw_flush (attach (sys_fs s) w)) as [[[]|e] w'] eqn:Ef; [|done]. injection E as _ <-.
  destruct (flush_segment _ _ _ _ _ Hat Ef) as (Hat' & Hsame & Hbuf).
  pose proof (Rec_open_distinct _ _ _ HR Hlen) as Hd.
  assert (Forall (stored (seg_fs w')) closed) as Hc' by (by eapply stored_same).
  destruct HR as [H1 H2 H3 H4 H5 H6 _]. split; [|split; [done|split]].
  - constructor; try done. unfold holds. cbn -[stored segment_at sg_bytes].
    exists closed, sg. done.
  - cbn [sys_fs set_field]. apply Forall_app_2; [exact Hc'|]. constructor; [|constructor].
    destruct Hat' as (_ & _ & Hb). cbn [detach rw_writer bw_buf] in Hb. rewrite Hbuf, app_nil_r in Hb.
    exact Hb.
  - split; [done|]. intros base. apply Doc_same; [done|]. intros w1 _. by split; [exists w|].
Qed.

Lemma shutdown_drain_spec deadline s segs u s' :
  Rec s segs -> load s segs < 2 ^ 64 -> shutdown_drain clock to_json deadline s = (Ok u, s') ->
  exists segs', Rec s' segs' /\ pending s' = [] /\ recorded segs' = recorded segs ++ pending s /\
                Forall (stored (sys_fs s')) segs' /\ Z.of_nat (length segs') < 2 ^ 64 /\
                rp_metadata (sys_rp s') = rp_metadata (sys_rp s) /\ (forall base, Doc base s segs -> Doc base s' segs').
Proof.
  intros HR Hload. unfold shutdown_drain. intros E.
  apply ebind_Ok in E as ([] & s1 & E1 & E). destruct (quiet_Rec _ _ _ _ _ (quiet_event _) E1 HR) as [HR1 Hc1].
  apply ebind_Ok in E as (p & s2 & [= <- <-] & E). apply ebind_Ok in E as ([] & s2 & E2 & E).
  assert (pending s1 = pending s) as Hp1 by (unfold pending, core in *; congruence).
  destruct (drain_loop_spec _ deadline s1 segs tt s2 HR1 (Nat.lt_succ_diag_r _)) as (g & F);
    [by unfold load; rewrite Hp1|exact E2|].
  pose proof F as [HR2 Hr2 Hq2 Hl2 Hm2 Hd2].
  apply ebind_Ok in E as ([] & s3 & E3 & E).
  destruct (flush_writer_Rec s2 g tt s3 HR2) as (HR3 & Hq3 & Hst & Hm3 & Hd3); [unfold load in *; rewrite Hp1 in *; lia|exact E3|].
  destruct (quiet_Rec _ _ _ _ _ (quiet_event _) E HR3) as [HR4 Hc4]. pose proof Hc4 as [= Hfs _ Hq4 _ Hm4 _ _].
  exists g. split_and! ; [done|..].
  - unfold pending. rewrite Hq4, Hq3, Hq2. cbn. apply drop_ge. done.
  - rewrite Hr2, Hp1. f_equal. apply take_ge. done.
  - by rewrite Hfs.
  - unfold load in *. rewrite Hp1 in *. lia.
  - rewrite Hm4, Hm3, Hm2. unfold core in Hc1. congruence.
  - intros base Hd. by apply (Doc_core base s3), Hd3, Hd2, (Doc_core base s).
Qed.

(** ** Enqueueing *)

Lemma recording_push_err f q e q' : recording_push f q = (Err e, q') -> q' = q.
Proof.
  unfold recording_push. eff_unfold. destruct (_ <? _); [done|].
  destruct (rq_policy q); intros [=]; done.
Qed.

Lemma recording_push_items f q o q' :
  recording_push f q = (Ok o, q') -> frame_ok f -> Forall frame_ok (rq_items q) ->
  Forall frame_ok (rq_items q') /\ (length (rq_items q') <= length (rq_items q) + 1)%nat.
Proof.
  unfold recording_push. eff_unfold. intros E Hf Hq.
  destruct (_ <? _); [|destruct (rq_policy q)]; simplify_eq; cbn.
  - split; [apply Forall_app_2; auto|rewrite length_app; done].
  - split; [done|lia].
  - split; [apply Forall_app_2; [by apply Forall_drop|auto]|rewrite length_app, length_drop; cbn; lia].
Qed.

Lemma enqueue_spec f s segs r s' :
  Rec s segs -> frame_ok f -> enqueue clock f s = (r, s') ->
  Rec s' segs /\ (length (pending s') <= length (pending s) + 1)%nat /\
  match r with
  | Ok o => recording_push f (rp_queue (sys_rp s)) = (Ok o, rp_queue (sys_rp s'))
  | Err _ => rp_queue (sys_rp s') = rp_queue (sys_rp s)
  end /\ rp_metadata (sys_rp s') = rp_metadata (sys_rp s) /\ (forall base, Doc base s segs -> Doc base s' segs).
Proof.
  intros HR Hf. unfold enqueue.
  assert (forall A (m : Pipe A) s1, quiet m -> core (snd (m s1)) = core s1) as Hquiet by (intros A m s1 Hq; apply Hq).
  assert (forall s1, core s1 = core s -> Rec s1 segs /\ rp_queue (sys_rp s1) = rp_queue (sys_rp s) /\
    (length (pending s1) <= length (pending s) + 1)%nat /\ rp_metadata (sys_rp s1) = rp_metadata (sys_rp s) /\
    (forall base, Doc base s segs -> Doc base s1 segs)) as Hsame.
  { intros s1 Hc. split; [by eapply Rec_core|]. pose proof (fun base => Doc_core base s s1 segs Hc) as Hd. unfold pending, core in *.
    assert (rp_queue (sys_rp s1) = rp_queue (sys_rp s)) as -> by congruence. split_and! ; [done|lia|congruence|done]. }
  unfold ebind at 1. pose proof (quiet_refresh s) as H1.
  destruct (refresh_disk_pressure clock s) as [[[]|e] s1]; cbn [snd] in H1.
  2: { intros [= <- <-]. destruct (Hsame s1 H1) as (? & ? & ? & ? & ?). done. }
  unfold ebind at 1. pose proof (quiet_fail_closed s1) as H2.
  destruct (fail_closed_if_disk_full s1) as [[[]|e] s2]; cbn [snd] in H2.
  2: { intros [= <- <-]. destruct (Hsame s2 ltac:(congruence)) as (? & ? & ? & ? & ?). done. }
  destruct (Hsame s2 ltac:(congruence)) as (HR2 & Hq2 & _ & Hm2 & Hd2).
  unfold ebind at 1. unfold on_queue at 1. rewrite Hq2.
  destruct (recording_push f (rp_queue (sys_rp s))) as [[o|e] q] eqn:Ep.
  - destruct (recording_push_items f _ o q Ep Hf (rec_queue _ _ HR)) as [Hq Hlen].
    match goal with |- ebind _ _ ?x = _ -> _ => set (s3 := x) end.
    assert (Rec s3 segs) as HR3 by (by apply pop_Rec).
    unfold ebind at 1. unfold rp at 1. unfold ebind.
    pose proof (quiet_events (overflow_events o (rq_dropped_total (rp_queue (sys_rp s3)))) s3) as H4.
    assert (forall l s0, exists s1, efor l push_event s0 = (Ok tt, s1)) as Hev.
    { induction l as [|x l IH]; intros s0; [by eexists|]. cbn [efor]. apply IH. }
    destruct (Hev (overflow_events o (rq_dropped_total (rp_queue (sys_rp s3)))) s3) as [s4 E4].
    rewrite E4 in *. cbn [snd] in H4. intros [= <- <-]. split; [by eapply Rec_core|].
    assert (rp_queue (sys_rp s4) = q /\ rp_metadata (sys_rp s4) = rp_metadata (sys_rp s2)) as [Hq4 Hm4]
      by (unfold core in H4; injection H4; split; congruence).
    unfold pending. rewrite Hq4. split_and! ; [done|done|congruence|]. intros base Hd. apply (Doc_core base s3); [done|].
    by apply pop_Doc, Hd2.
  - apply recording_push_err in Ep as ->. intros [= <- <-].
    split; [apply pop_Rec; [done|apply HR]|]. unfold pending. cbn. split_and! ; [lia|done|done|].
    intros base Hd. by apply pop_Doc, Hd2.
Qed.

(** The registry after a registration that succeeds. *)
Definition registered (l : list MetadataRecord) (m : MetadataRecord) : list MetadataRecord :=
  if decide (m ∈ l) then l else l ++ [m].

Lemma find_key_None m l : List.find (fun e => bool_decide (stable_key e = stable_key m)) l = None ->
  (stable_key m ∉ (stable_key <$> l)) /\ (m ∉ l).
Proof.
  intros Hf. assert (stable_key m ∉ (stable_key <$> l)) as Hk.
  { intros (x & Hx & Hin)%list_elem_of_fmap. apply list_elem_of_In in Hin. apply (List.find_none _ _ Hf) in Hin.
    by apply bool_decide_eq_false in Hin. }
  split; [done|]. intros Hin. apply Hk, list_elem_of_fmap. by exists m.
Qed.

(** Registering metadata, with a record in the open segment if there is one. *)
Lemma register_metadata_spec m s segs u s' :
  Rec s segs -> Z.of_nat (length segs) < 2 ^ 64 -> fits U64 (metadata_session_id m) ->
  register_metadata to_json m s = (Ok u, s') ->
  exists segs', Rec s' segs' /\ recorded segs' = recorded segs /\ rp_queue (sys_rp s') = rp_queue (sys_rp s) /\
    length segs' = length segs /\ rp_metadata (sys_rp s') = registered (rp_metadata (sys_rp s)) m /\
    (forall base, Doc base s segs -> Doc base s' segs').
Proof.
  intros HR Hlen Hm. unfold register_metadata. intros (p & s0 & [= <- <-] & E)%ebind_Ok. unfold registered.
  destruct (List.find _ _) as [existing|] eqn:Ef.
  { case_bool_decide as Ee; [|done]. subst existing. injection E as _ <-. apply List.find_some in Ef as [Hin _].
    apply list_elem_of_In in Hin. rewrite decide_True by done. by exists segs. }
  apply find_key_None in Ef as [Hk Hnin]. rewrite decide_False by done.
  apply ebind_Ok in E as (b & s1 & [= Eb <-] & E). apply ebind_Ok in E as ([] & s2 & E2 & E).
  injection E as _ <-.
  assert (forall r r', Rec r r' -> Rec (r ⟪ sys_rp := (sys_rp r) ⟪ rp_metadata := rp_metadata (sys_rp r) ++ [m] ⟫ ⟫) r') as Hadd.
  { intros r r' [H1 H2 H3 H4 H5 H6 H7]. constructor; try done. cbn. apply Forall_app_2; [done|]. by constructor. }
  destruct (rp_writer (sys_rp s)) as [w|] eqn:Ew.
  - apply ebind_Ok in E2 as ([] & s3 & E3 & E2). injection E2 as <-.
    set (ts := default 0 (rp_current_start_ts_ns (sys_rp s))) in *.
    assert (fits I64 ts) as Hts.
    { unfold ts. pose proof (rec_start _ _ HR) as Hs. destruct (rp_current_start_ts_ns (sys_rp s)); cbn.
      - by apply Hs.
      - unfold fits. cbn [int_min int_max]. lia. }
    assert (on_writer w (write_frame (meta_frame m ts b)) s = (Ok tt, s3)) as E3'.
    { rewrite <- E3. unfold on_writer. by rewrite (write_metadata_eq _ _ _ _ Eb). }
    destruct (on_writer_frame s segs w (meta_frame m ts b) false s3 HR Hlen (meta_frame_ok m ts b Hm Hts Eb) Ew E3')
      as (closed & sg & -> & HR3 & Hq3 & Hm3 & Hs3 & _).
    exists (closed ++ [sg_add sg false (meta_frame m ts b)]). split_and! ; [|..].
    + apply Hadd. apply (Rec_core s3); [reflexivity|exact HR3].
    + rewrite !recorded_app, !recorded_one, sg_add_data. by rewrite !app_nil_r.
    + done.
    + by rewrite !length_app.
    + cbn. by rewrite Hm3.
    + intros base Hd. apply (Doc_register base s); [cbn; by rewrite Hm3|done|done|done|by exists w|done].
  - injection E2 as <-. exists segs. split_and! ; [by apply Hadd|done..|]. intros base.
    by apply (Doc_register_closed base s _ segs m).
Qed.

(** ** Whole runs

    What the owner of a pipeline does with it, in any order. *)

Inductive PipeOp :=
| PipeEnqueue (f : PendingFrame)
| PipeFlush (max : Z)
| PipeRotate (start_ts_ns : Z)
| PipeRegister (m : MetadataRecord)
| PipeProbe (probe : nat -> option Z) (interval : Z).

Definition op_ok (op : PipeOp) : Prop :=
  match op with
  | PipeEnqueue f => frame_ok f
  | PipeRotate ts => fits I64 ts
  | PipeRegister m => fits U64 (metadata_session_id m)
  | PipeFlush _ | PipeProbe _ _ => True
  end.

(** A refused frame is reported to the caller, and the pipeline goes on. *)
Definition run_op (op : PipeOp) : Pipe (option (result EnqueueOutcome RecordingError)) :=
  match op with
  | PipeEnqueue f => fun s => let '(r, s') := enqueue clock f s in (Ok (Some r), s')
  | PipeFlush max => let! _ := flush_pending clock to_json max in eret None
  | PipeRotate ts => rotate_now clock to_json ts !; eret None
  | PipeRegister m => register_metadata to_json m !; eret None
  | PipeProbe probe interval => set_free_space_probe_with_interval probe interval !; eret None
  end.

Fixpoint run_ops (ops : list PipeOp) : Pipe (list (option (result EnqueueOutcome RecordingError))) :=
  match ops with
  | [] => eret []
  | op :: ops => let! o := run_op op in let! os := run_ops ops in eret (o :: os)
  end.

(** The specification: the frames on record, and the frames still queued, that
    the caller knows of from the outcomes it was given. *)
Definition ref_op (op : PipeOp) (o : option (result EnqueueOutcome RecordingError))
    (st : list PendingFrame * list PendingFrame) : list PendingFrame * list PendingFrame :=
  let '(done, queued) := st in
  match op, o with
  | PipeEnqueue f, Some (Ok EnqAccepted) => (done, queued ++ [f])
  | PipeEnqueue f, Some (Ok (EnqDroppedOldest _)) => (done, drop 1 queued ++ [f])
  | PipeFlush max, _ => (done ++ take (Z.to_nat max) queued, drop (Z.to_nat max) queued)
  | _, _ => st
  end.

Fixpoint ref_ops (ops : list PipeOp) (os : list (option (result EnqueueOutcome RecordingError)))
    (st : list PendingFrame * list PendingFrame) : list PendingFrame * list PendingFrame :=
  match ops, os with
  | op :: ops, o :: os => ref_ops ops os (ref_op op o st)
  | _, _ => st
  end.

(** The registry the caller knows of. *)
Definition ref_registry (l : list MetadataRecord) (op : PipeOp) : list MetadataRecord :=
  match op with PipeRegister m => registered l m | _ => l end.

Lemma take_min_length {A} k (l : list A) : take (Nat.min k (length l)) l = take k l.
Proof. rewrite <- take_take. by rewrite (take_ge l). Qed.
Lemma drop_min_length {A} k (l : list A) : drop (Nat.min k (length l)) l = drop k l.
Proof.
  destruct (Nat.min_spec k (length l)) as [[_ ->]|[? ->]]; [done|].
  by rewrite !drop_ge by lia.
Qed.

Lemma recording_push_ref f q o q' :
  recording_push f q = (Ok o, q') ->
  forall done, (done, rq_items q') = ref_op (PipeEnqueue f) (Some (Ok o)) (done, rq_items q).
Proof.
  unfold recording_push. eff_unfold. destruct (_ <? _); [|destruct (rq_policy q)]; by intros [= <- <-].
Qed.

(** Each operation is the reference operation. *)
Lemma run_op_spec op s segs o s' :
  Rec s segs -> op_ok op -> load s segs + 2 < 2 ^ 64 -> run_op op s = (Ok o, s') ->
  exists segs', Rec s' segs' /\ load s' segs' <= load s segs + 2 /\
    (recorded segs', pending s') = ref_op op o (recorded segs, pending s) /\
    rp_metadata (sys_rp s') = ref_registry (rp_metadata (sys_rp s)) op /\
    (forall base, Doc base s segs -> Doc base s' segs').
Proof.
  intros HR Hop Hload. destruct op as [f|max|ts|m|probe interval]; cbn [run_op op_ok] in *.
  - destruct (enqueue clock f s) as [r s1] eqn:E. intros [= <- <-].
    destruct (enqueue_spec f s segs r s1 HR Hop E) as (HR' & Hlen & Hq & Hm & Hd).
    exists segs. split; [done|]. split; [unfold load; lia|]. split; [|done]. destruct r as [o|e].
    + by apply recording_push_ref.
    + unfold pending. by rewrite Hq.
  - intros (n & s1 & E & [= <- <-])%ebind_Ok.
    destruct (flush_pending_spec max s segs n s1 HR ltac:(lia) E) as [_ (g & [H1 H2 H3 H4 H5 H6])].
    exists g. split; [done|]. split; [lia|]. split; [|done]. cbn [ref_op]. rewrite H2, take_min_length.
    f_equal. unfold pending at 1. rewrite H3. cbn [rq_items set_field]. apply drop_min_length.
  - intros (u & s1 & E & [= <- <-])%ebind_Ok.
    destruct (moves_rotate ts Hop s segs u s1 HR) as (g & [H1 H2 H3 H4 H5 H6] & _); [unfold load in *; lia|done|done|].
    exists g. split; [done|]. unfold load, pending in *. rewrite H2, H3, app_nil_r. split; [lia|done].
  - intros (u & s1 & E & [= <- <-])%ebind_Ok.
    destruct (register_metadata_spec m s segs u s1 HR) as (g & H1 & H2 & H3 & H4 & H5 & H6); [unfold load in *; lia|done|done|].
    exists g. split; [done|]. unfold load, pending in *. rewrite H2, H3. split; [lia|done].
  - intros [= <- <-]. exists segs. split; [by apply (Rec_core s)|]. split; [unfold load, pending; cbn; lia|].
    split; [done|]. split; [done|]. intros base. by apply Doc_core.
Qed.

Lemma run_ops_spec ops s segs os s' :
  Rec s segs -> Forall op_ok ops -> load s segs + 2 * Z.of_nat (length ops) < 2 ^ 64 ->
  run_ops ops s = (Ok os, s') ->
  exists segs', Rec s' segs' /\ load s' segs' <= load s segs + 2 * Z.of_nat (length ops) /\
    (recorded segs', pending s') = ref_ops ops os (recorded segs, pending s) /\
    rp_metadata (sys_rp s') = foldl ref_registry (rp_metadata (sys_rp s)) ops /\
    (forall base, Doc base s segs -> Doc base s' segs').
Proof.
  intros HR Hops. revert s segs os HR. induction Hops as [|op ops Hop _ IH]; intros s segs os HR Hload.
  { intros [= <- <-]. exists segs. split; [done|]. split; [cbn; lia|done]. }
  cbn [run_ops length] in *. intros (o & s1 & E1 & (os' & s2 & E2 & [= <- <-])%ebind_Ok)%ebind_Ok.
  destruct (run_op_spec op s segs o s1 HR Hop ltac:(lia) E1) as (g1 & HR1 & Hl1 & Hr1 & Hm1 & Hd1).
  destruct (IH s1 g1 os' HR1 ltac:(lia) E2) as (g2 & HR2 & Hl2 & Hr2 & Hm2 & Hd2).
  exists g2. split; [done|]. split; [lia|]. cbn [ref_ops foldl]. rewrite <- Hr1, <- Hm1. auto.
Qed.

Lemma validated_keys keys l : validate_metadata_registry to_json keys l = Ok tt ->
  NoDup (stable_key <$> l) /\ forall k, k ∈ (stable_key <$> l) -> k ∉ keys.
Proof.
  revert keys. induction l as [|m l IH]; intros keys; cbn [validate_metadata_registry].
  { intros _. split; [constructor|]. by intros k ?%not_elem_of_nil. }
  intros E. apply rbind_Ok in E as (b & _ & E). case_bool_decide as Hk; [done|]. destruct (IH _ E) as [Hnd Hdis].
  rewrite fmap_cons. split.
  - constructor; [|done]. intros Hin. apply (Hdis _ Hin). apply list_elem_of_here.
  - intros k [->|Hin]%elem_of_cons; [done|]. specialize (Hdis k Hin). by intros ?%(list_elem_of_further _ (stable_key m)).
Qed.

Lemma open_Rec probe_path cfg metadata fs ticks s fs' :
  Forall (fun m => fits U64 (metadata_session_id m)) metadata ->
  open_with_metadata clock to_json probe_path cfg metadata fs ticks = (Ok s, fs') ->
  Rec s [] /\ pending s = [] /\ rp_metadata (sys_rp s) = metadata /\ Doc metadata s [].
Proof.
  intros Hm. unfold open_with_metadata. destruct (_ =? 0); [done|].
  destruct (validate_metadata_registry _ _ _) as [[]|] eqn:Ev; [|done]. apply validated_keys in Ev as [Hnd _].
  destruct (fs_mkdir _ _) as [[]]; [|done].
  destruct (probe_directory_writable _ _) as [[]]; [|done]. intros [= <- <-].
  split; [|split; [done|split; [done|]]]; constructor; cbn; done || constructor.
Qed.

(** The segments a reader finds in the files. *)
Definition readable (fs : FS) (p : list Z) (ts : Z) (frames : list PendingFrame) : Prop :=
  exists rd, from_bytes (fs_read fs p) = Ok rd /\ rd_start_ts_ns rd = ts /\
             fst (read_all rd) = Some (Ok (record_of <$> frames)).

Lemma stored_readable fs sg : sg_ok sg -> stored fs sg -> readable fs (sg_path sg) (sg_ts sg) (sg_frames sg).
Proof.
  intros [Hts Hf] Hs. unfold readable. rewrite Hs. exact (read_segment _ _ Hts Hf).
Qed.

Lemma Rec_paths_distinct s segs :
  Rec s segs -> Z.of_nat (length segs) < 2 ^ 64 -> NoDup (sg_path <$> segs).
Proof.
  intros HR Hlen. apply NoDup_alt. intros i j p Hi Hj. rewrite !list_lookup_fmap in *.
  destruct (segs !! i) as [a|] eqn:Ea; [|done]. destruct (segs !! j) as [b|] eqn:Eb; [|done].
  injection Hi as <-. injection Hj as Hj. rewrite (rec_paths _ _ HR _ _ Ea), (rec_paths _ _ HR _ _ Eb) in Hj.
  pose proof (lookup_lt_Some _ _ _ Ea). pose proof (lookup_lt_Some _ _ _ Eb).
  apply segment_path_inj in Hj; lia.
Qed.

(** C9. The recorder loses, duplicates and invents nothing: open a pipeline on any
    file system, run any sequence of enqueues, flushes, rotations, metadata
    registrations and probe changes in which only enqueues are refused, and
    shut down in time.  Then the segment files have distinct names and each
    reads back completely.  The recorded frames in them, in order, are exactly
    those that the outcomes of the enqueues promised to keep.  The other frames
    of each file are exactly the first records of the metadata registry, each
    once and in order: at least those the pipeline was opened with, and no
    others than those registered on the way, whose keys are distinct. *)
Theorem recording_end_to_end probe_path cfg metadata fs0 ticks s0 fs1 ops os s1 deadline s2 :
  Forall (fun m => fits U64 (metadata_session_id m)) metadata ->
  open_with_metadata clock to_json probe_path cfg metadata fs0 ticks = (Ok s0, fs1) ->
  Forall op_ok ops -> 2 * Z.of_nat (length ops) < 2 ^ 64 -> run_ops ops s0 = (Ok os, s1) ->
  shutdown_drain clock to_json deadline s1 = (Ok tt, s2) ->
  let registry := foldl ref_registry metadata ops in
  NoDup (stable_key <$> registry) /\
  exists segs,
    NoDup (sg_path <$> segs) /\
    Forall (fun sg => readable (sys_fs s2) (sg_path sg) (sg_ts sg) (sg_frames sg)) segs /\
    recorded segs = (ref_ops ops os ([], [])).1 ++ (ref_ops ops os ([], [])).2 /\
    Forall (fun sg => exists ms, metadata `prefix_of` ms /\ ms `prefix_of` registry /\ describes to_json ms sg) segs.
Proof.
  intros Hm Eo Hops Hlen Er Ed registry. destruct (open_Rec _ _ _ _ _ _ _ Hm Eo) as (HR0 & Hp0 & Hm0 & Hd0).
  assert (load s0 [] = 0) as Hl0 by (unfold load; by rewrite Hp0).
  destruct (run_ops_spec ops s0 [] os s1 HR0 Hops ltac:(lia) Er) as (g1 & HR1 & Hl1 & Hr1 & Hm1 & Hd1).
  rewrite Hp0 in Hr1. change (recorded []) with (@nil PendingFrame) in Hr1. rewrite Hm0 in Hm1. fold registry in Hm1.
  destruct (shutdown_drain_spec deadline s1 g1 tt s2 HR1 ltac:(lia) Ed) as (g2 & HR2 & Hp2 & Hr2 & Hst & Hlen2 & Hm2 & Hd2).
  destruct (Hd2 _ (Hd1 _ Hd0)) as [_ Hsegs _ Hkeys]. rewrite Hm2, Hm1 in Hsegs, Hkeys. split; [done|].
  exists g2. split_and! ; [by eapply Rec_paths_distinct| |by rewrite Hr2, <- Hr1|done].
  apply Forall_forall. intros sg Hsg. apply stored_readable.
  - by apply (proj1 (Forall_forall _ _) (rec_ok _ _ HR2)).
  - by apply (proj1 (Forall_forall _ _) Hst).
Qed.
End Durability.

(** ** Refusals

    Only the disk-pressure gate answers [DiskFull], and it answers before
    anything is written. *)

Definition never {S E A} (e : E) (m : Eff S E A) : Prop := forall s, fst (m s) <> Err e.

Section Refusals.
Context {FS : Type} `{FileSystem FS}.
Context (clock : nat -> Z) (to_json : MetadataRecord -> option (list Z)).

Lemma never_bind {S E A B} (e : E) (m : Eff S E A) (k : A -> Eff S E B) :
  never e m -> (forall a, never e (k a)) -> never e (ebind m k).
Proof.
  intros Hm Hk s. unfold ebind. specialize (Hm s). destruct (m s) as [[a|e'] s1]; [apply Hk|].
  intros [= ->]. by apply Hm.
Qed.
Lemma never_ok {S E A} (e : E) (m : Eff S E A) : (forall s, exists a, fst (m s) = Ok a) -> never e m.
Proof. intros Hm s. destruct (Hm s) as [a ->]. done. Qed.
Lemma never_io {S A} (m : Eff S string A) : never DiskFull (fun s => let '(r, s) := m s in (map_err Io r, s)).
Proof. intros s. by destruct (m s) as [[|] ?]. Qed.

Lemma never_put_self {W} `{Write W} l : never DiskFull (put_self (W := W) l).
Proof.
  intros w. unfold put_self, ezoom. pose proof (never_io (write_all l) (rw_writer w)) as Hp.
  unfold put. by destruct (write_all l (rw_writer w)) as [[|] ?].
Qed.

Lemma never_write_record {W} `{Write W} a b c d dir op f p :
  never DiskFull (write_record (W := W) a b c d dir op f p).
Proof.
  unfold write_record. apply never_bind; [by apply never_ok; eauto|]. intros self.
  destruct (negb _); [done|]. apply never_bind; [intros s; cbn; by destruct (to_ty _ _)|]. intros n.
  apply never_bind; [intros s; cbn; by destruct (to_ty _ _)|]. intros m.
  destruct (_ <? _); [done|]. unfold write_header.
  repeat first [apply never_put_self | apply never_bind; [|intros _] | by apply never_ok; intros s; eexists].
Qed.

Lemma never_encode_metadata {S} m : never DiskFull (elift (S := S) (encode_metadata to_json m)).
Proof.
  intros s. cbn. unfold encode_metadata. destruct (to_json m); cbn; [|done]. by destruct (_ <? _).
Qed.

Lemma never_on_writer {A} w (m : Eff (RawSegmentWriter (BufWriter (File FS))) RecordingError A) :
  never DiskFull m -> never DiskFull (on_writer w m).
Proof.
  intros Hm s. unfold on_writer. specialize (Hm (attach (sys_fs s) w)).
  by destruct (m (attach (sys_fs s) w)) as [r w'].
Qed.

Lemma never_write_all_metadata l ts n w : never DiskFull (write_all_metadata (FS := FS) to_json l ts n w).
Proof.
  revert n w. induction l as [|m l IH]; intros n w; [done|]. cbn [write_all_metadata].
  apply never_bind; [|intros r; apply IH]. intros s. unfold or_drop.
  match goal with |- context [ebind ?m ?k ?w0] => assert (never DiskFull (ebind m k)) as Hm end.
  { apply never_bind; [apply never_encode_metadata|]. intros b. apply never_bind; [|done].
    unfold write_metadata. apply never_bind; [apply never_encode_metadata|]. intros. apply never_write_record. }
  specialize (Hm (attach (sys_fs s) w)). destruct (ebind _ _ _) as [[|] ?]; [done|].
  intros [= ->]. by apply Hm.
Qed.

Lemma never_open_segment ts : never DiskFull (pl_open_segment (FS := FS) clock to_json ts).
Proof.
  unfold pl_open_segment. apply never_bind; [done|]. intros self.
  apply never_bind; [intros s; unfold io; by destruct (fs_mkdir _ _) as [[|] ?]|]. intros _.
  apply never_bind; [intros s; unfold io; by destruct (fs_create _ _) as [[|] ?]|]. intros _.
  apply never_bind; [|intros w; apply never_bind; [apply never_write_all_metadata|done]].
  intros s. unfold create, put, ebind. repeat destruct (write_all _ _) as [[|] ?]; done.
Qed.

Lemma never_close_segment : never DiskFull (close_segment (FS := FS)).
Proof.
  unfold close_segment. apply never_bind; [done|]. intros self. apply never_bind; [|done].
  destruct (rp_writer self) as [w|]; [|done]. apply never_bind; [done|]. intros _ s.
  unfold rw_flush. by destruct (flush _) as [[|] ?].
Qed.

Lemma never_close_rotated : never DiskFull (close_segment (FS := FS) !; rotated).
Proof. apply never_bind; [apply never_close_segment|done]. Qed.

Lemma never_rotate ts : never DiskFull (rotate_now (FS := FS) clock to_json ts).
Proof.
  unfold rotate_now. apply never_bind; [done|]. intros self. apply never_bind; [|intros; apply never_open_segment].
  destruct (rp_writer self); [apply never_close_rotated|done].
Qed.

(** The part of a frame's write that follows the gate. *)
Lemma write_frame_refused f (s : Sys FS) s' :
  pl_write_frame clock to_json f s = (Err DiskFull, s') -> core s' = core s.
Proof.
  unfold pl_write_frame. unfold ebind at 1. pose proof (quiet_refresh clock s) as H1.
  destruct (refresh_disk_pressure clock s) as [[[]|e] s1]; [|by intros [= _ <-]]. cbn [snd] in H1.
  unfold ebind at 1. pose proof (quiet_fail_closed s1) as H2.
  destruct (fail_closed_if_disk_full s1) as [[[]|e] s2]; [|intros [= _ <-]; cbn [snd] in H2; congruence].
  intros E. exfalso. revert E.
  match goal with |- ?m s2 = _ -> _ => assert (never DiskFull m) as Hm end.
  2: { specialize (Hm s2). intros E. apply Hm. by rewrite E. }
  apply never_bind.
  { unfold ensure_segment. apply never_bind; [done|]. intros p. destruct (rp_writer p); [done|apply never_open_segment]. }
  intros _. apply never_bind.
  { unfold should_rotate_before_write. apply never_bind; [done|]. intros p. by destruct (_ =? 0). }
  intros b. apply never_bind; [destruct b; [apply never_rotate|done]|]. intros _. apply never_bind; [done|].
  intros p. apply never_bind; [intros s3; cbn; by destruct (rp_writer p)|]. intros w.
  apply never_bind; [apply never_on_writer, never_write_record|]. intros _.
  apply never_bind; [done|]. intros _. apply never_bind; [done|]. intros _. apply never_bind; [done|].
  intros c. destruct c; [apply never_close_rotated|done].
Qed.

(** A pending frame that is refused for lack of space is not written, and
    nothing that was written changes. *)
Lemma write_pending_frame_refused f (s : Sys FS) s' :
  write_pending_frame clock to_json f s = (Err DiskFull, s') -> core s' = core s.
Proof.
  unfold write_pending_frame. unfold ebind at 1. pose proof (quiet_refresh clock s) as H1.
  destruct (refresh_disk_pressure clock s) as [[[]|e] s1]; [|by intros [= _ <-]]. cbn [snd] in H1.
  unfold ebind at 1. pose proof (quiet_fail_closed s1) as H2.
  destruct (fail_closed_if_disk_full s1) as [[[]|e] s2]; cbn [snd] in H2; [|intros [= _ <-]; congruence].
  intros E%write_frame_refused. congruence.
Qed.

(** An unthrottled probe that is read. *)
Lemma refresh_unthrottled (s : Sys FS) probe free :
  min_free_bytes (rp_cfg (sys_rp s)) <> 0 -> rp_free_space (sys_rp s) = Some probe ->
  rp_free_space_check_interval (sys_rp s) = 0 -> rp_disk_pressure_active (sys_rp s) = false ->
  probe (sys_probes s) = Some free ->
  exists s', refresh_disk_pressure clock s = (Ok tt, s') /\ core s' = core s /\
    sys_probes s' = S (sys_probes s) /\ rp_cfg (sys_rp s') = rp_cfg (sys_rp s) /\
    rp_free_space (sys_rp s') = Some probe /\ rp_free_space_check_interval (sys_rp s') = 0 /\
    rp_disk_pressure_active (sys_rp s') = (free <? min_free_bytes (rp_cfg (sys_rp s))).
Proof.
  intros Hmin Hp Hi Ha Hfree. unfold refresh_disk_pressure. unfold ebind at 1. cbn [rp].
  destruct (Z.eqb_spec (min_free_bytes (rp_cfg (sys_rp s))) 0); [done|]. rewrite Hp.
  assert (exists k, (match rp_last_free_space_check (sys_rp s) with
      | None => eret false
      | Some last => let! e := elapsed clock last in eret (e <? rp_free_space_check_interval (sys_rp s))
      end) s = (Ok false, s ⟪ sys_ticks := k ⟫)) as [k Ek].
  { destruct (rp_last_free_space_check (sys_rp s)) as [t|].
    - eexists. unfold elapsed, now, ebind, eret. rewrite Hi.
      destruct (Z.ltb_spec (Z.max 0 (clock (sys_ticks s) - t)) 0); [lia|]. reflexivity.
    - exists (sys_ticks s). by destruct s. }
  unfold ebind at 1. rewrite Ek. unfold ebind. cbn -[Z.ltb]. rewrite Hfree, Ha.
  destruct (free <? _); eexists; (split; [reflexivity|]); by rewrite ?Hp, ?Hi, ?Ha.
Qed.

(** The bounded flush of the pipeline itself can lose a frame under the
    policy that promises not to: when free space drops below the minimum
    between the check before the frame is taken off the queue and the check
    before it is written, the flush is refused, the frame is no longer queued,
    and no file has changed. *)
Theorem flush_pending_loses_frame (s : Sys FS) f rest probe max :
  pending s = f :: rest -> 0 < max ->
  overflow (rp_cfg (sys_rp s)) = FailEngine -> rp_disk_pressure_active (sys_rp s) = false ->
  rp_free_space (sys_rp s) = Some probe -> rp_free_space_check_interval (sys_rp s) = 0 ->
  (exists free, probe (sys_probes s) = Some free /\ min_free_bytes (rp_cfg (sys_rp s)) <= free) ->
  (exists free, probe (S (sys_probes s)) = Some free /\ free < min_free_bytes (rp_cfg (sys_rp s))) ->
  min_free_bytes (rp_cfg (sys_rp s)) <> 0 ->
  exists s', flush_pending clock to_json max s = (Err DiskFull, s') /\
    pending s' = rest /\ sys_fs s' = sys_fs s /\ rp_writer (sys_rp s') = rp_writer (sys_rp s).
Proof.
  intros Hp Hmax Hpol Ha Hpr Hi (f1 & Hf1 & Hge) (f2 & Hf2 & Hlt) Hmin.
  unfold flush_pending, ebind at 1. cbn [rp]. fold (pending s). cbn [flush_loop].
  destruct (Z.ltb_spec 0 max); [|lia].
  destruct (refresh_unthrottled s probe f1 Hmin Hpr Hi Ha Hf1) as (s1 & E1 & C1 & P1 & G1 & F1 & I1 & A1).
  destruct (Z.ltb_spec f1 (min_free_bytes (rp_cfg (sys_rp s)))); [lia|].
  unfold ebind at 1. rewrite E1. unfold ebind at 1. unfold fail_closed_if_disk_full at 1.
  unfold ebind at 1. cbn [rp]. rewrite A1. cbn [andb]. unfold eret at 1.
  assert (rp_queue (sys_rp s1) = rp_queue (sys_rp s)) as Hq by (unfold core in C1; congruence).
  unfold ebind at 1. unfold on_queue, recording_pop_front. rewrite Hq. fold (pending s). rewrite Hp. cbn [head].
  match goal with |- context [ebind _ _ ?x] => set (s2 := x) end.
  destruct (refresh_unthrottled s2 probe f2) as (s3 & E3 & C3 & P3 & G3 & F3 & I3 & A3);
    [cbn; congruence|done|done|done|cbn; congruence|].
  unfold ebind at 1. unfold pl_write_frame. unfold ebind at 1. rewrite E3.
  unfold ebind at 1. unfold fail_closed_if_disk_full at 1. unfold ebind at 1. cbn [rp].
  assert (rp_cfg (sys_rp s2) = rp_cfg (sys_rp s)) as G2 by exact G1.
  rewrite A3, G3, G2, Hpol. destruct (Z.ltb_spec f2 (min_free_bytes (rp_cfg (sys_rp s)))); [|lia].
  rewrite bool_decide_eq_true_2 by done. cbn [andb]. unfold ethrow. exists s3. split; [done|].
  unfold core in *. injection C3 as -> -> Hq3 _ _ _ _. unfold pending. rewrite Hq3.
  injection C1 as -> -> _ _ _ _ _. done.
Qed.
End Refusals.

(** ** A concrete recorder *)

(** Files in memory, the latest version of each first. *)
Abbreviation MemFs := (list (list Z * list Z)).

Fixpoint mem_fs_read (fs : MemFs) (p : list Z) : list Z :=
  match fs with
  | [] => []
  | (q, l) :: fs => if decide (q = p) then l else mem_fs_read fs p
  end.

#[export] Program Instance mem_fs : FileSystem MemFs := {|
  fs_mkdir := fun _ => eret tt;
  fs_create := fun p fs => (Ok tt, (p, []) :: fs);
  fs_write := fun p l fs => (Ok tt, (p, mem_fs_read fs p ++ l) :: fs);
  fs_remove := fun p fs => (Ok tt, filter (fun e => e.1 <> p) fs);
  fs_read := mem_fs_read
|}.
Next Obligation. done. Qed.
Next Obligation. intros p fs _. cbn. by rewrite decide_True. Qed.
Next Obligation. intros p p' fs Hp. cbn. by rewrite decide_False. Qed.
Next Obligation. intros p l fs. exists l, []. cbn. rewrite app_nil_r. by rewrite decide_True. Qed.
Next Obligation. intros p p' l fs Hp. cbn. by rewrite decide_False. Qed.
Next Obligation.
  intros p p' fs Hp. cbn. induction fs as [|[q l] fs IH]; [done|]. rewrite filter_cons. cbn.
  destruct (decide (q <> p)); cbn; [by rewrite IH|]. rewrite IH. by rewrite (decide_False (P := q = p')) by naive_solver.
Qed.

Definition sample_json (m : MetadataRecord) : option (list Z) := Some (bytes_of_string "{}").
Definition sample_build : MetadataRecord :=
  Build (mkBuildMetadata 1 "marketfeed" "0.1.0" None "linux" "x86_64").

(** A queue of two frames that drops the oldest, and segments of 150 bytes. *)
Definition sample_config : PipelineConfig :=
  mkPipelineConfig (bytes_of_string "/rec") 2 DropOldest (mkRotationConfig 150 0) 0.

Definition sample_open : Sys MemFs := Eval vm_compute in
  match open_with_metadata Z.of_nat sample_json (bytes_of_string "/rec/probe") sample_config
          [sample_build] [] 0 with
  | (Ok s, _) => s
  | (Err _, fs) => mkSys fs 0 0 (mkRecordingPipeline sample_config (mkRecordingQueue 0 DropOldest [] 0)
                     None None None 0 0 0 None 0 None false [] 0 0 0 [])
  end.

Definition sample_session : MetadataRecord :=
  Session (mkSessionRecordingMetadata 1 7 1 "binance" "live" "wss://stream" 1 [] []).

(** Three frames into a queue of two, a flush of one, a registration, and two
    more frames around a rotation. *)
Definition sample_ops : list PipeOp :=
  [PipeEnqueue (sample_frame 1 "first"); PipeEnqueue (sample_frame 2 "second");
   PipeEnqueue (sample_frame 3 "third"); PipeFlush 1; PipeRegister sample_session; PipeEnqueue (sample_frame 4 "fourth");
   PipeRotate 99; PipeFlush 5; PipeEnqueue (sample_frame 5 "fifth")].

Definition sample_run := Eval vm_compute in run_ops Z.of_nat sample_json sample_ops sample_open.
Definition sample_outcomes := match fst sample_run with Ok os => os | Err _ => [] end.
Definition sample_final : Sys MemFs := Eval vm_compute in
  snd (shutdown_drain Z.of_nat sample_json 1000 (snd sample_run)).

Lemma recording_end_to_end_witness :
  exists segs,
    NoDup (sg_path <$> segs) /\
    Forall (fun sg => readable (sys_fs sample_final) (sg_path sg) (sg_ts sg) (sg_frames sg)) segs /\
    pf_frame_seq <$> recorded segs = [2; 3; 4; 5] /\
    Forall (fun sg => exists ms, [sample_build] `prefix_of` ms /\ ms `prefix_of` [sample_build; sample_session] /\
                        describes sample_json ms sg) segs.
Proof.
  destruct (recording_end_to_end Z.of_nat sample_json) with
    (probe_path := bytes_of_string "/rec/probe") (cfg := sample_config) (metadata := [sample_build])
    (fs0 := ([] : MemFs)) (ticks := 0%nat) (s0 := sample_open) (fs1 := sys_fs sample_open)
    (ops := sample_ops) (os := sample_outcomes) (s1 := snd sample_run) (deadline := 1000)
    (s2 := sample_final) as (_ & segs & H1 & H2 & H3 & H4).
  - intros m b [= <-]. apply (bool_decide_unpack _). vm_compute. exact I.
  - repeat constructor; vm_compute; discriminate.
  - computed.
  - repeat constructor; apply (bool_decide_unpack _); vm_compute; exact I.
  - computed.
  - computed.
  - computed.
  - exists segs. split; [exact H1|]. split; [exact H2|]. split; [rewrite H3; computed|]. exact H4.
Defined.

(** Space runs out between the two checks of one flush. *)
Definition full_config : PipelineConfig :=
  mkPipelineConfig (bytes_of_string "/rec") 2 FailEngine (mkRotationConfig 0 0) 50.
Definition full_probe (n : nat) : option Z := Some (if (n <=? 1)%nat then 100 else 0).
Definition full_ops : list PipeOp := [PipeProbe full_probe 0; PipeEnqueue (sample_frame 1 "first")].
Definition full_state : Sys MemFs := Eval vm_compute in
  match open_with_metadata Z.of_nat sample_json (bytes_of_string "/rec/probe") full_config [] [] 0 with
  | (Ok s, _) => snd (run_ops Z.of_nat sample_json full_ops s)
  | (Err _, _) => sample_open
  end.

Lemma flush_pending_loses_frame_witness :
  pending full_state = [sample_frame 1 "first"] /\
  exists s', flush_pending Z.of_nat sample_json 5 full_state = (Err DiskFull, s') /\
    pending s' = [] /\ sys_fs s' = sys_fs full_state /\
    rp_writer (sys_rp s') = rp_writer (sys_rp full_state).
Proof.
  split; [computed|].
  apply (flush_pending_loses_frame Z.of_nat sample_json full_state (sample_frame 1 "first") []
           full_probe 5); try (computed).
  - exists 100. split; vm_compute; [reflexivity|discriminate].
  - exists 0. split; computed.
  - vm_compute. discriminate.
Defined.
