(* ===== verification/RecordingHandle.v ===== *)
(** * The shared recording handle ([RecordingHandle] of
      [crates/recording/src/pipeline.rs])

    Producers push into an ingress queue under one lock; the consumer moves
    frames to a pending list and writes them through the pipeline under
    another.  The methods are modelled as the sequence of their critical
    sections, and the theorems are about every interleaving of those. *)

From stdpp Require Import base tactics numbers strings option list sorting pretty.
From Stdlib Require Import ZArith Lia.
From S2P Require Import Prelude Bytes Fixed Model Dispatch Recording RecordingPipeline.

Local Open Scope Z_scope.

Record RecordingIngress := mkRecordingIngress {
  ri_queue : RecordingQueue;
  ri_last_reported_dropped : Z
}.

#[export] Instance eta_RecordingIngress : Eta RecordingIngress := fun i =>
  mkRecordingIngress (ri_queue i) (ri_last_reported_dropped i).

(** The consumer's pipeline comes with the files, clock and probe it uses. *)
Record RecordingConsumer (FS : Type) := mkRecordingConsumer {
  rc_pipeline : Sys FS;
  rc_pending : list PendingFrame
}.
Arguments mkRecordingConsumer {FS}.
Arguments rc_pipeline {FS}.
Arguments rc_pending {FS}.

#[export] Instance eta_RecordingConsumer FS : Eta (RecordingConsumer FS) := fun c =>
  mkRecordingConsumer (rc_pipeline c) (rc_pending c).

(** What the two mutexes of a handle protect; its clones share it. *)
Record RecordingHandle (FS : Type) := mkRecordingHandle {
  rh_ingress : RecordingIngress;
  rh_consumer : RecordingConsumer FS
}.
Arguments mkRecordingHandle {FS}.
Arguments rh_ingress {FS}.
Arguments rh_consumer {FS}.

#[export] Instance eta_RecordingHandle FS : Eta (RecordingHandle FS) := fun h =>
  mkRecordingHandle (rh_ingress h) (rh_consumer h).

Record RecordingSnapshot := mkRecordingSnapshot {
  rs_directory : list Z;
  rs_queue_len : Z;
  rs_rotations : Z;
  rs_records_written : Z;
  rs_dropped_total : Z;
  rs_disk_pressure : bool
}.

Section Handle.
Context {FS : Type} `{FileSystem FS}.
Context (clock : nat -> Z) (to_json : MetadataRecord -> option (list Z)).

Abbreviation Handle := (Eff (RecordingHandle FS) RecordingError).
Abbreviation Ingress := (Eff RecordingIngress RecordingError).
Abbreviation Consumer := (Eff (RecordingConsumer FS) RecordingError).

(** [None] is the panic of [RecordingQueue::new]. *)
Definition handle_new (pipeline : Sys FS) : option (RecordingHandle FS) :=
  let cfg := rp_cfg (sys_rp pipeline) in
  q ← recording_queue_new (queue_capacity cfg) (overflow cfg);
  Some (mkRecordingHandle (mkRecordingIngress q 0) (mkRecordingConsumer pipeline [])).

(** A critical section of either lock.  No code panics while it holds one, so
    neither is ever poisoned. *)
Definition lock_ingress {A} (m : Ingress A) : Handle A :=
  ezoom rh_ingress (fun i h => h ⟪ rh_ingress := i ⟫) m.
Definition lock_consumer {A} (m : Consumer A) : Handle A :=
  ezoom rh_consumer (fun c h => h ⟪ rh_consumer := c ⟫) m.

Definition ri_on_queue {A} (m : Eff RecordingQueue RecordingError A) : Ingress A :=
  ezoom ri_queue (fun q i => i ⟪ ri_queue := q ⟫) m.
Definition rc_on_pipeline {A} (m : Eff (Sys FS) RecordingError A) : Consumer A :=
  ezoom rc_pipeline (fun p c => c ⟪ rc_pipeline := p ⟫) m.

Definition h_set_free_space_probe (probe : nat -> option Z) : Handle unit :=
  lock_consumer (rc_on_pipeline (set_free_space_probe probe)).

Definition h_register_metadata (m : MetadataRecord) : Handle unit :=
  lock_consumer (rc_on_pipeline (register_metadata to_json m)).

Definition h_enqueue (frame : PendingFrame) : Handle EnqueueOutcome :=
  lock_ingress (ri_on_queue (recording_push frame)).

Definition h_rotate_now (start_ts_ns : Z) : Handle unit :=
  lock_consumer (rc_on_pipeline (rotate_now clock to_json start_ts_ns)).

(** [self.lock_ingress()?.queue.drain_front(max)]. *)
Definition ingress_drain (max : Z) : Ingress (list PendingFrame) :=
  ri_on_queue (fun q => let '(l, q) := drain_front max q in (Ok l, q)).

(** [write_pending_frame(frame)?] and the pop: the frame stays at the front
    when the write fails. *)
Definition write_front (frame : PendingFrame) : Consumer unit :=
  rc_on_pipeline (write_pending_frame clock to_json frame) !;
  emod (fun c => c ⟪ rc_pending := drop 1 (rc_pending c) ⟫).

(** [while written < max]; every pass pops, so one more than the pending
    frames is enough fuel. *)
Fixpoint consumer_loop (fuel : nat) (max written : Z) : Consumer Z :=
  match fuel with
  | O => eret written
  | S fuel =>
      if written <? max then
        let! c := eget in
        match rc_pending c with
        | [] => eret written
        | frame :: _ => write_front frame !; consumer_loop fuel max (written + 1)
        end
      else eret written
  end.

Definition rc_extend (incoming : list PendingFrame) : Consumer unit :=
  emod (fun c => c ⟪ rc_pending := rc_pending c ++ incoming ⟫).

(** The second critical section of [flush_pending]. *)
Definition consumer_flush (incoming : list PendingFrame) (max : Z) : Consumer Z :=
  rc_extend incoming !;
  let! c := eget in
  consumer_loop (S (length (rc_pending c))) max 0.

Definition h_flush_pending (max : Z) : Handle Z :=
  let! incoming := lock_ingress (ingress_drain max) in
  lock_consumer (consumer_flush incoming max).

(** The second critical section of a pass of [shutdown_drain]: the drain is
    complete, or one more frame is written. *)
Definition consumer_shutdown (moved : list PendingFrame) : Consumer bool :=
  rc_extend moved !;
  let! c := eget in
  match rc_pending c with
  | [] => rc_on_pipeline flush_writer !; eret true
  | frame :: _ => write_front frame !; eret false
  end.

Definition h_snapshot : Handle RecordingSnapshot :=
  let! i := lock_ingress (let! i := eget in
              eret (recording_queue_len (ri_queue i), rq_dropped_total (ri_queue i))) in
  lock_consumer (
    let! c := eget in
    let p := sys_rp (rc_pipeline c) in
    eret {| rs_directory := directory (rp_cfg p);
            rs_queue_len := i.1 + Z.of_nat (length (rc_pending c));
            rs_rotations := rp_rotations p;
            rs_records_written := rp_records_written p;
            rs_dropped_total := i.2;
            rs_disk_pressure := rp_disk_pressure_active p |}).

(** [shutdown_drain] when no one else uses the handle: every pass but the last
    writes a frame.  The deadline is read outside the locks. *)
Fixpoint shutdown_loop (fuel : nat) (deadline : Z) : Handle unit :=
  match fuel with
  | O => eret tt
  | S fuel =>
      let! t := lock_consumer (rc_on_pipeline (now clock)) in
      if deadline <=? t then
        let! s := h_snapshot in ethrow (ShutdownTimeout (rs_queue_len s))
      else
        let! moved := lock_ingress (ingress_drain 4096) in
        let! finished := lock_consumer (consumer_shutdown moved) in
        if (finished : bool) then eret tt else shutdown_loop fuel deadline
  end.

Definition h_shutdown_drain (deadline : Z) : Handle unit :=
  let! h := eget in
  shutdown_loop (S (length (rq_items (ri_queue (rh_ingress h))) + length (rc_pending (rh_consumer h)))) deadline.

Definition take_overflow_events : Ingress (list SystemEvent) :=
  let! ingress := eget in
  let dropped_total := rq_dropped_total (ri_queue ingress) in
  let dropped := saturating_sub U64 dropped_total (ri_last_reported_dropped ingress) in
  if dropped =? 0 then eret []
  else
    emod (fun i => i ⟪ ri_last_reported_dropped := dropped_total ⟫) !;
    eret [QueuePressure "recording queue full";
          EventsDropped dropped ("recording_queue dropped_total=" +:+ pretty dropped_total)].
End Handle.

(** ** Interleavings

    The state of a system of threads that share a handle: the handle, and the
    batches that consumers have taken from the ingress queue and not yet
    delivered, oldest first. *)

Section Interleaving.
Context {FS : Type} `{FileSystem FS}.
Context (clock : nat -> Z) (to_json : MetadataRecord -> option (list Z)).

Hypothesis json_bytes : forall m b, to_json m = Some b -> bytes_ok b.

(** What an observer of the threads sees. *)
Inductive HandleEvent :=
| EvEnqueue (f : PendingFrame) (r : result EnqueueOutcome RecordingError)
| EvDrain (max : Z)
| EvConsume
| EvRegister (m : MetadataRecord)
| EvOther.

(** The outcomes after which the recording goes on: success, or the refusal to
    write while there is no space. *)
Definition benign {A} (r : result A RecordingError) : Prop :=
  match r with Ok _ => True | Err e => e = DiskFull end.

Definition Threads : Type := RecordingHandle FS * list (list PendingFrame).

(** One critical section of some thread.  [ordered] says that batches are
    delivered in the order in which they were taken, which a single consumer
    guarantees. *)
Inductive handle_step (ordered : bool) : Threads -> HandleEvent -> Threads -> Prop :=
| step_enqueue f r h h' fl :
    frame_ok f -> h_enqueue f h = (r, h') ->
    handle_step ordered (h, fl) (EvEnqueue f r) (h', fl)
| step_drain max batch h h' fl :
    lock_ingress (ingress_drain max) h = (Ok batch, h') ->
    handle_step ordered (h, fl) (EvDrain max) (h', fl ++ [batch])
| step_flush l1 batch l2 max r h h' :
    (ordered = true -> l1 = []) ->
    lock_consumer (consumer_flush clock to_json batch max) h = (r, h') -> benign r ->
    handle_step ordered (h, l1 ++ batch :: l2) EvConsume (h', l1 ++ l2)
| step_shutdown l1 batch l2 r h h' :
    (ordered = true -> l1 = []) ->
    lock_consumer (consumer_shutdown clock to_json batch) h = (r, h') -> benign r ->
    handle_step ordered (h, l1 ++ batch :: l2) EvConsume (h', l1 ++ l2)
| step_rotate ts h h' fl :
    fits I64 ts -> h_rotate_now clock to_json ts h = (Ok tt, h') ->
    handle_step ordered (h, fl) EvOther (h', fl)
| step_register m h h' fl :
    fits U64 (metadata_session_id m) -> h_register_metadata to_json m h = (Ok tt, h') ->
    handle_step ordered (h, fl) (EvRegister m) (h', fl)
| step_probe probe h h' fl :
    h_set_free_space_probe probe h = (Ok tt, h') -> handle_step ordered (h, fl) EvOther (h', fl)
| step_clock t h h' fl :
    lock_consumer (rc_on_pipeline (now clock)) h = (Ok t, h') ->
    handle_step ordered (h, fl) EvOther (h', fl)
| step_overflow_events l h h' fl :
    lock_ingress take_overflow_events h = (Ok l, h') ->
    handle_step ordered (h, fl) EvOther (h', fl).

Inductive handle_run (ordered : bool) : Threads -> list HandleEvent -> Threads -> Prop :=
| run_nil t : handle_run ordered t [] t
| run_snoc t1 tr t2 ev t3 :
    handle_run ordered t1 tr t2 -> handle_step ordered t2 ev t3 ->
    handle_run ordered t1 (tr ++ [ev]) t3.

(** The specification: the frames that have left the ingress queue, and those
    that are in it, as the events tell. *)
Definition ref_event (st : list PendingFrame * list PendingFrame) (ev : HandleEvent)
    : list PendingFrame * list PendingFrame :=
  let '(taken, queued) := st in
  match ev with
  | EvEnqueue f (Ok EnqAccepted) => (taken, queued ++ [f])
  | EvEnqueue f (Ok (EnqDroppedOldest _)) => (taken, drop 1 queued ++ [f])
  | EvDrain max => (taken ++ take (Z.to_nat max) queued, drop (Z.to_nat max) queued)
  | _ => st
  end.
Definition ref_events (tr : list HandleEvent) : list PendingFrame * list PendingFrame :=
  foldl ref_event ([], []) tr.

(** The metadata registry, as the events tell. *)
Definition registry_event (l : list MetadataRecord) (ev : HandleEvent) : list MetadataRecord :=
  match ev with EvRegister m => registered l m | _ => l end.

(** Equality, or equality up to order. *)
Definition agree (ordered : bool) (l1 l2 : list PendingFrame) : Prop :=
  if ordered then l1 = l2 else Permutation l1 l2.

Lemma agree_refl ordered l : agree ordered l l.
Proof. by destruct ordered. Qed.
Lemma agree_trans ordered l1 l2 l3 : agree ordered l1 l2 -> agree ordered l2 l3 -> agree ordered l1 l3.
Proof. destruct ordered; cbn; [congruence|]. by intros -> ->. Qed.
Lemma agree_app ordered l1 l2 l : agree ordered l1 l2 -> agree ordered (l1 ++ l) (l2 ++ l).
Proof. destruct ordered; cbn; [congruence|]. by intros ->. Qed.

(** Delivering a batch that was not the oldest changes the order only. *)
Lemma agree_deliver ordered done l1 batch l2 :
  (ordered = true -> l1 = []) ->
  agree ordered (done ++ concat (l1 ++ batch :: l2)) (done ++ batch ++ concat (l1 ++ l2)).
Proof.
  intros Hl. destruct ordered; cbn; [by rewrite Hl|].
  rewrite !concat_app. cbn. f_equiv. rewrite !app_assoc. f_equiv. by rewrite Permutation_app_comm.
Qed.

(** The record and what is on its way to it. *)
Definition on_the_way (c : RecordingConsumer FS) (fl : list (list PendingFrame)) : list PendingFrame :=
  rc_pending c ++ concat fl.

Record HInv (ordered : bool) (n : nat) (t : Threads) (st : list PendingFrame * list PendingFrame)
    (segs : list Segment) : Prop := mkHInv {
  hi_rec : Rec (rc_pipeline (rh_consumer t.1)) segs;
  hi_frames : Forall frame_ok (on_the_way (rh_consumer t.1) t.2);
  hi_queue_ok : Forall frame_ok st.2;
  hi_queued : st.2 = rq_items (ri_queue (rh_ingress t.1));
  hi_taken : agree ordered st.1 (recorded segs ++ on_the_way (rh_consumer t.1) t.2);
  hi_count : (length segs + 2 * (length (on_the_way (rh_consumer t.1) t.2) + length st.2) <= 2 * n)%nat
}.

(** The metadata: the registry is [registry], and the segments hold what [Doc] says. *)
Definition HDoc (base registry : list MetadataRecord) (t : Threads) (segs : list Segment) : Prop :=
  Doc to_json base (rc_pipeline (rh_consumer t.1)) segs /\
  rp_metadata (sys_rp (rc_pipeline (rh_consumer t.1))) = registry.

(** ** The consumer *)

Lemma moves_write_pending f :
  frame_ok f -> moves to_json any (write_pending_frame clock to_json f) [f] 2 (fun _ => any).
Proof.
  intros Hf. unfold write_pending_frame.
  refine (moves_bind to_json _ _ _ [] [f] 0 2 _ _ (moves_quiet to_json any _ (quiet_refresh clock) core_any) (fun _ => _)).
  refine (moves_bind to_json _ _ _ [] [f] 0 2 _ _ (moves_quiet to_json any _ quiet_fail_closed core_any) (fun _ => _)).
  by apply moves_write_frame.
Qed.

(** [k] frames went from the front of the pending list to the end of the
    record. *)
Record delivered (c : RecordingConsumer FS) segs (c' : RecordingConsumer FS) segs' (k : nat) : Prop := {
  dl_rec : Rec (rc_pipeline c') segs';
  dl_frames : recorded segs' = recorded segs ++ take k (rc_pending c);
  dl_pending : rc_pending c' = drop k (rc_pending c);
  dl_le : (k <= length (rc_pending c))%nat;
  dl_count : (length segs' <= length segs + 2 * k)%nat;
  dl_meta : rp_metadata (sys_rp (rc_pipeline c')) = rp_metadata (sys_rp (rc_pipeline c));
  dl_doc : forall base, Doc to_json base (rc_pipeline c) segs -> Doc to_json base (rc_pipeline c') segs'
}.

Lemma delivered_none c c' segs :
  Rec (rc_pipeline c') segs -> rc_pending c' = rc_pending c ->
  rp_metadata (sys_rp (rc_pipeline c')) = rp_metadata (sys_rp (rc_pipeline c)) ->
  (forall base, Doc to_json base (rc_pipeline c) segs -> Doc to_json base (rc_pipeline c') segs) -> delivered c segs c' segs 0.
Proof. intros HR Hp Hm Hd. constructor; [done|by rewrite app_nil_r|done|lia|lia|done|done]. Qed.

Lemma delivered_trans c1 g1 c2 g2 c3 g3 k1 k2 :
  delivered c1 g1 c2 g2 k1 -> delivered c2 g2 c3 g3 k2 -> delivered c1 g1 c3 g3 (k1 + k2).
Proof.
  intros [A1 A2 A3 A4 A5 A6 A7] [B1 B2 B3 B4 B5 B6 B7]. rewrite A3 in *. rewrite length_drop in B4.
  constructor; [done| | |lia|lia|congruence|auto].
  - by rewrite B2, A2, <- app_assoc, take_take_drop.
  - by rewrite B3, drop_drop.
Qed.

Lemma write_front_spec c segs f rest r c' :
  Rec (rc_pipeline c) segs -> rc_pending c = f :: rest -> frame_ok f ->
  Z.of_nat (length segs + 2) < 2 ^ 64 -> write_front clock to_json f c = (r, c') -> benign r ->
  exists segs', delivered c segs c' segs' (match r with Ok _ => 1 | Err _ => 0 end).
Proof.
  intros HR Hp Hf Hlen. unfold write_front, rc_on_pipeline, ebind, ezoom.
  destruct (write_pending_frame clock to_json f (rc_pipeline c)) as [[[]|e] s'] eqn:E; intros [= <- <-] Hb.
  - destruct (moves_write_pending f Hf _ segs tt s' HR Hlen I E) as (g & [H1 H2 H3 H4 H5 H6] & _).
    exists g. constructor; [done|by rewrite Hp, H2|done|rewrite Hp; cbn; lia|lia|done|done].
  - cbn in Hb. subst e. apply write_pending_frame_refused in E. exists segs. apply delivered_none; [by eapply Rec_core|done| |].
    + unfold core in E. cbn. congruence.
    + intros base. by apply Doc_core.
Qed.

Lemma consumer_loop_spec fuel max n c segs r c' :
  Rec (rc_pipeline c) segs -> Forall frame_ok (rc_pending c) -> (length (rc_pending c) < fuel)%nat ->
  Z.of_nat (length segs + 2 * length (rc_pending c)) < 2 ^ 64 ->
  consumer_loop clock to_json fuel max n c = (r, c') -> benign r ->
  exists segs' k, delivered c segs c' segs' k.
Proof.
  revert n c segs. induction fuel as [|fuel IH]; intros n c segs HR Hf Hfuel Hlen; [lia|].
  cbn [consumer_loop]. destruct (n <? max).
  2: { intros [= <- <-] _. exists segs, 0%nat. by apply delivered_none. }
  unfold ebind at 1, eget. destruct (rc_pending c) as [|f rest] eqn:Hp.
  { intros [= <- <-] _. exists segs, 0%nat. by apply delivered_none. }
  cbn [length] in *. apply Forall_cons in Hf as [Hf Hrest]. unfold ebind.
  destruct (write_front clock to_json f c) as [r1 c1] eqn:E1.
  destruct r1 as [[]|e].
  2: { intros [= <- <-] Hb. destruct (write_front_spec c segs f rest _ c1 HR Hp Hf ltac:(lia) E1 Hb) as (g & D).
       by exists g, 0%nat. }
  intros E Hb. destruct (write_front_spec c segs f rest _ c1 HR Hp Hf ltac:(lia) E1 I) as (g & D).
  assert (rc_pending c1 = rest) as Hp1 by (rewrite (dl_pending _ _ _ _ _ D), Hp; done).
  destruct (IH (n + 1) c1 g (dl_rec _ _ _ _ _ D)) as (g2 & k & D2); rewrite ?Hp1; try done; [lia| |].
  { pose proof (dl_count _ _ _ _ _ D). lia. }
  exists g2, (1 + k)%nat. by eapply delivered_trans.
Qed.

(** A delivered batch keeps the invariant. *)
Lemma deliver_inv ordered n h l1 batch l2 st segs c' segs' k :
  HInv ordered n (h, l1 ++ batch :: l2) st segs -> (ordered = true -> l1 = []) ->
  delivered ((rh_consumer h) ⟪ rc_pending := rc_pending (rh_consumer h) ++ batch ⟫) segs c' segs' k ->
  HInv ordered n (h ⟪ rh_consumer := c' ⟫, l1 ++ l2) st segs'.
Proof.
  intros [H1 H2 H3 H4 H5 H6] Hl [D1 D2 D3 D4 D5 _ _]. cbn [fst snd rc_pending set_field] in *.
  set (c := rh_consumer h) in *.
  assert (Permutation (on_the_way c (l1 ++ batch :: l2)) ((rc_pending c ++ batch) ++ concat (l1 ++ l2))) as HP.
  { unfold on_the_way. rewrite <- (app_assoc _ batch). apply (agree_deliver false). done. }
  assert (length (on_the_way c (l1 ++ batch :: l2)) = k + length (on_the_way c' (l1 ++ l2)))%nat as Hk.
  { rewrite HP. unfold on_the_way. rewrite D3, (length_app (drop _ _)), length_drop, length_app. lia. }
  constructor; cbn [fst snd rh_consumer rh_ingress set_field]; try done.
  - rewrite HP in H2. apply Forall_app in H2 as [H2a H2b]. apply Forall_app_2; [|done].
    rewrite D3. by apply Forall_drop.
  - eapply agree_trans; [exact H5|]. unfold on_the_way. rewrite app_assoc.
    eapply agree_trans; [by apply agree_deliver|]. rewrite D2, D3.
    cbn [rc_pending set_field]. rewrite <- !app_assoc.
    rewrite (app_assoc (take _ _)), take_drop, <- app_assoc. apply agree_refl.
  - lia.
Qed.

Lemma deliver_doc base registry h fl fl' segs c' segs' l k : HDoc base registry (h, fl) segs ->
  delivered ((rh_consumer h) ⟪ rc_pending := l ⟫) segs c' segs' k -> HDoc base registry (h ⟪ rh_consumer := c' ⟫, fl') segs'.
Proof. intros [Hd Hm] D. split; [by apply (dl_doc _ _ _ _ _ D)|]. rewrite <- Hm. exact (dl_meta _ _ _ _ _ D). Qed.

(** The bounds under which a delivery goes through. *)
Lemma HInv_extended ordered n h l1 batch l2 st segs :
  HInv ordered n (h, l1 ++ batch :: l2) st segs -> Z.of_nat (2 * n) < 2 ^ 64 ->
  let c := (rh_consumer h) ⟪ rc_pending := rc_pending (rh_consumer h) ++ batch ⟫ in
  Rec (rc_pipeline c) segs /\ Forall frame_ok (rc_pending c) /\
  Z.of_nat (length segs + 2 * length (rc_pending c)) < 2 ^ 64.
Proof.
  intros [H1 H2 H3 H4 H5 H6] Hn c. unfold c. cbn [fst snd rc_pending rc_pipeline set_field] in *.
  unfold on_the_way in *. rewrite !concat_app in *. cbn [concat] in *.
  split; [done|]. split.
  - rewrite !Forall_app in *. tauto.
  - rewrite !length_app in *. lia.
Qed.

Lemma consumer_flush_inv ordered n h l1 batch l2 max st segs r h' :
  HInv ordered n (h, l1 ++ batch :: l2) st segs -> Z.of_nat (2 * n) < 2 ^ 64 -> (ordered = true -> l1 = []) ->
  lock_consumer (consumer_flush clock to_json batch max) h = (r, h') -> benign r ->
  exists segs', HInv ordered n (h', l1 ++ l2) st segs' /\
    forall base registry, HDoc base registry (h, l1 ++ batch :: l2) segs -> HDoc base registry (h', l1 ++ l2) segs'.
Proof.
  intros HI Hn Hl. destruct (HInv_extended _ _ _ _ _ _ _ _ HI Hn) as (HR & Hf & Hlen).
  unfold lock_consumer, ezoom, consumer_flush, rc_extend. unfold ebind at 1, emod. unfold ebind at 1, eget.
  destruct (consumer_loop _ _ _ _ _ _) as [r1 c1] eqn:E. intros [= <- <-] Hb.
  destruct (consumer_loop_spec _ _ _ _ segs r1 c1 HR Hf (Nat.lt_succ_diag_r _) Hlen E Hb) as (g & k & D).
  exists g. split; [by eapply deliver_inv|]. intros base registry Hd. by eapply deliver_doc.
Qed.

(** A completed shutdown leaves the pending list empty and every segment on
    disk. *)
Lemma consumer_shutdown_spec c segs r c' batch :
  Rec (rc_pipeline c) segs -> Forall frame_ok (rc_pending c ++ batch) ->
  Z.of_nat (length segs + 2 * length (rc_pending c ++ batch)) < 2 ^ 64 ->
  consumer_shutdown clock to_json batch c = (r, c') -> benign r ->
  exists segs' k, delivered (c ⟪ rc_pending := rc_pending c ++ batch ⟫) segs c' segs' k /\
    (r = Ok true -> rc_pending c' = [] /\ Forall (stored (sys_fs (rc_pipeline c'))) segs').
Proof.
  intros HR Hf Hlen. unfold consumer_shutdown, rc_extend. unfold ebind at 1, emod. unfold ebind at 1, eget.
  set (c1 := c ⟪ rc_pending := rc_pending c ++ batch ⟫).
  assert (rc_pending c1 = rc_pending c ++ batch) as Hc1 by done. rewrite <- Hc1 in Hf, Hlen.
  destruct (rc_pending c1) as [|f rest] eqn:Hp.
  - unfold ebind, rc_on_pipeline, ezoom. destruct (flush_writer (rc_pipeline c1)) as [[[]|e] s'] eqn:E.
    + intros [= <- <-] _. destruct (flush_writer_Rec to_json _ segs tt s' HR ltac:(cbn in Hlen; lia) E) as (HR' & _ & Hst & Hm & Hd).
      exists segs, 0%nat. split; [by apply delivered_none|]. intros _. by rewrite <- Hp.
    + intros [= <- <-] Hb. cbn in Hb. subst e. exfalso. revert E. unfold flush_writer, ebind. cbn [rp].
      destruct (rp_writer _) as [w|]; [|done]. unfold on_writer, rw_flush. by destruct (flush _) as [[|] ?].
  - apply Forall_cons in Hf as [Hf Hrest]. cbn [length] in Hlen. unfold ebind at 1.
    destruct (write_front clock to_json f c1) as [r1 c2] eqn:E1.
    assert (benign r1 -> exists g, delivered c1 segs c2 g (match r1 with Ok _ => 1 | Err _ => 0 end)) as Hd.
    { intros Hb. exact (write_front_spec c1 segs f rest r1 c2 HR Hp Hf ltac:(lia) E1 Hb). }
    destruct r1 as [[]|e]; intros [= <- <-] Hb; destruct (Hd Hb) as (g & D); exists g; eexists; by split.
Qed.

Lemma consumer_shutdown_inv ordered n h l1 batch l2 st segs r h' :
  HInv ordered n (h, l1 ++ batch :: l2) st segs -> Z.of_nat (2 * n) < 2 ^ 64 -> (ordered = true -> l1 = []) ->
  lock_consumer (consumer_shutdown clock to_json batch) h = (r, h') -> benign r ->
  exists segs', HInv ordered n (h', l1 ++ l2) st segs' /\
    (r = Ok true -> rc_pending (rh_consumer h') = [] /\
       Forall (stored (sys_fs (rc_pipeline (rh_consumer h')))) segs') /\
    forall base registry, HDoc base registry (h, l1 ++ batch :: l2) segs -> HDoc base registry (h', l1 ++ l2) segs'.
Proof.
  intros HI Hn Hl. destruct (HInv_extended _ _ _ _ _ _ _ _ HI Hn) as (HR & Hf & Hlen).
  unfold lock_consumer, ezoom. destruct (consumer_shutdown _ _ _ _) as [r1 c1] eqn:E. intros [= <- <-] Hb.
  destruct (consumer_shutdown_spec (rh_consumer h) segs r1 c1 batch HR Hf Hlen E Hb) as (g & k & D & Hfin).
  exists g. split; [by eapply deliver_inv|]. split; [done|]. intros base registry Hd. by eapply deliver_doc.
Qed.

(** ** Every step *)

Lemma pipeline_doc base registry h fl segs s' segs' :
  moved to_json (rc_pipeline (rh_consumer h)) segs s' segs' [] 1 -> HDoc base registry (h, fl) segs ->
  HDoc base registry (h ⟪ rh_consumer := (rh_consumer h) ⟪ rc_pipeline := s' ⟫ ⟫, fl) segs'.
Proof. intros M [Hd Hm]. split; [by apply (moved_doc _ _ _ _ _ _ _ M)|]. cbn. by rewrite (moved_meta _ _ _ _ _ _ _ M). Qed.

(** A step of the pipeline that records nothing and opens at most one
    segment. *)
Lemma pipeline_inv ordered n h fl st segs s' segs' :
  HInv ordered n (h, fl) st segs -> moved to_json (rc_pipeline (rh_consumer h)) segs s' segs' [] 1 ->
  HInv ordered (S n) (h ⟪ rh_consumer := (rh_consumer h) ⟪ rc_pipeline := s' ⟫ ⟫, fl) st segs'.
Proof.
  intros [H1 H2 H3 H4 H5 H6] [M1 M2 _ M4 _ _]. rewrite app_nil_r in M2.
  constructor; try done; cbn [fst snd] in *.
  - by rewrite M2.
  - change (on_the_way _ fl) with (on_the_way (rh_consumer h) fl). lia.
Qed.

Lemma quiet_moved {A} (m : Eff (Sys FS) RecordingError A) s segs a s' :
  quiet m -> m s = (Ok a, s') -> Rec s segs -> moved to_json s segs s' segs [] 1.
Proof.
  intros Hq E HR. destruct (quiet_Rec m s a s' segs Hq E HR) as [HR' Hc]. pose proof Hc as [= _ _ Hqu _ Hm _ _].
  constructor; [done|by rewrite app_nil_r|done|lia|done|]. intros base. by apply Doc_core.
Qed.

Lemma HInv_more ordered n t st segs : HInv ordered n t st segs -> HInv ordered (S n) t st segs.
Proof. intros [H1 H2 H3 H4 H5 H6]. constructor; try done. lia. Qed.

Lemma handle_step_inv ordered n t ev t' st segs :
  handle_step ordered t ev t' -> HInv ordered n t st segs -> Z.of_nat (2 * S n) < 2 ^ 64 ->
  exists segs', HInv ordered (S n) t' (ref_event st ev) segs' /\
    forall base registry, HDoc base registry t segs -> HDoc base (registry_event registry ev) t' segs'.
Proof.
  intros Hs HI Hn. assert (Z.of_nat (2 * n) < 2 ^ 64) as Hn' by lia.
  pose proof (hi_count _ _ _ _ _ HI) as Hcount.
  destruct Hs as [f r h h' fl Hf E|max batch h h' fl E|l1 batch l2 max r h h' Hl E Hb|l1 batch l2 r h h' Hl E Hb
    |ts h h' fl Hts E|m h h' fl Hm E|probe h h' fl E|t h h' fl E|l h h' fl E]; destruct st as [taken queued].
  - destruct HI as [H1 H2 H3 H4 H5 H6]. cbn [fst snd] in *. exists segs. revert E. unfold h_enqueue, lock_ingress, ri_on_queue, ezoom.
    destruct (recording_push f (ri_queue (rh_ingress h))) as [[o|e] q] eqn:E; intros [= <- <-].
    + split; [|done]. destruct (recording_push_items f _ o q E Hf ltac:(by rewrite <- H4)) as [Hq Hlen].
      pose proof (recording_push_ref f _ o q E taken) as Href. rewrite <- H4 in Href, Hlen.
      assert (ref_event (taken, queued) (EvEnqueue f (Ok o)) = (taken, rq_items q)) as ->
        by (rewrite Href; by destruct o).
      constructor; try done. cbn [fst snd rh_consumer set_field] in *. lia.
    + split; [|done]. apply recording_push_err in E as ->. constructor; try done. cbn in *. lia.
  - destruct HI as [H1 H2 H3 H4 H5 H6]. cbn [fst snd] in *. exists segs. revert E.
    unfold lock_ingress, ingress_drain, ri_on_queue, ezoom, drain_front, recording_queue_len.
    set (items := rq_items (ri_queue (rh_ingress h))) in *. subst queued.
    assert (Z.to_nat (Z.min max (Z.of_nat (length items))) = Nat.min (Z.to_nat max) (length items)) as -> by lia.
    rewrite take_min_length, drop_min_length. intros [= <- <-].
    assert (on_the_way (rh_consumer h) (fl ++ [take (Z.to_nat max) items])
      = on_the_way (rh_consumer h) fl ++ take (Z.to_nat max) items) as Hway.
    { unfold on_the_way. by rewrite concat_app, <- app_assoc; cbn; rewrite app_nil_r. }
    pose proof (length_app (take (Z.to_nat max) items) (drop (Z.to_nat max) items)) as Hlen.
    rewrite take_drop in Hlen.
    split; [|done]. constructor; cbn [fst snd rh_consumer set_field]; rewrite ?Hway; try done.
    + apply Forall_app_2; [done|]. by apply Forall_take.
    + by apply Forall_drop.
    + rewrite app_assoc. by apply agree_app.
    + rewrite length_app. cbn [ref_event snd]. lia.
  - destruct (consumer_flush_inv _ _ _ _ _ _ _ _ _ _ _ HI Hn' Hl E Hb) as (g & HI' & Hd).
    exists g. split; [by apply HInv_more|exact Hd].
  - destruct (consumer_shutdown_inv _ _ _ _ _ _ _ _ _ _ HI Hn' Hl E Hb) as (g & HI' & _ & Hd).
    exists g. split; [by apply HInv_more|exact Hd].
  - revert E. unfold h_rotate_now, lock_consumer, rc_on_pipeline, ezoom.
    destruct (rotate_now clock to_json ts (rc_pipeline (rh_consumer h))) as [r s'] eqn:E. intros [= -> <-].
    destruct (moves_rotate clock to_json json_bytes ts Hts _ segs tt s' (hi_rec _ _ _ _ _ HI)) as (g & M & _);
      [cbn [fst snd] in *; lia|done|done|].
    exists g. split; [by eapply pipeline_inv|]. intros base registry. by apply pipeline_doc.
  - revert E. unfold h_register_metadata, lock_consumer, rc_on_pipeline, ezoom.
    destruct (register_metadata to_json m (rc_pipeline (rh_consumer h))) as [r s'] eqn:E. intros [= -> <-].
    destruct (register_metadata_spec to_json json_bytes m _ segs tt s' (hi_rec _ _ _ _ _ HI))
      as (g & M1 & M2 & M3 & M4 & M5 & M6); [cbn [fst snd] in *; lia|done|done|].
    exists g. split; [|intros base registry [Hd <-]; by split; [apply M6|]].
    destruct HI as [H1 H2 H3 H4 H5 H6]. constructor; try done; cbn [fst snd] in *; [by rewrite M2|].
    change (on_the_way _ fl) with (on_the_way (rh_consumer h) fl). cbn [ref_event snd]. lia.
  - injection E as <-. exists segs.
    pose proof (quiet_moved (set_free_space_probe probe) _ segs tt _ ltac:(done) eq_refl (hi_rec _ _ _ _ _ HI)) as M.
    split; [by eapply pipeline_inv|]. intros base registry. by apply pipeline_doc.
  - injection E as _ <-. exists segs.
    pose proof (quiet_moved (now clock) _ segs _ _ ltac:(done) eq_refl (hi_rec _ _ _ _ _ HI)) as M.
    split; [by eapply pipeline_inv|]. intros base registry. by apply pipeline_doc.
  - exists segs. revert E. unfold lock_ingress, ezoom, take_overflow_events. eff_unfold.
    destruct HI as [H1 H2 H3 H4 H5 H6].
    destruct (_ =? 0); intros [= <- <-]; (split; [|done]); constructor; cbn [fst snd rh_consumer set_field ref_event] in *;
      first [done|lia].
Qed.

Lemma handle_new_inv ordered metadata probe_path cfg fs0 ticks s0 fs1 h0 :
  Forall (fun m => fits U64 (metadata_session_id m)) metadata ->
  open_with_metadata clock to_json probe_path cfg metadata fs0 ticks = (Ok s0, fs1) ->
  handle_new s0 = Some h0 -> HInv ordered 0 (h0, []) ([], []) [] /\ HDoc metadata metadata (h0, []) [].
Proof.
  intros Hm Eo. destruct (open_Rec _ _ _ _ _ _ _ _ _ Hm Eo) as (HR & _ & Hreg & Hd). unfold handle_new.
  unfold recording_queue_new. destruct (_ <? _); [|done]. intros [= <-].
  split; [|done]. constructor; cbn; try done; try constructor. apply agree_refl.
Qed.

Lemma handle_run_inv ordered t0 tr t :
  HInv ordered 0 t0 ([], []) [] -> handle_run ordered t0 tr t -> Z.of_nat (2 * length tr) < 2 ^ 64 ->
  exists segs, HInv ordered (length tr) t (ref_events tr) segs /\
    forall base registry, HDoc base registry t0 [] -> HDoc base (foldl registry_event registry tr) t segs.
Proof.
  intros H0 Hrun. induction Hrun as [t0|t1 tr t2 ev t3 _ IH Hs]; intros Hlen; [by exists []|].
  rewrite length_app in *. cbn [length] in *. destruct (IH H0 ltac:(lia)) as (segs & HI & Hd).
  replace (length tr + 1)%nat with (S (length tr)) in * by lia.
  destruct (handle_step_inv ordered _ _ _ _ _ _ Hs HI Hlen) as (segs' & HI' & Hd').
  exists segs'. unfold ref_events. rewrite foldl_app. split; [done|]. intros base registry Hb. rewrite foldl_app. by apply Hd', Hd.
Qed.

(** C10. The shared handle loses, duplicates and invents nothing under any
    interleaving: let threads that share it enqueue, flush, rotate, register
    metadata, poll and shut down in any interleaving of their critical
    sections, where a refusal for lack of disk space may hit any write of a
    frame and every other call succeeds; when a shutdown completes with no
    batch in other hands, every segment file reads back, and the recorded
    frames are exactly the frames that left the ingress queue: in order if
    batches are delivered in the order they were taken, and up to order in any
    case.  The other frames of each file are exactly the first records of the
    metadata registry, each once and in order: at least those the pipeline was
    opened with, and no others than those registered on the way, whose keys are
    distinct. *)
Theorem handle_records_what_it_took ordered metadata probe_path cfg fs0 ticks s0 fs1 h0 tr h batch h' :
  Forall (fun m => fits U64 (metadata_session_id m)) metadata ->
  open_with_metadata clock to_json probe_path cfg metadata fs0 ticks = (Ok s0, fs1) ->
  handle_new s0 = Some h0 ->
  handle_run ordered (h0, []) tr (h, [batch]) -> Z.of_nat (2 * length tr) < 2 ^ 64 ->
  lock_consumer (consumer_shutdown clock to_json batch) h = (Ok true, h') ->
  let fs := sys_fs (rc_pipeline (rh_consumer h')) in
  let registry := foldl registry_event metadata tr in
  rq_items (ri_queue (rh_ingress h')) = (ref_events tr).2 /\ NoDup (stable_key <$> registry) /\
  exists segs,
    NoDup (sg_path <$> segs) /\
    Forall (fun sg => readable fs (sg_path sg) (sg_ts sg) (sg_frames sg)) segs /\
    agree ordered (ref_events tr).1 (recorded segs) /\
    Forall (fun sg => exists ms, metadata `prefix_of` ms /\ ms `prefix_of` registry /\ describes to_json ms sg) segs.
Proof.
  intros Hm Eo En Hrun Hlen Es fs registry. destruct (handle_new_inv ordered _ _ _ _ _ _ _ _ Hm Eo En) as [HI0 Hd0].
  destruct (handle_run_inv ordered _ tr _ HI0 Hrun Hlen) as (g & HI & Hd).
  destruct (consumer_shutdown_inv ordered _ h [] batch [] _ g _ h' HI Hlen (fun _ => eq_refl) Es I)
    as (g' & [H1 H2 H3 H4 H5 H6] & Hfin & Hd').
  destruct (Hd' _ _ (Hd _ _ Hd0)) as [[_ Hsegs _ Hkeys] Hreg]. fold registry in Hreg. cbn [fst] in *. rewrite Hreg in Hsegs, Hkeys.
  destruct (Hfin eq_refl) as [Hp Hst]. unfold on_the_way in H5. cbn [fst snd app concat] in H1, H5, H6, H4.
  rewrite Hp, app_nil_r in H5. split; [done|]. split; [done|]. exists g'. split; [|split; [|done]].
  - eapply Rec_paths_distinct; [exact H1|]. cbn in H6. lia.
  - apply Forall_forall. intros sg Hsg. apply stored_readable.
    + by apply (proj1 (Forall_forall _ _) (rec_ok _ _ H1)).
    + by apply (proj1 (Forall_forall _ _) Hst).
Qed.

(** ** The methods are runs of their critical sections *)

Lemma handle_run_app ordered t1 tr1 t2 tr2 t3 :
  handle_run ordered t1 tr1 t2 -> handle_run ordered t2 tr2 t3 -> handle_run ordered t1 (tr1 ++ tr2) t3.
Proof.
  intros H1. induction 1 as [t|t2 tr t3 ev t4 _ IH Hs]; [by rewrite app_nil_r|].
  rewrite app_assoc. eapply run_snoc; [by apply IH|done].
Qed.

Lemma handle_run_one ordered t ev t' : handle_step ordered t ev t' -> handle_run ordered t [ev] t'.
Proof. intros Hs. apply (run_snoc ordered t [] t ev t'); [constructor|done]. Qed.

Lemma flush_pending_run ordered max h r h' :
  h_flush_pending clock to_json max h = (r, h') -> benign r ->
  handle_run ordered (h, []) [EvDrain max; EvConsume] (h', []).
Proof.
  unfold h_flush_pending. unfold ebind.
  destruct (lock_ingress (ingress_drain max) h) as [[batch|e] h1] eqn:E1.
  2: { exfalso. revert E1. unfold lock_ingress, ingress_drain, ri_on_queue, ezoom. by destruct (drain_front _ _). }
  intros E2 Hb. change [EvDrain max; EvConsume] with ([EvDrain max] ++ [EvConsume]).
  eapply handle_run_app; apply handle_run_one; [exact (step_drain ordered max batch h h1 [] E1)|].
  by apply (step_flush ordered [] batch [] max r).
Qed.

Definition backlog (h : RecordingHandle FS) : nat :=
  length (rq_items (ri_queue (rh_ingress h))) + length (rc_pending (rh_consumer h)).

(** A pass that does not finish writes a frame. *)
Lemma shutdown_pass h1 batch h2 b h3 :
  lock_ingress (ingress_drain 4096) h1 = (Ok batch, h2) ->
  lock_consumer (consumer_shutdown clock to_json batch) h2 = (Ok b, h3) ->
  if b then rq_items (ri_queue (rh_ingress h3)) = [] else (backlog h3 < backlog h1)%nat.
Proof.
  unfold lock_ingress, ingress_drain, ri_on_queue, ezoom, drain_front, recording_queue_len.
  set (items := rq_items (ri_queue (rh_ingress h1))). set (k := Z.to_nat (Z.min 4096 _)). intros [= <- <-].
  unfold lock_consumer, ezoom, consumer_shutdown, rc_extend. unfold ebind at 1, emod. unfold ebind at 1, eget.
  set (c := _ ⟪ rc_pending := _ ⟫).
  assert (rc_pending c = rc_pending (rh_consumer h1) ++ take k items) as Hc by done.
  destruct (rc_pending c) as [|f rest] eqn:Hp; unfold ebind.
  - destruct (rc_on_pipeline flush_writer c) as [[[]|e] c1]; intros [= <- <-]. cbn.
    symmetry in Hc. apply app_eq_nil in Hc as [_ Ht]. apply (f_equal length) in Ht. rewrite length_take in Ht.
    assert (length items = 0)%nat as Hl by (cbn in Ht; unfold k in Ht; lia).
    apply nil_length_inv in Hl. fold items. by rewrite Hl, drop_nil.
  - destruct (write_front clock to_json f c) as [[[]|e] c1] eqn:E; intros [= <- <-].
    assert (rc_pending c1 = rest) as Hc1.
    { revert E. unfold write_front, rc_on_pipeline, ebind, ezoom.
      destruct (write_pending_frame _ _ _ _) as [[[]|] s']; intros [= <-]. cbn -[c].
      change (drop 1 (rc_pending c) = rest). by rewrite Hp. }
    unfold backlog. cbn -[c]. rewrite Hc1. fold items. rewrite length_drop.
    apply (f_equal length) in Hc. rewrite length_app, length_take in Hc. cbn in Hc. unfold k in *. lia.
Qed.

(** The shutdown loop ends within its fuel, with nothing left to write. *)
Theorem shutdown_loop_run ordered fuel deadline h h' :
  (backlog h < fuel)%nat -> shutdown_loop clock to_json fuel deadline h = (Ok tt, h') ->
  exists tr h1 batch, handle_run ordered (h, []) tr (h1, [batch]) /\
    lock_consumer (consumer_shutdown clock to_json batch) h1 = (Ok true, h') /\
    rq_items (ri_queue (rh_ingress h')) = [].
Proof.
  revert h. induction fuel as [|fuel IH]; intros h Hf; [lia|]. cbn [shutdown_loop].
  intros (t & h1 & E1 & E)%ebind_Ok. destruct (deadline <=? t).
  { apply ebind_Ok in E as (sn & h2 & _ & E). done. }
  apply ebind_Ok in E as (batch & h2 & E2 & E). apply ebind_Ok in E as (b & h3 & E3 & E).
  assert (backlog h1 = backlog h) as Hb1 by (by injection E1 as _ <-).
  pose proof (shutdown_pass h1 batch h2 b h3 E2 E3) as Hpass.
  assert (handle_run ordered (h, []) ([EvOther] ++ [EvDrain 4096]) (h2, [batch])) as Hrun.
  { eapply handle_run_app; apply handle_run_one; [by eapply step_clock|exact (step_drain ordered 4096 batch h1 h2 [] E2)]. }
  destruct b.
  - injection E as <-. eexists _, h2, batch. by split_and! .
  - destruct (IH h3 ltac:(lia) E) as (tr & h4 & batch' & Hr & Hfin & Hemp).
    exists (([EvOther] ++ [EvDrain 4096]) ++ [EvConsume] ++ tr), h4, batch'. split; [|done].
    eapply handle_run_app; [exact Hrun|]. eapply handle_run_app; [|exact Hr].
    apply handle_run_one. by apply (step_shutdown ordered [] batch [] (Ok false)).
Qed.
End Interleaving.

(** ** A concrete interleaving

    A producer enqueues three frames while a consumer takes the first; the
    consumer then flushes, and shuts down in three passes. *)

Definition after {A} (m : Eff (RecordingHandle MemFs) RecordingError A) (h : RecordingHandle MemFs)
  : RecordingHandle MemFs := snd (m h).

Definition one : PendingFrame := sample_frame 1 "first".
Definition two : PendingFrame := sample_frame 2 "second".
Definition three : PendingFrame := sample_frame 3 "third".

Definition shared_config : PipelineConfig :=
  mkPipelineConfig (bytes_of_string "/rec") 8 FailEngine (mkRotationConfig 150 0) 0.
Definition shared_open : Sys MemFs := Eval vm_compute in
  match open_with_metadata Z.of_nat sample_json (bytes_of_string "/rec/probe") shared_config
          [sample_build] [] 0 with
  | (Ok s, _) => s
  | (Err _, _) => sample_open
  end.
Definition shared0 : RecordingHandle MemFs := Eval vm_compute in
  default (mkRecordingHandle (mkRecordingIngress (mkRecordingQueue 0 FailEngine [] 0) 0)
             (mkRecordingConsumer shared_open [])) (handle_new shared_open).
Definition shared1 := Eval vm_compute in after (h_enqueue one) shared0.
Definition shared2 := Eval vm_compute in after (h_enqueue two) shared1.
Definition shared3 := Eval vm_compute in after (lock_ingress (ingress_drain 1)) shared2.
Definition shared4 := Eval vm_compute in after (h_enqueue three) shared3.
Definition shared5 := Eval vm_compute in after (lock_consumer (consumer_flush Z.of_nat sample_json [one] 1)) shared4.
Definition shared6 := Eval vm_compute in after (lock_ingress (ingress_drain 4096)) shared5.
Definition shared7 := Eval vm_compute in after (lock_consumer (consumer_shutdown Z.of_nat sample_json [two; three])) shared6.
Definition shared8 := Eval vm_compute in after (lock_consumer (consumer_shutdown Z.of_nat sample_json [])) shared7.
Definition shared9 := Eval vm_compute in after (lock_consumer (consumer_shutdown Z.of_nat sample_json [])) shared8.

Definition shared_trace : list HandleEvent :=
  [EvEnqueue one (Ok EnqAccepted); EvEnqueue two (Ok EnqAccepted); EvDrain 1;
   EvEnqueue three (Ok EnqAccepted); EvConsume; EvDrain 4096; EvConsume; EvDrain 4096; EvConsume;
   EvDrain 4096].

Lemma sample_json_bytes m b : sample_json m = Some b -> bytes_ok b.
Proof. intros [= <-]. apply (bool_decide_unpack _). vm_compute. exact I. Qed.

Ltac frame := apply (bool_decide_unpack _); vm_compute; exact I.

Lemma shared_run : handle_run Z.of_nat sample_json true (shared0, []) shared_trace (shared8, [[]]).
Proof.
  change shared_trace with (((((((((([] ++ [EvEnqueue one (Ok EnqAccepted)]) ++
    [EvEnqueue two (Ok EnqAccepted)]) ++ [EvDrain 1]) ++ [EvEnqueue three (Ok EnqAccepted)]) ++
    [EvConsume]) ++ [EvDrain 4096]) ++ [EvConsume]) ++ [EvDrain 4096]) ++ [EvConsume]) ++ [EvDrain 4096]).
  apply (run_snoc _ _ _ _ _ (shared8, [])); [|apply (step_drain _ _ _ 4096 [] _ _ []); computed].
  apply (run_snoc _ _ _ _ _ (shared7, [[]]));
    [|apply (step_shutdown _ _ _ [] [] [] (Ok false)); [done|computed|exact I]].
  apply (run_snoc _ _ _ _ _ (shared7, [])); [|apply (step_drain _ _ _ 4096 [] _ _ []); computed].
  apply (run_snoc _ _ _ _ _ (shared6, [[two; three]]));
    [|apply (step_shutdown _ _ _ [] [two; three] [] (Ok false)); [done|computed|exact I]].
  apply (run_snoc _ _ _ _ _ (shared5, []));
    [|apply (step_drain _ _ _ 4096 [two; three] _ _ []); computed].
  apply (run_snoc _ _ _ _ _ (shared4, [[one]]));
    [|apply (step_flush _ _ _ [] [one] [] 1 (Ok 1)); [done|computed|exact I]].
  apply (run_snoc _ _ _ _ _ (shared3, [[one]])); [|apply step_enqueue; [frame|computed]].
  apply (run_snoc _ _ _ _ _ (shared2, [])); [|apply (step_drain _ _ _ 1 [one] _ _ []); computed].
  apply (run_snoc _ _ _ _ _ (shared1, [])); [|apply step_enqueue; [frame|computed]].
  apply (run_snoc _ _ _ _ _ (shared0, [])); [|apply step_enqueue; [frame|computed]].
  constructor.
Qed.

Lemma handle_records_what_it_took_witness :
  rq_items (ri_queue (rh_ingress shared9)) = [] /\
  exists segs,
    NoDup (sg_path <$> segs) /\
    Forall (fun sg => readable (sys_fs (rc_pipeline (rh_consumer shared9)))
                        (sg_path sg) (sg_ts sg) (sg_frames sg)) segs /\
    [one; two; three] = recorded segs /\
    Forall (fun sg => exists ms, [sample_build] `prefix_of` ms /\ ms `prefix_of` [sample_build] /\ describes sample_json ms sg) segs.
Proof.
  destruct (handle_records_what_it_took Z.of_nat sample_json sample_json_bytes true [sample_build]
           (bytes_of_string "/rec/probe") shared_config [] 0 shared_open (sys_fs shared_open)
           shared0 shared_trace shared8 [] shared9) as (H1 & _ & H2).
  - repeat constructor; vm_compute; discriminate.
  - computed.
  - computed.
  - exact shared_run.
  - computed.
  - computed.
  - split; [exact H1|exact H2].
Defined.
