(* ===== verification/ProtobufWire.v ===== *)
(** * Protobuf encoding of events ([crates/sinks/src/protobuf_wire.rs])

    The hand-written proto3 encoder, a reference decoder that follows the
    protobuf encoding rules and [proto/marketfeed/v1/market_event.proto], and
    the proof that the decoder recovers what was encoded. *)

From stdpp Require Import base tactics numbers strings option list.
From Stdlib Require Import ZArith Lia.
From S2P Require Import Prelude Bytes Collections Fixed Text Model.

Local Open Scope Z_scope.

(** ** Wire primitives; each appends to [out] *)

Definition WIRE_VARINT : Z := 0.
Definition WIRE_LEN : Z := 2.

(** A [u64] has at most ten groups of seven bits. *)
Fixpoint write_varint_loop (fuel : nat) (out : list Z) (v : Z) : list Z :=
  match fuel with
  | O => out
  | S fuel =>
      if 0x80 <=? v then write_varint_loop fuel (out ++ [Z.lor (wrap U8 v) 0x80]) (Z.shiftr v 7)
      else out ++ [wrap U8 v]
  end.

Definition write_varint (out : list Z) (v : Z) : list Z := write_varint_loop 10 out v.

Definition write_key (out : list Z) (field wire : Z) : list Z :=
  write_varint out (Z.lor (Z.shiftl field 3) wire).

Definition write_u32 (out : list Z) (field v : Z) : list Z :=
  if v =? 0 then out else write_varint (write_key out field WIRE_VARINT) v.

Definition write_u64 (out : list Z) (field v : Z) : list Z :=
  if v =? 0 then out else write_varint (write_key out field WIRE_VARINT) v.

Definition write_i64 (out : list Z) (field v : Z) : list Z :=
  if v =? 0 then out else write_varint (write_key out field WIRE_VARINT) (wrap U64 v).

Definition write_enum (out : list Z) (field v : Z) : list Z :=
  if v =? 0 then out else write_varint (write_key out field WIRE_VARINT) (wrap U64 v).

Definition write_bytes (out : list Z) (field : Z) (bytes : list Z) : list Z :=
  let out := write_key out field WIRE_LEN in
  let out := write_varint out (wrap U64 (Z.of_nat (length bytes))) in
  out ++ bytes.

Definition write_string (out : list Z) (field : Z) (s : string) : list Z :=
  if String.eqb s "" then out else write_bytes out field (bytes_of_string s).

Definition write_msg (out : list Z) (field : Z) (msg : list Z) : list Z :=
  write_bytes out field msg.

(** [if let Some(x) = o { .. }]. *)
Definition if_some {A} (o : option A) (out : list Z) (f : list Z -> A -> list Z) : list Z :=
  match o with Some x => f out x | None => out end.

(** ** Messages *)

Definition aggressor_num (side : AggressorSide) : Z :=
  match side with Buy => 1 | Sell => 2 | SideUnknown => 3 end.
Definition book_side_num (side : BookSide) : Z := match side with Bid => 1 | Ask => 2 end.
Definition book_op_num (op : BookOperation) : Z := match op with Upsert => 1 | Delete => 2 end.

Definition encode_fixed (f : Fixed) : list Z :=
  let lo := wrap I64 (coefficient f) in
  let hi := wrap I64 (Z.shiftr (coefficient f) 64) in
  let out := write_i64 [] 1 lo in
  let out := write_i64 out 2 hi in
  write_u32 out 3 (scale f).

Definition encode_price (p : Price) : list Z := write_msg [] 1 (encode_fixed (price0 p)).
Definition encode_quantity (q : Quantity) : list Z := write_msg [] 1 (encode_fixed (qty0 q)).
Definition encode_rate (r : Rate) : list Z := write_msg [] 1 (encode_fixed (rate0 r)).
Definition encode_timestamp_ns (ts : TimestampNs) : list Z := write_i64 [] 1 ts.

Definition encode_sequence_range (seq : SequenceRange) : list Z :=
  let out := write_u64 [] 1 (seq_first seq) in
  write_u64 out 2 (seq_last seq).

Definition encode_trade (t : Trade) : list Z :=
  let out := write_msg [] 1 (encode_price (trade_price t)) in
  let out := write_msg out 2 (encode_quantity (trade_quantity t)) in
  let out := write_enum out 3 (aggressor_num (trade_aggressor t)) in
  if_some (trade_id t) out (fun out id => write_string out 4 id).

Definition encode_quote (q : Quote) : list Z :=
  let out := write_msg [] 1 (encode_price (bid_price q)) in
  let out := if_some (bid_quantity q) out (fun out qty => write_msg out 2 (encode_quantity qty)) in
  let out := write_msg out 3 (encode_price (ask_price q)) in
  if_some (ask_quantity q) out (fun out qty => write_msg out 4 (encode_quantity qty)).

Definition encode_book_level (l : BookLevel) : list Z :=
  let out := write_msg [] 1 (encode_price (level_price l)) in
  write_msg out 2 (encode_quantity (level_quantity l)).

Definition encode_book_change (c : BookChange) : list Z :=
  let out := write_enum [] 1 (book_side_num (change_side c)) in
  let out := write_enum out 2 (book_op_num (change_operation c)) in
  let out := write_msg out 3 (encode_price (change_price c)) in
  if_some (change_quantity c) out (fun out qty => write_msg out 4 (encode_quantity qty)).

Definition encode_book_snapshot (s : BookSnapshot) : list Z :=
  let out := foldl (fun out l => write_msg out 1 (encode_book_level l)) [] (snapshot_bids s) in
  let out := foldl (fun out l => write_msg out 2 (encode_book_level l)) out (snapshot_asks s) in
  let out := if_some (snapshot_depth s) out (fun out d => write_u32 out 3 d) in
  if_some (snapshot_checksum s) out (fun out c => write_string out 4 c).

Definition encode_book_delta (d : BookDelta) : list Z :=
  let out := foldl (fun out c => write_msg out 1 (encode_book_change c)) [] (delta_changes d) in
  if_some (delta_checksum d) out (fun out c => write_string out 2 c).

Definition encode_candle (c : Candle) : list Z :=
  let out := write_msg [] 1 (encode_price (candle_open c)) in
  let out := write_msg out 2 (encode_price (candle_high c)) in
  let out := write_msg out 3 (encode_price (candle_low c)) in
  let out := write_msg out 4 (encode_price (candle_close c)) in
  let out := write_msg out 5 (encode_quantity (candle_volume c)) in
  let out := write_i64 out 6 (candle_interval_ns c) in
  write_msg out 7 (encode_timestamp_ns (candle_start_ts c)).

Definition encode_price_point (p : PricePoint) : list Z :=
  write_msg [] 1 (encode_price (point_price p)).

Definition encode_funding (f : Funding) : list Z :=
  let out := write_msg [] 1 (encode_rate (funding_rate f)) in
  if_some (next_funding_ts f) out (fun out ts => write_msg out 2 (encode_timestamp_ns ts)).

Definition encode_open_interest (o : OpenInterest) : list Z :=
  write_msg [] 1 (encode_quantity (oi_quantity o)).

Definition encode_liquidation (l : Liquidation) : list Z :=
  let out := write_msg [] 1 (encode_price (liq_price l)) in
  let out := write_msg out 2 (encode_quantity (liq_quantity l)) in
  write_enum out 3 (aggressor_num (liq_side l)).

Definition encode_statistics_24h (s : Statistics24h) : list Z :=
  let out := if_some (stat_open s) [] (fun out p => write_msg out 1 (encode_price p)) in
  let out := if_some (stat_high s) out (fun out p => write_msg out 2 (encode_price p)) in
  let out := if_some (stat_low s) out (fun out p => write_msg out 3 (encode_price p)) in
  let out := if_some (stat_close s) out (fun out p => write_msg out 4 (encode_price p)) in
  let out := if_some (stat_volume s) out (fun out q => write_msg out 5 (encode_quantity q)) in
  if_some (stat_quote_volume s) out (fun out q => write_msg out 6 (encode_quantity q)).

(** [format!("{:?}", status)]. *)
Definition instrument_status_debug (s : InstrumentStatus) : string :=
  match s with
  | Active => "Active"
  | Suspended => "Suspended"
  | Expired => "Expired"
  | Delisted => "Delisted"
  | StatusUnknown => "Unknown"
  end.

Definition encode_instrument_update (u : InstrumentUpdate) : list Z :=
  write_string [] 1 (instrument_status_debug (update_status u)).

Definition encode_venue_status (v : VenueStatus) : list Z :=
  write_string [] 1 (status_message v).

Definition encode_market_event (ev : MarketEvent) : list Z :=
  match ev with
  | EvTrade t => write_msg [] 1 (encode_trade t)
  | EvQuote q => write_msg [] 2 (encode_quote q)
  | EvBookSnapshot s => write_msg [] 3 (encode_book_snapshot s)
  | EvBookDelta d => write_msg [] 4 (encode_book_delta d)
  | EvCandle c => write_msg [] 5 (encode_candle c)
  | EvMarkPrice p => write_msg [] 6 (encode_price_point p)
  | EvIndexPrice p => write_msg [] 7 (encode_price_point p)
  | EvFunding f => write_msg [] 8 (encode_funding f)
  | EvOpenInterest o => write_msg [] 9 (encode_open_interest o)
  | EvLiquidation l => write_msg [] 10 (encode_liquidation l)
  | EvStatistics24h s => write_msg [] 11 (encode_statistics_24h s)
  | EvInstrumentUpdate u => write_msg [] 12 (encode_instrument_update u)
  | EvVenueStatus v => write_msg [] 13 (encode_venue_status v)
  end.

Definition write_event_envelope (out : list Z) (env : EventEnvelope) : list Z :=
  let out := write_u32 out 1 (env_schema_version env) in
  let out := write_u32 out 2 (env_venue env) in
  let out := if_some (env_instrument env) out (fun out inst => write_u32 out 3 inst) in
  let out := write_u64 out 4 (env_connection env) in
  let out := write_u64 out 5 (env_session env) in
  let out := write_u64 out 6 (env_frame_seq env) in
  let out := write_u32 out 7 (env_event_index env) in
  let out := if_some (env_exchange_ts env) out (fun out ts => write_msg out 8 (encode_timestamp_ns ts)) in
  let out := write_msg out 9 (encode_timestamp_ns (env_receive_ts env)) in
  let out := if_some (env_source_sequence env) out
               (fun out seq => write_msg out 10 (encode_sequence_range seq)) in
  let out := write_u32 out 11 (env_flags env) in
  write_msg out 12 (encode_market_event (env_payload env)).

Definition encode_event_envelope (env : EventEnvelope) : list Z := write_event_envelope [] env.

(** ** Length-prefixed records *)

(** The fuel is the number of bytes: every record takes at least four. *)
Fixpoint read_records_loop (fuel : nat) (bytes : list Z) (i : nat) (out : list (list Z))
    : option (result (list (list Z)) string) :=
  match fuel with
  | O => None
  | S fuel =>
      if (i <? length bytes)%nat then
        if (length bytes - i <? 4)%nat then Some (Err "truncated length prefix"%string) else
        let len := Z.to_nat (from_le_bytes (take 4 (drop i bytes))) in
        let i := (i + 4)%nat in
        if (length bytes - i <? len)%nat then Some (Err "truncated record body"%string) else
        read_records_loop fuel bytes (i + len)%nat (out ++ [take len (drop i bytes)])
      else Some (Ok out)
  end.

Definition read_length_prefixed_records (bytes : list Z) : option (result (list (list Z)) string) :=
  read_records_loop (S (length bytes)) bytes 0 [].

Definition sample_envelope : EventEnvelope :=
  mkEventEnvelope 1 2 (Some 7) 3 4 9 0 (Some 1000) 1100 None 0
    (EvTrade (mkTrade (mkPrice (mkFixed 10000 2)) (mkQuantity (mkFixed (-15) 1)) Buy (Some "t1"%string))).

Example encode_ex :
  take 12 (encode_event_envelope sample_envelope) = [8; 1; 16; 2; 24; 7; 32; 3; 40; 4; 48; 9].
Proof. reflexivity. Qed.

(** ** Reference decoder: fields

    Protobuf's encoding of a message is a sequence of numbered fields, each a
    variable-length integer or a length-delimited byte string. *)

Inductive WireVal := WVarint (v : Z) | WLen (b : list Z).

(** Base-128 digits, least significant first, of a value below 2^64. *)
Fixpoint read_varint (buf : list Z) (shift acc : Z) : option (Z * list Z) :=
  match buf with
  | [] => None
  | b :: rest =>
      let acc := Z.lor acc (wrap U64 (Z.shiftl (Z.land b 0x7f) shift)) in
      if Z.land b 0x80 =? 0 then Some (acc, rest)
      else if 63 <? shift + 7 then None else read_varint rest (shift + 7) acc
  end.

Fixpoint parse_fields (fuel : nat) (buf : list Z) : option (list (Z * WireVal)) :=
  match fuel, buf with
  | _, [] => Some []
  | O, _ => None
  | S fuel, _ =>
      key_rest ← read_varint buf 0 0;
      let '(key, buf) := (key_rest : Z * list Z) in
      let field := Z.shiftr key 3 in
      let wire := Z.land key 7 in
      val_rest ← read_varint buf 0 0;
      let '(v, buf) := (val_rest : Z * list Z) in
      if wire =? 0 then
        fields ← parse_fields fuel buf; Some ((field, WVarint v) :: fields)
      else if wire =? 2 then
        if v <=? Z.of_nat (length buf) then
          fields ← parse_fields fuel (drop (Z.to_nat v) buf);
          Some ((field, WLen (take (Z.to_nat v) buf)) :: fields)
        else None
      else None
  end.

(** A field takes at least two bytes, so the length is enough fuel. *)
Definition parse (buf : list Z) : option (list (Z * WireVal)) := parse_fields (length buf) buf.

(** ** Writing and reading variable-length integers *)

Lemma write_varint_loop_app fuel out v :
  write_varint_loop fuel out v = out ++ write_varint_loop fuel [] v.
Proof.
  revert out v. induction fuel as [|fuel IH]; intros out v; cbn [write_varint_loop].
  { by rewrite app_nil_r. }
  destruct (0x80 <=? v); [|done]. rewrite IH, (IH ([] ++ _)). by rewrite app_assoc.
Qed.

Lemma write_varint_app out v : write_varint out v = out ++ write_varint [] v.
Proof. apply write_varint_loop_app. Qed.

(** The byte [b] with the continuation bit set or not. *)
Lemma low7 x : 0 <= x -> Z.land (Z.lor (wrap U8 x) 0x80) 0x7f = x mod 128 /\
                         Z.land (Z.lor (wrap U8 x) 0x80) 0x80 = 0x80.
Proof.
  intros Hx. assert (wrap U8 x = x mod 256) as ->
    by (unfold wrap; cbn [int_min int_max]; rewrite Z.sub_0_r, Z.add_0_r; done).
  split.
  - change 0x7f with (Z.ones 7). rewrite Z.land_lor_distr_l. change (Z.land 128 (Z.ones 7)) with 0.
    rewrite Z.lor_0_r, Z.land_ones by lia. change (2 ^ 7) with 128.
    apply Z.mod_mod_divide. by exists 2.
  - apply Z.bits_inj'. intros i Hi. rewrite Z.land_spec, Z.lor_spec.
    destruct (Z.testbit 128 i); [by rewrite orb_true_r|by rewrite andb_false_r].
Qed.

Lemma lor_shiftl_add r x s : 0 <= s -> 0 <= r < 2 ^ s -> 0 <= x -> Z.lor r (Z.shiftl x s) = r + x * 2 ^ s.
Proof.
  intros Hs Hr Hx. rewrite <- Z.add_nocarry_lor; [by rewrite Z.shiftl_mul_pow2|].
  apply Z.bits_inj'. intros i Hi. rewrite Z.land_spec, Z.bits_0.
  destruct (Z.lt_ge_cases i s); [rewrite Z.shiftl_spec_low by lia; apply andb_false_r|].
  destruct (Z.eq_dec r 0) as [->|]; [by rewrite Z.bits_0|].
  rewrite (Z.bits_above_log2 r i); [done|lia|]. apply Z.lt_le_trans with s; [|done].
  apply Z.log2_lt_pow2; lia.
Qed.

Lemma wrap_u64_small x : 0 <= x < 2 ^ 64 -> wrap U64 x = x.
Proof. intros Hx. apply wrap_fits. unfold fits. cbn [int_min int_max]. lia. Qed.

Lemma varint_loop_round_trip fuel v s r rest :
  0 <= s -> 0 <= v -> v < 2 ^ (7 * Z.of_nat fuel) -> v * 2 ^ s < 2 ^ 64 -> 0 <= r < 2 ^ s ->
  (0 < fuel)%nat ->
  read_varint (write_varint_loop fuel [] v ++ rest) s r = Some (r + v * 2 ^ s, rest).
Proof.
  revert v s r. induction fuel as [|fuel IH]; intros v s r Hs Hv Hfuel Hsv Hr Hpos; [lia|].
  cbn [write_varint_loop]. pose proof (Z.pow_pos_nonneg 2 s ltac:(lia) Hs) as Hps.
  destruct (Z.leb_spec 128 v) as [Hbig|Hsmall].
  - rewrite write_varint_loop_app, <- app_assoc. cbn [app read_varint].
    destruct (low7 v Hv) as [-> ->]. cbn [Z.eqb].
    pose proof (Z.mod_pos_bound v 128 ltac:(lia)). pose proof (Z.div_mod v 128 ltac:(lia)).
    pose proof (Z.div_pos v 128 Hv ltac:(lia)).
    assert (s + 7 <= 63) as Hs7.
    { destruct (Z.le_gt_cases (s + 7) 63) as [|Hgt]; [done|].
      pose proof (Z.pow_le_mono_r 2 57 s ltac:(lia) ltac:(lia)). change (2 ^ 57) with (2 ^ 64 / 128) in *.
      change (2 ^ 64) with (128 * (2 ^ 64 / 128)) in Hsv. nia. }
    rewrite (proj2 (Z.ltb_ge _ _)) by lia.
    assert (v mod 128 * 2 ^ s < 2 ^ 64) by nia.
    assert (0 <= v mod 128 * 2 ^ s) by nia.
    rewrite wrap_u64_small by (rewrite Z.shiftl_mul_pow2 by lia; lia).
    rewrite lor_shiftl_add by lia. rewrite Z.shiftr_div_pow2 by lia. change (2 ^ 7) with 128.
    assert ((v / 128) * (2 ^ s * 2 ^ 7) = v * 2 ^ s - v mod 128 * 2 ^ s) as E
      by (change (2 ^ 7) with 128; nia).
    rewrite IH.
    + f_equal. f_equal. rewrite Z.pow_add_r by lia. rewrite E. ring.
    + lia.
    + done.
    + apply Z.div_lt_upper_bound; [lia|]. change 128 with (2 ^ 7).
      rewrite <- Z.pow_add_r by lia. eapply Z.lt_le_trans; [exact Hfuel|]. apply Z.pow_le_mono_r; lia.
    + rewrite Z.pow_add_r by lia. rewrite E. lia.
    + rewrite Z.pow_add_r by lia. change (2 ^ 7) with 128. nia.
    + destruct fuel; [|lia]. change (2 ^ (7 * Z.of_nat 1)) with 128 in Hfuel. lia.
  - cbn [app read_varint].
    assert (wrap U8 v = v) as -> by (apply wrap_fits; unfold fits; cbn [int_min int_max]; lia).
    assert (Z.land v 0x7f = v) as ->
      by (change 0x7f with (Z.ones 7); rewrite Z.land_ones by lia; apply Z.mod_small; lia).
    assert (Z.land v 0x80 = 0) as ->.
    { apply Z.bits_inj'. intros i Hi. rewrite Z.land_spec, Z.bits_0.
      change 128 with (2 ^ 7). rewrite Z.pow2_bits_eqb by lia.
      destruct (Z.eqb_spec 7 i) as [<-|]; [|apply andb_false_r].
      destruct (Z.eq_dec v 0) as [->|]; [done|]. rewrite Z.bits_above_log2; [done|lia|].
      apply Z.log2_lt_pow2; lia. }
    cbn [Z.eqb]. rewrite wrap_u64_small by (rewrite Z.shiftl_mul_pow2 by lia; nia).
    by rewrite lor_shiftl_add by lia.
Qed.

Lemma varint_round_trip v rest :
  fits U64 v -> read_varint (write_varint [] v ++ rest) 0 0 = Some (v, rest).
Proof.
  intros [H1 H2]. cbn [int_min int_max] in *. unfold write_varint.
  rewrite varint_loop_round_trip by (first [lia|reflexivity|change (2 ^ (7 * Z.of_nat 10)) with (2 ^ 70); lia]).
  f_equal. f_equal. lia.
Qed.

(** ** Messages as fields *)

Definition enc_field (f : Z * WireVal) : list Z :=
  match f with
  | (n, WVarint v) => write_varint (write_key [] n WIRE_VARINT) v
  | (n, WLen b) => write_bytes [] n b
  end.

Definition enc_fields (l : list (Z * WireVal)) : list Z := concat (enc_field <$> l).

Definition wf_field (f : Z * WireVal) : Prop :=
  0 < f.1 < 2 ^ 29 /\
  match f.2 with WVarint v => fits U64 v | WLen b => fits U64 (Z.of_nat (length b)) end.

Lemma write_key_app out n w : write_key out n w = out ++ write_key [] n w.
Proof. unfold write_key. apply write_varint_app. Qed.

Lemma write_bytes_app out n b : write_bytes out n b = out ++ write_bytes [] n b.
Proof.
  unfold write_bytes. rewrite (write_key_app out), (write_varint_app (out ++ _)),
    (write_varint_app (write_key [] n WIRE_LEN)). by rewrite !app_assoc.
Qed.

Lemma write_varint_loop_nonempty fuel out v : length (write_varint_loop (S fuel) out v) <> 0%nat.
Proof.
  cbn [write_varint_loop]. destruct (128 <=? v); [rewrite write_varint_loop_app|];
    rewrite !length_app; simpl; lia.
Qed.

Lemma write_varint_nonempty out v : length (write_varint out v) <> 0%nat.
Proof. apply write_varint_loop_nonempty. Qed.

Lemma enc_field_length f : (1 <= length (enc_field f))%nat.
Proof.
  destruct f as [n [v|b]]; cbn [enc_field].
  - pose proof (write_varint_nonempty (write_key [] n WIRE_VARINT) v). lia.
  - unfold write_bytes. rewrite length_app.
    pose proof (write_varint_nonempty (write_key [] n WIRE_LEN) (wrap U64 (Z.of_nat (length b)))). lia.
Qed.

Lemma key_parts n w : 0 < n < 2 ^ 29 -> 0 <= w < 8 ->
  let key := Z.lor (Z.shiftl n 3) w in
  fits U64 key /\ Z.shiftr key 3 = n /\ Z.land key 7 = w.
Proof.
  intros Hn Hw key. assert (key = w + n * 2 ^ 3) as ->
    by (unfold key; rewrite Z.lor_comm; apply lor_shiftl_add; lia).
  change (2 ^ 3) with 8. split_and! .
  - unfold fits. cbn [int_min int_max]. lia.
  - rewrite Z.shiftr_div_pow2 by lia. change (2 ^ 3) with 8. rewrite Z.div_add by lia.
    by rewrite Z.div_small.
  - change 7 with (Z.ones 3). rewrite Z.land_ones by lia. change (2 ^ 3) with 8.
    rewrite Z.mod_add by lia. by apply Z.mod_small.
Qed.

Lemma parse_fields_cons fuel f rest :
  wf_field f ->
  parse_fields (S fuel) (enc_field f ++ rest) =
  (fields ← parse_fields fuel rest; Some (f :: fields)).
Proof.
  destruct f as [n w]. intros [Hn Hw]. cbn [fst snd] in *.
  destruct (key_parts n (match w with WVarint _ => 0 | WLen _ => 2 end) Hn
              ltac:(destruct w; lia)) as (Hk & Hshift & Hland).
  assert (exists b l, enc_field (n, w) ++ rest = b :: l) as (b0 & l0 & E).
  { destruct (enc_field (n, w) ++ rest) as [|b l] eqn:E; [|eauto]. exfalso.
    apply app_eq_nil in E as [E _]. pose proof (enc_field_length (n, w)) as Hlen.
    rewrite E in Hlen. simpl in Hlen. lia. }
  cbn [parse_fields]. rewrite E, <- E. clear E b0 l0.
  destruct w as [v|b]; cbn [enc_field].
  - rewrite write_varint_app. unfold write_key. rewrite <- app_assoc.
    unfold WIRE_VARINT. rewrite (varint_round_trip _ _ Hk). cbn [mbind option_bind].
    rewrite (varint_round_trip _ _ Hw). cbn [mbind option_bind]. by rewrite Hland, Hshift.
  - unfold write_bytes. rewrite write_varint_app. unfold write_key. rewrite <- !app_assoc.
    unfold WIRE_LEN. rewrite (varint_round_trip _ _ Hk). cbn [mbind option_bind].
    rewrite (wrap_fits U64 _ Hw). rewrite (varint_round_trip _ _ Hw). cbn [mbind option_bind].
    rewrite Hland, Hshift. cbn [Z.eqb]. rewrite (proj2 (Z.leb_le _ _)) by (rewrite length_app; lia).
    by rewrite Nat2Z.id, drop_app_length, take_app_length.
Qed.

Lemma parse_enc l : Forall wf_field l -> parse (enc_fields l) = Some l.
Proof.
  intros Hl. unfold parse.
  assert (length (enc_fields l) <= length (enc_fields l))%nat as Hfuel by lia.
  revert Hfuel. generalize (length (enc_fields l)) at 2 3 as fuel.
  induction Hl as [|f l Hf Hl IH]; intros fuel Hfuel; [by destruct fuel|].
  change (enc_fields (f :: l)) with (enc_field f ++ enc_fields l) in *.
  rewrite length_app in Hfuel. pose proof (enc_field_length f).
  destruct fuel as [|fuel]; [lia|]. rewrite parse_fields_cons by done.
  by rewrite IH by lia.
Qed.

Lemma enc_fields_app l1 l2 : enc_fields (l1 ++ l2) = enc_fields l1 ++ enc_fields l2.
Proof. unfold enc_fields. by rewrite fmap_app, concat_app. Qed.

Lemma enc_fields_one f : enc_fields [f] = enc_field f.
Proof. apply app_nil_r. Qed.

(** Fields left out when they hold their default, always present messages,
    and optional ones. *)
Definition vf (n v : Z) : list (Z * WireVal) := if v =? 0 then [] else [(n, WVarint v)].
Definition mf (n : Z) (b : list Z) : list (Z * WireVal) := [(n, WLen b)].
Definition sf (n : Z) (s : string) : list (Z * WireVal) :=
  if String.eqb s "" then [] else [(n, WLen (bytes_of_string s))].
Definition opt_fields {A B} (o : option A) (g : A -> list B) : list B :=
  match o with Some x => g x | None => [] end.
Definition rep_fields {A} (n : Z) (enc : A -> list Z) (l : list A) : list (Z * WireVal) :=
  (fun x => (n, WLen (enc x))) <$> l.

Lemma write_u32_fields out n v : write_u32 out n v = out ++ enc_fields (vf n v).
Proof.
  unfold write_u32, vf. destruct (v =? 0); [by rewrite app_nil_r|].
  rewrite enc_fields_one. cbn [enc_field].
  rewrite write_varint_app, write_key_app, <- app_assoc, <- write_varint_app. done.
Qed.

Lemma write_u64_fields out n v : write_u64 out n v = out ++ enc_fields (vf n v).
Proof. apply write_u32_fields. Qed.

Lemma wrap_u64_zero v : fits I64 v -> (wrap U64 v =? 0) = (v =? 0).
Proof.
  intros [H1 H2]. unfold wrap. cbn [int_min int_max] in *. rewrite Z.sub_0_r, Z.add_0_r.
  change (18446744073709551615 - 0 + 1) with 18446744073709551616.
  destruct (Z.eqb_spec v 0) as [->|Hv]; [done|]. apply Z.eqb_neq. intros E.
  apply Z.mod_divide in E as [k ->]; lia.
Qed.

Lemma write_i64_fields out n v :
  fits I64 v -> write_i64 out n v = out ++ enc_fields (vf n (wrap U64 v)).
Proof.
  intros Hv. rewrite <- write_u32_fields. unfold write_i64, write_u32. by rewrite wrap_u64_zero.
Qed.

Lemma write_msg_fields out n b : write_msg out n b = out ++ enc_fields (mf n b).
Proof.
  unfold write_msg, mf. by rewrite write_bytes_app, enc_fields_one.
Qed.

Lemma write_string_fields out n s : write_string out n s = out ++ enc_fields (sf n s).
Proof.
  unfold write_string, sf. destruct (String.eqb s ""); [by rewrite app_nil_r|apply write_msg_fields].
Qed.

Lemma if_some_fields {A} (o : option A) out f g :
  (forall x, f out x = out ++ enc_fields (g x)) ->
  if_some o out f = out ++ enc_fields (opt_fields o g).
Proof. intros Hf. destruct o; simpl; [done|by rewrite app_nil_r]. Qed.

Lemma rep_fields_fields {A} n (enc : A -> list Z) out l :
  foldl (fun out x => write_msg out n (enc x)) out l = out ++ enc_fields (rep_fields n enc l).
Proof.
  revert out. induction l as [|x l IH]; intros out; [by rewrite app_nil_r|]. cbn [foldl].
  rewrite IH, write_msg_fields, <- app_assoc, <- enc_fields_app. done.
Qed.

(** ** Reference decoder: messages

    A scalar field takes its last occurrence or its default, a repeated field
    all of its occurrences, an [optional] field is absent when it does not
    occur. *)

Definition occ (n : Z) (l : list (Z * WireVal)) : list WireVal :=
  omap (fun f => if f.1 =? n then Some f.2 else None) l.

Definition get_varint (n : Z) (l : list (Z * WireVal)) : option Z :=
  match last (occ n l) with Some (WVarint v) => Some v | _ => None end.

Definition get_len (n : Z) (l : list (Z * WireVal)) : option (list Z) :=
  match last (occ n l) with Some (WLen b) => Some b | _ => None end.

Definition get_all (n : Z) (l : list (Z * WireVal)) : list (list Z) :=
  omap (fun w => match w with WLen b => Some b | WVarint _ => None end) (occ n l).

Definition uint (n : Z) (l : list (Z * WireVal)) : Z := default 0 (get_varint n l).
Definition sint (n : Z) (l : list (Z * WireVal)) : Z := wrap I64 (uint n l).

Definition str (n : Z) (l : list (Z * WireVal)) : option string :=
  string_of_bytes <$> get_len n l.

Definition msg {A} (dec : list Z -> option A) (n : Z) (l : list (Z * WireVal)) : option A :=
  b ← get_len n l; dec b.

Definition opt_msg {A} (dec : list Z -> option A) (n : Z) (l : list (Z * WireVal))
    : option (option A) :=
  match get_len n l with None => Some None | Some b => x ← dec b; Some (Some x) end.

Definition decode_fixed (b : list Z) : option Fixed :=
  l ← parse b;
  Some (mkFixed (sint 2 l * 2 ^ 64 + uint 1 l) (uint 3 l)).

Definition decode_price (b : list Z) : option Price :=
  l ← parse b; mkPrice <$> msg decode_fixed 1 l.
Definition decode_quantity (b : list Z) : option Quantity :=
  l ← parse b; mkQuantity <$> msg decode_fixed 1 l.
Definition decode_rate (b : list Z) : option Rate :=
  l ← parse b; mkRate <$> msg decode_fixed 1 l.
Definition decode_timestamp_ns (b : list Z) : option TimestampNs := sint 1 <$> parse b.

Definition decode_sequence_range (b : list Z) : option SequenceRange :=
  l ← parse b; Some (mkSequenceRange (uint 1 l) (uint 2 l)).

Definition decode_aggressor (v : Z) : option AggressorSide :=
  match v with 1 => Some Buy | 2 => Some Sell | 3 => Some SideUnknown | _ => None end.
Definition decode_book_side (v : Z) : option BookSide :=
  match v with 1 => Some Bid | 2 => Some Ask | _ => None end.
Definition decode_book_op (v : Z) : option BookOperation :=
  match v with 1 => Some Upsert | 2 => Some Delete | _ => None end.

Definition decode_trade (b : list Z) : option Trade :=
  l ← parse b;
  p ← msg decode_price 1 l;
  q ← msg decode_quantity 2 l;
  a ← decode_aggressor (uint 3 l);
  Some (mkTrade p q a (str 4 l)).

Definition decode_quote (b : list Z) : option Quote :=
  l ← parse b;
  bp ← msg decode_price 1 l;
  bq ← opt_msg decode_quantity 2 l;
  ap ← msg decode_price 3 l;
  aq ← opt_msg decode_quantity 4 l;
  Some (mkQuote bp bq ap aq).

Definition decode_book_level (b : list Z) : option BookLevel :=
  l ← parse b;
  p ← msg decode_price 1 l;
  q ← msg decode_quantity 2 l;
  Some (mkBookLevel p q).

Definition decode_book_change (b : list Z) : option BookChange :=
  l ← parse b;
  s ← decode_book_side (uint 1 l);
  o ← decode_book_op (uint 2 l);
  p ← msg decode_price 3 l;
  q ← opt_msg decode_quantity 4 l;
  Some (mkBookChange s o p q).

Definition decode_book_snapshot (b : list Z) : option BookSnapshot :=
  l ← parse b;
  bids ← mapM decode_book_level (get_all 1 l);
  asks ← mapM decode_book_level (get_all 2 l);
  Some (mkBookSnapshot bids asks (get_varint 3 l) (str 4 l)).

Definition decode_book_delta (b : list Z) : option BookDelta :=
  l ← parse b;
  changes ← mapM decode_book_change (get_all 1 l);
  Some (mkBookDelta changes (str 2 l)).

Definition decode_candle (b : list Z) : option Candle :=
  l ← parse b;
  o ← msg decode_price 1 l;
  h ← msg decode_price 2 l;
  lo ← msg decode_price 3 l;
  c ← msg decode_price 4 l;
  v ← msg decode_quantity 5 l;
  ts ← msg decode_timestamp_ns 7 l;
  Some (mkCandle o h lo c v (sint 6 l) ts).

Definition decode_price_point (b : list Z) : option PricePoint :=
  l ← parse b; mkPricePoint <$> msg decode_price 1 l.

Definition decode_funding (b : list Z) : option Funding :=
  l ← parse b;
  r ← msg decode_rate 1 l;
  ts ← opt_msg decode_timestamp_ns 2 l;
  Some (mkFunding r ts).

Definition decode_open_interest (b : list Z) : option OpenInterest :=
  l ← parse b; mkOpenInterest <$> msg decode_quantity 1 l.

Definition decode_liquidation (b : list Z) : option Liquidation :=
  l ← parse b;
  p ← msg decode_price 1 l;
  q ← msg decode_quantity 2 l;
  s ← decode_aggressor (uint 3 l);
  Some (mkLiquidation p q s).

Definition decode_statistics_24h (b : list Z) : option Statistics24h :=
  l ← parse b;
  o ← opt_msg decode_price 1 l;
  h ← opt_msg decode_price 2 l;
  lo ← opt_msg decode_price 3 l;
  c ← opt_msg decode_price 4 l;
  v ← opt_msg decode_quantity 5 l;
  qv ← opt_msg decode_quantity 6 l;
  Some (mkStatistics24h o h lo c v qv).

Definition all_statuses : list InstrumentStatus := [Active; Suspended; Expired; Delisted; StatusUnknown].

Definition decode_instrument_update (b : list Z) : option InstrumentUpdate :=
  l ← parse b;
  s ← str 1 l;
  mkInstrumentUpdate <$> List.find (fun st => String.eqb (instrument_status_debug st) s) all_statuses.

Definition decode_venue_status (b : list Z) : option VenueStatus :=
  l ← parse b; Some (mkVenueStatus (default ""%string (str 1 l))).

Definition decode_payload (n : Z) (m : list Z) : option MarketEvent :=
  match n with
  | 1 => EvTrade <$> decode_trade m
  | 2 => EvQuote <$> decode_quote m
  | 3 => EvBookSnapshot <$> decode_book_snapshot m
  | 4 => EvBookDelta <$> decode_book_delta m
  | 5 => EvCandle <$> decode_candle m
  | 6 => EvMarkPrice <$> decode_price_point m
  | 7 => EvIndexPrice <$> decode_price_point m
  | 8 => EvFunding <$> decode_funding m
  | 9 => EvOpenInterest <$> decode_open_interest m
  | 10 => EvLiquidation <$> decode_liquidation m
  | 11 => EvStatistics24h <$> decode_statistics_24h m
  | 12 => EvInstrumentUpdate <$> decode_instrument_update m
  | 13 => EvVenueStatus <$> decode_venue_status m
  | _ => None
  end.

Definition decode_market_event (b : list Z) : option MarketEvent :=
  l ← parse b;
  match last l with Some (n, WLen m) => decode_payload n m | _ => None end.

Definition decode_event_envelope (b : list Z) : option EventEnvelope :=
  l ← parse b;
  ets ← opt_msg decode_timestamp_ns 8 l;
  rts ← msg decode_timestamp_ns 9 l;
  seq ← opt_msg decode_sequence_range 10 l;
  ev ← msg decode_market_event 12 l;
  Some (mkEventEnvelope (uint 1 l) (uint 2 l) (get_varint 3 l) (uint 4 l) (uint 5 l) (uint 6 l)
          (uint 7 l) ets rts seq (uint 11 l) ev).

Example decode_ex : decode_event_envelope (encode_event_envelope sample_envelope) = Some sample_envelope.
Proof. vm_compute. reflexivity. Qed.

(** ** Finding a field in a message *)

Section Occurrences.
Implicit Types (n k v : Z) (l : list (Z * WireVal)).

Lemma occ_app n l1 l2 : occ n (l1 ++ l2) = occ n l1 ++ occ n l2.
Proof. apply omap_app. Qed.

Definition occ_v v : list WireVal := if v =? 0 then [] else [WVarint v].
Definition occ_s (s : string) : list WireVal :=
  if String.eqb s "" then [] else [WLen (bytes_of_string s)].

Lemma occ_vf n k v : occ n (vf k v) = if k =? n then occ_v v else [].
Proof. unfold vf, occ_v, occ. destruct (v =? 0); simpl; by destruct (k =? n). Qed.

Lemma occ_mf n k b : occ n (mf k b) = if k =? n then [WLen b] else [].
Proof. unfold mf, occ. simpl. by destruct (k =? n). Qed.

Lemma occ_sf n k s : occ n (sf k s) = if k =? n then occ_s s else [].
Proof. unfold sf, occ_s, occ. destruct (String.eqb s ""); simpl; by destruct (k =? n). Qed.

Lemma occ_opt_vf n k o :
  occ n (opt_fields o (vf k)) = if k =? n then opt_fields o occ_v else [].
Proof. destruct o; simpl; [apply occ_vf|by destruct (k =? n)]. Qed.

Lemma occ_opt_mf {A} n k (e : A -> list Z) o :
  occ n (opt_fields o (fun x => mf k (e x))) =
  if k =? n then opt_fields o (fun x => [WLen (e x)]) else [].
Proof. destruct o; simpl; [apply occ_mf|by destruct (k =? n)]. Qed.

Lemma occ_opt_sf n k o :
  occ n (opt_fields o (sf k)) = if k =? n then opt_fields o occ_s else [].
Proof. destruct o; simpl; [apply occ_sf|by destruct (k =? n)]. Qed.

Lemma occ_rep {A} n k (e : A -> list Z) (l : list A) :
  occ n (rep_fields k e l) = if k =? n then (fun x => WLen (e x)) <$> l else [].
Proof.
  induction l as [|x l IH]; [by destruct (k =? n)|].
  change (rep_fields k e (x :: l)) with (mf k (e x) ++ rep_fields k e l).
  rewrite occ_app, occ_mf, IH. by destruct (k =? n).
Qed.
End Occurrences.

(** What the encoding keeps of an optional scalar: the default is the same as
    absence. *)
Definition keep_nonzero (o : option Z) : option Z :=
  match o with Some v => if v =? 0 then None else Some v | None => None end.
Definition keep_nonempty (o : option string) : option string :=
  match o with Some s => if String.eqb s "" then None else Some s | None => None end.

Section Lookup.
Context (n : Z) (l : list (Z * WireVal)).

Lemma uint_at v : occ n l = occ_v v -> uint n l = v.
Proof.
  intros E. unfold uint, get_varint. rewrite E. unfold occ_v.
  destruct (Z.eqb_spec v 0) as [->|]; done.
Qed.

Lemma sint_at v : occ n l = occ_v (wrap U64 v) -> fits I64 v -> sint n l = v.
Proof.
  intros E Hv. unfold sint. rewrite (uint_at _ E). unfold wrap at 2. cbn [int_min int_max].
  rewrite Z.sub_0_r, Z.add_0_r. rewrite (wrap_mod I64) by reflexivity. by apply wrap_fits.
Qed.

Lemma varint_opt_at o : occ n l = opt_fields o occ_v -> get_varint n l = keep_nonzero o.
Proof.
  intros E. unfold get_varint. rewrite E. destruct o as [v|]; [|done]. simpl. unfold occ_v.
  by destruct (v =? 0).
Qed.

Lemma get_len_at b : occ n l = [WLen b] -> get_len n l = Some b.
Proof. intros E. unfold get_len. by rewrite E. Qed.

Lemma get_len_opt_at {A} (e : A -> list Z) o :
  occ n l = opt_fields o (fun x => [WLen (e x)]) -> get_len n l = e <$> o.
Proof. intros E. unfold get_len. rewrite E. by destruct o. Qed.

Lemma str_at s : occ n l = occ_s s -> str n l = keep_nonempty (Some s).
Proof.
  intros E. unfold str, get_len. rewrite E. unfold occ_s. simpl.
  destruct (String.eqb s ""); simpl; [done|]. by rewrite string_of_bytes_of_string.
Qed.

Lemma str_opt_at o : occ n l = opt_fields o occ_s -> str n l = keep_nonempty o.
Proof.
  destruct o as [s|]; simpl; [apply str_at|]. intros E. unfold str, get_len. by rewrite E.
Qed.

Lemma msg_at {A} (dec : list Z -> option A) b x :
  occ n l = [WLen b] -> dec b = Some x -> msg dec n l = Some x.
Proof. intros E Hd. unfold msg. by rewrite (get_len_at _ E). Qed.

Lemma opt_msg_at {A} (dec : list Z -> option A) e o :
  occ n l = opt_fields o (fun x => [WLen (e x)]) ->
  (forall x, o = Some x -> dec (e x) = Some x) -> opt_msg dec n l = Some o.
Proof.
  intros E Hd. unfold opt_msg. rewrite (get_len_opt_at _ _ E). destruct o as [x|]; [|done].
  simpl. by rewrite (Hd x eq_refl).
Qed.

Lemma get_all_at {A} (dec : list Z -> option A) e (xs : list A) :
  occ n l = (fun x => WLen (e x)) <$> xs ->
  Forall (fun x => dec (e x) = Some x) xs -> mapM dec (get_all n l) = Some xs.
Proof.
  intros E Hd. unfold get_all. rewrite E. clear E. apply mapM_Some.
  induction Hd as [|x xs Hx _ IH]; [constructor|]. constructor; [done|exact IH].
Qed.
End Lookup.

(** ** Sizes

    A Rust vector never has more than [isize::MAX] bytes; it is enough to know
    that the length of the whole message is a [u64]. *)

Definition small (b : list Z) : Prop := fits U64 (Z.of_nat (length b)).

Definition len_small (f : Z * WireVal) : Prop :=
  match f.2 with WLen b => small b | WVarint _ => True end.

Definition typed_field (f : Z * WireVal) : Prop :=
  0 < f.1 < 2 ^ 29 /\ match f.2 with WVarint v => fits U64 v | WLen _ => True end.

Lemma small_le a b : small b -> (length a <= length b)%nat -> small a.
Proof. unfold small, fits. cbn [int_min int_max]. lia. Qed.

Lemma small_fields l : small (enc_fields l) -> Forall len_small l.
Proof.
  induction l as [|[n w] l IH]; intros Hs; [constructor|].
  change (enc_fields ((n, w) :: l)) with (enc_field (n, w) ++ enc_fields l) in Hs.
  constructor; [|apply IH; eapply small_le; [exact Hs|rewrite length_app; lia]].
  destruct w as [v|b]; [done|]. unfold len_small. cbn [snd].
  eapply small_le; [exact Hs|]. cbn [enc_field]. unfold write_bytes. rewrite !length_app. lia.
Qed.

Lemma parse_small l : Forall typed_field l -> small (enc_fields l) -> parse (enc_fields l) = Some l.
Proof.
  intros Ht Hs%small_fields. apply parse_enc. rewrite Forall_forall in *. intros [n w] Hin.
  specialize (Ht _ Hin). specialize (Hs _ Hin). destruct Ht as [Hn Hw]. split; [done|].
  by destruct w.
Qed.

Lemma typed_vf n v : 0 < n < 2 ^ 29 -> fits U64 v -> Forall typed_field (vf n v).
Proof. intros. unfold vf. destruct (v =? 0); [constructor|]. by apply Forall_singleton. Qed.
Lemma typed_mf n b : 0 < n < 2 ^ 29 -> Forall typed_field (mf n b).
Proof. intros. by apply Forall_singleton. Qed.
Lemma typed_sf n s : 0 < n < 2 ^ 29 -> Forall typed_field (sf n s).
Proof. intros. unfold sf. destruct (String.eqb s ""); [constructor|]. by apply Forall_singleton. Qed.
Lemma typed_opt {A} (o : option A) g :
  (forall x, o = Some x -> Forall typed_field (g x)) -> Forall typed_field (opt_fields o g).
Proof. intros H. destruct o; [by apply H|constructor]. Qed.
Lemma typed_rep {A} n (e : A -> list Z) l : 0 < n < 2 ^ 29 -> Forall typed_field (rep_fields n e l).
Proof. intros. by apply Forall_fmap, Forall_true. Qed.

Lemma small_opt {A} (o : option A) g :
  Forall len_small (opt_fields o g) <-> forall x, o = Some x -> Forall len_small (g x).
Proof. destruct o; simpl; [naive_solver|]. split; [done|constructor]. Qed.
Lemma small_mf n b : Forall len_small (mf n b) <-> small b.
Proof. unfold mf. rewrite Forall_singleton. done. Qed.
Lemma small_opt_mf {A} (o : option A) k (e : A -> list Z) :
  Forall len_small (opt_fields o (fun x => mf k (e x))) <-> forall x, o = Some x -> small (e x).
Proof. rewrite small_opt. by setoid_rewrite small_mf. Qed.
Lemma small_rep {A} n (e : A -> list Z) l :
  Forall len_small (rep_fields n e l) <-> Forall (fun x => small (e x)) l.
Proof. unfold rep_fields. rewrite Forall_fmap. done. Qed.

(** ** Each message decodes to what was encoded *)

Lemma write_enum_fields out n v :
  fits I64 v -> write_enum out n v = out ++ enc_fields (vf n (wrap U64 v)).
Proof. apply write_i64_fields. Qed.

Create HintDb widths.

Ltac width := solve [auto with widths | apply wrap_range | unfold fits; cbn [int_min int_max]; lia].

(** Turns an encoder into the fields it writes. *)
Ltac to_fields :=
  cbv zeta;
  repeat first
    [ rewrite write_msg_fields | rewrite write_u32_fields | rewrite write_u64_fields
    | rewrite write_string_fields | rewrite write_i64_fields by width
    | rewrite write_enum_fields by width | rewrite rep_fields_fields
    | erewrite if_some_fields by
        (intro; first [apply write_msg_fields|apply write_u32_fields|apply write_string_fields]) ];
  rewrite ?app_nil_l, <- ?app_assoc, <- ?enc_fields_app; reflexivity.

Ltac typed_fields :=
  repeat (apply Forall_app_2);
  first [ apply typed_vf; [lia|width] | apply typed_mf; lia | apply typed_sf; lia
        | apply typed_rep; lia
        | apply typed_opt; intros x Hx; first [apply typed_mf; lia|apply typed_sf; lia
                                             |apply typed_vf; [lia|width]] ].

(** Evaluates the occurrences of one field in a symbolic message. *)
Ltac find_field :=
  rewrite ?occ_app, ?occ_vf, ?occ_mf, ?occ_sf, ?occ_opt_vf, ?occ_opt_mf, ?occ_opt_sf, ?occ_rep;
  cbn [Z.eqb Pos.eqb app]; rewrite ?app_nil_r; reflexivity.

(** Splits the size bound of a message into those of its parts. *)
Ltac split_small H :=
  apply small_fields in H; rewrite ?Forall_app, ?small_mf, ?small_opt_mf, ?small_rep in H;
  repeat match type of H with _ /\ _ => let H' := fresh H in destruct H as [H' H] end.

Definition fixed_typed (f : Fixed) : Prop := fits I128 (coefficient f) /\ fits U8 (scale f).

#[export] Hint Extern 1 (fits _ _) => assumption : widths.

Lemma fixed_fields f :
  encode_fixed f =
  enc_fields (vf 1 (wrap U64 (wrap I64 (coefficient f))) ++
              vf 2 (wrap U64 (wrap I64 (Z.shiftr (coefficient f) 64))) ++ vf 3 (scale f)).
Proof. unfold encode_fixed. to_fields. Qed.

Lemma wrap_u64_i64 z : wrap U64 (wrap I64 z) = z mod 2 ^ 64.
Proof.
  unfold wrap. cbn [int_min int_max]. rewrite Z.sub_0_r, Z.add_0_r.
  change (18446744073709551615 - 0 + 1) with (2 ^ 64).
  change (9223372036854775807 - -9223372036854775808 + 1) with (2 ^ 64).
  rewrite Zplus_mod_idemp_l. f_equal. lia.
Qed.

Lemma fixed_codec f : fixed_typed f -> small (encode_fixed f) -> decode_fixed (encode_fixed f) = Some f.
Proof.
  intros [Hc Hs] Hsmall. rewrite fixed_fields in *. unfold decode_fixed.
  assert (fits U64 (scale f)) by (unfold fits in *; cbn [int_min int_max] in *; lia).
  rewrite parse_small by (done || typed_fields). cbn [mbind option_bind].
  set (l := _ ++ _).
  assert (sint 2 l = wrap I64 (Z.shiftr (coefficient f) 64)) as ->
    by (apply sint_at; [unfold l; find_field|apply wrap_range]).
  assert (uint 1 l = wrap U64 (wrap I64 (coefficient f))) as -> by (apply uint_at; unfold l; find_field).
  assert (uint 3 l = scale f) as -> by (apply uint_at; unfold l; find_field).
  rewrite wrap_u64_i64, Z.shiftr_div_pow2 by lia.
  assert (wrap I64 (coefficient f / 2 ^ 64) = coefficient f / 2 ^ 64) as ->.
  { apply wrap_fits. unfold fits in *. cbn [int_min int_max] in *. split.
    - apply Z.div_le_lower_bound; lia.
    - enough (coefficient f / 2 ^ 64 < 9223372036854775808) by lia.
      apply Z.div_lt_upper_bound; lia. }
  pose proof (Z.div_mod (coefficient f) (2 ^ 64) ltac:(lia)) as E.
  destruct f as [c s]. cbn [coefficient scale] in *. f_equal. f_equal. lia.
Qed.

Definition price_typed (p : Price) : Prop := fixed_typed (price0 p).
Definition quantity_typed (q : Quantity) : Prop := fixed_typed (qty0 q).
Definition opt_typed {A} (typed : A -> Prop) (o : option A) : Prop := forall x, o = Some x -> typed x.

Create HintDb codecs.
#[export] Hint Resolve fixed_codec : codecs.
#[export] Hint Extern 1 (small _) => assumption : codecs.
#[export] Hint Extern 1 (fixed_typed _) => assumption : codecs.
#[export] Hint Extern 1 (fits _ _) => assumption : codecs.

(** Reads one field of a parsed message. *)
Ltac read_msg := erewrite msg_at; [|find_field|solve [eauto 4 with codecs]]; cbn [mbind option_bind].
Ltac read_opt :=
  erewrite opt_msg_at; [|find_field|solve [unfold opt_typed, price_typed, quantity_typed in *; intros; eauto 6 with codecs]]; cbn [mbind option_bind].
Ltac read_uint := erewrite uint_at by find_field.
Ltac read_sint := erewrite sint_at; [|find_field|width].
Ltac read_varint_opt := erewrite varint_opt_at by find_field.
Ltac read_str_opt := erewrite str_opt_at by find_field.
Ltac start_decode E Hs :=
  rewrite E in *; rewrite parse_small by (done || typed_fields); split_small Hs;
  cbn [mbind option_bind].

Section Scalars.
Implicit Types (p : Price) (q : Quantity) (r : Rate).

Lemma price_fields p : encode_price p = enc_fields (mf 1 (encode_fixed (price0 p))).
Proof. unfold encode_price. to_fields. Qed.

Lemma price_codec p :
  fixed_typed (price0 p) -> small (encode_price p) -> decode_price (encode_price p) = Some p.
Proof.
  intros Hp Hs. unfold decode_price. start_decode (price_fields p) Hs. read_msg. by destruct p.
Qed.

Lemma quantity_fields q : encode_quantity q = enc_fields (mf 1 (encode_fixed (qty0 q))).
Proof. unfold encode_quantity. to_fields. Qed.

Lemma quantity_codec q :
  fixed_typed (qty0 q) -> small (encode_quantity q) -> decode_quantity (encode_quantity q) = Some q.
Proof.
  intros Hq Hs. unfold decode_quantity. start_decode (quantity_fields q) Hs. read_msg. by destruct q.
Qed.

Lemma rate_fields r : encode_rate r = enc_fields (mf 1 (encode_fixed (rate0 r))).
Proof. unfold encode_rate. to_fields. Qed.

Lemma rate_codec r :
  fixed_typed (rate0 r) -> small (encode_rate r) -> decode_rate (encode_rate r) = Some r.
Proof.
  intros Hr Hs. unfold decode_rate. start_decode (rate_fields r) Hs. read_msg. by destruct r.
Qed.

Lemma timestamp_fields ts : fits I64 ts -> encode_timestamp_ns ts = enc_fields (vf 1 (wrap U64 ts)).
Proof. intros Hts. unfold encode_timestamp_ns. to_fields. Qed.

Lemma timestamp_codec ts :
  fits I64 ts -> small (encode_timestamp_ns ts) -> decode_timestamp_ns (encode_timestamp_ns ts) = Some ts.
Proof.
  intros Hts Hs. unfold decode_timestamp_ns. start_decode (timestamp_fields ts Hts) Hs.
  cbn [fmap option_fmap option_map]. read_sint. done.
Qed.

Definition sequence_typed (s : SequenceRange) : Prop := fits U64 (seq_first s) /\ fits U64 (seq_last s).

Lemma sequence_fields s :
  encode_sequence_range s = enc_fields (vf 1 (seq_first s) ++ vf 2 (seq_last s)).
Proof. unfold encode_sequence_range. to_fields. Qed.

Lemma sequence_codec s :
  sequence_typed s -> small (encode_sequence_range s) ->
  decode_sequence_range (encode_sequence_range s) = Some s.
Proof.
  intros [H1 H2] Hs. unfold decode_sequence_range. start_decode (sequence_fields s) Hs.
  do 2 read_uint. by destruct s.
Qed.
End Scalars.

#[export] Hint Resolve price_codec quantity_codec rate_codec timestamp_codec sequence_codec : codecs.

(** ** Payloads: the widths of their fields, and what the encoding keeps *)

Section Payloads.

Definition trade_typed (t : Trade) : Prop :=
  price_typed (trade_price t) /\ quantity_typed (trade_quantity t).

Definition trade_kept (t : Trade) : Trade :=
  mkTrade (trade_price t) (trade_quantity t) (trade_aggressor t) (keep_nonempty (trade_id t)).

Lemma aggressor_fits a : fits I64 (aggressor_num a).
Proof. destruct a; cbn; width. Qed.

Lemma decode_aggressor_num a : decode_aggressor (wrap U64 (aggressor_num a)) = Some a.
Proof. by destruct a. Qed.

Lemma trade_fields t :
  encode_trade t =
  enc_fields (mf 1 (encode_price (trade_price t)) ++ mf 2 (encode_quantity (trade_quantity t)) ++
              vf 3 (wrap U64 (aggressor_num (trade_aggressor t))) ++ opt_fields (trade_id t) (sf 4)).
Proof. pose proof (aggressor_fits (trade_aggressor t)). unfold encode_trade. to_fields. Qed.

Lemma trade_codec t :
  trade_typed t -> small (encode_trade t) -> decode_trade (encode_trade t) = Some (trade_kept t).
Proof.
  intros [H1 H2] Hs. unfold decode_trade. start_decode (trade_fields t) Hs. do 2 read_msg. read_uint.
  rewrite decode_aggressor_num. cbn [mbind option_bind]. by read_str_opt.
Qed.

Definition quote_typed (q : Quote) : Prop :=
  price_typed (bid_price q) /\ opt_typed quantity_typed (bid_quantity q) /\
  price_typed (ask_price q) /\ opt_typed quantity_typed (ask_quantity q).

Lemma quote_fields q :
  encode_quote q =
  enc_fields (mf 1 (encode_price (bid_price q)) ++
              opt_fields (bid_quantity q) (fun x => mf 2 (encode_quantity x)) ++
              mf 3 (encode_price (ask_price q)) ++
              opt_fields (ask_quantity q) (fun x => mf 4 (encode_quantity x))).
Proof. unfold encode_quote. to_fields. Qed.

Lemma quote_codec q : quote_typed q -> small (encode_quote q) -> decode_quote (encode_quote q) = Some q.
Proof.
  intros (H1 & H2 & H3 & H4) Hs. unfold decode_quote. start_decode (quote_fields q) Hs.
  read_msg. read_opt. read_msg. read_opt. by destruct q.
Qed.

Definition level_typed (l : BookLevel) : Prop :=
  price_typed (level_price l) /\ quantity_typed (level_quantity l).

Lemma book_level_fields l :
  encode_book_level l =
  enc_fields (mf 1 (encode_price (level_price l)) ++ mf 2 (encode_quantity (level_quantity l))).
Proof. unfold encode_book_level. to_fields. Qed.

Lemma book_level_codec l :
  level_typed l -> small (encode_book_level l) -> decode_book_level (encode_book_level l) = Some l.
Proof.
  intros (H1 & H2) Hs. unfold decode_book_level. start_decode (book_level_fields l) Hs.
  do 2 read_msg. by destruct l.
Qed.

Definition change_typed (c : BookChange) : Prop :=
  price_typed (change_price c) /\ opt_typed quantity_typed (change_quantity c).

Lemma book_change_fields c :
  encode_book_change c =
  enc_fields (vf 1 (wrap U64 (book_side_num (change_side c))) ++
              vf 2 (wrap U64 (book_op_num (change_operation c))) ++
              mf 3 (encode_price (change_price c)) ++
              opt_fields (change_quantity c) (fun x => mf 4 (encode_quantity x))).
Proof.
  assert (fits I64 (book_side_num (change_side c))) by (destruct (change_side c); cbn; width).
  assert (fits I64 (book_op_num (change_operation c))) by (destruct (change_operation c); cbn; width).
  unfold encode_book_change. to_fields.
Qed.

Lemma book_change_codec c :
  change_typed c -> small (encode_book_change c) -> decode_book_change (encode_book_change c) = Some c.
Proof.
  intros (H1 & H2) Hs. unfold decode_book_change. start_decode (book_change_fields c) Hs.
  do 2 read_uint.
  assert (decode_book_side (wrap U64 (book_side_num (change_side c))) = Some (change_side c)) as ->
    by (by destruct (change_side c)).
  assert (decode_book_op (wrap U64 (book_op_num (change_operation c))) = Some (change_operation c)) as ->
    by (by destruct (change_operation c)).
  cbn [mbind option_bind]. read_msg. read_opt. by destruct c.
Qed.

Definition snapshot_typed (s : BookSnapshot) : Prop :=
  Forall level_typed (snapshot_bids s) /\ Forall level_typed (snapshot_asks s) /\
  opt_typed (fits U32) (snapshot_depth s).

Definition snapshot_kept (s : BookSnapshot) : BookSnapshot :=
  mkBookSnapshot (snapshot_bids s) (snapshot_asks s) (keep_nonzero (snapshot_depth s))
    (keep_nonempty (snapshot_checksum s)).

Lemma book_snapshot_fields s :
  encode_book_snapshot s =
  enc_fields (rep_fields 1 encode_book_level (snapshot_bids s) ++
              rep_fields 2 encode_book_level (snapshot_asks s) ++
              opt_fields (snapshot_depth s) (vf 3) ++ opt_fields (snapshot_checksum s) (sf 4)).
Proof. unfold encode_book_snapshot. to_fields. Qed.

Lemma levels_codec (l : list BookLevel) :
  Forall level_typed l -> Forall (fun x => small (encode_book_level x)) l ->
  Forall (fun x => decode_book_level (encode_book_level x) = Some x) l.
Proof.
  intros H1 H2. rewrite Forall_forall in *. intros x Hx. apply book_level_codec; auto.
Qed.

Lemma book_snapshot_codec s :
  snapshot_typed s -> small (encode_book_snapshot s) ->
  decode_book_snapshot (encode_book_snapshot s) = Some (snapshot_kept s).
Proof.
  intros (H1 & H2 & H3) Hs. unfold decode_book_snapshot.
  assert (forall d, snapshot_depth s = Some d -> fits U64 d) as H3'
    by (intros d Hd; specialize (H3 d Hd); unfold fits in *; cbn [int_min int_max] in *; lia).
  rewrite book_snapshot_fields in *.
  rewrite parse_small by (first [done | repeat (apply Forall_app_2);
    first [apply typed_rep; lia | apply typed_opt; intros x Hx;
           first [apply typed_vf; [lia|by apply H3']|apply typed_sf; lia]]]).
  split_small Hs. cbn [mbind option_bind].
  erewrite get_all_at; [|find_field|by apply levels_codec]. cbn [mbind option_bind].
  erewrite get_all_at; [|find_field|by apply levels_codec]. cbn [mbind option_bind].
  read_varint_opt. by read_str_opt.
Qed.

Definition delta_typed (d : BookDelta) : Prop := Forall change_typed (delta_changes d).
Definition delta_kept (d : BookDelta) : BookDelta :=
  mkBookDelta (delta_changes d) (keep_nonempty (delta_checksum d)).

Lemma book_delta_fields d :
  encode_book_delta d =
  enc_fields (rep_fields 1 encode_book_change (delta_changes d) ++
              opt_fields (delta_checksum d) (sf 2)).
Proof. unfold encode_book_delta. to_fields. Qed.

Lemma book_delta_codec d :
  delta_typed d -> small (encode_book_delta d) ->
  decode_book_delta (encode_book_delta d) = Some (delta_kept d).
Proof.
  intros H1 Hs. unfold decode_book_delta. start_decode (book_delta_fields d) Hs.
  erewrite get_all_at; [|find_field|].
  - cbn [mbind option_bind]. by read_str_opt.
  - unfold delta_typed in H1. rewrite Forall_forall in *. intros x Hx. apply book_change_codec; auto.
Qed.

Definition candle_typed (c : Candle) : Prop :=
  price_typed (candle_open c) /\ price_typed (candle_high c) /\ price_typed (candle_low c) /\
  price_typed (candle_close c) /\ quantity_typed (candle_volume c) /\
  fits I64 (candle_interval_ns c) /\ fits I64 (candle_start_ts c).

Lemma candle_fields c :
  candle_typed c ->
  encode_candle c =
  enc_fields (mf 1 (encode_price (candle_open c)) ++ mf 2 (encode_price (candle_high c)) ++
              mf 3 (encode_price (candle_low c)) ++ mf 4 (encode_price (candle_close c)) ++
              mf 5 (encode_quantity (candle_volume c)) ++ vf 6 (wrap U64 (candle_interval_ns c)) ++
              mf 7 (encode_timestamp_ns (candle_start_ts c))).
Proof. intros (_ & _ & _ & _ & _ & H & _). unfold encode_candle. to_fields. Qed.

Lemma candle_codec c :
  candle_typed c -> small (encode_candle c) -> decode_candle (encode_candle c) = Some c.
Proof.
  intros Hc Hs. pose proof Hc as (H1 & H2 & H3 & H4 & H5 & H6 & H7). unfold decode_candle.
  start_decode (candle_fields c Hc) Hs. do 6 read_msg. read_sint. by destruct c.
Qed.

Lemma price_point_fields p : encode_price_point p = enc_fields (mf 1 (encode_price (point_price p))).
Proof. unfold encode_price_point. to_fields. Qed.

Lemma price_point_codec p :
  price_typed (point_price p) -> small (encode_price_point p) ->
  decode_price_point (encode_price_point p) = Some p.
Proof.
  intros H Hs. unfold decode_price_point. start_decode (price_point_fields p) Hs. read_msg.
  by destruct p.
Qed.

Definition funding_typed (f : Funding) : Prop :=
  fixed_typed (rate0 (funding_rate f)) /\ opt_typed (fits I64) (next_funding_ts f).

Lemma funding_fields f :
  encode_funding f =
  enc_fields (mf 1 (encode_rate (funding_rate f)) ++
              opt_fields (next_funding_ts f) (fun ts => mf 2 (encode_timestamp_ns ts))).
Proof. unfold encode_funding. to_fields. Qed.

Lemma funding_codec f :
  funding_typed f -> small (encode_funding f) -> decode_funding (encode_funding f) = Some f.
Proof.
  intros [H1 H2] Hs. unfold decode_funding. start_decode (funding_fields f) Hs. read_msg. read_opt.
  by destruct f.
Qed.

Lemma open_interest_fields o :
  encode_open_interest o = enc_fields (mf 1 (encode_quantity (oi_quantity o))).
Proof. unfold encode_open_interest. to_fields. Qed.

Lemma open_interest_codec o :
  quantity_typed (oi_quantity o) -> small (encode_open_interest o) ->
  decode_open_interest (encode_open_interest o) = Some o.
Proof.
  intros H Hs. unfold decode_open_interest. start_decode (open_interest_fields o) Hs. read_msg.
  by destruct o.
Qed.

Definition liquidation_typed (l : Liquidation) : Prop :=
  price_typed (liq_price l) /\ quantity_typed (liq_quantity l).

Lemma liquidation_fields l :
  encode_liquidation l =
  enc_fields (mf 1 (encode_price (liq_price l)) ++ mf 2 (encode_quantity (liq_quantity l)) ++
              vf 3 (wrap U64 (aggressor_num (liq_side l)))).
Proof. pose proof (aggressor_fits (liq_side l)). unfold encode_liquidation. to_fields. Qed.

Lemma liquidation_codec l :
  liquidation_typed l -> small (encode_liquidation l) ->
  decode_liquidation (encode_liquidation l) = Some l.
Proof.
  intros [H1 H2] Hs. unfold decode_liquidation. start_decode (liquidation_fields l) Hs.
  do 2 read_msg. read_uint. rewrite decode_aggressor_num. by destruct l.
Qed.

Definition statistics_typed (s : Statistics24h) : Prop :=
  opt_typed price_typed (stat_open s) /\ opt_typed price_typed (stat_high s) /\
  opt_typed price_typed (stat_low s) /\ opt_typed price_typed (stat_close s) /\
  opt_typed quantity_typed (stat_volume s) /\ opt_typed quantity_typed (stat_quote_volume s).

Lemma statistics_fields s :
  encode_statistics_24h s =
  enc_fields (opt_fields (stat_open s) (fun p => mf 1 (encode_price p)) ++
              opt_fields (stat_high s) (fun p => mf 2 (encode_price p)) ++
              opt_fields (stat_low s) (fun p => mf 3 (encode_price p)) ++
              opt_fields (stat_close s) (fun p => mf 4 (encode_price p)) ++
              opt_fields (stat_volume s) (fun q => mf 5 (encode_quantity q)) ++
              opt_fields (stat_quote_volume s) (fun q => mf 6 (encode_quantity q))).
Proof. unfold encode_statistics_24h. to_fields. Qed.

Lemma statistics_codec s :
  statistics_typed s -> small (encode_statistics_24h s) ->
  decode_statistics_24h (encode_statistics_24h s) = Some s.
Proof.
  intros (H1 & H2 & H3 & H4 & H5 & H6) Hs. unfold decode_statistics_24h.
  start_decode (statistics_fields s) Hs. do 6 read_opt. by destruct s.
Qed.

Lemma instrument_update_codec u :
  small (encode_instrument_update u) -> decode_instrument_update (encode_instrument_update u) = Some u.
Proof. intros _. destruct u as [[]]; vm_compute; reflexivity. Qed.

Lemma venue_status_fields v : encode_venue_status v = enc_fields (sf 1 (status_message v)).
Proof. unfold encode_venue_status. to_fields. Qed.

Lemma venue_status_codec v :
  small (encode_venue_status v) -> decode_venue_status (encode_venue_status v) = Some v.
Proof.
  intros Hs. unfold decode_venue_status. rewrite venue_status_fields in *.
  rewrite parse_small by (done || typed_fields). cbn [mbind option_bind].
  erewrite str_at by find_field. destruct v as [m]. cbn. destruct (String.eqb_spec m "") as [->|]; done.
Qed.
End Payloads.

(** ** Events and envelopes *)

Definition event_typed (ev : MarketEvent) : Prop :=
  match ev with
  | EvTrade t => trade_typed t
  | EvQuote q => quote_typed q
  | EvBookSnapshot s => snapshot_typed s
  | EvBookDelta d => delta_typed d
  | EvCandle c => candle_typed c
  | EvMarkPrice p | EvIndexPrice p => price_typed (point_price p)
  | EvFunding f => funding_typed f
  | EvOpenInterest o => quantity_typed (oi_quantity o)
  | EvLiquidation l => liquidation_typed l
  | EvStatistics24h s => statistics_typed s
  | EvInstrumentUpdate _ | EvVenueStatus _ => True
  end.

Definition event_kept (ev : MarketEvent) : MarketEvent :=
  match ev with
  | EvTrade t => EvTrade (trade_kept t)
  | EvBookSnapshot s => EvBookSnapshot (snapshot_kept s)
  | EvBookDelta d => EvBookDelta (delta_kept d)
  | ev => ev
  end.

#[export] Hint Resolve trade_codec quote_codec book_snapshot_codec book_delta_codec candle_codec
  price_point_codec funding_codec open_interest_codec liquidation_codec statistics_codec
  instrument_update_codec venue_status_codec : codecs.

(** The [oneof] holds one nested message. *)
Lemma decode_oneof ev n b r :
  encode_market_event ev = write_msg [] n b -> 0 < n < 2 ^ 29 -> small (encode_market_event ev) ->
  (small b -> decode_payload n b = r) -> decode_market_event (encode_market_event ev) = r.
Proof.
  intros E Hn Hs Hr. rewrite E in *. clear E. rewrite write_msg_fields, app_nil_l in *. unfold decode_market_event.
  rewrite parse_small by (done || by apply typed_mf). apply Hr.
  apply small_fields in Hs. by rewrite small_mf in Hs.
Qed.

Lemma fmap_Some_eq {A B} (f : A -> B) o x : o = Some x -> f <$> o = Some (f x).
Proof. by intros ->. Qed.

Lemma event_codec ev :
  event_typed ev -> small (encode_market_event ev) ->
  decode_market_event (encode_market_event ev) = Some (event_kept ev).
Proof.
  intros Ht Hs. destruct ev;
    (eapply decode_oneof; [reflexivity|lia|exact Hs|]; clear Hs; intros Hs; cbn [event_kept];
     apply fmap_Some_eq).
  1: exact (trade_codec _ Ht Hs).
  1: exact (quote_codec _ Ht Hs).
  1: exact (book_snapshot_codec _ Ht Hs).
  1: exact (book_delta_codec _ Ht Hs).
  1: exact (candle_codec _ Ht Hs).
  1, 2: exact (price_point_codec _ Ht Hs).
  1: exact (funding_codec _ Ht Hs).
  1: exact (open_interest_codec _ Ht Hs).
  1: exact (liquidation_codec _ Ht Hs).
  1: exact (statistics_codec _ Ht Hs).
  1: exact (instrument_update_codec _ Hs).
  exact (venue_status_codec _ Hs).
Qed.

(** The integer widths of the fields of an envelope. *)
Definition envelope_typed (env : EventEnvelope) : Prop :=
  fits U16 (env_schema_version env) /\ fits U16 (env_venue env) /\
  opt_typed (fits U32) (env_instrument env) /\ fits U64 (env_connection env) /\
  fits U64 (env_session env) /\ fits U64 (env_frame_seq env) /\ fits U16 (env_event_index env) /\
  opt_typed (fits I64) (env_exchange_ts env) /\ fits I64 (env_receive_ts env) /\
  opt_typed sequence_typed (env_source_sequence env) /\ fits U32 (env_flags env) /\
  event_typed (env_payload env).

Definition envelope_kept (env : EventEnvelope) : EventEnvelope :=
  mkEventEnvelope (env_schema_version env) (env_venue env) (keep_nonzero (env_instrument env))
    (env_connection env) (env_session env) (env_frame_seq env) (env_event_index env)
    (env_exchange_ts env) (env_receive_ts env) (env_source_sequence env) (env_flags env)
    (event_kept (env_payload env)).

Lemma envelope_fields env :
  encode_event_envelope env =
  enc_fields (vf 1 (env_schema_version env) ++ vf 2 (env_venue env) ++
              opt_fields (env_instrument env) (vf 3) ++ vf 4 (env_connection env) ++
              vf 5 (env_session env) ++ vf 6 (env_frame_seq env) ++ vf 7 (env_event_index env) ++
              opt_fields (env_exchange_ts env) (fun ts => mf 8 (encode_timestamp_ns ts)) ++
              mf 9 (encode_timestamp_ns (env_receive_ts env)) ++
              opt_fields (env_source_sequence env) (fun s => mf 10 (encode_sequence_range s)) ++
              vf 11 (env_flags env) ++ mf 12 (encode_market_event (env_payload env))).
Proof. unfold encode_event_envelope, write_event_envelope. to_fields. Qed.

Lemma fits_u64_of t z : (t = U16 \/ t = U32) -> fits t z -> fits U64 z.
Proof. intros [->| ->]; unfold fits; cbn [int_min int_max]; lia. Qed.

Lemma envelope_codec env :
  envelope_typed env -> fits U64 (Z.of_nat (length (encode_event_envelope env))) ->
  decode_event_envelope (encode_event_envelope env) = Some (envelope_kept env).
Proof.
  intros (H1 & H2 & H3 & H4 & H5 & H6 & H7 & H8 & H9 & H10 & H11 & H12) Hs.
  change (small (encode_event_envelope env)) in Hs. unfold decode_event_envelope.
  apply (fits_u64_of U16) in H1, H2, H7; [|by auto..]. apply (fits_u64_of U32) in H11; [|by auto].
  assert (opt_typed (fits U64) (env_instrument env)) as H3'
    by (intros x Hx; apply (fits_u64_of U32); [by auto|by apply H3]).
  rewrite envelope_fields in *.
  rewrite parse_small by (first [done | repeat (apply Forall_app_2); first
    [ apply typed_vf; [lia|done] | apply typed_mf; lia
    | apply typed_opt; intros x Hx; first [apply typed_mf; lia|apply typed_vf; [lia|by apply H3']] ]]).
  split_small Hs. cbn [mbind option_bind].
  erewrite (msg_at 12); [|find_field|by apply event_codec]. do 2 read_opt. read_msg.
  do 2 read_uint. read_varint_opt. do 5 read_uint. by destruct env.
Qed.

(** C26. Protobuf round trip: an envelope whose fields respect their Rust widths
    encodes to bytes that a protobuf decoder of the published schema reads back
    as the same envelope, every payload kind and every nested decimal, level and
    change included; only an [optional] scalar that holds its default (instrument 0,
    depth 0, an empty trade id or checksum) comes back as absent. *)
Theorem protobuf_round_trip env :
  envelope_typed env -> fits U64 (Z.of_nat (length (encode_event_envelope env))) ->
  decode_event_envelope (encode_event_envelope env) = Some (envelope_kept env).
Proof. apply envelope_codec. Qed.

Lemma sample_envelope_typed : envelope_typed sample_envelope.
Proof.
  assert (forall t z, in_ty t z = true -> fits t z) as F by (intros t z; apply in_ty_true).
  assert (forall f, in_ty I128 (coefficient f) && in_ty U8 (scale f) = true -> fixed_typed f) as G
    by (intros f [H1 H2]%andb_true_iff; split; by apply F).
  do 2 (split; [by apply F|]). split; [intros x [= <-]; by apply F|].
  do 4 (split; [by apply F|]). split; [intros x [= <-]; by apply F|].
  split; [by apply F|]. split; [intros x [=]|]. split; [by apply F|]. split; by apply G.
Qed.

Lemma protobuf_round_trip_witness :
  decode_event_envelope (encode_event_envelope sample_envelope) = Some sample_envelope.
Proof.
  apply (protobuf_round_trip sample_envelope); [exact sample_envelope_typed|].
  vm_compute; split; discriminate.
Defined.
