(* ===== verification/Sinks.v ===== *)
(** * Event sinks ([crates/sinks/src/sink.rs], [memory.rs],
    [protobuf_file_bin.rs])

    The interface every consumer of normalized events implements, the loop
    that drains a dispatcher into one, and two implementations: the bounded
    in-memory sink and the length-prefixed protobuf file. *)

From stdpp Require Import base tactics numbers strings option list.
From Stdlib Require Import ZArith Lia.
From S2P Require Import Prelude Bytes Collections Fixed Model Dispatch ProtobufWire.

Local Open Scope Z_scope.

Inductive SinkError :=
  | SinkFailEngine
  | SinkDeadlineExceeded
  | SinkUnsupportedPolicy (p : OverflowPolicy)
  | SinkIo (detail : string)
  | SinkUnsupported (what : string).

(** [From<DispatchError>]. *)
Definition sink_error_from (value : DispatchError) : SinkError :=
  match value with
  | EngineFailed => SinkFailEngine
  | DeadlineExceeded => SinkDeadlineExceeded
  | UnsupportedPolicy p => SinkUnsupportedPolicy p
  end.

(** ** The interface *)

Class EventSink (S : Type) := {
  sink_push_batch : EventBatch -> Eff S SinkError PushOutcome;
  sink_push_system : SystemEvent -> Eff S SinkError PushOutcome
}.

Record ForwardReport := mkForwardReport { report_dropped_batches : Z; report_dropped_systems : Z }.

#[export] Instance eta_ForwardReport : Eta ForwardReport := fun r =>
  mkForwardReport (report_dropped_batches r) (report_dropped_systems r).

Definition report_dropped_total (r : ForwardReport) : Z :=
  wrap U64 (report_dropped_batches r + report_dropped_systems r).

Definition accepted (o : PushOutcome) : bool :=
  match o with Accepted => true | DroppedNewest | DroppedOldest _ => false end.

Section Forward.
Context {S : Type} `{EventSink S}.

(** [src] and [sink] are the two borrowed arguments.  Each pass pops an item,
    so one more than the queue length is enough fuel; [None] would mean that
    it was not. *)
Fixpoint forward_batches (fuel : nat) (src : EventDispatcher) (sink : S) (report : ForwardReport)
    : option (result ForwardReport SinkError * EventDispatcher * S) :=
  match fuel with
  | O => None
  | Datatypes.S fuel =>
      match front (batches src) with
      | None => Some (Ok report, src, sink)
      | Some batch =>
          match sink_push_batch batch sink with
          | (Err e, sink) => Some (Err e, src, sink)
          | (Ok outcome, sink) =>
              let '(_, src) := pop_batch src in
              forward_batches fuel src sink
                (if accepted outcome then report
                 else report ⟪ report_dropped_batches := wrap U64 (report_dropped_batches report + 1) ⟫)
          end
      end
  end.

Fixpoint forward_systems (fuel : nat) (src : EventDispatcher) (sink : S) (report : ForwardReport)
    : option (result ForwardReport SinkError * EventDispatcher * S) :=
  match fuel with
  | O => None
  | Datatypes.S fuel =>
      match front (systems src) with
      | None => Some (Ok report, src, sink)
      | Some event =>
          match sink_push_system event sink with
          | (Err e, sink) => Some (Err e, src, sink)
          | (Ok outcome, sink) =>
              let '(_, src) := pop_system src in
              forward_systems fuel src sink
                (if accepted outcome then report
                 else report ⟪ report_dropped_systems := wrap U64 (report_dropped_systems report + 1) ⟫)
          end
      end
  end.

Definition forward_dispatcher (src : EventDispatcher) (sink : S)
    : option (result ForwardReport SinkError * EventDispatcher * S) :=
  match forward_batches (Datatypes.S (length (items (batches src)))) src sink (mkForwardReport 0 0) with
  | Some (Ok report, src, sink) =>
      forward_systems (Datatypes.S (length (items (systems src)))) src sink report
  | r => r
  end.
End Forward.

(** ** [MemorySink] *)

Record MemorySink := mkMemorySink { mem_inner : EventDispatcher }.

Definition memory_new (batch_capacity system_capacity : Z) (policy : OverflowPolicy) : option MemorySink :=
  mkMemorySink <$> dispatcher_new batch_capacity system_capacity policy.

Definition mem_zoom {A} (m : Eff EventDispatcher DispatchError A) : Eff MemorySink SinkError A :=
  fun s => let '(r, d) := m (mem_inner s) in (map_err sink_error_from r, mkMemorySink d).

Definition mem_push_batch (batch : EventBatch) : Eff MemorySink SinkError PushOutcome :=
  mem_zoom (push_batch batch).
Definition mem_push_system (event : SystemEvent) : Eff MemorySink SinkError PushOutcome :=
  mem_zoom (push_system event).

Definition mem_pop_batch (s : MemorySink) : option EventBatch * MemorySink :=
  let '(b, d) := pop_batch (mem_inner s) in (b, mkMemorySink d).
Definition mem_pop_system (s : MemorySink) : option SystemEvent * MemorySink :=
  let '(e, d) := pop_system (mem_inner s) in (e, mkMemorySink d).

Definition mem_batch_len (s : MemorySink) : Z := queue_len (batches (mem_inner s)).
Definition mem_system_len (s : MemorySink) : Z := queue_len (systems (mem_inner s)).
Definition mem_dropped_batches (s : MemorySink) : Z := dropped_total (batches (mem_inner s)).
Definition mem_dropped_systems (s : MemorySink) : Z := dropped_total (systems (mem_inner s)).

#[export] Instance memory_sink : EventSink MemorySink := {|
  sink_push_batch := mem_push_batch;
  sink_push_system := mem_push_system
|}.

(** ** [ProtobufBinaryFileSink] over the file it writes *)

Record ProtobufBinaryFileSink (W : Type) := mkProtobufBinaryFileSink {
  pb_inner : MemorySink;
  pb_writer : W;
  pb_records_written : Z
}.
Arguments mkProtobufBinaryFileSink {W}.
Arguments pb_inner {W}.
Arguments pb_writer {W}.
Arguments pb_records_written {W}.

#[export] Instance eta_ProtobufBinaryFileSink W : Eta (ProtobufBinaryFileSink W) := fun s =>
  mkProtobufBinaryFileSink (pb_inner s) (pb_writer s) (pb_records_written s).

Section BinaryFile.
Context {W : Type} `{Write W}.

(** The JSON body of a system event, made by [serde_json]. *)
Context (system_body : SystemEvent -> result (list Z) string).

Definition pb_io (m : Eff W string unit) : Eff (ProtobufBinaryFileSink W) SinkError unit := fun s =>
  let '(r, w) := m (pb_writer s) in (map_err SinkIo r, s ⟪ pb_writer := w ⟫).

Definition pb_write_record (body : list Z) : Eff (ProtobufBinaryFileSink W) SinkError unit :=
  let! len := elift (ok_or (to_ty U32 (Z.of_nat (length body)))
                       (SinkIo "record exceeds u32::MAX bytes")) in
  pb_io (write_all (to_le_bytes 4 len)) !;
  pb_io (write_all body) !;
  emod (fun s => s ⟪ pb_records_written := wrap U64 (pb_records_written s + 1) ⟫).

Definition pb_pop_batch : Eff (ProtobufBinaryFileSink W) SinkError (option EventBatch) := fun s =>
  let '(b, m) := mem_pop_batch (pb_inner s) in (Ok b, s ⟪ pb_inner := m ⟫).
Definition pb_pop_system : Eff (ProtobufBinaryFileSink W) SinkError (option SystemEvent) := fun s =>
  let '(e, m) := mem_pop_system (pb_inner s) in (Ok e, s ⟪ pb_inner := m ⟫).

(** [while let Some(batch) = self.inner.pop_batch()]; the fuel is one more than
    the number of queued items. *)
Fixpoint pb_write_batches (fuel : nat) : Eff (ProtobufBinaryFileSink W) SinkError unit :=
  match fuel with
  | O => eret tt
  | S fuel =>
      let! b := pb_pop_batch in
      match b with
      | None => eret tt
      | Some batch =>
          efor (batch_events batch) (fun env => pb_write_record (encode_event_envelope env)) !;
          pb_write_batches fuel
      end
  end.

Definition flush_accepted_batches : Eff (ProtobufBinaryFileSink W) SinkError unit :=
  let! s := eget in
  pb_write_batches (S (length (items (batches (mem_inner (pb_inner s)))))) !;
  pb_io flush.

Fixpoint pb_write_systems (fuel : nat) : Eff (ProtobufBinaryFileSink W) SinkError unit :=
  match fuel with
  | O => eret tt
  | S fuel =>
      let! e := pb_pop_system in
      match e with
      | None => eret tt
      | Some ev =>
          let! body := elift (map_err SinkIo (system_body ev)) in
          pb_write_record body !;
          pb_write_systems fuel
      end
  end.

Definition flush_accepted_systems : Eff (ProtobufBinaryFileSink W) SinkError unit :=
  let! s := eget in
  pb_write_systems (S (length (items (systems (mem_inner (pb_inner s)))))) !;
  pb_io flush.

Definition pb_mem {A} (m : Eff MemorySink SinkError A) : Eff (ProtobufBinaryFileSink W) SinkError A :=
  ezoom pb_inner (fun m s => s ⟪ pb_inner := m ⟫) m.

Definition pb_push_batch (batch : EventBatch) : Eff (ProtobufBinaryFileSink W) SinkError PushOutcome :=
  let! outcome := pb_mem (mem_push_batch batch) in
  match outcome with
  | Accepted | DroppedOldest _ => flush_accepted_batches
  | DroppedNewest => eret tt
  end !;
  eret outcome.

Definition pb_push_system (event : SystemEvent) : Eff (ProtobufBinaryFileSink W) SinkError PushOutcome :=
  let! outcome := pb_mem (mem_push_system event) in
  match outcome with
  | Accepted | DroppedOldest _ => flush_accepted_systems
  | DroppedNewest => eret tt
  end !;
  eret outcome.

Definition binary_file_sink : EventSink (ProtobufBinaryFileSink W) := {|
  sink_push_batch := pb_push_batch;
  sink_push_system := pb_push_system
|}.
End BinaryFile.

(** ** Length-prefixed streams *)

(** The bytes [pb_write_record] appends for one body. *)
Definition framed (body : list Z) : list Z := to_le_bytes 4 (Z.of_nat (length body)) ++ body.
Definition stream (bodies : list (list Z)) : list Z := concat (framed <$> bodies).
Definition fits_u32 (body : list Z) : Prop := fits U32 (Z.of_nat (length body)).

Lemma length_framed b : length (framed b) = (4 + length b)%nat.
Proof. unfold framed. by rewrite length_app, length_to_le_bytes. Qed.

(** One pass of the loop over a complete record. *)
Lemma read_records_step fuel pre b rest out :
  fits_u32 b ->
  read_records_loop (S fuel) (pre ++ framed b ++ rest) (length pre) out =
  read_records_loop fuel ((pre ++ framed b) ++ rest) (length (pre ++ framed b)) (out ++ [b]).
Proof.
  intros Hb. cbn [read_records_loop]. rewrite !length_app, length_framed.
  rewrite (proj2 (Nat.ltb_lt _ _)) by lia. rewrite (proj2 (Nat.ltb_ge _ 4)) by lia.
  rewrite drop_app_length. unfold framed at 1 2 3 4. rewrite <- (app_assoc (to_le_bytes 4 _)).
  rewrite (take_app_length' (to_le_bytes 4 _)) by done. rewrite le_u32 by done. rewrite Nat2Z.id.
  rewrite (proj2 (Nat.ltb_ge _ _)) by lia.
  rewrite <- app_assoc. replace (length pre + 4 + length b)%nat with (length pre + (4 + length b))%nat by lia.
  f_equal. f_equal. f_equal. unfold framed. rewrite <- drop_drop, drop_app_length, <- app_assoc.
  rewrite (drop_app_length' (to_le_bytes 4 _)) by done. apply take_app_length.
Qed.

Lemma read_records_stream bodies fuel pre rest out :
  Forall fits_u32 bodies ->
  read_records_loop (length bodies + fuel) (pre ++ stream bodies ++ rest) (length pre) out =
  read_records_loop fuel ((pre ++ stream bodies) ++ rest) (length (pre ++ stream bodies)) (out ++ bodies).
Proof.
  intros Hb. revert pre out. induction Hb as [|b bodies Hb _ IH]; intros pre out.
  { cbn. by rewrite !app_nil_r. }
  change (stream (b :: bodies)) with (framed b ++ stream bodies). cbn [length Nat.add].
  rewrite <- (app_assoc (framed b)), read_records_step by done.
  rewrite IH. by rewrite <- !app_assoc.
Qed.

Lemma stream_length bodies : (length bodies <= length (stream bodies))%nat.
Proof.
  induction bodies as [|b bodies IH]; [done|].
  change (stream (b :: bodies)) with (framed b ++ stream bodies).
  rewrite length_app, length_framed. simpl. lia.
Qed.

Lemma read_stream bodies :
  Forall fits_u32 bodies -> read_length_prefixed_records (stream bodies) = Some (Ok bodies).
Proof.
  intros Hb. unfold read_length_prefixed_records. pose proof (stream_length bodies).
  replace (S (length (stream bodies)))
    with (length bodies + S (length (stream bodies) - length bodies))%nat by lia.
  pose proof (read_records_stream bodies (S (length (stream bodies) - length bodies)) [] [] [] Hb) as E.
  cbn [app length] in E. rewrite app_nil_r in E. rewrite E. cbn [read_records_loop].
  by rewrite Nat.ltb_irrefl.
Qed.

(** ** Forwarding, against any sink *)

Section ForwardSpec.
Context {S : Type} `{EventSink S}.

(** Pushing a list of items in order, all of them accepted or dropped by the
    sink's policy. *)
Inductive pushes {X} (push : X -> Eff S SinkError PushOutcome)
    : list X -> S -> list PushOutcome -> S -> Prop :=
  | pushes_nil s : pushes push [] s [] s
  | pushes_cons x l s o s1 outs s2 :
      push x s = (Ok o, s1) -> pushes push l s1 outs s2 -> pushes push (x :: l) s (o :: outs) s2.

Definition count_dropped (outs : list PushOutcome) : Z :=
  Z.of_nat (length (filter (fun o => accepted o = false) outs)).

Definition with_batches (src : EventDispatcher) (l : list EventBatch) : EventDispatcher :=
  src ⟪ batches := (batches src) ⟪ items := l ⟫ ⟫.
Definition with_systems (src : EventDispatcher) (l : list SystemEvent) : EventDispatcher :=
  src ⟪ systems := (systems src) ⟪ items := l ⟫ ⟫.

(** How a call of [forward_dispatcher] ends: everything is delivered in order
    and the queues are empty, or the item the sink refused is still at the
    front of its queue, with everything behind it. *)
Inductive forwards (src : EventDispatcher) (sink : S)
    : result ForwardReport SinkError -> EventDispatcher -> S -> Prop :=
  | forwards_all outs1 s1 outs2 s2 :
      pushes sink_push_batch (items (batches src)) sink outs1 s1 ->
      pushes sink_push_system (items (systems src)) s1 outs2 s2 ->
      forwards src sink
        (Ok (mkForwardReport (wrap U64 (count_dropped outs1)) (wrap U64 (count_dropped outs2))))
        (with_systems (with_batches src []) []) s2
  | forwards_batch_error delivered b rest outs s1 e s2 :
      items (batches src) = delivered ++ b :: rest ->
      pushes sink_push_batch delivered sink outs s1 -> sink_push_batch b s1 = (Err e, s2) ->
      forwards src sink (Err e) (with_batches src (b :: rest)) s2
  | forwards_system_error outs1 s1 delivered ev rest outs2 s2 e s3 :
      pushes sink_push_batch (items (batches src)) sink outs1 s1 ->
      items (systems src) = delivered ++ ev :: rest ->
      pushes sink_push_system delivered s1 outs2 s2 -> sink_push_system ev s2 = (Err e, s3) ->
      forwards src sink (Err e) (with_systems (with_batches src []) (ev :: rest)) s3.

(** The same as a function on one lane: the error, what is left, the outcomes
    and the sink. *)
Fixpoint deliver {X} (push : X -> Eff S SinkError PushOutcome) (l : list X) (s : S)
    : option SinkError * list X * list PushOutcome * S :=
  match l with
  | [] => (None, [], [], s)
  | x :: l' =>
      match push x s with
      | (Err e, s1) => (Some e, l, [], s1)
      | (Ok o, s1) => let '(e, rest, outs, s2) := deliver push l' s1 in (e, rest, o :: outs, s2)
      end
  end.

Lemma deliver_spec {X} (push : X -> Eff S SinkError PushOutcome) l s e rest outs s2 :
  deliver push l s = (e, rest, outs, s2) ->
  match e with
  | None => rest = [] /\ pushes push l s outs s2
  | Some e => exists delivered x rest' s1, rest = x :: rest' /\ l = delivered ++ x :: rest' /\
                pushes push delivered s outs s1 /\ push x s1 = (Err e, s2)
  end.
Proof.
  revert s e outs. induction l as [|x l IH]; intros s e outs; cbn [deliver].
  { intros [= <- <- <- <-]. split; [done|constructor]. }
  destruct (push x s) as [[o|e1] s1] eqn:E.
  - destruct (deliver push l s1) as [[[e1 rest1] outs1] s3] eqn:Ed. intros [= <- <- <- <-].
    specialize (IH s1 e1 outs1 Ed). destruct e1 as [e1|].
    + destruct IH as (d & y & r & s4 & -> & -> & Hp & Hy). exists (x :: d), y, r, s4.
      repeat split; [by econstructor|done].
    + destruct IH as [-> Hp]. split; [done|]. by econstructor.
  - intros [= <- <- <- <-]. exists [], x, l, s. repeat split; [constructor|done].
Qed.

Lemma count_dropped_cons o outs :
  count_dropped (o :: outs) = (if accepted o then 0 else 1) + count_dropped outs.
Proof. unfold count_dropped. rewrite filter_cons. destruct o; simpl; lia. Qed.

Lemma wrap_add_wrap t a b : wrap t (wrap t a + b) = wrap t (a + b).
Proof.
  unfold wrap. set (m := int_max t - int_min t + 1).
  replace ((a - int_min t) mod m + int_min t + b - int_min t) with ((a - int_min t) mod m + b) by lia.
  rewrite Zplus_mod_idemp_l. do 2 f_equal. lia.
Qed.

(** A counter after [outs] were counted into it. *)
Definition counted (n : Z) (outs : list PushOutcome) : Z := wrap U64 (n + count_dropped outs).

Lemma counted_cons n o outs :
  counted (if accepted o then n else wrap U64 (n + 1)) outs = counted n (o :: outs).
Proof.
  unfold counted. rewrite count_dropped_cons. destruct (accepted o); [done|].
  by rewrite wrap_add_wrap, Z.add_assoc.
Qed.

Lemma forward_batches_deliver fuel src sink rb rs :
  (length (items (batches src)) < fuel)%nat -> fits U64 rb ->
  forward_batches fuel src sink (mkForwardReport rb rs) =
  let '(e, rest, outs, s) := deliver sink_push_batch (items (batches src)) sink in
  Some (match e with Some e => Err e | None => Ok (mkForwardReport (counted rb outs) rs) end,
        with_batches src rest, s).
Proof.
  revert src sink rb. induction fuel as [|fuel IH]; intros src sink rb Hlen Hfit; [lia|].
  destruct src as [[cap pol its dr] sys]. cbn [batches items forward_batches front] in *.
  destruct its as [|b its]; cbn [head deliver front batches items].
  { unfold counted, count_dropped. cbn. by rewrite Z.add_0_r, wrap_fits. }
  destruct (sink_push_batch b sink) as [[o|e] s1]; [|done].
  assert (forall q, pop_batch (mkEventDispatcher (mkBoundedQueue cap pol (b :: its) dr) q) =
    (Some b, mkEventDispatcher (mkBoundedQueue cap pol its dr) q)) as -> by done.
  replace (if accepted o then mkForwardReport rb rs else _)
    with (mkForwardReport (if accepted o then rb else wrap U64 (rb + 1)) rs) by (by destruct (accepted o)).
  rewrite IH by (first [cbn in *; lia | destruct (accepted o); [done|apply wrap_range]]).
  cbn [batches items]. destruct (deliver sink_push_batch its s1) as [[[e rest] outs] s2].
  by rewrite counted_cons.
Qed.

Lemma forward_systems_deliver fuel src sink rb rs :
  (length (items (systems src)) < fuel)%nat -> fits U64 rs ->
  forward_systems fuel src sink (mkForwardReport rb rs) =
  let '(e, rest, outs, s) := deliver sink_push_system (items (systems src)) sink in
  Some (match e with Some e => Err e | None => Ok (mkForwardReport rb (counted rs outs)) end,
        with_systems src rest, s).
Proof.
  revert src sink rs. induction fuel as [|fuel IH]; intros src sink rs Hlen Hfit; [lia|].
  destruct src as [bat [cap pol its dr]]. cbn [systems items forward_systems front] in *.
  destruct its as [|b its]; cbn [head deliver front systems items].
  { unfold counted, count_dropped. cbn. by rewrite Z.add_0_r, wrap_fits. }
  destruct (sink_push_system b sink) as [[o|e] s1]; [|done].
  assert (forall q, pop_system (mkEventDispatcher q (mkBoundedQueue cap pol (b :: its) dr)) =
    (Some b, mkEventDispatcher q (mkBoundedQueue cap pol its dr))) as -> by done.
  replace (if accepted o then mkForwardReport rb rs else _)
    with (mkForwardReport rb (if accepted o then rs else wrap U64 (rs + 1))) by (by destruct (accepted o)).
  rewrite IH by (first [cbn in *; lia | destruct (accepted o); [done|apply wrap_range]]).
  cbn [systems items]. destruct (deliver sink_push_system its s1) as [[[e rest] outs] s2].
  by rewrite counted_cons.
Qed.

(** C31. Forwarding into any sink terminates and loses nothing: either every queued
    batch and then every queued system event was pushed in order, the queues are
    empty and the report counts exactly the items the sink did not accept; or the
    sink failed, its error is returned, and the refused item and everything
    behind it are still queued in order while all items before it were pushed. *)
Theorem forward_dispatcher_lossless src sink :
  exists r src' sink',
    forward_dispatcher src sink = Some (r, src', sink') /\ forwards src sink r src' sink'.
Proof.
  unfold forward_dispatcher.
  rewrite forward_batches_deliver by (first [lia | vm_compute; split; discriminate]).
  destruct (deliver sink_push_batch (items (batches src)) sink) as [[[e rest] outs] s1] eqn:E1.
  apply deliver_spec in E1. destruct e as [e|].
  { destruct E1 as (d & x & r & s0 & -> & Hl & Hp & Hx). eexists _, _, _. split; [done|].
    by eapply forwards_batch_error. }
  destruct E1 as [-> Hp].
  rewrite forward_systems_deliver by (first [lia | vm_compute; split; discriminate]).
  change (items (systems (with_batches src []))) with (items (systems src)).
  destruct (deliver sink_push_system (items (systems src)) s1) as [[[e rest] outs2] s2] eqn:E2.
  apply deliver_spec in E2. eexists _, _, _. split; [done|]. destruct e as [e|].
  - destruct E2 as (d & x & r & s0 & -> & Hl & Hp2 & Hx). by eapply forwards_system_error.
  - destruct E2 as [-> Hp2]. by eapply forwards_all.
Qed.
End ForwardSpec.

(** ** From a dispatcher to a file and back *)

Section BinaryFileSpec.
Context {W : Type} `{Reliable W}.
Context (system_body : SystemEvent -> result (list Z) string).
Implicit Types (s : ProtobufBinaryFileSink W).

#[local] Existing Instance binary_file_sink.

Definition pb_written s : list Z := written (pb_writer s).

Lemma pb_io_write l s :
  exists s', pb_io (write_all l) s = (Ok tt, s') /\ pb_written s' = pb_written s ++ l /\
             pb_inner s' = pb_inner s.
Proof.
  unfold pb_io. destruct (reliable_write l (pb_writer s)) as (w & -> & Hw).
  eexists. split; [done|]. by split.
Qed.

Lemma pb_write_record_ok body s :
  fits_u32 body ->
  exists s', pb_write_record body s = (Ok tt, s') /\ pb_written s' = pb_written s ++ framed body /\
             pb_inner s' = pb_inner s.
Proof.
  intros Hb. unfold pb_write_record. rewrite (to_ty_fits _ _ Hb). cbn [ok_or]. unfold elift, ebind, emod.
  destruct (pb_io_write (to_le_bytes 4 (Z.of_nat (length body))) s) as (s1 & -> & Hw1 & Hi1).
  destruct (pb_io_write body s1) as (s2 & -> & Hw2 & Hi2). eexists. split; [done|].
  unfold pb_written in *. cbn. rewrite Hw2, Hw1, Hi2, Hi1, <- app_assoc. done.
Qed.

Lemma pb_write_bodies_ok {A} (enc : A -> list Z) l s :
  Forall (fun x => fits_u32 (enc x)) l ->
  exists s', efor l (fun x => pb_write_record (enc x)) s = (Ok tt, s') /\
             pb_written s' = pb_written s ++ stream (enc <$> l) /\ pb_inner s' = pb_inner s.
Proof.
  intros Hl. revert s. induction Hl as [|x l Hx _ IH]; intros s.
  { exists s. cbn. by rewrite app_nil_r. }
  cbn [efor]. unfold ebind. destruct (pb_write_record_ok (enc x) s Hx) as (s1 & -> & Hw1 & Hi1).
  destruct (IH s1) as (s2 & -> & Hw2 & Hi2). exists s2. split; [done|]. split; [|congruence].
  rewrite Hw2, Hw1, <- app_assoc. done.
Qed.

(** Between calls the ingress queues are empty. *)
Definition pb_ready s : Prop :=
  items (batches (mem_inner (pb_inner s))) = [] /\ items (systems (mem_inner (pb_inner s))) = [] /\
  0 < capacity (batches (mem_inner (pb_inner s))) /\ 0 < capacity (systems (mem_inner (pb_inner s))).

Definition flushed s : Prop := exists w, flush w = (Ok tt, pb_writer s).

Lemma pb_io_flush s :
  exists s', pb_io flush s = (Ok tt, s') /\ pb_written s' = pb_written s /\
             pb_inner s' = pb_inner s /\ flushed s'.
Proof.
  unfold pb_io. destruct (reliable_flush (pb_writer s)) as (w & Hf & Hw). rewrite Hf.
  eexists. split; [done|]. split; [done|]. split; [done|]. by exists (pb_writer s).
Qed.

(** The sink with one batch, or one system event, in its queue. *)
Definition one_batch (b : EventBatch) s : ProtobufBinaryFileSink W :=
  s ⟪ pb_inner := mkMemorySink (with_batches (mem_inner (pb_inner s)) [b]) ⟫.
Definition one_system (e : SystemEvent) s : ProtobufBinaryFileSink W :=
  s ⟪ pb_inner := mkMemorySink (with_systems (mem_inner (pb_inner s)) [e]) ⟫.

Lemma pb_push_one_batch b s :
  pb_ready s -> pb_mem (mem_push_batch b) s = (Ok Accepted, one_batch b s).
Proof.
  destruct s as [[[[cb pb ib db] sys]] w n]. intros (Hib & _ & Hcb & _). cbn in Hib, Hcb. subst ib.
  unfold pb_mem, mem_push_batch, mem_zoom, push_batch, try_push, queue_len. eff_unfold. cbn.
  by rewrite (proj2 (Z.ltb_lt _ _)) by done.
Qed.

Lemma pb_push_one_system e s :
  pb_ready s -> pb_mem (mem_push_system e) s = (Ok Accepted, one_system e s).
Proof.
  destruct s as [[[bat [cs ps iy ds]]] w n]. intros (_ & His & _ & Hcs). cbn in His, Hcs. subst iy.
  unfold pb_mem, mem_push_system, mem_zoom, push_system, try_push, queue_len. eff_unfold. cbn.
  by rewrite (proj2 (Z.ltb_lt _ _)) by done.
Qed.

Lemma pb_pop_one_batch b s : pb_ready s -> pb_pop_batch (one_batch b s) = (Ok (Some b), s).
Proof.
  destruct s as [[[[cb pb ib db] sys]] w n]. intros (Hib & _). cbn in Hib. by subst ib.
Qed.

Lemma pb_pop_one_system e s : pb_ready s -> pb_pop_system (one_system e s) = (Ok (Some e), s).
Proof.
  destruct s as [[[bat [cs ps iy ds]]] w n]. intros (_ & His & _). cbn in His. by subst iy.
Qed.

Lemma pb_pop_none s : pb_ready s -> pb_pop_batch s = (Ok None, s) /\ pb_pop_system s = (Ok None, s).
Proof.
  destruct s as [[[[cb pb ib db] [cs ps iy ds]]] w n]. intros (Hib & His & _). cbn in Hib, His.
  by subst ib iy.
Qed.

Lemma pb_ready_inner s s' : pb_inner s' = pb_inner s -> pb_ready s -> pb_ready s'.
Proof. unfold pb_ready. by intros ->. Qed.

Lemma pb_push_batch_ok batch s :
  pb_ready s -> Forall (fun env => fits_u32 (encode_event_envelope env)) (batch_events batch) ->
  exists s', pb_push_batch batch s = (Ok Accepted, s') /\ pb_ready s' /\ flushed s' /\
             pb_written s' = pb_written s ++ stream (encode_event_envelope <$> batch_events batch).
Proof.
  intros Hs Hev. unfold pb_push_batch, ebind. rewrite pb_push_one_batch by done.
  unfold flush_accepted_batches, ebind, eget.
  change (length (items (batches (mem_inner (pb_inner (one_batch batch s)))))) with 1%nat.
  cbn [pb_write_batches]. unfold ebind. rewrite pb_pop_one_batch by done.
  destruct (pb_write_bodies_ok encode_event_envelope (batch_events batch) s Hev) as (s2 & -> & Hw & Hi).
  pose proof (pb_ready_inner _ _ Hi Hs) as Hs2. rewrite (proj1 (pb_pop_none s2 Hs2)). unfold eret.
  destruct (pb_io_flush s2) as (s3 & -> & Hw3 & Hi3 & Hf3). exists s3. split; [done|].
  split; [by eapply pb_ready_inner|]. split; [done|]. by rewrite Hw3.
Qed.

Lemma pb_push_system_ok e body s :
  pb_ready s -> system_body e = Ok body -> fits_u32 body ->
  exists s', pb_push_system system_body e s = (Ok Accepted, s') /\ pb_ready s' /\ flushed s' /\
             pb_written s' = pb_written s ++ framed body.
Proof.
  intros Hs Hbody Hfit. unfold pb_push_system, ebind. rewrite pb_push_one_system by done.
  unfold flush_accepted_systems, ebind, eget.
  change (length (items (systems (mem_inner (pb_inner (one_system e s)))))) with 1%nat.
  cbn [pb_write_systems]. unfold ebind. rewrite pb_pop_one_system by done. rewrite Hbody.
  cbn [map_err elift]. unfold elift.
  destruct (pb_write_record_ok body s Hfit) as (s2 & -> & Hw & Hi).
  pose proof (pb_ready_inner _ _ Hi Hs) as Hs2. rewrite (proj2 (pb_pop_none s2 Hs2)). unfold eret.
  destruct (pb_io_flush s2) as (s3 & -> & Hw3 & Hi3 & Hf3). exists s3. split; [done|].
  split; [by eapply pb_ready_inner|]. split; [done|]. by rewrite Hw3.
Qed.

Definition batch_fits (b : EventBatch) : Prop :=
  Forall (fun env => fits_u32 (encode_event_envelope env)) (batch_events b).
Definition bodies_of (bs : list EventBatch) : list (list Z) :=
  encode_event_envelope <$> concat (batch_events <$> bs).

Lemma stream_app l1 l2 : stream (l1 ++ l2) = stream l1 ++ stream l2.
Proof. unfold stream. by rewrite fmap_app, concat_app. Qed.

Lemma deliver_batches_ok bs s :
  pb_ready s -> flushed s -> Forall batch_fits bs ->
  exists s', deliver pb_push_batch bs s = (None, [], (fun _ => Accepted) <$> bs, s') /\ pb_ready s' /\
             flushed s' /\ pb_written s' = pb_written s ++ stream (bodies_of bs).
Proof.
  intros Hs Hf Hbs. revert s Hs Hf. induction Hbs as [|b bs Hb _ IH]; intros s Hs Hf.
  { exists s. cbn. by rewrite app_nil_r. }
  cbn [deliver]. destruct (pb_push_batch_ok b s Hs Hb) as (s1 & -> & Hs1 & Hf1 & Hw1).
  destruct (IH s1 Hs1 Hf1) as (s2 & -> & Hs2 & Hf2 & Hw2). exists s2. split; [done|].
  split; [done|]. split; [done|]. rewrite Hw2, Hw1, <- app_assoc, <- stream_app. unfold bodies_of.
  cbn [fmap list_fmap concat]. by rewrite <- fmap_app.
Qed.

Lemma deliver_systems_ok es bodies s :
  pb_ready s -> flushed s -> Forall2 (fun e b => system_body e = Ok b) es bodies ->
  Forall fits_u32 bodies ->
  exists s', deliver (pb_push_system system_body) es s = (None, [], (fun _ => Accepted) <$> es, s') /\
             flushed s' /\ pb_written s' = pb_written s ++ stream bodies.
Proof.
  intros Hs Hf Hes. revert s Hs Hf. induction Hes as [|e b es bodies Hb _ IH]; intros s Hs Hf Hfit.
  { exists s. cbn. by rewrite app_nil_r. }
  apply Forall_cons in Hfit as [Hfb Hfit]. cbn [deliver].
  destruct (pb_push_system_ok e b s Hs Hb Hfb) as (s1 & -> & Hs1 & Hf1 & Hw1).
  destruct (IH s1 Hs1 Hf1 Hfit) as (s2 & -> & Hf2 & Hw2). exists s2. split; [done|]. split; [done|].
  by rewrite Hw2, Hw1, <- app_assoc.
Qed.

Lemma count_accepted {A} (l : list A) : count_dropped ((fun _ => Accepted) <$> l) = 0.
Proof. induction l as [|x l IH]; [done|]. cbn [fmap list_fmap]. by rewrite count_dropped_cons, IH. Qed.

(** Draining a whole dispatcher into the file sink. *)
Lemma forward_to_file_ok src s sys_bodies :
  pb_ready s -> flushed s -> Forall batch_fits (items (batches src)) ->
  Forall2 (fun e b => system_body e = Ok b) (items (systems src)) sys_bodies ->
  Forall fits_u32 sys_bodies ->
  exists s', forward_dispatcher (H := binary_file_sink system_body) src s =
               Some (Ok (mkForwardReport 0 0), with_systems (with_batches src []) [], s') /\
             flushed s' /\
             pb_written s' = pb_written s ++ stream (bodies_of (items (batches src)) ++ sys_bodies).
Proof.
  intros Hs Hf Hb Hsys Hfit. unfold forward_dispatcher.
  rewrite forward_batches_deliver by (first [lia | vm_compute; split; discriminate]).
  destruct (deliver_batches_ok (items (batches src)) s Hs Hf Hb) as (s1 & E1 & Hs1 & Hf1 & Hw1).
  cbn [sink_push_batch binary_file_sink] in *. rewrite E1.
  rewrite forward_systems_deliver by (first [lia | vm_compute; split; discriminate]).
  change (items (systems (with_batches src []))) with (items (systems src)).
  destruct (deliver_systems_ok (items (systems src)) sys_bodies s1 Hs1 Hf1 Hsys Hfit)
    as (s2 & E2 & Hf2 & Hw2).
  cbn [sink_push_system binary_file_sink] in *. rewrite E2. exists s2. unfold counted.
  rewrite !count_accepted. split; [done|]. split; [done|]. by rewrite Hw2, Hw1, <- app_assoc, <- stream_app.
Qed.
End BinaryFileSpec.

Lemma decode_bodies envs :
  Forall envelope_typed envs -> Forall (fun env => fits_u32 (encode_event_envelope env)) envs ->
  mapM decode_event_envelope (encode_event_envelope <$> envs) = Some (envelope_kept <$> envs).
Proof.
  intros Ht Hf. apply mapM_Some. induction envs as [|env envs IH]; [constructor|].
  apply Forall_cons in Ht as [Ht Hts], Hf as [Hf Hfs]. constructor; [|by apply IH].
  apply envelope_codec; [done|]. unfold fits_u32, fits in *. cbn [int_min int_max] in *. lia.
Qed.

(** From queue to file and back: forward a dispatcher into a protobuf file sink
    whose buffered file accepts writes.  Every item is accepted, the dispatcher
    ends empty, nothing stays in the write buffer, and the file's records are the
    envelopes of all batches in order, each of which decodes to the envelope it
    came from, followed by the bodies of the system events. *)
Theorem protobuf_file_end_to_end system_body src inner sys_bodies :
  let sink := mkProtobufBinaryFileSink inner (buf_new (@nil Z)) 0 in
  let envs := concat (batch_events <$> items (batches src)) in
  pb_ready sink -> Forall envelope_typed envs ->
  Forall (fun env => fits_u32 (encode_event_envelope env)) envs ->
  Forall2 (fun e b => system_body e = Ok b) (items (systems src)) sys_bodies ->
  Forall fits_u32 sys_bodies ->
  exists src' inner' file n records,
    forward_dispatcher (H := binary_file_sink system_body) src sink =
      Some (Ok (mkForwardReport 0 0), src', mkProtobufBinaryFileSink inner' (buf_new file) n) /\
    items (batches src') = [] /\ items (systems src') = [] /\
    read_length_prefixed_records file = Some (Ok (records ++ sys_bodies)) /\
    mapM decode_event_envelope records = Some (envelope_kept <$> envs).
Proof.
  intros sink envs Hs Ht Hf Hsys Hfit.
  assert (Forall batch_fits (items (batches src))) as Hb.
  { subst envs. revert Hf. clear. induction (items (batches src)) as [|b bs IH]; [constructor|].
    cbn [fmap list_fmap concat]. intros [H1 H2]%Forall_app. constructor; [exact H1|by apply IH]. }
  destruct (forward_to_file_ok system_body src sink sys_bodies Hs) as (s' & E & [w0 Hflush] & Hw);
    try done.
  { by exists (buf_new []). }
  pose proof (buf_flush_empty w0) as Hbuf. change (flush w0) with (buf_flush w0) in Hflush.
  rewrite Hflush in Hbuf. specialize (Hbuf eq_refl). destruct s' as [i [file buf] n].
  cbn [pb_writer snd bw_buf] in Hbuf. subst buf.
  exists (with_systems (with_batches src []) []), i, file, n, (encode_event_envelope <$> envs). split; [exact E|]. split; [done|]. split; [done|].
  change (pb_written _) with (file ++ []) in Hw at 1. rewrite app_nil_r in Hw.
  rewrite Hw. change (pb_written sink) with (@nil Z). rewrite app_nil_l. split.
  - apply read_stream, Forall_app_2; [|done]. unfold bodies_of. by apply Forall_fmap.
  - by apply decode_bodies.
Qed.

Definition sample_dispatcher : EventDispatcher :=
  mkEventDispatcher (mkBoundedQueue 4 FailEngine [mkEventBatch 4 9 [sample_envelope; sample_envelope]] 0)
    (mkBoundedQueue 4 FailEngine [HeartbeatMissed] 0).

Lemma protobuf_file_end_to_end_witness :
  exists src' inner' file n records,
    forward_dispatcher (H := binary_file_sink (fun _ => Ok (bytes_of_string "{}"))) sample_dispatcher
      (mkProtobufBinaryFileSink (mkMemorySink (mkEventDispatcher (mkBoundedQueue 1 FailEngine [] 0)
        (mkBoundedQueue 1 FailEngine [] 0))) (buf_new []) 0) =
      Some (Ok (mkForwardReport 0 0), src', mkProtobufBinaryFileSink inner' (buf_new file) n) /\
    items (batches src') = [] /\ items (systems src') = [] /\
    read_length_prefixed_records file = Some (Ok (records ++ [bytes_of_string "{}"])) /\
    mapM decode_event_envelope records = Some [sample_envelope; sample_envelope].
Proof.
  apply (protobuf_file_end_to_end (fun _ => Ok (bytes_of_string "{}")) sample_dispatcher
    (mkMemorySink (mkEventDispatcher (mkBoundedQueue 1 FailEngine [] 0)
       (mkBoundedQueue 1 FailEngine [] 0))) [bytes_of_string "{}"]).
  - repeat split.
  - do 2 (constructor; [exact sample_envelope_typed|]). constructor.
  - assert (fits_u32 (encode_event_envelope sample_envelope)) as Hf by (vm_compute; split; discriminate).
    do 2 (constructor; [exact Hf|]). constructor.
  - constructor; [reflexivity|constructor].
  - constructor; [vm_compute; split; discriminate|constructor].
Defined.
