(* ===== verification/Reconnect.v ===== *)
(** * Reconnection policy ([crates/engine/src/reconnect.rs])

    Exponential backoff with full jitter, and the detector that resets it
    after a session has been live for long enough.  An [Instant] is a number
    of nanoseconds of the monotonic clock, a [Duration] a number of
    nanoseconds or, where the code says so, milliseconds. *)

From stdpp Require Import base tactics numbers strings option list.
From Stdlib Require Import ZArith Lia.
From S2P Require Import Prelude.

Local Open Scope Z_scope.

(** ** Stable-live detection *)

Record StableLiveReset := mkStableLiveReset { live_since : option Z; applied : bool }.

#[export] Instance eta_StableLiveReset : Eta StableLiveReset := fun r =>
  mkStableLiveReset (live_since r) (applied r).

Definition stable_default : StableLiveReset := mkStableLiveReset None false.

Definition saturating_duration_since (now earlier : Z) : Z := Z.max 0 (now - earlier).

Definition observe (is_live : bool) (now threshold : Z) (self : StableLiveReset)
    : bool * StableLiveReset :=
  if negb is_live then (false, self ⟪ live_since := None ⟫ ⟪ applied := false ⟫)
  else
    let since := default now (live_since self) in
    let self := self ⟪ live_since := Some since ⟫ in
    if negb (applied self) && (threshold <=? saturating_duration_since now since) then
      (true, self ⟪ applied := true ⟫)
    else (false, self).

Definition stable_clear (self : StableLiveReset) : StableLiveReset :=
  self ⟪ live_since := None ⟫ ⟪ applied := false ⟫.

(** ** Backoff *)

Record ReconnectPolicy := mkReconnectPolicy {
  min_delay_ms : Z;
  max_delay_ms : Z;
  reset_after_live_ms : Z
}.

Record BackoffState := mkBackoffState {
  backoff_policy : ReconnectPolicy;
  attempt : Z;
  seed : Z
}.

#[export] Instance eta_BackoffState : Eta BackoffState := fun b =>
  mkBackoffState (backoff_policy b) (attempt b) (seed b).

Definition backoff_new (policy : ReconnectPolicy) : BackoffState :=
  mkBackoffState policy 0 0xC0FFEE.

Definition backoff_reset (self : BackoffState) : BackoffState := self ⟪ attempt := 0 ⟫.

(** [<<] and [>>] on a [u64]: bits shifted out are lost. *)
Definition xorshift (state : Z) : Z :=
  let x := state in
  let x := Z.lxor x (wrap U64 (Z.shiftl x 13)) in
  let x := Z.lxor x (Z.shiftr x 7) in
  Z.lxor x (wrap U64 (Z.shiftl x 17)).

Definition next_delay (self : BackoffState) : Z * BackoffState :=
  let exp := Z.min (attempt self) 16 in
  let capped :=
    Z.min (saturating_mul U64 (min_delay_ms (backoff_policy self)) (wrap U64 (Z.shiftl 1 exp)))
      (max_delay_ms (backoff_policy self)) in
  let self := self ⟪ attempt := saturating_add U32 (attempt self) 1 ⟫ in
  let self := self ⟪ seed := xorshift (seed self) ⟫ in
  (seed self mod saturating_add U64 capped 1, self).

(** ** Stable-live detection over a history of observations *)

Section Stable.
Context (threshold : Z).

(** The state after a history of [(is_live, now)] observations. *)
Definition state_after (h : list (bool * Z)) : StableLiveReset :=
  foldl (fun s o => snd (observe o.1 o.2 threshold s)) stable_default h.

(** The times of the uninterrupted live interval that ends the history. *)
Definition live_run (h : list (bool * Z)) : list Z :=
  foldl (fun run (o : bool * Z) => if o.1 then run ++ [o.2] else []) [] h.

(** Whether [now] is at least [threshold] after the start of the interval. *)
Definition reached (run : list Z) (now : Z) : bool :=
  match run with [] => false | since :: _ => threshold <=? saturating_duration_since now since end.

Lemma live_run_snoc h live now :
  live_run (h ++ [(live, now)]) = if live then live_run h ++ [now] else [].
Proof. unfold live_run. by rewrite foldl_app. Qed.

Lemma state_after_snoc h live now :
  state_after (h ++ [(live, now)]) = snd (observe live now threshold (state_after h)).
Proof. unfold state_after. by rewrite foldl_app. Qed.

Lemma reached_app run now t : run <> [] -> reached (run ++ [now]) t = reached run t.
Proof. by destruct run. Qed.

(** The detector remembers the start of the current interval and whether the
    threshold was reached in it. *)
Lemma state_after_run h :
  state_after h = mkStableLiveReset (head (live_run h)) (existsb (reached (live_run h)) (live_run h)).
Proof.
  induction h as [|[live now] h IH] using rev_ind; [done|].
  rewrite state_after_snoc, live_run_snoc, IH. unfold observe. destruct live; cbn [negb]; [|done].
  destruct (live_run h) as [|t0 run] eqn:E; cbn [head live_since applied set_field default].
  - cbn. destruct (threshold <=? saturating_duration_since now now); done.
  - set (r := t0 :: run). rewrite existsb_app. cbn [existsb]. rewrite orb_false_r.
    assert (forall t, reached (r ++ [now]) t = reached r t) as Hr by (intros; by apply reached_app).
    assert (existsb (reached (r ++ [now])) r = existsb (reached r) r) as ->.
    { clear E IH. generalize r at 2 4 as l. intros l.
      induction l as [|x l IHl]; [done|]. cbn [existsb]. by rewrite Hr, IHl. }
    rewrite Hr. cbn [id]. unfold default, id, from_option.
    change (reached r now) with (threshold <=? saturating_duration_since now t0).
    destruct (existsb (reached r) r); cbn; [done|].
    by destruct (threshold <=? saturating_duration_since now t0).
Qed.
End Stable.

(** The reset fires exactly once per uninterrupted live interval: an
    observation returns true if and only if the session is live, the current
    interval has lasted at least the threshold, and no earlier observation of
    the same interval had. *)
Theorem stable_reset_fires_once threshold h live now :
  fst (observe live now threshold (state_after threshold h)) = true <->
  live = true /\ reached threshold (live_run h ++ [now]) now = true /\
  Forall (fun t => reached threshold (live_run h) t = false) (live_run h).
Proof.
  rewrite state_after_run. unfold observe. destruct live; cbn [negb]; [|by split; [|intros [? _]]].
  assert (existsb (reached threshold (live_run h)) (live_run h) = false <->
    Forall (fun t => reached threshold (live_run h) t = false) (live_run h)) as Hex.
  { split; [|apply existsb_Forall_false]. intros H. apply Forall_forall. intros t Ht.
    destruct (reached threshold (live_run h) t) eqn:E; [|done].
    rewrite <- H. symmetry. apply existsb_exists. exists t. split; [by apply list_elem_of_In|done]. }
  rewrite <- Hex. destruct (live_run h) as [|t0 run]; cbn [head live_since applied].
  - cbn. destruct (threshold <=? saturating_duration_since now now); naive_solver.
  - cbn [app reached default live_since applied set_field].
    destruct (existsb (reached threshold (t0 :: run)) (t0 :: run)); cbn; [naive_solver|].
    destruct (threshold <=? saturating_duration_since now t0); naive_solver.
Qed.

(** ** Backoff *)

Definition policy_ok (p : ReconnectPolicy) : Prop := fits U64 (min_delay_ms p) /\ fits U64 (max_delay_ms p).

Definition backoff_ok (b : BackoffState) : Prop :=
  policy_ok (backoff_policy b) /\ fits U32 (attempt b) /\ fits U64 (seed b) /\ seed b <> 0.

(** A number of 64 bits that is its own image under a shift is zero. *)
Lemma shl_fixpoint x k : 0 < k -> fits U64 x -> x = wrap U64 (Z.shiftl x k) -> x = 0.
Proof.
  intros Hk [H1 H2] E. cbn [int_min int_max] in *. apply Z.bits_inj'. intros i Hi. rewrite Z.bits_0.
  revert Hi. apply (Zlt_0_ind (fun i => Z.testbit x i = false)). clear i. intros i IH Hi.
  destruct (Z.lt_ge_cases i 64) as [Hi64|Hi64].
  - rewrite E. unfold wrap. cbn [int_min int_max]. rewrite Z.sub_0_r, Z.add_0_r.
    change (18446744073709551615 - 0 + 1) with (2 ^ 64). rewrite Z.mod_pow2_bits_low by lia.
    destruct (Z.lt_ge_cases i k); [by apply Z.shiftl_spec_low|].
    rewrite Z.shiftl_spec by lia. apply IH. lia.
  - destruct (Z.eq_dec x 0) as [->|]; [apply Z.bits_0|]. apply Z.bits_above_log2; [lia|].
    apply Z.lt_le_trans with 64; [|lia]. apply Z.log2_lt_pow2; lia.
Qed.

Lemma shr_fixpoint x k : 0 < k -> 0 <= x -> x = Z.shiftr x k -> x = 0.
Proof.
  intros Hk Hx E. rewrite Z.shiftr_div_pow2 in E by lia.
  destruct (Z.eq_dec x 0) as [|Hne]; [done|]. exfalso.
  assert (2 <= 2 ^ k) by (change 2 with (2 ^ 1) at 1; apply Z.pow_le_mono_r; lia).
  assert (x / 2 ^ k < x) by (apply Z.div_lt; lia). lia.
Qed.

Lemma lxor_u64 x y : fits U64 x -> fits U64 y -> fits U64 (Z.lxor x y).
Proof.
  intros [H1 H2] [H3 H4]. cbn [int_min int_max] in *.
  assert (0 <= Z.lxor x y) by (by apply Z.lxor_nonneg). split; cbn [int_min int_max]; [done|].
  enough (Z.lxor x y < 2 ^ 64) by lia. destruct (Z.lt_ge_cases (Z.lxor x y) (2 ^ 64)) as [|Hge]; [done|].
  exfalso. assert (0 < Z.lxor x y) as Hpos by lia.
  pose proof (proj1 (Z.log2_le_pow2 _ 64 Hpos) Hge) as Hl.
  pose proof (Z.bit_log2 _ Hpos) as Hb. rewrite Z.lxor_spec in Hb.
  assert (forall z, 0 <= z <= 18446744073709551615 -> Z.testbit z (Z.log2 (Z.lxor x y)) = false) as Hz.
  { intros z Hz. destruct (Z.eq_dec z 0) as [->|]; [apply Z.bits_0|].
    apply Z.bits_above_log2; [lia|]. apply Z.lt_le_trans with 64; [|done]. apply Z.log2_lt_pow2; lia. }
  rewrite !Hz in Hb by lia. done.
Qed.

Lemma xorshift_nonzero x : fits U64 x -> x <> 0 -> fits U64 (xorshift x) /\ xorshift x <> 0.
Proof.
  intros Hx Hne. unfold xorshift.
  set (a := Z.lxor x (wrap U64 (Z.shiftl x 13))).
  assert (fits U64 a) as Ha by (apply lxor_u64; [done|apply wrap_range]).
  assert (a <> 0) as Ha0 by (intros E; apply Z.lxor_eq in E; by apply shl_fixpoint in E).
  set (b := Z.lxor a (Z.shiftr a 7)).
  assert (fits U64 (Z.shiftr a 7)) as Hs.
  { destruct Ha as [H1 H2]. unfold fits. cbn [int_min int_max] in *. rewrite Z.shiftr_div_pow2 by lia.
    split; [apply Z.div_pos; lia|]. apply Z.div_le_upper_bound; lia. }
  assert (fits U64 b) as Hb by (by apply lxor_u64).
  assert (b <> 0) as Hb0.
  { intros E. apply Z.lxor_eq in E. apply shr_fixpoint in E; [done|lia|]. destruct Ha; cbn in *; lia. }
  split; [apply lxor_u64; [done|apply wrap_range]|].
  intros E. apply Z.lxor_eq in E. by apply shl_fixpoint in E.
Qed.

(** The ceiling of the delay at an attempt. *)
Definition delay_cap (p : ReconnectPolicy) (attempt : Z) : Z :=
  Z.min (min_delay_ms p * 2 ^ Z.min attempt 16) (max_delay_ms p).

Lemma delay_cap_mono p a b : 0 <= min_delay_ms p -> 0 <= a <= b -> delay_cap p a <= delay_cap p b.
Proof.
  intros Hp Hab. unfold delay_cap. apply Z.min_le_compat; [|done]. apply Z.mul_le_mono_nonneg_l; [done|].
  apply Z.pow_le_mono_r; lia.
Qed.

Lemma capped_eq p a :
  policy_ok p -> 0 <= a ->
  Z.min (saturating_mul U64 (min_delay_ms p) (wrap U64 (Z.shiftl 1 (Z.min a 16)))) (max_delay_ms p) =
  delay_cap p a.
Proof.
  intros [[H1 H2] [H3 H4]] Ha. unfold delay_cap. rewrite Z.shiftl_mul_pow2, Z.mul_1_l by lia.
  assert (1 <= 2 ^ Z.min a 16 <= 2 ^ 16)
    by (split; [change 1 with (2 ^ 0)|]; apply Z.pow_le_mono_r; lia).
  rewrite wrap_fits by (unfold fits; cbn [int_min int_max]; lia).
  unfold saturating_mul, saturate. cbn [int_min int_max] in *. nia.
Qed.

(** Backoff: from any state reachable from a new one, the next delay lies
    between zero and the ceiling [min(min_delay * 2^min(attempt,16), max_delay)],
    which never exceeds the configured maximum and never decreases from attempt
    to attempt; the jitter generator never degenerates to zero, so the state is
    again a valid one. *)
Theorem backoff_bounds b :
  backoff_ok b ->
  let '(delay, b') := next_delay b in
  0 <= delay <= delay_cap (backoff_policy b) (attempt b) /\
  delay_cap (backoff_policy b) (attempt b) <= max_delay_ms (backoff_policy b) /\
  delay_cap (backoff_policy b) (attempt b) <= delay_cap (backoff_policy b') (attempt b') /\
  attempt b' = Z.min (attempt b + 1) (int_max U32) /\ backoff_ok b'.
Proof.
  intros (Hp & Ha & Hs & Hs0). destruct b as [p a s]. cbn [backoff_policy attempt seed] in *.
  destruct (xorshift_nonzero s Hs Hs0) as [Hx Hx0]. unfold next_delay.
  cbn [backoff_policy attempt seed set_field]. destruct Ha as [Ha1 Ha2]. cbn [int_min int_max] in *.
  rewrite capped_eq by done. pose proof Hp as [[Hm1 Hm2] [Hx1 Hx2]]. cbn [int_min int_max] in *.
  assert (0 <= delay_cap p a <= max_delay_ms p) as Hc.
  { unfold delay_cap. split; [|lia]. apply Z.min_glb; [|done].
    apply Z.mul_nonneg_nonneg; [done|]. apply Z.pow_nonneg; lia. }
  assert (saturating_add U32 a 1 = Z.min (a + 1) 4294967295) as Ea
    by (unfold saturating_add, saturate; cbn [int_min int_max]; lia).
  assert (0 < saturating_add U64 (delay_cap p a) 1 <= delay_cap p a + 1) as Hmod
    by (unfold saturating_add, saturate; cbn [int_min int_max]; lia).
  pose proof (Z.mod_pos_bound (xorshift s) _ (proj1 Hmod)). rewrite Ea. split_and!.
  - lia.
  - lia.
  - lia.
  - apply delay_cap_mono; lia.
  - done.
  - split; [done|]. split; [|done]. unfold fits. cbn [attempt int_min int_max]. lia.
Qed.

Lemma backoff_new_ok p : policy_ok p -> backoff_ok (backoff_new p).
Proof.
  intros Hp. split; [done|]. split; [split; vm_compute; discriminate|].
  split; [split; vm_compute; discriminate|done].
Qed.

Lemma backoff_bounds_witness :
  let b := backoff_new (mkReconnectPolicy 10 100 1000) in
  let '(delay, b') := next_delay b in
  0 <= delay <= delay_cap (backoff_policy b) (attempt b) /\
  delay_cap (backoff_policy b) (attempt b) <= max_delay_ms (backoff_policy b) /\
  delay_cap (backoff_policy b) (attempt b) <= delay_cap (backoff_policy b') (attempt b') /\
  attempt b' = Z.min (attempt b + 1) (int_max U32) /\ backoff_ok b'.
Proof.
  apply (backoff_bounds (backoff_new (mkReconnectPolicy 10 100 1000))). apply backoff_new_ok.
  split; split; vm_compute; discriminate.
Defined.
