(* ===== verification/Session.v ===== *)
(** * The adapter interface ([crates/adapter-api/src])

    What the engine and a venue session exchange: inputs, actions, commands
    and the bounded action buffer ([session.rs]), errors ([error.rs]) and
    subscriptions ([subscription.rs]).  A session machine is a class, so that
    the engine and the replay are verified against the interface and each
    adapter is an instance. *)

From stdpp Require Import base tactics numbers strings option list.
From Stdlib Require Import ZArith Lia.
From S2P Require Import Prelude Bytes Fixed Model Dispatch RecordingHttp.

Local Open Scope Z_scope.

(** ** Errors *)

Inductive AdapterError :=
  | UnsupportedCapability (detail : string)
  | AdapterProtocol (detail : string)
  | AdapterParse (detail : string)
  | AdapterSubscription (detail : string)
  | AdapterCatalog (detail : string)
  | AdapterBookInvariant (detail : string)
  | AdapterInternal (detail : string).

(** ** Inputs *)

Inductive DisconnectReason :=
  | RemoteClose | TransportFailure | HeartbeatTimeout | LocalStop | ReconnectRequested.

Inductive SessionCommand :=
  | Subscribe (symbols : list string)
  | Unsubscribe (symbols : list string)
  | Replace (symbols : list string)
  | Resync (instrument : InstrumentId)
  | Stop.

(** A frame's bytes are lent mutably and not used again by the caller. *)
Inductive SessionInput :=
  | Connected (now : TimestampNs)
  | Disconnected (reason : DisconnectReason) (now : TimestampNs)
  | TextFrame (bytes : list Z) (received : FrameStamp)
  | BinaryFrame (bytes : list Z) (received : FrameStamp)
  | Pong (payload : list Z) (received : FrameStamp)
  | HttpResponseInput (request_id : Z) (response : HttpResponse) (received : FrameStamp)
  | TimerInput (timer_id : Z) (now : TimestampNs)
  | ControlInput (command : SessionCommand).

(** ** Actions *)

Inductive SubscriptionWireAction :=
  | WireText (payload : list Z)
  | WireBinary (payload : list Z)
  | WirePing (payload : list Z).

#[export] Instance SubscriptionWireAction_eq_dec : EqDecision SubscriptionWireAction.
Proof. solve_decision. Defined.

Inductive HttpMethod := Get | Post | Put | HttpDelete.

Record HttpRequestSpec := mkHttpRequestSpec {
  req_id : Z;
  req_method : HttpMethod;
  req_url : string;
  req_headers : list (string * string);
  req_body : option (list Z)
}.

Record TimerSpec := mkTimerSpec { timer_id : Z; fire_at : TimestampNs }.

Inductive ReconnectReason :=
  | ReconnectProtocol | ReconnectSequenceGap | ReconnectChecksumMismatch
  | ReconnectHeartbeat | ReconnectControl.

Inductive StopReason := StopControl | FatalProtocol | StopUnsupported.

(** [SensitiveBytes] shows nothing in its [Debug] output. *)
Record SensitiveBytes := mkSensitiveBytes { expose : list Z }.
Definition sensitive_debug (_ : SensitiveBytes) : string := "SensitiveBytes(<redacted>)".

Inductive SessionAction :=
  | SendText (payload : list Z)
  | SendSensitiveText (payload : SensitiveBytes)
  | SendBinary (payload : list Z)
  | SendPing (payload : list Z)
  | RequestHttp (spec : HttpRequestSpec)
  | ScheduleTimer (spec : TimerSpec)
  | CancelTimer (timer_id : Z)
  | EmitBatch (batch : EventBatch)
  | EmitSystem (event : SystemEvent)
  | MarkLive
  | MarkDegraded
  | ResyncInstrument (instrument : InstrumentId)
  | Reconnect (reason : ReconnectReason)
  | DisableSubscription (subscription : Z)
  | StopSession (reason : StopReason).

(** ** The bounded action buffer *)

Definition DEFAULT_ACTION_BUFFER_CAPACITY : Z := 1024.

Record ActionBuffer := mkActionBuffer {
  ab_actions : list SessionAction;
  ab_capacity : Z;
  ab_dropped : Z
}.

#[export] Instance eta_ActionBuffer : Eta ActionBuffer := fun b =>
  mkActionBuffer (ab_actions b) (ab_capacity b) (ab_dropped b).

Definition with_capacity (capacity : Z) : ActionBuffer := mkActionBuffer [] (Z.max capacity 1) 0.
Definition action_buffer_new : ActionBuffer := with_capacity DEFAULT_ACTION_BUFFER_CAPACITY.

Definition ab_push (action : SessionAction) (self : ActionBuffer) : ActionBuffer :=
  if ab_capacity self <=? Z.of_nat (length (ab_actions self)) then
    self ⟪ ab_dropped := wrap U64 (ab_dropped self + 1) ⟫
  else self ⟪ ab_actions := ab_actions self ++ [action] ⟫.

Fixpoint ab_extend (actions : list SessionAction) (self : ActionBuffer) : ActionBuffer :=
  match actions with
  | [] => self
  | a :: actions => ab_extend actions (ab_push a self)
  end.

Definition ab_drain (self : ActionBuffer) : list SessionAction * ActionBuffer :=
  (ab_actions self, self ⟪ ab_actions := [] ⟫).

Definition take_dropped (self : ActionBuffer) : Z * ActionBuffer :=
  (ab_dropped self, self ⟪ ab_dropped := 0 ⟫).

Definition ab_clear (self : ActionBuffer) : ActionBuffer := self ⟪ ab_actions := [] ⟫.

(** ** Subscriptions ([subscription.rs]) *)

Inductive CandleInterval := M1 | M5 | M15 | H1 | D1.

Inductive Channel :=
  | ChTrades
  | ChQuote
  | ChL2Book (depth : option Z) (cadence : option Z)
  | ChL3Book
  | ChCandles (interval : CandleInterval)
  | ChMarkPrice
  | ChIndexPrice
  | ChFunding
  | ChOpenInterest
  | ChLiquidations
  | ChStatistics24h
  | ChInstrumentStatus.

Record DeliveryOptions := mkDeliveryOptions {
  emit_book_snapshots : bool;
  emit_book_deltas : bool;
  emit_bbo : bool
}.

Record ConcreteSubscription := mkConcreteSubscription {
  sub_instrument : InstrumentId;
  sub_channel : Channel;
  sub_delivery : DeliveryOptions
}.

Record ConcreteSubscriptionSet := mkConcreteSubscriptionSet { sub_items : list ConcreteSubscription }.

Record SessionSpec := mkSessionSpec {
  endpoint_name : string;
  subscriptions : ConcreteSubscriptionSet
}.

Inductive SubscriptionPatch :=
  | PatchAdd (session : SessionId) (symbols : list string)
  | PatchRemove (session : SessionId) (symbols : list string)
  | PatchReplace (session : SessionId) (symbols : list string)
  | PauseVenue (venue : VenueId)
  | ResumeVenue (venue : VenueId).

(** ** The machine *)

(** [&mut self] and [output: &mut ActionBuffer] are the two halves of the
    state. *)
Class SessionMachine (M : Type) := {
  on_input : SessionInput -> Eff (M * ActionBuffer) AdapterError unit;
  on_replay_start : TimestampNs -> Eff (M * ActionBuffer) AdapterError unit;
  prepare_dynamic_subscription : SessionCommand -> M -> result SubscriptionWireAction AdapterError;
  commit_dynamic_subscription : SessionCommand -> M -> M;
  book_snapshot : InstrumentId -> option Z -> M -> option BookSnapshot
}.

(** The default bodies of the trait. *)
Definition default_on_replay_start {M} (on_input : SessionInput -> Eff (M * ActionBuffer) AdapterError unit)
    (now : TimestampNs) : Eff (M * ActionBuffer) AdapterError unit := on_input (Connected now).
Definition default_prepare {M} (_ : SessionCommand) (_ : M)
    : result SubscriptionWireAction AdapterError :=
  Err (UnsupportedCapability "dynamic subscriptions").
Definition default_commit {M} (_ : SessionCommand) (m : M) : M := m.
Definition default_book_snapshot {M} (_ : InstrumentId) (_ : option Z) (_ : M) : option BookSnapshot := None.

(** What makes a machine deterministic: what it does depends on its own state
    and the input only, and it uses its output by pushing to it. *)
Class Pushing (M : Type) `{SessionMachine M} := {
  reacts : SessionInput -> M -> result unit AdapterError * M * list SessionAction;
  on_input_reacts : forall i m b,
    on_input i (m, b) = let '(r, m', acts) := reacts i m in (r, (m', ab_extend acts b));
  on_replay_start_connects : forall now m b, on_replay_start now (m, b) = on_input (Connected now) (m, b)
}.

(** ** The buffer is bounded and accounts for every action *)

(** What pushing [acts] leaves: the first ones that fit, and a count of the
    rest. *)
Lemma ab_extend_spec acts b :
  0 <= ab_capacity b -> Z.of_nat (length (ab_actions b)) <= ab_capacity b ->
  fits U64 (ab_dropped b) ->
  let room := Z.to_nat (ab_capacity b - Z.of_nat (length (ab_actions b))) in
  ab_extend acts b =
  b ⟪ ab_actions := ab_actions b ++ take room acts ⟫
    ⟪ ab_dropped := wrap U64 (ab_dropped b + Z.of_nat (length acts - room)) ⟫.
Proof.
  intros Hc. revert b Hc. induction acts as [|a acts IH]; intros b Hc Hlen Hd; cbn zeta.
  { cbn [ab_extend length]. rewrite take_nil, app_nil_r. cbn [Nat.sub]. rewrite Z.add_0_r, wrap_fits by done.
    by destruct b. }
  cbn [ab_extend]. unfold ab_push.
  destruct (Z.leb_spec (ab_capacity b) (Z.of_nat (length (ab_actions b)))) as [Hfull|Hroom].
  - rewrite IH; [|done|done|apply wrap_range]. cbn [ab_actions ab_capacity ab_dropped set_field].
    replace (Z.to_nat _) with 0%nat by lia. cbn [take]. rewrite !Nat.sub_0_r, wrap_add_l.
    f_equal. f_equal. cbn [length]. lia.
  - rewrite IH; [|done|cbn; rewrite length_app; cbn; lia|done].
    cbn [ab_actions ab_capacity ab_dropped set_field]. rewrite length_app. cbn [length].
    replace (Z.to_nat (ab_capacity b - Z.of_nat (length (ab_actions b))))
      with (S (Z.to_nat (ab_capacity b - Z.of_nat (length (ab_actions b) + 1)))) by lia.
    cbn [take Nat.sub]. by rewrite <- app_assoc.
Qed.

(** Nothing is lost from an empty buffer with enough room. *)
Lemma ab_extend_fits acts b :
  ab_actions b = [] -> ab_dropped b = 0 -> Z.of_nat (length acts) <= ab_capacity b ->
  ab_extend acts b = b ⟪ ab_actions := acts ⟫.
Proof.
  intros Ha Hd Hlen. rewrite ab_extend_spec; rewrite ?Ha, ?Hd; cbn; [|lia|lia|unfold fits; cbn; lia].
  rewrite take_ge by lia. replace (length acts - _)%nat with 0%nat by lia.
  destruct b; cbn in *. by subst.
Qed.
