(* ===== verification/Synthetic.v ===== *)
(** * The synthetic venue ([crates/adapters/synthetic/src])

    The session machine of the line protocol ([session.rs]): subscriptions,
    trades, quotes, candles, statistics, and a book that is synchronised from
    snapshots and deltas.  It is an instance of the adapter interface, so that
    the theorems on the session runner and on replay apply to it, and its
    events let a consumer rebuild the book. *)

From stdpp Require Import base tactics numbers strings option list.
From Stdlib Require Import ZArith Lia.
From S2P Require Import Prelude Bytes Collections Fixed Text Model OrderBook BookSync Dispatch RecordingHttp RecordingPipeline Session.

Local Open Scope Z_scope.

(** ** The protocol ([proto] of [lib.rs]) *)

Definition SUB_PREFIX : list Z := bytes_of_string "SUB ".
Definition UNSUB_PREFIX : list Z := bytes_of_string "UNSUB ".
Definition TRADE_PREFIX : list Z := bytes_of_string "TRADE ".
Definition QUOTE_PREFIX : list Z := bytes_of_string "QUOTE ".
Definition CANDLE_PREFIX : list Z := bytes_of_string "CANDLE ".
Definition BOOK_SNAP_PREFIX : list Z := bytes_of_string "BOOK_SNAP ".
Definition BOOK_DELTA_PREFIX : list Z := bytes_of_string "BOOK_DELTA ".
Definition STATS24H_PREFIX : list Z := bytes_of_string "STATS24H ".
Definition DISCONNECT : list Z := bytes_of_string "DISCONNECT".

Definition SYNTHETIC_VENUE_ID : VenueId := 1.
Definition SCHEMA_VERSION : Z := 1.
Definition DEFAULT_INSTRUMENT : InstrumentId := 1.
Definition DEFAULT_CONNECTION : ConnectionId := 1.
Definition DEFAULT_SESSION : SessionId := 1.

(** A newline ends each line the machine sends. *)
Definition line_of (s : string) : list Z := bytes_of_string s ++ [10].

(** The messages of the errors, as [Display] prints them. *)
Definition fixed_error_text (e : FixedError) : string :=
  match e with
  | Empty => "empty decimal input"
  | InvalidSyntax => "invalid decimal syntax"
  | Overflow => "decimal overflow"
  | InexactRescale => "inexact rescale under ExactOnly"
  | ScaleOverflow => "scale overflow"
  end.

Definition validity_debug (v : BookValidity) : string :=
  match v with Valid => "Valid" | Synchronizing => "Synchronizing" | Invalid => "Invalid" end.

Definition book_error_text (e : BookError) : string :=
  match e with
  | NotValid v => "book is not valid for mutation/query: " +:+ validity_debug v
  | NonPositiveQuantity => "non-positive quantity on upsert"
  | Crossed => "crossed book: best bid >= best ask"
  | InvalidDelete => "delete missing quantity is required to be absent or zero"
  | ScaleMismatch => "price/qty scale does not match catalog exactly"
  end.

(** [Utf8Error]. *)
Definition utf8_error_text (e : Z * option Z) : string :=
  let decimal n := string_of_bytes (dec_digits 20 n) in
  match e with
  | (valid_up_to, Some len) =>
      "invalid utf-8 sequence of " +:+ decimal len +:+ " bytes from index " +:+ decimal valid_up_to
  | (valid_up_to, None) => "incomplete utf-8 byte sequence from index " +:+ decimal valid_up_to
  end.

(** ** State *)

Record SyntheticSession := mkSyntheticSession {
  sy_catalog : CatalogView;
  sy_subscribed : bool;
  sy_frame_seq : Z;
  sy_sync : BookSynchronizer;
  sy_live : bool
}.

#[export] Instance eta_SyntheticSession : Eta SyntheticSession := fun s =>
  mkSyntheticSession (sy_catalog s) (sy_subscribed s) (sy_frame_seq s) (sy_sync s) (sy_live s).

Definition synthetic_new (_ : SessionSpec) (catalog : CatalogView) : SyntheticSession :=
  let book := new 2 3 (Some 50) in
  let sync := sync_new DEFAULT_INSTRUMENT book default_limits in
  let sync := request_snapshot sync in
  mkSyntheticSession catalog false 0 sync false.

(** The machine never reads its output: [output] is the list of the actions
    pushed so far. *)
Abbreviation Syn := (Eff (SyntheticSession * list SessionAction) AdapterError).

Definition push (action : SessionAction) : Syn unit := emod (fun s => (s.1, s.2 ++ [action])).
Definition on_self (f : SyntheticSession -> SyntheticSession) : Syn unit := emod (fun s => (f s.1, s.2)).
Definition self : Syn SyntheticSession := let! s := eget in eret s.1.
Definition parse_error (detail : string) : Syn unit := push (EmitSystem (ParseError detail)).

(** [match self.sync.m(...)], with the error as a value. *)
Definition on_sync {A} (m : Eff BookSynchronizer BookError A) : Syn (result A BookError) := fun s =>
  let '(r, sync) := m (sy_sync s.1) in (Ok r, (s.1 ⟪ sy_sync := sync ⟫, s.2)).

(** [let Some(x) = m? else { return Ok(()) };]. *)
Definition let_some {A} (m : Syn (option A)) (k : A -> Syn unit) : Syn unit :=
  let! o := m in match o with Some x => k x | None => eret tt end.
Notation "'let$' x ':=' m 'in' k" := (let_some m (fun x => k))
  (at level 10, x name, m at level 100, k at level 200).

Definition next_frame_seq : Syn Z :=
  on_self (fun s => s ⟪ sy_frame_seq := wrap U64 (sy_frame_seq s + 1) ⟫) !;
  let! s := self in eret (sy_frame_seq s).

Definition envelope (frame_seq event_index : Z) (received : FrameStamp) (seq : option Z) (flags : Z)
    (payload : MarketEvent) : EventEnvelope :=
  mkEventEnvelope SCHEMA_VERSION SYNTHETIC_VENUE_ID (Some DEFAULT_INSTRUMENT) DEFAULT_CONNECTION
    DEFAULT_SESSION frame_seq event_index None (stamp_receive_ts received)
    ((fun s => mkSequenceRange s s) <$> seq) (EventFlags.union flags EventFlags.SYNTHETIC) payload.

(** The end of every handler that emits an event. *)
Definition emit (received : FrameStamp) (seq : option Z) (flags : Z) (payload : MarketEvent) : Syn unit :=
  let! frame_seq := next_frame_seq in
  push (EmitBatch (mkEventBatch DEFAULT_SESSION frame_seq [envelope frame_seq 0 received seq flags payload])).

(** ** Fields *)

Definition parse_u64 (s : list Z) : Syn (option Z) :=
  match parse_int U64 s with
  | Some v => eret (Some v)
  | None => parse_error ("bad u64 " +:+ string_of_bytes s) !; eret None
  end.

Definition parse_i64 (s : list Z) : Syn (option Z) :=
  match parse_int I64 s with
  | Some v => eret (Some v)
  | None => parse_error ("bad i64 " +:+ string_of_bytes s) !; eret None
  end.

Definition parse_price (s : list Z) : Syn (option Price) :=
  match parse_str s with
  | Ok v => eret (Some (mkPrice v))
  | Err e => parse_error ("bad price " +:+ string_of_bytes s +:+ ": " +:+ fixed_error_text e) !; eret None
  end.

Definition parse_qty (s : list Z) : Syn (option Quantity) :=
  match parse_str s with
  | Ok v => eret (Some (mkQuantity v))
  | Err e => parse_error ("bad qty " +:+ string_of_bytes s +:+ ": " +:+ fixed_error_text e) !; eret None
  end.

(** The loop over the levels of one side. *)
Fixpoint parse_level_list (parts : list (list Z)) (out : list BookLevel) : Syn (option (list BookLevel)) :=
  match parts with
  | [] => eret (Some out)
  | part :: parts =>
      match split_once 58 part with
      | None => parse_error ("bad level " +:+ string_of_bytes part) !; eret None
      | Some (p, q) =>
          let! price := parse_price p in
          match price with
          | None => eret None
          | Some price =>
              let! quantity := parse_qty q in
              match quantity with
              | None => eret None
              | Some quantity => parse_level_list parts (out ++ [mkBookLevel price quantity])
              end
          end
      end
  end.

Definition parse_levels (s : list Z) : Syn (option (list BookLevel)) :=
  if is_nil s || bool_decide (s = bytes_of_string "-") then eret (Some [])
  else parse_level_list (split_on 44 s) [].

(** ** Messages *)

Definition on_stats24h (rest : list Z) (received : FrameStamp) : Syn unit :=
  match split_whitespace rest with
  | p0 :: p1 :: p2 :: p3 :: p4 :: p5 :: _ =>
      let$ open := parse_price p0 in
      let$ high := parse_price p1 in
      let$ low := parse_price p2 in
      let$ close := parse_price p3 in
      let$ volume := parse_qty p4 in
      let$ quote_volume := parse_qty p5 in
      emit received None EventFlags.empty
        (EvStatistics24h (mkStatistics24h (Some open) (Some high) (Some low) (Some close) (Some volume)
                            (Some quote_volume)))
  | _ => parse_error "STATS24H arity"
  end.

Definition on_trade (rest : list Z) (received : FrameStamp) : Syn unit :=
  match split_whitespace rest with
  | p0 :: p1 :: p2 :: p3 :: more =>
      let$ seq := parse_u64 p0 in
      let$ price := parse_price p1 in
      let$ quantity := parse_qty p2 in
      let trade aggressor :=
        emit received (Some seq) EventFlags.empty
          (EvTrade (mkTrade price quantity aggressor (string_of_bytes <$> head more))) in
      if bool_decide (p3 = bytes_of_string "BUY") then trade Buy
      else if bool_decide (p3 = bytes_of_string "SELL") then trade Sell
      else parse_error ("bad side " +:+ string_of_bytes p3)
  | _ => parse_error "TRADE arity"
  end.

Definition on_quote (rest : list Z) (received : FrameStamp) : Syn unit :=
  match split_whitespace rest with
  | p0 :: p1 :: more =>
      let$ bid_price := parse_price p0 in
      let$ ask_price := parse_price p1 in
      match more with
      | p2 :: p3 :: _ =>
          let$ bid_quantity := parse_qty p2 in
          let$ ask_quantity := parse_qty p3 in
          emit received None EventFlags.empty
            (EvQuote (mkQuote bid_price (Some bid_quantity) ask_price (Some ask_quantity)))
      | _ => emit received None EventFlags.empty (EvQuote (mkQuote bid_price None ask_price None))
      end
  | _ => parse_error "QUOTE arity"
  end.

Definition on_candle (rest : list Z) (received : FrameStamp) : Syn unit :=
  match split_whitespace rest with
  | p0 :: p1 :: p2 :: p3 :: p4 :: p5 :: p6 :: _ =>
      let$ open := parse_price p0 in
      let$ high := parse_price p1 in
      let$ low := parse_price p2 in
      let$ close := parse_price p3 in
      let$ volume := parse_qty p4 in
      let$ interval_ns := parse_i64 p5 in
      let$ start_ts := parse_i64 p6 in
      emit received None EventFlags.empty (EvCandle (mkCandle open high low close volume interval_ns start_ts))
  | _ => parse_error "CANDLE arity"
  end.

Definition set_live (live : bool) : Syn unit := on_self (fun s => s ⟪ sy_live := live ⟫).
Definition level_pair (l : BookLevel) : Price * Quantity := (level_price l, level_quantity l).

Definition on_book_snap (rest : list Z) (received : FrameStamp) : Syn unit :=
  match split_whitespace rest with
  | p0 :: p1 :: p2 :: p3 :: p4 :: _ =>
      if bool_decide (p1 <> bytes_of_string "BID") || bool_decide (p3 <> bytes_of_string "ASK")
      then parse_error "BOOK_SNAP syntax" else
      let$ seq := parse_u64 p0 in
      let$ bids := parse_levels p2 in
      let$ asks := parse_levels p4 in
      let! r := on_sync (apply_snapshot_and_drain (level_pair <$> bids) (level_pair <$> asks) seq) in
      match r with
      | Ok _ =>
          set_live true !;
          emit received (Some seq) EventFlags.SNAPSHOT (EvBookSnapshot (mkBookSnapshot bids asks (Some 50) None)) !;
          push (EmitSystem (BookResynchronized DEFAULT_INSTRUMENT)) !;
          push MarkLive
      | Err err =>
          set_live false !;
          push (EmitSystem (BookInvalidated DEFAULT_INSTRUMENT (book_error_text err))) !;
          push (ResyncInstrument DEFAULT_INSTRUMENT)
      end
  | _ => parse_error "BOOK_SNAP syntax"
  end.

(** What a parsed delta does: buffered until the book is live, then applied. *)
Definition apply_book_delta (bytes_len seq : Z) (side : BookSide) (operation : BookOperation) (price : Price)
    (quantity : option Quantity) (received : FrameStamp) : Syn unit :=
  let! s := self in
  if bool_decide (state (sy_sync s) <> Live) then
    let! r := on_sync (buffer_delta (mkBufferedDelta seq bytes_len (stamp_mono_ns received) side operation price
                                       quantity)) in
    match r with
    | Ok _ => eret tt
    | Err err =>
        push (EmitSystem (BookInvalidated DEFAULT_INSTRUMENT (book_error_text err))) !;
        push (ResyncInstrument DEFAULT_INSTRUMENT)
    end
  else
    let! r := on_sync (on_live_delta seq side operation price quantity) in
    match r with
    | Ok _ =>
        emit received (Some seq) EventFlags.DELTA
          (EvBookDelta (mkBookDelta [mkBookChange side operation price quantity] None))
    | Err _ =>
        set_live false !;
        let! s := self in
        let expected := default 0 (expected_sequence (sy_sync s)) in
        push (EmitSystem (SequenceGap expected seq)) !;
        push (EmitSystem (BookInvalidated DEFAULT_INSTRUMENT "sequence gap")) !;
        on_self (fun s => s ⟪ sy_sync := invalidate (sy_sync s) ⟫) !;
        push (ResyncInstrument DEFAULT_INSTRUMENT) !;
        push (Reconnect ReconnectSequenceGap)
    end.

Definition parse_side (s : list Z) : option BookSide :=
  if bool_decide (s = bytes_of_string "BID") then Some Bid
  else if bool_decide (s = bytes_of_string "ASK") then Some Ask else None.
Definition parse_operation (s : list Z) : option BookOperation :=
  if bool_decide (s = bytes_of_string "UPSERT") then Some Upsert
  else if bool_decide (s = bytes_of_string "DELETE") then Some Delete else None.

(** A quantity that does not parse is reported and left out, and the delta is
    still applied. *)
Definition on_book_delta (rest : list Z) (received : FrameStamp) : Syn unit :=
  match split_whitespace rest with
  | p0 :: p1 :: p2 :: p3 :: more =>
      let$ seq := parse_u64 p0 in
      match parse_side p1 with
      | None => parse_error ("bad side " +:+ string_of_bytes p1)
      | Some side =>
          match parse_operation p2 with
          | None => parse_error ("bad op " +:+ string_of_bytes p2)
          | Some operation =>
              let$ price := parse_price p3 in
              let! quantity := match more with p4 :: _ => parse_qty p4 | [] => eret None end in
              apply_book_delta (Z.of_nat (length rest)) seq side operation price quantity received
          end
      end
  | _ => parse_error "BOOK_DELTA arity"
  end.

Definition handle_text (text : list Z) (received : FrameStamp) : Syn unit :=
  let line := trim text in
  if is_nil line then eret tt
  else if bool_decide (line = DISCONNECT) then push (Reconnect ReconnectControl)
  else if strip_prefix SUB_PREFIX line is Some _ then
    on_self (fun s => s ⟪ sy_subscribed := true ⟫) !;
    push (SendText (line_of "ACK SUB")) !;
    push (EmitSystem (SubscriptionStateChanged "subscribed"))
  else if strip_prefix UNSUB_PREFIX line is Some _ then
    on_self (fun s => s ⟪ sy_subscribed := false ⟫) !;
    push (SendText (line_of "ACK UNSUB")) !;
    push (EmitSystem (SubscriptionStateChanged "unsubscribed"))
  else
  match strip_prefix STATS24H_PREFIX line with
  | Some rest => on_stats24h rest received
  | None =>
  let! s := self in
  if negb (sy_subscribed s) then parse_error "message before subscribe" else
  match strip_prefix TRADE_PREFIX line with
  | Some rest => on_trade rest received
  | None =>
  match strip_prefix QUOTE_PREFIX line with
  | Some rest => on_quote rest received
  | None =>
  match strip_prefix CANDLE_PREFIX line with
  | Some rest => on_candle rest received
  | None =>
  match strip_prefix BOOK_SNAP_PREFIX line with
  | Some rest => on_book_snap rest received
  | None =>
  match strip_prefix BOOK_DELTA_PREFIX line with
  | Some rest => on_book_delta rest received
  | None => push (EmitSystem (UnknownMessage (string_of_bytes (chars_take 64 line))))
  end end end end end end.

(** ** Connections and control *)

Definition resync (s : SyntheticSession) : SyntheticSession :=
  s ⟪ sy_sync := request_snapshot (begin_resync (sy_sync s)) ⟫ ⟪ sy_live := false ⟫.

Definition syn_connected : Syn unit :=
  on_self (fun s => resync (s ⟪ sy_subscribed := false ⟫)) !;
  push (EmitSystem (ConnectionStateChanged "connected")) !;
  push (SendText (line_of "SUB BTC-USD")).

Definition syn_disconnected : Syn unit :=
  on_self (fun s => s ⟪ sy_subscribed := false ⟫ ⟪ sy_live := false ⟫ ⟪ sy_sync := invalidate (sy_sync s) ⟫) !;
  push (EmitSystem (ConnectionStateChanged "disconnected")) !;
  push (EmitSystem (BookInvalidated DEFAULT_INSTRUMENT "disconnected")).

Definition syn_input (input : SessionInput) : Syn unit :=
  match input with
  | Connected _ => syn_connected
  | Disconnected _ _ => syn_disconnected
  | TextFrame bytes received =>
      match utf8_error 0 bytes with
      | Some e => ethrow (AdapterParse (utf8_error_text e))
      | None => handle_text bytes received
      end
  | BinaryFrame _ _ => push (EmitSystem (UnknownMessage "binary not supported"))
  | Pong _ _ | HttpResponseInput _ _ _ | TimerInput _ _ => eret tt
  | ControlInput Stop => push (StopSession StopControl)
  | ControlInput (Resync _) =>
      on_self resync !;
      push (EmitSystem (BookInvalidated DEFAULT_INSTRUMENT "control resync"))
  | ControlInput (Subscribe _ | Unsubscribe _ | Replace _) =>
      ethrow (UnsupportedCapability "dynamic subscriptions require the runner prepare/commit path")
  end.

Definition syn_prepare (command : SessionCommand) (_ : SyntheticSession)
    : result SubscriptionWireAction AdapterError :=
  let wire verb symbols := Ok (WireText (line_of (verb +:+ String.concat "," symbols))) in
  match command with
  | Subscribe symbols => wire "SUB "%string symbols
  | Unsubscribe symbols => wire "UNSUB "%string symbols
  | Replace symbols => wire "REPLACE "%string symbols
  | Resync _ | Stop =>
      Err (UnsupportedCapability "prepared subscription control requires a subscription command")
  end.

Definition syn_commit (command : SessionCommand) (s : SyntheticSession) : SyntheticSession :=
  match command with
  | Subscribe _ => s ⟪ sy_subscribed := true ⟫
  | Unsubscribe symbols => if is_nil symbols then s ⟪ sy_subscribed := false ⟫ else s
  | Replace symbols => s ⟪ sy_subscribed := negb (is_nil symbols) ⟫
  | Resync _ | Stop => s
  end.

Definition syn_book_snapshot (instrument : InstrumentId) (depth : option Z) (s : SyntheticSession)
    : option BookSnapshot :=
  if negb (instrument =? DEFAULT_INSTRUMENT) then None else
  match snapshot_levels (book (sy_sync s)) with
  | None => None
  | Some (bids, asks) =>
      let cut (l : list BookLevel) := match depth with Some d => take (Z.to_nat d) l | None => l end in
      Some (mkBookSnapshot (cut bids) (cut asks) (match depth with Some d => Some d | None => Some 50 end) None)
  end.

(** ** The machine is an adapter *)

Definition syn_reacts (i : SessionInput) (m : SyntheticSession)
    : result unit AdapterError * SyntheticSession * list SessionAction :=
  let '(r, (m', acts)) := syn_input i (m, []) in (r, m', acts).

Definition syn_on_input (i : SessionInput) : Eff (SyntheticSession * ActionBuffer) AdapterError unit :=
  fun '(m, b) => let '(r, m', acts) := syn_reacts i m in (r, (m', ab_extend acts b)).

#[export] Instance synthetic_machine : SessionMachine SyntheticSession := {|
  on_input := syn_on_input;
  on_replay_start := default_on_replay_start syn_on_input;
  prepare_dynamic_subscription := syn_prepare;
  commit_dynamic_subscription := syn_commit;
  book_snapshot := syn_book_snapshot
|}.

#[export] Program Instance synthetic_pushing : Pushing SyntheticSession := {| reacts := syn_reacts |}.
Next Obligation. done. Qed.
Next Obligation. done. Qed.

(** ** The factory ([factory.rs]) *)

Definition parse_instruments (_ : list HttpResponse) (out : list InstrumentDefinition)
    : result (list InstrumentDefinition) AdapterError :=
  Ok (out ++ [mkInstrumentDefinition (mkInstrumentKey "synthetic" "BTC-USD" KindSpot None None) "BTC" "USD" None 2 3
                (mkFixed 1 2) (mkFixed 1 3) (Some (mkFixed 1 3)) None None None None Active false]).

Definition plan (request : ConcreteSubscriptionSet) (catalog : CatalogView) : result (list SessionSpec) AdapterError :=
  if negb (view_venue catalog =? SYNTHETIC_VENUE_ID) then Err (AdapterCatalog "synthetic factory got foreign venue")
  else Ok [mkSessionSpec "ws" request].

Definition create_session (spec : SessionSpec) (catalog : CatalogView) : result SyntheticSession AdapterError :=
  Ok (synthetic_new spec catalog).

(** ** What an input does to the book

    Every input either leaves the book alone, or is one of the moves below:
    the handlers are summarised by what they do to the synchroniser and by
    the actions they push. *)

Definition is_book_event (e : EventEnvelope) : bool :=
  match env_payload e with EvBookSnapshot _ | EvBookDelta _ => true | _ => false end.

(** An action that publishes nothing about the book. *)
Definition plain (a : SessionAction) : Prop :=
  match a with
  | EmitBatch b => Forall (fun e => is_book_event e = false) (batch_events b)
  | SendText p | SendBinary p | SendPing p => bytes_ok p
  | _ => True
  end.

Definition plain_list (acts : list SessionAction) : Prop := Forall plain acts /\ (length acts <= 8)%nat.

Definition book_batch (frame_seq seq flags : Z) (received : FrameStamp) (payload : MarketEvent) : SessionAction :=
  EmitBatch (mkEventBatch DEFAULT_SESSION frame_seq [envelope frame_seq 0 received (Some seq) flags payload]).

Section Moves.
(** Whether the input is one the runner can hand over. *)
Context (ok : Prop).

Inductive syn_move (y y' : SyntheticSession) : list SessionAction -> Prop :=
  | move_plain acts :
      sy_sync y' = sy_sync y -> sy_live y' = sy_live y -> plain_list acts -> syn_move y y' acts
  | move_reset acts :
      (sy_sync y' = request_snapshot (begin_resync (sy_sync y)) \/ sy_sync y' = invalidate (sy_sync y)) ->
      sy_live y' = false -> plain_list acts -> syn_move y y' acts
  | move_snapshot bids asks seq fs received :
      Forall level_input_ok (level_pair <$> bids) -> Forall level_input_ok (level_pair <$> asks) -> fits U64 seq ->
      apply_snapshot_and_drain (level_pair <$> bids) (level_pair <$> asks) seq (sy_sync y) = (Ok tt, sy_sync y') ->
      sy_live y' = true ->
      syn_move y y' [book_batch fs seq EventFlags.SNAPSHOT received (EvBookSnapshot (mkBookSnapshot bids asks (Some 50) None));
                     EmitSystem (BookResynchronized DEFAULT_INSTRUMENT); MarkLive]
  | move_rejected bids asks seq e acts :
      Forall level_input_ok bids -> Forall level_input_ok asks -> fits U64 seq ->
      apply_snapshot_and_drain bids asks seq (sy_sync y) = (Err e, sy_sync y') ->
      sy_live y' = false -> plain_list acts -> syn_move y y' acts
  | move_buffer d r acts :
      state (sy_sync y) <> Live -> (ok -> delta_ok d) -> buffer_delta d (sy_sync y) = (r, sy_sync y') ->
      sy_live y' = sy_live y -> plain_list acts -> syn_move y y' acts
  | move_delta seq side op p q fs received pre :
      state (sy_sync y) = Live -> fits U64 seq -> change_input_ok p q ->
      on_live_delta seq side op p q (sy_sync y) = (Ok tt, sy_sync y') -> sy_live y' = sy_live y -> plain_list pre ->
      (length pre <= 1)%nat ->
      syn_move y y' (pre ++ [book_batch fs seq EventFlags.DELTA received
                               (EvBookDelta (mkBookDelta [mkBookChange side op p q] None))])
  | move_gap seq side op p q e sync acts :
      state (sy_sync y) = Live -> change_input_ok p q -> on_live_delta seq side op p q (sy_sync y) = (Err e, sync) ->
      sy_sync y' = invalidate sync -> sy_live y' = false -> plain_list acts -> syn_move y y' acts.

(** [m] started in [y] pushes actions and ends as [Q] says; it does not
    fail. *)
Definition moves {A} (m : Syn A) (y : SyntheticSession) (Q : A -> SyntheticSession -> list SessionAction -> Prop) : Prop :=
  forall out, exists a y' acts, m (y, out) = (Ok a, (y', out ++ acts)) /\ Q a y' acts.

Lemma step_ret {A} (a : A) y (Q : A -> SyntheticSession -> list SessionAction -> Prop) :
  Q a y [] -> moves (eret a) y Q.
Proof. intros HQ out. exists a, y, []. by rewrite app_nil_r. Qed.

Lemma moves_push a y (Q : unit -> SyntheticSession -> list SessionAction -> Prop) : Q tt y [a] -> moves (push a) y Q.
Proof. intros HQ out. by exists tt, y, [a]. Qed.

Lemma moves_self y (Q : SyntheticSession -> SyntheticSession -> list SessionAction -> Prop) : Q y y [] -> moves self y Q.
Proof. intros HQ out. exists y, y, []. by rewrite app_nil_r. Qed.

Lemma moves_on_self f y (Q : unit -> SyntheticSession -> list SessionAction -> Prop) : Q tt (f y) [] -> moves (on_self f) y Q.
Proof. intros HQ out. exists tt, (f y), []. by rewrite app_nil_r. Qed.

Lemma step_bind {A B} (m : Syn A) (k : A -> Syn B) y (Q : B -> SyntheticSession -> list SessionAction -> Prop) :
  moves m y (fun a y1 acts => moves (k a) y1 (fun b y2 acts2 => Q b y2 (acts ++ acts2))) -> moves (ebind m k) y Q.
Proof.
  intros Hm out. destruct (Hm out) as (a & y1 & acts & E & Hk).
  destruct (Hk (out ++ acts)) as (b & y2 & acts2 & E2 & HQ).
  exists b, y2, (acts ++ acts2). unfold ebind. by rewrite E, E2, app_assoc.
Qed.

Lemma moves_mono {A} (m : Syn A) y (Q Q' : A -> SyntheticSession -> list SessionAction -> Prop) :
  moves m y Q -> (forall a y' acts, Q a y' acts -> Q' a y' acts) -> moves m y Q'.
Proof. intros Hm HQ out. destruct (Hm out) as (a & y' & acts & E & H). exists a, y', acts. eauto. Qed.

Lemma moves_on_sync {A} (m : Eff BookSynchronizer BookError A) y
    (Q : result A BookError -> SyntheticSession -> list SessionAction -> Prop) :
  Q (m (sy_sync y)).1 (y ⟪ sy_sync := (m (sy_sync y)).2 ⟫) [] -> moves (on_sync m) y Q.
Proof.
  intros HQ out. exists (m (sy_sync y)).1, (y ⟪ sy_sync := (m (sy_sync y)).2 ⟫), [].
  unfold on_sync. rewrite app_nil_r. cbn [fst snd]. by destruct (m (sy_sync y)).
Qed.

(** A field either parses to a value in range, or pushes one parse error. *)
Definition field {A} (P : A -> Prop) (m : Syn (option A)) : Prop := forall y,
  moves m y (fun o y' acts => y' = y /\
    match o with Some a => P a /\ acts = [] | None => exists d, acts = [EmitSystem (ParseError d)] end).

Lemma field_some {A} (P : A -> Prop) a : P a -> field P (eret (Some a)).
Proof. intros HP y. by apply step_ret. Qed.

Lemma field_none {A} (P : A -> Prop) d : field P (parse_error d !; eret None).
Proof. intros y. apply step_bind, moves_push, step_ret. split; [done|]. by exists d. Qed.

Lemma field_u64 s : field (fits U64) (parse_u64 s).
Proof.
  unfold parse_u64. destruct (parse_int U64 s) eqn:E; [apply field_some|apply field_none]. by eapply parse_int_fits.
Qed.
Lemma field_i64 s : field (fits I64) (parse_i64 s).
Proof.
  unfold parse_i64. destruct (parse_int I64 s) eqn:E; [apply field_some|apply field_none]. by eapply parse_int_fits.
Qed.
Lemma field_price s : field (fun p => fixed_ok (price0 p)) (parse_price s).
Proof.
  unfold parse_price. destruct (parse_str s) eqn:E; [apply field_some|apply field_none]. by eapply parse_str_range.
Qed.
Lemma field_qty s : field (fun q => fixed_ok (qty0 q)) (parse_qty s).
Proof.
  unfold parse_qty. destruct (parse_str s) eqn:E; [apply field_some|apply field_none]. by eapply parse_str_range.
Qed.

Lemma field_bind {A B} (P : A -> Prop) (R : B -> Prop) (m : Syn (option A)) (k : A -> Syn (option B)) :
  field P m -> (forall a, P a -> field R (k a)) ->
  field R (let! o := m in match o with None => eret None | Some a => k a end).
Proof.
  intros Hm Hk y. apply step_bind. eapply moves_mono; [apply Hm|]. cbv beta.
  intros [a|] y' acts [-> Ho].
  - destruct Ho as [Ha ->]. eapply moves_mono; [by apply Hk|]. done.
  - destruct Ho as [d ->]. apply step_ret. split; [done|]. by exists d.
Qed.

Lemma field_levels s : field (fun ls => Forall level_input_ok (level_pair <$> ls)) (parse_levels s).
Proof.
  unfold parse_levels. destruct (_ || _); [by apply field_some|].
  enough (forall parts out, Forall level_input_ok (level_pair <$> out) ->
    field (fun ls => Forall level_input_ok (level_pair <$> ls)) (parse_level_list parts out)) as H by by apply H.
  induction parts as [|part parts IH]; intros out Hout; cbn [parse_level_list]; [by apply field_some|].
  destruct (split_once 58 part) as [[p q]|]; [|apply field_none].
  apply (field_bind _ _ _ _ (field_price p)). intros price Hp.
  apply (field_bind _ _ _ _ (field_qty q)). intros qty Hq. apply IH.
  rewrite fmap_app. apply Forall_app. split; [done|]. apply Forall_singleton. by split.
Qed.

Lemma moves_some {A} (P : A -> Prop) (m : Syn (option A)) k y (Q : unit -> SyntheticSession -> list SessionAction -> Prop) :
  field P m -> (forall a, P a -> moves (k a) y Q) -> (forall d, Q tt y [EmitSystem (ParseError d)]) ->
  moves (let_some m k) y Q.
Proof.
  intros Hm Hk Hd. apply step_bind. eapply moves_mono; [apply Hm|]. cbv beta.
  intros [a|] y' acts [-> Ho].
  - destruct Ho as [Ha ->]. eapply moves_mono; [by apply Hk|]. done.
  - destruct Ho as [d ->]. apply step_ret, Hd.
Qed.

Lemma moves_emit received seq flags payload y (Q : unit -> SyntheticSession -> list SessionAction -> Prop) :
  (forall fs, Q tt (y ⟪ sy_frame_seq := fs ⟫)
                [EmitBatch (mkEventBatch DEFAULT_SESSION fs [envelope fs 0 received seq flags payload])]) ->
  moves (emit received seq flags payload) y Q.
Proof.
  intros HQ. apply step_bind, step_bind, moves_on_self. apply step_bind, moves_self, step_ret.
  apply moves_push. apply HQ.
Qed.

(** ** The handlers make moves *)

Lemma plain_error d : plain_list [EmitSystem (ParseError d)].
Proof. split; [by repeat constructor|cbn; lia]. Qed.

Lemma plain_nil : plain_list [].
Proof. split; [constructor|cbn; lia]. Qed.

Lemma move_error y d : syn_move y y [EmitSystem (ParseError d)].
Proof. apply move_plain; [done..|apply plain_error]. Qed.

Lemma moves_emit_plain received seq flags payload y :
  is_book_event (envelope 0 0 received seq flags payload) = false ->
  moves (emit received seq flags payload) y (fun _ y' acts => syn_move y y' acts).
Proof.
  intros Hp. apply moves_emit. intros fs. apply move_plain; [done..|].
  split; [|cbn; lia]. apply Forall_singleton. by apply Forall_singleton.
Qed.

(** Steps through the fields of a message. *)
Ltac fields :=
  repeat first
    [ eapply moves_some;
      [first [apply field_u64|apply field_i64|apply field_price|apply field_qty|apply field_levels]
      |cbv beta; intros ? ?|intros; apply move_error] ].

Lemma stats24h_moves rest received y : moves (on_stats24h rest received) y (fun _ y' acts => syn_move y y' acts).
Proof.
  unfold on_stats24h. destruct (split_whitespace rest) as [|p0 [|p1 [|p2 [|p3 [|p4 [|p5 l]]]]]];
    try (apply moves_push, move_error). fields. by apply moves_emit_plain.
Qed.

Lemma trade_moves rest received y : moves (on_trade rest received) y (fun _ y' acts => syn_move y y' acts).
Proof.
  unfold on_trade. destruct (split_whitespace rest) as [|p0 [|p1 [|p2 [|p3 l]]]]; try (apply moves_push, move_error).
  fields. do 2 (case_bool_decide; [by apply moves_emit_plain|]). apply moves_push, move_error.
Qed.

Lemma quote_moves rest received y : moves (on_quote rest received) y (fun _ y' acts => syn_move y y' acts).
Proof.
  unfold on_quote. destruct (split_whitespace rest) as [|p0 [|p1 l]]; try (apply moves_push, move_error).
  fields. destruct l as [|p2 [|p3 l]]; fields; by apply moves_emit_plain.
Qed.

Lemma candle_moves rest received y : moves (on_candle rest received) y (fun _ y' acts => syn_move y y' acts).
Proof.
  unfold on_candle. destruct (split_whitespace rest) as [|p0 [|p1 [|p2 [|p3 [|p4 [|p5 [|p6 l]]]]]]];
    try (apply moves_push, move_error). fields. by apply moves_emit_plain.
Qed.

Lemma snap_moves rest received y : moves (on_book_snap rest received) y (fun _ y' acts => syn_move y y' acts).
Proof.
  unfold on_book_snap. destruct (split_whitespace rest) as [|p0 [|p1 [|p2 [|p3 [|p4 l]]]]];
    try (apply moves_push, move_error).
  destruct (_ || _); [apply moves_push, move_error|]. fields.
  apply step_bind, moves_on_sync.
  destruct (apply_snapshot_and_drain _ _ _ (sy_sync y)) as [[[]|e] s1] eqn:E; cbn [fst snd].
  - apply step_bind, moves_on_self. apply step_bind, moves_emit. intros fs.
    apply step_bind, moves_push, moves_push. cbn [app]. eapply move_snapshot; eauto.
  - apply step_bind, moves_on_self. apply step_bind, moves_push, moves_push. cbn [app].
    eapply move_rejected; [exact H0|exact H1|exact H|exact E|done|]. split; [by repeat constructor|cbn; lia].
Qed.

Lemma apply_delta_moves n seq side op price qty received y pre :
  fits U64 seq -> (ok -> 0 <= n <= int_max I64 /\ fits U64 (stamp_mono_ns received)) -> change_input_ok price qty ->
  plain_list pre -> (length pre <= 1)%nat ->
  moves (apply_book_delta n seq side op price qty received) y (fun _ y' acts => syn_move y y' (pre ++ acts)).
Proof.
  intros Hs Ht Hin Hpre Hl. apply step_bind, moves_self. case_bool_decide as Hst.
  - apply step_bind, moves_on_sync.
    set (d := mkBufferedDelta _ _ _ _ _ _ _). assert (ok -> delta_ok d) as Hd by (intros [? ?]%Ht; by split).
    destruct (buffer_delta d (sy_sync y)) as [r s1] eqn:E; cbn [fst snd]. destruct r as [[]|e].
    + apply step_ret. cbn [app]. rewrite app_nil_r. eapply move_buffer; eauto.
    + apply step_bind, moves_push, moves_push. cbn [app]. eapply move_buffer; eauto.
      destruct Hpre as [Hpre _]. split; [apply Forall_app; split; [done|by repeat constructor]|].
      rewrite length_app. cbn. lia.
  - apply step_bind, moves_on_sync.
    destruct (on_live_delta _ _ _ _ _ (sy_sync y)) as [[[]|e] s1] eqn:E; cbn [fst snd].
    + apply moves_emit. intros fs. cbn [app]. eapply move_delta; eauto.
    + apply step_bind, moves_on_self. apply step_bind, moves_self.
      apply step_bind, moves_push. apply step_bind, moves_push. apply step_bind, moves_on_self.
      apply step_bind, moves_push, moves_push. cbn [app]. eapply move_gap; eauto.
      destruct Hpre as [Hpre _]. split; [apply Forall_app; split; [done|by repeat constructor]|].
      rewrite length_app. cbn. lia.
Qed.

Lemma delta_moves rest received y :
  (ok -> Z.of_nat (length rest) <= int_max I64 /\ fits U64 (stamp_mono_ns received)) ->
  moves (on_book_delta rest received) y (fun _ y' acts => syn_move y y' acts).
Proof.
  intros Ht. assert (ok -> 0 <= Z.of_nat (length rest) <= int_max I64 /\ fits U64 (stamp_mono_ns received)) as Ht'
    by (intros [? ?]%Ht; split; [lia|done]).
  unfold on_book_delta. destruct (split_whitespace rest) as [|p0 [|p1 [|p2 [|p3 l]]]];
    try (apply moves_push, move_error).
  fields. destruct (parse_side p1) as [side|]; [|apply moves_push, move_error].
  destruct (parse_operation p2) as [op|]; [|apply moves_push, move_error]. fields.
  apply step_bind. destruct l as [|p4 l].
  - apply step_ret. apply (apply_delta_moves _ _ _ _ _ _ _ _ []); [done|exact Ht'|by split|apply plain_nil|cbn; lia].
  - eapply moves_mono; [apply field_qty|]. cbv beta. intros [q|] y' acts [-> Ho].
    + destruct Ho as [Hq ->]. apply apply_delta_moves; [done|exact Ht'|split; [done|by intros ? [= <-]]|apply plain_nil|cbn; lia].
    + destruct Ho as [d ->]. apply apply_delta_moves; [done|exact Ht'|by split|apply plain_error|cbn; lia].
Qed.

Lemma line_bytes s : bool_decide (Forall is_byte (line_of s)) = true -> bytes_ok (line_of s).
Proof. apply bool_decide_eq_true_1. Qed.

Lemma text_moves text received y :
  (ok -> Z.of_nat (length text) <= int_max I64 /\ fits U64 (stamp_mono_ns received)) ->
  moves (handle_text text received) y (fun _ y' acts => syn_move y y' acts).
Proof.
  intros Ht. unfold handle_text. pose proof (trim_length text) as Htr. set (line := trim text) in *. clearbody line.
  destruct (is_nil line); [apply step_ret, move_plain; [done..|apply plain_nil]|].
  case_bool_decide; [apply moves_push, move_plain; [done..|]; split; [by repeat constructor|cbn; lia]|].
  destruct (strip_prefix SUB_PREFIX line).
  { apply step_bind, moves_on_self. apply step_bind, moves_push, moves_push, move_plain; [done..|].
    split; [|cbn; lia]. constructor; [by apply line_bytes|by repeat constructor]. }
  destruct (strip_prefix UNSUB_PREFIX line).
  { apply step_bind, moves_on_self. apply step_bind, moves_push, moves_push, move_plain; [done..|].
    split; [|cbn; lia]. constructor; [by apply line_bytes|by repeat constructor]. }
  destruct (strip_prefix STATS24H_PREFIX line); [apply stats24h_moves|].
  apply step_bind, moves_self. destruct (negb _); [apply moves_push, move_error|].
  destruct (strip_prefix TRADE_PREFIX line); [apply trade_moves|].
  destruct (strip_prefix QUOTE_PREFIX line); [apply quote_moves|].
  destruct (strip_prefix CANDLE_PREFIX line); [apply candle_moves|].
  destruct (strip_prefix BOOK_SNAP_PREFIX line); [apply snap_moves|].
  destruct (strip_prefix BOOK_DELTA_PREFIX line) as [rest|] eqn:E.
  - apply delta_moves. intros [? ?]%Ht. apply strip_prefix_length in E. split; [lia|done].
  - apply moves_push, move_plain; [done..|]. split; [by repeat constructor|cbn; lia].
Qed.

End Moves.

(** What the runner can hand over: a frame shorter than [isize::MAX], stamped
    with a [u64] clock. *)
Definition input_ok (i : SessionInput) : Prop :=
  match i with
  | TextFrame b st => Z.of_nat (length b) <= int_max I64 /\ fits U64 (stamp_mono_ns st)
  | _ => True
  end.

Lemma reacts_moves i y r y' acts : syn_reacts i y = (r, y', acts) -> syn_move (input_ok i) y y' acts.
Proof.
  unfold syn_reacts.
  assert (moves (syn_input i) y (fun _ y' acts => syn_move (input_ok i) y y' acts) \/
          exists e, syn_input i (y, []) = (Err e, (y, []))) as [Hm|[e ->]].
  { destruct i as [now|reason now|b st|b st|p st|id resp st|t now|[syms|syms|syms|inst|]]; cbn [syn_input] in *.
    - left. apply step_bind, moves_on_self. apply step_bind, moves_push, moves_push. cbn [app].
      apply move_reset; [by left|done|]. split; [|cbn; lia]. constructor; [done|]. constructor; [by apply line_bytes|constructor].
    - left. apply step_bind, moves_on_self. apply step_bind, moves_push, moves_push. cbn [app].
      apply move_reset; [by right|done|]. split; [by repeat constructor|cbn; lia].
    - destruct (utf8_error 0 b) as [e|]; [right; by eexists|left]. apply text_moves. done.
    - left. apply moves_push, move_plain; [done..|]. split; [by repeat constructor|cbn; lia].
    - left. apply step_ret, move_plain; [done..|apply plain_nil].
    - left. apply step_ret, move_plain; [done..|apply plain_nil].
    - left. apply step_ret, move_plain; [done..|apply plain_nil].
    - right. by eexists.
    - right. by eexists.
    - right. by eexists.
    - left. apply step_bind, moves_on_self. apply moves_push. cbn [app].
      apply move_reset; [by left|done|]. split; [by repeat constructor|cbn; lia].
    - left. apply moves_push, move_plain; [done..|]. split; [by repeat constructor|cbn; lia]. }
  - destruct (Hm []) as (a & y1 & acts1 & -> & HQ). cbn [app]. by intros [= <- <- <-].
  - intros [= <- <- <-]. apply move_plain; [done..|apply plain_nil].
Qed.

(** A session fits the recorder and the replay: its reactions are short and
    made of bytes. *)
Lemma move_fits ok y y' acts :
  syn_move ok y y' acts ->
  (length acts <= 9)%nat /\ Forall (fun a => match a with SendText p | SendBinary p | SendPing p => bytes_ok p | _ => True end) acts.
Proof.
  assert (forall acts, plain_list acts -> (length acts <= 9)%nat /\
    Forall (fun a => match a with SendText p | SendBinary p | SendPing p => bytes_ok p | _ => True end) acts) as Hp.
  { intros l [Hl Hn]. split; [lia|]. eapply Forall_impl; [exact Hl|]. by intros []. }
  intros Hm. destruct Hm; auto.
  - split; [cbn; lia|by repeat constructor].
  - destruct (Hp pre) as [_ Hpre]; [done|]. split; [rewrite length_app; cbn; lia|].
    apply Forall_app. split; [done|by repeat constructor].
Qed.

(** ** The invariant *)

Record SynInv (y : SyntheticSession) : Prop := {
  sy_sync_ok : sync_inv (sy_sync y);
  sy_live_iff : sy_live y = true <-> state (sy_sync y) = Live;
  sy_valid : state (sy_sync y) = Live -> validity (book (sy_sync y)) = Valid;
  sy_scales : price_scale (book (sy_sync y)) = 2 /\ qty_scale (book (sy_sync y)) = 3 /\
              depth (book (sy_sync y)) = Some 50
}.

(** The scales and the depth of a book never change. *)
Definition shape (b : OrderBook) : Z * Z * option Z := (price_scale b, qty_scale b, depth b).

Lemma upsert_all_shape side ls b b' : upsert_all side b ls = Ok b' -> shape b' = shape b.
Proof. intros H. unfold shape. by destruct (upsert_all_fields _ _ _ _ H) as (_ & _ & -> & -> & ->). Qed.

Lemma trim_depth_shape b : shape (trim_depth b) = shape b.
Proof. unfold shape. by destruct (trim_depth_fields b) as (_ & _ & -> & -> & ->). Qed.

Lemma set_level_shape b s p q : shape (set_level b s p q) = shape b.
Proof. unfold shape. by destruct (set_level_fields b s p q) as (_ & _ & -> & -> & ->). Qed.

Lemma apply_change_shape s op p q b : shape (snd (apply_change s op p q b)) = shape b.
Proof.
  destruct (apply_change_outcome b s op p q); try done;
    [|etrans; [apply trim_depth_shape|]|change (shape (trim_depth (set_level b s pk (Some qk))) = shape b);
      etrans; [apply trim_depth_shape|]]; apply set_level_shape.
Qed.

Lemma apply_snapshot_shape sb sa n b r b' : apply_snapshot sb sa n b = (r, b') -> shape b' = shape b.
Proof.
  intros H. destruct r as [[]|e]; [|by apply apply_snapshot_Err in H as ->].
  apply apply_snapshot_Ok in H as (b1 & b2 & H1 & H2 & _ & ->).
  change (shape (trim_depth b2) = shape b). rewrite trim_depth_shape, (upsert_all_shape _ _ _ _ H2).
  by rewrite (upsert_all_shape _ _ _ _ H1).
Qed.

Lemma drain_loop_shape ds last s :
  let s' := snd (BookSync.drain_loop ds last s) in
  shape (book s') = shape (book s) /\ (state s <> Live -> state s' <> Live).
Proof.
  revert last s. induction ds as [|d ds IH]; intros last s; cbn [BookSync.drain_loop]; [done|].
  destruct (_ <=? last); [apply IH|]. destruct (negb _); [done|].
  unfold ebind. rewrite on_book_eq. pose proof (apply_change_shape (delta_side d) (delta_operation d)
    (delta_price d) (delta_quantity d) (book s)) as Hs.
  destruct (fst (apply_change _ _ _ _ _)); cbn [fst snd]; [|done].
  destruct (IH (delta_sequence d) (s ⟪ book := snd (apply_change (delta_side d) (delta_operation d)
    (delta_price d) (delta_quantity d) (book s)) ⟫)) as [I1 I2]. split; [by rewrite I1|done].
Qed.

(** What a snapshot leaves: live on success, off line on failure. *)
Lemma snapshot_after sb sa n s r s' :
  apply_snapshot_and_drain sb sa n s = (r, s') ->
  shape (book s') = shape (book s) /\ match r with Ok _ => state s' = Live | Err _ => state s' <> Live end.
Proof.
  rewrite apply_snapshot_and_drain_eq.
  destruct (apply_snapshot sb sa (Some n) (book s)) as [[u|e] b0] eqn:E; [|by intros [= <- <-]].
  apply apply_snapshot_shape in E.
  pose proof (drain_loop_shape (filter (fun d => n < delta_sequence d) (buffer s)) n (drain_start s b0)) as [D1 D2].
  destruct (BookSync.drain_loop _ n _) as [[last|e] s1]; intros [= <- <-]; cbn [snd] in *.
  - split; [|done]. change (shape (book s1) = shape (book s)). by rewrite D1.
  - split; [by rewrite D1|]. by apply D2.
Qed.

Lemma buffer_after d s r s' :
  buffer_delta d s = (r, s') -> shape (book s') = shape (book s) /\ (state s <> Live -> state s' <> Live).
Proof.
  unfold buffer_delta. eff_unfold. destruct (_ || _ || _); [by intros [= <- <-]|].
  cbn [state set_field]. destruct (_ || _); by intros [= <- <-].
Qed.

(** A live delta that is accepted is stale, or is the next one and is applied. *)
Lemma live_delta_after n sd op p q s r s' :
  state s = Live -> on_live_delta n sd op p q s = (r, s') ->
  shape (book s') = shape (book s) /\
  (r = Ok tt -> state s' = Live /\
    let expected := default n (expected_sequence s) in
    (n < expected /\ s' = s) \/
    (n = expected /\ exists b, apply_change sd op p q (book s) = (Ok tt, b) /\ book s' = set_sequence b n /\
       expected_sequence s' = Some (wrap U64 (n + 1)))).
Proof.
  intros Hl. unfold on_live_delta. unfold ebind at 1, eget at 1. rewrite bool_decide_eq_false_2 by (intros H; by apply H).
  destruct (Z.ltb_spec n (default n (expected_sequence s))) as [H1|H1]; [intros [= <- <-]; auto|].
  destruct (Z.ltb_spec (default n (expected_sequence s)) n) as [H2|H2]; [by intros [= <- <-]|].
  unfold ebind at 1. rewrite on_book_eq. pose proof (apply_change_shape sd op p q (book s)) as Hs.
  destruct (apply_change sd op p q (book s)) as [[[]|e] b]; cbn [fst snd] in *; intros [= <- <-]; [|done].
  split; [done|]. intros _. split; [done|]. right. split; [lia|]. by exists b.
Qed.

Lemma shape_ok y : shape (book (sy_sync y)) = (2, 3, Some 50) <->
  price_scale (book (sy_sync y)) = 2 /\ qty_scale (book (sy_sync y)) = 3 /\ depth (book (sy_sync y)) = Some 50.
Proof. unfold shape. split; [by intros [= -> -> ->]|by intros (-> & -> & ->)]. Qed.

(** Live means a valid book, after a snapshot and after a live delta. *)
Lemma snapshot_valid sb sa n s s' : apply_snapshot_and_drain sb sa n s = (Ok tt, s') -> validity (book s') = Valid.
Proof.
  rewrite apply_snapshot_and_drain_eq. destruct (apply_snapshot sb sa (Some n) (book s)) as [[u|e] b0]; [|done].
  destruct (BookSync.drain_loop _ n _) as [[last|e] s1]; by intros [= <-].
Qed.

Lemma live_delta_valid n sd op p q s s' :
  state s = Live -> validity (book s) = Valid -> on_live_delta n sd op p q s = (Ok tt, s') -> validity (book s') = Valid.
Proof.
  intros Hl Hv E. apply live_delta_after in E as [_ E]; [|done].
  destruct (E eq_refl) as [_ [[_ ->]|[_ (b & Hb & -> & _)]]]; [done|]. by apply apply_change_Valid in Hb as [_ Hb].
Qed.

Lemma move_inv (ok : Prop) y y' acts : ok -> SynInv y -> syn_move ok y y' acts -> SynInv y'.
Proof.
  intros Hok [Hs Hl Hv Hsh%shape_ok]. destruct 1 as
    [acts Es El _|acts [Es|Es] El _|bids asks seq fs rc Hb Ha Hn E El|bids asks seq e acts Hb Ha Hn E El _
    |d r acts Hst Hd E El _|seq sd op p q fs rc pre Hst Hn Hin E El _ _|seq sd op p q e sync acts Hst Hin E Es El _];
    split; try apply shape_ok; try (rewrite ?Es, ?El; done).
  - rewrite Es. by apply request_snapshot_inv, begin_resync_inv.
  - rewrite Es. by apply invalidate_inv.
  - pose proof (apply_snapshot_and_drain_inv _ _ seq _ Hs Hb Ha Hn) as H. by rewrite E in H.
  - apply snapshot_after in E as [_ E]. by rewrite El, E.
  - intros _. by eapply snapshot_valid.
  - apply snapshot_after in E as [-> _]. done.
  - pose proof (apply_snapshot_and_drain_inv _ _ seq _ Hs Hb Ha Hn) as H. by rewrite E in H.
  - apply snapshot_after in E as [_ E]. rewrite El. split; [discriminate|done].
  - by apply snapshot_after in E as [_ E].
  - apply snapshot_after in E as [-> _]. done.
  - pose proof (buffer_delta_inv d _ Hs (Hd Hok)) as H. by rewrite E in H.
  - apply buffer_after in E as [_ E]. rewrite El, Hl. split; [done|]. intros H. by destruct (E Hst).
  - apply buffer_after in E as [_ E]. intros H. by destruct (E Hst).
  - apply buffer_after in E as [-> _]. done.
  - pose proof (on_live_delta_inv seq sd op p q _ Hs Hin) as H. by rewrite E in H.
  - apply live_delta_after in E as [_ H]; [|done]. destruct (H eq_refl) as [E' _]. by rewrite El, E', Hl, Hst.
  - intros _. eapply live_delta_valid; eauto.
  - apply live_delta_after in E as [-> _]; done.
  - rewrite Es. apply invalidate_inv. pose proof (on_live_delta_inv seq sd op p q _ Hs Hin) as H. by rewrite E in H.
  - rewrite Es. apply live_delta_after in E as [E _]; [|done]. by rewrite <- Hsh, <- E.
Qed.

(** ** A run of the session *)

Definition syn_run1 (i : SessionInput) (y : SyntheticSession) : SyntheticSession * list SessionAction :=
  let '(_, y', acts) := syn_reacts i y in (y', acts).

(** The states and the actions of a run, input by input. *)
Fixpoint syn_run (ins : list SessionInput) (y : SyntheticSession) : list (SyntheticSession * list SessionAction) :=
  match ins with
  | [] => []
  | i :: ins => let '(y', acts) := syn_run1 i y in (y', acts) :: syn_run ins y'
  end.

Definition syn_final (ins : list SessionInput) (y : SyntheticSession) : SyntheticSession :=
  foldl (fun y i => (syn_run1 i y).1) y ins.

Lemma run1_moves i y : syn_move (input_ok i) y (syn_run1 i y).1 (syn_run1 i y).2.
Proof.
  unfold syn_run1. destruct (syn_reacts i y) as [[r y'] acts] eqn:E. by eapply reacts_moves.
Qed.

Lemma new_inv spec catalog : SynInv (synthetic_new spec catalog).
Proof.
  split; [|by split|done|by split]. apply request_snapshot_inv, sync_new_inv.
  - split; [apply book_wf_new; [solve_fits..|]|intros [=]]. intros d [= <-]. lia.
  - repeat split; cbn; lia.
Qed.

Lemma final_inv ins y : SynInv y -> Forall input_ok ins -> SynInv (syn_final ins y).
Proof.
  intros Hy His. revert y Hy. induction His as [|i ins Hi _ IH]; intros y Hy; cbn; [done|].
  apply IH. by eapply move_inv, run1_moves.
Qed.

(** ** A consumer of the feed *)

(** The events in the actions, as a sink receives them. *)
Definition events_of (acts : list SessionAction) : list EventEnvelope :=
  concat (omap (fun a => match a with EmitBatch b => Some (batch_events b) | _ => None end) acts).

(** A consumer keeps a book of its own: it takes every snapshot, and a delta
    when its sequence follows the book's. *)
Definition consume (b : OrderBook) (e : EventEnvelope) : OrderBook :=
  match env_payload e, env_source_sequence e with
  | EvBookSnapshot s, Some n =>
      snd (apply_snapshot (level_pair <$> snapshot_bids s) (level_pair <$> snapshot_asks s) (Some (seq_last n)) b)
  | EvBookDelta d, Some n =>
      match sequence b, delta_changes d with
      | Some last, [c] =>
          if seq_last n =? wrap U64 (last + 1) then
            set_sequence (snd (apply_change (change_side c) (change_operation c) (change_price c)
                                 (change_quantity c) b)) (seq_last n)
          else b
      | _, _ => b
      end
  | _, _ => b
  end.

Definition consume_all : list EventEnvelope -> OrderBook -> OrderBook := fun es b => foldl consume b es.

(** A snapshot that the session publishes drained nothing when the book is at
    the snapshot's own sequence. *)
Definition undrained (p : SyntheticSession * list SessionAction) : Prop :=
  Forall (fun e => match env_payload e with
                   | EvBookSnapshot _ => seq_last <$> env_source_sequence e = sequence (book (sy_sync p.1))
                   | _ => True
                   end) (events_of p.2).

#[export] Instance undrained_dec p : Decision (undrained p).
Proof. unfold undrained. apply Forall_dec. intros e. destruct (env_payload e); apply _. Defined.

Lemma events_app l1 l2 : events_of (l1 ++ l2) = events_of l1 ++ events_of l2.
Proof. unfold events_of. by rewrite omap_app, concat_app. Qed.

Lemma consume_app l1 l2 b : consume_all (l1 ++ l2) b = consume_all l2 (consume_all l1 b).
Proof. apply foldl_app. Qed.

Lemma consume_plain acts b : Forall plain acts -> consume_all (events_of acts) b = b.
Proof.
  induction 1 as [|a acts Ha _ IH]; [done|]. change (a :: acts) with ([a] ++ acts).
  rewrite events_app, consume_app. enough (consume_all (events_of [a]) b = b) as -> by done.
  destruct a; try done. unfold events_of. cbn [omap list_omap concat]. rewrite app_nil_r. cbn [plain] in Ha.
  induction Ha as [|e es He _ IHe]; [done|]. cbn. unfold consume at 2.
  unfold is_book_event in He. destruct (env_payload e); try done; by destruct (env_source_sequence e).
Qed.

(** [apply_snapshot] looks at the shape of the book only. *)
Lemma apply_snapshot_same sb sa n b c b' :
  shape c = shape b -> apply_snapshot sb sa n b = (Ok tt, b') -> apply_snapshot sb sa n c = (Ok tt, b').
Proof.
  unfold shape. intros [= H1 H2 H3]. rewrite !apply_snapshot_Ok, H1, H2, H3. done.
Qed.

Lemma go_live_undrained sb sa n s s' :
  sync_inv s -> fits U64 n -> apply_snapshot_and_drain sb sa n s = (Ok tt, s') -> sequence (book s') = Some n ->
  exists b0, apply_snapshot sb sa (Some n) (book s) = (Ok tt, b0) /\ book s' = b0.
Proof.
  intros Hs Hn E Hseq.
  rewrite apply_snapshot_and_drain_eq in E. destruct (apply_snapshot sb sa (Some n) (book s)) as [[[]|e] b0] eqn:Es; [|done].
  exists b0. split; [done|].
  destruct (BookSync.drain_loop _ n _) as [[last|e] s1] eqn:Ed; [|done]. injection E as <-.
  pose proof (apply_snapshot_Ok sb sa (Some n) (book s) b0) as [Hok _]. destruct (Hok Es) as (b1 & b2 & _ & _ & _ & Eb).
  apply drain_loop_Ok in Ed as (ap & b3 & H1 & H2 & -> & H4 & H5 & H6 & H7 & ->);
    [|done|apply Forall_filter_sub, Hs|by apply (apply_snapshot_Valid _ _ _ _ _ Es)].
  cbn in Hseq. injection Hseq as Hap. destruct ap as [|a ap]; [|cbn in Hap; lia].
  cbn in H6. injection H6 as <-. unfold go_live. cbn. rewrite Z.add_0_r. subst b0. done.
Qed.

(** The consumer [c] is in step with [y]: its book has the session's shape,
    and equals the session's while the session is live. *)
Definition in_step (y : SyntheticSession) (c : OrderBook) : Prop :=
  shape c = (2, 3, Some 50) /\ (sy_live y = true -> c = book (sy_sync y)).

Lemma consume_shape b e : shape (consume b e) = shape b.
Proof.
  unfold consume. destruct (env_payload e); try done; destruct (env_source_sequence e) as [n|]; try done.
  - destruct (apply_snapshot _ _ _ b) as [r b'] eqn:E. by apply apply_snapshot_shape in E.
  - destruct (sequence b), (delta_changes d) as [|ch [|]]; try done. destruct (_ =? _); [|done].
    change (shape (snd (apply_change (change_side ch) (change_operation ch) (change_price ch) (change_quantity ch) b)) = shape b).
    apply apply_change_shape.
Qed.

Lemma consume_snapshot fs seq rc bids asks d k b :
  consume_all (events_of [book_batch fs seq EventFlags.SNAPSHOT rc (EvBookSnapshot (mkBookSnapshot bids asks d k));
                          EmitSystem (BookResynchronized DEFAULT_INSTRUMENT); MarkLive]) b
  = snd (apply_snapshot (level_pair <$> bids) (level_pair <$> asks) (Some seq) b).
Proof. reflexivity. Qed.

Lemma consume_delta fs seq rc sd op p q k b :
  consume_all (events_of [book_batch fs seq EventFlags.DELTA rc (EvBookDelta (mkBookDelta [mkBookChange sd op p q] k))]) b
  = match sequence b with
    | Some last => if seq =? wrap U64 (last + 1) then set_sequence (snd (apply_change sd op p q b)) seq else b
    | None => b
    end.
Proof. reflexivity. Qed.

(** Both books make the same step. *)
Lemma move_in_step (ok : Prop) y y' acts c :
  ok -> SynInv y -> in_step y c -> syn_move ok y y' acts -> undrained (y', acts) ->
  in_step y' (consume_all (events_of acts) c).
Proof.
  intros Hok Hinv [Hsh Heq] Hm Hu. destruct Hinv as [Hs Hl _ Hsc%shape_ok].
  destruct Hm as
    [acts Es El [Hp _]|acts _ El [Hp _]|bids asks seq fs rc Hb Ha Hn E El|bids asks seq e acts Hb Ha Hn E El [Hp _]
    |d r acts Hst Hd E El [Hp _]|seq sd op p q fs rc pre Hst Hn Hin E El [Hp _] _|seq sd op p q e sync acts Hst Hin E Es El [Hp _]].
  - rewrite (consume_plain _ _ Hp). split; [done|]. by rewrite Es, El.
  - rewrite (consume_plain _ _ Hp). split; [done|congruence].
  - split; [by etrans; [apply consume_shape|]|]. intros _. unfold undrained, events_of in Hu.
    cbn in Hu. apply Forall_cons in Hu as [Hu _]. cbn in Hu. destruct (go_live_undrained _ _ _ _ _ Hs Hn E (eq_sym Hu)) as (b0 & E0 & ->).
    rewrite consume_snapshot. by rewrite (apply_snapshot_same _ _ _ _ c _ (eq_trans Hsh (eq_sym Hsc)) E0).
  - rewrite (consume_plain _ _ Hp). split; [done|congruence].
  - rewrite (consume_plain _ _ Hp). split; [done|]. rewrite El, Hl. done.
  - rewrite events_app, consume_app, (consume_plain _ _ Hp). split; [by etrans; [apply consume_shape|]|].
    intros _. rewrite (Heq (proj2 Hl Hst)). destruct (inv_live _ Hs Hst) as (n & Hq & Hx).
    apply live_delta_after in E as [_ E]; [|done]. destruct (E eq_refl) as [_ Hcase]. cbv zeta in Hcase. rewrite Hx in Hcase.
    change (default seq (Some (wrap U64 (n + 1)))) with (wrap U64 (n + 1)) in Hcase.
    rewrite consume_delta, Hq.
    destruct Hcase as [[Hlt ->]|[-> (b & -> & -> & _)]]; [|by rewrite Z.eqb_refl].
    by destruct (Z.eqb_spec seq (wrap U64 (n + 1))); [lia|].
  - rewrite (consume_plain _ _ Hp). split; [done|congruence].
Qed.

Lemma run_in_step ins y c :
  SynInv y -> in_step y c -> Forall input_ok ins -> Forall undrained (syn_run ins y) ->
  in_step (syn_final ins y) (consume_all (events_of (concat (syn_run ins y).*2)) c).
Proof.
  intros Hy Hc Hi. revert y c Hy Hc. induction Hi as [|i ins Hi _ IH]; intros y c Hy Hc; [done|].
  pose proof (run1_moves i y) as Hm. unfold syn_final. cbn [syn_run foldl].
  destruct (syn_run1 i y) as [y1 acts]. cbn [fst snd] in *. intros Hu. apply Forall_cons in Hu as [Hu1 Hu].
  rewrite fmap_cons. cbn [concat snd]. rewrite events_app, consume_app.
  apply IH; [exact (move_inv _ _ _ _ Hi Hy Hm)|exact (move_in_step _ _ _ _ _ Hi Hy Hc Hm Hu1)|done].
Qed.

(** C23. The published feed is enough to rebuild the book.  Take a new session and
    any inputs, garbled frames, gaps, reconnects and commands included, such
    that no published snapshot swallowed buffered deltas.  A consumer that
    starts from an empty book of the same scales and applies, in order, the
    snapshots and the deltas that follow its own sequence, has exactly the
    session's book whenever the session is live, and the session is live
    exactly when its synchroniser is. *)
Theorem synthetic_feed_rebuilds_book spec catalog ins :
  Forall input_ok ins -> Forall undrained (syn_run ins (synthetic_new spec catalog)) ->
  let y := syn_final ins (synthetic_new spec catalog) in
  let c := consume_all (events_of (concat (syn_run ins (synthetic_new spec catalog)).*2)) (new 2 3 (Some 50)) in
  (sy_live y = true <-> state (sy_sync y) = Live) /\ (sy_live y = true -> c = book (sy_sync y) /\ validity c = Valid).
Proof.
  intros Hi Hu y c. pose proof (new_inv spec catalog) as H0.
  destruct (final_inv ins _ H0 Hi) as [Hs Hl Hv _].
  destruct (run_in_step ins _ (new 2 3 (Some 50)) H0 ltac:(by split) Hi Hu) as [_ Hc].
  split; [done|]. intros Hlive. rewrite (Hc Hlive : c = _). split; [done|]. by apply Hv, Hl.
Qed.

(** A live session: subscribed, a snapshot, a stale and a fresh delta, a gap,
    and a fresh start. *)
Definition spec0 : SessionSpec := mkSessionSpec "ws" (mkConcreteSubscriptionSet []).
Definition catalog0 : CatalogView := catalog_new SYNTHETIC_VENUE_ID 1.
Definition text_at (t : Z) (s : string) : SessionInput := TextFrame (bytes_of_string s) (mkFrameStamp t t).

Definition good_day : list SessionInput :=
  [Connected 0; text_at 1 "SUB BTC-USD"; text_at 2 "BOOK_SNAP 10 BID 100.00:1,99.50:2.5 ASK 100.10:3";
   text_at 3 "BOOK_DELTA 11 BID UPSERT 99.75 4"; text_at 4 "BOOK_DELTA 11 BID UPSERT 98.00 1";
   text_at 5 "BOOK_DELTA 14 ASK DELETE 100.10"; text_at 6 "BOOK_SNAP 20 BID 100.00:1 ASK -";
   text_at 7 "BOOK_DELTA 21 ASK UPSERT 100.50 2"].

Lemma text_ok t s : bool_decide (0 <= t < 1000) = true -> Nat.ltb (String.length s) 1000 = true -> input_ok (text_at t s).
Proof.
  intros Ht%bool_decide_eq_true_1 Hs%Nat.ltb_lt. split; [|unfold fits; cbn; lia].
  unfold bytes_of_string. rewrite length_map.
  change (int_max I64) with 9223372036854775807. enough (length (String.list_ascii_of_string s) = String.length s) by lia.
  clear. induction s; cbn; congruence.
Qed.

Lemma synthetic_feed_rebuilds_book_witness :
  let y := syn_final good_day (synthetic_new spec0 catalog0) in
  sy_live y = true /\
  consume_all (events_of (concat (syn_run good_day (synthetic_new spec0 catalog0)).*2)) (new 2 3 (Some 50)) = book (sy_sync y).
Proof.
  assert (sy_live (syn_final good_day (synthetic_new spec0 catalog0)) = true) as Hl by (vm_compute; reflexivity).
  split; [exact Hl|].
  destruct (synthetic_feed_rebuilds_book spec0 catalog0 good_day) as [_ H].
  - repeat first [apply Forall_nil_2 | apply Forall_cons_2; [first [exact I|apply text_ok; reflexivity]|]].
  - apply (bool_decide_eq_true_1 _). vm_compute. reflexivity.
  - exact (proj1 (H Hl)).
Defined.

(** Delta 11 arrives before snapshot 10. *)
Definition early_delta : list SessionInput :=
  [Connected 0; text_at 1 "SUB BTC-USD"; text_at 2 "BOOK_DELTA 11 BID UPSERT 99.75 4";
   text_at 3 "BOOK_SNAP 10 BID 99.50:2.5 ASK 100.10:3"; text_at 4 "BOOK_DELTA 12 ASK UPSERT 100.05 1"].

(** The deltas that a snapshot drains are applied to the session's book
    and never published: the snapshot event carries the levels of the
    snapshot message, so that a consumer stays at the snapshot's sequence and
    refuses every later delta, while the session is live and no gap is
    reported. *)
Theorem synthetic_drain_unpublished :
  let run := syn_run early_delta (synthetic_new spec0 catalog0) in
  let y := syn_final early_delta (synthetic_new spec0 catalog0) in
  let c := consume_all (events_of (concat run.*2)) (new 2 3 (Some 50)) in
  sy_live y = true /\ sequence (book (sy_sync y)) = Some 12 /\ best_bid (book (sy_sync y)) = Some (px 9975, qt 4000) /\
  sequence c = Some 10 /\ best_bid c = Some (px 9950, qt 2500) /\
  forallb (fun a => match a with EmitSystem (SequenceGap _ _ | BookInvalidated _ _) => false | _ => true end)
    (concat run.*2) = true.
Proof. split_and! ; vm_compute; reflexivity. Qed.
