(* ===== verification/Spill.v ===== *)
(** * The spill file ([crates/sinks/src/spill.rs])

    The sink behind [OverflowPolicy::SpillToDisk]: items wait in two bounded
    queues, the overflow is appended to a write-ahead log up to a hard limit,
    and the log of a previous process is recovered, processed and
    acknowledged.  The device is any file with the laws of an append-only file
    that can be cut and replaced; the JSON codec of the records is a
    parameter. *)

From stdpp Require Import base tactics numbers strings option list.
From Stdlib Require Import ZArith Lia.
From S2P Require Import Prelude Bytes Collections Fixed Text Model Dispatch Sinks RecordingPipeline.

Local Open Scope Z_scope.

Definition TAG_BATCH : Z := 1.
Definition TAG_SYSTEM : Z := 2.
Definition WAL_MAGIC : list Z := bytes_of_string "MFSPILL2" ++ [10].
Definition MAX_RECORD_BYTES : Z := 64 * 1024 * 1024.
Definition MAGIC_LEN : Z := Z.of_nat (length WAL_MAGIC).

Inductive SpillItem := SpillBatch (b : EventBatch) | SpillSystem (e : SystemEvent).

(** ** The device *)

(** The file at [cfg.path], which is also the inner writer of the append
    handle, and the temporary file that replaces it.  What can fail and
    leaves the file as it is (creating directories, opening, seeking, syncing)
    is [touch]. *)
Class WalDisk (D : Type) `{Write D} := {
  touch : Eff D string unit;
  set_len : Z -> Eff D string unit;
  make_temp : list Z -> Eff D string unit;
  persist : list Z -> Eff D string unit;
  touch_written : forall d, written (snd (touch d)) = written d;
  set_len_written : forall n d,
    written (snd (set_len n d)) =
      match fst (set_len n d) with Ok _ => take (Z.to_nat n) (written d) | Err _ => written d end;
  make_temp_written : forall l d, written (snd (make_temp l d)) = written d;
  persist_written : forall l d,
    written (snd (persist l d)) = match fst (persist l d) with Ok _ => l | Err _ => written d end
}.

(** [serde_json::to_vec] and [from_slice] on a record. *)
Class SpillJson := {
  item_to_vec : SpillItem -> result (list Z) string;
  item_from_slice : list Z -> result SpillItem string
}.
Class SpillJsonLaws `{SpillJson} : Prop := {
  item_round_trip : forall i b, item_to_vec i = Ok b -> item_from_slice b = Ok i
}.

(** ** State *)

Record SpillWalConfig := mkSpillWalConfig {
  spc_batch_capacity : Z;
  spc_system_capacity : Z;
  spc_wal_limit_bytes : Z
}.

(** [sp_writer] is what the append handle has buffered; [None] when it is
    closed.  [sp_disk] is the file, reached through the handle and by path. *)
Record SpillWalSink (D : Type) := mkSpillWalSink {
  sp_batches : list EventBatch;
  sp_systems : list SystemEvent;
  sp_batch_capacity : Z;
  sp_system_capacity : Z;
  sp_writer : option (list Z);
  sp_wal_limit_bytes : Z;
  sp_wal_bytes : Z;
  sp_spilled_batches : Z;
  sp_spilled_systems : Z;
  sp_pending : list SystemEvent;
  sp_recovered_remaining : Z;
  sp_recovery_next_offset : Z;
  sp_recovery_prefix_bytes : Z;
  sp_disk : D
}.
Arguments mkSpillWalSink {D}.
Arguments sp_batches {D}.
Arguments sp_systems {D}.
Arguments sp_batch_capacity {D}.
Arguments sp_system_capacity {D}.
Arguments sp_writer {D}.
Arguments sp_wal_limit_bytes {D}.
Arguments sp_wal_bytes {D}.
Arguments sp_spilled_batches {D}.
Arguments sp_spilled_systems {D}.
Arguments sp_pending {D}.
Arguments sp_recovered_remaining {D}.
Arguments sp_recovery_next_offset {D}.
Arguments sp_recovery_prefix_bytes {D}.
Arguments sp_disk {D}.

#[export] Instance eta_SpillWalSink D : Eta (SpillWalSink D) := fun s =>
  mkSpillWalSink (sp_batches s) (sp_systems s) (sp_batch_capacity s) (sp_system_capacity s) (sp_writer s)
    (sp_wal_limit_bytes s) (sp_wal_bytes s) (sp_spilled_batches s) (sp_spilled_systems s) (sp_pending s)
    (sp_recovered_remaining s) (sp_recovery_next_offset s) (sp_recovery_prefix_bytes s) (sp_disk s).

(** An error, or the panic of [expect] on a closed writer. *)
Inductive SpillFault := SpillErr (e : SinkError) | SpillPanic.

(** ** Messages *)

Definition decimal (n : Z) : string := string_of_bytes (dec_digits 20 n).

Definition policy_debug (p : OverflowPolicy) : string :=
  match p with
  | BlockWithDeadline => "BlockWithDeadline" | DropNewest => "DropNewest" | DropOldest => "DropOldest"
  | LatestPerKey => "LatestPerKey" | SpillToDisk => "SpillToDisk" | DisableSink => "DisableSink"
  | FailEngine => "FailEngine"
  end.

Definition sink_error_text (e : SinkError) : string :=
  match e with
  | SinkFailEngine => "sink queue full under FailEngine policy"
  | SinkDeadlineExceeded => "sink queue full and BlockWithDeadline timed out"
  | SinkUnsupportedPolicy p => "overflow policy not implemented for this sink: " +:+ policy_debug p
  | SinkIo d => "sink I/O: " +:+ d
  | SinkUnsupported d => "sink unsupported: " +:+ d
  end.

(** ** Reading records *)

Section Spill.
Context {D : Type} `{WalDisk D} `{SpillJson}.

Abbreviation Sp := (Eff (SpillWalSink D) SpillFault).

Definition item_tag (i : SpillItem) : Z := match i with SpillBatch _ => TAG_BATCH | SpillSystem _ => TAG_SYSTEM end.

Definition decode_item (tag : Z) (body : list Z) : result SpillItem SinkError :=
  let? item := map_err SinkIo (item_from_slice body) in
  if tag =? item_tag item then Ok item else Err (SinkIo "spill record tag/body mismatch").

Definition validate_record_len (body_len wal_limit_bytes : Z) : result unit string :=
  let maximum := Z.min (saturating_sub U64 wal_limit_bytes (MAGIC_LEN + 5)) MAX_RECORD_BYTES in
  if maximum <? body_len then
    Err ("spill record body length " +:+ decimal body_len +:+ " exceeds maximum " +:+ decimal maximum)
  else Ok tt.

Definition eof {A} (r : option A) : result A string := ok_or r "failed to fill whole buffer"%string.

Definition read_magic (bytes : list Z) : result (list Z) string :=
  match read_exact (length WAL_MAGIC) bytes with
  | (None, _) =>
      Err "spill WAL is missing the MFSPILL2 header; MFSPILL1 metadata WALs are not replay-compatible with complete-event records; quarantine or migrate the file before startup"%string
  | (Some magic, rest) =>
      if negb (bool_decide (magic = WAL_MAGIC)) then
        Err "legacy or unknown spill WAL format; MFSPILL1 metadata WALs are not replay-compatible with MFSPILL2 complete-event records; quarantine or migrate the file before startup"%string
      else Ok rest
  end.

(** [file.set_len(record_start)?; file.sync_data()?; break]. *)
Definition cut_at (record_start count : Z) : Eff D string (option Z) :=
  set_len record_start !; touch !; eret (Some count).

(** The loop of the scan over the bytes after [record_start]; every record has
    a byte, so that the length is enough fuel, and [None] would mean that it
    was not. *)
Fixpoint scan_loop (fuel : nat) (file_len limit : Z) (rest : list Z) (record_start count : Z) : Eff D string (option Z) :=
  match fuel with
  | O => eret None
  | S fuel =>
      match rest with
      | [] => eret (Some count)
      | tag :: rest =>
          match read_exact 4 rest with
          | (None, _) => cut_at record_start count
          | (Some length, rest) =>
              let body_len := from_le_bytes length in
              elift (validate_record_len body_len limit) !;
              let! record_end :=
                elift (ok_or (v ← checked_add U64 record_start 5; checked_add U64 v body_len)
                         "spill record length overflow"%string) in
              if file_len <? record_end then cut_at record_start count
              else
                let '(body, rest) := read_exact (Z.to_nat body_len) rest in
                let! body := elift (eof body) in
                elift (map_err (fun error => "invalid spill record at offset " +:+ decimal record_start +:+ ": " +:+
                                             sink_error_text error)%string (decode_item tag body)) !;
                let! count := elift (ok_or (checked_add U64 count 1) "spill record count exceeds usize::MAX"%string) in
                scan_loop fuel file_len limit rest record_end count
          end
      end
  end.

Definition file_len (d : D) : Z := Z.of_nat (length (written d)).

Definition limit_error (len limit : Z) : string :=
  "spill WAL length " +:+ decimal len +:+ " exceeds configured limit " +:+ decimal limit.

Definition scan_spill_file (wal_limit_bytes : Z) : Eff D string (option Z) :=
  touch !;
  let! d := eget in
  if wal_limit_bytes <? file_len d then ethrow (limit_error (file_len d) wal_limit_bytes) else
  let! rest := elift (read_magic (written d)) in
  scan_loop (S (length rest)) (file_len d) wal_limit_bytes rest MAGIC_LEN 0.

Definition read_one_item (rest : list Z) (wal_limit_bytes : Z) : result (SpillItem * Z) string :=
  let '(tag, rest) := read_exact 1 rest in
  let? tag := eof tag in
  let '(length, rest) := read_exact 4 rest in
  let? length := eof length in
  let body_len := from_le_bytes length in
  let? _ := validate_record_len body_len wal_limit_bytes in
  let '(body, rest) := read_exact (Z.to_nat body_len) rest in
  let? body := eof body in
  let? item := map_err sink_error_text (decode_item (hd 0 tag) body) in
  Ok (item, 5 + body_len).

(** ** Opening *)

(** [None] is the panic of an [assert!] on the configuration; the inner [None]
    would mean that the scan ran out of fuel. *)
Definition spill_open (cfg : SpillWalConfig) : option (Eff D string (option (D -> SpillWalSink D))) :=
  if (spc_batch_capacity cfg <=? 0) || (spc_system_capacity cfg <=? 0) || (spc_wal_limit_bytes cfg <=? 0) then None
  else Some (
    touch !;
    if spc_wal_limit_bytes cfg <? MAGIC_LEN then
      ethrow ("spill WAL limit " +:+ decimal (spc_wal_limit_bytes cfg) +:+ " is smaller than MFSPILL2 header")
    else
    touch !;
    let! d := eget in
    if spc_wal_limit_bytes cfg <? file_len d then ethrow (limit_error (file_len d) (spc_wal_limit_bytes cfg)) else
    (if file_len d =? 0 then write_all WAL_MAGIC !; touch else eret tt) !;
    let! scan := scan_spill_file (spc_wal_limit_bytes cfg) in
    touch !;
    let! d := eget in
    eret ((fun record_count =>
      mkSpillWalSink [] [] (spc_batch_capacity cfg) (spc_system_capacity cfg) (Some []) (spc_wal_limit_bytes cfg)
        (file_len d) 0 0 [] record_count MAGIC_LEN
        (if record_count =? 0 then MAGIC_LEN else file_len d)) <$> scan)).

(** ** I/O inside the sink *)

Definition note_io {A} (err : string) : Sp A :=
  emod (fun s => s ⟪ sp_pending := sp_pending s ++ [DiskPressure; EventsDropped 1 ("spill_wal io: " +:+ err)] ⟫) !;
  ethrow (SpillErr SinkFailEngine).

(** [m.map_err(|error| Self::note_io(&mut self.pending_system_events, error))?]. *)
Definition noted {A} (m : Eff D string A) : Sp A := fun s =>
  let '(r, d) := m (sp_disk s) in
  let s := s ⟪ sp_disk := d ⟫ in
  match r with Ok a => (Ok a, s) | Err e => note_io e s end.

Definition with_writer (m : Eff (BufWriter D) string unit) : Sp unit := fun s =>
  match sp_writer s with
  | None => (Err SpillPanic, s)
  | Some buf =>
      let '(r, w) := m (mkBufWriter (sp_disk s) buf) in
      let s := s ⟪ sp_disk := bw_inner w ⟫ ⟪ sp_writer := Some (bw_buf w) ⟫ in
      match r with Ok _ => (Ok tt, s) | Err e => note_io e s end
  end.

(** ** Spilling *)

Definition note_wal_exhausted (count : Z) : Sp unit :=
  emod (fun s => s ⟪ sp_pending := sp_pending s ++
    [DiskPressure; EventsDropped count ("spill_wal limit reached wal_bytes=" +:+ decimal (sp_wal_bytes s) +:+
                                        " limit=" +:+ decimal (sp_wal_limit_bytes s))] ⟫).

Definition spill_record (tag : Z) (body : list Z) : Sp unit :=
  let! body_len := elift (ok_or (to_ty U32 (Z.of_nat (length body))) (SpillErr (SinkIo "spill record exceeds u32::MAX"))) in
  let record_len := 1 + 4 + body_len in
  let! s := eget in
  if sp_wal_limit_bytes s <? saturating_add U64 (sp_wal_bytes s) record_len then
    note_wal_exhausted 1 !; ethrow (SpillErr SinkFailEngine)
  else
    with_writer (write_all [tag]) !;
    with_writer (write_all (to_le_bytes 4 body_len)) !;
    with_writer (write_all body) !;
    with_writer flush !;
    emod (fun s => s ⟪ sp_wal_bytes := saturating_add U64 (sp_wal_bytes s) record_len ⟫).

Definition spill_batch (batch : EventBatch) : Sp unit :=
  let! body := elift (map_err (fun e => SpillErr (SinkIo e)) (item_to_vec (SpillBatch batch))) in
  spill_record TAG_BATCH body !;
  emod (fun s => s ⟪ sp_spilled_batches := wrap U64 (sp_spilled_batches s + 1) ⟫).

Definition spill_system (event : SystemEvent) : Sp unit :=
  let! body := elift (map_err (fun e => SpillErr (SinkIo e)) (item_to_vec (SpillSystem event))) in
  spill_record TAG_SYSTEM body !;
  emod (fun s => s ⟪ sp_spilled_systems := wrap U64 (sp_spilled_systems s + 1) ⟫).

Definition sp_push_batch (batch : EventBatch) : Sp PushOutcome :=
  let! s := eget in
  if Z.of_nat (length (sp_batches s)) <? sp_batch_capacity s then
    eput (s ⟪ sp_batches := sp_batches s ++ [batch] ⟫) !; eret Accepted
  else spill_batch batch !; eret Accepted.

Definition sp_push_system (event : SystemEvent) : Sp PushOutcome :=
  let! s := eget in
  if Z.of_nat (length (sp_systems s)) <? sp_system_capacity s then
    eput (s ⟪ sp_systems := sp_systems s ++ [event] ⟫) !; eret Accepted
  else spill_system event !; eret Accepted.

Definition sp_pop_batch : Sp (option EventBatch) :=
  let! s := eget in
  eput (s ⟪ sp_batches := tail (sp_batches s) ⟫) !; eret (head (sp_batches s)).

Definition sp_pop_system : Sp (option SystemEvent) :=
  let! s := eget in
  eput (s ⟪ sp_systems := tail (sp_systems s) ⟫) !; eret (head (sp_systems s)).

Definition take_system_events : Sp (list SystemEvent) :=
  let! s := eget in
  eput (s ⟪ sp_pending := [] ⟫) !; eret (sp_pending s).

(** ** Recovery *)

(** [m.map_err(|error| SinkError::Io(error.to_string()))?]. *)
Definition io_err {A} (m : Eff D string A) : Sp A := fun s =>
  let '(r, d) := m (sp_disk s) in (map_err (fun e => SpillErr (SinkIo e)) r, s ⟪ sp_disk := d ⟫).

Definition pop_recovered : Sp (option SpillItem) :=
  let! s := eget in
  if sp_recovered_remaining s =? 0 then eret None else
  io_err touch !;
  io_err touch !;
  let! s := eget in
  let! p := elift (map_err (fun error => SpillErr (SinkIo ("read recovered spill record at offset " +:+
                                decimal (sp_recovery_next_offset s) +:+ ": " +:+ error)))
              (read_one_item (drop (Z.to_nat (sp_recovery_next_offset s)) (written (sp_disk s)))
                 (sp_wal_limit_bytes s))) in
  let '(item, record_len) := p in
  eput (s ⟪ sp_recovery_next_offset := saturating_add U64 (sp_recovery_next_offset s) record_len ⟫
          ⟪ sp_recovered_remaining := wrap U64 (sp_recovered_remaining s - 1) ⟫) !;
  eret (Some item).

(** The append handle is reopened on whichever file remains. *)
Definition checkpoint_recovery : Sp unit :=
  let! s := eget in
  if negb (sp_recovered_remaining s =? 0) then
    ethrow (SpillErr (SinkIo "cannot checkpoint spill WAL with unprocessed recovered records"))
  else if sp_recovery_prefix_bytes s =? MAGIC_LEN then eret tt
  else
    with_writer flush !;
    noted touch !;
    noted touch !;
    noted touch !;
    let! s := eget in
    let len := file_len (sp_disk s) in
    if len <? sp_recovery_prefix_bytes s then note_io "spill WAL shortened before recovery checkpoint" else
    noted touch !;
    let tail_len := len - sp_recovery_prefix_bytes s in
    let temp := WAL_MAGIC ++ drop (Z.to_nat (sp_recovery_prefix_bytes s)) (written (sp_disk s)) in
    noted (make_temp temp) !;
    emod (fun s => s ⟪ sp_writer := None ⟫) !;
    let! s := eget in
    let '(checkpoint_result, d) := (persist temp !; touch) (sp_disk s) in
    let '(reopen_result, d) := touch d in
    eput (s ⟪ sp_disk := d ⟫) !;
    match checkpoint_result, reopen_result with
    | Ok _, Ok _ =>
        emod (fun s => s ⟪ sp_writer := Some [] ⟫ ⟪ sp_wal_bytes := MAGIC_LEN + tail_len ⟫
                         ⟪ sp_recovery_prefix_bytes := MAGIC_LEN ⟫ ⟪ sp_recovery_next_offset := MAGIC_LEN ⟫)
    | Err checkpoint_error, Ok _ =>
        emod (fun s => s ⟪ sp_writer := Some [] ⟫) !; note_io checkpoint_error
    | Ok _, Err reopen_error => note_io reopen_error
    | Err checkpoint_error, Err reopen_error =>
        note_io ("spill WAL checkpoint failed: " +:+ checkpoint_error +:+ "; reopening WAL failed: " +:+ reopen_error)
    end.
End Spill.

(** ** Opening, running and reopening *)

Definition open_sink {D} `{WalDisk D} `{SpillJson} (cfg : SpillWalConfig) (d : D)
    : option (result (option (SpillWalSink D)) string * D) :=
  match spill_open cfg with
  | None => None
  | Some m => let '(r, d') := m d in
              Some (match r with Ok k => Ok ((fun f => f d') <$> k) | Err e => Err e end, d')
  end.

(** [n] calls of [pop_recovered]. *)
Fixpoint pop_all {D} `{WalDisk D} `{SpillJson} (n : nat) : Eff (SpillWalSink D) SpillFault (list (option SpillItem)) :=
  match n with
  | O => eret []
  | S n => let! i := pop_recovered in let! l := pop_all n in eret (i :: l)
  end.

Inductive spill_op :=
  | OpPushBatch (b : EventBatch) | OpPushSystem (e : SystemEvent) | OpPopBatch | OpPopSystem
  | OpTakeEvents | OpPopRecovered | OpCheckpoint.

Inductive spill_out :=
  | OutPushed | OutBatch (o : option EventBatch) | OutSystem (o : option SystemEvent)
  | OutRecovered (o : option SpillItem) | OutDone | OutFailed.

Definition spill_call {D} `{WalDisk D} `{SpillJson} (op : spill_op) : Eff (SpillWalSink D) SpillFault spill_out :=
  match op with
  | OpPushBatch b => sp_push_batch b !; eret OutPushed
  | OpPushSystem e => sp_push_system e !; eret OutPushed
  | OpPopBatch => let! o := sp_pop_batch in eret (OutBatch o)
  | OpPopSystem => let! o := sp_pop_system in eret (OutSystem o)
  | OpTakeEvents => take_system_events !; eret OutDone
  | OpPopRecovered => let! o := pop_recovered in eret (OutRecovered o)
  | OpCheckpoint => checkpoint_recovery !; eret OutDone
  end.

Definition spill_step {D} `{WalDisk D} `{SpillJson} (op : spill_op) (s : SpillWalSink D) : spill_out * SpillWalSink D :=
  let '(r, s') := spill_call op s in (match r with Ok o => o | Err _ => OutFailed end, s').

Fixpoint spill_run {D} `{WalDisk D} `{SpillJson} (ops : list spill_op) (s : SpillWalSink D)
    : list spill_out * SpillWalSink D :=
  match ops with
  | [] => ([], s)
  | op :: ops => let '(o, s) := spill_step op s in let '(os, s) := spill_run ops s in (o :: os, s)
  end.

(** ** The log as a list of records *)

(** A device on which nothing fails. *)
Class SteadyDisk (D : Type) `{WalDisk D} := {
  steady_reliable :: Reliable D;
  steady_touch : forall d, fst (touch d) = Ok tt;
  steady_set_len : forall n d, fst (set_len n d) = Ok tt;
  steady_make_temp : forall l d, fst (make_temp l d) = Ok tt;
  steady_persist : forall l d, fst (persist l d) = Ok tt
}.

Abbreviation entry := (SpillItem * list Z)%type.

Definition record (e : entry) : list Z := item_tag e.1 :: to_le_bytes 4 (Z.of_nat (length e.2)) ++ e.2.
Definition wal (l : list entry) : list Z := WAL_MAGIC ++ concat (record <$> l).

(** A record that the reader takes under this limit. *)
Definition entry_ok `{SpillJson} (limit : Z) (e : entry) : Prop :=
  item_to_vec e.1 = Ok e.2 /\ Z.of_nat (length e.2) <= Z.min (limit - (MAGIC_LEN + 5)) MAX_RECORD_BYTES.

(** Room for the end of a torn record in a [u64]. *)
Definition limit_ok (limit : Z) : Prop := MAGIC_LEN <= limit <= int_max U64 - MAX_RECORD_BYTES.

Section Records.
Context {D : Type} `{WalDisk D} `{!SteadyDisk D} `{SpillJsonLaws}.

Lemma touch_steady d : exists d', touch (D := D) d = (Ok tt, d') /\ written d' = written d.
Proof.
  pose proof (steady_touch d) as E. pose proof (touch_written d) as Hw. destruct (touch d) as [r d'].
  cbn in *. subst r. by exists d'.
Qed.

Lemma set_len_steady n d :
  exists d', set_len (D := D) n d = (Ok tt, d') /\ written d' = take (Z.to_nat n) (written d).
Proof.
  pose proof (steady_set_len n d) as E. pose proof (set_len_written n d) as Hw. destruct (set_len n d) as [r d'].
  cbn in *. subst r. by exists d'.
Qed.

Lemma make_temp_steady l d : exists d', make_temp (D := D) l d = (Ok tt, d') /\ written d' = written d.
Proof.
  pose proof (steady_make_temp l d) as E. pose proof (make_temp_written l d) as Hw. destruct (make_temp l d) as [r d'].
  cbn in *. subst r. by exists d'.
Qed.

Lemma persist_steady l d : exists d', persist (D := D) l d = (Ok tt, d') /\ written d' = l.
Proof.
  pose proof (steady_persist l d) as E. pose proof (persist_written l d) as Hw. destruct (persist l d) as [r d'].
  cbn in *. subst r. by exists d'.
Qed.

Lemma length_record e : Z.of_nat (length (record e)) = 5 + Z.of_nat (length e.2).
Proof. unfold record. cbn [length]. rewrite length_app, length_to_le_bytes. lia. Qed.

Lemma length_wal l : Z.of_nat (length (wal l)) = MAGIC_LEN + Z.of_nat (length (concat (record <$> l))).
Proof. unfold wal, MAGIC_LEN. rewrite length_app. lia. Qed.

(** Every record takes a byte. *)
Lemma count_le_bytes (l : list entry) : (length l <= length (concat (record <$> l)))%nat.
Proof.
  induction l as [|e l IH]; [done|]. rewrite fmap_cons. cbn [concat length]. rewrite length_app.
  pose proof (length_record e). lia.
Qed.

Lemma wal_app l1 l2 : wal (l1 ++ l2) = wal l1 ++ concat (record <$> l2).
Proof. unfold wal. by rewrite fmap_app, concat_app, app_assoc. Qed.

Lemma wal_snoc l e : wal (l ++ [e]) = wal l ++ record e.
Proof. rewrite wal_app. cbn. by rewrite app_nil_r. Qed.

Lemma entry_len limit e : limit_ok limit -> entry_ok limit e -> fits U32 (Z.of_nat (length e.2)).
Proof. intros Hl [_ He]. unfold MAX_RECORD_BYTES in He. unfold fits. cbn. lia. Qed.

Lemma entry_validates limit e :
  limit_ok limit -> entry_ok limit e -> validate_record_len (Z.of_nat (length e.2)) limit = Ok tt.
Proof.
  intros [Hlo Hhi] [_ He]. unfold validate_record_len, saturating_sub, saturate. cbv zeta.
  match goal with |- context [?a <? ?b] => destruct (Z.ltb_spec a b) as [Hlt|]; [|done] end.
  exfalso. assert (MAGIC_LEN = 9) by reflexivity. unfold MAX_RECORD_BYTES in *. cbn [int_min int_max] in *. lia.
Qed.

Lemma entry_decodes limit e : entry_ok limit e -> decode_item (item_tag e.1) e.2 = Ok e.1.
Proof.
  intros [He _]. unfold decode_item. rewrite (item_round_trip _ _ He). cbn. by rewrite Z.eqb_refl.
Qed.

Lemma read_one_record limit e rest :
  limit_ok limit -> entry_ok limit e -> read_one_item (record e ++ rest) limit = Ok (e.1, 5 + Z.of_nat (length e.2)).
Proof.
  intros Hl He. unfold read_one_item, record. rewrite <- app_comm_cons.
  change (item_tag e.1 :: (to_le_bytes 4 (Z.of_nat (length e.2)) ++ e.2) ++ rest)
    with ([item_tag e.1] ++ (to_le_bytes 4 (Z.of_nat (length e.2)) ++ e.2) ++ rest).
  rewrite read_exact_app by done. cbn [eof ok_or rbind hd]. rewrite <- app_assoc, read_exact_app by apply length_to_le_bytes.
  cbn [eof ok_or rbind]. rewrite le_u32 by (by eapply entry_len). rewrite (entry_validates _ _ Hl He). cbn [rbind].
  rewrite Nat2Z.id, read_exact_app by done. cbn [eof ok_or rbind]. by rewrite (entry_decodes _ _ He).
Qed.

(** ** Scanning *)

(** A torn record: the beginning of a record that did not reach the disk as a
    whole. *)
Definition torn (limit : Z) (t : list Z) : Prop :=
  exists e q, entry_ok limit e /\ record e = t ++ q /\ q <> [].

Lemma torn_nil limit e : entry_ok limit e -> torn limit [].
Proof. intros He. by exists e, (record e). Qed.

(** One whole record. *)
Lemma scan_loop_step fuel limit e rest start count (d : D) :
  limit_ok limit -> entry_ok limit e -> 0 <= start -> start + 5 + Z.of_nat (length e.2) <= file_len d ->
  file_len d <= limit -> 0 <= count < int_max U64 ->
  scan_loop (S fuel) (file_len d) limit (record e ++ rest) start count d =
  scan_loop fuel (file_len d) limit rest (start + 5 + Z.of_nat (length e.2)) (count + 1) d.
Proof.
  intros Hlim He Hst Hend Hlen Hc. unfold record. rewrite <- app_comm_cons. cbn [scan_loop].
  rewrite <- app_assoc, read_exact_app by apply length_to_le_bytes. rewrite le_u32 by (by eapply entry_len).
  rewrite ebind_elift, (entry_validates _ _ Hlim He). cbv beta iota zeta.
  pose proof Hlim as [Hlo Hhi]. unfold MAX_RECORD_BYTES in Hhi.
  rewrite ebind_elift. unfold checked_add at 1 2. rewrite to_ty_fits by (unfold fits; cbn in *; lia). cbn [mbind option_bind].
  rewrite to_ty_fits by (unfold fits; cbn in *; lia). cbn [ok_or].
  rewrite (proj2 (Z.ltb_ge _ _)) by lia. rewrite Nat2Z.id, read_exact_app by done.
  rewrite ebind_elift. cbn [eof ok_or]. rewrite ebind_elift, (entry_decodes _ _ He). cbn [map_err].
  rewrite ebind_elift. unfold checked_add. rewrite to_ty_fits by (unfold fits; cbn in *; lia). done.
Qed.

(** [scan_loop] finds the whole records, and cuts a torn one off. *)
Lemma scan_loop_spec fuel limit l t pre count d :
  limit_ok limit -> Forall (entry_ok limit) l -> torn limit t \/ t = [] ->
  written d = pre ++ concat (record <$> l) ++ t ->
  (length (concat (record <$> l) ++ t) < fuel)%nat -> file_len d <= limit -> 0 <= count ->
  count + Z.of_nat (length l) <= int_max U64 ->
  exists d', scan_loop fuel (file_len d) limit (concat (record <$> l) ++ t) (Z.of_nat (length pre)) count d
             = (Ok (Some (count + Z.of_nat (length l))), d') /\
    written d' = pre ++ concat (record <$> l).
Proof.
  intros Hlim Hl Ht. revert fuel pre count d.
  induction Hl as [|e l He Hl IH]; intros fuel pre count d Hw Hf Hlen Hc Hcl.
  - cbn [fmap list_fmap concat app] in *. destruct fuel as [|fuel]; [lia|]. rewrite Z.add_0_r, app_nil_r in *.
    destruct t as [|tag t]; cbn [scan_loop]; [exists d; by rewrite Hw, app_nil_r|].
    assert (exists d', cut_at (Z.of_nat (length pre)) count d = (Ok (Some count), d') /\ written d' = pre) as Hcut.
    { unfold cut_at. destruct (set_len_steady (Z.of_nat (length pre)) d) as (d1 & E1 & W1).
      rewrite (ebind_run _ _ _ _ _ E1). destruct (touch_steady d1) as (d2 & E2 & W2). rewrite (ebind_run _ _ _ _ _ E2).
      exists d2. split; [done|]. by rewrite W2, W1, Hw, Nat2Z.id, take_app_length. }
    destruct Ht as [(e & q & He & Eq & Hq)|]; [|done]. 
    assert (hd 0 (record e) = tag /\ tail (record e) = t ++ q) as [<- Eq'] by (by rewrite Eq).
    clear Eq. rename Eq' into Eq. change (tail (record e)) with (to_le_bytes 4 (Z.of_nat (length e.2)) ++ e.2) in Eq.
    destruct (Nat.ltb_spec (length t) 4) as [Hs|Hs]; [by rewrite read_exact_short|].
    assert (exists b, t = to_le_bytes 4 (Z.of_nat (length e.2)) ++ b /\ e.2 = b ++ q) as (b & -> & Hb).
    { exists (drop 4 t). rewrite <- (take_drop 4 t) in Eq at 1. rewrite <- app_assoc in Eq.
      apply app_inj_1 in Eq as [-> ->]; [by rewrite take_drop|]. rewrite length_to_le_bytes, length_take. lia. }
    rewrite read_exact_app by apply length_to_le_bytes. rewrite le_u32 by (by eapply entry_len).
    rewrite ebind_elift, (entry_validates _ _ Hlim He). cbv beta iota zeta.
    assert (file_len d = Z.of_nat (length pre) + 5 + Z.of_nat (length b)) as Hfl.
    { unfold file_len. rewrite Hw, !length_app. cbn [length]. rewrite length_app, length_to_le_bytes. lia. }
    destruct Hlim as [Hlo Hhi]. destruct He as [_ He]. unfold MAX_RECORD_BYTES in *.
    rewrite ebind_elift. unfold checked_add. rewrite to_ty_fits by (unfold fits; cbn in *; lia). cbn [mbind option_bind].
    assert (length e.2 = length b + length q)%nat as Hlen2 by (by rewrite Hb, length_app).
    rewrite to_ty_fits by (unfold fits; cbn in *; lia). cbn [ok_or].
    rewrite (proj2 (Z.ltb_lt _ _)); [done|]. destruct q; [done|]. cbn [length] in *. lia.
  - rewrite fmap_cons in *. cbn [concat] in *. rewrite <- app_assoc in *. set (rest := concat (record <$> l) ++ t) in *.
    destruct fuel as [|fuel]; [lia|]. pose proof (length_record e) as Hr. cbn [length] in Hcl.
    assert (Z.of_nat (length pre) + 5 + Z.of_nat (length e.2) <= file_len d).
    { unfold file_len. rewrite Hw, !length_app. lia. }
    rewrite scan_loop_step by (done || lia).
    replace (Z.of_nat (length pre) + 5 + Z.of_nat (length e.2)) with (Z.of_nat (length (pre ++ record e))) by (rewrite length_app; lia).
    destruct (IH fuel (pre ++ record e) (count + 1) d) as (d' & E & W').
    + by rewrite Hw, <- app_assoc.
    + rewrite length_app in Hf. lia.
    + done.
    + lia.
    + lia.
    + exists d'. rewrite E. split; [do 3 f_equal; cbn [length]; lia|]. by rewrite W', <- app_assoc.
Qed.

(** ** Opening *)

Definition cfg_ok (cfg : SpillWalConfig) : Prop :=
  0 < spc_batch_capacity cfg /\ 0 < spc_system_capacity cfg /\ limit_ok (spc_wal_limit_bytes cfg).

(** The sink that opening a log of [l] gives. *)
Definition fresh_sink (cfg : SpillWalConfig) (l : list entry) (d : D) : SpillWalSink D :=
  mkSpillWalSink [] [] (spc_batch_capacity cfg) (spc_system_capacity cfg) (Some []) (spc_wal_limit_bytes cfg)
    (file_len d) 0 0 [] (Z.of_nat (length l)) MAGIC_LEN (Z.of_nat (length (wal l))) d.

Lemma scan_ok limit l t d :
  limit_ok limit -> Forall (entry_ok limit) l -> torn limit t \/ t = [] ->
  written d = wal l ++ t -> file_len d <= limit ->
  exists d', scan_spill_file limit d = (Ok (Some (Z.of_nat (length l))), d') /\ written d' = wal l.
Proof.
  intros Hlim Hl Ht Hw Hlen. unfold scan_spill_file. destruct (touch_steady d) as (d1 & E1 & W1).
  rewrite (ebind_run _ _ _ _ _ E1). unfold ebind at 1, eget at 1.
  assert (file_len d1 = file_len d) as Hf by (unfold file_len; by rewrite W1).
  rewrite Hf, (proj2 (Z.ltb_ge _ _)) by done.
  rewrite ebind_elift. unfold read_magic. rewrite W1, Hw. unfold wal at 1. rewrite <- app_assoc, read_exact_app by done.
  rewrite bool_decide_eq_true_2 by done. cbn [negb].
  assert (Z.of_nat (length l) <= int_max U64) as Hn.
  { pose proof (count_le_bytes l).
    assert (Z.of_nat (length (concat (record <$> l))) <= file_len d)
      by (unfold file_len, wal in *; rewrite Hw, !length_app; lia).
    destruct Hlim as [_ Hhi]. unfold MAX_RECORD_BYTES in Hhi. lia. }
  destruct (scan_loop_spec (S (length (concat (record <$> l) ++ t))) limit l t WAL_MAGIC 0 d1) as (d2 & E2 & W2);
    [done..| | | | |lia|].
  - by rewrite W1, Hw; unfold wal; rewrite <- app_assoc.
  - lia.
  - by rewrite Hf.
  - lia.
  - rewrite Hf in E2. by exists d2.
Qed.

(** Opening recovers exactly the whole records, whatever is torn off. *)
Lemma open_ok cfg l t d :
  cfg_ok cfg -> Forall (entry_ok (spc_wal_limit_bytes cfg)) l -> torn (spc_wal_limit_bytes cfg) t \/ t = [] ->
  written d = wal l ++ t -> file_len d <= spc_wal_limit_bytes cfg ->
  exists d', open_sink cfg d = Some (Ok (Some (fresh_sink cfg l d')), d') /\ written d' = wal l.
Proof.
  intros (Hb & Hs & Hlim) Hl Ht Hw Hlen. unfold open_sink, spill_open.
  rewrite !(proj2 (Z.leb_gt _ _)) by (try done; destruct Hlim; assert (MAGIC_LEN = 9) by reflexivity; lia). cbn [orb].
  destruct (touch_steady d) as (d1 & E1 & W1). rewrite (ebind_run _ _ _ _ _ E1).
  rewrite (proj2 (Z.ltb_ge _ _)) by apply Hlim.
  destruct (touch_steady d1) as (d2 & E2 & W2). rewrite (ebind_run _ _ _ _ _ E2). unfold ebind at 1, eget at 1.
  assert (file_len d2 = file_len d) as Hf by (unfold file_len; by rewrite W2, W1).
  rewrite Hf, (proj2 (Z.ltb_ge _ _)) by done.
  assert ((file_len d =? 0) = false) as ->.
  { apply Z.eqb_neq. unfold file_len. rewrite Hw, length_app. pose proof (length_wal l).
    assert (MAGIC_LEN = 9) by reflexivity. lia. }
  rewrite (ebind_run (eret tt) _ d2 tt d2) by done.
  destruct (scan_ok (spc_wal_limit_bytes cfg) l t d2) as (d3 & E3 & W3); [done..|by rewrite W2, W1|by rewrite Hf|].
  rewrite (ebind_run _ _ _ _ _ E3). destruct (touch_steady d3) as (d4 & E4 & W4). rewrite (ebind_run _ _ _ _ _ E4).
  unfold ebind, eget, eret. cbn [fmap option_fmap option_map]. exists d4. rewrite W4. split; [|done].
  repeat f_equal. unfold fresh_sink. f_equal. unfold file_len. rewrite W4, W3.
  destruct (Z.eqb_spec (Z.of_nat (length l)) 0) as [Hz|]; [|done]. destruct l; [|cbn in Hz; lia].
  rewrite length_wal. cbn. lia.
Qed.

(** A new file gets its header. *)
Lemma open_new cfg d :
  cfg_ok cfg -> written d = [] ->
  exists d', open_sink cfg d = Some (Ok (Some (fresh_sink cfg [] d')), d') /\ written d' = wal [].
Proof.
  intros (Hb & Hs & Hlim) Hw. unfold open_sink, spill_open.
  assert (MAGIC_LEN = 9) as H9 by reflexivity. pose proof Hlim as [Hlo Hhi].
  rewrite !(proj2 (Z.leb_gt _ _)) by lia. cbn [orb].
  destruct (touch_steady d) as (d1 & E1 & W1). rewrite (ebind_run _ _ _ _ _ E1).
  rewrite (proj2 (Z.ltb_ge _ _)) by done.
  destruct (touch_steady d1) as (d2 & E2 & W2). rewrite (ebind_run _ _ _ _ _ E2). unfold ebind at 1, eget at 1.
  assert (file_len d2 = 0) as Hf by (unfold file_len; by rewrite W2, W1, Hw).
  rewrite Hf, (proj2 (Z.ltb_ge _ _)) by lia. cbn [Z.eqb].
  destruct (reliable_write WAL_MAGIC d2) as (d3 & E3 & W3). destruct (touch_steady d3) as (d4 & E4 & W4).
  rewrite (ebind_run _ _ d2 tt d4) by (by rewrite (ebind_run _ _ _ _ _ E3)).
  assert (written d4 = wal []) as Hw4 by (by rewrite W4, W3, W2, W1, Hw).
  destruct (scan_ok (spc_wal_limit_bytes cfg) [] [] d4) as (d5 & E5 & W5);
    [done|constructor|by right|by rewrite app_nil_r|unfold file_len; rewrite Hw4, length_wal; cbn; lia|].
  rewrite (ebind_run _ _ _ _ _ E5). destruct (touch_steady d5) as (d6 & E6 & W6). rewrite (ebind_run _ _ _ _ _ E6).
  unfold ebind, eget, eret. cbn [fmap option_fmap option_map]. exists d6. rewrite W6. done.
Qed.

(** ** The abstract log *)

(** What the sink promises: two bounded queues, and a log of the records that
    were recovered and processed, that are recovered and still to process, and
    that were spilled since. *)
Record Abs := mkAbs {
  a_batches : list EventBatch;
  a_systems : list SystemEvent;
  a_seen : list SpillItem;
  a_old : list SpillItem;
  a_new : list SpillItem
}.

Definition a_items (a : Abs) : list SpillItem := a_seen a ++ a_old a ++ a_new a.

Definition entry_of (i : SpillItem) : entry := (i, match item_to_vec i with Ok b => b | Err _ => [] end).
Definition entries : list SpillItem -> list entry := fmap entry_of.

(** An item is spilled when its record fits under the limit. *)
Definition spec_spill (limit : Z) (i : SpillItem) (a : Abs) : spill_out * Abs :=
  match item_to_vec i with
  | Err _ => (OutFailed, a)
  | Ok b =>
      if limit <? Z.of_nat (length (wal (entries (a_items a)))) + (5 + Z.of_nat (length b)) then (OutFailed, a)
      else (OutPushed, mkAbs (a_batches a) (a_systems a) (a_seen a) (a_old a) (a_new a ++ [i]))
  end.

Definition spec_step (cfg : SpillWalConfig) (op : spill_op) (a : Abs) : spill_out * Abs :=
  match op with
  | OpPushBatch b =>
      if Z.of_nat (length (a_batches a)) <? spc_batch_capacity cfg then
        (OutPushed, mkAbs (a_batches a ++ [b]) (a_systems a) (a_seen a) (a_old a) (a_new a))
      else spec_spill (spc_wal_limit_bytes cfg) (SpillBatch b) a
  | OpPushSystem e =>
      if Z.of_nat (length (a_systems a)) <? spc_system_capacity cfg then
        (OutPushed, mkAbs (a_batches a) (a_systems a ++ [e]) (a_seen a) (a_old a) (a_new a))
      else spec_spill (spc_wal_limit_bytes cfg) (SpillSystem e) a
  | OpPopBatch => (OutBatch (head (a_batches a)), mkAbs (tail (a_batches a)) (a_systems a) (a_seen a) (a_old a) (a_new a))
  | OpPopSystem => (OutSystem (head (a_systems a)), mkAbs (a_batches a) (tail (a_systems a)) (a_seen a) (a_old a) (a_new a))
  | OpTakeEvents => (OutDone, a)
  | OpPopRecovered =>
      match a_old a with
      | [] => (OutRecovered None, a)
      | i :: old => (OutRecovered (Some i), mkAbs (a_batches a) (a_systems a) (a_seen a ++ [i]) old (a_new a))
      end
  | OpCheckpoint =>
      match a_old a with
      | [] => (OutDone, mkAbs (a_batches a) (a_systems a) [] [] (a_new a))
      | _ => (OutFailed, a)
      end
  end.

Fixpoint spec_run (cfg : SpillWalConfig) (ops : list spill_op) (a : Abs) : list spill_out * Abs :=
  match ops with
  | [] => ([], a)
  | op :: ops => let '(o, a) := spec_step cfg op a in let '(os, a) := spec_run cfg ops a in (o :: os, a)
  end.

Record rel (cfg : SpillWalConfig) (s : SpillWalSink D) (a : Abs) : Prop := {
  rl_batches : sp_batches s = a_batches a;
  rl_systems : sp_systems s = a_systems a;
  rl_batch_capacity : sp_batch_capacity s = spc_batch_capacity cfg;
  rl_system_capacity : sp_system_capacity s = spc_system_capacity cfg;
  rl_limit : sp_wal_limit_bytes s = spc_wal_limit_bytes cfg;
  rl_writer : sp_writer s = Some [];
  rl_file : written (sp_disk s) = wal (entries (a_items a));
  rl_bytes : sp_wal_bytes s = file_len (sp_disk s);
  rl_bound : file_len (sp_disk s) <= spc_wal_limit_bytes cfg;
  rl_ok : Forall (entry_ok (spc_wal_limit_bytes cfg)) (entries (a_items a));
  rl_remaining : sp_recovered_remaining s = Z.of_nat (length (a_old a));
  rl_next : sp_recovery_next_offset s = Z.of_nat (length (wal (entries (a_seen a))));
  rl_prefix : sp_recovery_prefix_bytes s = Z.of_nat (length (wal (entries (a_seen a ++ a_old a))))
}.

(** ** Writing through the handle *)

Lemma writer_write l s buf :
  sp_writer s = Some buf ->
  exists d' buf', with_writer (write_all l) s = (Ok tt, s ⟪ sp_disk := d' ⟫ ⟪ sp_writer := Some buf' ⟫) /\
    written d' ++ buf' = written (sp_disk s) ++ buf ++ l.
Proof.
  intros Hb. unfold with_writer. rewrite Hb.
  destruct (reliable_write l (mkBufWriter (sp_disk s) buf)) as (w & E & W).
  change (buf_write_all l (mkBufWriter (sp_disk s) buf) = (Ok tt, w)) in E.
  change (buf_written w = buf_written (mkBufWriter (sp_disk s) buf) ++ l) in W.
  change (write_all l (mkBufWriter (sp_disk s) buf)) with (buf_write_all l (mkBufWriter (sp_disk s) buf)). rewrite E.
  exists (bw_inner w), (bw_buf w). split; [done|]. unfold buf_written in W. cbn in W. by rewrite W, <- app_assoc.
Qed.

Lemma writer_flush s buf :
  sp_writer s = Some buf ->
  exists d', with_writer flush s = (Ok tt, s ⟪ sp_disk := d' ⟫ ⟪ sp_writer := Some [] ⟫) /\
    written d' = written (sp_disk s) ++ buf.
Proof.
  intros Hb. unfold with_writer. rewrite Hb.
  change (flush (mkBufWriter (sp_disk s) buf)) with (buf_flush (mkBufWriter (sp_disk s) buf)).
  pose proof (flush_ok (mkBufWriter (sp_disk s) buf)) as Hok. pose proof (flush_written (mkBufWriter (sp_disk s) buf)) as Hw.
  change (fst (buf_flush (mkBufWriter (sp_disk s) buf)) = Ok tt) in Hok.
  change (buf_written (snd (buf_flush (mkBufWriter (sp_disk s) buf))) = written (sp_disk s) ++ buf) in Hw.
  pose proof (buf_flush_empty _ Hok) as He. destruct (buf_flush (mkBufWriter (sp_disk s) buf)) as [r w]. cbn in Hok, He. subst r.
  exists (bw_inner w). rewrite He. split; [done|]. unfold buf_written in Hw. cbn in Hw. by rewrite He, app_nil_r in Hw.
Qed.

(** A record that fits is appended whole. *)
Lemma spill_record_ok s tag body :
  sp_writer s = Some [] -> sp_wal_bytes s = file_len (sp_disk s) -> sp_wal_limit_bytes s <= int_max U64 - MAX_RECORD_BYTES ->
  file_len (sp_disk s) + (5 + Z.of_nat (length body)) <= sp_wal_limit_bytes s -> fits U32 (Z.of_nat (length body)) ->
  exists d', spill_record tag body s =
    (Ok tt, s ⟪ sp_disk := d' ⟫ ⟪ sp_wal_bytes := file_len d' ⟫) /\
    written d' = written (sp_disk s) ++ tag :: to_le_bytes 4 (Z.of_nat (length body)) ++ body.
Proof.
  intros Hwr Hby Hmax Hfit Hf. unfold spill_record. rewrite ebind_elift, to_ty_fits by done. cbn [ok_or].
  unfold ebind at 1, eget at 1. rewrite Hby.
  assert (0 <= file_len (sp_disk s)) as Hnn by (unfold file_len; lia).
  replace (1 + 4 + Z.of_nat (length body)) with (5 + Z.of_nat (length body)) by lia.
  assert (saturating_add U64 (file_len (sp_disk s)) (5 + Z.of_nat (length body)) =
          file_len (sp_disk s) + (5 + Z.of_nat (length body))) as Hsat.
  { apply saturate_id. unfold MAX_RECORD_BYTES in Hmax. unfold fits. cbn [int_min int_max] in *. lia. }
  rewrite Hsat, (proj2 (Z.ltb_ge _ _)) by done.
  destruct (writer_write [tag] s [] Hwr) as (d1 & b1 & E1 & W1). rewrite (ebind_run _ _ _ _ _ E1).
  set (s1 := s ⟪ sp_disk := d1 ⟫ ⟪ sp_writer := Some b1 ⟫).
  destruct (writer_write (to_le_bytes 4 (Z.of_nat (length body))) s1 b1 eq_refl) as (d2 & b2 & E2 & W2).
  rewrite (ebind_run _ _ _ _ _ E2). set (s2 := s1 ⟪ sp_disk := d2 ⟫ ⟪ sp_writer := Some b2 ⟫).
  destruct (writer_write body s2 b2 eq_refl) as (d3 & b3 & E3 & W3).
  rewrite (ebind_run _ _ _ _ _ E3). set (s3 := s2 ⟪ sp_disk := d3 ⟫ ⟪ sp_writer := Some b3 ⟫).
  destruct (writer_flush s3 b3 eq_refl) as (d4 & E4 & W4). rewrite (ebind_run _ _ _ _ _ E4).
  change (sp_disk s1) with d1 in W2. change (sp_disk s2) with d2 in W3. change (sp_disk s3) with d3 in W4.
  assert (written d4 = written (sp_disk s) ++ tag :: to_le_bytes 4 (Z.of_nat (length body)) ++ body) as W.
  { rewrite W4, W3, app_assoc, W2, app_assoc, W1. cbn [app]. by rewrite <- !app_assoc. }
  exists d4. split; [|done]. unfold emod. cbn. rewrite Hwr, Hby, Hsat. do 3 f_equal.
  unfold file_len. rewrite W, length_app. cbn [length]. rewrite length_app, length_to_le_bytes. lia.
Qed.

(** ** The sink implements the abstract log *)

Section Refinement.
Context (cfg : SpillWalConfig).
(** Under this limit every record that fits the file is one that the reader
    takes. *)
Hypothesis Hcfg : cfg_ok cfg.
Hypothesis Hsmall : spc_wal_limit_bytes cfg <= MAX_RECORD_BYTES + MAGIC_LEN + 5.

Lemma rel_pending s a evs : rel cfg s a -> rel cfg (s ⟪ sp_pending := evs ⟫) a.
Proof. by intros []. Qed.
Lemma rel_counts s a n m : rel cfg s a -> rel cfg (s ⟪ sp_spilled_batches := n ⟫ ⟪ sp_spilled_systems := m ⟫) a.
Proof. by intros []. Qed.

Lemma entries_app l1 l2 : entries (l1 ++ l2) = entries l1 ++ entries l2.
Proof. apply fmap_app. Qed.

Lemma wal_entries_snoc l i : wal (entries (l ++ [i])) = wal (entries l) ++ record (entry_of i).
Proof. rewrite entries_app. apply wal_snoc. Qed.

Lemma file_len_rel s a : rel cfg s a -> file_len (sp_disk s) = Z.of_nat (length (wal (entries (a_items a)))).
Proof. intros Hr. unfold file_len. by rewrite (rl_file _ _ _ Hr). Qed.

Lemma spill_record_refines s a i b :
  rel cfg s a -> item_to_vec i = Ok b ->
  exists r s', spill_record (item_tag i) b s = (r, s') /\
    if spc_wal_limit_bytes cfg <? Z.of_nat (length (wal (entries (a_items a)))) + (5 + Z.of_nat (length b))
    then rel cfg s' a /\ is_ok r = false
    else r = Ok tt /\ rel cfg s' (mkAbs (a_batches a) (a_systems a) (a_seen a) (a_old a) (a_new a ++ [i])).
Proof.
  intros Hr Hv. pose proof (file_len_rel _ _ Hr) as Hlen. pose proof Hcfg as (_ & _ & Hlo & Hhi).
  assert (MAGIC_LEN = 9) as H9 by reflexivity. pose proof (length_wal (entries (a_items a))) as Hwl.
  destruct (Z.ltb_spec (spc_wal_limit_bytes cfg) (Z.of_nat (length (wal (entries (a_items a)))) + (5 + Z.of_nat (length b)))) as [Hlt|Hge].
  - unfold spill_record. rewrite ebind_elift. destruct (to_ty U32 _) as [n|] eqn:En; cbn [ok_or]; [|by eexists _, s].
    apply to_ty_Some in En as [-> Hf]. unfold ebind at 1, eget at 1.
    rewrite (rl_limit _ _ _ Hr), (rl_bytes _ _ _ Hr), Hlen, (proj2 (Z.ltb_lt _ _)).
    + eexists _, _. split; [reflexivity|]. by split; [apply rel_pending|].
    + unfold saturating_add, saturate. unfold MAX_RECORD_BYTES in *. cbn [int_min int_max] in *. lia.
  - unfold MAX_RECORD_BYTES in *.
    destruct (spill_record_ok s (item_tag i) b) as (d' & E & W).
    + apply Hr.
    + apply Hr.
    + rewrite (rl_limit _ _ _ Hr). unfold MAX_RECORD_BYTES. lia.
    + rewrite Hlen, (rl_limit _ _ _ Hr). lia.
    + unfold fits. cbn [int_min int_max]. lia.
    + eexists _, _. split; [exact E|]. split; [done|]. destruct Hr.
      assert (a_items (mkAbs (a_batches a) (a_systems a) (a_seen a) (a_old a) (a_new a ++ [i])) = a_items a ++ [i]) as Hit
        by (unfold a_items; cbn; by rewrite <- !app_assoc).
      assert (written d' = wal (entries (a_items a ++ [i]))) as Hw.
      { rewrite W, rl_file0, wal_entries_snoc. unfold record, entry_of. by rewrite Hv. }
      split; try done; rewrite ?Hit; cbn [sp_disk set_field sp_wal_bytes].
      * done.
      * unfold file_len. rewrite Hw, wal_entries_snoc, length_app.
        assert (Z.of_nat (length (record (entry_of i))) = 5 + Z.of_nat (length b)) by
          (rewrite length_record; unfold entry_of; by rewrite Hv). lia.
      * rewrite entries_app. apply Forall_app. split; [done|]. apply Forall_singleton. unfold entry_of. rewrite Hv.
        split; [done|]. cbn [snd]. unfold MAX_RECORD_BYTES. lia.
Qed.

Lemma spill_item_refines s a i (m : Eff (SpillWalSink D) SpillFault unit) (bump : SpillWalSink D -> SpillWalSink D) :
  m = (let! body := elift (map_err (fun e => SpillErr (SinkIo e)) (item_to_vec i)) in
       spill_record (item_tag i) body !; emod bump) ->
  (forall s a, rel cfg s a -> rel cfg (bump s) a) -> rel cfg s a ->
  exists s' a', spec_spill (spc_wal_limit_bytes cfg) i a =
    (match fst (m s) with Ok _ => OutPushed | Err _ => OutFailed end, a') /\ snd (m s) = s' /\ rel cfg s' a'.
Proof.
  intros -> Hb Hr. unfold spec_spill. rewrite ebind_elift. destruct (item_to_vec i) as [b|e] eqn:Hv; cbn [map_err]; [|by exists s, a].
  destruct (spill_record_refines s a i b Hr Hv) as (r & s1 & E & Hc). unfold ebind. rewrite E.
  destruct (_ <? _).
  - destruct Hc as [Hc Hf]. destruct r; [done|]. by exists s1, a.
  - destruct Hc as [-> Hc]. eexists _, _. split; [reflexivity|]. split; [reflexivity|]. by apply Hb.
Qed.

Lemma drop_wal l1 l2 : drop (length (wal l1)) (wal (l1 ++ l2)) = concat (record <$> l2).
Proof. by rewrite wal_app, drop_app_length. Qed.

Lemma io_touch s : exists d', io_err touch s = (Ok tt, s ⟪ sp_disk := d' ⟫) /\ written d' = written (sp_disk s).
Proof.
  destruct (touch_steady (sp_disk s)) as (d' & E & W). exists d'. unfold io_err. rewrite E. done.
Qed.
Lemma noted_touch s : exists d', noted touch s = (Ok tt, s ⟪ sp_disk := d' ⟫) /\ written d' = written (sp_disk s).
Proof.
  destruct (touch_steady (sp_disk s)) as (d' & E & W). exists d'. unfold noted. rewrite E. done.
Qed.

Lemma pop_recovered_refines s a :
  rel cfg s a ->
  exists s', pop_recovered s = (Ok (head (a_old a)), s') /\
    rel cfg s' (match a_old a with [] => a | i :: old => mkAbs (a_batches a) (a_systems a) (a_seen a ++ [i]) old (a_new a) end).
Proof.
  intros Hr. unfold pop_recovered. unfold ebind at 1, eget at 1. rewrite (rl_remaining _ _ _ Hr).
  destruct (a_old a) as [|i old] eqn:Ho; [by exists s|]. cbn [length].
  rewrite (proj2 (Z.eqb_neq _ _)) by lia.
  destruct (io_touch s) as (d1 & E1 & W1). rewrite (ebind_run _ _ _ _ _ E1).
  destruct (io_touch (s ⟪ sp_disk := d1 ⟫)) as (d2 & E2 & W2). rewrite (ebind_run _ _ _ _ _ E2).
  cbn [sp_disk set_field] in W2. unfold ebind at 1, eget at 1. rewrite ebind_elift.
  destruct Hr. cbn [sp_disk set_field sp_recovery_next_offset sp_wal_limit_bytes].
  rewrite rl_next0, Nat2Z.id, W2, W1, rl_file0, rl_limit0. unfold a_items in *. rewrite Ho in *.
  rewrite entries_app, drop_wal. cbn [app] in *.
  change (entries (i :: old ++ a_new a)) with (entry_of i :: entries (old ++ a_new a)). rewrite fmap_cons. cbn [concat].
  assert (entry_ok (spc_wal_limit_bytes cfg) (entry_of i)) as Hi.
  { rewrite entries_app in rl_ok0. apply Forall_app in rl_ok0 as [_ Hx]. by apply Forall_cons in Hx as [Hx _]. }
  rewrite read_one_record by (try done; apply Hcfg). cbn [map_err].
  eexists. split; [reflexivity|]. cbn [fst entry_of].
  assert (a_seen a ++ i :: old ++ a_new a = (a_seen a ++ [i]) ++ old ++ a_new a) as Happ by (by rewrite <- app_assoc).
  assert (a_seen a ++ i :: old = (a_seen a ++ [i]) ++ old) as Happ2 by (by rewrite <- app_assoc).
  assert (Z.of_nat (length (wal (entries (a_seen a ++ [i])))) =
          Z.of_nat (length (wal (entries (a_seen a)))) + (5 + Z.of_nat (length (entry_of i).2))) as Hnext.
  { rewrite wal_entries_snoc, length_app. pose proof (length_record (entry_of i)). lia. }
  assert (Z.of_nat (length (wal (entries (a_seen a ++ [i])))) <= int_max U64 - MAX_RECORD_BYTES) as Hbd.
  { destruct Hcfg as (_ & _ & _ & Hhi). unfold file_len in rl_bound0. rewrite rl_file0, Happ, entries_app, wal_app, length_app in rl_bound0. lia. }
  unfold MAX_RECORD_BYTES in Hbd.
  split; try done; cbn [sp_disk set_field sp_wal_bytes sp_recovered_remaining sp_recovery_next_offset sp_recovery_prefix_bytes a_items a_seen a_old a_new].
  - unfold a_items. cbn [a_seen a_old a_new]. by rewrite W2, W1, rl_file0, Happ.
  - unfold file_len in *. by rewrite W2, W1.
  - unfold file_len in *. by rewrite W2, W1.
  - unfold a_items. cbn [a_seen a_old a_new]. by rewrite <- Happ.
  - rewrite rl_remaining0. cbn [length]. rewrite wrap_fits; [lia|].
    assert (Z.of_nat (length old) <= Z.of_nat (length (wal (entries (a_seen a ++ i :: old ++ a_new a))))) as Hle.
    { rewrite Happ, !entries_app, wal_app, fmap_app, concat_app, !length_app.
      pose proof (count_le_bytes (entries old)) as Hc. unfold entries in Hc at 1. rewrite length_fmap in Hc. lia. }
    unfold file_len in rl_bound0. rewrite rl_file0 in rl_bound0. destruct Hcfg as (_ & _ & _ & Hhi).
    unfold MAX_RECORD_BYTES in Hhi. unfold fits. cbn [int_min int_max] in *. lia.
  - rewrite Hnext. apply saturate_id. rewrite <- Hnext. unfold fits. cbn [int_min int_max] in *. lia.
  - by rewrite rl_prefix0, Happ2.
Qed.

Lemma checkpoint_refines s a :
  rel cfg s a ->
  exists r s', checkpoint_recovery s = (r, s') /\
    match a_old a with
    | [] => r = Ok tt /\ rel cfg s' (mkAbs (a_batches a) (a_systems a) [] [] (a_new a))
    | _ => is_ok r = false /\ rel cfg s' a
    end.
Proof.
  intros Hr. unfold checkpoint_recovery. unfold ebind at 1, eget at 1. rewrite (rl_remaining _ _ _ Hr).
  destruct (a_old a) as [|i old] eqn:Ho; [|cbn [length]; rewrite (proj2 (Z.eqb_neq _ _)) by lia; by eexists _, s].
  change (negb (Z.of_nat (length (@nil SpillItem)) =? 0)) with false. cbv iota. rewrite (rl_prefix _ _ _ Hr), Ho, app_nil_r.
  destruct (Z.eqb_spec (Z.of_nat (length (wal (entries (a_seen a))))) MAGIC_LEN) as [Hz|Hz].
  { exists (Ok tt), s. split; [done|]. split; [done|]. assert (a_seen a = []) as Hs.
    { destruct (a_seen a) as [|j l]; [done|]. rewrite length_wal in Hz. cbn [entries fmap list_fmap concat] in Hz.
      rewrite length_app in Hz. pose proof (length_record (entry_of j)). lia. }
    destruct Hr. unfold a_items in *. rewrite Ho, Hs in *. by split. }
  destruct (writer_flush s [] (rl_writer _ _ _ Hr)) as (d1 & E1 & W1). rewrite (ebind_run _ _ _ _ _ E1). rewrite app_nil_r in W1.
  set (s1 := s ⟪ sp_disk := d1 ⟫ ⟪ sp_writer := Some [] ⟫).
  destruct (noted_touch s1) as (d2 & E2 & W2). rewrite (ebind_run _ _ _ _ _ E2).
  set (s2 := s1 ⟪ sp_disk := d2 ⟫).
  destruct (noted_touch s2) as (d3 & E3 & W3). rewrite (ebind_run _ _ _ _ _ E3). set (s3 := s2 ⟪ sp_disk := d3 ⟫).
  destruct (noted_touch s3) as (d4 & E4 & W4). rewrite (ebind_run _ _ _ _ _ E4). set (s4 := s3 ⟪ sp_disk := d4 ⟫).
  change (sp_disk s1) with d1 in W2. change (sp_disk s2) with d2 in W3. change (sp_disk s3) with d3 in W4.
  unfold ebind at 1, eget at 1.
  assert (written d4 = wal (entries (a_seen a ++ a_new a))) as Hw.
  { rewrite W4, W3, W2, W1, (rl_file _ _ _ Hr). unfold a_items. by rewrite Ho. }
  change (sp_recovery_prefix_bytes s4) with (sp_recovery_prefix_bytes s).
  rewrite (rl_prefix _ _ _ Hr), Ho, app_nil_r. change (sp_disk s4) with d4.
  assert (file_len d4 = Z.of_nat (length (wal (entries (a_seen a)))) + Z.of_nat (length (concat (record <$> entries (a_new a))))) as Hfl.
  { unfold file_len. rewrite Hw, entries_app, wal_app, length_app. lia. }
  rewrite (proj2 (Z.ltb_ge _ _)) by lia.
  destruct (noted_touch s4) as (d5 & E5 & W5). rewrite (ebind_run _ _ _ _ _ E5). change (sp_disk s4) with d4 in W5.
  set (temp := WAL_MAGIC ++ drop (Z.to_nat (Z.of_nat (length (wal (entries (a_seen a)))))) (written d4)).
  assert (temp = wal (entries (a_new a))) as Ht by (unfold temp; by rewrite Nat2Z.id, Hw, entries_app, drop_wal).
  destruct (make_temp_steady temp d5) as (d6 & E6 & W6).
  set (s5 := s4 ⟪ sp_disk := d5 ⟫).
  assert (noted (make_temp temp) s5 = (Ok tt, s5 ⟪ sp_disk := d6 ⟫)) as E6'.
  { unfold noted. change (sp_disk s5) with d5. by rewrite E6. }
  rewrite (ebind_run _ _ _ _ _ E6'). set (s6 := s5 ⟪ sp_disk := d6 ⟫). unfold ebind at 1, emod at 1.
  set (s7 := s6 ⟪ sp_writer := None ⟫). unfold ebind at 1, eget at 1. change (sp_disk s7) with d6.
  destruct (persist_steady temp d6) as (d7 & E7 & W7). destruct (touch_steady d7) as (d8 & E8 & W8).
  rewrite (ebind_run _ _ _ _ _ E7), E8. destruct (touch_steady d8) as (d9 & E9 & W9). rewrite E9.
  eexists _, _. split; [reflexivity|]. split; [done|].
  assert (written d9 = wal (entries (a_new a))) as Hw9 by (by rewrite W9, W8, W7).
  assert (file_len d9 = MAGIC_LEN + Z.of_nat (length (concat (record <$> entries (a_new a))))) as Hf9.
  { unfold file_len. by rewrite Hw9, length_wal. }
  pose proof (length_wal (entries (a_seen a))) as Hls.
  assert (file_len d4 = file_len (sp_disk s)) as Hf4 by (unfold file_len; by rewrite W4, W3, W2, W1).
  destruct Hr. unfold a_items in *. rewrite Ho in *. split; try done; cbn [sp_disk set_field sp_wal_bytes].
  - rewrite Hf9, Hfl. lia.
  - lia.
  - rewrite entries_app in rl_ok0. by apply Forall_app in rl_ok0 as [_ ?].
Qed.

(** What each call comes to. *)
Lemma push_batch_step b s :
  spill_step (OpPushBatch b) s =
  if Z.of_nat (length (sp_batches s)) <? sp_batch_capacity s then (OutPushed, s ⟪ sp_batches := sp_batches s ++ [b] ⟫)
  else (match fst (spill_batch b s) with Ok _ => OutPushed | Err _ => OutFailed end, snd (spill_batch b s)).
Proof.
  unfold spill_step, spill_call, sp_push_batch, ebind, eget. destruct (_ <? _); [done|].
  by destruct (spill_batch b s) as [[[]|f] s1].
Qed.
Lemma push_system_step e s :
  spill_step (OpPushSystem e) s =
  if Z.of_nat (length (sp_systems s)) <? sp_system_capacity s then (OutPushed, s ⟪ sp_systems := sp_systems s ++ [e] ⟫)
  else (match fst (spill_system e s) with Ok _ => OutPushed | Err _ => OutFailed end, snd (spill_system e s)).
Proof.
  unfold spill_step, spill_call, sp_push_system, ebind, eget. destruct (_ <? _); [done|].
  by destruct (spill_system e s) as [[[]|f] s1].
Qed.

Lemma step_refines op s a :
  rel cfg s a ->
  exists a', spec_step cfg op a = (fst (spill_step op s), a') /\ rel cfg (snd (spill_step op s)) a'.
Proof.
  intros Hr. destruct op as [b|e| | | | |].
  - rewrite push_batch_step. cbn [spec_step]. rewrite (rl_batches _ _ _ Hr), (rl_batch_capacity _ _ _ Hr). destruct (_ <? _).
    + eexists. split; [reflexivity|]. by destruct Hr.
    + destruct (spill_item_refines s a (SpillBatch b) (spill_batch b)
        (fun s => s ⟪ sp_spilled_batches := wrap U64 (sp_spilled_batches s + 1) ⟫) eq_refl) as (s' & a' & E & Es & Hr');
        [by intros ? ? []|done|]. exists a'. cbn [fst snd]. by rewrite Es.
  - rewrite push_system_step. cbn [spec_step]. rewrite (rl_systems _ _ _ Hr), (rl_system_capacity _ _ _ Hr). destruct (_ <? _).
    + eexists. split; [reflexivity|]. by destruct Hr.
    + destruct (spill_item_refines s a (SpillSystem e) (spill_system e)
        (fun s => s ⟪ sp_spilled_systems := wrap U64 (sp_spilled_systems s + 1) ⟫) eq_refl) as (s' & a' & E & Es & Hr');
        [by intros ? ? []|done|]. exists a'. cbn [fst snd]. by rewrite Es.
  - eexists. cbn [spec_step]. split; [by rewrite <- (rl_batches _ _ _ Hr)|]. by destruct Hr.
  - eexists. cbn [spec_step]. split; [by rewrite <- (rl_systems _ _ _ Hr)|]. by destruct Hr.
  - eexists. split; [reflexivity|]. by apply rel_pending.
  - destruct (pop_recovered_refines s a Hr) as (s' & E & Hr'). unfold spill_step, spill_call.
    rewrite (ebind_run _ _ _ _ _ E). cbn [fst snd spec_step eret]. destruct (a_old a); by eexists.
  - destruct (checkpoint_refines s a Hr) as (r & s' & E & Hc). unfold spill_step, spill_call, ebind. rewrite E.
    cbn [spec_step]. destruct (a_old a); destruct Hc as [Hc Hr'].
    + subst r. by eexists.
    + destruct r; [done|]. by eexists.
Qed.

Lemma run_refines ops s a :
  rel cfg s a ->
  exists a', spec_run cfg ops a = (fst (spill_run ops s), a') /\ rel cfg (snd (spill_run ops s)) a'.
Proof.
  revert s a. induction ops as [|op ops IH]; intros s a Hr; cbn [spec_run spill_run]; [by exists a|].
  destruct (step_refines op s a Hr) as (a1 & E1 & Hr1). destruct (spill_step op s) as [o s1]. cbn [fst snd] in *.
  destruct (IH s1 a1 Hr1) as (a2 & E2 & Hr2). destruct (spill_run ops s1) as [os s2]. cbn [fst snd] in *.
  exists a2. by rewrite E1, E2.
Qed.

Lemma fresh_rel l d :
  Forall (entry_ok (spc_wal_limit_bytes cfg)) (entries l) -> written d = wal (entries l) ->
  file_len d <= spc_wal_limit_bytes cfg -> rel cfg (fresh_sink cfg (entries l) d) (mkAbs [] [] [] l []).
Proof.
  intros Hl Hw Hf. split; try done; unfold a_items; cbn [a_seen a_old a_new app]; rewrite ?app_nil_r; try done.
  unfold fresh_sink, entries. cbn [sp_recovered_remaining]. by rewrite length_fmap.
Qed.

Lemma pop_all_refines n s a :
  rel cfg s a -> (n <= length (a_old a))%nat ->
  exists s', pop_all n s = (Ok (Some <$> take n (a_old a)), s').
Proof.
  revert s a. induction n as [|n IH]; intros s a Hr Hn; cbn [pop_all]; [by exists s|].
  destruct (pop_recovered_refines s a Hr) as (s1 & E1 & Hr1). rewrite (ebind_run _ _ _ _ _ E1).
  destruct (a_old a) as [|i old]; [cbn in Hn; lia|]. cbn [length] in Hn.
  destruct (IH s1 _ Hr1 ltac:(cbn; lia)) as (s2 & E2). rewrite (ebind_run _ _ _ _ _ E2). by exists s2.
Qed.
End Refinement.

Lemma entries_take n l : entries (take n l) = take n (entries l).
Proof. apply fmap_take. Qed.
Lemma length_entries l : length (entries l) = length l.
Proof. apply length_fmap. Qed.

(** Cutting the log anywhere after its header leaves whole records and a torn
    one. *)
Lemma cut_log limit l k :
  Forall (entry_ok limit) l -> (length WAL_MAGIC <= k)%nat ->
  exists n t, take k (wal l) = wal (take n l) ++ t /\ (torn limit t \/ t = []) /\
    (n <= length l)%nat /\ (n < length l -> k < length (wal (take (S n) l)))%nat.
Proof.
  intros Hl Hk. induction l as [|e l IH] using rev_ind.
  - exists 0%nat, []. rewrite app_nil_r. split; [|split; [by right|cbn; lia]].
    apply take_ge. unfold wal. cbn [fmap list_fmap concat]. rewrite app_nil_r. done.
  - apply Forall_app in Hl as [Hl He]. apply Forall_cons in He as [He _]. rewrite wal_snoc.
    destruct (Nat.le_gt_cases (length (wal l)) k) as [Hle|Hgt].
    + destruct (Nat.le_gt_cases (length (wal l) + length (record e)) k) as [Hall|Hpart].
      * exists (length (l ++ [e])), []. rewrite firstn_all, wal_snoc, app_nil_r.
        split; [apply take_ge; rewrite length_app; lia|]. split; [by right|]. lia.
      * exists (length l), (take (k - length (wal l)) (record e)). rewrite take_app_length, take_app_ge by lia.
        split; [done|]. split.
        -- left. exists e, (drop (k - length (wal l)) (record e)). split; [done|]. split; [by rewrite take_drop|].
           intros Hn. apply (f_equal length) in Hn. rewrite length_drop in Hn. change (length (@nil Z)) with 0%nat in Hn. lia.
        -- rewrite length_app. cbn [length]. split; [lia|]. intros _.
           rewrite take_ge by (rewrite length_app; cbn; lia). rewrite wal_snoc, length_app. lia.
    + destruct (IH Hl) as (n & t & E & Ht & Hn & Hmax). exists n, t.
      rewrite take_app_le by lia. rewrite take_app_le by done. split; [done|]. split; [done|].
      rewrite length_app. cbn [length]. split; [lia|]. intros _.
      destruct (Nat.lt_ge_cases n (length l)) as [Hlt|Hge].
      * rewrite take_app_le by lia. by apply Hmax.
      * assert (n = length l) as -> by lia. rewrite take_ge by (rewrite length_app; cbn; lia). rewrite wal_snoc, length_app. lia.
Qed.
End Records.

(** ** What the spill file guarantees *)

(** C14. The spill file is a durable log.  On a device that does not fail, let a
    crash cut a log of [logged] at any byte after its header.  Opening it
    recovers exactly the records that were written completely.  Whatever is
    called then, every call has the outcome of the abstract log, in which an
    item is refused only when its record does not fit under the limit, and a
    recovered item is handed out once and stays logged until the checkpoint.
    The file never grows past its limit, and opening it again at any point
    recovers every item that is logged and not acknowledged, in order. *)
Theorem spill_log_durable {D} `{SteadyDisk D} `{SpillJsonLaws} cfg logged k (d : D) ops :
  cfg_ok cfg -> spc_wal_limit_bytes cfg <= MAX_RECORD_BYTES + MAGIC_LEN + 5 ->
  Forall (entry_ok (spc_wal_limit_bytes cfg)) (entries logged) -> (length WAL_MAGIC <= k)%nat ->
  written d = take k (wal (entries logged)) -> file_len d <= spc_wal_limit_bytes cfg ->
  exists n s0 d0, open_sink cfg d = Some (Ok (Some s0), d0) /\
    (n <= length logged)%nat /\ (length (wal (entries (take n logged))) <= k)%nat /\
    (n < length logged -> k < length (wal (entries (take (S n) logged))))%nat /\
    let '(outs, a) := spec_run cfg ops (mkAbs [] [] [] (take n logged) []) in
    fst (spill_run ops s0) = outs /\
    let s := snd (spill_run ops s0) in
    sp_batches s = a_batches a /\ sp_systems s = a_systems a /\
    file_len (sp_disk s) <= spc_wal_limit_bytes cfg /\
    exists s1 d1, open_sink cfg (sp_disk s) = Some (Ok (Some s1), d1) /\
      sp_recovered_remaining s1 = Z.of_nat (length (a_items a)) /\
      exists s2, pop_all (length (a_items a)) s1 = (Ok (Some <$> a_items a), s2).
Proof.
  intros Hc Hsm Hlog Hk Hcut Hl. destruct (cut_log _ _ k Hlog Hk) as (n & t & Ecut & Ht & Hn & Hmax).
  rewrite length_entries in Hn, Hmax. rewrite <- !entries_take in *. rewrite Ecut in Hcut.
  assert (Forall (entry_ok (spc_wal_limit_bytes cfg)) (entries (take n logged))) as Hi
    by (rewrite entries_take; by apply Forall_take).
  destruct (open_ok cfg (entries (take n logged)) t d Hc Hi Ht Hcut Hl) as (d0 & E0 & W0).
  exists n, (fresh_sink cfg (entries (take n logged)) d0), d0. split; [done|]. split; [done|].
  split; [|split; [done|]].
  { apply (f_equal length) in Ecut. rewrite length_take, length_app in Ecut. lia. }
  assert (file_len d0 <= spc_wal_limit_bytes cfg) as Hl0.
  { unfold file_len in *. rewrite W0. rewrite Hcut, length_app in Hl. lia. }
  destruct (run_refines cfg Hc Hsm ops _ _ (fresh_rel cfg (take n logged) d0 Hi W0 Hl0)) as (a & Ea & Hr). rewrite Ea.
  split; [done|]. set (s := snd (spill_run ops _)) in *. split; [apply Hr|]. split; [apply Hr|]. split; [apply Hr|].
  destruct (open_ok cfg (entries (a_items a)) [] (sp_disk s) Hc (rl_ok _ _ _ Hr) (or_intror eq_refl)) as (d1 & E1 & W1);
    [by rewrite app_nil_r, (rl_file _ _ _ Hr)|apply Hr|].
  assert (file_len d1 <= spc_wal_limit_bytes cfg) as Hl1.
  { unfold file_len. rewrite W1, <- (rl_file _ _ _ Hr). apply Hr. }
  pose proof (fresh_rel cfg (a_items a) d1 (rl_ok _ _ _ Hr) W1 Hl1) as Hr1.
  eexists _, d1. split; [exact E1|]. split; [apply (rl_remaining _ _ _ Hr1)|].
  destruct (pop_all_refines cfg Hc (length (a_items a)) _ _ Hr1) as (s2 & E2); [done|].
  exists s2. rewrite E2. cbn [a_old]. by rewrite firstn_all.
Qed.

(** ** A record the reader refuses *)

Section Oversized.
Context {D : Type} `{WalDisk D} `{!SteadyDisk D} `{SpillJsonLaws}.

Lemma oversized_refused limit n :
  limit_ok limit -> MAX_RECORD_BYTES < n -> exists e, validate_record_len n limit = Err e.
Proof.
  intros _ Hn. unfold validate_record_len. cbv zeta.
  match goal with |- context [?a <? n] => destruct (Z.ltb_spec a n) as [|Hge] end; [by eexists|]. exfalso. lia.
Qed.

Lemma scan_refuses fuel limit l e rest start count (d : D) :
  limit_ok limit -> Forall (entry_ok limit) l ->
  MAX_RECORD_BYTES < Z.of_nat (length e.2) -> fits U32 (Z.of_nat (length e.2)) ->
  0 <= start -> start + Z.of_nat (length (concat (record <$> l))) <= file_len d -> file_len d <= limit ->
  0 <= count -> count + Z.of_nat (length l) <= int_max U64 -> (length l < fuel)%nat ->
  exists err, scan_loop fuel (file_len d) limit (concat (record <$> l) ++ record e ++ rest) start count d = (Err err, d).
Proof.
  intros Hlim Hl He Hf. revert fuel start count. induction Hl as [|e0 l He0 Hl IH]; intros fuel start count Hst Hend Hlen Hc Hcl Hfu;
    (destruct fuel as [|fuel]; [cbn in Hfu; lia|]).
  - cbn [fmap list_fmap concat app]. unfold record. rewrite <- app_comm_cons. cbn [scan_loop].
    rewrite <- app_assoc, read_exact_app by apply length_to_le_bytes. rewrite le_u32 by done.
    destruct (oversized_refused limit _ Hlim He) as [err Herr]. exists err. by rewrite ebind_elift, Herr.
  - rewrite fmap_cons in *. cbn [concat length] in *. rewrite length_app in Hend. pose proof (length_record e0).
    rewrite <- app_assoc, scan_loop_step by (done || lia). apply IH; lia.
Qed.

Lemma open_refuses cfg l e (d : D) :
  cfg_ok cfg -> Forall (entry_ok (spc_wal_limit_bytes cfg)) l ->
  MAX_RECORD_BYTES < Z.of_nat (length e.2) -> fits U32 (Z.of_nat (length e.2)) ->
  written d = wal (l ++ [e]) -> file_len d <= spc_wal_limit_bytes cfg ->
  exists err d', open_sink cfg d = Some (Err err, d').
Proof.
  intros (Hb & Hs & Hlim) Hl He Hf Hw Hlen. unfold open_sink, spill_open. pose proof Hlim as [Hlo Hhi].
  assert (MAGIC_LEN = 9) as H9 by reflexivity. rewrite !(proj2 (Z.leb_gt _ _)) by lia. cbn [orb].
  destruct (touch_steady d) as (d1 & E1 & W1). rewrite (ebind_run _ _ _ _ _ E1). rewrite (proj2 (Z.ltb_ge _ _)) by lia.
  destruct (touch_steady d1) as (d2 & E2 & W2). rewrite (ebind_run _ _ _ _ _ E2). unfold ebind at 1, eget at 1.
  assert (file_len d2 = file_len d) as Hf2 by (unfold file_len; by rewrite W2, W1).
  rewrite Hf2, (proj2 (Z.ltb_ge _ _)) by done.
  pose proof (length_wal (l ++ [e])) as Hlw. assert (file_len d = Z.of_nat (length (wal (l ++ [e])))) as Hfl by (unfold file_len; by rewrite Hw).
  rewrite (proj2 (Z.eqb_neq _ _)) by lia. rewrite (ebind_run (eret tt) _ d2 tt d2) by done.
  unfold scan_spill_file. destruct (touch_steady d2) as (d3 & E3 & W3).
  assert (file_len d3 = file_len d) as Hf3 by (unfold file_len; by rewrite W3, W2, W1).
  assert (exists err, (touch !; let! d4 := eget in
      if spc_wal_limit_bytes cfg <? file_len d4 then ethrow (limit_error (file_len d4) (spc_wal_limit_bytes cfg)) else
      let! rest := elift (read_magic (written d4)) in
      scan_loop (S (length rest)) (file_len d4) (spc_wal_limit_bytes cfg) rest MAGIC_LEN 0) d2 = (Err err, d3)) as [err Herr].
  { rewrite (ebind_run _ _ _ _ _ E3). unfold ebind at 1, eget at 1. rewrite Hf3, (proj2 (Z.ltb_ge _ _)) by done.
    rewrite ebind_elift, W3, W2, W1, Hw. unfold read_magic, wal at 1. rewrite read_exact_app by done.
    rewrite bool_decide_eq_true_2 by done. cbn [negb]. rewrite fmap_app, concat_app. cbn [fmap list_fmap concat].
    rewrite <- Hf3. apply scan_refuses; try done; try lia.
    - rewrite Hf3, Hfl, length_wal, fmap_app, concat_app, length_app. lia.
    - pose proof (count_le_bytes l). rewrite Hfl, Hlw, fmap_app, concat_app, length_app in Hlen.
      unfold MAX_RECORD_BYTES in Hhi. lia.
    - pose proof (count_le_bytes l). rewrite length_app. lia. }
  exists err, d3. unfold ebind at 1. by rewrite Herr.
Qed.
End Oversized.

(** The writer accepts records that the reader refuses: with a limit above 64
    MiB, a batch whose record has a longer body is spilled as accepted, and
    from then on the file cannot be opened, so that this record and every
    record before it are out of reach. *)
Theorem spill_oversized_unreadable {D} `{SteadyDisk D} `{SpillJsonLaws} cfg logged (d : D) bt b :
  cfg_ok cfg -> Forall (entry_ok (spc_wal_limit_bytes cfg)) (entries logged) -> written d = wal (entries logged) ->
  item_to_vec (SpillBatch bt) = Ok b -> MAX_RECORD_BYTES < Z.of_nat (length b) -> fits U32 (Z.of_nat (length b)) ->
  file_len d + (5 + Z.of_nat (length b)) <= spc_wal_limit_bytes cfg ->
  exists s0 d0 s1, open_sink cfg d = Some (Ok (Some s0), d0) /\ spill_batch bt s0 = (Ok tt, s1) /\
    sp_spilled_batches s1 = 1 /\ exists e d1, open_sink cfg (sp_disk s1) = Some (Err e, d1).
Proof.
  intros Hc Hl Hw Hv Hbig Hf Hfit.
  destruct (open_ok cfg (entries logged) [] d Hc Hl (or_intror eq_refl)) as (d0 & E0 & W0);
    [by rewrite app_nil_r|lia|].
  set (s0 := fresh_sink cfg (entries logged) d0) in *.
  assert (file_len d0 = file_len d) as Hf0 by (unfold file_len; by rewrite W0, Hw).
  destruct (spill_record_ok s0 TAG_BATCH b) as (d1 & E1 & W1); try done.
  - apply Hc.
  - change (sp_disk s0) with d0. change (sp_wal_limit_bytes s0) with (spc_wal_limit_bytes cfg). lia.
  - change (sp_disk s0) with d0 in W1. rewrite W0 in W1.
    assert (written d1 = wal (entries logged ++ [(SpillBatch bt, b)])) as Hw1 by (by rewrite wal_snoc, W1).
    destruct (open_refuses cfg (entries logged) (SpillBatch bt, b) d1) as (e & d2 & E2); try done.
    + unfold file_len in *. rewrite W1, <- Hw, length_app. cbn [length]. rewrite length_app, length_to_le_bytes. lia.
    + eexists s0, d0, _. split; [done|]. split.
      { unfold spill_batch. rewrite ebind_elift, Hv. cbn [map_err]. by rewrite (ebind_run _ _ _ _ _ E1). }
      split; [done|]. by exists e, d2.
Qed.

(** ** Devices and codecs *)

(** A file in memory that never fails. *)
#[export] Program Instance mem_wal : WalDisk (list Z) := {|
  touch := eret tt;
  set_len n := fun d => (Ok tt, take (Z.to_nat n) d);
  make_temp _ := eret tt;
  persist l := fun _ => (Ok tt, l)
|}.
Solve All Obligations with done.

#[export] Instance mem_wal_steady : SteadyDisk (list Z).
Proof. split; [apply _|done..]. Qed.

(** A file whose writes fail as scripted: each entry is the number of bytes
    that the next write takes. *)
Record Flaky := mkFlaky { fl_bytes : list Z; fl_script : list nat }.

Definition flaky_write (l : list Z) : Eff Flaky string unit := fun d =>
  match fl_script d with
  | [] => (Ok tt, mkFlaky (fl_bytes d ++ l) [])
  | n :: script =>
      if (length l <=? n)%nat then (Ok tt, mkFlaky (fl_bytes d ++ l) script)
      else (Err "No space left on device"%string, mkFlaky (fl_bytes d ++ take n l) script)
  end.

#[export] Program Instance flaky_writer : Write Flaky := {|
  write_all := flaky_write;
  flush := eret tt;
  written := fl_bytes
|}.
Next Obligation.
  intros l d. unfold flaky_write. destruct (fl_script d) as [|n script]; [exists l, []; by rewrite app_nil_r|].
  destruct (Nat.leb_spec (length l) n); [exists l, []; by rewrite app_nil_r|].
  exists (take n l), (drop n l). by rewrite take_drop.
Qed.
Next Obligation. done. Qed.

#[export] Program Instance flaky_wal : WalDisk Flaky := {|
  touch := eret tt;
  set_len n := fun d => (Ok tt, mkFlaky (take (Z.to_nat n) (fl_bytes d)) (fl_script d));
  make_temp _ := eret tt;
  persist l := fun d => (Ok tt, mkFlaky l (fl_script d))
|}.
Solve All Obligations with done.

(** A codec of empty batches and of two events. *)
Definition small_to_vec (i : SpillItem) : result (list Z) string :=
  match i with
  | SpillBatch (mkEventBatch session seq []) => Ok [session; seq]
  | SpillSystem ShutdownStarted => Ok [1]
  | SpillSystem ShutdownCompleted => Ok [2]
  | _ => Err "unsupported"%string
  end.
Definition small_from_slice (b : list Z) : result SpillItem string :=
  match b with
  | [session; seq] => Ok (SpillBatch (mkEventBatch session seq []))
  | [code] => Ok (SpillSystem (if code =? 1 then ShutdownStarted else ShutdownCompleted))
  | _ => Err "unsupported"%string
  end.
Definition small_json : SpillJson := {| item_to_vec := small_to_vec; item_from_slice := small_from_slice |}.
Lemma small_json_laws : @SpillJsonLaws small_json.
Proof.
  split. intros [[session seq es]|ev] b Hb; [destruct es|destruct ev]; try discriminate Hb; by injection Hb as <-.
Qed.

Definition sample_batch (seq : Z) : EventBatch := mkEventBatch 1 seq [].
Definition small_cfg (limit : Z) : SpillWalConfig := mkSpillWalConfig 1 1 limit.

Section Samples.
#[local] Existing Instance small_json.
#[local] Existing Instance small_json_laws.

Definition sample_log : list SpillItem := [SpillBatch (sample_batch 7); SpillSystem ShutdownStarted; SpillBatch (sample_batch 8)].
Definition sample_ops : list spill_op :=
  [OpPopRecovered; OpPushBatch (sample_batch 9); OpPushBatch (sample_batch 10); OpCheckpoint; OpPopRecovered;
   OpPopRecovered; OpCheckpoint; OpPushBatch (sample_batch 11); OpPushBatch (sample_batch 12); OpPopBatch].

(** A crash in the middle of the third record, and a limit that the fourth
    spilled batch would pass. *)
Lemma spill_log_durable_witness :
  let cfg := small_cfg 36 in
  exists n s0 d0, open_sink cfg (take 26 (wal (entries sample_log))) = Some (Ok (Some s0), d0) /\ n = 2%nat /\
    fst (spill_run sample_ops s0) =
      [OutRecovered (Some (SpillBatch (sample_batch 7))); OutPushed; OutPushed; OutFailed;
       OutRecovered (Some (SpillSystem ShutdownStarted)); OutRecovered None; OutDone; OutPushed; OutPushed;
       OutBatch (Some (sample_batch 9))].
Proof.
  destruct (spill_log_durable (small_cfg 36) sample_log 26 (take 26 (wal (entries sample_log))) sample_ops)
    as (n & s0 & d0 & E & H1 & H2 & H3 & H4).
  - repeat split; vm_compute; try reflexivity; discriminate.
  - vm_compute. discriminate.
  - repeat constructor; vm_compute; discriminate.
  - vm_compute. lia.
  - reflexivity.
  - vm_compute. discriminate.
  - exists n, s0, d0. split; [exact E|].
    assert (n = 2%nat) as ->.
    { destruct n as [|[|[|[|n]]]]; [|  |done| |].
      - exfalso. specialize (H3 ltac:(cbn; lia)). vm_compute in H3. lia.
      - exfalso. specialize (H3 ltac:(cbn; lia)). vm_compute in H3. lia.
      - exfalso. vm_compute in H2. lia.
      - exfalso. cbn in H1. lia. }
    split; [done|].
    assert (spec_run (small_cfg 36) sample_ops (mkAbs [] [] [] (take 2 sample_log) []) = 
      ([OutRecovered (Some (SpillBatch (sample_batch 7))); OutPushed; OutPushed; OutFailed;
       OutRecovered (Some (SpillSystem ShutdownStarted)); OutRecovered None; OutDone; OutPushed; OutPushed;
       OutBatch (Some (sample_batch 9))], mkAbs [] [] [] [] (SpillBatch <$> [sample_batch 10; sample_batch 11; sample_batch 12])))
      as Hs by (vm_compute; reflexivity).
    rewrite Hs in H4. exact (proj1 H4).
Defined.

(** A device that takes the file's magic and three bytes of the first
    record, and the sink after opening it and after each of two pushes. *)
Definition flaky_disk : Flaky := mkFlaky [] [9; 3]%nat.
Definition flaky_open : option (SpillWalSink Flaky * Flaky) := Eval vm_compute in
  match open_sink (small_cfg 19) flaky_disk with Some (Ok (Some s), d) => Some (s, d) | _ => None end.
Definition flaky_after (batch : EventBatch) (o : option (SpillWalSink Flaky * Flaky)) :
    option (SpillWalSink Flaky * Flaky) :=
  (fun sd => let s := snd (spill_batch batch (fst sd)) in (s, sp_disk s)) <$> o.
Definition flaky_first : option (SpillWalSink Flaky * Flaky) := Eval vm_compute in flaky_after (sample_batch 1) flaky_open.
Definition flaky_second : option (SpillWalSink Flaky * Flaky) := Eval vm_compute in flaky_after (sample_batch 2) flaky_first.

(** A transient failure defeats the limit.  The bytes of the record that was
    reported as dropped stay in the writer's buffer and are not counted: the
    next record pushes both to the file, which ends up longer than its hard
    limit, and opening it is refused. *)
Theorem spill_failed_write_breaks_limit :
  let cfg := small_cfg 19 in
  exists s0 d0 s1 s2,
    open_sink cfg (mkFlaky [] [9; 3]%nat) = Some (Ok (Some s0), d0) /\
    spill_batch (sample_batch 1) s0 = (Err (SpillErr SinkFailEngine), s1) /\
    spill_batch (sample_batch 2) s1 = (Ok tt, s2) /\
    sp_wal_bytes s2 = 16 /\ file_len (sp_disk s2) = 23 /\
    open_sink cfg (sp_disk s2) = Some (Err "spill WAL length 23 exceeds configured limit 19"%string, sp_disk s2).
Proof.
  exists (fst (the flaky_open)), (snd (the flaky_open)), (fst (the flaky_first)), (fst (the flaky_second)).
  split; [computed|]. split; [computed|]. split; [computed|]. split; [computed|]. split; computed.
Qed.
End Samples.

(** One huge record. *)
Definition huge : list Z := replicate (Z.to_nat (MAX_RECORD_BYTES + 1)) 0.
Definition huge_to_vec (i : SpillItem) : result (list Z) string :=
  match i with SpillBatch (mkEventBatch 1 1 []) => Ok huge | _ => Err "unsupported"%string end.
Definition huge_json : SpillJson :=
  {| item_to_vec := huge_to_vec; item_from_slice := fun _ => Ok (SpillBatch (sample_batch 1)) |}.
Lemma huge_json_laws : @SpillJsonLaws huge_json.
Proof.
  split. cbn [item_to_vec item_from_slice huge_json]. intros [[session seq es]|e] b H; [|discriminate H].
  unfold huge_to_vec in H. destruct session as [|[| |]|]; try discriminate H.
  destruct seq as [|[| |]|]; try discriminate H. destruct es; [done|discriminate H].
Qed.

Lemma length_huge : Z.of_nat (length huge) = MAX_RECORD_BYTES + 1.
Proof. unfold huge. rewrite length_replicate, Z2Nat.id; [done|]. unfold MAX_RECORD_BYTES. lia. Qed.

Lemma spill_oversized_unreadable_witness :
  exists s0 d0 s1, @open_sink (list Z) _ _ huge_json (small_cfg (2 * MAX_RECORD_BYTES)) (wal []) = Some (Ok (Some s0), d0) /\
    @spill_batch (list Z) _ huge_json (sample_batch 1) s0 = (Ok tt, s1) /\ sp_spilled_batches s1 = 1 /\
    exists e d1, @open_sink (list Z) _ _ huge_json (small_cfg (2 * MAX_RECORD_BYTES)) (sp_disk s1) = Some (Err e, d1).
Proof.
  apply (@spill_oversized_unreadable (list Z) _ _ _ huge_json huge_json_laws (small_cfg (2 * MAX_RECORD_BYTES)) []
    (wal []) (sample_batch 1) huge).
  - unfold cfg_ok, limit_ok, small_cfg, MAX_RECORD_BYTES. cbn [spc_batch_capacity spc_system_capacity spc_wal_limit_bytes int_max].
    assert (MAGIC_LEN = 9) by reflexivity. lia.
  - constructor.
  - reflexivity.
  - reflexivity.
  - rewrite length_huge. lia.
  - rewrite length_huge. unfold fits, MAX_RECORD_BYTES. cbn [int_min int_max]. lia.
  - rewrite length_huge. unfold file_len, small_cfg, MAX_RECORD_BYTES. cbn [spc_wal_limit_bytes]. 
    change (length (written (wal []))) with 9%nat. lia.
Defined.
