(* ===== verification/RecordingControl.v ===== *)
(** * Recorded subscription commands ([crates/recording/src/control.rs])

    The bounded payload of an accepted dynamic-subscription mutation: the
    command and the wire frame the adapter made of it, as JSON.  The JSON
    library is a parameter. *)

From stdpp Require Import base tactics numbers strings option list.
From Stdlib Require Import ZArith Lia.
From S2P Require Import Prelude Bytes Fixed Model Dispatch Recording RecordingHttp Session.

Local Open Scope Z_scope.

Definition MAX_CONTROL_BYTES : Z := 1024 * 1024.
Definition MAX_CONTROL_SYMBOLS : Z := 4096.
Definition MAX_CONTROL_SYMBOL_BYTES : Z := 1024.
Definition MAX_CONTROL_WIRE_BYTES : Z := 256 * 1024.

Inductive RecordedSubscriptionCommand :=
  | RecSubscribe (symbols : list string)
  | RecUnsubscribe (symbols : list string)
  | RecReplace (symbols : list string).

Inductive RecordedWireAction :=
  | RecText (payload : list Z)
  | RecBinary (payload : list Z)
  | RecPing (payload : list Z).

#[export] Instance RecordedSubscriptionCommand_eq_dec : EqDecision RecordedSubscriptionCommand.
Proof. solve_decision. Defined.
#[export] Instance RecordedWireAction_eq_dec : EqDecision RecordedWireAction.
Proof. solve_decision. Defined.

Record RecordedSubscriptionMutation := mkRecordedSubscriptionMutation {
  rm_command : RecordedSubscriptionCommand;
  rm_wire : RecordedWireAction
}.

#[export] Instance RecordedSubscriptionMutation_eq_dec : EqDecision RecordedSubscriptionMutation.
Proof. solve_decision. Defined.

Definition string_len (s : string) : Z := Z.of_nat (String.length s).

Definition validate_symbols (symbols : list string) : result unit RecordingError :=
  if MAX_CONTROL_SYMBOLS <? Z.of_nat (length symbols) then
    Err (InvalidControlCommand "subscription symbol count exceeds limit")
  else if existsb (fun s => (string_len s =? 0) || (MAX_CONTROL_SYMBOL_BYTES <? string_len s)) symbols then
    Err (InvalidControlCommand "subscription symbol length is invalid")
  else Ok tt.

Definition from_command (command : SessionCommand) : result RecordedSubscriptionCommand RecordingError :=
  match command with
  | Subscribe symbols => validate_symbols symbols ?; Ok (RecSubscribe symbols)
  | Unsubscribe symbols => validate_symbols symbols ?; Ok (RecUnsubscribe symbols)
  | Replace symbols => validate_symbols symbols ?; Ok (RecReplace symbols)
  | Resync _ | Stop =>
      Err (InvalidControlCommand "only dynamic subscription commands are recordable")
  end.

Definition into_command (self : RecordedSubscriptionCommand) : SessionCommand :=
  match self with
  | RecSubscribe symbols => Subscribe symbols
  | RecUnsubscribe symbols => Unsubscribe symbols
  | RecReplace symbols => Replace symbols
  end.

Definition rec_symbols (self : RecordedSubscriptionCommand) : list string :=
  match self with RecSubscribe symbols | RecUnsubscribe symbols | RecReplace symbols => symbols end.

Definition command_validate (self : RecordedSubscriptionCommand) : result unit RecordingError :=
  validate_symbols (rec_symbols self).

Definition wire_payload (wire : SubscriptionWireAction) : list Z :=
  match wire with WireText payload | WireBinary payload | WirePing payload => payload end.

Definition from_wire (wire : SubscriptionWireAction) : result RecordedWireAction RecordingError :=
  if MAX_CONTROL_WIRE_BYTES <? Z.of_nat (length (wire_payload wire)) then
    Err (InvalidControlCommand "subscription wire payload exceeds limit")
  else Ok (match wire with
           | WireText payload => RecText payload
           | WireBinary payload => RecBinary payload
           | WirePing payload => RecPing payload
           end).

Definition into_wire (self : RecordedWireAction) : SubscriptionWireAction :=
  match self with
  | RecText payload => WireText payload
  | RecBinary payload => WireBinary payload
  | RecPing payload => WirePing payload
  end.

Definition wire_validate (self : RecordedWireAction) : result unit RecordingError :=
  let payload := match self with RecText payload | RecBinary payload | RecPing payload => payload end in
  if MAX_CONTROL_WIRE_BYTES <? Z.of_nat (length payload) then
    Err (InvalidControlCommand "subscription wire payload exceeds limit")
  else Ok tt.

(** [serde_json] on the derived implementations of the mutation. *)
Class MutationJson := {
  mutation_to_vec : RecordedSubscriptionMutation -> option (list Z);
  mutation_from_slice : list Z -> option RecordedSubscriptionMutation
}.

(** What the encoder writes are bytes, and the decoder reads them back. *)
Class MutationJsonLaws `{MutationJson} : Prop := {
  mutation_from_to r b : mutation_to_vec r = Some b -> mutation_from_slice b = Some r;
  mutation_to_bytes r b : mutation_to_vec r = Some b -> bytes_ok b
}.

Section Codec.
Context `{MutationJson}.

Definition encode_subscription_command (command : SessionCommand) (wire : SubscriptionWireAction)
    : result (list Z) RecordingError :=
  let? rcommand := from_command command in
  let? rwire := from_wire wire in
  let? payload := ok_or (mutation_to_vec (mkRecordedSubscriptionMutation rcommand rwire))
                    (InvalidControlCommand "subscription command encoding failed") in
  if MAX_CONTROL_BYTES <? Z.of_nat (length payload) then
    Err (InvalidControlCommand "subscription command payload exceeds limit")
  else Ok payload.

Definition decode_subscription_command (payload : list Z)
    : result (SessionCommand * SubscriptionWireAction) RecordingError :=
  if MAX_CONTROL_BYTES <? Z.of_nat (length payload) then
    Err (InvalidControlCommand "subscription command payload exceeds limit")
  else
    let? recorded := ok_or (mutation_from_slice payload)
                       (InvalidControlCommand "subscription command payload is invalid") in
    command_validate (rm_command recorded) ?;
    wire_validate (rm_wire recorded) ?;
    Ok (into_command (rm_command recorded), into_wire (rm_wire recorded)).

(** ** Round trip *)

Lemma from_command_valid command r :
  from_command command = Ok r -> into_command r = command /\ command_validate r = Ok tt.
Proof.
  unfold command_validate. destruct command; cbn; intros E; try done;
    destruct (validate_symbols symbols) as [[]|] eqn:Ev; try done; injection E as <-; done.
Qed.

Lemma from_wire_valid wire r : from_wire wire = Ok r -> into_wire r = wire /\ wire_validate r = Ok tt.
Proof.
  unfold from_wire, wire_validate. destruct wire; cbn;
    destruct (MAX_CONTROL_WIRE_BYTES <? Z.of_nat (length payload)) eqn:E; try done;
    intros [= <-]; by rewrite E.
Qed.

(** What the recorder accepts, the replay decodes to the same command and the
    same wire frame, and the payload is bounded. *)
Lemma subscription_round_trip `{!MutationJsonLaws} command wire payload :
  encode_subscription_command command wire = Ok payload ->
  decode_subscription_command payload = Ok (command, wire) /\
  Z.of_nat (length payload) <= MAX_CONTROL_BYTES.
Proof.
  unfold encode_subscription_command. intros E. res.
  destruct (from_command_valid _ _ Hv) as [<- Hc]. destruct (from_wire_valid _ _ Hv0) as [<- Hw].
  destruct (MAX_CONTROL_BYTES <? Z.of_nat (length v1)) eqn:El; [done|]. injection E as <-.
  split; [|lia]. unfold decode_subscription_command. rewrite El, (mutation_from_to _ _ Hv1). cbn.
  by rewrite Hc; cbn; rewrite Hw.
Qed.
End Codec.

(** A codec of one mutation, for examples. *)
Definition one_mutation (r0 : RecordedSubscriptionMutation) : MutationJson := {|
  mutation_to_vec := fun r => if decide (r = r0) then Some [123; 125] else None;
  mutation_from_slice := fun b => if decide (b = [123; 125]) then Some r0 else None
|}.

Lemma one_mutation_laws r0 : @MutationJsonLaws (one_mutation r0).
Proof.
  split; cbn; intros r b; destruct (decide (r = r0)) as [->|]; try done; intros [= <-]; [done|].
  by repeat constructor.
Qed.
