(* ===== verification/Metrics.v ===== *)
(** * Engine metrics ([crates/engine/src/metrics.rs])

    The counters every session runner of the process shares, the latency
    histograms, and the reference-counted set of valid books behind the
    readiness gauge.  Each method is one atomic step: the counters are atomic
    and the book set is behind a mutex.  The hash maps are ordered maps here:
    only [clear_session] iterates over one, and its steps commute. *)

From stdpp Require Import base tactics numbers strings option list gmap.
From Stdlib Require Import ZArith Lia.
From S2P Require Import Prelude Collections Fixed Model.

Local Open Scope Z_scope.

(** ** Valid books *)

Record ValidBooks := mkValidBooks {
  by_session : BTreeMap SessionId (BTreeSet InstrumentId);
  session_references : BTreeMap InstrumentId Z
}.

#[export] Instance eta_ValidBooks : Eta ValidBooks := fun v =>
  mkValidBooks (by_session v) (session_references v).

Definition valid_books_default : ValidBooks := mkValidBooks [] [].

Definition vb_insert (self : ValidBooks) (session : SessionId) (instrument : InstrumentId) : ValidBooks :=
  let books := BTreeMap.get_or (by_session self) session [] in
  let inserted := negb (BTreeSet.contains books instrument) in
  let self := self ⟪ by_session :=
                BTreeMap.insert (by_session self) session (BTreeSet.insert books instrument) ⟫ in
  if inserted then
    self ⟪ session_references :=
      BTreeMap.insert (session_references self) instrument
        (wrap U64 (BTreeMap.get_or (session_references self) instrument 0 + 1)) ⟫
  else self.

Definition decrement_reference (self : ValidBooks) (instrument : InstrumentId) : ValidBooks :=
  match BTreeMap.get (session_references self) instrument with
  | Some references =>
      let references := wrap U64 (references - 1) in
      if references =? 0 then
        self ⟪ session_references := BTreeMap.remove (session_references self) instrument ⟫
      else
        self ⟪ session_references := BTreeMap.insert (session_references self) instrument references ⟫
  | None => self
  end.

Definition vb_remove (self : ValidBooks) (session : SessionId) (instrument : InstrumentId) : ValidBooks :=
  let '(removed, self) :=
    match BTreeMap.get (by_session self) session with
    | Some books =>
        (BTreeSet.contains books instrument,
         self ⟪ by_session :=
           BTreeMap.insert (by_session self) session (BTreeMap.remove books instrument) ⟫)
    | None => (false, self)
    end in
  let self := if removed then decrement_reference self instrument else self in
  match BTreeMap.get (by_session self) session with
  | Some [] => self ⟪ by_session := BTreeMap.remove (by_session self) session ⟫
  | _ => self
  end.

Definition clear_session (self : ValidBooks) (session : SessionId) : ValidBooks :=
  match BTreeMap.get (by_session self) session with
  | Some instruments =>
      foldl decrement_reference
        (self ⟪ by_session := BTreeMap.remove (by_session self) session ⟫)
        (BTreeSet.elements instruments)
  | None => self
  end.

Definition unique_count (self : ValidBooks) : Z := BTreeMap.len (session_references self).

(** ** Histograms *)

Definition FAST_LATENCY_BOUNDS_NS : list Z :=
  [100000; 250000; 500000; 1000000; 2500000; 5000000; 10000000; 25000000; 50000000; 100000000].

Definition REST_LATENCY_BOUNDS_NS : list Z :=
  [1000000; 2500000; 5000000; 10000000; 25000000; 50000000; 100000000; 250000000; 500000000;
   1000000000; 2500000000; 5000000000; 10000000000].

Record FixedHistogram := mkFixedHistogram {
  fh_bounds_ns : list Z;
  fh_buckets : list Z;
  fh_sum_ns : Z;
  fh_count : Z
}.

#[export] Instance eta_FixedHistogram : Eta FixedHistogram := fun h =>
  mkFixedHistogram (fh_bounds_ns h) (fh_buckets h) (fh_sum_ns h) (fh_count h).

Definition with_bounds (bounds_ns : list Z) : FixedHistogram :=
  mkFixedHistogram bounds_ns (replicate (S (length bounds_ns)) 0) 0 0.

(** The loop over the bounds: the index of the first one that is not
    exceeded, or the overflow bucket. *)
Fixpoint bucket_index (bounds : list Z) (ns : Z) : nat :=
  match bounds with
  | [] => 0
  | bound :: bounds => if ns <=? bound then 0 else S (bucket_index bounds ns)
  end.

Definition observe_ns (ns : Z) (self : FixedHistogram) : FixedHistogram :=
  let idx := bucket_index (fh_bounds_ns self) ns in
  self ⟪ fh_buckets := alter (fun n => wrap U64 (n + 1)) idx (fh_buckets self) ⟫
       ⟪ fh_sum_ns := wrap U64 (fh_sum_ns self + ns) ⟫
       ⟪ fh_count := wrap U64 (fh_count self + 1) ⟫.

Definition add_from (other self : FixedHistogram) : FixedHistogram :=
  self ⟪ fh_buckets :=
           zip_with (fun dst src => wrap U64 (dst + src)) (fh_buckets self) (fh_buckets other) ++
           drop (length (fh_buckets other)) (fh_buckets self) ⟫
       ⟪ fh_sum_ns := wrap U64 (fh_sum_ns self + fh_sum_ns other) ⟫
       ⟪ fh_count := wrap U64 (fh_count self + fh_count other) ⟫.

(** ** Counters *)

Record EngineMetrics := mkEngineMetrics {
  frames_received : Z;
  frames_sent : Z;
  bytes_received : Z;
  bytes_sent : Z;
  events_normalized : Z;
  events_dispatched : Z;
  parse_failures : Z;
  unknown_messages : Z;
  reconnects : Z;
  sequence_gaps : Z;
  checksum_mismatches : Z;
  book_invalidations : Z;
  book_snapshot_rejections : Z;
  book_resynchronizations : Z;
  queue_overflows : Z;
  events_dropped : Z;
  action_buffer_overflows : Z;
  valid_books : Z;
  valid_books_by_session : ValidBooks;
  batch_queue_occupancy : Z;
  batch_queue_capacity : Z;
  system_queue_occupancy : Z;
  system_queue_capacity : Z;
  frame_to_event_latency : FixedHistogram;
  parse_duration : FixedHistogram;
  rest_latency : FixedHistogram;
  sink_write_latency : FixedHistogram
}.

#[export] Instance eta_EngineMetrics : Eta EngineMetrics := fun m =>
  mkEngineMetrics (frames_received m) (frames_sent m) (bytes_received m) (bytes_sent m)
    (events_normalized m) (events_dispatched m) (parse_failures m) (unknown_messages m)
    (reconnects m) (sequence_gaps m) (checksum_mismatches m) (book_invalidations m)
    (book_snapshot_rejections m) (book_resynchronizations m) (queue_overflows m)
    (events_dropped m) (action_buffer_overflows m) (valid_books m) (valid_books_by_session m)
    (batch_queue_occupancy m) (batch_queue_capacity m) (system_queue_occupancy m)
    (system_queue_capacity m) (frame_to_event_latency m) (parse_duration m) (rest_latency m)
    (sink_write_latency m).

Definition metrics_new : EngineMetrics :=
  mkEngineMetrics 0 0 0 0 0 0 0 0 0 0 0 0 0 0 0 0 0 0 valid_books_default 0 0 0 0
    (with_bounds FAST_LATENCY_BOUNDS_NS) (with_bounds FAST_LATENCY_BOUNDS_NS)
    (with_bounds REST_LATENCY_BOUNDS_NS) (with_bounds FAST_LATENCY_BOUNDS_NS).

(** [fetch_add] wraps around. *)
Definition add (counter n : Z) : Z := wrap U64 (counter + n).

Definition record_frame_received (nbytes : Z) (self : EngineMetrics) : EngineMetrics :=
  self ⟪ frames_received := add (frames_received self) 1 ⟫
       ⟪ bytes_received := add (bytes_received self) nbytes ⟫.

Definition record_frame_sent (nbytes : Z) (self : EngineMetrics) : EngineMetrics :=
  self ⟪ frames_sent := add (frames_sent self) 1 ⟫ ⟪ bytes_sent := add (bytes_sent self) nbytes ⟫.

Definition record_events_normalized (n : Z) (self : EngineMetrics) : EngineMetrics :=
  self ⟪ events_normalized := add (events_normalized self) n ⟫.

Definition record_batch_dispatched (self : EngineMetrics) : EngineMetrics :=
  self ⟪ events_dispatched := add (events_dispatched self) 1 ⟫.

Definition record_reconnect (self : EngineMetrics) : EngineMetrics :=
  self ⟪ reconnects := add (reconnects self) 1 ⟫.

Definition record_queue_overflow (self : EngineMetrics) : EngineMetrics :=
  self ⟪ queue_overflows := add (queue_overflows self) 1 ⟫.

Definition record_action_buffer_overflow (count : Z) (self : EngineMetrics) : EngineMetrics :=
  self ⟪ action_buffer_overflows := add (action_buffer_overflows self) count ⟫.

Definition record_events_dropped (count : Z) (self : EngineMetrics) : EngineMetrics :=
  self ⟪ events_dropped := add (events_dropped self) count ⟫.

Definition observe_frame_to_event_ns (ns : Z) (self : EngineMetrics) : EngineMetrics :=
  self ⟪ frame_to_event_latency := observe_ns ns (frame_to_event_latency self) ⟫.

Definition observe_parse_duration_ns (ns : Z) (self : EngineMetrics) : EngineMetrics :=
  self ⟪ parse_duration := observe_ns ns (parse_duration self) ⟫.

Definition observe_rest_latency_ns (ns : Z) (self : EngineMetrics) : EngineMetrics :=
  self ⟪ rest_latency := observe_ns ns (rest_latency self) ⟫.

Definition observe_sink_write_ns (ns : Z) (self : EngineMetrics) : EngineMetrics :=
  self ⟪ sink_write_latency := observe_ns ns (sink_write_latency self) ⟫.

Definition set_queue_gauges (batch_occupancy batch_capacity system_occupancy system_capacity : Z)
    (self : EngineMetrics) : EngineMetrics :=
  self ⟪ batch_queue_occupancy := batch_occupancy ⟫ ⟪ batch_queue_capacity := batch_capacity ⟫
       ⟪ system_queue_occupancy := system_occupancy ⟫ ⟪ system_queue_capacity := system_capacity ⟫.

(** A change of the book set under its lock, and the gauge that follows it. *)
Definition with_valid_books (f : ValidBooks -> ValidBooks) (self : EngineMetrics) : EngineMetrics :=
  let valid := f (valid_books_by_session self) in
  self ⟪ valid_books_by_session := valid ⟫ ⟪ valid_books := unique_count valid ⟫.

Definition observe_system_for_session (session : SessionId) (ev : SystemEvent) (self : EngineMetrics)
    : EngineMetrics :=
  match ev with
  | ParseError _ => self ⟪ parse_failures := add (parse_failures self) 1 ⟫
  | UnknownMessage _ => self ⟪ unknown_messages := add (unknown_messages self) 1 ⟫
  | SequenceGap _ _ => self ⟪ sequence_gaps := add (sequence_gaps self) 1 ⟫
  | ChecksumMismatch _ => self ⟪ checksum_mismatches := add (checksum_mismatches self) 1 ⟫
  | BookInvalidated instrument _ =>
      with_valid_books (fun valid => vb_remove valid session instrument)
        (self ⟪ book_invalidations := add (book_invalidations self) 1 ⟫)
  | BookSnapshotRejected _ _ =>
      self ⟪ book_snapshot_rejections := add (book_snapshot_rejections self) 1 ⟫
  | BookResynchronized instrument =>
      with_valid_books (fun valid => vb_insert valid session instrument)
        (self ⟪ book_resynchronizations := add (book_resynchronizations self) 1 ⟫)
  | EventsDropped count _ => self ⟪ events_dropped := add (events_dropped self) count ⟫
  | EngineStateChanged _ | ConnectionStateChanged _ | SubscriptionStateChanged _
  | InstrumentCatalogUpdated _ | HeartbeatMissed | RateLimited | QueuePressure _
  | RecordingRotated | DiskPressure | ClockJump _ | SinkStateChanged _ | ShutdownStarted
  | ShutdownCompleted => self
  end.

Definition observe_system (ev : SystemEvent) : EngineMetrics -> EngineMetrics :=
  observe_system_for_session 0 ev.

Definition clear_valid_books_for_session (session : SessionId) (self : EngineMetrics) : EngineMetrics :=
  with_valid_books (fun valid => clear_session valid session) self.

(** ** The gauge counts the distinct valid books *)

(** The sessions that hold a valid book of an instrument, and the entry the
    reference map has for a count. *)
Definition holders (i : InstrumentId) (m : BTreeMap SessionId (BTreeSet InstrumentId)) : Z :=
  BTreeMap.sum_by (fun books : BTreeSet InstrumentId => if BTreeSet.contains books i then 1 else 0) m.
Definition entry (n : Z) : option Z := if 0 <? n then Some n else None.

Definition set_wf (p : SessionId * BTreeSet InstrumentId) : Prop := BTreeMap.wf p.2.

Record VBInv (n : Z) (vb : ValidBooks) : Prop := {
  vbi_wf : BTreeMap.wf (by_session vb);
  vbi_sets : Forall set_wf (by_session vb);
  vbi_refs_wf : BTreeMap.wf (session_references vb);
  vbi_refs i : BTreeMap.get (session_references vb) i = entry (holders i (by_session vb));
  vbi_len : BTreeMap.len (by_session vb) <= n
}.

Lemma holders_bound i m : 0 <= holders i m <= BTreeMap.len m.
Proof.
  unfold holders, BTreeMap.len. induction m as [|[s books] m IH]; simpl; [lia|].
  destruct (BTreeSet.contains books i); lia.
Qed.

Lemma holders_pos i m :
  BTreeMap.wf m ->
  0 < holders i m <-> exists s, BTreeSet.contains (BTreeMap.get_or m s []) i = true.
Proof.
  intros Hwf. split.
  - intros Hpos. assert (exists s books, (s, books) ∈ m /\ BTreeSet.contains books i = true)
      as (s & books & Hin & Hc).
    { clear Hwf. induction m as [|[s books] m IH]; [by vm_compute in Hpos|].
      destruct (BTreeSet.contains books i) eqn:E; [exists s, books; split; [left|done]|].
      destruct IH as (s' & books' & Hin & Hc);
        [revert Hpos; unfold holders; cbn [BTreeMap.sum_by foldr snd]; by rewrite E|].
      exists s', books'. split; [by right|done]. }
    exists s. unfold BTreeMap.get_or. by rewrite (BTreeMap.elem_get _ _ _ Hwf Hin).
  - intros [s Hs]. unfold BTreeMap.get_or in Hs.
    destruct (BTreeMap.get m s) as [books|] eqn:E; [|done]. cbn in Hs.
    pose proof (BTreeMap.sum_by_get_le
      (fun books : BTreeSet InstrumentId => if BTreeSet.contains books i then 1 else 0) m s books) as H.
    cbn beta in H. rewrite Hs in H. unfold holders. enough (1 <= BTreeMap.sum_by
      (fun books : BTreeSet InstrumentId => if BTreeSet.contains books i then 1 else 0) m) by lia.
    apply H; [|done]. apply Forall_true. intros p. destruct (BTreeSet.contains p.2 i); lia.
Qed.

Lemma set_contains_insert (books : BTreeSet Z) i j :
  BTreeSet.contains (BTreeSet.insert books i) j =
  if bool_decide (j = i) then true else BTreeSet.contains books j.
Proof.
  unfold BTreeSet.contains, BTreeSet.insert, BTreeMap.contains_key. case_bool_decide as Hij.
  - subst. by rewrite BTreeMap.get_insert_eq.
  - by rewrite BTreeMap.get_insert_ne.
Qed.

Lemma set_contains_remove (books : BTreeSet Z) i j :
  BTreeMap.wf books ->
  BTreeSet.contains (BTreeMap.remove books i) j =
  if bool_decide (j = i) then false else BTreeSet.contains books j.
Proof.
  intros Hwf. unfold BTreeSet.contains, BTreeMap.contains_key. case_bool_decide as Hij.
  - subst. by rewrite BTreeMap.get_remove_eq.
  - by rewrite BTreeMap.get_remove_ne.
Qed.

Lemma decrement_get vb i n j :
  BTreeMap.wf (session_references vb) -> BTreeMap.get (session_references vb) i = Some n ->
  0 < n -> fits U64 n ->
  BTreeMap.get (session_references (decrement_reference vb i)) j =
  if bool_decide (j = i) then entry (n - 1) else BTreeMap.get (session_references vb) j.
Proof.
  intros Hwf Hg Hpos Hfit. unfold decrement_reference. rewrite Hg.
  rewrite wrap_fits by solve_fits. unfold entry. destruct (Z.eqb_spec (n - 1) 0) as [E|E]; cbn.
  - case_bool_decide as Hij; [subst; rewrite BTreeMap.get_remove_eq by done|by rewrite BTreeMap.get_remove_ne].
    by rewrite E.
  - case_bool_decide as Hij; [subst; rewrite BTreeMap.get_insert_eq|by rewrite BTreeMap.get_insert_ne].
    by rewrite (proj2 (Z.ltb_lt 0 (n - 1))) by lia.
Qed.

Lemma decrement_keeps vb i :
  BTreeMap.wf (session_references vb) ->
  BTreeMap.wf (session_references (decrement_reference vb i)) /\
  by_session (decrement_reference vb i) = by_session vb.
Proof.
  intros Hwf. unfold decrement_reference.
  destruct (BTreeMap.get (session_references vb) i) as [n|]; [|done].
  destruct (wrap U64 (n - 1) =? 0); cbn; split; try done;
    [by apply BTreeMap.wf_remove|by apply BTreeMap.wf_insert].
Qed.

(** Releasing a list of distinct instruments, each held by somebody. *)
Lemma decrement_all (l : list Z) (h : Z -> Z) vb :
  NoDup l -> BTreeMap.wf (session_references vb) ->
  (forall i, fits U64 (h i)) -> (forall i, i ∈ l -> 0 < h i) ->
  (forall i, BTreeMap.get (session_references vb) i = entry (h i)) ->
  let vb' := foldl decrement_reference vb l in
  BTreeMap.wf (session_references vb') /\ by_session vb' = by_session vb /\
  forall i, BTreeMap.get (session_references vb') i = entry (h i - if bool_decide (i ∈ l) then 1 else 0).
Proof.
  revert h vb. induction l as [|k l IH]; intros h vb Hnd Hwf Hfit Hpos Hg.
  - cbn. split; [done|]. split; [done|]. intros i. by rewrite Z.sub_0_r.
  - apply NoDup_cons in Hnd as [Hk Hnd]. cbn [foldl].
    destruct (decrement_keeps vb k Hwf) as [Hwf1 Hby].
    pose proof (Hpos k (list_elem_of_here _ _)) as Hhk.
    assert (BTreeMap.get (session_references vb) k = Some (h k)) as Hgk.
    { rewrite Hg. unfold entry. by rewrite (proj2 (Z.ltb_lt _ _)). }
    destruct (IH (fun i => if bool_decide (i = k) then h k - 1 else h i) (decrement_reference vb k))
      as (W & B & G); try done.
    + intros i. pose proof (Hfit i). pose proof (Hfit k). case_bool_decide; solve_fits.
    + intros i Hi. case_bool_decide; [congruence|]. apply Hpos. by right.
    + intros i. rewrite (decrement_get _ _ (h k)) by done. by case_bool_decide.
    + split; [done|]. split; [congruence|]. intros i. rewrite G. f_equal.
      destruct (decide (i = k)) as [->|Hik].
      * rewrite (bool_decide_eq_true_2 (k = k)), (bool_decide_eq_true_2 (k ∈ k :: l)),
          (bool_decide_eq_false_2 (k ∈ l)) by (done || left). lia.
      * rewrite (bool_decide_eq_false_2 (i = k)) by done. f_equal.
        rewrite (bool_decide_ext (i ∈ k :: l) (i ∈ l)); [done|]. rewrite elem_of_cons. intuition.
Qed.

(** ** The specification: the set of (session, instrument) pairs *)

Definition book_set := gset (Z * Z).

Definition represents (n : Z) (vb : ValidBooks) (S : book_set) : Prop :=
  VBInv n vb /\ forall s i, (s, i) ∈ S <-> BTreeSet.contains (BTreeMap.get_or (by_session vb) s []) i = true.

Lemma elements_keys (books : BTreeSet Z) i :
  i ∈ BTreeSet.elements books <-> BTreeSet.contains books i = true.
Proof. apply BTreeMap.elem_keys. Qed.

Lemma get_sets_wf vb n s : VBInv n vb -> BTreeMap.wf (BTreeMap.get_or (by_session vb) s []).
Proof.
  intros H. apply (BTreeMap.get_or_Forall (fun b => BTreeMap.wf b)); [apply H|apply BTreeMap.wf_empty].
Qed.

(** The number of holders after the set of one session is replaced. *)
Lemma holders_insert m s (books : BTreeSet InstrumentId) i :
  BTreeMap.wf m ->
  holders i (BTreeMap.insert m s books) =
  holders i m - (if BTreeSet.contains (BTreeMap.get_or m s []) i then 1 else 0)
  + (if BTreeSet.contains books i then 1 else 0).
Proof.
  intros Hwf. unfold holders. rewrite BTreeMap.sum_by_insert by done. unfold BTreeMap.get_or.
  by destruct (BTreeMap.get m s).
Qed.

Lemma holders_remove m s i :
  BTreeMap.wf m ->
  holders i (BTreeMap.remove m s) =
  holders i m - (if BTreeSet.contains (BTreeMap.get_or m s []) i then 1 else 0).
Proof.
  intros Hwf. unfold holders. rewrite BTreeMap.sum_by_remove by done. unfold BTreeMap.get_or.
  by destruct (BTreeMap.get m s).
Qed.

Lemma get_or_insert_set (m : BTreeMap SessionId (BTreeSet InstrumentId)) s (books : BTreeSet InstrumentId) s' :
  BTreeMap.get_or (BTreeMap.insert m s books) s' [] =
  if bool_decide (s' = s) then books else BTreeMap.get_or m s' [].
Proof.
  unfold BTreeMap.get_or. case_bool_decide as E;
    [subst; by rewrite BTreeMap.get_insert_eq|by rewrite BTreeMap.get_insert_ne].
Qed.

Lemma get_or_remove_set (m : BTreeMap SessionId (BTreeSet InstrumentId)) s s' :
  BTreeMap.wf m ->
  BTreeMap.get_or (BTreeMap.remove m s) s' [] =
  if bool_decide (s' = s) then [] else BTreeMap.get_or m s' [].
Proof.
  intros Hwf. unfold BTreeMap.get_or. case_bool_decide as E;
    [subst; by rewrite BTreeMap.get_remove_eq|by rewrite BTreeMap.get_remove_ne].
Qed.

Lemma vb_insert_represents n vb S s i :
  n < int_max U64 -> represents n vb S ->
  represents (n + 1) (vb_insert vb s i) ({[(s, i)]} ∪ S).
Proof.
  intros Hn [HI HS]. pose proof HI as [W F RW R L]. pose proof (get_sets_wf vb n s HI) as Hs.
  set (books := BTreeMap.get_or (by_session vb) s []) in *.
  assert (forall j, BTreeSet.contains (BTreeSet.insert books i) j =
                    if bool_decide (j = i) then true else BTreeSet.contains books j) as Hc
    by (intros; apply set_contains_insert).
  assert (BTreeMap.len (BTreeMap.insert (by_session vb) s (BTreeSet.insert books i)) <= n + 1) as L'
    by (apply BTreeMap.len_insert_le; [done|lia|lia]).
  assert (by_session (vb_insert vb s i) = BTreeMap.insert (by_session vb) s (BTreeSet.insert books i)) as Hby
    by (unfold vb_insert; by destruct (negb _)).
  split; [split|].
  - rewrite Hby. by apply BTreeMap.wf_insert.
  - rewrite Hby. apply BTreeMap.Forall_insert; [done|]. by apply BTreeMap.wf_insert.
  - unfold vb_insert. destruct (negb _); cbn; [by apply BTreeMap.wf_insert|done].
  - intros j. rewrite Hby, holders_insert, Hc by done. fold books. unfold vb_insert. fold books.
    pose proof (holders_bound i (by_session vb)). pose proof (holders_bound j (by_session vb)).
    destruct (BTreeSet.contains books i) eqn:Hi; cbn [negb session_references set_field].
    + rewrite R. f_equal. case_bool_decide; [subst; rewrite Hi|]; lia.
    + case_bool_decide as Hij; [subst; rewrite BTreeMap.get_insert_eq|
        rewrite BTreeMap.get_insert_ne, R by done; f_equal; lia].
      unfold BTreeMap.get_or at 1. rewrite R, Hi. unfold entry.
      destruct (Z.ltb_spec 0 (holders i (by_session vb))); cbn [from_option id];
        rewrite wrap_fits by solve_fits;
        (rewrite (proj2 (Z.ltb_lt 0 _)) by lia; f_equal; lia).
  - by rewrite Hby.
  - intros s' j. rewrite Hby, get_or_insert_set, elem_of_union, elem_of_singleton, HS.
    case_bool_decide as E; [subst s'; rewrite Hc; fold books; case_bool_decide|]; naive_solver.
Qed.

Lemma vb_remove_represents n vb S s i :
  n <= int_max U64 -> represents n vb S -> represents n (vb_remove vb s i) (S ∖ {[(s, i)]}).
Proof.
  intros Hn [HI HS]. pose proof HI as [W F RW R L].
  pose proof (get_sets_wf vb n s HI) as Hs.
  assert (forall i, fits U64 (holders i (by_session vb))) as Hfit
    by (intros j; pose proof (holders_bound j (by_session vb)); solve_fits).
  unfold vb_remove.
  destruct (BTreeMap.get (by_session vb) s) as [books|] eqn:Eg; cycle 1.
  { cbn [fst snd]. rewrite Eg. split; [done|]. intros s' j.
    rewrite elem_of_difference, elem_of_singleton, HS. split; [naive_solver|]. intros Hj. split; [done|].
    intros [= -> ->]. unfold BTreeMap.get_or in Hj. by rewrite Eg in Hj. }
  unfold BTreeMap.get_or in Hs. rewrite Eg in Hs. cbn in Hs.
  set (rest := BTreeMap.remove books i).
  set (vb1 := vb ⟪ by_session := BTreeMap.insert (by_session vb) s rest ⟫).
  set (removed := BTreeSet.contains books i).
  assert (forall j, BTreeSet.contains rest j = if bool_decide (j = i) then false else BTreeSet.contains books j)
    as Hc by (intros; by apply set_contains_remove).
  assert (BTreeMap.get_or (by_session vb) s [] = books) as Hbk by (unfold BTreeMap.get_or; by rewrite Eg).
  set (vb2 := if removed then decrement_reference vb1 i else vb1).
  assert (BTreeMap.wf (session_references vb2) /\ by_session vb2 = by_session vb1) as [RW2 Hby].
  { unfold vb2. destruct removed; [apply decrement_keeps|]; done. }
  assert (forall j, holders j (by_session vb1) =
                    holders j (by_session vb) - if removed && bool_decide (j = i) then 1 else 0) as Hh.
  { intros j. unfold vb1. cbn [by_session set_field]. rewrite holders_insert, Hbk, Hc by done.
    unfold removed. case_bool_decide as Hj; [rewrite Hj|]; destruct (BTreeSet.contains books _); cbn; lia. }
  assert (forall j, BTreeMap.get (session_references vb2) j = entry (holders j (by_session vb1))) as R2.
  { intros j. rewrite Hh. unfold vb2. destruct removed eqn:Er; cbn [andb]; [|rewrite Z.sub_0_r; apply R].
    assert (0 < holders i (by_session vb)) as Hpos
      by (apply holders_pos; [done|]; exists s; by rewrite Hbk).
    rewrite (decrement_get _ _ (holders i (by_session vb))); try done.
    - cbn [vb1 session_references set_field]. case_bool_decide as Hj; [by rewrite Hj|]. by rewrite R, Z.sub_0_r.
    - cbn [vb1 session_references set_field]. rewrite R. unfold entry. by rewrite (proj2 (Z.ltb_lt _ _)). }
  assert (VBInv n vb2) as HI2.
  { split; rewrite ?Hby; try done.
    - by apply BTreeMap.wf_insert.
    - apply BTreeMap.Forall_insert; [done|]. by apply BTreeMap.wf_remove.
    - apply BTreeMap.len_insert_le; [done|done|congruence]. }
  assert (forall s' j, (s', j) ∈ S ∖ {[(s, i)]} <->
            BTreeSet.contains (BTreeMap.get_or (by_session vb2) s' []) j = true) as HS2.
  { intros s' j. rewrite elem_of_difference, elem_of_singleton, HS, Hby. unfold vb1. cbn [by_session set_field].
    rewrite get_or_insert_set. case_bool_decide as E; [subst s'; rewrite Hbk, Hc; case_bool_decide|];
      naive_solver. }
  destruct (BTreeMap.get (by_session vb2) s) as [[|]|] eqn:E2; try done.
  destruct HI2 as [W2 F2 RW2' R2' L2].
  assert (forall s', BTreeMap.get_or (BTreeMap.remove (by_session vb2) s) s' [] =
                     BTreeMap.get_or (by_session vb2) s' []) as Hsame.
  { intros s'. rewrite get_or_remove_set by done. case_bool_decide; [|done]. subst.
    unfold BTreeMap.get_or. by rewrite E2. }
  split; [split|]; cbn [by_session session_references set_field]; try done.
  - by apply BTreeMap.wf_remove.
  - by apply BTreeMap.Forall_remove.
  - intros j. rewrite holders_remove, R2' by done. f_equal. unfold BTreeMap.get_or. rewrite E2.
    cbn [default]. cbn. lia.
  - pose proof (BTreeMap.length_remove_le (by_session vb2) s). unfold BTreeMap.len in *. lia.
  - intros s' j. by rewrite Hsame.
Qed.

Lemma clear_session_represents n vb S s :
  n <= int_max U64 -> represents n vb S ->
  represents n (clear_session vb s) (filter (fun p => p.1 <> s) S).
Proof.
  intros Hn [HI HS]. pose proof HI as [W F RW R L]. unfold clear_session.
  destruct (BTreeMap.get (by_session vb) s) as [books|] eqn:Eg; cycle 1.
  { split; [done|]. intros s' j. rewrite elem_of_filter, HS. cbn. split; [naive_solver|]. intros Hj.
    split; [|done]. intros ->. unfold BTreeMap.get_or in Hj. by rewrite Eg in Hj. }
  assert (BTreeMap.get_or (by_session vb) s [] = books) as Hbk by (unfold BTreeMap.get_or; by rewrite Eg).
  pose proof (get_sets_wf vb n s HI) as Hs. rewrite Hbk in Hs.
  set (vb1 := vb ⟪ by_session := BTreeMap.remove (by_session vb) s ⟫).
  destruct (decrement_all (BTreeSet.elements books) (fun i => holders i (by_session vb)) vb1)
    as (W' & B & G); try done.
  - by apply BTreeMap.keys_NoDup.
  - intros i. pose proof (holders_bound i (by_session vb)). solve_fits.
  - intros i Hi%elements_keys. apply holders_pos; [done|]. exists s. by rewrite Hbk.
  - change (by_session vb1) with (BTreeMap.remove (by_session vb) s) in B.
    split; [split|]; rewrite ?B; try done.
    + by apply BTreeMap.wf_remove.
    + by apply BTreeMap.Forall_remove.
    + intros i. rewrite G, holders_remove, Hbk by done. f_equal. f_equal.
      case_bool_decide as Hi; rewrite elements_keys in Hi; by destruct (BTreeSet.contains books i).
    + pose proof (BTreeMap.length_remove_le (by_session vb) s). unfold BTreeMap.len in *. lia.
    + intros s' j. rewrite get_or_remove_set, elem_of_filter, HS by done. cbn.
      case_bool_decide; naive_solver.
Qed.

(** The reference map has one entry per instrument somebody holds. *)
Lemma represents_count n vb S :
  represents n vb S -> unique_count vb = Z.of_nat (size (set_map snd S : gset Z)).
Proof.
  intros [[W F RW R L] HS]. unfold unique_count, BTreeMap.len. f_equal.
  rewrite <- (length_fmap fst (session_references vb)). symmetry.
  change (length (fst <$> session_references vb)) with (length (BTreeMap.keys (session_references vb))).
  rewrite <- (size_list_to_set (C := gset Z) (BTreeMap.keys (session_references vb)))
    by (by apply BTreeMap.keys_NoDup).
  f_equal. apply leibniz_equiv. intros i.
  rewrite elem_of_list_to_set, BTreeMap.elem_keys, elem_of_map. unfold BTreeMap.contains_key.
  rewrite R. unfold entry. pose proof (holders_pos i (by_session vb) W) as Hp.
  destruct (Z.ltb_spec 0 (holders i (by_session vb))) as [Hpos|Hpos].
  - apply Hp in Hpos as [s Hs]. split; [done|]. intros _. exists (s, i). by rewrite HS.
  - split; [|done]. intros ([s j] & -> & Hin). apply HS in Hin. cbn in *. enough (0 < holders j (by_session vb)) by lia.
    apply Hp. eauto.
Qed.

(** ** Every history *)

Inductive book_op := Observed (session : SessionId) (ev : SystemEvent) | Cleared (session : SessionId).

Definition metrics_op (m : EngineMetrics) (op : book_op) : EngineMetrics :=
  match op with
  | Observed session ev => observe_system_for_session session ev m
  | Cleared session => clear_valid_books_for_session session m
  end.

Definition spec_op (S : book_set) (op : book_op) : book_set :=
  match op with
  | Observed session (BookResynchronized instrument) => {[(session, instrument)]} ∪ S
  | Observed session (BookInvalidated instrument _) => S ∖ {[(session, instrument)]}
  | Observed _ _ => S
  | Cleared session => filter (fun p => p.1 <> session) S
  end.

Lemma represents_le n n' vb S : n <= n' -> represents n vb S -> represents n' vb S.
Proof. intros Hle [[]]. split; [split|]; try done. lia. Qed.

Lemma metrics_ops_represent ops :
  Z.of_nat (length ops) <= int_max U64 ->
  let m := foldl metrics_op metrics_new ops in
  represents (Z.of_nat (length ops)) (valid_books_by_session m) (foldl spec_op ∅ ops) /\
  valid_books m = unique_count (valid_books_by_session m).
Proof.
  induction ops as [|op ops IH] using rev_ind; intros Hn.
  { cbn. split; [|done]. split; [|by intros s i; rewrite elem_of_empty].
    split; try done; try apply BTreeMap.wf_empty. }
  rewrite length_app, Nat2Z.inj_add in Hn |- *. cbn [length] in *.
  destruct (IH ltac:(lia)) as [HR Hg]. rewrite !foldl_app. cbn [foldl].
  set (m := foldl metrics_op metrics_new ops) in *. set (S := foldl spec_op ∅ ops) in *.
  assert (represents (Z.of_nat (length ops) + Z.of_nat 1) (valid_books_by_session m) S) as HR'
    by (eapply represents_le; [|exact HR]; lia).
  destruct op as [s ev|s]; cbn [metrics_op spec_op].
  - destruct ev; cbn [observe_system_for_session]; try done; (split; [|done]).
    + by apply vb_remove_represents.
    + apply vb_insert_represents; [lia|done].
  - split; [|done]. by apply clear_session_represents.
Qed.

(** The readiness gauge, after any history of system events and session
    resets, is the number of distinct instruments that some session has
    resynchronised since it last invalidated them or was cleared: an
    instrument shared by two sessions counts once and survives the loss of
    one of them. *)
Theorem valid_books_gauge ops :
  Z.of_nat (length ops) <= int_max U64 ->
  valid_books (foldl metrics_op metrics_new ops) =
  Z.of_nat (size (set_map snd (foldl spec_op ∅ ops) : gset Z)).
Proof.
  intros Hn. destruct (metrics_ops_represent ops Hn) as [HR ->]. by eapply represents_count.
Qed.

Definition shared_book : list book_op :=
  [Observed 1 (BookResynchronized 7); Observed 2 (BookResynchronized 7); Observed 1 (BookResynchronized 8);
   Observed 2 (BookInvalidated 9 "gap"); Cleared 1].

Lemma valid_books_gauge_witness :
  valid_books (foldl metrics_op metrics_new shared_book) = 1 /\
  valid_books (foldl metrics_op metrics_new shared_book) =
  Z.of_nat (size (set_map snd (foldl spec_op ∅ shared_book) : gset Z)).
Proof. split; [vm_compute; reflexivity|]. apply (valid_books_gauge shared_book). vm_compute. discriminate. Defined.
