(* ===== verification/Runner.v ===== *)
(** * The session runner ([crates/engine/src/runner.rs])

    Stamp, record, feed the session machine, dispatch what it asks for: the
    runner owns one machine, its dispatcher, the pending outbound work, its
    timers, the bounded diagnostic mirrors and the raw recorder.  The model
    is parametric in the machine (class [SessionMachine]), in the files of
    the recording handle and in the readings of the monotonic clock. *)

From stdpp Require Import base tactics numbers strings option list.
From Stdlib Require Import ZArith Lia.
From S2P Require Import Prelude Bytes Collections Fixed Model Dispatch Recording RecordingHttp RecordingPipeline RecordingHandle Sinks Session RecordingControl Metrics.

Local Open Scope Z_scope.

(** ** States and errors ([state.rs], [error.rs], [transport/src]) *)

Inductive SessionLifecycle :=
  | LcPlanned | LcConnecting | LcConnected | LcSubscribing | LcSynchronizing | LcLive | LcDegraded
  | LcBackoff | LcDraining | LcStopped.

Inductive TransportError :=
  | NotConnected | TransportClosed | FrameTooLarge (bytes : Z) | TransportTimeout
  | Tls (detail : string) | TransportProtocol (detail : string) | TransportIo (detail : string)
  | Stub (detail : string).

Inductive EngineError :=
  | AdapterErr (e : AdapterError)
  | DispatchErr (e : DispatchError)
  | RecordingErr (e : RecordingError)
  | TransportErr (e : TransportError)
  | EngineStopped
  | SessionNotFound
  | InternalErr (detail : string).

(** [FrameOpcode] of the transport. *)
Inductive WsOpcode := WsText | WsBinary | WsPing | WsPong | WsClose.
Record OutboundFrame := mkOutboundFrame { of_opcode : WsOpcode; of_payload : list Z }.

Definition MAX_SESSION_TIMERS : Z := 32.
Definition MAX_TIMER_FIRES_PER_POLL : Z := 64.
Definition MAX_PENDING_WRITES : Z := 256.
Definition MAX_PENDING_HTTP : Z := 64.

Inductive MirrorPush := MirrorOk | MirrorDropped (detail : string).

Definition sink_to_engine (err : SinkError) : EngineError :=
  match err with
  | SinkFailEngine => DispatchErr EngineFailed
  | SinkDeadlineExceeded => DispatchErr DeadlineExceeded
  | SinkUnsupportedPolicy p => DispatchErr (UnsupportedPolicy p)
  | SinkIo msg => InternalErr ("sink io: " +:+ msg)
  | SinkUnsupported msg => InternalErr ("sink unsupported: " +:+ msg)
  end.

(** ** The runner *)

(** The plain values of the configuration; the shared objects it carries
    (recording handle, metrics, live and stop flags) are part of the runner's
    state below, since the runner is what changes them here. *)
Record SessionRunnerConfig := mkSessionRunnerConfig {
  cfg_venue : VenueId;
  cfg_connection : ConnectionId;
  cfg_session : SessionId;
  cfg_dispatch_capacity : Z;
  cfg_overflow : OverflowPolicy;
  cfg_record : bool;
  cfg_mirror_capacity : Z
}.

Definition default_config : SessionRunnerConfig :=
  mkSessionRunnerConfig 0 1 1 1024 FailEngine true 1024.

Record SessionRunner (M FS : Type) := mkSessionRunner {
  sr_cfg : SessionRunnerConfig;
  sr_machine : M;
  sr_dispatch : EventDispatcher;
  sr_actions : ActionBuffer;
  sr_recorder : option (RawSegmentWriter (list Z));
  sr_recording_pipeline : option (RecordingHandle FS);
  sr_lifecycle : SessionLifecycle;
  sr_inbound_frame_seq : Z;
  sr_market_batches : list EventBatch;
  sr_system_events : list SystemEvent;
  sr_other_actions : list SessionAction;
  sr_pending_writes : list OutboundFrame;
  sr_pending_http : list HttpRequestSpec;
  sr_timers : BTreeMap Z TimestampNs;
  sr_reconnect_requested : bool;
  sr_stop_requested : bool;
  sr_metrics : EngineMetrics;
  sr_live_signal : option bool;
  sr_stop_signal : option bool;
  sr_ticks : nat
}.
Arguments mkSessionRunner {M FS}.
Arguments sr_cfg {M FS}.
Arguments sr_machine {M FS}.
Arguments sr_dispatch {M FS}.
Arguments sr_actions {M FS}.
Arguments sr_recorder {M FS}.
Arguments sr_recording_pipeline {M FS}.
Arguments sr_lifecycle {M FS}.
Arguments sr_inbound_frame_seq {M FS}.
Arguments sr_market_batches {M FS}.
Arguments sr_system_events {M FS}.
Arguments sr_other_actions {M FS}.
Arguments sr_pending_writes {M FS}.
Arguments sr_pending_http {M FS}.
Arguments sr_timers {M FS}.
Arguments sr_reconnect_requested {M FS}.
Arguments sr_stop_requested {M FS}.
Arguments sr_metrics {M FS}.
Arguments sr_live_signal {M FS}.
Arguments sr_stop_signal {M FS}.
Arguments sr_ticks {M FS}.

#[export] Instance eta_SessionRunner M FS : Eta (SessionRunner M FS) := fun s =>
  mkSessionRunner (sr_cfg s) (sr_machine s) (sr_dispatch s) (sr_actions s) (sr_recorder s)
    (sr_recording_pipeline s) (sr_lifecycle s) (sr_inbound_frame_seq s) (sr_market_batches s)
    (sr_system_events s) (sr_other_actions s) (sr_pending_writes s) (sr_pending_http s)
    (sr_timers s) (sr_reconnect_requested s) (sr_stop_requested s) (sr_metrics s)
    (sr_live_signal s) (sr_stop_signal s) (sr_ticks s).

(** [Vec] helpers that need no runner. *)
Definition try_push_mirror {T} (capacity : Z) (policy : OverflowPolicy) (item : T)
    : Eff (list T) EngineError MirrorPush := fun vec =>
  if capacity =? 0 then (Ok MirrorOk, vec)
  else if Z.of_nat (length vec) <? capacity then (Ok MirrorOk, vec ++ [item])
  else
    match policy with
    | FailEngine => (Err (DispatchErr EngineFailed), vec)
    | DropNewest => (Ok (MirrorDropped "mirror DropNewest"), vec)
    | DropOldest => (Ok (MirrorDropped "mirror DropOldest"), drop 1 vec ++ [item])
    | other => (Err (InternalErr ("mirror overflow unsupported: " +:+ policy_debug other)), vec)
    end.

Definition enqueue_bounded {T} (item : T) (capacity : Z) (policy : OverflowPolicy)
    : Eff (list T) EngineError PushOutcome := fun buf =>
  if Z.of_nat (length buf) <? capacity then (Ok Accepted, buf ++ [item])
  else
    match policy with
    | FailEngine => (Err (DispatchErr EngineFailed), buf)
    | DropNewest => (Ok DroppedNewest, buf)
    | DropOldest => (Ok (DroppedOldest 1), drop 1 buf ++ [item])
    | BlockWithDeadline => (Err (DispatchErr EngineFailed), buf)
    | LatestPerKey | SpillToDisk | DisableSink => (Err (DispatchErr (UnsupportedPolicy policy)), buf)
    end.

(** The outcome of a fallible step as a value. *)
Definition ecatch {S E A} (m : Eff S E A) : Eff S E (result A E) := fun s =>
  let '(r, s) := m s in (Ok r, s).

Definition blen {A} (l : list A) : Z := Z.of_nat (length l).

Section Runner.
Context {M FS : Type} `{SessionMachine M} `{MutationJson}.
Context (clock : nat -> Z).

Abbreviation Runner := (SessionRunner M FS).
Abbreviation Run := (Eff (SessionRunner M FS) EngineError).

(** ** Parts of the state *)

Definition metric (f : EngineMetrics -> EngineMetrics) : Run unit :=
  emod (fun s => s ⟪ sr_metrics := f (sr_metrics s) ⟫).

(** [Instant::now()] and [t0.elapsed().as_nanos() as u64]. *)
Definition instant_now : Run Z := fun s =>
  (Ok (clock (sr_ticks s)), s ⟪ sr_ticks := S (sr_ticks s) ⟫).
Definition elapsed_ns (t0 : Z) : Run Z :=
  let! t := instant_now in eret (wrap U64 (Z.max 0 (t - t0))).

Definition on_dispatch {A} (m : Eff EventDispatcher DispatchError A) : Run A := fun s =>
  let '(r, d) := m (sr_dispatch s) in (map_err DispatchErr r, s ⟪ sr_dispatch := d ⟫).

(** [self.machine.f(.., &mut self.actions)?]. *)
Definition on_machine {A} (m : Eff (M * ActionBuffer) AdapterError A) : Run A := fun s =>
  let '(r, (machine, actions)) := m (sr_machine s, sr_actions s) in
  (map_err AdapterErr r, s ⟪ sr_machine := machine ⟫ ⟪ sr_actions := actions ⟫).

Definition clear_actions : Run unit := emod (fun s => s ⟪ sr_actions := ab_clear (sr_actions s) ⟫).

Definition mirror_capacity (self : Runner) : Z :=
  if cfg_mirror_capacity (sr_cfg self) =? 0 then 0
  else Z.min (cfg_dispatch_capacity (sr_cfg self)) (cfg_mirror_capacity (sr_cfg self)).

Definition set_live_signal (live : bool) : Run unit :=
  emod (fun s => match sr_live_signal s with
                 | Some _ => s ⟪ sr_live_signal := Some live ⟫
                 | None => s
                 end).

Definition invalidate_live_readiness : Run unit :=
  set_live_signal false !;
  let! s := eget in
  metric (clear_valid_books_for_session (cfg_session (sr_cfg s))).

Definition is_stop_requested (self : Runner) : bool :=
  sr_stop_requested self || default false (sr_stop_signal self).

Definition request_stop : Run unit :=
  emod (fun s => s ⟪ sr_stop_requested := true ⟫) !;
  invalidate_live_readiness !;
  emod (fun s => match sr_stop_signal s with
                 | Some _ => s ⟪ sr_stop_signal := Some true ⟫
                 | None => s
                 end).

Definition set_lifecycle (l : SessionLifecycle) : Run unit := emod (fun s => s ⟪ sr_lifecycle := l ⟫).

(** [None] is the panic of a queue of capacity 0. *)
Definition runner_new (machine : M) (cfg : SessionRunnerConfig)
    (recording_pipeline : option (RecordingHandle FS)) (metrics : option EngineMetrics)
    (live_signal stop_signal : option bool) : option (result Runner EngineError) :=
  let metrics := set_queue_gauges 0 (cfg_dispatch_capacity cfg) 0 (cfg_dispatch_capacity cfg)
                   (default metrics_new metrics) in
  let action_buffer_capacity :=
    Z.max (saturating_mul U64 (cfg_dispatch_capacity cfg) 4) DEFAULT_ACTION_BUFFER_CAPACITY in
  let recorder :=
    if cfg_record cfg && negb (bool_decide (is_Some recording_pipeline)) then
      rmap Some (map_err RecordingErr (fst (create (@nil Z) 0)))
    else Ok None in
  match recorder with
  | Err e => Some (Err e)
  | Ok recorder =>
      dispatch ← dispatcher_new (cfg_dispatch_capacity cfg) (cfg_dispatch_capacity cfg) (cfg_overflow cfg);
      Some (Ok (mkSessionRunner cfg machine dispatch (with_capacity action_buffer_capacity) recorder
                  recording_pipeline LcPlanned 0 [] [] [] [] [] [] false false metrics
                  live_signal stop_signal 0))
  end.

(** ** Recording *)

Definition record_frame (frame_seq receive_ts_ns monotonic_ns : Z) (direction : Direction)
    (opcode : FrameOpcode) (payload : list Z) : Run unit :=
  let! s := eget in
  match sr_recording_pipeline s with
  | Some pipeline =>
      let '(r, pipeline) :=
        h_enqueue (mkPendingFrame (cfg_session (sr_cfg s)) frame_seq receive_ts_ns monotonic_ns
                     direction opcode 0 payload) pipeline in
      eput (s ⟪ sr_recording_pipeline := Some pipeline ⟫) !;
      let! outcome := elift (map_err RecordingErr r) in
      match outcome with
      | EnqAccepted => eret tt
      | _ => metric record_queue_overflow
      end
  | None =>
      match sr_recorder s with
      | Some recorder =>
          let '(r, recorder) :=
            write_record (cfg_session (sr_cfg s)) frame_seq receive_ts_ns monotonic_ns direction
              opcode 0 payload recorder in
          eput (s ⟪ sr_recorder := Some recorder ⟫) !;
          elift (map_err RecordingErr r)
      | None => eret tt
      end
  end.

Definition record_outbound (opcode : FrameOpcode) (payload : list Z) (now : TimestampNs) : Run unit :=
  let! s := eget in
  record_frame (sr_inbound_frame_seq s) now (wrap U64 now) Outbound opcode payload.

Definition record_subscription_command (command : SessionCommand) (wire : SubscriptionWireAction)
    (now : TimestampNs) : Run unit :=
  let! s := eget in
  match sr_recording_pipeline s, sr_recorder s with
  | None, None => eret tt
  | _, _ =>
      let! payload := elift (map_err RecordingErr (encode_subscription_command command wire)) in
      record_frame (sr_inbound_frame_seq s) now (default 0 (to_ty U64 now)) Inbound
        OpSubscriptionCommand payload
  end.

Definition recording_bytes (self : Runner) : option (list Z) := rw_writer <$> sr_recorder self.

(** [take_recording(self)] consumes the runner. *)
Definition take_recording (self : Runner) : option (list Z) := rw_writer <$> sr_recorder self.

(** ** Mirrors and dispatch *)

Definition push_mirror_system (ev : SystemEvent) : Run unit :=
  let! s := eget in
  let '(r, vec) := try_push_mirror (mirror_capacity s) (cfg_overflow (sr_cfg s)) ev (sr_system_events s) in
  eput (s ⟪ sr_system_events := vec ⟫) !;
  let! push := elift r in
  match push with
  | MirrorOk => eret tt
  | MirrorDropped _ => metric (record_events_dropped 1)
  end.

Definition emit_events_dropped (count : Z) (detail : string) : Run unit :=
  metric (record_events_dropped count) !;
  let ev := EventsDropped count detail in
  let! outcome := on_dispatch (Dispatch.push_system ev) in
  match outcome with
  | Accepted => push_mirror_system ev
  | DroppedNewest => push_mirror_system ev
  | DroppedOldest dropped => metric (record_events_dropped dropped) !; push_mirror_system ev
  end.

Definition push_mirror_batch (batch : EventBatch) : Run unit :=
  let! s := eget in
  let '(r, vec) := try_push_mirror (mirror_capacity s) (cfg_overflow (sr_cfg s)) batch (sr_market_batches s) in
  eput (s ⟪ sr_market_batches := vec ⟫) !;
  let! push := elift r in
  match push with
  | MirrorOk => eret tt
  | MirrorDropped detail => emit_events_dropped 1 detail
  end.

Definition push_mirror_action (action : SessionAction) : Run unit :=
  let! s := eget in
  let '(r, vec) := try_push_mirror (mirror_capacity s) (cfg_overflow (sr_cfg s)) action (sr_other_actions s) in
  eput (s ⟪ sr_other_actions := vec ⟫) !;
  let! push := elift r in
  match push with
  | MirrorOk => eret tt
  | MirrorDropped _ => metric (record_events_dropped 1)
  end.

Definition refresh_queue_gauges : Run unit :=
  let! s := eget in
  let d := sr_dispatch s in
  metric (set_queue_gauges (queue_len (batches d)) (capacity (batches d))
            (queue_len (systems d)) (capacity (systems d))).

Definition note_push_outcome (lane : string) (outcome : PushOutcome) : Run unit :=
  match outcome with
  | Accepted => eret tt
  | DroppedNewest => metric record_queue_overflow !; emit_events_dropped 1 (lane +:+ " DropNewest")
  | DroppedOldest dropped =>
      metric record_queue_overflow !; emit_events_dropped dropped (lane +:+ " DropOldest")
  end.

Definition note_action_buffer_drops : Run unit :=
  let! s := eget in
  let '(dropped, actions) := take_dropped (sr_actions s) in
  eput (s ⟪ sr_actions := actions ⟫) !;
  if 0 <? dropped then
    metric (record_action_buffer_overflow dropped) !;
    emit_events_dropped dropped "ActionBuffer DropNewest"
  else eret tt.

(** [self.dispatch.push_batch(batch.clone())?] and what follows each outcome,
    the same in the three places that dispatch a batch. *)
Definition dispatch_batch (batch : EventBatch) : Run unit :=
  metric (record_events_normalized (blen (batch_events batch))) !;
  let! outcome := on_dispatch (Dispatch.push_batch batch) in
  match outcome with
  | Accepted => metric record_batch_dispatched !; push_mirror_batch batch
  | DroppedNewest => note_push_outcome "dispatch_batch" outcome
  | DroppedOldest _ =>
      metric record_batch_dispatched !;
      note_push_outcome "dispatch_batch" outcome !;
      push_mirror_batch batch
  end !;
  refresh_queue_gauges.

(** [self.dispatch.push_system(ev.clone())] and what follows each outcome. *)
Definition dispatch_system (ev : SystemEvent) : Run unit :=
  let! outcome := on_dispatch (Dispatch.push_system ev) in
  match outcome with
  | Accepted => push_mirror_system ev
  | DroppedNewest => note_push_outcome "dispatch_system" outcome
  | DroppedOldest _ => note_push_outcome "dispatch_system" outcome !; push_mirror_system ev
  end.

Definition observe_event (ev : SystemEvent) : Run unit :=
  let! s := eget in metric (observe_system_for_session (cfg_session (sr_cfg s)) ev).

Definition runner_push_system (ev : SystemEvent) : Run unit :=
  observe_event ev !; dispatch_system ev.

Definition push_system_best_effort (ev : SystemEvent) : Run unit :=
  let! r := ecatch (runner_push_system ev) in
  if is_ok r then eret tt
  else metric record_queue_overflow !; metric (record_events_dropped 1).

Definition settle_diagnostic_result (r : result unit EngineError) (failures_fatal : bool) : Run unit :=
  match r with
  | Ok _ => eret tt
  | Err error =>
      if failures_fatal then ethrow error
      else metric record_queue_overflow !; metric (record_events_dropped 1)
  end.

Definition status_batch (s : Runner) (message : string) (now : TimestampNs) : EventBatch :=
  let cfg := sr_cfg s in
  mkEventBatch (cfg_session cfg) (sr_inbound_frame_seq s)
    [{| env_schema_version := 1; env_venue := cfg_venue cfg; env_instrument := None;
        env_connection := cfg_connection cfg; env_session := cfg_session cfg;
        env_frame_seq := sr_inbound_frame_seq s; env_event_index := 0; env_exchange_ts := None;
        env_receive_ts := now; env_source_sequence := None; env_flags := EventFlags.empty;
        env_payload := EvVenueStatus (mkVenueStatus message) |}].

Definition emit_venue_status (message : string) (now : TimestampNs) : Run unit :=
  let! s := eget in dispatch_batch (status_batch s message now).

Definition mark_degraded_with_status (message : string) (now : TimestampNs) : Run unit :=
  set_lifecycle LcDegraded !; set_live_signal false !; emit_venue_status message now.

Definition mark_live_with_status (now : TimestampNs) : Run unit :=
  set_lifecycle LcLive !; set_live_signal true !; emit_venue_status "live" now.

Definition catalog_event (s : Runner) (now : TimestampNs) (i : nat) (inst : Instrument) : EventEnvelope :=
  let cfg := sr_cfg s in
  {| env_schema_version := 1; env_venue := cfg_venue cfg; env_instrument := Some (inst_id inst);
     env_connection := cfg_connection cfg; env_session := cfg_session cfg;
     env_frame_seq := sr_inbound_frame_seq s; env_event_index := wrap U16 (Z.of_nat i); env_exchange_ts := None;
     env_receive_ts := now; env_source_sequence := None; env_flags := EventFlags.empty;
     env_payload := EvInstrumentUpdate (mkInstrumentUpdate (inst_status inst)) |}.

Definition publish_catalog_refresh (catalog : CatalogView) (now : TimestampNs) : Run unit :=
  let! s := eget in
  let events := imap (catalog_event s now) (view_instruments catalog) in
  (match events with
   | [] => eret tt
   | _ => dispatch_batch (mkEventBatch (cfg_session (sr_cfg s)) (sr_inbound_frame_seq s) events)
   end) !;
  runner_push_system (InstrumentCatalogUpdated (view_version catalog)).

(** ** Pending work *)

Definition enqueue_pending_write (frame : OutboundFrame) : Run unit :=
  let! s := eget in
  let '(r, buf) := enqueue_bounded frame MAX_PENDING_WRITES (cfg_overflow (sr_cfg s)) (sr_pending_writes s) in
  eput (s ⟪ sr_pending_writes := buf ⟫) !;
  let! outcome := elift r in
  match outcome with
  | Accepted => eret tt
  | DroppedNewest => emit_events_dropped 1 "pending_writes DropNewest"
  | DroppedOldest dropped => emit_events_dropped dropped "pending_writes DropOldest"
  end.

Definition enqueue_pending_http (spec : HttpRequestSpec) : Run unit :=
  let! s := eget in
  let '(r, buf) := enqueue_bounded spec MAX_PENDING_HTTP (cfg_overflow (sr_cfg s)) (sr_pending_http s) in
  eput (s ⟪ sr_pending_http := buf ⟫) !;
  let! outcome := elift r in
  match outcome with
  | Accepted => eret tt
  | DroppedNewest => emit_events_dropped 1 "pending_http DropNewest"
  | DroppedOldest dropped => emit_events_dropped dropped "pending_http DropOldest"
  end.

Definition take_pending_writes : Run (list OutboundFrame) :=
  let! s := eget in
  let writes := sr_pending_writes s in
  eput (s ⟪ sr_pending_writes := [] ⟫) !;
  efor writes (fun w => metric (record_frame_sent (blen (of_payload w)))) !;
  eret writes.

Definition take_pending_http : Run (list HttpRequestSpec) :=
  let! s := eget in
  eput (s ⟪ sr_pending_http := [] ⟫) !;
  eret (sr_pending_http s).

(** ** Applying the machine's actions *)

(** [let result = m; self.settle_diagnostic_result(result, fatal)?]. *)
Definition settled (fatal : bool) (m : Run unit) : Run unit :=
  let! r := ecatch m in settle_diagnostic_result r fatal.

Definition send_recorded (fatal : bool) (now : TimestampNs) (rec_opcode : FrameOpcode)
    (opcode : WsOpcode) (payload : list Z) (action : SessionAction) : Run unit :=
  record_outbound rec_opcode payload now !;
  enqueue_pending_write (mkOutboundFrame opcode payload) !;
  settled fatal (push_mirror_action action).

Definition schedule_timer (spec : TimerSpec) : Run unit :=
  let! s := eget in
  let replacing := BTreeMap.contains_key (sr_timers s) (timer_id spec) in
  if negb replacing && (MAX_SESSION_TIMERS <=? BTreeMap.len (sr_timers s)) then
    emit_events_dropped 1 "schedule_timer map full"
  else eput (s ⟪ sr_timers := BTreeMap.insert (sr_timers s) (timer_id spec) (fire_at spec) ⟫).

Definition apply_action (now : TimestampNs) (system_failures_fatal : bool) (action : SessionAction) : Run unit :=
  match action with
  | EmitBatch batch => dispatch_batch batch
  | EmitSystem ev =>
      observe_event ev !;
      settled system_failures_fatal (dispatch_system ev)
  | SendText payload => send_recorded system_failures_fatal now OpText WsText payload action
  | SendSensitiveText payload => enqueue_pending_write (mkOutboundFrame WsText (expose payload))
  | SendBinary payload => send_recorded system_failures_fatal now OpBinary WsBinary payload action
  | SendPing payload => send_recorded system_failures_fatal now OpPing WsPing payload action
  | RequestHttp spec =>
      enqueue_pending_http spec !;
      settled system_failures_fatal (push_mirror_action action)
  | ScheduleTimer spec => schedule_timer spec !; push_mirror_action action
  | CancelTimer timer_id =>
      emod (fun s => s ⟪ sr_timers := BTreeMap.remove (sr_timers s) timer_id ⟫) !;
      push_mirror_action action
  | MarkLive =>
      set_lifecycle LcLive !; set_live_signal true !;
      push_mirror_action action !; emit_venue_status "live" now
  | MarkDegraded =>
      set_lifecycle LcDegraded !; set_live_signal false !;
      push_mirror_action action !; emit_venue_status "degraded" now
  | Reconnect _ =>
      emod (fun s => s ⟪ sr_reconnect_requested := true ⟫) !;
      set_lifecycle LcBackoff !; invalidate_live_readiness !;
      push_mirror_action action
  | StopSession _ =>
      emod (fun s => s ⟪ sr_stop_requested := true ⟫) !;
      invalidate_live_readiness !;
      push_mirror_action action
  | ResyncInstrument _ | DisableSubscription _ =>
      settled system_failures_fatal (push_mirror_action action)
  end.

Definition apply_actions_with_system_policy (now : TimestampNs) (system_failures_fatal : bool) : Run unit :=
  let! s := eget in
  let '(actions, buffer) := ab_drain (sr_actions s) in
  eput (s ⟪ sr_actions := buffer ⟫) !;
  efor actions (apply_action now system_failures_fatal).

Definition apply_actions (now : TimestampNs) : Run unit := apply_actions_with_system_policy now true.

(** [self.actions.clear(); self.machine.on_input(..)?;
    self.note_action_buffer_drops()?; self.apply_actions(now)?]. *)
Definition feed (input : SessionInput) : Run unit :=
  clear_actions !; on_machine (on_input input).
Definition react (input : SessionInput) (now : TimestampNs) : Run unit :=
  feed input !; note_action_buffer_drops !; apply_actions now.

(** ** Inputs *)

Definition clear_timers : Run unit := emod (fun s => s ⟪ sr_timers := [] ⟫).

Definition on_connected (now : TimestampNs) : Run unit :=
  set_lifecycle LcConnected !;
  clear_timers !;
  react (Connected now) now !;
  emit_venue_status "connected" now.

Definition on_disconnected (reason : DisconnectReason) (now : TimestampNs) : Run unit :=
  set_lifecycle LcDraining !;
  invalidate_live_readiness !;
  clear_timers !;
  react (Disconnected reason now) now !;
  set_lifecycle LcStopped.

Definition on_transport_lost (reason : DisconnectReason) (now : TimestampNs) : Run unit :=
  set_lifecycle LcBackoff !;
  invalidate_live_readiness !;
  clear_timers !;
  react (Disconnected reason now) now !;
  emod (fun s => s ⟪ sr_reconnect_requested := false ⟫).

(** [self.inbound_frame_seq += 1]. *)
Definition next_seq : Run Z :=
  emod (fun s => s ⟪ sr_inbound_frame_seq := wrap U64 (sr_inbound_frame_seq s + 1) ⟫) !;
  let! s := eget in eret (sr_inbound_frame_seq s).

Definition record_inbound (seq : Z) (received : FrameStamp) (opcode : FrameOpcode) (payload : list Z) : Run unit :=
  record_frame seq (stamp_receive_ts received) (stamp_mono_ns received) Inbound opcode payload.

(** [on_text_frame] and [on_binary_frame] differ in the opcode and the
    input. *)
Definition on_data_frame (opcode : FrameOpcode) (input : SessionInput) (bytes : list Z)
    (received : FrameStamp) : Run unit :=
  let! t0 := instant_now in
  metric (record_frame_received (blen bytes)) !;
  let! seq := next_seq in
  record_inbound seq received opcode bytes !;
  clear_actions !;
  let! parse_t0 := instant_now in
  on_machine (on_input input) !;
  let! ns := elapsed_ns parse_t0 in
  metric (observe_parse_duration_ns ns) !;
  note_action_buffer_drops !;
  let! out := ecatch (apply_actions (stamp_receive_ts received)) in
  let! ns := elapsed_ns t0 in
  metric (observe_frame_to_event_ns ns) !;
  elift out.

Definition on_text_frame (bytes : list Z) (received : FrameStamp) : Run unit :=
  on_data_frame OpText (TextFrame bytes received) bytes received.

Definition on_binary_frame (bytes : list Z) (received : FrameStamp) : Run unit :=
  on_data_frame OpBinary (BinaryFrame bytes received) bytes received.

(** [on_ping_frame] and [on_close_frame]: recorded, not delivered. *)
Definition on_control_frame (opcode : FrameOpcode) (payload : list Z) (received : FrameStamp) : Run unit :=
  metric (record_frame_received (blen payload)) !;
  let! seq := next_seq in
  record_inbound seq received opcode payload.

Definition on_ping_frame : list Z -> FrameStamp -> Run unit := on_control_frame OpPing.
Definition on_close_frame : list Z -> FrameStamp -> Run unit := on_control_frame OpClose.

Definition on_pong_frame (payload : list Z) (received : FrameStamp) : Run unit :=
  metric (record_frame_received (blen payload)) !;
  let! seq := next_seq in
  record_inbound seq received OpPong payload !;
  react (Pong payload received) (stamp_receive_ts received).

Definition on_http_response (request_id : Z) (response : HttpResponse) (received : FrameStamp) : Run unit :=
  emod (fun s => s ⟪ sr_inbound_frame_seq := saturating_add U64 (sr_inbound_frame_seq s) 1 ⟫) !;
  let! s := eget in
  let! payload := elift (map_err RecordingErr (encode_http_response request_id response)) in
  metric (record_frame_received (blen payload)) !;
  record_inbound (sr_inbound_frame_seq s) received OpHttpResponse payload !;
  clear_actions !;
  let! parse_t0 := instant_now in
  on_machine (on_input (HttpResponseInput request_id response received)) !;
  let! ns := elapsed_ns parse_t0 in
  metric (observe_parse_duration_ns ns) !;
  note_action_buffer_drops !;
  apply_actions (stamp_receive_ts received).

(** ** Timers *)

Definition next_timer_deadline (self : Runner) : option TimestampNs :=
  match BTreeMap.values (sr_timers self) with
  | [] => None
  | t :: ts => Some (foldl Z.min t ts)
  end.

(** In nanoseconds; the cast wraps a negative difference around. *)
Definition delay_until_next_timer (now : TimestampNs) (self : Runner) : option Z :=
  next ← next_timer_deadline self;
  let delta_ns := saturating_sub I64 next now in
  if delta_ns =? 0 then Some 0 else Some (wrap U64 delta_ns).

Definition timer_count (self : Runner) : Z := BTreeMap.len (sr_timers self).

(** Due timers in the order of their ids. *)
Definition due_timers (now : TimestampNs) (self : Runner) : list Z :=
  (filter (fun p => p.2 <= now) (sr_timers self)).*1.

(** The pass over the due timers; [true] stops the poll. *)
Fixpoint fire_due (now : TimestampNs) (due : list Z) (fired : Z) : Run (Z * bool) :=
  match due with
  | [] => eret (fired, false)
  | timer_id :: due =>
      let! s := eget in
      if negb (BTreeMap.contains_key (sr_timers s) timer_id) then fire_due now due fired
      else
        eput (s ⟪ sr_timers := BTreeMap.remove (sr_timers s) timer_id ⟫) !;
        let fired := fired + 1 in
        react (TimerInput timer_id now) now !;
        if MAX_TIMER_FIRES_PER_POLL <=? fired then eret (fired, true)
        else fire_due now due fired
  end.

(** A pass fires at least the first due timer, so that the limit is enough
    fuel; [None] would mean that it was not. *)
Fixpoint poll_loop (fuel : nat) (now : TimestampNs) (fired : Z) : Run (option unit) :=
  if fired <? MAX_TIMER_FIRES_PER_POLL then
    match fuel with
    | O => eret None
    | S fuel =>
        let! s := eget in
        match due_timers now s with
        | [] => eret (Some tt)
        | due =>
            let! p := fire_due now due fired in
            if snd p then eret (Some tt) else poll_loop fuel now (fst p)
        end
    end
  else eret (Some tt).

Definition poll_timers (now : TimestampNs) : Run (option unit) :=
  poll_loop (Z.to_nat MAX_TIMER_FIRES_PER_POLL) now 0.

(** ** Control *)

(** The pending frame and the mirrored action of a wire action. *)
Definition wire_frames (wire : SubscriptionWireAction) : OutboundFrame * SessionAction :=
  match wire with
  | WireText payload => (mkOutboundFrame WsText payload, SendText payload)
  | WireBinary payload => (mkOutboundFrame WsBinary payload, SendBinary payload)
  | WirePing payload => (mkOutboundFrame WsPing payload, SendPing payload)
  end.

Definition deliver_subscription_control (command : SessionCommand) (now : TimestampNs) : Run unit :=
  let! s := eget in
  if MAX_PENDING_WRITES <=? blen (sr_pending_writes s) then ethrow (DispatchErr EngineFailed) else
  let! wire := elift (map_err AdapterErr (prepare_dynamic_subscription command (sr_machine s))) in
  let '(pending, mirror) := wire_frames wire in
  record_subscription_command command wire now !;
  emod (fun s => s ⟪ sr_pending_writes := sr_pending_writes s ++ [pending] ⟫) !;
  emod (fun s => s ⟪ sr_machine := commit_dynamic_subscription command (sr_machine s) ⟫) !;
  settled false (push_mirror_action mirror).

Definition deliver_control (command : SessionCommand) (now : TimestampNs) : Run unit :=
  match command with
  | Subscribe _ | Unsubscribe _ | Replace _ => deliver_subscription_control command now
  | Resync _ | Stop =>
      feed (ControlInput command) !;
      note_action_buffer_drops !;
      apply_actions_with_system_policy now false
  end.

Definition note_reconnect : Run unit := metric record_reconnect.

Definition runner_book_snapshot (instrument : InstrumentId) (depth : option Z) (self : Runner)
    : option BookSnapshot := book_snapshot instrument depth (sr_machine self).

(** ** Consuming the dispatcher *)

Fixpoint mirror_all {T} (cap : Z) (policy : OverflowPolicy) (l vec : list T) : list T :=
  match l with
  | [] => vec
  | x :: l => mirror_all cap policy l (snd (try_push_mirror cap policy x vec))
  end.

Definition drain_dispatch : Run (Z * Z) := fun s =>
  let '(bs, d) := drain_batches (sr_dispatch s) in
  let '(ss, d) := drain_systems d in
  let cap := mirror_capacity s in
  let policy := cfg_overflow (sr_cfg s) in
  (Ok (blen bs, blen ss),
   s ⟪ sr_dispatch := d ⟫
     ⟪ sr_market_batches := mirror_all cap policy bs (sr_market_batches s) ⟫
     ⟪ sr_system_events := mirror_all cap policy ss (sr_system_events s) ⟫).

Definition dispatch_pending (self : Runner) : Z * Z :=
  (queue_len (batches (sr_dispatch self)), queue_len (systems (sr_dispatch self))).

(** [consume_dispatch(Some(sink))]: the sink is the second half of the state;
    [None] would mean that the forwarding loop ran out of fuel. *)
Definition consume_to_sink {S} `{EventSink S} : Eff (Runner * S) EngineError (option unit) :=
  fun '(s, sink) =>
  let '(t0, s) := (clock (sr_ticks s), s ⟪ sr_ticks := Datatypes.S (sr_ticks s) ⟫) in
  match forward_dispatcher (sr_dispatch s) sink with
  | None => (Ok None, (s, sink))
  | Some (out, d, sink) =>
      let '(r, s) :=
        (let! ns := elapsed_ns t0 in
         metric (observe_sink_write_ns ns) !;
         let! report := elift (map_err sink_to_engine out) in
         let dropped := report_dropped_total report in
         if 0 <? dropped then emit_events_dropped dropped "configured sink overflow policy"
         else eret tt) (s ⟪ sr_dispatch := d ⟫) in
      (rmap (fun _ => Some tt) r, (s, sink))
  end.

(** [consume_dispatch(None)]. *)
Definition consume_null : Run unit := drain_dispatch !; eret tt.
End Runner.
