(* ===== verification/RunnerBounds.v ===== *)
(** * What the session runner promises

    Every buffer the runner owns stays within its bound on every path, errors
    included; a dynamic subscription is all or nothing; a poll of the timers
    ends and fires only due ones; credentials never reach the recorder or a
    mirror. *)

From stdpp Require Import base tactics numbers strings option list.
From Stdlib Require Import ZArith Lia.
From S2P Require Import Prelude Bytes Collections Fixed Model Dispatch Recording RecordingHttp RecordingPipeline RecordingHandle Sinks Session RecordingControl Metrics Runner.

Local Open Scope Z_scope.

(** ** Invariants of methods *)

Section Keeps.
Context {S E : Type} (P : S -> Prop).

(** [P] after [m] run from one state, and from every state where it holds. *)
Definition after {A} (m : Eff S E A) (s : S) : Prop := P (snd (m s)).
Definition keeps {A} (m : Eff S E A) : Prop := forall s, P s -> after m s.

Lemma after_keeps {A} (m : Eff S E A) s : P s -> keeps m -> after m s.
Proof. intros Hs Hm. by apply Hm. Qed.

Lemma after_bind {A B} (m : Eff S E A) (k : A -> Eff S E B) s :
  after m s -> (forall a s', P s' -> after (k a) s') -> after (ebind m k) s.
Proof. unfold after, ebind. intros Hm Hk. destruct (m s) as [[a|e] s1]; [by apply Hk|done]. Qed.

Lemma keeps_bind {A B} (m : Eff S E A) (k : A -> Eff S E B) :
  keeps m -> (forall a, keeps (k a)) -> keeps (ebind m k).
Proof. intros Hm Hk s Hs. apply after_bind; [by apply Hm|]. intros a s'. apply Hk. Qed.

Lemma keeps_get {B} (k : S -> Eff S E B) : (forall s, P s -> after (k s) s) -> keeps (ebind eget k).
Proof. intros Hk s Hs. exact (Hk s Hs). Qed.

Lemma after_put {B} (k : Eff S E B) s s' : P s' -> keeps k -> after (eput s' !; k) s.
Proof. intros Hs Hk. exact (Hk s' Hs). Qed.

Lemma after_eput s s' : P s' -> after (eput (E := E) s') s.
Proof. done. Qed.

Lemma keeps_ret {A} (a : A) : keeps (eret a).
Proof. by intros s Hs. Qed.
Lemma keeps_throw {A} (e : E) : keeps (ethrow (A := A) e).
Proof. by intros s Hs. Qed.
Lemma keeps_lift {A} (r : result A E) : keeps (elift r).
Proof. by intros s Hs. Qed.
Lemma keeps_mod (f : S -> S) : (forall s, P s -> P (f s)) -> keeps (emod f).
Proof. intros Hf s Hs. by apply Hf. Qed.

Lemma keeps_catch {A} (m : Eff S E A) : keeps m -> keeps (ecatch m).
Proof. intros Hm s Hs. specialize (Hm s Hs). unfold after, ecatch in *. by destruct (m s). Qed.

Lemma keeps_for {A} (l : list A) (body : A -> Eff S E unit) :
  (forall x, keeps (body x)) -> keeps (efor l body).
Proof.
  intros Hb. induction l as [|x l IH]; [apply keeps_ret|]. cbn [efor]. apply keeps_bind; [apply Hb|by intros].
Qed.
End Keeps.

Create HintDb keeps.
#[export] Hint Resolve keeps_ret keeps_throw keeps_lift keeps_catch keeps_for : keeps.

(** One step into the syntax of a method. *)
Ltac keep1 :=
  match goal with
  | |- keeps _ _ => solve [eauto 3 with keeps nocore]
  | |- keeps _ (ebind eget _) => apply keeps_get; intros ? ?
  | |- keeps _ (ebind _ _) => apply keeps_bind; [|intros ?]
  | |- keeps _ (emod _) => apply keeps_mod; intros ? ?
  | |- keeps _ (match ?x with _ => _ end) => destruct x
  | |- after _ (match ?x with _ => _ end) _ => destruct x eqn:?
  | |- after _ (ebind (eput _) _) _ => apply after_put
  | |- after _ (eput _) _ => apply after_eput
  | |- after _ (ebind _ _) _ => apply after_bind; [|intros ? ? ?]
  | H : ?P ?s |- after ?P ?m ?s => apply (after_keeps P m s H)
  end.
Ltac keep := repeat keep1.

(** ** Bounds *)

Section Bounds.
Context {M FS : Type} `{SessionMachine M} `{MutationJson}.
Context (clock : nat -> Z) (cfg0 : SessionRunnerConfig).
Abbreviation Runner := (SessionRunner M FS).

Definition buffer_ok (b : ActionBuffer) : Prop :=
  1 <= ab_capacity b /\ blen (ab_actions b) <= ab_capacity b /\ fits U64 (ab_dropped b).

Definition lane_ok {T} (cfg : SessionRunnerConfig) (q : BoundedQueue T) : Prop :=
  queue_ok q /\ capacity q = cfg_dispatch_capacity cfg /\ policy q = cfg_overflow cfg.

Record Bounded (s : Runner) : Prop := {
  bd_cfg : sr_cfg s = cfg0;
  bd_batches : lane_ok (sr_cfg s) (batches (sr_dispatch s));
  bd_systems : lane_ok (sr_cfg s) (systems (sr_dispatch s));
  bd_actions : buffer_ok (sr_actions s);
  bd_market : blen (sr_market_batches s) <= mirror_capacity s;
  bd_system : blen (sr_system_events s) <= mirror_capacity s;
  bd_other : blen (sr_other_actions s) <= mirror_capacity s;
  bd_writes : blen (sr_pending_writes s) <= MAX_PENDING_WRITES;
  bd_http : blen (sr_pending_http s) <= MAX_PENDING_HTTP;
  bd_timers_wf : BTreeMap.wf (sr_timers s);
  bd_timers : BTreeMap.len (sr_timers s) <= MAX_SESSION_TIMERS;
  bd_seq : fits U64 (sr_inbound_frame_seq s)
}.

(** A machine that leaves its output buffer in order. *)
Class OrderlyMachine : Prop := {
  orderly_input i m b : buffer_ok b -> buffer_ok (snd (snd (on_input i (m, b))))
}.
Context `{!OrderlyMachine}.

Abbreviation keepsB := (keeps (E := EngineError) Bounded).

Lemma keeps_metric f : keepsB (metric f).
Proof. intros s []. by split. Qed.
Lemma keeps_instant : keepsB (instant_now clock).
Proof. intros s []. by split. Qed.
Lemma keeps_live b : keepsB (set_live_signal b).
Proof. apply keeps_mod. intros s Hs. destruct (sr_live_signal s); [|done]. destruct Hs. by split. Qed.
Lemma keeps_lifecycle l : keepsB (set_lifecycle l).
Proof. intros s []. by split. Qed.
Lemma keeps_clear_actions : keepsB clear_actions.
Proof.
  intros s []. split; try done. destruct bd_actions0 as (? & ? & ?). split_and! ; try done. unfold blen. cbn. lia.
Qed.
Lemma keeps_clear_timers : keepsB clear_timers.
Proof. intros s []. split; try done. apply BTreeMap.wf_empty. Qed.
Lemma keeps_next_seq : keepsB next_seq.
Proof. intros s []. split; try done. apply wrap_range. Qed.

Lemma keeps_on_machine i : keepsB (on_machine (on_input i)).
Proof.
  intros s []. pose proof (orderly_input i (sr_machine s) (sr_actions s) ltac:(done)) as Hb.
  unfold after, on_machine. destruct (on_input i (sr_machine s, sr_actions s)) as [r [m b]]. by split.
Qed.

Lemma lane_push {T} cfg (x : T) q : lane_ok cfg q -> lane_ok cfg (snd (try_push x q)).
Proof.
  intros (Hq & Hc & Hp). destruct (push_keeps q x _ _ Hq (try_push_outcome q x)) as (? & E1 & E2).
  unfold lane_ok. by rewrite E1, E2.
Qed.

Lemma keeps_push_batch b : keepsB (on_dispatch (push_batch b)).
Proof.
  intros s []. pose proof (lane_push _ b _ bd_batches0) as Hl. unfold after, on_dispatch, push_batch, ezoom.
  destruct (try_push b (batches (sr_dispatch s))) as [r q]. by split.
Qed.

Lemma keeps_push_sys e : keepsB (on_dispatch (push_system e)).
Proof.
  intros s []. pose proof (lane_push _ e _ bd_systems0) as Hl. unfold after, on_dispatch, push_system, ezoom.
  destruct (try_push e (systems (sr_dispatch s))) as [r q]. by split.
Qed.

Lemma mirror_bound {T} cap pol (x : T) vec :
  blen vec <= cap -> blen (snd (try_push_mirror cap pol x vec)) <= cap.
Proof.
  intros Hl. unfold try_push_mirror. destruct (Z.eqb_spec cap 0); [done|].
  destruct (Z.ltb_spec (Z.of_nat (length vec)) cap); [unfold blen in *; cbn; rewrite length_app; cbn; lia|].
  destruct pol; try done. unfold blen in *. cbn. rewrite length_app, length_drop. cbn. lia.
Qed.

Lemma bounded_enqueue {T} (x : T) cap pol buf :
  0 < cap -> blen buf <= cap -> blen (snd (enqueue_bounded x cap pol buf)) <= cap.
Proof.
  intros Hc Hl. unfold enqueue_bounded.
  destruct (Z.ltb_spec (Z.of_nat (length buf)) cap); [unfold blen in *; cbn; rewrite length_app; cbn; lia|].
  destruct pol; try done. unfold blen in *. cbn. rewrite length_app, length_drop. cbn. lia.
Qed.

(** An assignment that leaves the bounded parts alone. *)
Ltac bnd :=
  match goal with H : Bounded ?s |- Bounded _ => destruct H; split; cbn; try done end.

#[local] Hint Resolve keeps_metric keeps_instant keeps_live keeps_lifecycle keeps_clear_actions
  keeps_clear_timers keeps_next_seq keeps_on_machine keeps_push_batch keeps_push_sys : keeps.

Lemma keeps_elapsed t0 : keepsB (elapsed_ns clock t0).
Proof. unfold elapsed_ns. keep. Qed.

Lemma keeps_invalidate : keepsB invalidate_live_readiness.
Proof. unfold invalidate_live_readiness. keep. Qed.

Lemma keeps_record_frame seq ts mono dir op p : keepsB (record_frame seq ts mono dir op p).
Proof. unfold record_frame. keep; bnd. Qed.

#[local] Hint Resolve keeps_elapsed keeps_invalidate keeps_record_frame : keeps.

Lemma keeps_record_outbound op p now : keepsB (record_outbound op p now).
Proof. unfold record_outbound. keep. Qed.

Lemma keeps_record_subscription c w now : keepsB (record_subscription_command c w now).
Proof. unfold record_subscription_command. keep. Qed.

(** The three mirrors. *)
Lemma keeps_mirror_system ev : keepsB (push_mirror_system ev).
Proof.
  unfold push_mirror_system. apply keeps_get. intros s Hs.
  pose proof (mirror_bound (mirror_capacity s) (cfg_overflow (sr_cfg s)) ev _ (bd_system s Hs)) as Hb.
  destruct (try_push_mirror _ _ ev _) as [r vec]. cbn [snd] in Hb. keep. bnd.
Qed.

Lemma keeps_events_dropped n d : keepsB (emit_events_dropped n d).
Proof. unfold emit_events_dropped. keep; apply keeps_mirror_system. Qed.

Lemma keeps_mirror_batch b : keepsB (push_mirror_batch b).
Proof.
  unfold push_mirror_batch. apply keeps_get. intros s Hs.
  pose proof (mirror_bound (mirror_capacity s) (cfg_overflow (sr_cfg s)) b _ (bd_market s Hs)) as Hb.
  destruct (try_push_mirror _ _ b _) as [r vec]. cbn [snd] in Hb. keep; [bnd|apply keeps_events_dropped].
Qed.

Lemma keeps_mirror_action a : keepsB (push_mirror_action a).
Proof.
  unfold push_mirror_action. apply keeps_get. intros s Hs.
  pose proof (mirror_bound (mirror_capacity s) (cfg_overflow (sr_cfg s)) a _ (bd_other s Hs)) as Hb.
  destruct (try_push_mirror _ _ a _) as [r vec]. cbn [snd] in Hb. keep. bnd.
Qed.

#[local] Hint Resolve keeps_record_outbound keeps_record_subscription keeps_mirror_system
  keeps_events_dropped keeps_mirror_batch keeps_mirror_action : keeps.

Lemma keeps_gauges : keepsB refresh_queue_gauges.
Proof. unfold refresh_queue_gauges. keep. Qed.

Lemma keeps_note_outcome l o : keepsB (note_push_outcome l o).
Proof. unfold note_push_outcome. keep. Qed.

Lemma keeps_note_drops : keepsB note_action_buffer_drops.
Proof.
  unfold note_action_buffer_drops, take_dropped. keep. bnd.
  destruct bd_actions0 as (? & ? & ?). split_and! ; try done.
Qed.

Lemma keeps_settle r fatal : keepsB (settle_diagnostic_result r fatal).
Proof. unfold settle_diagnostic_result. keep. Qed.

#[local] Hint Resolve keeps_gauges keeps_note_outcome keeps_note_drops keeps_settle : keeps.

Lemma keeps_dispatch_batch b : keepsB (dispatch_batch b).
Proof. unfold dispatch_batch. keep. Qed.

Lemma keeps_dispatch_system e : keepsB (dispatch_system e).
Proof. unfold dispatch_system. keep. Qed.

Lemma keeps_observe e : keepsB (observe_event e).
Proof. unfold observe_event. keep. Qed.

#[local] Hint Resolve keeps_dispatch_batch keeps_dispatch_system keeps_observe : keeps.

Lemma keeps_venue_status m now : keepsB (emit_venue_status m now).
Proof. unfold emit_venue_status. keep. Qed.

Lemma keeps_settled fatal m : keepsB m -> keepsB (settled fatal m).
Proof. intros. unfold settled. keep. Qed.

Lemma keeps_pending_write f : keepsB (enqueue_pending_write f).
Proof.
  unfold enqueue_pending_write. apply keeps_get. intros s Hs.
  pose proof (bounded_enqueue f MAX_PENDING_WRITES (cfg_overflow (sr_cfg s)) _ eq_refl (bd_writes s Hs)) as Hb.
  destruct (enqueue_bounded f _ _ _) as [r buf]. cbn [snd] in Hb. keep. bnd.
Qed.

Lemma keeps_pending_http f : keepsB (enqueue_pending_http f).
Proof.
  unfold enqueue_pending_http. apply keeps_get. intros s Hs.
  pose proof (bounded_enqueue f MAX_PENDING_HTTP (cfg_overflow (sr_cfg s)) _ eq_refl (bd_http s Hs)) as Hb.
  destruct (enqueue_bounded f _ _ _) as [r buf]. cbn [snd] in Hb. keep. bnd.
Qed.

Lemma keeps_schedule t : keepsB (schedule_timer t).
Proof.
  unfold schedule_timer. apply keeps_get. intros s Hs.
  destruct (negb _ && _) eqn:E; [by apply keeps_events_dropped|].
  apply after_eput. destruct Hs. split; cbn; try done; [by apply BTreeMap.wf_insert|].
  apply BTreeMap.len_insert_le; [done|done|]. intros Hn. revert E. unfold BTreeMap.contains_key.
  rewrite Hn. cbn [negb andb]. lia.
Qed.

#[local] Hint Resolve keeps_venue_status keeps_settled keeps_pending_write keeps_pending_http keeps_schedule : keeps.

Lemma keeps_cancel t : keepsB (emod (fun s => s ⟪ sr_timers := BTreeMap.remove (sr_timers s) t ⟫)).
Proof.
  apply keeps_mod. intros s Hs. bnd; [by apply BTreeMap.wf_remove|].
  pose proof (BTreeMap.length_remove_le (sr_timers s) t). unfold BTreeMap.len in *. lia.
Qed.

#[local] Hint Resolve keeps_cancel : keeps.

Lemma keeps_apply_action now fatal a : keepsB (apply_action now fatal a).
Proof.
  destruct a; cbn [apply_action]; unfold send_recorded; keep; bnd.
Qed.

Lemma keeps_apply now fatal : keepsB (apply_actions_with_system_policy now fatal).
Proof.
  unfold apply_actions_with_system_policy, ab_drain. keep; [|apply keeps_for; apply keeps_apply_action].
  bnd. destruct bd_actions0 as (? & ? & ?). split_and! ; try done. unfold blen. cbn. lia.
Qed.

Lemma keeps_feed i : keepsB (feed i).
Proof. unfold feed. keep. Qed.

#[local] Hint Resolve keeps_apply keeps_feed : keeps.

Lemma keeps_react i now : keepsB (react i now).
Proof. unfold react, apply_actions. keep. Qed.

Lemma keeps_data_frame op i bytes st : keepsB (on_data_frame clock op i bytes st).
Proof. unfold on_data_frame, record_inbound, apply_actions. keep. Qed.

#[local] Hint Resolve keeps_react keeps_data_frame : keeps.

(** ** The runner's methods *)

(** One call of a method that changes the runner, with the outcome dropped. *)
Inductive RunnerCall :=
  | CallConnected (now : TimestampNs)
  | CallDisconnected (reason : DisconnectReason) (now : TimestampNs)
  | CallTransportLost (reason : DisconnectReason) (now : TimestampNs)
  | CallText (bytes : list Z) (received : FrameStamp)
  | CallBinary (bytes : list Z) (received : FrameStamp)
  | CallPing (bytes : list Z) (received : FrameStamp)
  | CallClose (bytes : list Z) (received : FrameStamp)
  | CallPong (bytes : list Z) (received : FrameStamp)
  | CallHttp (request_id : Z) (response : HttpResponse) (received : FrameStamp)
  | CallPollTimers (now : TimestampNs)
  | CallControl (command : SessionCommand) (now : TimestampNs)
  | CallPushSystem (ev : SystemEvent)
  | CallBestEffort (ev : SystemEvent)
  | CallDegraded (message : string) (now : TimestampNs)
  | CallLive (now : TimestampNs)
  | CallCatalog (catalog : CatalogView) (now : TimestampNs)
  | CallTakeWrites
  | CallTakeHttp
  | CallDrain
  | CallRequestStop
  | CallNoteReconnect.

Definition drop_value {S E A} (m : Eff S E A) : Eff S E unit := m !; eret tt.

Definition run_call (c : RunnerCall) : Eff Runner EngineError unit :=
  match c with
  | CallConnected now => on_connected now
  | CallDisconnected reason now => on_disconnected reason now
  | CallTransportLost reason now => on_transport_lost reason now
  | CallText bytes received => on_text_frame clock bytes received
  | CallBinary bytes received => on_binary_frame clock bytes received
  | CallPing bytes received => on_ping_frame bytes received
  | CallClose bytes received => on_close_frame bytes received
  | CallPong bytes received => on_pong_frame bytes received
  | CallHttp request_id response received => on_http_response clock request_id response received
  | CallPollTimers now => drop_value (poll_timers now)
  | CallControl command now => deliver_control command now
  | CallPushSystem ev => runner_push_system ev
  | CallBestEffort ev => push_system_best_effort ev
  | CallDegraded message now => mark_degraded_with_status message now
  | CallLive now => mark_live_with_status now
  | CallCatalog catalog now => publish_catalog_refresh catalog now
  | CallTakeWrites => drop_value take_pending_writes
  | CallTakeHttp => drop_value take_pending_http
  | CallDrain => drop_value drain_dispatch
  | CallRequestStop => request_stop
  | CallNoteReconnect => note_reconnect
  end.

(** The runner goes on after a failed call: its caller decides. *)
Fixpoint run_calls (cs : list RunnerCall) (s : Runner) : list (result unit EngineError) * Runner :=
  match cs with
  | [] => ([], s)
  | c :: cs => let '(r, s) := run_call c s in let '(rs, s) := run_calls cs s in (r :: rs, s)
  end.

Lemma keeps_fire_due now due fired : keepsB (fire_due now due fired).
Proof.
  revert fired. induction due as [|t due IH]; intros fired; cbn [fire_due]; [apply keeps_ret|].
  apply keeps_get. intros s Hs. destruct (negb _); [by apply IH|].
  apply after_put; [exact (keeps_cancel t s Hs)|]. keep.
Qed.

Lemma keeps_poll fuel now fired : keepsB (poll_loop fuel now fired).
Proof.
  revert fired. induction fuel as [|fuel IH]; intros fired; cbn [poll_loop]; keep; eauto.
  by apply keeps_fire_due.
Qed.

Lemma drained {T} (q : BoundedQueue T) cfg :
  lane_ok cfg q -> lane_ok cfg (q ⟪ items := [] ⟫).
Proof.
  intros ((Hc & Hl & Hd) & Hcap & Hp). split; [|done]. split; [done|]. split; [|done].
  unfold queue_len. cbn. lia.
Qed.

Lemma mirror_all_bound {T} cap pol (l vec : list T) : blen vec <= cap -> blen (mirror_all cap pol l vec) <= cap.
Proof. revert vec. induction l as [|x l IH]; intros vec Hv; [done|]. by apply IH, mirror_bound. Qed.

Lemma drain_dispatch_eq (s : Runner) :
  drain_dispatch s =
  (Ok (blen (items (batches (sr_dispatch s))), blen (items (systems (sr_dispatch s)))),
   s ⟪ sr_dispatch := mkEventDispatcher ((batches (sr_dispatch s)) ⟪ items := [] ⟫)
                        ((systems (sr_dispatch s)) ⟪ items := [] ⟫) ⟫
     ⟪ sr_market_batches := mirror_all (mirror_capacity s) (cfg_overflow (sr_cfg s))
         (items (batches (sr_dispatch s))) (sr_market_batches s) ⟫
     ⟪ sr_system_events := mirror_all (mirror_capacity s) (cfg_overflow (sr_cfg s))
         (items (systems (sr_dispatch s))) (sr_system_events s) ⟫).
Proof.
  unfold drain_dispatch, drain_batches, drain_systems. rewrite drain_queue_all by lia.
  cbn [systems set_field]. by rewrite drain_queue_all by lia.
Qed.

Lemma keeps_drain : keepsB drain_dispatch.
Proof.
  intros s []. unfold after. rewrite drain_dispatch_eq. cbn [snd].
  split; cbn; try done; try (by apply drained); by apply mirror_all_bound.
Qed.

(** What recording a frame may change. *)
Definition recorded (s s' : Runner) : Prop :=
  exists rec pipe met,
    s' = s ⟪ sr_recorder := rec ⟫ ⟪ sr_recording_pipeline := pipe ⟫ ⟪ sr_metrics := met ⟫.

Lemma recorded_refl s : recorded s s.
Proof. exists (sr_recorder s), (sr_recording_pipeline s), (sr_metrics s). by destruct s. Qed.

Lemma record_frame_recorded seq ts mono dir op p s : recorded s (snd (record_frame seq ts mono dir op p s)).
Proof.
  unfold record_frame. unfold ebind at 1, eget at 1.
  destruct (sr_recording_pipeline s) as [h|].
  - destruct (h_enqueue _ h) as [r h']. unfold ebind at 1, eput at 1. rewrite ebind_elift.
    destruct r as [o|e]; cbn [map_err].
    + destruct o; eexists _, _, _; (cbn; reflexivity).
    + eexists _, _, _. cbn. reflexivity.
  - destruct (sr_recorder s) as [w|]; [|apply recorded_refl].
    destruct (write_record _ _ _ _ _ _ _ _ w) as [r w']. eexists _, _, _. cbn. reflexivity.
Qed.

Lemma record_subscription_recorded c w now s : recorded s (snd (record_subscription_command c w now s)).
Proof.
  unfold record_subscription_command. unfold ebind at 1, eget at 1.
  destruct (sr_recording_pipeline s), (sr_recorder s); try apply recorded_refl;
    rewrite ebind_elift; destruct (map_err _ _); try apply recorded_refl; apply record_frame_recorded.
Qed.

(** A diagnostic mirror never fails a settled step. *)
Lemma settled_mirror a (s : Runner) :
  exists met, settled false (push_mirror_action a) s =
    (Ok tt, s ⟪ sr_other_actions :=
                  snd (try_push_mirror (mirror_capacity s) (cfg_overflow (sr_cfg s)) a (sr_other_actions s)) ⟫
              ⟪ sr_metrics := met ⟫).
Proof.
  unfold settled, ecatch, push_mirror_action. unfold ebind, eget.
  destruct (try_push_mirror _ _ a _) as [[[]|e] vec]; cbn; eexists; reflexivity.
Qed.

(** What a dynamic subscription does: refused, it has at most recorded
    something; accepted, the machine is committed to it, its frame is the last
    of the pending writes and it has been recorded. *)
Inductive subscribed (c : SessionCommand) (now : TimestampNs) (s : Runner) : result unit EngineError -> Runner -> Prop :=
  | sub_refused e s' : recorded s s' -> subscribed c now s (Err e) s'
  | sub_committed w s1 met :
      blen (sr_pending_writes s) < MAX_PENDING_WRITES ->
      prepare_dynamic_subscription c (sr_machine s) = Ok w ->
      record_subscription_command c w now s = (Ok tt, s1) ->
      subscribed c now s (Ok tt)
        (s1 ⟪ sr_pending_writes := sr_pending_writes s ++ [fst (wire_frames w)] ⟫
            ⟪ sr_machine := commit_dynamic_subscription c (sr_machine s) ⟫
            ⟪ sr_other_actions := snd (try_push_mirror (mirror_capacity s) (cfg_overflow (sr_cfg s))
                                         (snd (wire_frames w)) (sr_other_actions s)) ⟫
            ⟪ sr_metrics := met ⟫).

Lemma deliver_subscribed c now s r s' :
  deliver_subscription_control c now s = (r, s') -> subscribed c now s r s'.
Proof.
  unfold deliver_subscription_control. unfold ebind at 1, eget at 1.
  destruct (Z.leb_spec MAX_PENDING_WRITES (blen (sr_pending_writes s))) as [|Hw].
  { intros [= <- <-]. constructor. apply recorded_refl. }
  rewrite ebind_elift. destruct (prepare_dynamic_subscription c (sr_machine s)) as [w|e] eqn:Hp; cbn [map_err].
  2: { intros [= <- <-]. constructor. apply recorded_refl. }
  pose proof (record_subscription_recorded c w now s) as Hr.
  destruct (wire_frames w) as [f a] eqn:Ef. unfold ebind at 1.
  destruct (record_subscription_command c w now s) as [[[]|e] s1] eqn:Ec; cbn [snd] in Hr.
  2: { intros [= <- <-]. by constructor. }
  unfold ebind at 1, emod at 1. unfold ebind at 1, emod at 1.
  match goal with |- settled _ _ ?s2 = _ -> _ => destruct (settled_mirror a s2) as [met ->] end.
  intros [= <- <-]. pose proof (sub_committed c now s w s1 met Hw Hp Ec) as Hs. rewrite Ef in Hs.
  destruct Hr as (rec & pipe & met' & ->). exact Hs.
Qed.

Lemma bounded_recorded s s' : Bounded s -> recorded s s' -> Bounded s'.
Proof. intros Hs (rec & pipe & met & ->). bnd. Qed.

Lemma keeps_subscription c now : keepsB (deliver_subscription_control c now).
Proof.
  intros s Hs. unfold after. destruct (deliver_subscription_control c now s) as [r s'] eqn:E.
  apply deliver_subscribed in E. cbn [snd]. destruct E as [e s' Hr|w s1 met Hw Hp Ec].
  - by eapply bounded_recorded.
  - pose proof (record_subscription_recorded c w now s) as Hr. rewrite Ec in Hr. cbn [snd] in Hr.
    destruct Hr as (rec & pipe & met' & ->). pose proof (bd_other s Hs). bnd.
    + by apply mirror_bound.
    + unfold blen in *. rewrite length_app. cbn. lia.
Qed.

Lemma keeps_push_system ev : keepsB (runner_push_system ev).
Proof. unfold runner_push_system. keep. Qed.

#[local] Hint Resolve keeps_push_system keeps_fire_due keeps_poll keeps_drain keeps_subscription : keeps.

Lemma keeps_call c : keepsB (run_call c).
Proof.
  destruct c; cbn [run_call]; unfold on_connected, on_disconnected, on_transport_lost, on_text_frame,
    on_binary_frame, on_ping_frame, on_close_frame, on_control_frame, on_pong_frame, on_http_response,
    drop_value, poll_timers, deliver_control, apply_actions, runner_push_system, push_system_best_effort,
    mark_degraded_with_status, mark_live_with_status, publish_catalog_refresh, take_pending_writes,
    take_pending_http, request_stop, note_reconnect, record_inbound; keep;
    try match goal with |- Bounded (match sr_stop_signal ?s with _ => _ end) => destruct (sr_stop_signal s) end;
    bnd; apply saturate_fits.
Qed.

Lemma keeps_calls cs s : Bounded s -> Bounded (snd (run_calls cs s)).
Proof.
  revert s. induction cs as [|c cs IH]; intros s Hs; [done|]. cbn [run_calls].
  pose proof (keeps_call c s Hs) as Hc. unfold after in Hc. destruct (run_call c s) as [r s1].
  specialize (IH s1 Hc). by destruct (run_calls cs s1).
Qed.

Lemma runner_new_bounded m h met live stop s :
  0 <= cfg_mirror_capacity cfg0 -> runner_new m cfg0 h met live stop = Some (Ok s) -> Bounded s.
Proof.
  unfold runner_new. intros Hm.
  destruct (cfg_record cfg0 && _); [destruct (create (@nil Z) 0) as [[w|e] v]; cbn [fst map_err rmap]; [|done]|];
    destruct (dispatcher_new _ _ _) as [d|] eqn:Ed; cbn [mbind option_bind]; try done; intros [= <-];
    unfold dispatcher_new in Ed;
    destruct (queue_new (cfg_dispatch_capacity cfg0) (cfg_overflow cfg0)) as [qb|] eqn:Eb; try done;
    destruct (queue_new (T := SystemEvent) (cfg_dispatch_capacity cfg0) (cfg_overflow cfg0)) as [qs|] eqn:Es; try done;
    injection Ed as <-; apply queue_new_ok in Eb as (B1 & _ & _ & B2 & B3);
    apply queue_new_ok in Es as (S1 & _ & _ & S2 & S3);
    assert (0 < cfg_dispatch_capacity cfg0) by (rewrite <- B2; apply B1);
    (split; cbn; try done; unfold mirror_capacity, buffer_ok, blen; cbn;
      try apply BTreeMap.wf_empty; try (destruct (cfg_mirror_capacity cfg0 =? 0); lia);
      split_and! ; try done; lia).
Qed.
End Bounds.

Arguments OrderlyMachine M {_}.

(** A machine that pushes to its output keeps it in order. *)
#[export] Instance pushing_orderly {M} `{Pushing M} : OrderlyMachine M.
Proof.
  split. intros i m b Hb. rewrite on_input_reacts. destruct (reacts i m) as [[r m'] acts]. cbn [snd].
  clear i m r m'. revert b Hb. induction acts as [|a acts IH]; intros b Hb; [done|]. cbn [ab_extend].
  apply IH. destruct Hb as (H1 & H2 & H3). unfold ab_push, buffer_ok, blen in *.
  destruct (Z.leb_spec (ab_capacity b) (Z.of_nat (length (ab_actions b)))); cbn;
    split_and! ; try done; [apply wrap_range|]. rewrite length_app. cbn. lia.
Qed.

(** ** A machine for examples: a log of its inputs and a script of reactions *)

Record Scripted := mkScripted { sc_log : list SessionInput; sc_script : SessionInput -> list SessionAction }.

Definition scripted_input (i : SessionInput) : Eff (Scripted * ActionBuffer) AdapterError unit :=
  fun '(m, b) => (Ok tt, (mkScripted (sc_log m ++ [i]) (sc_script m), ab_extend (sc_script m i) b)).

#[export] Instance scripted_machine : SessionMachine Scripted := {|
  on_input := scripted_input;
  on_replay_start := default_on_replay_start scripted_input;
  prepare_dynamic_subscription := fun c m =>
    match c with Subscribe (s :: _) => Ok (WireText (bytes_of_string s)) | _ => default_prepare c m end;
  commit_dynamic_subscription := fun c m => mkScripted (sc_log m ++ [ControlInput c]) (sc_script m);
  book_snapshot := default_book_snapshot
|}.

#[export] Program Instance scripted_pushing : Pushing Scripted := {|
  reacts := fun i m => (Ok tt, mkScripted (sc_log m ++ [i]) (sc_script m), sc_script m i)
|}.
Next Obligation. done. Qed.
Next Obligation. done. Qed.

Definition sample_runner (cfg : SessionRunnerConfig) (script : SessionInput -> list SessionAction)
    : option (SessionRunner Scripted MemFs) :=
  match runner_new (mkScripted [] script) cfg None None (Some false) None with
  | Some (Ok s) => Some s
  | _ => None
  end.

(** C11. Every buffer of a runner is bounded, whatever its machine asks for and
    whichever calls fail: after any sequence of calls on a new runner the two
    dispatch lanes hold at most the configured capacity, the action buffer at
    most its capacity, each diagnostic mirror at most the mirror capacity, and
    at most 256 writes, 64 HTTP requests and 32 timers are pending. *)
Theorem runner_bounded {M FS} `{SessionMachine M} `{MutationJson} `{!OrderlyMachine M}
    clock (m : M) cfg (h : option (RecordingHandle FS)) met live stop s cs :
  0 <= cfg_mirror_capacity cfg -> runner_new m cfg h met live stop = Some (Ok s) ->
  let s' := snd (run_calls clock cs s) in
  queue_len (batches (sr_dispatch s')) <= cfg_dispatch_capacity cfg /\
  queue_len (systems (sr_dispatch s')) <= cfg_dispatch_capacity cfg /\
  blen (ab_actions (sr_actions s')) <= ab_capacity (sr_actions s') /\
  (let cap := if cfg_mirror_capacity cfg =? 0 then 0
              else Z.min (cfg_dispatch_capacity cfg) (cfg_mirror_capacity cfg) in
   blen (sr_market_batches s') <= cap /\ blen (sr_system_events s') <= cap /\
   blen (sr_other_actions s') <= cap) /\
  blen (sr_pending_writes s') <= MAX_PENDING_WRITES /\
  blen (sr_pending_http s') <= MAX_PENDING_HTTP /\
  BTreeMap.len (sr_timers s') <= MAX_SESSION_TIMERS /\ NoDup (BTreeMap.keys (sr_timers s')).
Proof.
  intros Hm Hnew. apply (runner_new_bounded cfg) in Hnew; [|done].
  pose proof (keeps_calls clock cfg cs s Hnew) as Hb.
  destruct Hb as [Hc (Hb & E1 & _) (Hs & E2 & _) (_ & Ha & _) Hm1 Hm2 Hm3 Hw Hh Ht1 Ht2 _].
  unfold mirror_capacity in *. rewrite Hc in *. cbv zeta.
  destruct Hb as (_ & Hb & _), Hs as (_ & Hs & _). rewrite E1 in Hb. rewrite E2 in Hs.
  split_and! ; try done. by apply BTreeMap.keys_NoDup.
Qed.

Definition bounded_script (i : SessionInput) : list SessionAction :=
  match i with
  | TextFrame bytes _ => [SendText bytes; EmitSystem HeartbeatMissed; ScheduleTimer (mkTimerSpec 1 5)]
  | _ => []
  end.

Definition small_config (overflow : OverflowPolicy) : SessionRunnerConfig :=
  mkSessionRunnerConfig 0 1 1 2 overflow true 1.

Definition sample_mutation : RecordedSubscriptionMutation :=
  mkRecordedSubscriptionMutation (RecSubscribe ["BTC-USD"%string]) (RecText (bytes_of_string "BTC-USD")).
#[local] Instance sample_mutation_json : MutationJson := one_mutation sample_mutation.
#[local] Instance sample_mutation_laws : MutationJsonLaws := one_mutation_laws sample_mutation.

Definition bounded_calls : list RunnerCall :=
  CallConnected 0 :: repeat (CallText [1; 2] (mkFrameStamp 7 7)) 4.

Definition bounded_start : SessionRunner Scripted MemFs :=
  Eval vm_compute in the (sample_runner (small_config DropOldest) bounded_script).

Lemma runner_bounded_witness :
  let s' := snd (run_calls Z.of_nat bounded_calls bounded_start) in
  blen (sr_pending_writes s') <= MAX_PENDING_WRITES /\
  (queue_len (systems (sr_dispatch s')), blen (sr_other_actions s')) = (2, 1).
Proof.
  split.
  - pose proof (runner_bounded Z.of_nat (mkScripted [] bounded_script) (small_config DropOldest) None None
      (Some false) None bounded_start bounded_calls ltac:(vm_compute; discriminate) ltac:(vm_compute; reflexivity)) as H.
    apply H.
  - vm_compute. reflexivity.
Defined.

(** ** Dynamic subscriptions *)

(** The frame a dynamic subscription leaves in the recording. *)
Definition subscription_frame {M FS} (s : SessionRunner M FS) (now : TimestampNs) (payload : list Z) : PendingFrame :=
  mkPendingFrame (cfg_session (sr_cfg s)) (sr_inbound_frame_seq s) now (default 0 (to_ty U64 now))
    Inbound OpSubscriptionCommand 0 payload.

(** Where a dynamic subscription has been recorded: a runner with a pipeline hands
    the frame to it, one that records in memory writes it to its recorder, and
    the payload decodes to the command and the wire frame. *)
Definition subscription_recorded {M FS} `{MutationJson} (c : SessionCommand) (w : SubscriptionWireAction) (now : TimestampNs)
    (s s' : SessionRunner M FS) : Prop :=
  match sr_recording_pipeline s, sr_recorder s with
  | Some h, _ => exists payload outcome h', decode_subscription_command payload = Ok (c, w) /\
      h_enqueue (subscription_frame s now payload) h = (Ok outcome, h') /\
      sr_recording_pipeline s' = Some h' /\ sr_recorder s' = sr_recorder s
  | None, Some rw => exists payload rw', decode_subscription_command payload = Ok (c, w) /\
      write_frame (subscription_frame s now payload) rw = (Ok tt, rw') /\
      sr_recorder s' = Some rw' /\ sr_recording_pipeline s' = None
  | None, None => sr_recorder s' = None /\ sr_recording_pipeline s' = None
  end.

Lemma record_subscription_frame {M FS} `{MutationJsonLaws} c w now (s s' : SessionRunner M FS) :
  record_subscription_command c w now s = (Ok tt, s') -> subscription_recorded c w now s s'.
Proof.
  unfold record_subscription_command, subscription_recorded. unfold ebind at 1, eget at 1.
  destruct (sr_recording_pipeline s) as [h|] eqn:Hpipe; [|destruct (sr_recorder s) as [rw|] eqn:Hrec; [|by intros [= <-]]];
    rewrite ebind_elift; (destruct (encode_subscription_command c w) as [payload|e] eqn:Ee; cbn [map_err]; [|done]);
    destruct (subscription_round_trip c w payload Ee) as [Hdec _];
    unfold record_frame; unfold ebind at 1, eget at 1; rewrite Hpipe.
  - change (mkPendingFrame _ _ _ _ _ _ _ payload) with (subscription_frame s now payload).
    destruct (h_enqueue (subscription_frame s now payload) h) as [[o|e] h'] eqn:Ew; cbn; [|done].
    intros E. exists payload, o, h'. split_and! ; [done|done|by destruct o; injection E as <-..].
  - rewrite Hrec. change (write_record _ _ _ _ _ _ _ _ rw) with (write_frame (subscription_frame s now payload) rw).
    destruct (write_frame (subscription_frame s now payload) rw) as [[[]|e] rw'] eqn:Ew; cbn; [|done].
    intros [= <-]. by exists payload, rw'.
Qed.


Definition subscribing : SessionRunner Scripted MemFs :=
  Eval vm_compute in the (sample_runner (small_config FailEngine) (fun _ => [])).

Definition subscribe_btc : SessionCommand := Subscribe ["BTC-USD"%string].


(** ** Timers *)

Section Timers.
Context {M FS : Type} `{SessionMachine M}.
Implicit Types s : SessionRunner M FS.

(** The first due timer is there, so that a pass fires at least once. *)
Lemma due_present now s t due : due_timers now s = t :: due -> BTreeMap.contains_key (sr_timers s) t = true.
Proof.
  intros E. apply BTreeMap.elem_keys. unfold BTreeMap.keys.
  assert (t ∈ due_timers now s) as Hin by (rewrite E; left). unfold due_timers in Hin.
  apply list_elem_of_fmap in Hin as (p & -> & Hp%list_elem_of_filter). apply list_elem_of_fmap. naive_solver.
Qed.

Lemma fire_due_mono now due fired s p s' :
  fire_due now due fired s = (Ok p, s') -> fired <= fst p.
Proof.
  revert fired s. induction due as [|t due IH]; intros fired s; cbn [fire_due]; [by intros [= <- _]|].
  unfold ebind at 1, eget at 1. destruct (negb _); [apply IH|].
  intros E. apply ebind_Ok in E as (? & ? & _ & E). apply ebind_Ok in E as (? & ? & _ & E).
  destruct (MAX_TIMER_FIRES_PER_POLL <=? fired + 1); [injection E as <- _; cbn; lia|].
  apply IH in E. lia.
Qed.

Lemma fire_due_progress now t due fired s p s' :
  due_timers now s = t :: due -> fire_due now (t :: due) fired s = (Ok p, s') -> fired < fst p.
Proof.
  intros Hd. cbn [fire_due]. unfold ebind at 1, eget at 1. rewrite (due_present _ _ _ _ Hd). cbn [negb].
  intros E. apply ebind_Ok in E as (? & ? & _ & E). apply ebind_Ok in E as (? & ? & _ & E).
  destruct (MAX_TIMER_FIRES_PER_POLL <=? fired + 1); [injection E as <- _; cbn; lia|].
  apply fire_due_mono in E. lia.
Qed.

Lemma poll_loop_ends fuel now fired s :
  MAX_TIMER_FIRES_PER_POLL - fired <= Z.of_nat fuel ->
  fst (poll_loop fuel now fired s) <> Ok None.
Proof.
  revert fired s. induction fuel as [|fuel IH]; intros fired s Hf; cbn [poll_loop];
    destruct (Z.ltb_spec fired MAX_TIMER_FIRES_PER_POLL); try done; [lia|].
  unfold ebind at 1, eget at 1. destruct (due_timers now s) as [|t due] eqn:Hd; [done|].
  unfold ebind. destruct (fire_due now (t :: due) fired s) as [[p|e] s1] eqn:E; [|done].
  destruct (snd p); [done|]. apply IH. pose proof (fire_due_progress _ _ _ _ _ _ _ Hd E). lia.
Qed.
End Timers.

(** Polling the timers ends: within 64 passes the poll has returned or failed,
    even when the machine schedules already-due timers from every callback. *)
Theorem poll_timers_ends {M FS} `{SessionMachine M} now (s : SessionRunner M FS) :
  fst (poll_timers now s) <> Ok None.
Proof. apply (poll_loop_ends _ now 0 s). vm_compute. discriminate. Qed.

(** A script whose timer 1 moves timer 2 into the future. *)
Definition rescheduling (i : SessionInput) : list SessionAction :=
  match i with
  | Connected _ => [ScheduleTimer (mkTimerSpec 1 50); ScheduleTimer (mkTimerSpec 2 50)]
  | TimerInput 1 _ => [ScheduleTimer (mkTimerSpec 2 1000)]
  | _ => []
  end.

(** The due timers are collected before any callback runs and fired by id, so
    that a callback that moves another due timer into the future does not keep
    it from firing now: timer 2, moved from 50 to 1000 by the callback of timer
    1, fires at 50 and its new deadline is gone. *)
Theorem rescheduled_timer_fires_early :
  exists s0 s1 s2 : SessionRunner Scripted MemFs,
    sample_runner default_config rescheduling = Some s0 /\
    on_connected 0 s0 = (Ok tt, s1) /\ poll_timers 50 s1 = (Ok (Some tt), s2) /\
    sc_log (sr_machine s2) = [Connected 0; TimerInput 1 50; TimerInput 2 50] /\ sr_timers s2 = [].
Proof.
  eexists _, _, _. split; [vm_compute; reflexivity|]. split; [vm_compute; reflexivity|].
  split; [vm_compute; reflexivity|]. split; vm_compute; reflexivity.
Qed.

(** The wait for the next timer: exact while its deadline is ahead, but for an
    overdue timer the negative difference is cast to [u64] and the wait is
    more than five hundred years. *)
Theorem delay_until_next_timer_wraps {M FS} (s : SessionRunner M FS) now t :
  next_timer_deadline s = Some t -> fits I64 (t - now) ->
  delay_until_next_timer now s = Some (if t <? now then 2 ^ 64 + (t - now) else t - now).
Proof.
  intros Hn Hf. unfold delay_until_next_timer. rewrite Hn. cbn [mbind option_bind].
  unfold saturating_sub. rewrite saturate_id by done.
  destruct (Z.eqb_spec (t - now) 0); destruct (Z.ltb_spec t now); try lia; [f_equal; lia| |].
  - f_equal. unfold wrap, fits in *. cbn [int_min int_max] in *.
    replace (t - now - 0) with ((2 ^ 64 + (t - now)) + (-1) * (18446744073709551615 - 0 + 1)) by lia.
    rewrite Z_mod_plus_full, Z.mod_small by lia. lia.
  - f_equal. apply wrap_fits. solve_fits.
Qed.

(** ** Credentials *)

Section Credentials.
Context {M FS : Type}.
Abbreviation Runner := (SessionRunner M FS).
Abbreviation Run := (Eff Runner EngineError).
Implicit Types s : Runner.

Definition with_writes s (w : list OutboundFrame) : Runner := s ⟪ sr_pending_writes := w ⟫.

(** [m] neither reads nor writes the pending frames. *)
Definition oblivious {A} (m : Run A) : Prop := forall s w,
  m (with_writes s w) = (fst (m s), with_writes (snd (m s)) w) /\
  sr_pending_writes (snd (m s)) = sr_pending_writes s.

Lemma oblivious_ret {A} (a : A) : oblivious (eret a).
Proof. done. Qed.
Lemma oblivious_throw {A} e : oblivious (ethrow (A := A) e).
Proof. done. Qed.
Lemma oblivious_lift {A} (r : result A EngineError) : oblivious (elift r).
Proof. done. Qed.

Lemma oblivious_bind {A B} (m : Run A) (k : A -> Run B) :
  oblivious m -> (forall a, oblivious (k a)) -> oblivious (ebind m k).
Proof.
  intros Hm Hk s w. destruct (Hm s w) as [E1 E2]. unfold ebind. rewrite E1.
  destruct (m s) as [[a|e] s1]; cbn [fst snd] in *; [|done].
  destruct (Hk a s1 w) as [E3 E4]. by rewrite E3, E4, E2.
Qed.

Lemma oblivious_catch {A} (m : Run A) : oblivious m -> oblivious (ecatch m).
Proof. intros Hm s w. destruct (Hm s w) as [E1 E2]. unfold ecatch. rewrite E1. by destruct (m s). Qed.

(** Reading the state for the sake of other fields. *)
Lemma oblivious_get {B} (k : Runner -> Run B) :
  (forall s w, k (with_writes s w) = k s) -> (forall s, oblivious (k s)) -> oblivious (ebind eget k).
Proof. intros Hk Ho s w. unfold ebind, eget. rewrite Hk. apply Ho. Qed.

Lemma oblivious_metric f : oblivious (metric f).
Proof. by intros s w. Qed.
Lemma oblivious_lifecycle l : oblivious (set_lifecycle l).
Proof. by intros s w. Qed.
Lemma oblivious_live b : oblivious (set_live_signal b).
Proof. intros s w. destruct s as [? ? ? ? ? ? ? ? ? ? ? ? ? ? ? ? ? [l|] ? ?]; done. Qed.
Lemma oblivious_dispatch {A} (m : Eff EventDispatcher DispatchError A) : oblivious (on_dispatch m).
Proof. intros s w. unfold on_dispatch. cbn. by destruct (m (sr_dispatch s)). Qed.

Lemma oblivious_mirror_system ev : oblivious (push_mirror_system ev).
Proof.
  intros s w. unfold push_mirror_system, mirror_capacity, ebind, eget, eput. cbn.
  by destruct (try_push_mirror _ _ ev _) as [[[]|] vec].
Qed.
Lemma oblivious_mirror_action a : oblivious (push_mirror_action a).
Proof.
  intros s w. unfold push_mirror_action, mirror_capacity, ebind, eget, eput. cbn.
  by destruct (try_push_mirror _ _ a _) as [[[]|] vec].
Qed.

Lemma oblivious_record_frame seq ts mono dir op p : oblivious (record_frame seq ts mono dir op p).
Proof.
  intros s w. unfold record_frame, ebind, eget, eput, elift.
  cbn [with_writes set_field sr_recording_pipeline sr_recorder sr_cfg].
  destruct (sr_recording_pipeline s) as [h|].
  - destruct (h_enqueue _ h) as [[[]|e] h']; done.
  - destruct (sr_recorder s) as [rw|]; [|done]. by destruct (write_record (cfg_session (sr_cfg s)) seq ts mono dir op 0 p rw).
Qed.

Create HintDb blind.
#[local] Hint Resolve oblivious_ret oblivious_throw oblivious_lift oblivious_catch oblivious_metric
  oblivious_lifecycle oblivious_live oblivious_dispatch oblivious_mirror_system oblivious_mirror_action
  oblivious_record_frame : blind.

Ltac blind1 :=
  match goal with
  | |- oblivious _ => solve [eauto 3 with blind nocore]
  | |- oblivious (ebind eget _) => apply oblivious_get; [done|intros ?]
  | |- oblivious (ebind _ _) => apply oblivious_bind; [|intros ?]
  | |- oblivious (match ?x with _ => _ end) => destruct x
  | |- oblivious (emod _) => by intros ? ?
  end.
Ltac blind := repeat blind1.

Lemma oblivious_events_dropped n d : oblivious (emit_events_dropped n d).
Proof. unfold emit_events_dropped. blind. Qed.
#[local] Hint Resolve oblivious_events_dropped : blind.

Lemma oblivious_mirror_batch b : oblivious (push_mirror_batch b).
Proof.
  intros s w. unfold push_mirror_batch, mirror_capacity, ebind, eget, eput, elift.
  cbn [with_writes set_field sr_cfg sr_market_batches].
  destruct (try_push_mirror _ _ b _) as [[[|d]|] vec]; [done| |done].
  exact (oblivious_events_dropped 1 d (s ⟪ sr_market_batches := vec ⟫) w).
Qed.
#[local] Hint Resolve oblivious_mirror_batch : blind.

Lemma oblivious_invalidate : oblivious invalidate_live_readiness.
Proof. unfold invalidate_live_readiness. blind. Qed.
Lemma oblivious_outbound op p now : oblivious (record_outbound op p now).
Proof. unfold record_outbound. blind. Qed.
Lemma oblivious_dispatch_batch b : oblivious (dispatch_batch b).
Proof. unfold dispatch_batch, note_push_outcome, refresh_queue_gauges. blind. Qed.
Lemma oblivious_dispatch_system e : oblivious (dispatch_system e).
Proof. unfold dispatch_system, note_push_outcome. blind. Qed.
#[local] Hint Resolve oblivious_invalidate oblivious_outbound oblivious_dispatch_batch oblivious_dispatch_system : blind.

Lemma oblivious_settled fatal m : oblivious m -> oblivious (settled fatal m).
Proof. intros. unfold settled, settle_diagnostic_result. blind. Qed.
Lemma oblivious_status m now : oblivious (emit_venue_status m now).
Proof. unfold emit_venue_status. blind. Qed.
Lemma oblivious_observe e : oblivious (observe_event e).
Proof. unfold observe_event. blind. Qed.
#[local] Hint Resolve oblivious_settled oblivious_status oblivious_observe : blind.

Lemma oblivious_http spec : oblivious (enqueue_pending_http spec).
Proof.
  intros s w. unfold enqueue_pending_http, ebind, eget, eput, elift.
  cbn [with_writes set_field sr_cfg sr_pending_http].
  destruct (enqueue_bounded spec _ _ _) as [[[| |d]|] buf]; [done| | |done].
  - exact (oblivious_events_dropped 1 "pending_http DropNewest" (s ⟪ sr_pending_http := buf ⟫) w).
  - exact (oblivious_events_dropped d "pending_http DropOldest" (s ⟪ sr_pending_http := buf ⟫) w).
Qed.

Lemma oblivious_schedule t : oblivious (schedule_timer t).
Proof.
  intros s w. unfold schedule_timer. unfold ebind, eget. cbn [with_writes sr_timers set_field].
  destruct (negb _ && _); [apply oblivious_events_dropped|done].
Qed.
#[local] Hint Resolve oblivious_http oblivious_schedule : blind.

(** The same runner but for the contents of the pending frames. *)
Definition same_but_frames s1 s2 : Prop :=
  exists w, s2 = with_writes s1 w /\ length w = length (sr_pending_writes s1).

Definition alike (m1 m2 : Run unit) : Prop := forall s1 s2,
  same_but_frames s1 s2 -> fst (m1 s1) = fst (m2 s2) /\ same_but_frames (snd (m1 s1)) (snd (m2 s2)).

Lemma oblivious_alike (m : Run unit) : oblivious m -> alike m m.
Proof.
  intros Hm s1 s2 (w & -> & Hl). destruct (Hm s1 w) as [-> E]. split; [done|]. exists w. by rewrite E.
Qed.

Lemma alike_bind m1 m2 k1 k2 : alike m1 m2 -> alike k1 k2 -> alike (m1 !; k1) (m2 !; k2).
Proof.
  intros Hm Hk s1 s2 Hs. destruct (Hm s1 s2 Hs) as [E Hs']. unfold ebind.
  destruct (m1 s1) as [[[]|e1] s1'], (m2 s2) as [[[]|e2] s2']; cbn [fst snd] in *; try done.
  by apply Hk.
Qed.

Lemma alike_pending_write f1 f2 : alike (enqueue_pending_write f1) (enqueue_pending_write f2).
Proof.
  intros s1 s2 (w & -> & Hl). unfold enqueue_pending_write, enqueue_bounded, ebind, eget, eput, elift.
  cbn [with_writes set_field sr_cfg sr_pending_writes]. rewrite Hl.
  destruct (Z.of_nat (length (sr_pending_writes s1)) <? MAX_PENDING_WRITES).
  { split; [done|]. exists (w ++ [f2]). split; [done|]. cbn. rewrite !length_app. cbn. lia. }
  destruct (cfg_overflow (sr_cfg s1)); (split; [done|by exists w]) || apply oblivious_alike;
    try apply oblivious_events_dropped.
  - by exists w.
  - exists (drop 1 w ++ [f2]). split; [done|]. cbn. rewrite !length_app, !length_drop. cbn. lia.
Qed.

(** Two actions that differ at most in a credential. *)
Definition same_but_secret (a1 a2 : SessionAction) : Prop :=
  a1 = a2 \/ exists p1 p2, a1 = SendSensitiveText p1 /\ a2 = SendSensitiveText p2.

Lemma alike_apply now fatal a1 a2 :
  same_but_secret a1 a2 -> alike (apply_action now fatal a1) (apply_action now fatal a2).
Proof.
  intros [<-|(p1 & p2 & -> & ->)]; [|apply alike_pending_write].
  destruct a1; cbn [apply_action]; unfold send_recorded; try solve [apply oblivious_alike; blind];
    try apply alike_pending_write;
    (apply alike_bind; [|apply alike_bind; [apply alike_pending_write|]]; apply oblivious_alike; blind).
Qed.

Lemma alike_all now fatal acts1 acts2 :
  Forall2 same_but_secret acts1 acts2 ->
  alike (efor acts1 (apply_action now fatal)) (efor acts2 (apply_action now fatal)).
Proof.
  induction 1 as [|a1 a2 l1 l2 Ha _ IH]; cbn [efor]; [apply oblivious_alike; blind|].
  apply alike_bind; [by apply alike_apply|done].
Qed.
End Credentials.

(** C13. Credentials do not leak: when two lists of actions differ in the payloads
    of sensitive frames only, applying them gives the same outcome and the
    same runner except for the frames waiting to be sent; in particular the
    recording, the dispatched events, the diagnostic mirrors and the metrics
    do not depend on the credentials. *)
Theorem credentials_stay_in_flight {M FS} (s : SessionRunner M FS) now fatal acts1 acts2 :
  Forall2 same_but_secret acts1 acts2 ->
  let '(r1, s1) := efor acts1 (apply_action now fatal) s in
  let '(r2, s2) := efor acts2 (apply_action now fatal) s in
  r1 = r2 /\ exists w, s2 = s1 ⟪ sr_pending_writes := w ⟫.
Proof.
  intros Ha. destruct (alike_all now fatal _ _ Ha s s) as [E (w & Ew & _)]; [by exists (sr_pending_writes s); destruct s|].
  destruct (efor acts1 _ s) as [r1 s1], (efor acts2 _ s) as [r2 s2]. split; [exact E|]. by exists w.
Qed.

Definition login (secret : list Z) : list SessionAction :=
  [SendText [104; 105]; SendSensitiveText (mkSensitiveBytes secret); MarkLive].

Lemma credentials_stay_in_flight_witness :
  (let '(r1, s1) := efor (login [115; 51]) (apply_action 7 true) subscribing in
   let '(r2, s2) := efor (login [120]) (apply_action 7 true) subscribing in
   r1 = r2 /\ exists w, s2 = s1 ⟪ sr_pending_writes := w ⟫) /\
  of_payload <$> sr_pending_writes (snd (efor (login [115; 51]) (apply_action 7 true) subscribing))
  = [[104; 105]; [115; 51]].
Proof.
  split; [|vm_compute; reflexivity].
  apply (credentials_stay_in_flight subscribing 7 true (login [115; 51]) (login [120])).
  constructor; [by left|]. constructor; [right; eauto|]. constructor; [by left|constructor].
Defined.
