(* ===== verification/Replay.v ===== *)
(** * Replay ([crates/replay/src/runner.rs])

    Feeding a recorded segment to a fresh session machine, as fast as
    possible, and collecting what it emits. *)

From stdpp Require Import base tactics numbers strings option list.
From Stdlib Require Import ZArith Lia.
From S2P Require Import Prelude Bytes Collections Fixed Model Dispatch Recording RecordingHttp RecordingPipeline Session RecordingControl.

Local Open Scope Z_scope.

Inductive ReplayError :=
  | ReplayRecording (e : RecordingError)
  | ReplayAdapter (e : AdapterError)
  | ReplayDispatch (e : DispatchError)
  | SubscriptionWireMismatch.

Record ReplayOutcome := mkReplayOutcome {
  ro_market_batches : list EventBatch;
  ro_system_events : list SystemEvent;
  ro_other_actions : list SessionAction;
  ro_metadata : list MetadataRecord;
  ro_frames_applied : Z;
  ro_dropped_events : Z
}.

#[export] Instance eta_ReplayOutcome : Eta ReplayOutcome := fun o =>
  mkReplayOutcome (ro_market_batches o) (ro_system_events o) (ro_other_actions o) (ro_metadata o)
    (ro_frames_applied o) (ro_dropped_events o).

Definition outcome_default : ReplayOutcome := mkReplayOutcome [] [] [] [] 0 0.

Record ReplayRunner := mkReplayRunner {
  rp_dispatch : EventDispatcher;
  rp_actions : ActionBuffer;
  rp_drop_counts : BTreeMap string Z
}.

#[export] Instance eta_ReplayRunner : Eta ReplayRunner := fun r =>
  mkReplayRunner (rp_dispatch r) (rp_actions r) (rp_drop_counts r).

(** [None] is the panic of a queue of capacity 0. *)
Definition with_overflow (dispatch_capacity : Z) (overflow : OverflowPolicy) : option ReplayRunner :=
  (fun d => mkReplayRunner d action_buffer_new []) <$>
  dispatcher_new dispatch_capacity dispatch_capacity overflow.

Definition replay_new (dispatch_capacity : Z) : option ReplayRunner :=
  with_overflow dispatch_capacity FailEngine.

(** [&mut self], [machine] and [outcome] together. *)
Record Replaying (M : Type) := mkReplaying {
  rs_runner : ReplayRunner;
  rs_machine : M;
  rs_outcome : ReplayOutcome
}.
Arguments mkReplaying {M}.
Arguments rs_runner {M}.
Arguments rs_machine {M}.
Arguments rs_outcome {M}.

#[export] Instance eta_Replaying M : Eta (Replaying M) := fun r =>
  mkReplaying (rs_runner r) (rs_machine r) (rs_outcome r).

Section Replay.
Context {M : Type} `{SessionMachine M} `{MutationJson}.
(** [serde_json::from_slice] of a metadata record. *)
Context (metadata_from_slice : list Z -> option MetadataRecord).

Abbreviation Rep := (Eff (Replaying M) ReplayError).

Definition decode_metadata (payload : list Z) : result MetadataRecord RecordingError :=
  let len := Z.of_nat (length payload) in
  if MAX_METADATA_BYTES <? len then
    Err (RecordTooLarge (default (int_max U32) (to_ty U32 len)) MAX_METADATA_BYTES)
  else ok_or (metadata_from_slice payload) InvalidHeader.

Definition on_runner (f : ReplayRunner -> ReplayRunner) : Rep unit :=
  emod (fun s => s ⟪ rs_runner := f (rs_runner s) ⟫).
Definition on_outcome (f : ReplayOutcome -> ReplayOutcome) : Rep unit :=
  emod (fun s => s ⟪ rs_outcome := f (rs_outcome s) ⟫).

Definition rep_dispatch {A} (m : Eff EventDispatcher DispatchError A) : Rep A := fun s =>
  let '(r, d) := m (rp_dispatch (rs_runner s)) in
  (map_err ReplayDispatch r, s ⟪ rs_runner := (rs_runner s) ⟪ rp_dispatch := d ⟫ ⟫).

Definition rep_machine {A} (m : Eff (M * ActionBuffer) AdapterError A) : Rep A := fun s =>
  let '(r, (machine, actions)) := m (rs_machine s, rp_actions (rs_runner s)) in
  (map_err ReplayAdapter r,
   s ⟪ rs_machine := machine ⟫ ⟪ rs_runner := (rs_runner s) ⟪ rp_actions := actions ⟫ ⟫).

Definition rep_clear_actions : Rep unit :=
  on_runner (fun r => r ⟪ rp_actions := ab_clear (rp_actions r) ⟫).

Definition record_drop (detail : string) (count : Z) : Rep unit :=
  on_runner (fun r =>
    let total := BTreeMap.get_or (rp_drop_counts r) detail 0 in
    r ⟪ rp_drop_counts := BTreeMap.insert (rp_drop_counts r) detail (saturating_add U64 total count) ⟫).

Definition rep_note_push_outcome (lane : string) (push : PushOutcome) : Rep unit :=
  match push with
  | Accepted => eret tt
  | DroppedNewest => record_drop (lane +:+ " DropNewest") 1
  | DroppedOldest dropped => record_drop (lane +:+ " DropOldest") dropped
  end.

Definition rep_note_action_buffer_drops : Rep unit :=
  let! s := eget in
  let '(dropped, actions) := take_dropped (rp_actions (rs_runner s)) in
  on_runner (fun r => r ⟪ rp_actions := actions ⟫) !;
  if dropped =? 0 then eret tt else record_drop "ActionBuffer DropNewest" dropped.

Definition absorb_action (action : SessionAction) : Rep unit :=
  match action with
  | EmitBatch batch =>
      let! push := rep_dispatch (push_batch batch) in
      rep_note_push_outcome "market_batch" push
  | EmitSystem ev =>
      let! push := rep_dispatch (push_system ev) in
      rep_note_push_outcome "system_event" push
  | other => on_outcome (fun o => o ⟪ ro_other_actions := ro_other_actions o ++ [other] ⟫)
  end.

Definition absorb_actions : Rep unit :=
  let! s := eget in
  let '(actions, buffer) := ab_drain (rp_actions (rs_runner s)) in
  on_runner (fun r => r ⟪ rp_actions := buffer ⟫) !;
  efor actions absorb_action.

(** The loop over [mem::take(&mut self.drop_counts)]. *)
Definition report_drop (o : ReplayOutcome) (p : string * Z) : ReplayOutcome :=
  let '(detail, count) := p in
  o ⟪ ro_dropped_events := saturating_add U64 (ro_dropped_events o) count ⟫
    ⟪ ro_system_events := ro_system_events o ++ [EventsDropped count detail] ⟫.

Definition finish_outcome : Rep unit := fun s =>
  let '(bs, d) := drain_batches (rp_dispatch (rs_runner s)) in
  let '(ss, d) := drain_systems d in
  let o := rs_outcome s in
  let o := o ⟪ ro_market_batches := ro_market_batches o ++ bs ⟫
             ⟪ ro_system_events := ro_system_events o ++ ss ⟫ in
  let o := foldl report_drop o (rp_drop_counts (rs_runner s)) in
  (Ok tt, s ⟪ rs_runner := (rs_runner s) ⟪ rp_dispatch := d ⟫ ⟪ rp_drop_counts := [] ⟫ ⟫ ⟪ rs_outcome := o ⟫).

(** What one inbound record does; [false] is [continue]. *)
Definition replay_record (rec : RawRecord) : Rep bool :=
  let h := rr_header rec in
  let stamp := mkFrameStamp (rh_receive_ts_ns h) (rh_monotonic_ns h) in
  let payload := rr_payload rec in
  rep_clear_actions !;
  match rh_opcode h with
  | OpText => rep_machine (on_input (TextFrame payload stamp)) !; eret true
  | OpBinary => rep_machine (on_input (BinaryFrame payload stamp)) !; eret true
  | OpPong => rep_machine (on_input (Pong payload stamp)) !; eret true
  | OpHttpResponse =>
      let! rr := elift (map_err ReplayRecording (decode_http_response payload)) in
      let '(request_id, response) := rr in
      rep_machine (on_input (HttpResponseInput request_id response stamp)) !; eret true
  | OpMetadata =>
      let! m := elift (map_err ReplayRecording (decode_metadata payload)) in
      on_outcome (fun o => o ⟪ ro_metadata := ro_metadata o ++ [m] ⟫) !; eret false
  | OpSubscriptionCommand =>
      let! cw := elift (map_err ReplayRecording (decode_subscription_command payload)) in
      let '(command, recorded_wire) := cw in
      let! s := eget in
      let! prepared_wire :=
        elift (map_err ReplayAdapter (prepare_dynamic_subscription command (rs_machine s))) in
      if negb (bool_decide (prepared_wire = recorded_wire)) then ethrow SubscriptionWireMismatch
      else
        emod (fun s => s ⟪ rs_machine := commit_dynamic_subscription command (rs_machine s) ⟫) !;
        eret true
  | OpPing | OpClose => eret false
  end.

Definition replay_one (rec : RawRecord) : Rep unit :=
  match rh_direction (rr_header rec) with
  | Outbound => eret tt
  | Inbound =>
      let! applied := replay_record rec in
      if applied then
        rep_note_action_buffer_drops !;
        absorb_actions !;
        on_outcome (fun o => o ⟪ ro_frames_applied := wrap U64 (ro_frames_applied o + 1) ⟫)
      else eret tt
  end.

(** The state a replay starts from: queues, buffer and counts emptied. *)
Definition reset_runner (r : ReplayRunner) : ReplayRunner :=
  let '(_, d) := drain_batches (rp_dispatch r) in
  let '(_, d) := drain_systems d in
  let '(_, actions) := take_dropped (ab_clear (rp_actions r)) in
  mkReplayRunner d actions [].

Definition replay_records (records : list RawRecord) (connect_ts : TimestampNs) : Rep unit :=
  emod (fun s => s ⟪ rs_outcome := outcome_default ⟫ ⟪ rs_runner := reset_runner (rs_runner s) ⟫) !;
  rep_machine (on_replay_start connect_ts) !;
  rep_note_action_buffer_drops !;
  absorb_actions !;
  efor records replay_one !;
  finish_outcome.

(** [None] would mean that reading ran out of fuel. *)
Definition replay_bytes (bytes : list Z) (connect_ts : TimestampNs) : Rep (option unit) :=
  let! reader := elift (map_err ReplayRecording (from_bytes bytes)) in
  match fst (read_all reader) with
  | None => eret None
  | Some r =>
      let! records := elift (map_err ReplayRecording r) in
      replay_records records connect_ts !; eret (Some tt)
  end.

Definition replay_disconnect (now : TimestampNs) : Rep unit :=
  on_runner (fun r => r ⟪ rp_actions := snd (take_dropped (ab_clear (rp_actions r))) ⟫) !;
  rep_machine (on_input (Disconnected LocalStop now)) !;
  rep_note_action_buffer_drops !;
  absorb_actions !;
  finish_outcome.
End Replay.
