(* ===== verification/ReplayFidelity.v ===== *)
(** * Replay reproduces the live session

    A session whose inputs are recorded, replayed into a fresh machine from
    the bytes of its recording, ends in the same machine state and emits the
    same market batches and system events.  The live side is the session
    runner with its in-memory recorder, the other side the replay runner; the
    two meet in a reference run of the machine over the recorded frames. *)

From stdpp Require Import base tactics numbers strings option list.
From Stdlib Require Import ZArith Lia.
From S2P Require Import Prelude Bytes Collections Fixed Text Model Dispatch Recording RecordingHttp RecordingPipeline RecordingHandle Sinks Session RecordingControl Metrics Runner RunnerBounds Replay.

Local Open Scope Z_scope.

(** ** What the actions of a machine emit *)

Definition batches_of (acts : list SessionAction) : list EventBatch :=
  flat_map (fun a => match a with EmitBatch b => [b] | _ => [] end) acts.
Definition systems_of (acts : list SessionAction) : list SystemEvent :=
  flat_map (fun a => match a with EmitSystem e => [e] | _ => [] end) acts.
Definition others_of (acts : list SessionAction) : list SessionAction :=
  flat_map (fun a => match a with EmitBatch _ | EmitSystem _ => [] | _ => [a] end) acts.

Lemma batches_of_app l1 l2 : batches_of (l1 ++ l2) = batches_of l1 ++ batches_of l2.
Proof. apply flat_map_app. Qed.
Lemma systems_of_app l1 l2 : systems_of (l1 ++ l2) = systems_of l1 ++ systems_of l2.
Proof. apply flat_map_app. Qed.
Lemma others_of_app l1 l2 : others_of (l1 ++ l2) = others_of l1 ++ others_of l2.
Proof. apply flat_map_app. Qed.

(** The batches that are not venue statuses: the runner adds those itself. *)
Definition is_status (b : EventBatch) : bool :=
  match batch_events b with
  | [e] => match env_payload e with EvVenueStatus _ => true | _ => false end
  | _ => false
  end.
Definition data_batches (l : list EventBatch) : list EventBatch := List.filter (fun b => negb (is_status b)) l.

Lemma data_batches_app l1 l2 : data_batches (l1 ++ l2) = data_batches l1 ++ data_batches l2.
Proof. apply List.filter_app. Qed.

(** The system events that are not notices of loss: the runner makes those. *)
Definition is_notice (e : SystemEvent) : bool := match e with EventsDropped _ _ => true | _ => false end.
Definition data_systems (l : list SystemEvent) : list SystemEvent := List.filter (fun e => negb (is_notice e)) l.

Lemma data_systems_app l1 l2 : data_systems (l1 ++ l2) = data_systems l1 ++ data_systems l2.
Proof. apply List.filter_app. Qed.

(** [bs] is [l] with statuses added, [ss] is [l] with notices added. *)
Definition adds_status (l bs : list EventBatch) : Prop := sublist l bs /\ data_batches bs = data_batches l.
Definition adds_notices (l ss : list SystemEvent) : Prop := sublist l ss /\ data_systems ss = data_systems l.

Lemma adds_status_refl l : adds_status l l.
Proof. done. Qed.
Lemma adds_notices_refl l : adds_notices l l.
Proof. done. Qed.
Lemma adds_status_app l1 l2 b1 b2 : adds_status l1 b1 -> adds_status l2 b2 -> adds_status (l1 ++ l2) (b1 ++ b2).
Proof. intros [H1 E1] [H2 E2]. split; [by apply sublist_app|]. rewrite !data_batches_app. congruence. Qed.
Lemma adds_notices_app l1 l2 b1 b2 : adds_notices l1 b1 -> adds_notices l2 b2 -> adds_notices (l1 ++ l2) (b1 ++ b2).
Proof. intros [H1 E1] [H2 E2]. split; [by apply sublist_app|]. rewrite !data_systems_app. congruence. Qed.
Lemma adds_status_one b : is_status b = true -> adds_status [] [b].
Proof. intros Hb. split; [apply sublist_nil_l|]. cbn. by rewrite Hb. Qed.
Lemma adds_notices_only ss : data_systems ss = [] -> adds_notices [] ss.
Proof. intros Hs. split; [apply sublist_nil_l|done]. Qed.
#[local] Hint Resolve adds_status_refl adds_notices_refl adds_status_app adds_notices_app : core.

(** The payload of an action that is recorded is made of bytes. *)
Definition action_bytes (a : SessionAction) : Prop :=
  match a with SendText p | SendBinary p | SendPing p => bytes_ok p | _ => True end.

(** A machine whose reactions fit the replay's action buffer. *)
Class Recordable (M : Type) `{Pushing M} : Prop := {
  reacts_fit i m r m' acts :
    reacts i m = (r, m', acts) -> blen acts <= DEFAULT_ACTION_BUFFER_CAPACITY /\ Forall action_bytes acts
}.

(** ** Writing to the in-memory recorder *)

Lemma write_frame_vec f rw rw' :
  fits U64 (pf_session f) -> fits U64 (pf_frame_seq f) -> fits I64 (pf_receive_ts_ns f) ->
  fits U64 (pf_monotonic_ns f) -> is_byte (pf_flags f) -> bytes_ok (pf_payload f) ->
  rw_started rw = true -> write_frame (W := list Z) f rw = (Ok tt, rw') ->
  frame_ok f /\ rw_started rw' = true /\ rw_writer rw' = rw_writer rw ++ encode_frame f.
Proof.
  intros H1 H2 H3 H4 H5 H6 Hst Hw. assert (frame_ok f) as Hf.
  { unfold frame_ok. split_and! ; try done. revert Hw. unfold write_frame, write_record.
    unfold ebind at 1, eget at 1. rewrite Hst. cbn [negb].
    rewrite ebind_elift. destruct (ok_or _ InvalidHeader) as [n|] eqn:E1; [|done].
    rewrite ebind_elift. destruct (ok_or (to_ty U32 (4 + _ + _)) InvalidHeader) as [k|] eqn:E2; [|done].
    apply ok_or_Ok, to_ty_Some in E2 as [-> _].
    destruct (Z.ltb_spec MAX_RAW_RECORD_LEN (4 + RAW_HEADER_BODY_LEN + Z.of_nat (length (pf_payload f)))); [done|].
    intros _. lia. }
  split; [done|].
  destruct (appends_frame (W := list Z) (fun _ => True) ltac:(done) f Hf rw (conj Hst I))
    as ([Hst' _] & p & q & Ep & Eo & Eq).
  rewrite Hw in *. cbn [fst snd] in *. split; [done|]. rewrite (Eq tt eq_refl), app_nil_r in Ep.
  rewrite Ep. exact Eo.
Qed.

Section Live.
Context {M FS : Type} `{SessionMachine M} `{MutationJson}.
Context (clock : nat -> Z).
Abbreviation Runner := (SessionRunner M FS).
Implicit Types s : Runner.

(** A runner that records in memory and fails on overflow. *)
Record Strict s : Prop := {
  st_policy : cfg_overflow (sr_cfg s) = FailEngine;
  st_batches : policy (batches (sr_dispatch s)) = FailEngine;
  st_systems : policy (systems (sr_dispatch s)) = FailEngine;
  st_pipe : sr_recording_pipeline s = None;
  st_session : fits U64 (cfg_session (sr_cfg s));
  st_seq : fits U64 (sr_inbound_frame_seq s);
  st_rec : exists rw, sr_recorder s = Some rw /\ rw_started rw = true;
  st_clean : ab_actions (sr_actions s) = [] /\ ab_dropped (sr_actions s) = 0 /\
    DEFAULT_ACTION_BUFFER_CAPACITY <= ab_capacity (sr_actions s)
}.

(** What a step does to the parts that matter here: it emits [bs] and [ss] and
    records [fs]. *)
Record effect s s' (bs : list EventBatch) (ss : list SystemEvent) (fs : list PendingFrame) : Prop := {
  ef_cfg : sr_cfg s' = sr_cfg s;
  ef_machine : sr_machine s' = sr_machine s;
  ef_actions : sr_actions s' = sr_actions s;
  ef_seq : sr_inbound_frame_seq s' = sr_inbound_frame_seq s;
  ef_pipe : sr_recording_pipeline s' = sr_recording_pipeline s;
  ef_batches : batches (sr_dispatch s') =
    (batches (sr_dispatch s)) ⟪ items := items (batches (sr_dispatch s)) ++ bs ⟫;
  ef_systems : systems (sr_dispatch s') =
    (systems (sr_dispatch s)) ⟪ items := items (systems (sr_dispatch s)) ++ ss ⟫;
  ef_rec rw : sr_recorder s = Some rw -> rw_started rw = true ->
    exists rw', sr_recorder s' = Some rw' /\ rw_started rw' = true /\
      rw_writer rw' = rw_writer rw ++ concat (encode_frame <$> fs);
  ef_frames : Forall (fun f => frame_ok f /\ pf_direction f = Outbound) fs
}.

Lemma items_nil {T} (q : BoundedQueue T) : q ⟪ items := items q ++ [] ⟫ = q.
Proof. rewrite app_nil_r. by destruct q. Qed.

(** A step that leaves those parts alone. *)
Lemma effect_none s s' :
  sr_cfg s' = sr_cfg s -> sr_machine s' = sr_machine s -> sr_actions s' = sr_actions s ->
  sr_inbound_frame_seq s' = sr_inbound_frame_seq s -> sr_recording_pipeline s' = sr_recording_pipeline s ->
  sr_dispatch s' = sr_dispatch s -> sr_recorder s' = sr_recorder s -> effect s s' [] [] [].
Proof.
  intros. split; try done.
  - rewrite items_nil. congruence.
  - rewrite items_nil. congruence.
  - intros rw Hr Hst. exists rw. cbn. rewrite app_nil_r. by split_and! ; congruence.
Qed.

Lemma effect_refl s : effect s s [] [] [].
Proof. by apply effect_none. Qed.

Lemma effect_trans s1 s2 s3 b1 e1 f1 b2 e2 f2 :
  effect s1 s2 b1 e1 f1 -> effect s2 s3 b2 e2 f2 -> effect s1 s3 (b1 ++ b2) (e1 ++ e2) (f1 ++ f2).
Proof.
  intros [] []. split; try congruence.
  - rewrite ef_batches1, ef_batches0. cbn. by rewrite app_assoc.
  - rewrite ef_systems1, ef_systems0. cbn. by rewrite app_assoc.
  - intros rw Hr Hst. destruct (ef_rec0 rw Hr Hst) as (rw1 & Hr1 & Hst1 & E1).
    destruct (ef_rec1 rw1 Hr1 Hst1) as (rw2 & Hr2 & Hst2 & E2). exists rw2.
    split; [done|]. split; [done|]. by rewrite E2, E1, fmap_app, concat_app, app_assoc.
  - by apply Forall_app.
Qed.

Lemma effect_strict s s' bs ss fs : effect s s' bs ss fs -> Strict s -> Strict s'.
Proof.
  intros [] []. split; try congruence.
  - by rewrite ef_batches0.
  - by rewrite ef_systems0.
  - destruct st_rec0 as (rw & Hr & Hst). destruct (ef_rec0 rw Hr Hst) as (rw' & ? & ? & _). eauto.
Qed.

(** [m] has this effect whenever it succeeds. *)
Definition does {A} (m : Eff Runner EngineError A) bs ss fs : Prop := forall s a s',
  Strict s -> m s = (Ok a, s') -> effect s s' bs ss fs.

Lemma does_bind {A B} (m : Eff Runner EngineError A) (k : A -> Eff Runner EngineError B) b1 e1 f1 b2 e2 f2 :
  does m b1 e1 f1 -> (forall a, does (k a) b2 e2 f2) -> does (ebind m k) (b1 ++ b2) (e1 ++ e2) (f1 ++ f2).
Proof.
  intros Hm Hk s b s' Hs E. apply ebind_Ok in E as (a & s1 & E1 & E2).
  pose proof (Hm s a s1 Hs E1) as H1. eapply effect_trans; [exact H1|].
  eapply Hk; [|exact E2]. by eapply effect_strict.
Qed.

(** Sequences in which only one part emits. *)
Lemma does_then {A B} (m : Eff Runner EngineError A) (k : A -> Eff Runner EngineError B) bs ss fs :
  does m [] [] [] -> (forall a, does (k a) bs ss fs) -> does (ebind m k) bs ss fs.
Proof. apply does_bind. Qed.
Lemma does_first {A B} (m : Eff Runner EngineError A) (k : A -> Eff Runner EngineError B) bs ss fs :
  does m bs ss fs -> (forall a, does (k a) [] [] []) -> does (ebind m k) bs ss fs.
Proof.
  intros Hm Hk. rewrite <- (app_nil_r bs), <- (app_nil_r ss), <- (app_nil_r fs). by apply does_bind.
Qed.

Lemma does_ret {A} (a : A) : does (eret a) [] [] [].
Proof. intros s a' s' _ [= _ <-]. apply effect_refl. Qed.
Lemma does_lift {A} (r : result A EngineError) : does (elift r) [] [] [].
Proof. intros s a' s' _ [= _ <-]. apply effect_refl. Qed.
Lemma does_get {B} (k : Runner -> Eff Runner EngineError B) bs ss fs :
  (forall s0, does (k s0) bs ss fs) -> does (ebind eget k) bs ss fs.
Proof. intros Hk s b s' Hs E. exact (Hk s s b s' Hs E). Qed.

Lemma does_metric f : does (metric f) [] [] [].
Proof. intros s a s' _ [= _ <-]. by apply effect_none. Qed.
Lemma does_lifecycle l : does (set_lifecycle l) [] [] [].
Proof. intros s a s' _ [= _ <-]. by apply effect_none. Qed.
Lemma does_live b : does (set_live_signal b) [] [] [].
Proof.
  intros s a s' _. unfold set_live_signal, emod. intros [= _ <-].
  destruct (sr_live_signal s); by apply effect_none.
Qed.
Lemma does_clear_timers : does clear_timers [] [] [].
Proof. intros s a s' _ [= _ <-]. by apply effect_none. Qed.
Lemma does_instant : does (instant_now clock) [] [] [].
Proof. intros s a s' _ [= _ <-]. by apply effect_none. Qed.
Lemma does_elapsed t0 : does (elapsed_ns clock t0) [] [] [].
Proof. unfold elapsed_ns. apply does_then; [apply does_instant|]. intros. apply does_ret. Qed.
Lemma does_invalidate : does invalidate_live_readiness [] [] [].
Proof.
  unfold invalidate_live_readiness. apply does_then; [apply does_live|]. intros _.
  apply does_get. intros. apply does_metric.
Qed.

(** A full lane refuses, so that a push that succeeds has entered. *)
Lemma strict_push {T} (x : T) q o q' :
  policy q = FailEngine -> try_push x q = (Ok o, q') -> o = Accepted /\ q' = q ⟪ items := items q ++ [x] ⟫.
Proof.
  intros Hp. unfold try_push. eff_unfold. destruct (queue_len q <? capacity q); [by intros [= <- <-]|].
  by rewrite Hp.
Qed.

Lemma push_batch_effect b s o s' :
  Strict s -> on_dispatch (push_batch b) s = (Ok o, s') -> o = Accepted /\ effect s s' [b] [] [].
Proof.
  intros Hs. unfold on_dispatch, push_batch, ezoom.
  destruct (try_push b (batches (sr_dispatch s))) as [[o'|e] q] eqn:E; cbn [map_err]; [|done]. intros [= <- <-].
  apply strict_push in E as [-> ->]; [|apply Hs]. split; [done|].
  split; try done; cbn; [rewrite app_nil_r; by destruct (systems (sr_dispatch s))|].
  intros rw Hr Hst. exists rw. by rewrite app_nil_r.
Qed.

Lemma push_system_effect e s o s' :
  Strict s -> on_dispatch (push_system e) s = (Ok o, s') -> o = Accepted /\ effect s s' [] [e] [].
Proof.
  intros Hs. unfold on_dispatch, push_system, ezoom.
  destruct (try_push e (systems (sr_dispatch s))) as [[o'|x] q] eqn:E; cbn [map_err]; [|done]. intros [= <- <-].
  apply strict_push in E as [-> ->]; [|apply Hs]. split; [done|].
  split; try done; cbn; [rewrite app_nil_r; by destruct (batches (sr_dispatch s))|].
  intros rw Hr Hst. exists rw. by rewrite app_nil_r.
Qed.

(** Mirrors under the failing policy. *)
Lemma strict_mirror {T} cap (x : T) vec r vec' :
  try_push_mirror cap FailEngine x vec = (Ok r, vec') -> r = MirrorOk.
Proof.
  unfold try_push_mirror. destruct (cap =? 0); [by intros [= <- _]|].
  destruct (Z.of_nat (length vec) <? cap); [by intros [= <- _]|done].
Qed.

Lemma does_mirror_system ev : does (push_mirror_system ev) [] [] [].
Proof.
  intros s a s' Hs. unfold push_mirror_system, ebind, eget, eput, elift. rewrite (st_policy s Hs).
  destruct (try_push_mirror _ _ ev _) as [[r|e] vec] eqn:E; [|done].
  apply strict_mirror in E as ->. intros [= _ <-]. by apply effect_none.
Qed.

Lemma does_mirror_batch b : does (push_mirror_batch b) [] [] [].
Proof.
  intros s a s' Hs. unfold push_mirror_batch, ebind, eget, eput, elift. rewrite (st_policy s Hs).
  destruct (try_push_mirror _ _ b _) as [[r|e] vec] eqn:E; [|done].
  apply strict_mirror in E as ->. intros [= _ <-]. by apply effect_none.
Qed.

Lemma does_mirror_action a : does (push_mirror_action a) [] [] [].
Proof.
  intros s x s' Hs. unfold push_mirror_action, ebind, eget, eput, elift. rewrite (st_policy s Hs).
  destruct (try_push_mirror _ _ a _) as [[r|e] vec] eqn:E; [|done].
  apply strict_mirror in E as ->. intros [= _ <-]. by apply effect_none.
Qed.

(** A settled mirror push succeeds or fails without effect. *)
Lemma does_settled_mirror fatal a : does (settled fatal (push_mirror_action a)) [] [] [].
Proof.
  destruct fatal.
  - intros s x s' Hs. unfold settled, ecatch, ebind.
    destruct (push_mirror_action a s) as [[y|e] s1] eqn:E; cbn; [|done]. intros [= _ <-].
    by eapply does_mirror_action.
  - intros s x s' Hs. destruct (settled_mirror a s) as [met ->]. intros [= _ <-]. by apply effect_none.
Qed.

Lemma does_dispatch_batch b : does (dispatch_batch b) [b] [] [].
Proof.
  unfold dispatch_batch. apply does_then; [apply does_metric|]. intros _ s a s' Hs E.
  apply ebind_Ok in E as (o & s1 & E1 & E2). destruct (push_batch_effect b s o s1 Hs E1) as [-> H1].
  assert (effect s1 s' [] [] []) as H2.
  { revert E2. eapply does_then; [|intros _|by eapply effect_strict].
    - apply does_then; [apply does_metric|]. intros _. apply does_mirror_batch.
    - unfold refresh_queue_gauges. apply does_get. intros. apply does_metric. }
  pose proof (effect_trans _ _ _ _ _ _ _ _ _ H1 H2) as H3. exact H3.
Qed.

Lemma does_dispatch_system e : does (dispatch_system e) [] [e] [].
Proof.
  intros s a s' Hs E. unfold dispatch_system in E. apply ebind_Ok in E as (o & s1 & E1 & E2).
  destruct (push_system_effect e s o s1 Hs E1) as [-> H1].
  pose proof (does_mirror_system e s1 a s' ltac:(by eapply effect_strict) E2) as H2.
  pose proof (effect_trans _ _ _ _ _ _ _ _ _ H1 H2) as H3. exact H3.
Qed.

Lemma does_settled_system e : does (settled true (dispatch_system e)) [] [e] [].
Proof.
  intros s x s' Hs. unfold settled, ecatch, ebind.
  destruct (dispatch_system e s) as [[y|er] s1] eqn:E; cbn; [|done]. intros [= _ <-].
  by eapply does_dispatch_system.
Qed.

(** A batch of the runner's own. *)
Lemma does_status m now s a s' :
  Strict s -> emit_venue_status m now s = (Ok a, s') ->
  exists b, is_status b = true /\ effect s s' [b] [] [].
Proof.
  intros Hs E. exists (status_batch s m now). split; [done|]. by eapply does_dispatch_batch.
Qed.

Lemma enqueue_effect {T} (x : T) cap buf o buf' :
  enqueue_bounded x cap FailEngine buf = (Ok o, buf') -> o = Accepted.
Proof. unfold enqueue_bounded. destruct (_ <? cap); [by intros [= <- _]|done]. Qed.

Lemma does_pending_write f : does (enqueue_pending_write f) [] [] [].
Proof.
  intros s a s' Hs. unfold enqueue_pending_write, ebind, eget, eput, elift. rewrite (st_policy s Hs).
  destruct (enqueue_bounded f _ _ _) as [[o|e] buf] eqn:E; [|done].
  apply enqueue_effect in E as ->. intros [= _ <-]. by apply effect_none.
Qed.

Lemma does_pending_http f : does (enqueue_pending_http f) [] [] [].
Proof.
  intros s a s' Hs. unfold enqueue_pending_http, ebind, eget, eput, elift. rewrite (st_policy s Hs).
  destruct (enqueue_bounded f _ _ _) as [[o|e] buf] eqn:E; [|done].
  apply enqueue_effect in E as ->. intros [= _ <-]. by apply effect_none.
Qed.

(** Recording one frame. *)
Definition frame_at s (ts mono : Z) (dir : Direction) (op : FrameOpcode) (p : list Z) : PendingFrame :=
  mkPendingFrame (cfg_session (sr_cfg s)) (sr_inbound_frame_seq s) ts mono dir op 0 p.

Lemma record_frame_grows s seq ts mono dir op p a s' :
  Strict s -> seq = sr_inbound_frame_seq s -> fits I64 ts -> fits U64 mono -> bytes_ok p ->
  record_frame seq ts mono dir op p s = (Ok a, s') ->
  frame_ok (frame_at s ts mono dir op p) /\
  exists rw rw', sr_recorder s = Some rw /\ rw_started rw' = true /\
    rw_writer rw' = rw_writer rw ++ encode_frame (frame_at s ts mono dir op p) /\
    s' = s ⟪ sr_recorder := Some rw' ⟫.
Proof.
  intros Hs -> Hts Hmono Hp. unfold record_frame, ebind, eget, eput, elift. rewrite (st_pipe s Hs).
  destruct (st_rec s Hs) as (rw & Hrw & Hst). rewrite Hrw.
  change (write_record _ _ _ _ _ _ _ _ rw) with (write_frame (frame_at s ts mono dir op p) rw).
  destruct (write_frame (frame_at s ts mono dir op p) rw) as [[[]|e] rw'] eqn:Ew; [|done]. intros [= _ <-].
  destruct (write_frame_vec (frame_at s ts mono dir op p) rw rw') as (Hf & Hst' & Ebytes); try done;
    try apply Hs. split; [done|]. by exists rw, rw'.
Qed.

Lemma does_record_outbound op p now :
  fits I64 now -> bytes_ok p -> forall s a s', Strict s -> record_outbound op p now s = (Ok a, s') ->
  exists f, effect s s' [] [] [f].
Proof.
  intros Hnow Hp s a s' Hs. unfold record_outbound. unfold ebind at 1, eget at 1. intros E.
  destruct (record_frame_grows s (sr_inbound_frame_seq s) now (wrap U64 now) Outbound op p a s')
    as (Hf & rw & rw' & Hrw & Hst' & Ebytes & ->); try done; [apply wrap_range|].
  exists (frame_at s now (wrap U64 now) Outbound op p). split; try done;
    try (cbn; rewrite app_nil_r; by destruct (sr_dispatch s) as [[] []]).
  - intros rw0 Hr0 _. exists rw'. split; [done|]. split; [done|].
    assert (rw0 = rw) as -> by congruence. rewrite Ebytes. cbn [fmap list_fmap concat]. by rewrite app_nil_r.
  - by constructor.
Qed.

(** Applying the actions of a machine: its batches and the statuses of the
    runner, its system events and the notices of the runner, and the outbound
    frames. *)
Definition emits s (acts : list SessionAction) s' : Prop :=
  exists bs ss fs, effect s s' bs ss fs /\ adds_status (batches_of acts) bs /\ adds_notices (systems_of acts) ss.

Lemma emits_nil s s' : effect s s' [] [] [] -> emits s [] s'.
Proof. intros. by exists [], [], []. Qed.

Lemma emits_app s1 s2 s3 l1 l2 : emits s1 l1 s2 -> emits s2 l2 s3 -> emits s1 (l1 ++ l2) s3.
Proof.
  intros (b1 & e1 & f1 & H1 & B1 & S1) (b2 & e2 & f2 & H2 & B2 & S2).
  exists (b1 ++ b2), (e1 ++ e2), (f1 ++ f2). split; [by eapply effect_trans|].
  rewrite batches_of_app, systems_of_app. auto.
Qed.

Lemma emits_strict s acts s' : emits s acts s' -> Strict s -> Strict s'.
Proof. intros (bs & ss & fs & He & _). by eapply effect_strict. Qed.

Lemma does_send now rec ws p a s x s' :
  fits I64 now -> bytes_ok p -> Strict s ->
  send_recorded true now rec ws p a s = (Ok x, s') -> exists f, effect s s' [] [] [f].
Proof.
  intros Hnow Hp Hs E. unfold send_recorded in E. apply ebind_Ok in E as ([] & s1 & E1 & E2).
  destruct (does_record_outbound rec p now Hnow Hp s tt s1 Hs E1) as [f H1]. exists f.
  assert (does (enqueue_pending_write (mkOutboundFrame ws p) !; settled true (push_mirror_action a)) [] [] []) as Hd
    by (apply does_then; [apply does_pending_write|intros _; apply does_settled_mirror]).
  pose proof (Hd s1 x s' ltac:(by eapply effect_strict) E2) as H2.
  exact (effect_trans _ _ _ _ _ _ _ _ _ H1 H2).
Qed.

Lemma does_events_dropped n d : does (emit_events_dropped n d) [] [EventsDropped n d] [].
Proof.
  unfold emit_events_dropped. apply does_then; [apply does_metric|]. intros _ s a s' Hs E.
  apply ebind_Ok in E as (o & s1 & E1 & E2).
  destruct (push_system_effect _ s o s1 Hs E1) as [-> H1].
  pose proof (does_mirror_system _ s1 a s' ltac:(by eapply effect_strict) E2) as H2.
  exact (effect_trans _ _ _ _ _ _ _ _ _ H1 H2).
Qed.

Lemma schedule_effect spec s a s' :
  Strict s -> schedule_timer spec s = (Ok a, s') -> exists ss, effect s s' [] ss [] /\ data_systems ss = [].
Proof.
  intros Hs. unfold schedule_timer. unfold ebind at 1, eget at 1.
  destruct (negb _ && _); [|intros [= _ <-]; exists []; split; [by apply effect_none|done]].
  intros E. exists [EventsDropped 1 "schedule_timer map full"]. split; [|done].
  by eapply does_events_dropped.
Qed.

(** A method that ends in a status of the runner. *)
Definition does_one_status (m : Eff Runner EngineError unit) : Prop := forall s a s',
  Strict s -> m s = (Ok a, s') -> exists b, is_status b = true /\ effect s s' [b] [] [].

Lemma status_after (m k : Eff Runner EngineError unit) :
  does m [] [] [] -> does_one_status k -> does_one_status (m !; k).
Proof.
  intros Hm Hk s a s' Hs E. apply ebind_Ok in E as ([] & s1 & E1 & E2). pose proof (Hm s tt s1 Hs E1) as H1.
  destruct (Hk s1 a s' ltac:(by eapply effect_strict) E2) as (b & Hb & H2).
  exists b. split; [done|]. exact (effect_trans _ _ _ _ _ _ _ _ _ H1 H2).
Qed.

(** Assignments, metrics and mirrors have no effect. *)
Ltac quiet :=
  first [apply does_metric | apply does_lifecycle | apply does_live | apply does_invalidate
        |apply does_mirror_action | apply does_settled_mirror | apply does_clear_timers | apply does_ret
        |apply does_instant | apply does_elapsed | apply does_lift
        |by intros ? ? ? ? [= _ <-]; apply effect_none].
Ltac silent := repeat first [quiet | apply does_then; [quiet|intros ?]].

Lemma apply_action_emits now a s x s' :
  fits I64 now -> action_bytes a -> Strict s -> apply_action now true a s = (Ok x, s') -> emits s [a] s'.
Proof.
  intros Hnow Ha Hs E. destruct a; cbn [apply_action] in E; cbn [action_bytes] in Ha;
    try (destruct (does_send _ _ _ _ _ _ _ _ Hnow Ha Hs E) as [f Hf]; by exists [], [], [f]).
  - exists [], [], []. split; [|done]. by eapply does_pending_write.
  - exists [], [], []. split; [|done]. revert E. eapply does_then; [apply does_pending_http|intros _|done].
    apply does_settled_mirror.
  - apply ebind_Ok in E as ([] & s1 & E1 & E2). destruct (schedule_effect _ _ _ _ Hs E1) as (ss & H1 & Hss).
    pose proof (does_mirror_action _ s1 x s' ltac:(by eapply effect_strict) E2) as H2.
    exists [], ss, []. split; [|split; [done|by apply adds_notices_only]]. pose proof (effect_trans _ _ _ _ _ _ _ _ _ H1 H2) as H3.
    rewrite (app_nil_r ss) in H3. exact H3.
  - exists [], [], []. split; [|done].
    assert (does (apply_action now true (CancelTimer timer_id)) [] [] []) as Hd by (cbn [apply_action]; silent).
    by eapply Hd.
  - exists [batch], [], []. split; [|done]. by eapply does_dispatch_batch.
  - exists [], [event], []. split; [|done].
    assert (does (apply_action now true (EmitSystem event)) [] [event] []) as Hd; [|by eapply Hd].
    apply does_then; [|intros _; apply does_settled_system]. unfold observe_event. apply does_get.
    intros. apply does_metric.
  - assert (does_one_status (apply_action now true MarkLive)) as Hd
      by (cbn [apply_action]; repeat (apply status_after; [quiet|]); intros s0 a0 s0'; apply does_status).
    destruct (Hd _ _ _ Hs E) as (b & Hb & He). exists [b], [], []. split; [done|]. split; [by apply adds_status_one|done].
  - assert (does_one_status (apply_action now true MarkDegraded)) as Hd
      by (cbn [apply_action]; repeat (apply status_after; [quiet|]); intros s0 a0 s0'; apply does_status).
    destruct (Hd _ _ _ Hs E) as (b & Hb & He). exists [b], [], []. split; [done|]. split; [by apply adds_status_one|done].
  - exists [], [], []. split; [|done]. by eapply does_settled_mirror.
  - exists [], [], []. split; [|done].
    assert (does (apply_action now true (Reconnect reason)) [] [] []) as Hd by (cbn [apply_action]; silent).
    by eapply Hd.
  - exists [], [], []. split; [|done]. by eapply does_settled_mirror.
  - exists [], [], []. split; [|done].
    assert (does (apply_action now true (StopSession reason)) [] [] []) as Hd by (cbn [apply_action]; silent).
    by eapply Hd.
Qed.

Lemma apply_all_emits now acts s x s' :
  fits I64 now -> Forall action_bytes acts -> Strict s ->
  efor acts (apply_action now true) s = (Ok x, s') -> emits s acts s'.
Proof.
  intros Hnow Ha. revert s. induction Ha as [|a acts Ha _ IH]; intros s Hs; cbn [efor].
  - intros [= _ <-]. apply emits_nil, effect_refl.
  - intros E. apply ebind_Ok in E as ([] & s1 & E1 & E2). apply apply_action_emits in E1; try done.
    change (a :: acts) with ([a] ++ acts). eapply emits_app; [exact E1|]. apply IH; [|done].
    by eapply emits_strict.
Qed.
End Live.

(** ** The reference run *)

Section Reference.
Context {M : Type} `{Pushing M} `{MutationJson}.

Definition frame_stamp (f : PendingFrame) : FrameStamp := mkFrameStamp (pf_receive_ts_ns f) (pf_monotonic_ns f).

Definition frame_input (f : PendingFrame) : option SessionInput :=
  match pf_opcode f with
  | OpText => Some (TextFrame (pf_payload f) (frame_stamp f))
  | OpBinary => Some (BinaryFrame (pf_payload f) (frame_stamp f))
  | OpPong => Some (Pong (pf_payload f) (frame_stamp f))
  | OpHttpResponse =>
      match decode_http_response (pf_payload f) with
      | Ok (id, r) => Some (HttpResponseInput id r (frame_stamp f))
      | Err _ => None
      end
  | _ => None
  end.

(** What a recorded frame makes a machine do. *)
Inductive frame_step (m : M) (f : PendingFrame) : list SessionAction -> M -> Prop :=
  | step_outbound : pf_direction f = Outbound -> frame_step m f [] m
  | step_control : pf_direction f = Inbound -> pf_opcode f = OpPing \/ pf_opcode f = OpClose -> frame_step m f [] m
  | step_input i m' acts :
      pf_direction f = Inbound -> frame_input f = Some i -> reacts i m = (Ok tt, m', acts) -> frame_step m f acts m'
  | step_subscribe c w :
      pf_direction f = Inbound -> pf_opcode f = OpSubscriptionCommand ->
      decode_subscription_command (pf_payload f) = Ok (c, w) -> prepare_dynamic_subscription c m = Ok w ->
      frame_step m f [] (commit_dynamic_subscription c m).

Inductive frames_run (m : M) : list PendingFrame -> list SessionAction -> M -> Prop :=
  | run_nil : frames_run m [] [] m
  | run_cons f acts m1 fs acts' m' :
      frame_step m f acts m1 -> frames_run m1 fs acts' m' -> frames_run m (f :: fs) (acts ++ acts') m'.

Lemma frames_run_app m fs acts m1 fs' acts' m' :
  frames_run m fs acts m1 -> frames_run m1 fs' acts' m' -> frames_run m (fs ++ fs') (acts ++ acts') m'.
Proof.
  induction 1 as [|m f a m1 fs acts m2 Hf _ IH]; intros Hr; [done|]. rewrite <- !app_assoc.
  cbn. econstructor; [exact Hf|]. by apply IH.
Qed.

Lemma frames_run_one m f acts m' : frame_step m f acts m' -> frames_run m [f] acts m'.
Proof. intros Hf. rewrite <- (app_nil_r acts). econstructor; [exact Hf|constructor]. Qed.

Lemma frames_run_outbound m fs : Forall (fun f => frame_ok f /\ pf_direction f = Outbound) fs -> frames_run m fs [] m.
Proof.
  induction 1 as [|f fs [_ Hf] _ IH]; [constructor|].
  change (@nil SessionAction) with (@nil SessionAction ++ []). econstructor; [by apply step_outbound|done].
Qed.
End Reference.

(** ** Live calls *)

Section Calls.
Context {M FS : Type} `{Recordable M} `{MutationJsonLaws}.
Context (clock : nat -> Z).
Abbreviation Runner := (SessionRunner M FS).
Implicit Types s : Runner.

(** From [s] to [s'] the runner has recorded [fs], whose reference run makes
    the machine ask for [acts], and emitted accordingly. *)
Record progress s s' (acts : list SessionAction) : Prop := {
  pg_strict : Strict s';
  pg_cfg : sr_cfg s' = sr_cfg s;
  pg_batches : exists bs, items (batches (sr_dispatch s')) = items (batches (sr_dispatch s)) ++ bs /\
    adds_status (batches_of acts) bs;
  pg_systems : exists ss, items (systems (sr_dispatch s')) = items (systems (sr_dispatch s)) ++ ss /\
    adds_notices (systems_of acts) ss;
  pg_frames : exists fs, Forall frame_ok fs /\ frames_run (sr_machine s) fs acts (sr_machine s') /\
    forall rw, sr_recorder s = Some rw ->
    exists rw', sr_recorder s' = Some rw' /\ rw_writer rw' = rw_writer rw ++ concat (encode_frame <$> fs)
}.

Lemma progress_trans s1 s2 s3 a1 a2 : progress s1 s2 a1 -> progress s2 s3 a2 -> progress s1 s3 (a1 ++ a2).
Proof.
  intros [T1 C1 (b1 & B1 & B1') (e1 & E1 & E1') (f1 & F1 & R1 & W1)]
    [T2 C2 (b2 & B2 & B2') (e2 & E2 & E2') (f2 & F2 & R2 & W2)].
  split; [done|congruence| | |].
  - exists (b1 ++ b2). rewrite B2, B1, app_assoc. split; [done|].
    rewrite batches_of_app. auto.
  - exists (e1 ++ e2). rewrite E2, E1, app_assoc. split; [done|].
    rewrite systems_of_app. auto.
  - exists (f1 ++ f2). split; [by apply Forall_app|]. split; [by eapply frames_run_app|].
    intros rw Hr. destruct (W1 rw Hr) as (rw1 & Hr1 & Ew1). destruct (W2 rw1 Hr1) as (rw2 & Hr2 & Ew2).
    exists rw2. split; [done|]. by rewrite Ew2, Ew1, fmap_app, concat_app, app_assoc.
Qed.

(** A step without effect. *)
Lemma effect_progress s s' : Strict s -> effect s s' [] [] [] -> progress s s' [].
Proof.
  intros Hs He. pose proof (effect_strict _ _ _ _ _ He Hs) as Hs'. destruct He. split; try done.
  - exists []. by rewrite ef_batches0.
  - exists []. by rewrite ef_systems0.
  - exists []. split; [done|]. rewrite ef_machine0. split; [constructor|]. intros rw Hr.
    destruct (st_rec s Hs) as (rw1 & Hr1 & Hst). destruct (ef_rec0 rw1 Hr1 Hst) as (rw' & ? & _ & ?).
    exists rw'. split; [done|]. congruence.
Qed.

(** The machine has been fed: it is in state [m'] and its actions wait in the
    buffer, while clocks and metrics have moved. *)
Definition fed s (m' : M) (acts : list SessionAction) s1 : Prop :=
  exists ticks met, s1 = s ⟪ sr_machine := m' ⟫
                           ⟪ sr_actions := (sr_actions s) ⟪ ab_actions := acts ⟫ ⟫
                           ⟪ sr_ticks := ticks ⟫ ⟪ sr_metrics := met ⟫.

Lemma feed_machine i s x s1 :
  Strict s -> on_machine (on_input i) s = (Ok x, s1) ->
  exists m' acts, reacts i (sr_machine s) = (Ok tt, m', acts) /\ Forall action_bytes acts /\ fed s m' acts s1.
Proof.
  intros Hs. unfold on_machine. rewrite on_input_reacts.
  destruct (reacts i (sr_machine s)) as [[r m'] acts] eqn:E. destruct (reacts_fit _ _ _ _ _ E) as [Hlen Hb].
  destruct (st_clean s Hs) as (Ha & Hd & Hc). rewrite ab_extend_fits; [|done|done|unfold blen in Hlen; lia].
  destruct r as [[]|e]; cbn [map_err]; [|done]. intros [= _ <-]. exists m', acts. split; [done|]. split; [done|].
  exists (sr_ticks s), (sr_metrics s). by destruct s.
Qed.

Lemma strict_fed s m' acts s1 : Strict s -> fed s m' acts s1 -> 
  Strict (s1 ⟪ sr_actions := (sr_actions s1) ⟪ ab_actions := [] ⟫ ⟫).
Proof. intros [] (ticks & met & ->). destruct st_clean0 as (_ & ? & ?). by split. Qed.

Lemma note_none s : ab_dropped (sr_actions s) = 0 -> note_action_buffer_drops s = (Ok tt, s).
Proof.
  intros Hd. unfold note_action_buffer_drops, ebind, eget, eput, take_dropped. rewrite Hd.
  destruct s as [? ? ? [? ? ?] ? ? ? ? ? ? ? ? ? ? ? ? ? ? ? ?]. cbn in Hd. by rewrite Hd.
Qed.

Lemma apply_actions_eq now s :
  apply_actions now s =
  efor (ab_actions (sr_actions s)) (apply_action now true)
    (s ⟪ sr_actions := (sr_actions s) ⟪ ab_actions := [] ⟫ ⟫).
Proof. reflexivity. Qed.

(** Applying what waits in the buffer. *)
Lemma apply_fed s m' acts s1 now x s' :
  Strict s -> fed s m' acts s1 -> Forall action_bytes acts -> fits I64 now ->
  apply_actions now s1 = (Ok x, s') ->
  emits (s1 ⟪ sr_actions := (sr_actions s1) ⟪ ab_actions := [] ⟫ ⟫) acts s'.
Proof.
  intros Hs Hf Hb Hnow. pose proof (strict_fed _ _ _ _ Hs Hf) as Hs1.
  assert (ab_actions (sr_actions s1) = acts) as Ha by (by destruct Hf as (ticks & met & ->)).
  rewrite apply_actions_eq, Ha. by apply apply_all_emits.
Qed.

Lemma fed_dropped s m' acts s1 : Strict s -> fed s m' acts s1 -> ab_dropped (sr_actions s1) = 0.
Proof. intros Hs (ticks & met & ->). apply (st_clean s Hs). Qed.

(** [f] has been written: [s_r] is [s] with the longer recording. *)
Definition wrote s (f : PendingFrame) s_r : Prop :=
  exists rw rw', sr_recorder s = Some rw /\ rw_started rw' = true /\
    rw_writer rw' = rw_writer rw ++ encode_frame f /\ s_r = s ⟪ sr_recorder := Some rw' ⟫.

Lemma wrote_strict s f s_r : Strict s -> wrote s f s_r -> Strict s_r.
Proof. intros [] (rw & rw' & _ & Hst & _ & ->). split; try done. by exists rw'. Qed.

(** Recorded, delivered, and its actions applied. *)
Lemma delivered_progress s f s_r s_q m' acts s1 s' :
  Strict s -> frame_ok f -> frame_step (sr_machine s) f acts m' -> wrote s f s_r ->
  effect s_r s_q [] [] [] -> fed s_q m' acts s1 ->
  emits (s1 ⟪ sr_actions := (sr_actions s1) ⟪ ab_actions := [] ⟫ ⟫) acts s' -> progress s s' acts.
Proof.
  intros Hs Hf Hstep Hw Hq Hfed (bs & ss & fs & He & Hb & Hss).
  pose proof (wrote_strict _ _ _ Hs Hw) as Hr. pose proof (effect_strict _ _ _ _ _ Hq Hr) as Hsq.
  pose proof (effect_strict _ _ _ _ _ He (strict_fed _ _ _ _ Hsq Hfed)) as Hs'.
  destruct Hw as (rw & rw' & Hrw & Hst & Ebytes & ->). destruct Hfed as (ticks & met & ->).
  destruct Hq as [Qc Qm _ _ _ Qb Qe Qr _], He as [Ec Em _ _ _ Eb Ee Er Ef]. cbn [sr_cfg sr_machine sr_dispatch sr_recorder set_field] in *.
  split; [done|congruence| | |].
  - exists bs. split; [|done]. rewrite Eb, Qb. cbn. by rewrite app_nil_r.
  - exists ss. split; [|done]. rewrite Ee, Qe. cbn. by rewrite app_nil_r.
  - exists (f :: fs). rewrite Em. split; [|split].
    + constructor; [done|]. eapply Forall_impl; [exact Ef|]. by intros ? [? _].
    + rewrite <- (app_nil_r acts). econstructor; [exact Hstep|]. by apply frames_run_outbound.
    + intros rw0 Hr0. assert (rw0 = rw) as -> by congruence.
      destruct (Qr rw' eq_refl Hst) as (rw1 & Hr1 & Hst1 & E1). destruct (Er rw1 Hr1 Hst1) as (rw2 & Hr2 & _ & E2).
      exists rw2. split; [done|]. rewrite E2, E1, Ebytes. cbn [fmap list_fmap concat]. by rewrite app_nil_r, <- app_assoc.
Qed.

(** Recorded, without actions. *)
Lemma recorded_progress s f s_r s' m' :
  Strict s -> frame_ok f -> frame_step (sr_machine s) f [] m' -> wrote s f s_r ->
  sr_machine s' = m' -> sr_cfg s' = sr_cfg s_r -> sr_dispatch s' = sr_dispatch s_r ->
  sr_recorder s' = sr_recorder s_r -> sr_recording_pipeline s' = sr_recording_pipeline s_r ->
  sr_inbound_frame_seq s' = sr_inbound_frame_seq s_r -> sr_actions s' = sr_actions s_r -> progress s s' [].
Proof.
  intros Hs Hf Hstep Hw Hm Hc Hd Hr Hp Hq Ha. pose proof (wrote_strict _ _ _ Hs Hw) as Hsr.
  destruct Hw as (rw & rw' & Hrw & Hst & Ebytes & ->). cbn [sr_cfg sr_dispatch sr_recorder set_field] in *.
  split.
  - destruct Hsr. split; rewrite ?Hc, ?Hd, ?Hp, ?Hq, ?Ha, ?Hr; try done.
  - done.
  - exists []. by rewrite Hd, app_nil_r.
  - exists []. by rewrite Hd, app_nil_r.
  - exists [f]. split; [by constructor|]. rewrite Hm. split; [by apply frames_run_one|].
    intros rw0 Hr0. assert (rw0 = rw) as -> by congruence. exists rw'. split; [done|].
    rewrite Ebytes. cbn [fmap list_fmap concat]. by rewrite app_nil_r.
Qed.

(** The calls whose inputs are recorded, on values of their Rust types. *)
Definition stamp_ok (st : FrameStamp) : Prop := fits I64 (stamp_receive_ts st) /\ fits U64 (stamp_mono_ns st).

Definition response_bytes (r : HttpResponse) : Prop :=
  Forall (fun h => bytes_ok h.1 /\ bytes_ok h.2) (hr_headers r) /\ bytes_ok (hr_body r).

Definition replayable (c : RunnerCall) : Prop :=
  match c with
  | CallText b st | CallBinary b st | CallPing b st | CallClose b st | CallPong b st => bytes_ok b /\ stamp_ok st
  | CallHttp id r st =>
      fits U64 id /\ fits U16 (hr_status r) /\ Forall header_utf8 (hr_headers r) /\ response_bytes r /\
      redact r = r /\ stamp_ok st
  | CallControl (Subscribe _ | Unsubscribe _ | Replace _) now => fits I64 now
  | CallTakeWrites | CallTakeHttp | CallDrain | CallNoteReconnect => True
  | _ => False
  end.

Lemma seq_progress s q : Strict s -> fits U64 q -> progress s (s ⟪ sr_inbound_frame_seq := q ⟫) [].
Proof.
  intros Hs Hq. split; try done.
  - by destruct Hs.
  - exists []. by rewrite app_nil_r.
  - exists []. by rewrite app_nil_r.
  - exists []. split; [done|]. split; [constructor|]. intros rw Hr. exists rw. cbn. by rewrite app_nil_r.
Qed.

Lemma record_inbound_wrote s st op p x s_r :
  Strict s -> stamp_ok st -> bytes_ok p ->
  record_inbound (sr_inbound_frame_seq s) st op p s = (Ok x, s_r) ->
  let f := frame_at s (stamp_receive_ts st) (stamp_mono_ns st) Inbound op p in frame_ok f /\ wrote s f s_r.
Proof.
  intros Hs [Hts Hmono] Hp E. unfold record_inbound in E.
  apply (record_frame_grows s _ _ _ Inbound op p x s_r) in E as (Hf & rw & rw' & ? & ? & ? & ->); try done.
  split; [done|]. by exists rw, rw'.
Qed.

Lemma clear_actions_none s x s1 : Strict s -> clear_actions s = (Ok x, s1) -> effect s s1 [] [] [].
Proof.
  intros Hs [= _ <-]. destruct (st_clean s Hs) as (Ha & _). apply effect_none; try done. cbn.
  unfold ab_clear. destruct s as [? ? ? [? ? ?] ? ? ? ? ? ? ? ? ? ? ? ? ? ? ? ?]. cbn in *. by subst.
Qed.

Lemma effect_then s1 s2 s3 : effect s1 s2 [] [] [] -> effect s2 s3 [] [] [] -> effect s1 s3 [] [] [].
Proof. intros H1' H2'. exact (effect_trans _ _ _ _ _ _ _ _ _ H1' H2'). Qed.

(** A frame recorded in [s], fed to the machine and applied. *)
Lemma react_progress s f i s_r s_q x now s' :
  Strict s -> frame_ok f -> pf_direction f = Inbound -> frame_input f = Some i -> fits I64 now ->
  wrote s f s_r -> effect s_r s_q [] [] [] ->
  (on_machine (on_input i) !; note_action_buffer_drops !; apply_actions now) s_q = (Ok x, s') ->
  exists acts, progress s s' acts.
Proof.
  intros Hs Hf Hd Hi Hnow Hw Hq E. apply ebind_Ok in E as ([] & s1 & E1 & E).
  pose proof (effect_strict _ _ _ _ _ Hq (wrote_strict _ _ _ Hs Hw)) as Hsq.
  destruct (feed_machine i s_q tt s1 Hsq E1) as (m' & acts & Hr & Hb & Hfed).
  unfold ebind in E. rewrite (note_none s1) in E by (by eapply fed_dropped).
  exists acts. eapply delivered_progress; try done; [|by eapply apply_fed].
  apply (step_input _ _ i); try done. rewrite <- Hr. f_equal.
  rewrite (ef_machine _ _ _ _ _ Hq). by destruct Hw as (rw & rw' & _ & _ & _ & ->).
Qed.

Lemma next_seq_eq s : next_seq s =
  (Ok (wrap U64 (sr_inbound_frame_seq s + 1)), s ⟪ sr_inbound_frame_seq := wrap U64 (sr_inbound_frame_seq s + 1) ⟫).
Proof. reflexivity. Qed.

Lemma metric_progress s f x s1 : Strict s -> metric f s = (Ok x, s1) -> progress s s1 [].
Proof. intros Hs E. apply effect_progress; [done|]. by eapply does_metric. Qed.

Lemma progress_after s1 s2 s3 : progress s1 s2 [] -> (exists acts, progress s2 s3 acts) -> exists acts, progress s1 s3 acts.
Proof. intros Hp [acts Ha]. exists acts. exact (progress_trans _ _ _ [] acts Hp Ha). Qed.

(** The common start of the frame handlers. *)
Lemma received_progress f (k : Z -> Eff Runner EngineError unit) s x s' :
  Strict s -> (metric f !; let! seq := next_seq in k seq) s = (Ok x, s') ->
  exists s2, progress s s2 [] /\ Strict s2 /\ k (sr_inbound_frame_seq s2) s2 = (Ok x, s').
Proof.
  intros Hs E. apply ebind_Ok in E as ([] & s1 & E1 & E). pose proof (metric_progress _ _ _ _ Hs E1) as P1.
  rewrite (ebind_run _ _ _ _ _ (next_seq_eq s1)) in E.
  pose proof (seq_progress s1 _ (pg_strict _ _ _ P1) (wrap_range U64 (sr_inbound_frame_seq s1 + 1))) as P2.
  eexists. split; [exact (progress_trans _ _ _ _ _ P1 P2)|]. split; [apply P2|exact E].
Qed.

Lemma control_frame_progress op b st s x s' :
  op = OpPing \/ op = OpClose -> bytes_ok b -> stamp_ok st -> Strict s ->
  on_control_frame op b st s = (Ok x, s') -> exists acts, progress s s' acts.
Proof.
  intros Hop Hb Hst Hs E. apply received_progress in E as (s2 & P2 & Hs2 & E); [|done].
  eapply progress_after; [exact P2|].
  destruct (record_inbound_wrote _ st op b x s' Hs2 Hst Hb E) as [Hf Hw].
  exists []. pose proof Hw as (rw & rw' & _ & _ & _ & Es).
  eapply recorded_progress; [done|done|by apply step_control|exact Hw|..]; by rewrite Es.
Qed.

Lemma pong_progress b st s x s' :
  bytes_ok b -> stamp_ok st -> Strict s -> on_pong_frame b st s = (Ok x, s') -> exists acts, progress s s' acts.
Proof.
  intros Hb Hst Hs E. apply received_progress in E as (s2 & P2 & Hs2 & E); [|done].
  eapply progress_after; [exact P2|]. apply ebind_Ok in E as ([] & s_r & E1 & E).
  destruct (record_inbound_wrote _ st OpPong b tt s_r Hs2 Hst Hb E1) as [Hf Hw].
  unfold react, feed in E. apply ebind_Ok in E as ([] & s3 & E2 & E). apply ebind_Ok in E2 as ([] & s_q & Ec & E2).
  pose proof (clear_actions_none _ _ _ (wrote_strict _ _ _ Hs2 Hw) Ec) as Hq.
  eapply (react_progress s2 _ (Pong b st) s_r s_q x (stamp_receive_ts st));
    [done|exact Hf|done|by destruct st|apply Hst|exact Hw|done|].
  by rewrite (ebind_run _ _ _ _ _ E2).
Qed.

(** Feeding the machine while the clock runs. *)
Lemma timed_feed i (k : Eff Runner EngineError unit) s_r x s' :
  Strict s_r ->
  (clear_actions !; let! t := instant_now clock in on_machine (on_input i) !;
   let! ns := elapsed_ns clock t in metric (observe_parse_duration_ns ns) !; k) s_r = (Ok x, s') ->
  exists s_q m' acts s1, effect s_r s_q [] [] [] /\ reacts i (sr_machine s_r) = (Ok tt, m', acts) /\
    Forall action_bytes acts /\ fed s_q m' acts s1 /\ k s1 = (Ok x, s').
Proof.
  intros Hs E. apply ebind_Ok in E as ([] & s1 & Ec & E).
  pose proof (clear_actions_none _ _ _ Hs Ec) as Hq1.
  apply ebind_Ok in E as (t & s_q & Et & E).
  pose proof (does_instant clock s1 t s_q (effect_strict _ _ _ _ _ Hq1 Hs) Et) as Hq2.
  pose proof (effect_then _ _ _ Hq1 Hq2) as Hq. pose proof (effect_strict _ _ _ _ _ Hq Hs) as Hsq.
  apply ebind_Ok in E as ([] & s2 & Em & E).
  destruct (feed_machine i s_q tt s2 Hsq Em) as (m' & acts & Hr & Hb & (ticks & met & Ef)).
  unfold elapsed_ns, instant_now, metric, emod, eret, ebind in E.
  exists s_q, m', acts. eexists. split; [exact Hq|]. split; [by rewrite <- (ef_machine _ _ _ _ _ Hq)|].
  split; [done|]. split; [|exact E]. rewrite Ef. eexists _, _. reflexivity.
Qed.

Lemma data_progress op i b st s x s' :
  op = OpText /\ i = TextFrame b st \/ op = OpBinary /\ i = BinaryFrame b st ->
  bytes_ok b -> stamp_ok st -> Strict s ->
  on_data_frame clock op i b st s = (Ok x, s') -> exists acts, progress s s' acts.
Proof.
  intros Hop Hb Hst Hs E. unfold on_data_frame in E. apply ebind_Ok in E as (t0 & s0 & E0 & E).
  pose proof (does_instant clock s t0 s0 Hs E0) as He0. pose proof (effect_strict _ _ _ _ _ He0 Hs) as Hs0.
  eapply progress_after; [by apply effect_progress|].
  apply received_progress in E as (s2 & P2 & Hs2 & E); [|done]. eapply progress_after; [exact P2|].
  apply ebind_Ok in E as ([] & s_r & E1 & E).
  destruct (record_inbound_wrote _ st op b tt s_r Hs2 Hst Hb E1) as [Hf Hw].
  pose proof (wrote_strict _ _ _ Hs2 Hw) as Hsr.
  apply timed_feed in E as (s_q & m' & acts & s1 & Hq & Hr & Hba & Hfed & E); [|done].
  pose proof (effect_strict _ _ _ _ _ Hq Hsr) as Hsq.
  rewrite (ebind_run _ _ _ _ _ (note_none s1 (fed_dropped _ _ _ _ Hsq Hfed))) in E.
  apply ebind_Ok in E as (out & s3 & E3 & E). unfold ecatch in E3.
  destruct (apply_actions (stamp_receive_ts st) s1) as [r s3'] eqn:Ea. injection E3 as <- <-.
  assert (r = Ok tt /\ effect s3' s' [] [] []) as [-> He].
  { unfold elapsed_ns, instant_now, metric, emod, eret, ebind, elift in E. injection E as -> <-. destruct x.
    split; [done|]. by apply effect_none. }
  pose proof (apply_fed _ _ _ _ _ _ _ Hsq Hfed Hba (proj1 Hst) Ea) as Hem.
  exists acts. eapply delivered_progress; try done.
  - apply (step_input _ _ i); [done| |].
    + destruct st. by destruct Hop as [[-> ->]|[-> ->]].
    + rewrite <- Hr. f_equal. by destruct Hw as (rw & rw' & _ & _ & _ & ->).
  - rewrite <- (app_nil_r acts). eapply emits_app; [exact Hem|]. by eapply emits_nil.
Qed.

(** The payload of a recorded response. *)
Lemma field_bytes v : bytes_ok v -> bytes_ok (field v).
Proof. intros Hv. apply Forall_app. split; [apply to_le_bytes_ok|done]. Qed.

Lemma redacted_bytes : bytes_ok REDACTED.
Proof. apply (bool_decide_unpack _). vm_compute. exact I. Qed.

Lemma http_payload_bytes id r p : encode_http_response id r = Ok p -> response_bytes r -> bytes_ok p.
Proof.
  intros (-> & _)%encode_http_Ok [Hh Hb]. unfold http_bytes. cbn [redact hr_status hr_headers hr_body].
  repeat (apply Forall_app; split); try apply to_le_bytes_ok; [|done].
  apply Forall_concat, Forall_fmap, Forall_fmap. eapply Forall_impl; [exact Hh|]. intros [n v] [Hn Hv].
  apply Forall_app. split; apply field_bytes; [done|]. cbn.
  destruct (is_sensitive_header n); [apply redacted_bytes|done].
Qed.

Lemma emod_bind {A} f (k : Eff Runner EngineError A) s : (emod f !; k) s = k (f s).
Proof. reflexivity. Qed.

Lemma http_progress id r st s x s' :
  fits U64 id -> fits U16 (hr_status r) -> Forall header_utf8 (hr_headers r) -> response_bytes r -> redact r = r ->
  stamp_ok st -> Strict s -> on_http_response clock id r st s = (Ok x, s') -> exists acts, progress s s' acts.
Proof.
  intros Hid Hstat Hutf Hrb Hred Hst Hs E. unfold on_http_response in E.
  rewrite emod_bind in E.
  pose proof (seq_progress s (saturating_add U64 (sr_inbound_frame_seq s) 1) Hs (saturate_fits U64 _)) as P0.
  eapply progress_after; [exact P0|]. pose proof (pg_strict _ _ _ P0) as Hs0. clear P0 Hs.
  set (s0 := s ⟪ sr_inbound_frame_seq := _ ⟫) in *. unfold ebind at 1, eget at 1 in E.
  rewrite ebind_elift in E. destruct (encode_http_response id r) as [p|] eqn:Ep; cbn [map_err] in E; [|done].
  pose proof (http_payload_bytes id r p Ep Hrb) as Hp.
  pose proof (encode_decode_http id r p Hid Hstat Hutf Ep) as Hdec. rewrite Hred in Hdec.
  apply ebind_Ok in E as ([] & s1 & E1 & E). eapply progress_after; [by eapply metric_progress|].
  pose proof (pg_strict _ _ _ (metric_progress _ _ _ _ Hs0 E1)) as Hs1.
  assert (sr_inbound_frame_seq s0 = sr_inbound_frame_seq s1) as Eseq by (by injection E1 as <-). rewrite Eseq in E.
  clear E1 Hs0 Eseq. apply ebind_Ok in E as ([] & s_r & E1 & E).
  destruct (record_inbound_wrote _ st OpHttpResponse p tt s_r Hs1 Hst Hp E1) as [Hf Hw].
  pose proof (wrote_strict _ _ _ Hs1 Hw) as Hsr.
  apply timed_feed in E as (s_q & m' & acts & s2 & Hq & Hr & Hba & Hfed & E); [|done].
  pose proof (effect_strict _ _ _ _ _ Hq Hsr) as Hsq.
  rewrite (ebind_run _ _ _ _ _ (note_none s2 (fed_dropped _ _ _ _ Hsq Hfed))) in E.
  exists acts. eapply delivered_progress; try done; [|exact (apply_fed _ _ _ _ _ _ _ Hsq Hfed Hba (proj1 Hst) E)].
  apply (step_input _ _ (HttpResponseInput id r st)); [done| |].
  - unfold frame_input. cbn [pf_opcode frame_at pf_payload]. rewrite Hdec. by destruct st.
  - rewrite <- Hr. f_equal. by destruct Hw as (rw & rw' & _ & _ & _ & ->).
Qed.

Lemma u64_of_now now : fits U64 (default 0 (to_ty U64 now)).
Proof. destruct (to_ty U64 now) as [n|] eqn:E; [apply to_ty_Some in E as [-> ?]; done|by vm_compute]. Qed.

Lemma encode_subscription_bytes c w p : encode_subscription_command c w = Ok p -> bytes_ok p.
Proof.
  unfold encode_subscription_command. intros E. res. destruct (_ <? _); [done|]. injection E as <-.
  by eapply mutation_to_bytes.
Qed.

Lemma subscription_progress c now s x s' :
  fits I64 now -> Strict s -> deliver_subscription_control c now s = (Ok x, s') -> exists acts, progress s s' acts.
Proof.
  intros Hnow Hs E. apply deliver_subscribed in E. inversion E as [|w s1 met Hw Hp Hr]; subst. clear E.
  unfold record_subscription_command in Hr. unfold ebind at 1, eget at 1 in Hr.
  rewrite (st_pipe s Hs) in Hr. destruct (st_rec s Hs) as (rw & Hrw & Hst). rewrite Hrw in Hr.
  rewrite ebind_elift in Hr. destruct (encode_subscription_command c w) as [p|] eqn:Ep; cbn [map_err] in Hr; [|done].
  destruct (record_frame_grows s _ _ _ Inbound OpSubscriptionCommand p tt s1 Hs eq_refl Hnow
    (u64_of_now now) (encode_subscription_bytes c w p Ep) Hr) as (Hf & rw0 & rw' & H1' & H2' & H3' & ->).
  destruct (subscription_round_trip c w p Ep) as [Hdec _]. exists [].
  eapply recorded_progress; [exact Hs|exact Hf| |by exists rw0, rw'|..]; try done.
  by apply (step_subscribe _ _ c w).
Qed.

Lemma frames_sent (l : list OutboundFrame) s x s' :
  efor l (fun w => metric (record_frame_sent (blen (of_payload w)))) s = (Ok x, s') -> Strict s -> progress s s' [].
Proof.
  revert s. induction l as [|w l IH]; intros s E Hs; cbn [efor] in E.
  - injection E as _ <-. apply effect_progress; [done|apply effect_refl].
  - apply ebind_Ok in E as ([] & s1 & E1 & E). pose proof (metric_progress _ _ _ _ Hs E1) as P1.
    exact (progress_trans _ _ _ _ _ P1 (IH s1 E (pg_strict _ _ _ P1))).
Qed.

(** Every recorded call, the drains of the dispatcher apart. *)
Lemma call_progress c s s' :
  replayable c -> c <> CallDrain -> Strict s -> run_call clock c s = (Ok tt, s') -> exists acts, progress s s' acts.
Proof.
  intros Hc Hd Hs E. destruct c; cbn [replayable] in Hc; try done; cbn [run_call] in E.
  - destruct Hc. eapply data_progress; [|done..|exact E]. by left.
  - destruct Hc. eapply data_progress; [|done..|exact E]. by right.
  - destruct Hc. eapply control_frame_progress; [|done..|exact E]. by left.
  - destruct Hc. eapply control_frame_progress; [|done..|exact E]. by right.
  - destruct Hc. by eapply pong_progress.
  - destruct Hc as (? & ? & ? & ? & ? & ?). by eapply http_progress.
  - destruct command; try done; by eapply subscription_progress.
  - exists []. apply ebind_Ok in E as (? & s1 & E1 & [= <-]). unfold take_pending_writes in E1.
    unfold ebind at 1, eget at 1 in E1. unfold ebind at 1, eput at 1 in E1.
    apply ebind_Ok in E1 as ([] & s2 & E1 & [= _ <-]).
    assert (progress s (s ⟪ sr_pending_writes := [] ⟫) []) as P1 by (apply effect_progress; [done|by apply effect_none]).
    exact (progress_trans _ _ _ _ _ P1 (frames_sent _ _ _ _ E1 (pg_strict _ _ _ P1))).
  - exists []. injection E as <-. apply effect_progress; [done|]. by apply effect_none.
  - exists []. injection E as <-. apply effect_progress; [done|]. by apply effect_none.
Qed.

(** ** A live session *)

(** What a drain of the dispatcher hands to the consumer. *)
Definition taken (c : RunnerCall) s : list EventBatch * list SystemEvent :=
  match c with
  | CallDrain => (items (batches (sr_dispatch s)), items (systems (sr_dispatch s)))
  | _ => ([], [])
  end.

(** The calls in order, all of which must succeed, with what was consumed. *)
Fixpoint live (cs : list RunnerCall) s : option (list EventBatch * list SystemEvent * Runner) :=
  match cs with
  | [] => Some ([], [], s)
  | c :: cs =>
      match run_call clock c s with
      | (Ok _, s1) =>
          '(bs, ss, s') ← live cs s1;
          Some ((taken c s).1 ++ bs, (taken c s).2 ++ ss, s')
      | (Err _, _) => None
      end
  end.

(** Everything a session has emitted: consumed, or still queued. *)
Definition emitted_batches (bs : list EventBatch) s : list EventBatch := bs ++ items (batches (sr_dispatch s)).
Definition emitted_systems (ss : list SystemEvent) s : list SystemEvent := ss ++ items (systems (sr_dispatch s)).

Record lived s bs ss s' (acts : list SessionAction) : Prop := {
  lv_strict : Strict s';
  lv_batches : exists bs', emitted_batches bs s' = items (batches (sr_dispatch s)) ++ bs' /\
    adds_status (batches_of acts) bs';
  lv_systems : exists ss', emitted_systems ss s' = items (systems (sr_dispatch s)) ++ ss' /\
    adds_notices (systems_of acts) ss';
  lv_frames : exists fs, Forall frame_ok fs /\ frames_run (sr_machine s) fs acts (sr_machine s') /\
    forall rw, sr_recorder s = Some rw ->
    exists rw', sr_recorder s' = Some rw' /\ rw_writer rw' = rw_writer rw ++ concat (encode_frame <$> fs)
}.

Lemma lived_progress s s1 a1 bs ss s' a2 : progress s s1 a1 -> lived s1 bs ss s' a2 -> lived s bs ss s' (a1 ++ a2).
Proof.
  intros [T1 C1 (b1 & B1 & B1') (e1 & E1 & E1') (f1 & F1 & R1 & W1)]
    [T2 (b2 & B2 & B2') (e2 & E2 & E2') (f2 & F2 & R2 & W2)]. split; [done| | |].
  - exists (b1 ++ b2). rewrite B2, B1, app_assoc, batches_of_app. auto.
  - exists (e1 ++ e2). rewrite E2, E1, app_assoc, systems_of_app. auto.
  - exists (f1 ++ f2). split; [by apply Forall_app|]. split; [by eapply frames_run_app|].
    intros rw Hr. destruct (W1 rw Hr) as (rw1 & Hr1 & Ew1). destruct (W2 rw1 Hr1) as (rw2 & Hr2 & Ew2).
    exists rw2. split; [done|]. by rewrite Ew2, Ew1, fmap_app, concat_app, app_assoc.
Qed.

Lemma drain_strict s : Strict s -> Strict (snd (drain_dispatch s)).
Proof. intros []. rewrite drain_dispatch_eq. by split. Qed.

Lemma live_lived cs s bs ss s' :
  Forall replayable cs -> Strict s -> live cs s = Some (bs, ss, s') -> exists acts, lived s bs ss s' acts.
Proof.
  intros Hc. revert s bs ss. induction Hc as [|c cs Hc _ IH]; intros s bs ss Hs E; cbn [live] in E.
  { injection E as <- <- <-. exists []. split; [done| | |].
    - exists []. by rewrite app_nil_r.
    - exists []. by rewrite app_nil_r.
    - exists []. split; [done|]. split; [constructor|]. intros rw Hr. exists rw. cbn. by rewrite app_nil_r. }
  destruct (run_call clock c s) as [[[]|e] s1] eqn:Er; [|done].
  destruct (live cs s1) as [[[bs1 ss1] s2]|] eqn:El; [|done]. injection E as <- <- <-.
  assert (c = CallDrain \/ c <> CallDrain) as [->|Hn] 
    by (clear; destruct c; (by left) || (right; discriminate)).
  - cbn [run_call] in Er. pose proof (drain_strict s Hs) as Hs1. unfold drop_value, ebind in Er.
    rewrite drain_dispatch_eq in Er, Hs1. cbn [snd] in Hs1. injection Er as <-.
    destruct (IH _ _ _ Hs1 El) as (acts & [T2 (b2 & B2 & B2') (e2 & E2 & E2') (f2 & F2 & R2 & W2)]).
    exists acts. unfold emitted_batches, emitted_systems in *. cbn in B2, E2. split; [done| | |].
    + exists b2. unfold emitted_batches. cbn [taken fst]. by rewrite <- app_assoc, B2.
    + exists e2. unfold emitted_systems. cbn [taken snd]. by rewrite <- app_assoc, E2.
    + by exists f2.
  - assert (taken c s = ([], [])) as -> by (by destruct c). cbn [fst snd app].
    destruct (call_progress c s s1 Hc Hn Hs Er) as (a1 & P1). destruct (IH s1 _ _ (pg_strict _ _ _ P1) El) as (a2 & L2).
    exists (a1 ++ a2). by eapply lived_progress.
Qed.
End Calls.

(** ** The replay *)

Section Replayed.
Context {M : Type} `{Recordable M} `{MutationJsonLaws}.
Context (metadata_from_slice : list Z -> option MetadataRecord).
Implicit Types st : Replaying M.

Abbreviation lane_b := (fun st => batches (rp_dispatch (rs_runner st))).
Abbreviation lane_s := (fun st => systems (rp_dispatch (rs_runner st))).

(** Between two records: strict lanes, an empty buffer, no loss so far. *)
Record Idle st : Prop := {
  id_batches : policy (lane_b st) = FailEngine;
  id_systems : policy (lane_s st) = FailEngine;
  id_clean : ab_actions (rp_actions (rs_runner st)) = [] /\ ab_dropped (rp_actions (rs_runner st)) = 0 /\
    DEFAULT_ACTION_BUFFER_CAPACITY <= ab_capacity (rp_actions (rs_runner st));
  id_counts : rp_drop_counts (rs_runner st) = [];
  id_lost : ro_dropped_events (rs_outcome st) = 0
}.

(** [st'] is [st] after the machine went to [m'] with [acts]. *)
Record absorbed st (acts : list SessionAction) (m' : M) st' : Prop := {
  ab_idle : Idle st';
  ab_machine : rs_machine st' = m';
  ab_batches : lane_b st' = (lane_b st) ⟪ items := items (lane_b st) ++ batches_of acts ⟫;
  ab_systems : lane_s st' = (lane_s st) ⟪ items := items (lane_s st) ++ systems_of acts ⟫;
  ab_market : ro_market_batches (rs_outcome st') = ro_market_batches (rs_outcome st);
  ab_events : ro_system_events (rs_outcome st') = ro_system_events (rs_outcome st);
  ab_others : ro_other_actions (rs_outcome st') = ro_other_actions (rs_outcome st) ++ others_of acts;
  ab_meta : ro_metadata (rs_outcome st') = ro_metadata (rs_outcome st)
}.

(** The lanes have room for what [acts] emits. *)
Definition room st (acts : list SessionAction) : Prop :=
  queue_len (lane_b st) + blen (batches_of acts) <= capacity (lane_b st) /\
  queue_len (lane_s st) + blen (systems_of acts) <= capacity (lane_s st).

Lemma absorbed_trans st1 a1 m1 st2 a2 m2 st3 :
  absorbed st1 a1 m1 st2 -> absorbed st2 a2 m2 st3 -> absorbed st1 (a1 ++ a2) m2 st3.
Proof.
  intros [] []. split; try done; try congruence.
  - rewrite ab_batches1, ab_batches0, batches_of_app. cbn. by rewrite app_assoc.
  - rewrite ab_systems1, ab_systems0, systems_of_app. cbn. by rewrite app_assoc.
  - rewrite ab_others1, ab_others0, others_of_app. by rewrite app_assoc.
Qed.

Lemma room_app st1 a1 m1 st2 a2 : absorbed st1 a1 m1 st2 -> room st1 (a1 ++ a2) -> room st1 a1 /\ room st2 a2.
Proof.
  intros [] [Rb Rs]. unfold room, queue_len, blen in *. rewrite ab_batches0, ab_systems0.
  cbn. rewrite batches_of_app, systems_of_app, !length_app in *. lia.
Qed.

Lemma room_prefix st a1 a2 : room st (a1 ++ a2) -> room st a1.
Proof. unfold room, blen. rewrite batches_of_app, systems_of_app, !length_app. lia. Qed.

Lemma push_room {T} (x : T) q :
  queue_len q < capacity q -> try_push x q = (Ok Accepted, q ⟪ items := items q ++ [x] ⟫).
Proof. intros Hl. unfold try_push, ebind, eget. by rewrite (proj2 (Z.ltb_lt _ _)). Qed.

(** An action that is neither a batch nor a system event. *)
Lemma absorbed_other a st :
  Idle st -> batches_of [a] = [] -> systems_of [a] = [] -> others_of [a] = [a] ->
  absorbed st [a] (rs_machine st)
    (st ⟪ rs_outcome := (rs_outcome st) ⟪ ro_other_actions := ro_other_actions (rs_outcome st) ++ [a] ⟫ ⟫).
Proof.
  intros [Ib Is Ic Id Il] Hb Hs Ho. split; try done.
  - by rewrite Hb, items_nil.
  - by rewrite Hs, items_nil.
  - by rewrite Ho.
Qed.

Lemma absorb_one a st :
  Idle st -> room st [a] -> exists st', absorb_action a st = (Ok tt, st') /\ absorbed st [a] (rs_machine st) st'.
Proof.
  intros Hi [Rb Rs].
  destruct a; cbn [absorb_action]; try (eexists; split; [reflexivity|]; by apply absorbed_other).
  - unfold rep_dispatch, push_batch, ezoom, ebind. rewrite push_room by (unfold blen in Rb; cbn in Rb; lia).
    eexists. split; [reflexivity|]. destruct Hi. split; try done.
    + cbn. rewrite app_nil_r. by destruct (systems _).
    + cbn. by rewrite app_nil_r.
  - unfold rep_dispatch, push_system, ezoom, ebind. rewrite push_room by (unfold blen in Rs; cbn in Rs; lia).
    eexists. split; [reflexivity|]. destruct Hi. split; try done.
    + cbn. rewrite app_nil_r. by destruct (batches _).
    + cbn. by rewrite app_nil_r.
Qed.

Lemma absorb_all acts st :
  Idle st -> room st acts -> exists st', efor acts absorb_action st = (Ok tt, st') /\ absorbed st acts (rs_machine st) st'.
Proof.
  revert st. induction acts as [|a acts IH]; intros st Hi Hr; cbn [efor].
  - exists st. split; [done|]. destruct Hi. split; try done; cbn [batches_of systems_of others_of flat_map];
    by rewrite ?items_nil, ?app_nil_r.
  - change (a :: acts) with ([a] ++ acts) in *.
    destruct (absorb_one a st Hi (room_prefix _ _ _ Hr)) as (st1 & E1 & A1).
    destruct (room_app _ _ _ _ _ A1 Hr) as [_ R1]. destruct (IH st1 (ab_idle _ _ _ _ A1) R1) as (st2 & E2 & A2).
    exists st2. rewrite (ebind_run _ _ _ _ _ E1). split; [done|].
    rewrite (ab_machine _ _ _ _ A1) in A2. by eapply absorbed_trans.
Qed.

(** The machine fed, then its actions absorbed. *)
Definition rep_fed st (m' : M) (acts : list SessionAction) : Replaying M :=
  st ⟪ rs_machine := m' ⟫
     ⟪ rs_runner := (rs_runner st) ⟪ rp_actions := (rp_actions (rs_runner st)) ⟪ ab_actions := acts ⟫ ⟫ ⟫.

Lemma rep_feed i st m' acts :
  Idle st -> reacts i (rs_machine st) = (Ok tt, m', acts) ->
  rep_machine (on_input i) st = (Ok tt, rep_fed st m' acts).
Proof.
  intros [_ _ (Ha & Hd & Hc) _ _] Hr. unfold rep_machine. rewrite on_input_reacts, Hr.
  destruct (reacts_fit _ _ _ _ _ Hr) as [Hl _]. rewrite ab_extend_fits; [done|done|done|unfold blen in Hl; lia].
Qed.

Lemma rep_drain st m' acts :
  Idle st -> room st acts ->
  exists st', (rep_note_action_buffer_drops !; absorb_actions) (rep_fed st m' acts) = (Ok tt, st') /\
    absorbed st acts m' st'.
Proof.
  intros Hi Hr. pose proof Hi as [Ib Is (Ha & Hd & Hc) Id Il].
  assert (rep_note_action_buffer_drops (rep_fed st m' acts) = (Ok tt, rep_fed st m' acts)) as E1.
  { unfold rep_note_action_buffer_drops, ebind, eget, on_runner, emod, take_dropped. cbn. rewrite Hd.
    destruct st as [[? [? ? ?] ?] ? ?]. cbn in *. by subst. }
  rewrite (ebind_run _ _ _ _ _ E1).
  destruct (absorb_all acts (rep_fed st m' [])) as (st' & E2 & A2).
  - by split.
  - done.
  - exists st'. split; [exact E2|]. destruct A2. by split.
Qed.

Lemma rep_clear_none st : Idle st -> rep_clear_actions st = (Ok tt, st).
Proof.
  intros [_ _ (Ha & _) _ _]. unfold rep_clear_actions, on_runner, emod, ab_clear. f_equal.
  destruct st as [[? [? ? ?] ?] ? ?]. cbn in *. by subst.
Qed.

Lemma absorbed_none st : Idle st -> absorbed st [] (rs_machine st) st.
Proof.
  intros []. split; try done; cbn [batches_of systems_of others_of flat_map]; by rewrite ?items_nil, ?app_nil_r.
Qed.

(** The frame counter is no part of what is compared. *)
Lemma count_frame st acts m' st1 :
  absorbed st acts m' st1 ->
  exists st', on_outcome (fun o => o ⟪ ro_frames_applied := wrap U64 (ro_frames_applied o + 1) ⟫) st1 = (Ok tt, st') /\
    absorbed st acts m' st'.
Proof.
  intros [[] ? ? ? ? ? ? ?]. eexists. split; [reflexivity|]. by split.
Qed.

(** Once the machine has been fed, the rest of the pass over a record. *)
Lemma finish_record st acts m' :
  Idle st -> room st acts ->
  exists st', (rep_note_action_buffer_drops !; absorb_actions !;
      on_outcome (fun o => o ⟪ ro_frames_applied := wrap U64 (ro_frames_applied o + 1) ⟫)) (rep_fed st m' acts)
    = (Ok tt, st') /\ absorbed st acts m' st'.
Proof.
  intros Hi Hr. destruct (rep_drain st m' acts Hi Hr) as (st1 & E1 & A1).
  apply ebind_Ok in E1 as ([] & st0 & E0 & E1).
  destruct (count_frame _ _ _ _ A1) as (st2 & E2 & A2). exists st2. split; [|done].
  rewrite (ebind_run _ _ _ _ _ E0), (ebind_run _ _ _ _ _ E1). exact E2.
Qed.

Lemma rep_fed_none st m' : Idle st -> rep_fed st m' [] = st ⟪ rs_machine := m' ⟫.
Proof.
  intros [_ _ (Ha & _) _ _]. unfold rep_fed. destruct st as [[? [? ? ?] ?] ? ?]. cbn in *. by subst.
Qed.

Lemma replay_input_record f i st m' acts :
  Idle st -> frame_input f = Some i -> reacts i (rs_machine st) = (Ok tt, m', acts) ->
  replay_record metadata_from_slice (record_of f) st = (Ok true, rep_fed st m' acts).
Proof.
  intros Hi Hf Hr. unfold replay_record. rewrite (ebind_run _ _ _ _ _ (rep_clear_none st Hi)).
  unfold frame_input in Hf. cbn [rr_header record_of frame_header rh_opcode rh_receive_ts_ns rh_monotonic_ns rr_payload].
  change (mkFrameStamp (pf_receive_ts_ns f) (pf_monotonic_ns f)) with (frame_stamp f).
  destruct (pf_opcode f); try done;
    try (injection Hf as <-; by rewrite (ebind_run _ _ _ _ _ (rep_feed _ st m' acts Hi Hr))).
  rewrite ebind_elift. destruct (decode_http_response (pf_payload f)) as [[id r]|]; [|done]. cbn [map_err].
  injection Hf as <-. by rewrite (ebind_run _ _ _ _ _ (rep_feed _ st m' acts Hi Hr)).
Qed.

Lemma replay_subscription_record f c w st :
  Idle st -> pf_opcode f = OpSubscriptionCommand -> decode_subscription_command (pf_payload f) = Ok (c, w) ->
  prepare_dynamic_subscription c (rs_machine st) = Ok w ->
  replay_record metadata_from_slice (record_of f) st =
  (Ok true, rep_fed st (commit_dynamic_subscription c (rs_machine st)) []).
Proof.
  intros Hi Hop Hdec Hp. unfold replay_record. rewrite (ebind_run _ _ _ _ _ (rep_clear_none st Hi)).
  cbn [rr_header record_of frame_header rh_opcode rr_payload]. rewrite Hop, ebind_elift, Hdec. cbn [map_err].
  unfold ebind at 1, eget at 1. rewrite ebind_elift, Hp. cbn [map_err].
  rewrite bool_decide_eq_true_2 by done. cbn [negb]. by rewrite rep_fed_none.
Qed.

Lemma replay_frame f acts m' st :
  Idle st -> room st acts -> frame_step (rs_machine st) f acts m' ->
  exists st', replay_one metadata_from_slice (record_of f) st = (Ok tt, st') /\ absorbed st acts m' st'.
Proof.
  intros Hi Hr Hs. unfold replay_one. cbn [rr_header record_of frame_header rh_direction].
  destruct Hs as [Hd|Hd Hop|i m' acts Hd Hf Hr'|c w Hd Hop Hdec Hp]; rewrite Hd.
  - exists st. split; [done|by apply absorbed_none].
  - exists st. split; [|by apply absorbed_none].
    assert (replay_record metadata_from_slice (record_of f) st = (Ok false, st)) as E;
      [|by rewrite (ebind_run _ _ _ _ _ E)].
    unfold replay_record. rewrite (ebind_run _ _ _ _ _ (rep_clear_none st Hi)).
    cbn [rr_header record_of frame_header rh_opcode]. by destruct Hop as [-> | ->].
  - rewrite (ebind_run _ _ _ _ _ (replay_input_record f i st m' acts Hi Hf Hr')). by apply finish_record.
  - rewrite (ebind_run _ _ _ _ _ (replay_subscription_record f c w st Hi Hop Hdec Hp)). by apply finish_record.
Qed.

Lemma replay_frames fs acts m m' st :
  frames_run m fs acts m' -> rs_machine st = m -> Idle st -> room st acts ->
  exists st', efor (record_of <$> fs) (replay_one metadata_from_slice) st = (Ok tt, st') /\ absorbed st acts m' st'.
Proof.
  intros Hrun. revert st. induction Hrun as [m|m f a m1 fs acts m' Hf Hrun IH]; intros st Hm Hi Hr; subst m.
  { exists st. split; [done|by apply absorbed_none]. }
  cbn [fmap list_fmap efor].
  destruct (replay_frame f a m1 st Hi (room_prefix _ _ _ Hr) Hf) as (st1 & E1 & A1).
  destruct (room_app _ _ _ _ _ A1 Hr) as [_ R1].
  destruct (IH st1 (ab_machine _ _ _ _ A1) (ab_idle _ _ _ _ A1) R1) as (st2 & E2 & A2).
  exists st2. split; [by rewrite (ebind_run _ _ _ _ _ E1)|]. by eapply absorbed_trans.
Qed.

(** A whole recording, from the connection on. *)
Lemma replay_run R m0 o ts m1 acts0 fs acts m' :
  reacts (Connected ts) m0 = (Ok tt, m1, acts0) -> frames_run m1 fs acts m' ->
  let st0 := mkReplaying (reset_runner R) m0 outcome_default in
  Idle st0 -> room st0 (acts0 ++ acts) -> items (lane_b st0) = [] -> items (lane_s st0) = [] ->
  exists st', replay_records metadata_from_slice (record_of <$> fs) ts (mkReplaying R m0 o) = (Ok tt, st') /\
    rs_machine st' = m' /\
    ro_market_batches (rs_outcome st') = batches_of (acts0 ++ acts) /\
    ro_system_events (rs_outcome st') = systems_of (acts0 ++ acts) /\
    ro_other_actions (rs_outcome st') = others_of (acts0 ++ acts) /\
    ro_metadata (rs_outcome st') = [] /\ ro_dropped_events (rs_outcome st') = 0.
Proof.
  intros Hr Hrun st0 Hi Hroom Hb Hs. unfold replay_records.
  unfold ebind at 1, emod at 1. cbn [rs_runner rs_machine rs_outcome set_field]. fold st0.
  assert (rep_machine (on_replay_start ts) st0 = (Ok tt, rep_fed st0 m1 acts0)) as E0.
  { rewrite <- (rep_feed (Connected ts) st0 m1 acts0 Hi Hr). unfold rep_machine. by rewrite on_replay_start_connects. }
  rewrite (ebind_run _ _ _ _ _ E0).
  destruct (rep_drain st0 m1 acts0 Hi (room_prefix _ _ _ Hroom)) as (st1 & E1 & A1).
  destruct (room_app _ _ _ _ _ A1 Hroom) as [_ R1]. apply ebind_Ok in E1 as ([] & sx & Ex & E1).
  rewrite (ebind_run _ _ _ _ _ Ex), (ebind_run _ _ _ _ _ E1).
  destruct (replay_frames fs acts m1 m' st1 Hrun (ab_machine _ _ _ _ A1) (ab_idle _ _ _ _ A1) R1) as (st2 & E2 & A2).
  rewrite (ebind_run _ _ _ _ _ E2). pose proof (absorbed_trans _ _ _ _ _ _ _ A1 A2) as A.
  destruct A as [[_ _ _ Ic Il] Am Ab As Amk Aev Ao Ame].
  unfold finish_outcome, drain_batches, drain_systems. rewrite drain_queue_all by lia.
  cbn [systems set_field]. rewrite drain_queue_all by lia. rewrite Ic. cbn [foldl].
  eexists. split; [reflexivity|]. cbn [rs_machine rs_outcome set_field ro_market_batches ro_system_events
    ro_other_actions ro_metadata ro_dropped_events]. rewrite Amk, Aev, Ab, As, Ao, Ame.
  cbn [items set_field]. rewrite Hb, Hs. by split_and!.
Qed.
End Replayed.

(** ** Live and replay *)

Section Fidelity.
Context {M FS : Type} `{Recordable M} `{MutationJsonLaws}.
Context (clock : nat -> Z) (metadata_from_slice : list Z -> option MetadataRecord).
Implicit Types s : SessionRunner M FS.

(** The connection is not a frame: only what the machine sends is recorded. *)
Lemma connected_effect now s x s1 :
  fits I64 now -> Strict s -> on_connected now s = (Ok x, s1) ->
  exists m1 acts bs ss fs, reacts (Connected now) (sr_machine s) = (Ok tt, m1, acts) /\
    Strict s1 /\ sr_machine s1 = m1 /\
    items (batches (sr_dispatch s1)) = items (batches (sr_dispatch s)) ++ bs /\ adds_status (batches_of acts) bs /\
    items (systems (sr_dispatch s1)) = items (systems (sr_dispatch s)) ++ ss /\ adds_notices (systems_of acts) ss /\
    Forall (fun f => frame_ok f /\ pf_direction f = Outbound) fs /\
    forall rw, sr_recorder s = Some rw -> rw_started rw = true ->
      exists rw', sr_recorder s1 = Some rw' /\ rw_writer rw' = rw_writer rw ++ concat (encode_frame <$> fs).
Proof.
  intros Hnow Hs E. unfold on_connected in E. apply ebind_Ok in E as ([] & s2 & E2 & E).
  pose proof (does_lifecycle _ _ _ _ Hs E2) as Q2. apply ebind_Ok in E as ([] & s3 & E3 & E).
  pose proof (does_clear_timers _ _ _ (effect_strict _ _ _ _ _ Q2 Hs) E3) as Q3.
  pose proof (effect_then _ _ _ Q2 Q3) as Q. clear Q2 Q3 E2 E3 s2.
  apply ebind_Ok in E as ([] & s4 & E4 & E5). unfold react, feed in E4.
  apply ebind_Ok in E4 as ([] & s5 & E4 & E6). apply ebind_Ok in E4 as ([] & sq & Ec & E4).
  pose proof (effect_strict _ _ _ _ _ Q Hs) as Hs3.
  pose proof (effect_then _ _ _ Q (clear_actions_none _ _ _ Hs3 Ec)) as Hq.
  pose proof (effect_strict _ _ _ _ _ Hq Hs) as Hsq.
  destruct (feed_machine _ _ _ _ Hsq E4) as (m1 & acts & Hr & Hb & Hfed).
  rewrite (ebind_run _ _ _ _ _ (note_none s5 (fed_dropped _ _ _ _ Hsq Hfed))) in E6.
  pose proof (strict_fed _ _ _ _ Hsq Hfed) as Hs5.
  pose proof (apply_fed _ _ _ _ _ _ _ Hsq Hfed Hb Hnow E6) as (bs & ss & fs & He & Hbs & Hss).
  destruct (does_status _ _ _ _ _ (effect_strict _ _ _ _ _ He Hs5) E5) as (b & Hb' & He2).
  pose proof (effect_trans _ _ _ _ _ _ _ _ _ He He2) as Hall.
  pose proof (effect_strict _ _ _ _ _ Hall Hs5) as Hs1.
  rewrite (ef_machine _ _ _ _ _ Hq) in Hr. destruct Hfed as (ticks & met & ->).
  destruct Hall as [_ Em _ _ _ Eb Ee Er Ef]. destruct Hq as [_ _ _ _ _ Qb Qe Qr _].
  clear -Hr Hs1 Em Eb Ee Er Ef Qb Qe Qr Hbs Hss Hb'. cbn [sr_machine sr_dispatch sr_recorder set_field] in *.
  exists m1, acts, (bs ++ [b]), (ss ++ []), (fs ++ []). split_and! ; try done.
  - rewrite Eb, Qb. cbn. by rewrite app_nil_r.
  - rewrite <- (app_nil_r (batches_of acts)). apply adds_status_app; [done|by apply adds_status_one].
  - rewrite Ee, Qe. cbn. by rewrite app_nil_r.
  - by rewrite app_nil_r.
  - intros rw Hrw Hst. destruct (Qr rw Hrw Hst) as (rw1 & Hr1 & Hst1 & W1).
    destruct (Er rw1 Hr1 Hst1) as (rw2 & Hr2 & _ & W2). exists rw2. split; [done|].
    rewrite W2, W1. cbn. by rewrite app_nil_r.
Qed.

Lemma new_strict (m : M) cfg met live_signal stop s :
  cfg_overflow cfg = FailEngine -> cfg_record cfg = true -> fits U64 (cfg_session cfg) ->
  runner_new m cfg (None : option (RecordingHandle FS)) met live_signal stop = Some (Ok s) ->
  Strict s /\ sr_machine s = m /\ items (batches (sr_dispatch s)) = [] /\ items (systems (sr_dispatch s)) = [] /\
  sr_recorder s = Some (mkRawSegmentWriter (segment_header 0) 0 true).
Proof.
  intros Hp Hr Hses. unfold runner_new. rewrite Hr, Hp. cbn [andb]. rewrite bool_decide_eq_false_2 by (by intros [? ?]).
  cbn [negb]. change (fst (create (@nil Z) 0))
    with (Ok (mkRawSegmentWriter (segment_header 0) 0 true) : result (RawSegmentWriter (list Z)) RecordingError).
  cbn [map_err rmap]. destruct (dispatcher_new _ _ _) as [d|] eqn:Ed; cbn [mbind option_bind]; [|done].
  intros [= <-]. unfold dispatcher_new in Ed.
  destruct (queue_new (cfg_dispatch_capacity cfg) FailEngine) as [qb|] eqn:Eb; [|done].
  destruct (queue_new (T := SystemEvent) (cfg_dispatch_capacity cfg) FailEngine) as [qs|] eqn:Es; [|done].
  injection Ed as <-. apply queue_new_ok in Eb as (_ & Ib & _ & _ & Pb), Es as (_ & Is & _ & _ & Ps).
  split; [|by split_and!]. split; cbn; try done.
  - by exists (mkRawSegmentWriter (segment_header 0) 0 true).
  - split; [done|]. split; [done|]. unfold DEFAULT_ACTION_BUFFER_CAPACITY. lia.
Qed.
End Fidelity.


(** ** The synthetic venue, recorded and replayed *)

From S2P Require Import Synthetic.

#[export] Instance synthetic_recordable : Recordable SyntheticSession.
Proof.
  split. intros i m r m' acts E. destruct (move_fits _ _ _ _ (reacts_moves _ _ _ _ _ E)) as [Hl Hb].
  split; [unfold blen, DEFAULT_ACTION_BUFFER_CAPACITY; lia|exact Hb].
Qed.

Definition synthetic_mutation : RecordedSubscriptionMutation :=
  mkRecordedSubscriptionMutation (RecSubscribe ["ETH-USD"%string]) (RecText (line_of "SUB ETH-USD")).
#[local] Instance example_json : MutationJson := one_mutation synthetic_mutation.
#[local] Instance example_json_laws : MutationJsonLaws := one_mutation_laws synthetic_mutation.

Definition venue_machine : SyntheticSession := Eval vm_compute in synthetic_new spec0 catalog0.
Definition venue_start : SessionRunner SyntheticSession MemFs :=
  Eval vm_compute in
    the (match runner_new venue_machine default_config None None None None with Some (Ok s) => Some s | _ => None end).
Definition venue_connected : SessionRunner SyntheticSession MemFs :=
  Eval vm_compute in snd (on_connected 5 venue_start).

(** The frames of a morning: a subscription, a delta ahead of its snapshot, a
    trade, a dynamic subscription, and a gap. *)
Definition venue_calls : list RunnerCall :=
  let text t s := CallText (bytes_of_string s) (mkFrameStamp t t) in
  [text 6 "SUB BTC-USD"; text 7 "BOOK_DELTA 11 BID UPSERT 99.75 4";
   text 8 "BOOK_SNAP 10 BID 99.50:2.5 ASK 100.10:3"; CallPing [] (mkFrameStamp 8 8);
   CallControl (Subscribe ["ETH-USD"%string]) 8; CallDrain; CallTakeWrites;
   text 9 "TRADE 1 100.00 0.5 BUY t1"; CallHttp 1 (mkHttpResponse 200 [] (bytes_of_string "ok")) (mkFrameStamp 9 9);
   text 10 "BOOK_DELTA 14 ASK DELETE 100.10"].

Definition venue_live : list EventBatch * list SystemEvent * SessionRunner SyntheticSession MemFs :=
  Eval vm_compute in the (live Z.of_nat venue_calls venue_connected).
Definition venue_end : SessionRunner SyntheticSession MemFs := Eval vm_compute in snd venue_live.
Definition venue_bytes : list Z := Eval vm_compute in default [] (recording_bytes venue_end).
Definition venue_replayer : ReplayRunner := Eval vm_compute in the (replay_new 16).

