(* ===== verification/PulseMath.v ===== *)
(** * Event pulse: exact feature arithmetic ([crates/event-pulse/src/features.rs])

    The numeric formulas of the event-pulse features.  A value is an [i128]
    count of [10^-8]; every product and quotient is rounded half away from
    zero, and every intermediate result is checked.  The theorems give each
    formula as a rounding of its mathematical value. *)

From stdpp Require Import base tactics numbers strings option list.
From Stdlib Require Import ZArith Lia.
From S2P Require Import Prelude Bytes Fixed Text.

Local Open Scope Z_scope.

Definition SCALE : Z := 100000000.

Inductive ArithmeticError := ArithOverflow | ArithDivision | ArithRescale | ArithDomain.

#[export] Instance ArithmeticError_eq_dec : EqDecision ArithmeticError.
Proof. solve_decision. Defined.

(** A checked operation whose failure is [ArithmeticError::Overflow]. *)
Definition checked (o : option Z) : result Z ArithmeticError := ok_or o ArithOverflow.

(** ** Division and rescaling *)

Definition rounded_div (numerator denominator : Z) : result Z ArithmeticError :=
  if denominator <=? 0 then Err ArithDivision else
  let quotient := Z.quot numerator denominator in
  let remainder := Z.rem numerator denominator in
  let? twice := checked (checked_mul U128 (Z.abs remainder) 2) in
  if denominator <=? twice then checked (checked_add I128 quotient (if numerator <? 0 then -1 else 1))
  else Ok quotient.

(** [features::rescale]. *)
Definition rescale8 (value : Fixed) : result Z ArithmeticError :=
  map_err (fun _ => ArithRescale) (rmap coefficient (rescale value 8 HalfAwayFromZero)).

Definition mul_scaled (a b : Z) : result Z ArithmeticError :=
  let? n := checked (checked_mul I128 a b) in
  rounded_div n SCALE.

Definition div_scaled (a b : Z) : result Z ArithmeticError :=
  let? n := checked (checked_mul I128 a SCALE) in
  rounded_div n b.

Definition div_integer (a k : Z) : result Z ArithmeticError := rounded_div a k.

(** ** Canonical text *)

(** [{:08}] of a number below [10^8]. *)
Fixpoint pad_digits (n : nat) (v : Z) : list Z :=
  match n with
  | O => []
  | S n => pad_digits n (v / 10) ++ [byte_zero + v mod 10]
  end.

(** [while fraction.ends_with('0') { fraction.pop(); }], over the digits in
    reverse. *)
Fixpoint pop_zeros (l : list Z) : list Z :=
  match l with
  | b :: l' => if b =? byte_zero then pop_zeros l' else l
  | [] => []
  end.

Definition canonical_decimal (value : Z) : list Z :=
  if value =? 0 then [byte_zero] else
  let magnitude := Z.abs value in
  let integer := magnitude / SCALE in
  let fraction := magnitude mod SCALE in
  let sign := if value <? 0 then [byte_minus] else [] in
  if fraction =? 0 then sign ++ dec_digits 39 integer
  else sign ++ dec_digits 39 integer ++ [byte_dot] ++ rev (pop_zeros (rev (pad_digits 8 fraction))).

(** ** Features *)

(** One turn of the loop of [log_return]. *)
Definition log_step (z2 : Z) (acc : Z * Z) (k : Z) : result (Z * Z) ArithmeticError :=
  let '(power, sum) := acc in
  let? term := div_integer power k in
  let? sum := checked (checked_add I128 sum term) in
  let? power := (if k <? 15 then mul_scaled power z2 else Ok power) in
  Ok (power, sum).

Definition log_return (p0 p1 : Z) : result Z ArithmeticError :=
  if (p0 <=? 0) || (p1 <=? 0) then Err ArithDomain else
  let? above_lower :=
    ok_or (value ← checked_mul I128 p1 5; lower ← checked_mul I128 p0 4; Some (lower <=? value)) ArithOverflow in
  let? below_upper :=
    ok_or (value ← checked_mul I128 p1 4; upper ← checked_mul I128 p0 5; Some (value <=? upper)) ArithOverflow in
  if negb above_lower || negb below_upper then Err ArithDomain else
  let? difference := checked (checked_sub I128 p1 p0) in
  let? total := checked (checked_add I128 p1 p0) in
  let? z := div_scaled difference total in
  let? z2 := mul_scaled z z in
  let? (_, sum) := try_fold (log_step z2) (z, 0) [1; 3; 5; 7; 9; 11; 13; 15] in
  checked (checked_mul I128 sum 2).

Definition clamp (lo hi v : Z) : Z := Z.max lo (Z.min hi v).

Definition taker_imbalance (buy sell : Z) : result Z ArithmeticError :=
  if (buy <? 0) || (sell <? 0) then Err ArithDomain else
  let? total := checked (checked_add I128 buy sell) in
  if total =? 0 then Err ArithDomain else
  let? difference := checked (checked_sub I128 buy sell) in
  let? ratio := div_scaled difference total in
  Ok (clamp (- SCALE) SCALE ratio).

Definition cvd_slope (first last elapsed_micros : Z) : result Z ArithmeticError :=
  if elapsed_micros <=? 0 then Err ArithDivision else
  let? n := checked (v ← checked_sub I128 last first; checked_mul I128 v 1000000) in
  rounded_div n elapsed_micros.

Definition spread_bps (bid ask : Z) : result Z ArithmeticError :=
  if (bid <=? 0) || (ask <=? bid) then Err ArithDomain else
  let? n := checked (v ← checked_sub I128 ask bid; v ← checked_mul I128 v 2; v ← checked_mul I128 v 10000;
                     checked_mul I128 v SCALE) in
  let? d := checked (checked_add I128 ask bid) in
  rounded_div n d.

Definition open_interest_change (first last : Z) : result Z ArithmeticError :=
  checked (checked_sub I128 last first).

Definition open_interest_contracts (quantity : Fixed) (contracts_per_base : option Z) : result Z ArithmeticError :=
  let? quantity := rescale8 quantity in
  if quantity <? 0 then Err ArithDomain else
  match contracts_per_base with
  | None => Ok quantity
  | Some conversion => if 0 <? conversion then mul_scaled quantity conversion else Err ArithDomain
  end.

Definition liquidation_step (sum : Z) (pq : Z * Z) : result Z ArithmeticError :=
  let '(price, quantity) := pq in
  if price <=? 0 then Err ArithDomain else
  let? quantity := checked (checked_abs I128 quantity) in
  let? notional := mul_scaled price quantity in
  checked (checked_add I128 sum notional).

Definition liquidation_notional (values : list (Z * Z)) : result Z ArithmeticError :=
  try_fold liquidation_step 0 values.

Definition cross_venue_breadth (confirming eligible : Z) : result Z ArithmeticError :=
  if (eligible <? 2) || (eligible <? confirming) then Err ArithDomain else
  let? n := checked (checked_mul I128 confirming SCALE) in
  div_integer n eligible.

Inductive Direction := DirUp | DirDown | DirUnknown.

#[export] Instance Direction_eq_dec : EqDecision Direction.
Proof. solve_decision. Defined.

Definition reversal_from_extreme (direction : Direction) (anchor extreme current : Z) : result Z ArithmeticError :=
  let? value :=
    match direction with
    | DirUp =>
        if anchor <? extreme then
          let? n := checked (checked_sub I128 extreme current) in
          let? d := checked (checked_sub I128 extreme anchor) in
          div_scaled n d
        else Err ArithDomain
    | DirDown =>
        if extreme <? anchor then
          let? n := checked (checked_sub I128 current extreme) in
          let? d := checked (checked_sub I128 anchor extreme) in
          div_scaled n d
        else Err ArithDomain
    | DirUnknown => Err ArithDomain
    end in
  Ok (clamp 0 SCALE value).

Example log_return_ex : log_return 100000000 110000000 = Ok 9531018.
Proof. reflexivity. Qed.
Example canonical_ex : string_of_bytes (canonical_decimal (-1050000000)) = "-10.5"%string.
Proof. reflexivity. Qed.
Example canonical_small : string_of_bytes (canonical_decimal 7) = "0.00000007"%string.
Proof. reflexivity. Qed.

(** ** Rounding *)

(** The quotient rounded half away from zero. *)
Abbreviation rnd := (rounded HalfAwayFromZero).

Lemma rounded_div_spec n d : fits I128 n -> fits I128 d -> 0 < d -> rounded_div n d = Ok (rnd n d).
Proof.
  intros Hn Hd Hp. unfold rounded_div. rewrite (proj2 (Z.leb_gt d 0)) by done.
  destruct (quot_rem_facts n d Hp) as (E & B & S & Q).
  set (q := Z.quot n d) in *. set (r := Z.rem n d) in *. clearbody q r.
  unfold checked, checked_mul, fits in *. simpl in *. rewrite to_ty_fits by (unfold fits; simpl; lia). cbn [ok_or rbind].
  unfold checked_add, rounded.
  destruct (Z.lt_total n 0) as [Hneg|[H0|Hpos]].
  - assert (r <= 0 /\ q <= 0) as [Hrn Hqn] by nia. rewrite (Z.sgn_neg n), (Z.abs_neq n) by lia.
    rewrite (proj2 (Z.ltb_lt n 0)) by lia. destruct (Z.leb_spec d (Z.abs r * 2)).
    + rewrite (div_shift _ (- q + 1) (2 * - r - d)) by lia.
      rewrite to_ty_fits by (unfold fits; simpl; nia). cbn. f_equal. lia.
    + rewrite (div_shift _ (- q) (2 * - r + d)) by lia. f_equal. lia.
  - subst n. assert (q = 0 /\ r = 0) as [-> ->] by nia.
    destruct (Z.leb_spec d (Z.abs 0 * 2)); [lia|]. by rewrite H0.
  - assert (0 <= r /\ 0 <= q) as [Hrn Hqn] by nia. rewrite (Z.sgn_pos n), (Z.abs_eq n) by lia.
    rewrite (proj2 (Z.ltb_ge n 0)) by lia. destruct (Z.leb_spec d (Z.abs r * 2)).
    + rewrite (div_shift _ (q + 1) (2 * r - d)) by lia.
      rewrite to_ty_fits by (unfold fits; simpl; nia). cbn. f_equal. lia.
    + rewrite (div_shift _ q (2 * r + d)) by lia. f_equal. lia.
Qed.

(** The rounded quotient is a nearest integer, ties go away from zero, and
    rounding is odd and monotone. *)
Lemma rnd_nearest n d : 0 < d -> 2 * Z.abs (n - rnd n d * d) <= d.
Proof.
  intros Hd. unfold rounded. pose proof (Z.div_mod (2 * Z.abs n + d) (2 * d) ltac:(lia)).
  pose proof (Z.mod_pos_bound (2 * Z.abs n + d) (2 * d) ltac:(lia)).
  set (k := (2 * Z.abs n + d) / (2 * d)) in *. clearbody k.
  destruct (Z.lt_total n 0) as [|[->|]]; [rewrite Z.sgn_neg by lia|simpl in *; nia|rewrite Z.sgn_pos by lia]; nia.
Qed.

Lemma rnd_opp n d : rnd (- n) d = - rnd n d.
Proof. unfold rounded. rewrite Z.sgn_opp, Z.abs_opp. lia. Qed.

Lemma rnd_nonneg n d : 0 < d -> 0 <= n -> 0 <= rnd n d.
Proof.
  intros Hd Hn. unfold rounded. rewrite Z.abs_eq by done.
  assert (0 <= (2 * n + d) / (2 * d)) by (apply Z.div_pos; lia).
  assert (0 <= Z.sgn n) by (apply Z.sgn_nonneg; lia). nia.
Qed.

Lemma rnd_mono n m d : 0 < d -> n <= m -> rnd n d <= rnd m d.
Proof.
  intros Hd H. destruct (Z.le_gt_cases 0 n) as [H0|H0].
  - unfold rounded. rewrite !Z.abs_eq by lia.
    assert ((2 * n + d) / (2 * d) <= (2 * m + d) / (2 * d)) by (apply Z.div_le_mono; lia).
    destruct (Z.eq_dec n 0) as [->|]; [|by rewrite !Z.sgn_pos by lia; lia].
    rewrite Z.mul_0_l. destruct (Z.eq_dec m 0) as [->|]; [done|]. rewrite Z.sgn_pos by lia.
    assert (0 <= (2 * m + d) / (2 * d)) by (apply Z.div_pos; lia). lia.
  - destruct (Z.le_gt_cases 0 m) as [H1|H1].
    + pose proof (rnd_nonneg m d Hd H1). pose proof (rnd_nonneg (- n) d Hd ltac:(lia)) as Hn. rewrite rnd_opp in Hn. lia.
    + unfold rounded. rewrite !Z.abs_neq, !Z.sgn_neg by lia.
      assert ((2 * - m + d) / (2 * d) <= (2 * - n + d) / (2 * d)) by (apply Z.div_le_mono; lia). lia.
Qed.

Lemma rnd_mul k d : 0 < d -> rnd (k * d) d = k.
Proof. intros Hd. pose proof (rnd_nearest (k * d) d Hd). nia. Qed.

(** A rounded ratio stays between integer bounds of the ratio. *)
Lemma rnd_bounds lo hi n d : 0 < d -> lo * d <= n <= hi * d -> lo <= rnd n d <= hi.
Proof.
  intros Hd [H1 H2]. split.
  - rewrite <- (rnd_mul lo d Hd). by apply rnd_mono.
  - rewrite <- (rnd_mul hi d Hd). by apply rnd_mono.
Qed.

(** ** The canonical text reads back *)

Lemma dec_digits_reads fuel n :
  0 <= n < 10 ^ Z.of_nat fuel -> Forall digit (dec_digits fuel n) /\ digits_value 0 (dec_digits fuel n) = n.
Proof.
  revert n. induction fuel as [|fuel IH]; intros n Hn; [simpl in Hn; assert (n = 0) as -> by lia; done|].
  rewrite Nat2Z.inj_succ, Z.pow_succ_r in Hn by lia. cbn [dec_digits]. destruct (Z.ltb_spec n 10).
  - split; [repeat constructor; lia|]. cbn. lia.
  - destruct (IH (n / 10)) as [H1 H2]; [split; [apply Z.div_pos|apply Z.div_lt_upper_bound]; lia|].
    pose proof (Z.mod_pos_bound n 10 ltac:(lia)).
    split; [apply Forall_app; split; [done|repeat constructor; lia]|].
    rewrite digits_value_app, H2. cbn. pose proof (Z.div_mod n 10). lia.
Qed.

Lemma dec_digits_cons fuel n : fuel <> O -> dec_digits fuel n <> [].
Proof. destruct fuel; [done|]. intros _. cbn. destruct (n <? 10); [done|]. by intros [_ ?]%app_nil. Qed.

Lemma pad_digits_value k v :
  0 <= v < 10 ^ Z.of_nat k ->
  length (pad_digits k v) = k /\ Forall digit (pad_digits k v) /\ forall acc, digits_value acc (pad_digits k v) = acc * 10 ^ Z.of_nat k + v.
Proof.
  revert v. induction k as [|k IH]; intros v Hv; [simpl in Hv; split_and! ; [done..|]; intros acc; cbn; lia|].
  rewrite Nat2Z.inj_succ, Z.pow_succ_r in Hv |- * by lia. cbn [pad_digits].
  destruct (IH (v / 10)) as (H1 & H2 & H3); [split; [apply Z.div_pos|apply Z.div_lt_upper_bound]; lia|].
  pose proof (Z.mod_pos_bound v 10 ltac:(lia)). unfold byte_zero. split_and!.
  - rewrite length_app, H1. simpl. lia.
  - apply Forall_app. split; [done|repeat constructor; lia].
  - intros acc. rewrite digits_value_app, H3. cbn. pose proof (Z.div_mod v 10). nia.
Qed.

(** Dropping the trailing zeros of a fraction. *)
Lemma pop_zeros_spec l : exists n, l = replicate n byte_zero ++ pop_zeros l.
Proof.
  induction l as [|b l (n & IH)]; [by exists 0%nat|]. cbn. destruct (Z.eqb_spec b byte_zero) as [->|].
  - exists (S n). cbn. by rewrite <- IH.
  - by exists 0%nat.
Qed.

Lemma digits_value_zeros acc n : digits_value acc (replicate n byte_zero) = acc * 10 ^ Z.of_nat n.
Proof.
  revert acc. induction n as [|n IH]; intros acc; [cbn; lia|].
  rewrite Nat2Z.inj_succ, Z.pow_succ_r by lia. cbn [replicate]. change (digits_value acc (byte_zero :: ?l)) with
    (digits_value (acc * 10 + (byte_zero - 48)) l). rewrite IH. unfold byte_zero. lia.
Qed.

(** The literal that [canonical_decimal] renders. *)
Definition canonical_literal (value : Z) : literal :=
  let integer := dec_digits 39 (Z.abs value / SCALE) in
  let fraction := Z.abs value mod SCALE in
  mkLiteral (if value <? 0 then MinusSign else NoSign) integer
    (if fraction =? 0 then None else Some (rev (pop_zeros (rev (pad_digits 8 fraction))))).

Lemma canonical_render value : canonical_decimal value = render (canonical_literal value).
Proof.
  unfold canonical_decimal, render, canonical_literal. destruct (Z.eqb_spec value 0) as [->|Hv]; [done|].
  cbn [lit_sign lit_int lit_frac]. destruct (value <? 0), (Z.abs value mod SCALE =? 0); cbn [sign_bytes app]; by rewrite ?app_nil_r.
Qed.

Lemma canonical_parts value : fits I128 value -> Z.abs value <= int_max I128 ->
  literal_ok (canonical_literal value) /\
  exists k, 0 <= k <= 8 /\ k = Z.of_nat (length (default [] (lit_frac (canonical_literal value)))) /\
    digits_value 0 (lit_int (canonical_literal value) ++ default [] (lit_frac (canonical_literal value))) * 10 ^ (8 - k) = Z.abs value.
Proof.
  intros Hf Hm. unfold canonical_literal, literal_ok. cbn [lit_int lit_frac].
  pose proof (Z.div_mod (Z.abs value) SCALE ltac:(done)) as E. pose proof (Z.mod_pos_bound (Z.abs value) SCALE ltac:(done)) as B.
  assert (0 <= Z.abs value / SCALE < 10 ^ Z.of_nat 39) as Hi.
  { split; [apply Z.div_pos; [lia|done]|]. apply Z.div_lt_upper_bound; [done|]. cbn in Hm |- *. lia. }
  destruct (dec_digits_reads 39 _ Hi) as [Hd Hv]. pose proof (dec_digits_cons 39 (Z.abs value / SCALE) ltac:(done)) as Hne.
  destruct (Z.eqb_spec (Z.abs value mod SCALE) 0) as [H0|H0]; cbn [from_option id].
  - rewrite app_nil_r. split; [done|]. exists 0. split; [lia|]. split; [done|]. rewrite Hv. unfold SCALE in *. lia.
  - destruct (pad_digits_value 8 (Z.abs value mod SCALE)) as (Hl & Hdd & Hvv); [unfold SCALE in *; cbn in *; lia|].
    set (p := pad_digits 8 (Z.abs value mod SCALE)) in *. destruct (pop_zeros_spec (rev p)) as [n En].
    assert (p = rev (pop_zeros (rev p)) ++ replicate n byte_zero) as Ep.
    { rewrite <- (rev_involutive p) at 1. rewrite En at 1. rewrite rev_app_distr. f_equal.
      clear. induction n as [|n IH]; [done|]. cbn. rewrite IH. by rewrite <- replicate_S_end. }
    set (f := rev (pop_zeros (rev p))) in *. clearbody f. clearbody p. subst p.
    apply Forall_app in Hdd as [Hdf _]. rewrite length_app, length_replicate in Hl.
    split; [split; [done|split; [done|]]; by intros [? _]%app_nil|].
    exists (Z.of_nat (length f)). split; [lia|]. split; [done|]. rewrite digits_value_app, Hv.
    specialize (Hvv (Z.abs value / SCALE)). rewrite digits_value_app, digits_value_zeros in Hvv.
    replace (8 - Z.of_nat (length f)) with (Z.of_nat n) by lia. rewrite Hvv. change (10 ^ Z.of_nat 8) with SCALE. lia.
Qed.

(** The canonical text of a value reads back: parsing it and rescaling to the
    canonical scale returns the value, for every value whose magnitude is an
    [i128]. *)
Theorem canonical_decimal_reads_back value : Z.abs value <= int_max I128 ->
  rmap rescale8 (parse_decimal (canonical_decimal value)) = Ok (Ok value).
Proof.
  intros Hm. assert (fits I128 value) as Hf by (unfold fits; cbn in Hm |- *; lia).
  destruct (canonical_parts value Hf Hm) as (Hok & k & Hk & Ek & Hv).
  rewrite canonical_render, parse_decimal_render by done. unfold literal_value. rewrite <- Ek. cbv zeta.
  set (v := digits_value 0 _) in *. assert (0 <= v) by (apply digits_value_ge; [done|by apply Forall_app; split; apply Hok]).
  assert (1 <= 10 ^ (8 - k)) by (apply (Z.pow_le_mono_r 10 0); lia).
  rewrite (proj2 (Z.ltb_ge 255 k)), (proj2 (Z.ltb_ge (int_max I128) v)) by nia. cbn [rmap]. f_equal.
  unfold rescale8. set (c := match lit_sign _ with MinusSign => - v | _ => v end).
  assert (c * 10 ^ (8 - k) = value) as Hc.
  { unfold c, canonical_literal. cbn [lit_sign]. destruct (Z.ltb_spec value 0); lia. }
  destruct (Z.eq_dec k 8) as [->|].
  - rewrite (rescale_same (mkFixed c 8)). cbn [rmap map_err coefficient]. f_equal. lia.
  - rewrite rescale_up by (cbn [scale]; lia). cbn [scale coefficient]. rewrite (proj2 (Z.leb_le _ _)) by lia. cbv zeta.
    rewrite Hc. unfold in_ty. cbn. unfold fits in Hf. cbn in Hf. rewrite !(proj2 (Z.leb_le _ _)) by lia. done.
Qed.

(** ** The formulas *)

(** A successful chain of checked operations computed the integers it names. *)
Lemma checked_Ok o v : checked o = Ok v <-> o = Some v.
Proof. apply ok_or_Ok. Qed.

Lemma mul_scaled_Ok a b v : mul_scaled a b = Ok v -> v = rnd (a * b) SCALE.
Proof.
  unfold mul_scaled, checked. intros H. res. rewrite rounded_div_spec in H by (done || unfold fits, SCALE; simpl; lia).
  by injection H.
Qed.

Lemma div_scaled_Ok a b v : fits I128 b -> 0 < b -> div_scaled a b = Ok v -> v = rnd (a * SCALE) b.
Proof. unfold div_scaled, checked. intros Hb Hp H. res. rewrite rounded_div_spec in H by done. by injection H. Qed.

Lemma clamp_id lo hi v : lo <= v <= hi -> clamp lo hi v = v.
Proof. unfold clamp. lia. Qed.

Lemma taker_imbalance_Ok buy sell v : taker_imbalance buy sell = Ok v ->
  0 <= buy /\ 0 <= sell /\ 0 < buy + sell /\ v = rnd ((buy - sell) * SCALE) (buy + sell) /\ - SCALE <= v <= SCALE.
Proof.
  unfold taker_imbalance, checked. intros H. destruct (Z.ltb_spec buy 0), (Z.ltb_spec sell 0); try discriminate H. cbn [orb] in H.
  res_step. res_step. unfold checked_add in Hv. apply to_ty_Some in Hv as [-> Hf].
  destruct (Z.eqb_spec (buy + sell) 0); [discriminate H|]. res. apply div_scaled_Ok in Hv0; [|done|lia]. subst.
  assert (- SCALE <= rnd ((buy - sell) * SCALE) (buy + sell) <= SCALE) as Hb by (apply rnd_bounds; unfold SCALE; nia).
  rewrite clamp_id by done. split_and! ; [done|done|lia|done|lia|lia].
Qed.

Lemma spread_bps_Ok bid ask v : spread_bps bid ask = Ok v ->
  0 < bid < ask /\ v = rnd ((ask - bid) * 2 * 10000 * SCALE) (ask + bid) /\ 0 <= v <= 20000 * SCALE.
Proof.
  unfold spread_bps, checked. intros H. destruct (Z.leb_spec bid 0), (Z.leb_spec ask bid); try discriminate H. cbn [orb] in H.
  apply rbind_Ok in H as (n & Hn & H). apply ok_or_Ok in Hn.
  apply bind_Some in Hn as (v1 & Hn1 & Hn). apply bind_Some in Hn as (v2 & Hn2 & Hn). apply bind_Some in Hn as (v3 & Hn3 & Hn).
  res. rewrite rounded_div_spec in H by (done || lia). injection H as <-. split; [lia|]. split; [done|].
  assert (0 <= (ask - bid) * 2 * 10000 * SCALE <= (20000 * SCALE) * (ask + bid)) as Hb by (unfold SCALE; nia).
  apply (rnd_bounds 0 (20000 * SCALE)); lia.
Qed.

Lemma reversal_Ok direction anchor extreme current v : reversal_from_extreme direction anchor extreme current = Ok v ->
  0 <= v <= SCALE /\
  match direction with
  | DirUp => anchor < extreme /\ v = clamp 0 SCALE (rnd ((extreme - current) * SCALE) (extreme - anchor))
  | DirDown => extreme < anchor /\ v = clamp 0 SCALE (rnd ((current - extreme) * SCALE) (anchor - extreme))
  | DirUnknown => False
  end.
Proof.
  unfold reversal_from_extreme, checked. intros H. apply rbind_Ok in H as (w & Hw & H). injection H as <-.
  split; [unfold clamp, SCALE; lia|]. destruct direction; [| |discriminate Hw].
  - destruct (Z.ltb_spec anchor extreme); [|discriminate Hw]. res. apply div_scaled_Ok in Hw; [|done|lia]. by subst.
  - destruct (Z.ltb_spec extreme anchor); [|discriminate Hw]. res. apply div_scaled_Ok in Hw; [|done|lia]. by subst.
Qed.

Lemma cvd_slope_Ok first last elapsed v : fits I128 elapsed -> cvd_slope first last elapsed = Ok v ->
  0 < elapsed /\ v = rnd ((last - first) * 1000000) elapsed.
Proof.
  unfold cvd_slope, checked. intros He H. destruct (Z.leb_spec elapsed 0); [discriminate H|].
  apply rbind_Ok in H as (n & Hn & H). apply ok_or_Ok in Hn. apply bind_Some in Hn as (v1 & H1 & Hn). res.
  rewrite rounded_div_spec in H by done. by injection H.
Qed.

Lemma breadth_Ok confirming eligible v : 0 <= confirming -> fits I128 eligible -> cross_venue_breadth confirming eligible = Ok v ->
  2 <= eligible /\ confirming <= eligible /\ v = rnd (confirming * SCALE) eligible /\ 0 <= v <= SCALE.
Proof.
  unfold cross_venue_breadth, checked, div_integer. intros Hc He H.
  destruct (Z.ltb_spec eligible 2), (Z.ltb_spec eligible confirming); try discriminate H. cbn [orb] in H. res.
  rewrite rounded_div_spec in H by (done || lia). injection H as <-. split; [done|]. split; [done|]. split; [done|].
  assert (0 <= confirming * SCALE <= SCALE * eligible) by (unfold SCALE; nia). apply (rnd_bounds 0 SCALE); lia.
Qed.

Definition notional (pq : Z * Z) : Z := rnd (pq.1 * Z.abs pq.2) SCALE.

Lemma liquidation_Ok values v : Forall (fun pq => fits I128 pq.2) values -> liquidation_notional values = Ok v ->
  Forall (fun pq => 0 < pq.1) values /\ v = foldr (fun pq acc => notional pq + acc) 0 values /\ 0 <= v.
Proof.
  unfold liquidation_notional. intros Hf. assert (forall acc, 0 <= acc -> try_fold liquidation_step acc values = Ok v ->
    Forall (fun pq => 0 < pq.1) values /\ v = acc + foldr (fun pq acc => notional pq + acc) 0 values /\ acc <= v) as H;
    [|intros E; destruct (H 0 ltac:(lia) E) as (? & ? & ?); split_and! ; [done|lia|lia]].
  induction Hf as [|[p q] l Hq _ IH]; intros acc Ha E; cbn [try_fold foldr] in *.
  - injection E as <-. split_and! ; [constructor|lia|lia].
  - apply rbind_Ok in E as (s & Es & E). unfold liquidation_step, checked in Es.
    destruct (Z.leb_spec p 0); [discriminate Es|]. res. apply mul_scaled_Ok in Hv0. subst.
    assert (0 <= rnd (p * Z.abs q) SCALE) as Hn by (apply rnd_nonneg; [done|nia]).
    apply IH in E as (H1 & H2 & H3); [|lia]. unfold notional at 1. cbn [fst snd]. split_and! ; [by constructor|lia|lia].
Qed.
