(* ===== verification/PulseLog.v ===== *)
(** * Event pulse: accuracy of the fixed-point logarithm

    [log_return] of crates/event-pulse/src/features.rs evaluates eight terms
    of the series of the inverse hyperbolic tangent in checked fixed-point
    arithmetic.  The theorem compares it with the natural logarithm of the
    real numbers: a bound of the remainder of the series, by the mean value
    theorem, and the accumulated rounding errors of the eight terms. *)

From Stdlib Require Import ZArith Lia Reals Lra.
From stdpp Require Import base tactics numbers option list.
From S2P Require Import Prelude Fixed PulseMath.

(** ** The series *)

Local Open Scope R_scope.

(** A polynomial, as its coefficients and exponents. *)
Definition poly (l : list (R * nat)) (x : R) : R := foldr (fun cn acc => fst cn * x ^ snd cn + acc) 0 l.
Definition poly' (l : list (R * nat)) (x : R) : R :=
  foldr (fun cn acc => fst cn * (INR (snd cn) * x ^ pred (snd cn)) + acc) 0 l.

Lemma poly_derive l x : derivable_pt_lim (poly l) x (poly' l x).
Proof.
  induction l as [|[c n] l IH]; cbn [poly poly' foldr fst snd]; [apply derivable_pt_lim_const|].
  apply (derivable_pt_lim_plus (fun x => c * x ^ n)); [|exact IH].
  apply (derivable_pt_lim_scal (fun x => x ^ n)), derivable_pt_lim_pow.
Qed.

(** The first eight terms of the series of the inverse hyperbolic tangent. *)
Definition artanh_terms : list (R * nat) :=
  (fun k => (/ IZR (Z.of_nat k), k)) <$> [1; 3; 5; 7; 9; 11; 13; 15]%nat.
Definition artanh8 : R -> R := poly artanh_terms.

Definition artanh (x : R) : R := (ln (1 + x) - ln (1 - x)) / 2.

Lemma artanh_derive x : -1 < x < 1 -> derivable_pt_lim artanh x (/ (1 - x ^ 2)).
Proof.
  intros Hx. unfold artanh.
  replace (/ (1 - x ^ 2)) with (/ 2 * (/ (1 + x) * (0 + 1) - / (1 - x) * (0 - 1))) by (field; nra).
  assert (forall c, derivable_pt_lim (fun x => ln (1 + c * x)) x (/ (1 + c * x) * (0 + c * 1)) \/ ~ 0 < 1 + c * x) as Hl.
  { intros c. destruct (Rlt_dec 0 (1 + c * x)) as [Hp|Hp]; [left|by right].
    apply (derivable_pt_lim_comp (fun x => 1 + c * x) ln); [|by apply derivable_pt_lim_ln].
    apply (derivable_pt_lim_plus (fun _ => 1)); [apply derivable_pt_lim_const|].
    apply (derivable_pt_lim_scal (fun x => x)), derivable_pt_lim_id. }
  destruct (Hl 1) as [H1|H1]; [|exfalso; apply H1; lra]. destruct (Hl (-1)) as [H2|H2]; [|exfalso; apply H2; lra].
  pose proof (derivable_pt_lim_scal _ (/ 2) _ _ (derivable_pt_lim_minus _ _ _ _ _ H1 H2)) as H.
  assert (/ 2 * (/ (1 + 1 * x) * (0 + 1 * 1) - / (1 + -1 * x) * (0 + -1 * 1)) =
          / 2 * (/ (1 + x) * (0 + 1) - / (1 - x) * (0 - 1))) as E by (field; lra).
  rewrite E in H. refine (derivable_pt_lim_ext _ _ _ _ _ H). intros y. unfold mult_real_fct, minus_fct.
  replace (1 + 1 * y) with (1 + y) by ring. replace (1 + -1 * y) with (1 - y) by ring. field.
Qed.

Lemma artanh8_slope x : poly' artanh_terms x = 1 + x ^ 2 + x ^ 4 + x ^ 6 + x ^ 8 + x ^ 10 + x ^ 12 + x ^ 14.
Proof.
  unfold artanh_terms, poly'. cbn [fmap list_fmap foldr fst snd]. rewrite !INR_IZR_INZ. simpl Z.of_nat. simpl pred. field.
Qed.

Lemma Rabs_bounds x b : Rabs x <= b -> - b <= x <= b.
Proof. unfold Rabs. destruct (Rcase_abs x); lra. Qed.

(** The mean value theorem on an interval that may be oriented either way. *)
Lemma mean_value f f' a b lo hi K :
  lo <= a <= hi -> lo <= b <= hi -> (forall c, lo <= c <= hi -> derivable_pt_lim f c (f' c) /\ Rabs (f' c) <= K) ->
  Rabs (f b - f a) <= K * Rabs (b - a).
Proof.
  intros Ha Hb Hd.
  assert (forall a b, lo <= a -> b <= hi -> a < b -> Rabs (f b - f a) <= K * Rabs (b - a)) as H.
  { intros u v Hu Hv Huv. destruct (MVT_cor2 f f' u v Huv) as (c & E & Hc); [intros c Hc; apply Hd; lra|].
    rewrite E, Rabs_mult. apply Rmult_le_compat_r; [apply Rabs_pos|]. apply Hd. lra. }
  destruct (Rtotal_order a b) as [|[->|]]; [apply H; lra| |].
  - rewrite !Rminus_diag, Rabs_R0. lra.
  - rewrite (Rabs_minus_sym (f b)), (Rabs_minus_sym b). apply H; lra.
Qed.

(** Powers of a small number. *)
Lemma pow_small x n : Rabs x <= 1 / 8 -> Rabs (x ^ n) <= (1 / 8) ^ n.
Proof. intros Hx. rewrite <- RPow_abs. apply pow_incr. split; [apply Rabs_pos|done]. Qed.

Lemma square_small x : Rabs x <= 1 / 8 -> 0 <= x ^ 2 <= 1 / 64.
Proof. intros Hx. apply Rabs_bounds in Hx. nra. Qed.

Lemma artanh8_close x : Rabs x <= 1 / 8 -> Rabs (artanh8 x - artanh x) <= 1 / 10 ^ 12.
Proof.
  intros Hx. set (f x := artanh8 x - artanh x).
  set (f' x := poly' artanh_terms x - / (1 - x ^ 2)).
  assert (f 0 = 0) as H0.
  { unfold f, artanh, artanh8, poly, artanh_terms. cbn [fmap list_fmap foldr fst snd].
    rewrite !pow_ne_zero by done. replace (1 + 0) with 1 by lra. rewrite Rminus_0_r, ln_1. lra. }
  assert (Rabs (f x - f 0) <= (1 / 10 ^ 12) * Rabs (x - 0)) as H.
  { apply (mean_value f f' 0 x (-1 / 8) (1 / 8)); [lra| |].
    { apply Rabs_bounds in Hx. lra. }
    intros c Hc. assert (Rabs c <= 1 / 8) as Hc' by (apply Rabs_le; lra). split.
    - apply (derivable_pt_lim_minus artanh8 artanh); [apply poly_derive|]. apply artanh_derive. lra.
    - unfold f'. rewrite artanh8_slope. pose proof (square_small c Hc') as Hs.
      replace (_ - _) with (- (c ^ 16 * / (1 - c ^ 2))) by (field; lra).
      rewrite Rabs_Ropp, Rabs_mult. pose proof (pow_small c 16 Hc') as Hp.
      assert (Rabs (/ (1 - c ^ 2)) <= 2) as Hi.
      { rewrite Rabs_right; [|apply Rle_ge, Rlt_le, Rinv_0_lt_compat; lra].
        rewrite <- (Rinv_inv 2). apply Rinv_le_contravar; lra. }
      apply Rle_trans with ((1 / 8) ^ 16 * 2); [|lra].
      apply Rmult_le_compat; [apply Rabs_pos..|exact Hp|exact Hi]. }
  rewrite H0 in H. unfold f in H. rewrite !Rminus_0_r in H.
  eapply Rle_trans; [exact H|]. pose proof (Rabs_pos x). nra.
Qed.

Lemma artanh_lipschitz x y : Rabs x <= 1 / 8 -> Rabs y <= 1 / 8 -> Rabs (artanh x - artanh y) <= 64 / 63 * Rabs (x - y).
Proof.
  intros Hx Hy. apply (mean_value artanh (fun c => / (1 - c ^ 2)) y x (-1 / 8) (1 / 8)).
  1, 2: apply Rabs_bounds in Hx, Hy; lra.
  intros c Hc. assert (Rabs c <= 1 / 8) as Hc' by (apply Rabs_le; lra). pose proof (square_small c Hc') as Hs.
  split; [apply artanh_derive; lra|].
  rewrite Rabs_right; [|apply Rle_ge, Rlt_le, Rinv_0_lt_compat; lra].
  replace (64 / 63) with (/ (63 / 64)) by field. apply Rinv_le_contravar; lra.
Qed.

(** ** The integer computation *)

Local Close Scope R_scope.
Local Open Scope Z_scope.

(** Ratios of magnitude at most one never overflow. *)
Lemma mul_scaled_small a b : Z.abs a <= SCALE -> Z.abs b <= SCALE ->
  mul_scaled a b = Ok (rnd (a * b) SCALE) /\ Z.abs (rnd (a * b) SCALE) <= SCALE.
Proof.
  unfold SCALE. intros Ha Hb. assert (- (100000000 * 100000000) <= a * b <= 100000000 * 100000000) as Hp by nia.
  unfold mul_scaled, checked, checked_mul. rewrite to_ty_fits by (unfold fits; simpl; lia). cbn [ok_or rbind].
  rewrite rounded_div_spec by (unfold fits, SCALE; simpl; lia). split; [done|].
  pose proof (rnd_bounds (-100000000) 100000000 (a * b) 100000000). lia.
Qed.

Lemma div_integer_small a k : Z.abs a <= SCALE -> 0 < k <= 15 ->
  div_integer a k = Ok (rnd a k) /\ Z.abs (rnd a k) <= SCALE.
Proof.
  unfold SCALE. intros Ha Hk. unfold div_integer. rewrite rounded_div_spec by (unfold fits; simpl; lia). split; [done|].
  pose proof (rnd_bounds (-100000000) 100000000 a k). lia.
Qed.

Definition next_power (z2 power k : Z) : Z := if k <? 15 then rnd (power * z2) SCALE else power.

Lemma log_step_small z2 power sum k : Z.abs z2 <= SCALE -> Z.abs power <= SCALE -> Z.abs sum <= 100 * SCALE -> 0 < k <= 15 ->
  log_step z2 (power, sum) k = Ok (next_power z2 power k, sum + rnd power k) /\
  Z.abs (next_power z2 power k) <= SCALE /\ Z.abs (sum + rnd power k) <= Z.abs sum + SCALE.
Proof.
  intros Hz Hp Hs Hk. destruct (div_integer_small power k Hp Hk) as [E1 B1]. destruct (mul_scaled_small power z2 Hp Hz) as [E2 B2].
  unfold log_step, next_power. rewrite E1. cbn [rbind]. unfold checked, checked_add.
  rewrite to_ty_fits by (unfold fits, SCALE in *; simpl; lia). cbn [ok_or rbind].
  destruct (k <? 15); [rewrite E2|]; cbn [rbind]; split; [done|lia|done|lia].
Qed.

(** The eight powers of the loop and their weighted sum. *)
Fixpoint power_sum (z2 power : Z) (ks : list Z) : Z :=
  match ks with [] => 0 | k :: ks => rnd power k + power_sum z2 (next_power z2 power k) ks end.

Lemma log_loop_sum z2 ks power sum : Z.abs z2 <= SCALE -> Z.abs power <= SCALE ->
  Z.abs sum + Z.of_nat (length ks) * SCALE <= 100 * SCALE -> Forall (fun k => 0 < k <= 15) ks ->
  exists p, try_fold (log_step z2) (power, sum) ks = Ok (p, sum + power_sum z2 power ks) /\
    Z.abs (sum + power_sum z2 power ks) <= Z.abs sum + Z.of_nat (length ks) * SCALE.
Proof.
  intros Hz. revert power sum. induction ks as [|k ks IH]; intros power sum Hp Hs Hk.
  - exists power. cbn. rewrite Z.add_0_r. split; [done|lia].
  - apply Forall_cons in Hk as [Hk Hks]. cbn [length] in Hs. rewrite Nat2Z.inj_succ in Hs. unfold SCALE in Hs. 
    destruct (log_step_small z2 power sum k) as (E & B1 & B2); [done|done|unfold SCALE; lia|done|].
    destruct (IH (next_power z2 power k) (sum + rnd power k)) as (p & E' & B); [done|unfold SCALE in *; lia|done|].
    exists p. cbn [try_fold power_sum length]. rewrite E. cbn [rbind]. rewrite E', Nat2Z.inj_succ.
    rewrite Z.add_assoc. split; [done|]. unfold SCALE in *. lia.
Qed.

Definition odd_numbers : list Z := [1; 3; 5; 7; 9; 11; 13; 15].

(** Prices that [log_return] can compare: positive, no more than a quarter
    apart, and far enough from the range of [i128]. *)
Definition comparable (p0 p1 : Z) : Prop :=
  0 < p0 /\ 0 < p1 /\ 4 * p0 <= 5 * p1 /\ 4 * p1 <= 5 * p0 /\ (p0 + p1) * SCALE <= int_max I128.

Definition log_ratio (p0 p1 : Z) : Z := rnd ((p1 - p0) * SCALE) (p1 + p0).

Lemma log_ratio_small p0 p1 : comparable p0 p1 -> Z.abs (log_ratio p0 p1) <= 11111112.
Proof.
  intros (H0 & H1 & Hl & Hu & _). unfold log_ratio, SCALE.
  pose proof (rnd_bounds (-11111112) 11111112 ((p1 - p0) * 100000000) (p1 + p0)). lia.
Qed.

Lemma log_return_sum p0 p1 : comparable p0 p1 ->
  let z := log_ratio p0 p1 in
  log_return p0 p1 = Ok (2 * power_sum (rnd (z * z) SCALE) z odd_numbers).
Proof.
  intros Hc z. pose proof (log_ratio_small _ _ Hc) as Hz. fold z in Hz. destruct Hc as (H0 & H1 & Hl & Hu & Hm).
  unfold SCALE in Hm. cbn in Hm. unfold log_return, checked, checked_mul, checked_sub, checked_add, div_scaled.
  rewrite (proj2 (Z.leb_gt p0 0)), (proj2 (Z.leb_gt p1 0)) by done. cbn [orb].
  rewrite !to_ty_fits by (unfold fits; simpl; lia). cbn [mbind option_bind ok_or rbind].
  rewrite (proj2 (Z.leb_le (p0 * 4) (p1 * 5))), (proj2 (Z.leb_le (p1 * 4) (p0 * 5))) by lia. cbn [negb orb].
  unfold checked, checked_mul. rewrite (to_ty_fits I128 ((p1 - p0) * SCALE)) by (unfold fits, SCALE; simpl; lia).
  cbn [ok_or rbind]. rewrite rounded_div_spec by (unfold fits, SCALE; simpl; lia). cbn [rbind].
  change (rnd ((p1 - p0) * SCALE) (p1 + p0)) with z.
  destruct (mul_scaled_small z z) as [E B]; [unfold SCALE; lia..|]. rewrite E. cbn [rbind].
  destruct (log_loop_sum (rnd (z * z) SCALE) odd_numbers z 0) as (p & E' & B'); [done|unfold SCALE; lia|cbn; lia|repeat constructor; lia|].
  unfold odd_numbers in *. rewrite E'. cbn [rbind length] in *.
  set (s := power_sum _ _ _) in *. clearbody s. unfold SCALE in *.
  rewrite to_ty_fits by (unfold fits; simpl; lia). cbn [ok_or]. f_equal. lia.
Qed.

(** ** Rounding errors *)

Local Close Scope Z_scope.
Local Open Scope R_scope.

(** One unit of the fixed-point representation. *)
Definition ulp : R := / IZR SCALE.

Lemma ulp_bounds : 0 < ulp <= / 10 ^ 8.
Proof. unfold ulp, SCALE. lra. Qed.

(** The real number that a fixed-point value stands for. *)
Definition real (v : Z) : R := IZR v * ulp.

Lemma rnd_error n d : (0 < d)%Z -> Rabs (IZR (rnd n d) - IZR n / IZR d) <= 1 / 2.
Proof.
  intros Hd. pose proof (rnd_nearest n d Hd) as H. apply IZR_lt in Hd. set (q := rnd n d) in *. clearbody q.
  assert (- IZR d <= 2 * (IZR n - IZR q * IZR d) <= IZR d) as H'.
  { rewrite <- mult_IZR, <- minus_IZR, <- (mult_IZR 2), <- opp_IZR. split; apply IZR_le; lia. }
  replace (IZR q - IZR n / IZR d) with (- (IZR n - IZR q * IZR d) / IZR d) by (field; lra).
  apply Rabs_le. split; [apply Rmult_le_reg_r with (IZR d)|apply Rmult_le_reg_r with (IZR d)]; try done;
    unfold Rdiv; rewrite Rmult_assoc, Rinv_l by lra; lra.
Qed.

(** The rounded quotient of a fixed-point value by an integer, and the rounded
    product of two fixed-point values. *)
Lemma real_div_error p k : (0 < k)%Z -> Rabs (real (rnd p k) - real p / IZR k) <= ulp / 2.
Proof.
  intros Hk. pose proof (rnd_error p k Hk) as H. pose proof ulp_bounds. unfold real.
  replace (IZR (rnd p k) * ulp - IZR p * ulp / IZR k) with ((IZR (rnd p k) - IZR p / IZR k) * ulp)
    by (field; apply IZR_lt in Hk; lra).
  rewrite Rabs_mult, (Rabs_right ulp) by lra. nra.
Qed.

Lemma real_mul_error a b : Rabs (real (rnd (a * b) SCALE) - real a * real b) <= ulp / 2.
Proof.
  pose proof (real_div_error (a * b) SCALE ltac:(done)) as H.
  replace (real a * real b) with (real (a * b) / IZR SCALE); [done|]. unfold real, ulp. rewrite mult_IZR. field.
  unfold SCALE. lra.
Qed.

Lemma power_step zr pr z2r qr n : Rabs zr <= 1 / 8 -> (1 <= n)%nat -> Rabs (z2r - zr ^ 2) <= ulp / 2 ->
  Rabs (pr - zr ^ n) <= 3 / 5 * ulp -> Rabs (qr - pr * z2r) <= ulp / 2 -> Rabs (qr - zr ^ (S (S n))) <= 3 / 5 * ulp.
Proof.
  intros Hz Hn H2 Hp Hq. pose proof ulp_bounds as Hu. pose proof (square_small zr Hz) as Hs.
  assert (Rabs (zr ^ n) <= 1 / 8) as Hzn.
  { eapply Rle_trans; [by apply pow_small|]. destruct n as [|n]; [lia|]. rewrite <- tech_pow_Rmult.
    assert ((1 / 8) ^ n <= 1 ^ n) as Hb by (apply pow_incr; lra). rewrite pow1 in Hb.
    assert (0 <= (1 / 8) ^ n) by (apply pow_le; lra). lra. }
  assert (Rabs pr <= 1 / 7) as Hpr by (apply Rabs_bounds in Hzn, Hp; apply Rabs_le; lra).
  replace (qr - zr ^ S (S n)) with ((qr - pr * z2r) + (pr * (z2r - zr ^ 2) + zr ^ 2 * (pr - zr ^ n)))
    by (rewrite <- !tech_pow_Rmult; ring).
  eapply Rle_trans; [apply Rabs_triang|]. eapply Rle_trans; [apply Rplus_le_compat_l, Rabs_triang|].
  rewrite !Rabs_mult, (Rabs_right (zr ^ 2)) by lra. pose proof (Rabs_pos pr). pose proof (Rabs_pos (z2r - zr ^ 2)).
  pose proof (Rabs_pos (pr - zr ^ n)).
  assert (Rabs pr * Rabs (z2r - zr ^ 2) <= 1 / 7 * (ulp / 2)) by (apply Rmult_le_compat; lra).
  assert (zr ^ 2 * Rabs (pr - zr ^ n) <= 1 / 64 * (3 / 5 * ulp)) by (apply Rmult_le_compat; lra). lra.
Qed.

(** The sum the loop approximates, from the power [n] on, and its error. *)
Fixpoint term_sum (zr : R) (n : nat) (ks : list Z) : R :=
  match ks with [] => 0 | k :: ks => zr ^ n / IZR k + term_sum zr (S (S n)) ks end.
Definition term_error (ks : list Z) : R := foldr (fun k acc => (1 / 2 + 3 / 5 / IZR k) * ulp + acc) 0 ks.

Lemma power_sum_close zr z2 ks p n : Rabs zr <= 1 / 8 -> Rabs (real z2 - zr ^ 2) <= ulp / 2 -> (1 <= n)%nat ->
  Rabs (real p - zr ^ n) <= 3 / 5 * ulp -> Forall (fun k => 0 < k < 15)%Z ks ->
  Rabs (real (power_sum z2 p (ks ++ [15%Z])) - term_sum zr n (ks ++ [15%Z])) <= term_error (ks ++ [15%Z]).
Proof.
  intros Hz H2. revert p n.
  assert (forall p k rest t te n, (0 < k)%Z -> Rabs (real p - zr ^ n) <= 3 / 5 * ulp -> Rabs (real rest - t) <= te ->
    Rabs (real (rnd p k + rest) - (zr ^ n / IZR k + t)) <= (1 / 2 + 3 / 5 / IZR k) * ulp + te) as Hterm.
  { intros p k rest t te n Hk Hp Hr. pose proof (real_div_error p k Hk) as Hd. apply IZR_lt in Hk.
    replace (real (rnd p k + rest) - _) with
      ((real (rnd p k) - real p / IZR k) + (real p - zr ^ n) * / IZR k + (real rest - t))
      by (unfold real; rewrite plus_IZR; field; lra).
    eapply Rle_trans; [apply Rabs_triang|]. apply Rplus_le_compat; [|done].
    eapply Rle_trans; [apply Rabs_triang|]. rewrite Rabs_mult, (Rabs_right (/ IZR k))
      by (apply Rle_ge, Rlt_le, Rinv_0_lt_compat; lra).
    assert (Rabs (real p - zr ^ n) * / IZR k <= 3 / 5 * ulp * / IZR k)
      by (apply Rmult_le_compat_r; [apply Rlt_le, Rinv_0_lt_compat; lra|done]).
    unfold Rdiv in *. lra. }
  induction ks as [|k ks IH]; intros p n Hn Hp Hk; cbn [app power_sum term_sum term_error foldr].
  - apply Hterm; [done|done|]. unfold real. rewrite Rmult_0_l, Rminus_0_r, Rabs_R0. lra.
  - apply Forall_cons in Hk as [Hk Hks]. apply Hterm; [lia|done|].
    apply IH; [lia| |done]. unfold next_power. rewrite (proj2 (Z.ltb_lt k 15)) by lia.
    eapply power_step; [done|done|exact H2|exact Hp|apply real_mul_error].
Qed.

Lemma ln_ratio p0 p1 : 0 < p0 -> 0 < p1 -> ln (p1 / p0) = 2 * artanh ((p1 - p0) / (p1 + p0)).
Proof.
  intros H0 H1. unfold artanh.
  replace (1 + (p1 - p0) / (p1 + p0)) with (2 * p1 / (p1 + p0)) by (field; lra).
  replace (1 - (p1 - p0) / (p1 + p0)) with (2 * p0 / (p1 + p0)) by (field; lra).
  assert (0 < / (p1 + p0)) by (apply Rinv_0_lt_compat; lra).
  unfold Rdiv at 1 3 4. rewrite !ln_mult, ln_Rinv by (try apply Rinv_0_lt_compat; nra || lra). lra.
Qed.

Lemma power_sum_odd z2 p ks : power_sum z2 (- p) ks = (- power_sum z2 p ks)%Z.
Proof.
  revert p. induction ks as [|k ks IH]; intros p; cbn [power_sum]; [done|]. rewrite rnd_opp.
  replace (next_power z2 (- p) k) with (- next_power z2 p k)%Z; [rewrite IH; lia|].
  unfold next_power. destruct (k <? 15)%Z; [|done]. rewrite <- rnd_opp. f_equal. lia.
Qed.

Lemma artanh8_terms x : artanh8 x = x + term_sum x 3 [3; 5; 7; 9; 11; 13; 15]%Z.
Proof.
  unfold artanh8, poly, artanh_terms. cbn [fmap list_fmap foldr fst snd term_sum]. simpl Z.of_nat.
  unfold Rdiv. rewrite pow_1. field.
Qed.

(** The sum of the loop, for a ratio in its range. *)
Lemma log_sum_close z : (Z.abs z <= 11111112)%Z ->
  Rabs (real z) <= 1 / 8 /\
  Rabs (real (power_sum (rnd (z * z) SCALE) z odd_numbers) - artanh8 (real z)) <= term_error [3; 5; 7; 9; 11; 13; 15]%Z.
Proof.
  intros Hz. pose proof ulp_bounds as Hu. assert (Rabs (real z) <= 1 / 8) as Hzr.
  { unfold real, ulp, SCALE. apply Rabs_le. assert (-11111112 <= z <= 11111112)%Z as [H1 H2] by lia.
    apply IZR_le in H1, H2. lra. }
  split; [done|]. set (z2 := rnd (z * z) SCALE). set (p3 := rnd (z * z2) SCALE).
  assert (Rabs (real z2 - real z ^ 2) <= ulp / 2) as H2
    by (replace (real z ^ 2) with (real z * real z) by ring; apply real_mul_error).
  assert (Rabs (real p3 - real z ^ 3) <= 3 / 5 * ulp) as H3.
  { apply (power_step (real z) (real z) (real z2) _ 1); [done|lia|done| |apply real_mul_error].
    rewrite pow_1, Rminus_diag, Rabs_R0. lra. }
  pose proof (power_sum_close (real z) z2 [3; 5; 7; 9; 11; 13]%Z p3 3 Hzr H2 ltac:(lia) H3 ltac:(repeat constructor; lia)) as Hs.
  cbn [app] in Hs. rewrite artanh8_terms. unfold odd_numbers.
  assert (power_sum z2 z [1; 3; 5; 7; 9; 11; 13; 15] = z + power_sum z2 p3 [3; 5; 7; 9; 11; 13; 15])%Z as ->.
  { cbn [power_sum]. f_equal. rewrite <- (Z.mul_1_r z) at 1. by apply rnd_mul. }
  unfold real at 1. rewrite plus_IZR, Rmult_plus_distr_r. fold (real z).
  fold (real (power_sum z2 p3 [3; 5; 7; 9; 11; 13; 15]%Z)).
  match goal with |- Rabs (real z + ?a - (real z + ?b)) <= _ => replace (real z + a - (real z + b)) with (a - b) by ring end.
  exact Hs.
Qed.

Lemma log_ratio_error p0 p1 : comparable p0 p1 ->
  let x := (IZR p1 - IZR p0) / (IZR p1 + IZR p0) in
  Rabs (real (log_ratio p0 p1) - x) <= ulp / 2 /\ Rabs x <= 1 / 8.
Proof.
  intros (H0 & H1 & Hl & Hr & _) x. unfold log_ratio.
  pose proof (real_div_error ((p1 - p0) * SCALE) (p1 + p0) ltac:(lia)) as He.
  apply IZR_lt in H0, H1. apply IZR_le in Hl, Hr. rewrite !mult_IZR in Hl, Hr. split.
  - replace x with (real ((p1 - p0) * SCALE) / IZR (p1 + p0)); [done|]. unfold x, real, ulp.
    rewrite mult_IZR, minus_IZR, plus_IZR. field. unfold SCALE. lra.
  - unfold x, Rdiv. rewrite Rabs_mult, (Rabs_right (/ _)) by (apply Rle_ge, Rlt_le, Rinv_0_lt_compat; lra).
    apply Rmult_le_reg_r with (IZR p1 + IZR p0); [lra|]. rewrite Rmult_assoc, Rinv_l, Rmult_1_r by lra.
    apply Rabs_le. lra.
Qed.

Lemma log_ratio_swap p0 p1 : log_ratio p1 p0 = (- log_ratio p0 p1)%Z.
Proof. unfold log_ratio. rewrite <- rnd_opp, (Z.add_comm p0). f_equal. lia. Qed.

(** C18. The logarithmic return of two comparable prices is computed without
    overflow, lies within ten units in the last place of the real logarithm
    of their ratio, and changes exactly its sign when the prices are swapped. *)
Theorem log_return_accurate p0 p1 : comparable p0 p1 ->
  exists r, log_return p0 p1 = Ok r /\ Rabs (real r - ln (IZR p1 / IZR p0)) <= 10 * ulp /\
    log_return p1 p0 = Ok (- r)%Z.
Proof.
  intros Hc. destruct (log_ratio_error _ _ Hc) as [Hx Hxs]. destruct (log_sum_close _ (log_ratio_small _ _ Hc)) as [Hzr Ha].
  eexists. split; [by apply log_return_sum|]. assert (comparable p1 p0) as Hc' by (unfold comparable in *; lia). split.
  - set (z := log_ratio p0 p1) in *. set (s := power_sum _ z odd_numbers) in *.
    rewrite ln_ratio by (apply IZR_lt, Hc). set (x := (IZR p1 - IZR p0) / (IZR p1 + IZR p0)) in *.
    pose proof (artanh8_close (real z) Hzr) as H8. pose proof (artanh_lipschitz (real z) x Hzr Hxs) as HL.
    unfold real at 1. rewrite mult_IZR, Rmult_assoc. fold (real s).
    assert (Rabs (real s - artanh x) <= 5 * ulp) as HF; [|apply Rabs_bounds in HF; apply Rabs_le; lra].
    apply Rabs_bounds in Ha, H8, HL. unfold term_error in Ha. cbn [foldr] in Ha. unfold ulp, SCALE in *. apply Rabs_le. lra.
  - rewrite (log_return_sum _ _ Hc'), log_ratio_swap. rewrite Z.mul_opp_opp, power_sum_odd. f_equal. lia.
Qed.

(** A rise of a tenth. *)
Lemma log_return_accurate_witness :
  exists r, log_return 100000000 110000000 = Ok r /\ Rabs (real r - ln (IZR 110000000 / IZR 100000000)) <= 10 * ulp /\ r = 9531018%Z.
Proof.
  destruct (log_return_accurate 100000000 110000000) as (r & E & H & _); [vm_compute; repeat split; discriminate|].
  exists r. split; [done|]. split; [done|]. vm_compute in E. by injection E.
Defined.
