(* ===== verification/PulseBook.v ===== *)
(** * Event pulse: the book projection ([crates/event-pulse/src/features.rs])

    The book that the depth feature is computed from: an [OrderBook] with the
    sequence discipline of its source, which is dropped at the first gap,
    mode change or rejected change, and rebuilt from the next snapshot. *)

From stdpp Require Import base tactics numbers strings option list.
From Stdlib Require Import ZArith Lia.
From S2P Require Import Prelude Collections Fixed Model OrderBook PulseMath.

Local Open Scope Z_scope.

Inductive BookSequenceMode := NativeSnapshot (last : Z) | NativeDelta (last : Z) | DerivedMode.

#[export] Instance BookSequenceMode_eq_dec : EqDecision BookSequenceMode.
Proof. solve_decision. Defined.

Inductive ProjectionError := ProjectionBook (e : BookError) | Unsorted | ProjectionGap | ProjectionMode.

Record BookProjection := mkBookProjection {
  bp_book : OrderBook;
  bp_price_scale : Z;
  bp_quantity_scale : Z;
  bp_available_at_ns : option Z;
  bp_resyncing : bool;
  bp_sequence_mode : option BookSequenceMode
}.

#[export] Instance eta_BookProjection : Eta BookProjection := fun p =>
  mkBookProjection (bp_book p) (bp_price_scale p) (bp_quantity_scale p) (bp_available_at_ns p) (bp_resyncing p)
    (bp_sequence_mode p).

Abbreviation Bp := (Eff BookProjection ProjectionError).

Definition bp_new (price_scale quantity_scale : Z) (depth : option Z) : BookProjection :=
  mkBookProjection (OrderBook.new price_scale quantity_scale depth) price_scale quantity_scale None true None.

(** ** Snapshots that may be applied *)

Definition exact_coefficient (v : Fixed) (scale : Z) : option Z :=
  match rescale v scale ExactOnly with Ok f => Some (coefficient f) | Err _ => None end.

Definition valid_level (price_scale quantity_scale : Z) (l : BookLevel) : bool :=
  match exact_coefficient (price0 (level_price l)) price_scale, exact_coefficient (qty0 (level_quantity l)) quantity_scale with
  | Some _, Some quantity => 0 <? quantity
  | _, _ => false
  end.

(** [levels.windows(2).all(..)]. *)
Fixpoint ordered (price_scale : Z) (descending : bool) (levels : list BookLevel) : bool :=
  match levels with
  | l :: ((r :: _) as rest) =>
      match exact_coefficient (price0 (level_price l)) price_scale, exact_coefficient (price0 (level_price r)) price_scale with
      | Some l0, Some r0 => if descending then r0 <? l0 else l0 <? r0
      | _, _ => false
      end && ordered price_scale descending rest
  | _ => true
  end.

Definition strictly_sorted (snapshot : BookSnapshot) (price_scale quantity_scale : Z) : bool :=
  forallb (valid_level price_scale quantity_scale) (snapshot_bids snapshot) &&
  forallb (valid_level price_scale quantity_scale) (snapshot_asks snapshot) &&
  ordered price_scale true (snapshot_bids snapshot) && ordered price_scale false (snapshot_asks snapshot).

(** ** Operations *)

Definition bp_dropped (v : BookValidity) (p : BookProjection) : BookProjection :=
  p ⟪ bp_book := set_validity (clear (bp_book p)) v ⟫ ⟪ bp_available_at_ns := None ⟫ ⟪ bp_resyncing := true ⟫
    ⟪ bp_sequence_mode := None ⟫.

Definition bp_invalidate : BookProjection -> BookProjection := bp_dropped Invalid.
Definition permit_resnapshot : BookProjection -> BookProjection := bp_dropped Synchronizing.

(** [self.invalidate(); return Err(error)]. *)
Definition refuse {A} (e : ProjectionError) : Bp A := emod bp_invalidate !; ethrow e.

(** [if let Err(error) = self.book.m(..) { self.invalidate(); return Err(error.into()); }]. *)
Definition on_book (m : Eff OrderBook BookError unit) : Bp unit := fun p =>
  match m (bp_book p) with
  | (Ok _, b) => (Ok tt, p ⟪ bp_book := b ⟫)
  | (Err e, b) => refuse (ProjectionBook e) (p ⟪ bp_book := b ⟫)
  end.

Definition level_pair (l : BookLevel) : Price * Quantity := (level_price l, level_quantity l).

Definition bp_apply_snapshot (value : BookSnapshot) (sequence : option Z) (at_ns : Z) : Bp unit :=
  let! p := eget in
  if negb (strictly_sorted value (bp_price_scale p) (bp_quantity_scale p)) then refuse Unsorted else
  on_book (apply_snapshot (level_pair <$> snapshot_bids value) (level_pair <$> snapshot_asks value) sequence) !;
  emod (fun p => p ⟪ bp_available_at_ns := Some at_ns ⟫ ⟪ bp_resyncing := false ⟫).

Definition set_mode (m : BookSequenceMode) : Bp unit := emod (fun p => p ⟪ bp_sequence_mode := Some m ⟫).

(** [sequence.first > sequence.last || sequence.last > i64::MAX as u64]. *)
Definition bad_range (r : SequenceRange) : bool := (seq_last r <? seq_first r) || (int_max I64 <? seq_last r).

Definition snapshot_native (value : BookSnapshot) (sequence : SequenceRange) (at_ns : Z) : Bp unit :=
  if bad_range sequence then refuse ProjectionGap else
  bp_apply_snapshot value (Some (seq_last sequence)) at_ns !;
  set_mode (NativeSnapshot (seq_last sequence)).

Definition snapshot_derived (value : BookSnapshot) (at_ns : Z) : Bp unit :=
  bp_apply_snapshot value None at_ns !;
  set_mode DerivedMode.

(** The common end of the native deltas. *)
Definition bp_apply_native (value : BookDelta) (sequence : SequenceRange) (at_ns : Z) : Bp unit :=
  on_book (apply_changes_atomic (delta_changes value)) !;
  emod (fun p => p ⟪ bp_book := set_sequence (bp_book p) (seq_last sequence) ⟫) !;
  set_mode (NativeDelta (seq_last sequence)) !;
  emod (fun p => p ⟪ bp_available_at_ns := Some at_ns ⟫).

Definition delta_native (value : BookDelta) (sequence : SequenceRange) (at_ns : Z) : Bp unit :=
  let! p := eget in
  match bp_sequence_mode p with
  | Some (NativeSnapshot previous_last) | Some (NativeDelta previous_last) =>
      if bad_range sequence || bool_decide (checked_add U64 previous_last 1 <> Some (seq_first sequence)) then refuse ProjectionGap
      else bp_apply_native value sequence at_ns
  | _ => refuse ProjectionMode
  end.

Definition delta_native_v2 (value : BookDelta) (sequence : SequenceRange) (at_ns : Z) : Bp unit :=
  let! p := eget in
  let valid :=
    match bp_sequence_mode p with
    | Some (NativeSnapshot previous_last) => (seq_first sequence <=? previous_last) && (previous_last <=? seq_last sequence)
    | Some (NativeDelta previous_last) => previous_last <? seq_last sequence
    | _ => false
    end in
  if bad_range sequence || negb valid then refuse ProjectionGap
  else bp_apply_native value sequence at_ns.

Definition delta_derived (value : BookDelta) (at_ns : Z) : Bp unit :=
  let! p := eget in
  if bool_decide (bp_sequence_mode p <> Some DerivedMode) then refuse ProjectionMode else
  on_book (apply_changes_atomic (delta_changes value)) !;
  emod (fun p => p ⟪ bp_available_at_ns := Some at_ns ⟫).

(** ** Depth *)

(** One level of [depth_10bps]; [mid_numerator] is twice the middle price. *)
Definition depth_step (bid mid_numerator : Z) (sum : Z) (level : BookLevel) : result Z ArithmeticError :=
  let? price := rescale8 (price0 (level_price level)) in
  let? quantity := rescale8 (qty0 (level_quantity level)) in
  let? scaled := checked (checked_mul I128 price 10000) in
  let? admitted :=
    (if price <=? bid then
       let? bound := checked (checked_mul I128 mid_numerator 4995) in Ok (bound <=? scaled)
     else
       let? bound := checked (checked_mul I128 mid_numerator 5005) in Ok (scaled <=? bound)) in
  if (admitted : bool) then
    let? notional := mul_scaled price quantity in
    checked (checked_add I128 sum notional)
  else Ok sum.

Definition stale (p : BookProjection) (decision_time_ns : Z) : bool :=
  bp_resyncing p ||
  match bp_available_at_ns p with
  | None => true
  | Some at_ns =>
      match checked_sub I64 decision_time_ns at_ns with
      | None => true
      | Some age => negb ((0 <=? age) && (age <=? 250000000))
      end
  end.

Definition depth_10bps (p : BookProjection) (decision_time_ns : Z) : result Z ArithmeticError :=
  if stale p decision_time_ns then Err ArithDomain else
  let? (bid, _) := ok_or (best_bid (bp_book p)) ArithDomain in
  let? (ask, _) := ok_or (best_ask (bp_book p)) ArithDomain in
  let? bid := rescale8 (price0 bid) in
  let? ask := rescale8 (price0 ask) in
  if (bid <=? 0) || (ask <=? bid) then Err ArithDomain else
  let? mid_numerator := checked (checked_add I128 bid ask) in
  let? (bids, asks) := ok_or (snapshot_levels (bp_book p)) ArithDomain in
  try_fold (depth_step bid mid_numerator) 0 (bids ++ asks).

(** ** Histories *)

Inductive bp_op :=
  | BpSnapshotNative (v : BookSnapshot) (r : SequenceRange) (at_ns : Z)
  | BpSnapshotDerived (v : BookSnapshot) (at_ns : Z)
  | BpDeltaNative (v : BookDelta) (r : SequenceRange) (at_ns : Z)
  | BpDeltaNativeV2 (v : BookDelta) (r : SequenceRange) (at_ns : Z)
  | BpDeltaDerived (v : BookDelta) (at_ns : Z)
  | BpInvalidate
  | BpPermitResnapshot.

Definition bp_call (op : bp_op) : Bp unit :=
  match op with
  | BpSnapshotNative v r t => snapshot_native v r t
  | BpSnapshotDerived v t => snapshot_derived v t
  | BpDeltaNative v r t => delta_native v r t
  | BpDeltaNativeV2 v r t => delta_native_v2 v r t
  | BpDeltaDerived v t => delta_derived v t
  | BpInvalidate => emod bp_invalidate
  | BpPermitResnapshot => emod permit_resnapshot
  end.

Definition bp_run (ops : list bp_op) (p : BookProjection) : BookProjection :=
  foldl (fun p op => snd (bp_call op p)) p ops.

(** ** Invariant *)

(** The configuration never changes. *)
Definition bp_config (ps qs : Z) (d : option Z) (p : BookProjection) : Prop :=
  bp_price_scale p = ps /\ bp_quantity_scale p = qs /\ price_scale (bp_book p) = ps /\ qty_scale (bp_book p) = qs /\
  depth (bp_book p) = d.

(** A projection either has an empty, suspended book and no sequence, or a
    valid book with a sequence mode and a time. *)
Definition bp_synced (p : BookProjection) : Prop :=
  if bp_resyncing p then
    bp_sequence_mode p = None /\ bp_available_at_ns p = None /\ bids (bp_book p) = [] /\ asks (bp_book p) = [] /\
    validity (bp_book p) <> Valid
  else validity (bp_book p) = Valid /\ is_Some (bp_sequence_mode p) /\ is_Some (bp_available_at_ns p).

Definition bp_inv (ps qs : Z) (d : option Z) (p : BookProjection) : Prop :=
  bp_config ps qs d p /\ book_ok (bp_book p) /\ bp_synced p.

Definition snapshot_ok (v : BookSnapshot) : Prop :=
  Forall level_input_ok (level_pair <$> snapshot_bids v) /\ Forall level_input_ok (level_pair <$> snapshot_asks v).

Definition bp_op_ok (op : bp_op) : Prop :=
  match op with
  | BpSnapshotNative v _ _ | BpSnapshotDerived v _ => snapshot_ok v
  | BpDeltaNative v _ _ | BpDeltaNativeV2 v _ _ | BpDeltaDerived v _ => Forall change_ok (delta_changes v)
  | BpInvalidate | BpPermitResnapshot => True
  end.

(** What an operation may do to the mode: a snapshot starts from scratch, a
    delta continues from the mode before it. *)
Definition bp_base (op : bp_op) : option BookSequenceMode :=
  match op with
  | BpSnapshotNative _ r _ => Some (NativeSnapshot (seq_last r))
  | BpSnapshotDerived _ _ => Some DerivedMode
  | _ => None
  end.

Definition bp_next (mode : BookSequenceMode) (op : bp_op) : option BookSequenceMode :=
  match op, mode with
  | BpDeltaNative _ r _, NativeSnapshot l | BpDeltaNative _ r _, NativeDelta l =>
      if (seq_first r =? l + 1) && (seq_first r <=? seq_last r) then Some (NativeDelta (seq_last r)) else None
  | BpDeltaNativeV2 _ r _, NativeSnapshot l =>
      if (seq_first r <=? l) && (l <=? seq_last r) then Some (NativeDelta (seq_last r)) else None
  | BpDeltaNativeV2 _ r _, NativeDelta l => if l <? seq_last r then Some (NativeDelta (seq_last r)) else None
  | BpDeltaDerived _ _, DerivedMode => Some DerivedMode
  | _, _ => None
  end.

Fixpoint bp_chain (mode : BookSequenceMode) (ops : list bp_op) : option BookSequenceMode :=
  match ops with
  | [] => Some mode
  | op :: ops => m ← bp_next mode op; bp_chain m ops
  end.

(** Every call of a history succeeds. *)
Fixpoint bp_accepts (ops : list bp_op) (p : BookProjection) : Prop :=
  match ops with
  | [] => True
  | op :: ops => fst (bp_call op p) = Ok tt /\ bp_accepts ops (snd (bp_call op p))
  end.

Section Projection.
Context (ps qs : Z) (d : option Z).
Context (Hps : fits U8 ps) (Hqs : fits U8 qs) (Hd : forall d', d = Some d' -> 0 <= d').

Lemma bp_new_inv : bp_inv ps qs d (bp_new ps qs d).
Proof. split_and! ; [done|split; [by apply book_wf_new|done]|by split_and!]. Qed.

Lemma bp_dropped_inv v p : v <> Valid -> bp_config ps qs d p -> book_wf (bp_book p) -> bp_inv ps qs d (bp_dropped v p).
Proof.
  intros Hv Hc [H1 H2 H3 H4 H5 H6 H7]. split; [exact Hc|]. split; [|by split_and!].
  split; [|done]. split; cbn; first [done|constructor].
Qed.

(** The outcome of a call: the book is dropped, or the call succeeded and the
    projection is in sync. *)
Definition bp_outcome (p : BookProjection) (r : result unit ProjectionError * BookProjection) (ok : BookProjection -> Prop) : Prop :=
  bp_inv ps qs d (snd r) /\ (bp_resyncing (snd r) = true \/ fst r = Ok tt /\ bp_resyncing (snd r) = false /\ ok (snd r)).

Lemma refuse_outcome e p ok : bp_config ps qs d p -> book_wf (bp_book p) -> bp_outcome p (refuse e p) ok.
Proof. intros Hc Hb. split; [by apply bp_dropped_inv|]. by left. Qed.

Lemma apply_snapshot_frame sb sa n b b' :
  apply_snapshot sb sa n b = (Ok tt, b') ->
  validity b' = Valid /\ price_scale b' = price_scale b /\ qty_scale b' = qty_scale b /\ depth b' = depth b.
Proof.
  intros E. apply apply_snapshot_Ok in E as (b1 & b2 & E1 & E2 & _ & ->). cbn.
  apply upsert_all_fields in E1 as (_ & _ & D1 & P1 & Q1). apply upsert_all_fields in E2 as (_ & _ & D2 & P2 & Q2).
  destruct (trim_depth_fields b2) as (_ & _ & D3 & P3 & Q3). cbn in *. split_and! ; congruence.
Qed.

Lemma apply_changes_cases cs b : book_ok b ->
  (exists e, apply_changes_atomic cs b = (Err e, b)) \/
  exists b', apply_changes_atomic cs b = (Ok tt, b') /\ validity b' = Valid /\ price_scale b' = price_scale b /\
    qty_scale b' = qty_scale b /\ depth b' = depth b.
Proof.
  intros [Hb _]. destruct (decide (validity b = Valid)) as [HV|HV].
  - rewrite apply_changes_atomic_eq by (done || by apply book_wf_sorted).
    destruct (prepare b cs) as [ms|e]; [|eauto]. destruct (check_not_crossed _) as [[]|e]; [|eauto]. right. eexists.
    split; [done|]. destruct (trim_depth_fields (write_all b ms)) as (-> & _ & -> & -> & ->).
    destruct (write_all_fields b ms) as (-> & _ & -> & -> & ->). done.
  - left. unfold apply_changes_atomic. eff_unfold. rewrite bool_decide_eq_true_2 by done. eauto.
Qed.

Definition snapshot_call (v : BookSnapshot) (seq : option Z) (at_ns : Z) (m : BookSequenceMode) : Bp unit :=
  bp_apply_snapshot v seq at_ns !; set_mode m.

Lemma snapshot_call_eq v seq at_ns m p :
  snapshot_call v seq at_ns m p =
  if strictly_sorted v (bp_price_scale p) (bp_quantity_scale p) then
    match apply_snapshot (level_pair <$> snapshot_bids v) (level_pair <$> snapshot_asks v) seq (bp_book p) with
    | (Ok _, b) => (Ok tt, p ⟪ bp_book := b ⟫ ⟪ bp_available_at_ns := Some at_ns ⟫ ⟪ bp_resyncing := false ⟫
                             ⟪ bp_sequence_mode := Some m ⟫)
    | (Err e, b) => refuse (ProjectionBook e) (p ⟪ bp_book := b ⟫)
    end
  else refuse Unsorted p.
Proof.
  unfold snapshot_call, bp_apply_snapshot, set_mode, on_book. eff_unfold. destruct (strictly_sorted _ _ _); cbn [negb]; [|done].
  by destruct (apply_snapshot _ _ seq (bp_book p)) as [[[]|e] b].
Qed.

Lemma snapshot_outcome v seq at_ns m p : bp_inv ps qs d p -> snapshot_ok v ->
  bp_outcome p (snapshot_call v seq at_ns m p)
    (fun p' => bp_sequence_mode p' = Some m /\ snapshot_call v seq at_ns m (bp_new ps qs d) = (Ok tt, p')).
Proof.
  intros (Hc & Hb & _) [Hv1 Hv2]. pose proof Hc as (C1 & C2 & C3 & C4 & C5). rewrite !snapshot_call_eq, C1, C2.
  cbn [bp_new bp_price_scale bp_quantity_scale bp_book]. destruct (strictly_sorted v ps qs);
    [|by apply refuse_outcome; [|apply Hb]].
  pose proof (apply_snapshot_ok _ _ seq _ Hb Hv1 Hv2) as Hok.
  destruct (apply_snapshot _ _ seq (bp_book p)) as [[[]|e] b] eqn:E; cbn [snd] in Hok.
  - destruct (apply_snapshot_frame _ _ _ _ _ E) as (F1 & F2 & F3 & F4).
    assert (apply_snapshot (level_pair <$> snapshot_bids v) (level_pair <$> snapshot_asks v) seq (OrderBook.new ps qs d) = (Ok tt, b)) as ->.
    { apply apply_snapshot_Ok. apply apply_snapshot_Ok in E. by rewrite C3, C4, C5 in E. }
    split; [|right; split; [done|]; split; [done|]; split; [done|]].
    + split; [unfold bp_config; cbn; split_and! ; congruence|]. split; [exact Hok|]. cbn. split_and! ; eauto.
    + destruct p. cbn in *. by subst.
  - apply apply_snapshot_Err in E as ->. by apply refuse_outcome; [|apply Hb].
Qed.

(** A delta, and what it does to the fields besides the book. *)
Lemma delta_outcome cs (k : Bp unit) p (ok : BookProjection -> Prop) : bp_inv ps qs d p -> Forall change_ok cs ->
  (forall b, book_ok b -> validity b = Valid -> price_scale b = ps -> qty_scale b = qs -> depth b = d ->
    bp_outcome p (k (p ⟪ bp_book := b ⟫)) ok) ->
  bp_outcome p ((on_book (apply_changes_atomic cs) !; k) p) ok.
Proof.
  intros (Hc & Hb & _) Hcs Hk. pose proof Hc as (_ & _ & C3 & C4 & C5). unfold on_book, ebind.
  pose proof (apply_changes_atomic_ok _ _ Hb Hcs) as Hb'.
  destruct (apply_changes_cases cs (bp_book p) Hb) as [[e E]|(b & E & F1 & F2 & F3 & F4)]; rewrite E in *.
  - by apply refuse_outcome; [|apply Hb].
  - apply Hk; congruence || done.
Qed.

Lemma native_outcome v r at_ns p (ok : BookProjection -> Prop) : bp_inv ps qs d p -> Forall change_ok (delta_changes v) ->
  bp_resyncing p = false -> (forall p', bp_sequence_mode p' = Some (NativeDelta (seq_last r)) -> ok p') ->
  bp_outcome p (bp_apply_native v r at_ns p) ok.
Proof.
  intros Hi Hv Hr Hok. apply delta_outcome; [done|done|]. intros b Hb F1 F2 F3 F4. destruct Hi as ((C1 & C2 & _) & _).
  split; [|right; split; [done|]; split; [done|]; by apply Hok].
  split; [by unfold bp_config; cbn; split_and!|]. split; [destruct Hb; by split; [apply book_wf_sequence|]|].
  unfold bp_synced. cbn. rewrite Hr. split_and! ; eauto.
Qed.

(** One call: the book is dropped, rebuilt from a snapshot, or advanced. *)
Lemma bp_call_outcome op p : bp_inv ps qs d p -> bp_op_ok op ->
  bp_outcome p (bp_call op p) (fun p' =>
    (exists m, bp_base op = Some m /\ bp_sequence_mode p' = Some m /\ bp_call op (bp_new ps qs d) = (Ok tt, p')) \/
    (bp_resyncing p = false /\ (m ← bp_sequence_mode p; bp_next m op) = bp_sequence_mode p')).
Proof.
  intros Hi Ho. pose proof Hi as (Hc & Hb & Hs).
  assert (forall e ok, bp_outcome p (refuse e p) ok) as Href by (intros; by apply refuse_outcome; [|apply Hb]).
  assert (forall m, bp_sequence_mode p = Some m -> bp_resyncing p = false) as Hlive.
  { intros m Hm. unfold bp_synced in Hs. destruct (bp_resyncing p); [|done]. destruct Hs as (Hn & _). congruence. }
  assert (forall r, bad_range r = false -> (seq_first r <=? seq_last r) = true) as Hrange
    by (intros r; unfold bad_range; lia).
  destruct op as [v r t|v t|v r t|v r t|v t| |]; cbn [bp_call bp_op_ok bp_base bp_next] in *.
  - unfold snapshot_native. destruct (bad_range r); [done|]. destruct (snapshot_outcome v (Some (seq_last r)) t
      (NativeSnapshot (seq_last r)) p Hi Ho) as [H1 H2]. split; [done|]. destruct H2 as [|(? & ? & ? & ?)]; [by left|].
    right. split_and! ; eauto.
  - destruct (snapshot_outcome v None t DerivedMode p Hi Ho) as [H1 H2]. split; [done|].
    destruct H2 as [|(? & ? & ? & ?)]; [by left|]. right. split_and! ; eauto.
  - unfold delta_native. eff_unfold. destruct (bp_sequence_mode p) as [[l|l|]|] eqn:Hm; try done.
    all: destruct (bad_range r) eqn:Hr; cbn [orb]; [done|]; case_bool_decide as Hn; [done|];
      (apply native_outcome; [done|done|by eapply Hlive|]); intros p' ->; right; split; [by eapply Hlive|]; cbn;
      apply to_ty_Some in Hn as [Hn _]; by rewrite (proj2 (Z.eqb_eq _ _) Hn), Hrange.
  - unfold delta_native_v2. eff_unfold. destruct (bp_sequence_mode p) as [[l|l|]|] eqn:Hm; cbn [negb];
      rewrite ?orb_true_r; try done.
    + destruct ((seq_first r <=? l) && (l <=? seq_last r)) eqn:Hcov; cbn [negb]; [|by rewrite orb_true_r].
      destruct (bad_range r); cbn [orb]; [done|]. apply native_outcome; [done|done|by eapply Hlive|]. intros p' ->. right.
      split; [by eapply Hlive|]. cbn. by rewrite Hcov.
    + destruct (l <? seq_last r) eqn:Hcov; cbn [negb]; [|by rewrite orb_true_r].
      destruct (bad_range r); cbn [orb]; [done|]. apply native_outcome; [done|done|by eapply Hlive|]. intros p' ->. right.
      split; [by eapply Hlive|]. cbn. by rewrite Hcov.
  - unfold delta_derived. unfold ebind at 1, eget at 1. case_bool_decide as Hm; [done|].
    apply delta_outcome; [done|done|]. intros b Hb' F1 F2 F3 F4. pose proof (Hlive _ Hm) as Hr. destruct Hc as (C1 & C2 & _).
    split; [|right; split; [done|]; split; [done|]; right; split; [done|]; by rewrite Hm].
    split; [by unfold bp_config; cbn; split_and!|]. split; [done|]. unfold bp_synced. cbn. rewrite Hr. split_and! ; eauto.
  - split; [apply bp_dropped_inv; [done|done|apply Hb]|by left].
  - split; [apply bp_dropped_inv; [done|done|apply Hb]|by left].
Qed.
End Projection.

Lemma bp_run_snoc ops op p : bp_run (ops ++ [op]) p = snd (bp_call op (bp_run ops p)).
Proof. unfold bp_run. by rewrite foldl_app. Qed.

Lemma bp_accepts_snoc ops op p :
  bp_accepts ops p -> fst (bp_call op (bp_run ops p)) = Ok tt -> bp_accepts (ops ++ [op]) p.
Proof. revert p. induction ops as [|o ops IH]; intros p; cbn; [done|]. intros [H1 H2] H3. split; [done|]. by apply IH. Qed.

Lemma bp_chain_snoc m ops op : bp_chain m (ops ++ [op]) = (m' ← bp_chain m ops; bp_next m' op).
Proof.
  revert m. induction ops as [|o ops IH]; intros m; cbn; [by destruct (bp_next m op)|]. destruct (bp_next m o); cbn; [apply IH|done].
Qed.

Lemma bp_run_inv ps qs d ops p : fits U8 ps -> fits U8 qs -> (forall d', d = Some d' -> 0 <= d') -> Forall bp_op_ok ops ->
  bp_inv ps qs d p -> bp_inv ps qs d (bp_run ops p).
Proof.
  intros Hps Hqs Hd Ho. revert p. induction Ho as [|op ops Hop _ IH]; intros p Hi; [done|].
  apply IH, (bp_call_outcome ps qs d Hps Hqs Hd op p Hi Hop).
Qed.

(** A projection that is not resynchronising serves exactly the last snapshot
    and the deltas after it.  It is the projection that these operations alone
    build, all of them were accepted, and their sequences chain without a gap
    from the snapshot's to the one the projection holds; its book is valid and
    legal.  While it resynchronises it holds no levels at all. *)
Theorem projection_gapless ps qs d ops :
  fits U8 ps -> fits U8 qs -> (forall d', d = Some d' -> 0 <= d') -> Forall bp_op_ok ops ->
  let p := bp_run ops (bp_new ps qs d) in
  bp_inv ps qs d p /\
  (bp_resyncing p = false ->
   exists pre base rest m, ops = pre ++ base :: rest /\ bp_base base = Some m /\ bp_chain m rest = bp_sequence_mode p /\
     bp_accepts (base :: rest) (bp_new ps qs d) /\ p = bp_run (base :: rest) (bp_new ps qs d)).
Proof.
  intros Hps Hqs Hd Ho. induction ops as [|op ops IH] using rev_ind; [split; [by apply bp_new_inv|done]|].
  apply Forall_app in Ho as [Ho Ho']. apply Forall_cons in Ho' as [Ho' _]. destruct (IH Ho) as [Hi Hx].
  cbv zeta. rewrite bp_run_snoc. destruct (bp_call_outcome ps qs d Hps Hqs Hd op _ Hi Ho') as [Hi' Hout]. split; [exact Hi'|].
  intros Hr. destruct Hout as [|(Hok & _ & [(m & Hb & Hm & Hf)|[Hl Hn]])]; [congruence| |].
  - exists ops, op, [], m. cbn [bp_chain bp_accepts bp_run foldl]. rewrite Hf. split_and! ; done || congruence.
  - destruct (Hx Hl) as (pre & base & rest & m & -> & Hb & Hc & Ha & E). exists pre, base, (rest ++ [op]), m.
    rewrite bp_chain_snoc, Hc, app_comm_cons, bp_run_snoc, <- E. split_and! ; [by rewrite <- app_assoc|done|done| |done].
    apply bp_accepts_snoc; [done|]. by rewrite <- E.
Qed.

Definition sample_snapshot : BookSnapshot :=
  mkBookSnapshot [mkBookLevel (px 10000) (qt 1000); mkBookLevel (px 9900) (qt 2000)] [mkBookLevel (px 10001) (qt 1500)] None None.
Definition sample_delta : BookDelta := mkBookDelta [mkBookChange Bid Upsert (px 9995) (Some (qt 500))] None.
Definition sample_history : list bp_op :=
  [BpSnapshotNative sample_snapshot (mkSequenceRange 1 5) 10; BpDeltaNative sample_delta (mkSequenceRange 7 7) 20;
   BpSnapshotNative sample_snapshot (mkSequenceRange 8 9) 30; BpDeltaNative sample_delta (mkSequenceRange 10 12) 40].

Lemma sample_history_ok : Forall bp_op_ok sample_history.
Proof.
  repeat first [apply Forall_nil_2 | apply Forall_cons_2 | split];
    try match goal with H : _ = Some _ |- _ => injection H as <- end; vm_compute; discriminate.
Qed.

Lemma projection_gapless_witness :
  let p := bp_run sample_history (bp_new 2 3 None) in
  bp_resyncing p = false /\ exists pre base rest m, sample_history = pre ++ base :: rest /\ bp_base base = Some m /\
    bp_chain m rest = bp_sequence_mode p /\ bp_accepts (base :: rest) (bp_new 2 3 None) /\
    p = bp_run (base :: rest) (bp_new 2 3 None).
Proof.
  split; [reflexivity|]. apply (projection_gapless 2 3 None sample_history); [solve_fits|solve_fits|done| |reflexivity].
  apply sample_history_ok.
Defined.

(** ** What the depth measures *)

Lemma rescale8_mono a b s x y : fits I128 a -> fits I128 b -> 0 <= s ->
  rescale8 (mkFixed a s) = Ok x -> rescale8 (mkFixed b s) = Ok y -> a <= b -> x <= y.
Proof.
  intros Ha Hb Hs. unfold rescale8. intros Hx Hy Hab. res. destruct (Z.lt_total s 8) as [Hlt|[->|Hgt]].
  - rewrite rescale_up in Hv0, Hv by done. cbn [scale coefficient] in *.
    destruct (8 - s <=? 38); [|done]. cbv zeta in *. do 2 (destruct (in_ty I128 _); [|done]). res. cbn.
    assert (0 < 10 ^ (8 - s)) by (apply Z.pow_pos_nonneg; lia). nia.
  - cbn in Hv, Hv0. by res.
  - destruct (Z.le_gt_cases s 46).
    + rewrite rescale_down in Hv, Hv0 by (done || cbn; lia). cbn [scale coefficient] in *.
      rewrite bool_decide_eq_false_2 in Hv, Hv0 by (intros [? _]; done). res. cbn.
      apply rnd_mono; [apply Z.pow_pos_nonneg; lia|done].
    + unfold rescale in Hv. rewrite (proj2 (Z.eqb_neq 8 _)), (proj2 (Z.ltb_ge _ 8)) in Hv by (cbn; lia).
      by rewrite pow10_i128_large in Hv by (cbn; lia).
Qed.

(** A value at the canonical scale. *)
Definition canonical (f : Fixed) : Z := default 0 (ok (rescale8 f)).

Lemma canonical_Ok f x : rescale8 f = Ok x -> canonical f = x.
Proof. unfold canonical. by intros ->. Qed.

(** Notional of a level if [admitted] holds of its price. *)
Definition level_notional (admitted : Z -> bool) (l : BookLevel) : Z :=
  let price := canonical (price0 (level_price l)) in
  if admitted price then rnd (price * canonical (qty0 (level_quantity l))) SCALE else 0.

Definition sum_notional (admitted : Z -> bool) (ls : list BookLevel) : Z :=
  foldr (fun l acc => level_notional admitted l + acc) 0 ls.

Lemma depth_fold_Ok bid mid ls acc v : try_fold (depth_step bid mid) acc ls = Ok v ->
  Forall (fun l => exists x, rescale8 (price0 (level_price l)) = Ok x) ls /\
  v = acc + sum_notional (fun price => if price <=? bid then mid * 4995 <=? price * 10000 else price * 10000 <=? mid * 5005) ls.
Proof.
  revert acc. induction ls as [|l ls IH]; intros acc H; cbn [try_fold sum_notional foldr] in *.
  - injection H as <-. split; [constructor|lia].
  - apply rbind_Ok in H as (acc' & Hs & H). apply IH in H as [Hf ->]. unfold depth_step, checked in Hs.
    apply rbind_Ok in Hs as (price & Hp & Hs). apply rbind_Ok in Hs as (quantity & Hq & Hs).
    apply rbind_Ok in Hs as (scaled & Hsc & Hs). apply rbind_Ok in Hs as (admitted & Ha & Hs).
    split; [constructor; eauto|]. rewrite Z.add_assoc. f_equal. unfold level_notional.
    rewrite (canonical_Ok _ _ Hp), (canonical_Ok _ _ Hq).
    assert (admitted = if price <=? bid then mid * 4995 <=? price * 10000 else price * 10000 <=? mid * 5005) as <-.
    { destruct (price <=? bid); res; done. }
    destruct admitted; [|res; lia]. res. apply mul_scaled_Ok in Hv. by subst.
Qed.

Lemma sum_notional_ext f g ls : Forall (fun l => f (canonical (price0 (level_price l))) = g (canonical (price0 (level_price l)))) ls ->
  sum_notional f ls = sum_notional g ls.
Proof. induction 1 as [|l ls Hl _ IH]; [done|]. unfold sum_notional in *. cbn [foldr]. rewrite IH. unfold level_notional. by rewrite Hl. Qed.

Lemma sum_notional_app f l1 l2 : sum_notional f (l1 ++ l2) = sum_notional f l1 + sum_notional f l2.
Proof. induction l1 as [|l l1 IH]; cbn [app sum_notional foldr]; [done|]. unfold sum_notional in *. lia. Qed.

(** Rescaled bids stay at or below the best bid, rescaled asks at or above
    the best ask. *)
Lemma side_levels_bounded b s (m : BTreeMap Z Z) best (R : Z -> Z -> Prop) x :
  fits U8 (price_scale b) -> Forall level_ok m -> fits I128 best -> rescale8 (mkFixed best (price_scale b)) = Ok x ->
  (forall k q, (k, q) ∈ m -> R k best) -> (forall a c u v, fits I128 a -> fits I128 c -> R a c ->
    rescale8 (mkFixed a (price_scale b)) = Ok u -> rescale8 (mkFixed c (price_scale b)) = Ok v -> R u v) ->
  (forall l, l ∈ s -> exists kq, kq ∈ m /\ l = book_level b kq) ->
  Forall (fun l => exists y, rescale8 (price0 (level_price l)) = Ok y) s ->
  Forall (fun l => R (canonical (price0 (level_price l))) x) s.
Proof.
  intros Hs Hm Hbest Hx HR Hmono Hin Hf. apply Forall_forall. intros l Hl.
  pose proof (proj1 (Forall_forall _ m) Hm) as Hm'. pose proof (proj1 (Forall_forall _ s) Hf) as Hf'.
  destruct (Hin l Hl) as ([k q] & Hk & ->). destruct (Hf' _ Hl) as [y Hy]. rewrite (canonical_Ok _ _ Hy).
  eapply Hmono; [apply (Hm' _ Hk)|exact Hbest|by eapply HR|exact Hy|exact Hx].
Qed.

Lemma sides_of_best b bp bq ap aq bid ask bl al : book_ok b ->
  best_bid b = Some (bp, bq) -> best_ask b = Some (ap, aq) -> rescale8 (price0 bp) = Ok bid -> rescale8 (price0 ap) = Ok ask ->
  snapshot_levels b = Some (bl, al) ->
  Forall (fun l => exists x, rescale8 (price0 (level_price l)) = Ok x) bl ->
  Forall (fun l => exists x, rescale8 (price0 (level_price l)) = Ok x) al ->
  Forall (fun l => canonical (price0 (level_price l)) <= bid) bl /\
  Forall (fun l => ask <= canonical (price0 (level_price l))) al.
Proof.
  intros [[W1 W2 W3 W4 W5 W6 W7] _] Eb Ea Hb Ha Es Hfb Hfa.
  unfold snapshot_levels, snapshot_levels_bounded, best_bid, best_ask in *.
  destruct (bool_decide (validity b <> Valid)); [done|]. injection Es as <- <-.
  destruct (BTreeMap.last (bids b)) as [[kb qb]|] eqn:Elast; [|done]. injection Eb as <- <-.
  destruct (BTreeMap.first (asks b)) as [[ka qa]|] eqn:Efirst; [|done]. injection Ea as <- <-.
  pose proof (BTreeMap.last_elem _ _ Elast) as Hbin. pose proof (BTreeMap.first_elem _ _ Efirst) as Hain.
  pose proof (proj1 (Forall_forall _ (bids b)) W6 _ Hbin) as [Hbf _].
  pose proof (proj1 (Forall_forall _ (asks b)) W7 _ Hain) as [Haf _].
  assert (forall (ls : list (Z * Z)) n l, l ∈ book_level b <$> take n ls -> exists kq, kq ∈ ls /\ l = book_level b kq) as Hin.
  { intros ls n l Hl. apply list_elem_of_fmap in Hl as (kq & -> & Hk). exists kq. split; [|done].
    eapply elem_of_submseteq; [exact Hk|]. apply sublist_submseteq, sublist_take. }
  pose proof W1 as [W1' _]. cbn in W1'. split.
  - eapply (side_levels_bounded b _ (bids b) kb Z.le); [done|done|exact Hbf|exact Hb| | | |exact Hfb].
    + intros k q Hk. pose proof (BTreeMap.last_max _ _ _ _ _ W4 Elast Hk) as H. by apply Z_cmp_not_gt in H.
    + intros a c u v Hfa' Hfc Hac Hu Hv. eapply rescale8_mono; [exact Hfa'|exact Hfc|done|exact Hu|exact Hv|done].
    + intros l Hl. apply Hin in Hl as (kq & Hk & ->). exists kq. split; [by apply elem_of_reverse|done].
  - eapply (side_levels_bounded b _ (asks b) ka Z.ge) in Hfa; [|done|done|exact Haf|exact Ha| | |apply Hin].
    + eapply Forall_impl; [exact Hfa|]. cbn. intros l. lia.
    + intros k q Hk. pose proof (BTreeMap.first_min _ _ _ _ _ W5 Efirst Hk) as H. rewrite Z_cmp_not_gt in H. lia.
    + intros a c u v Hfa' Hfc Hac Hu Hv. apply Z.le_ge. eapply rescale8_mono; [exact Hfc|exact Hfa'|done|exact Hv|exact Hu|lia].
Qed.

(** C37. The depth of a legal book is the notional of the levels within ten basis
    points of the middle: of the bids from [0.999] and of the asks up to
    [1.001] times the middle price, which is half of [bid + ask].  It is only
    computed from a projection in sync and at most a quarter of a second old. *)
Theorem depth_exact p t v : book_ok (bp_book p) -> depth_10bps p t = Ok v ->
  bp_resyncing p = false /\ (exists at_ns, bp_available_at_ns p = Some at_ns /\ 0 <= t - at_ns <= 250000000) /\
  exists bid ask bl al, (exists q, best_bid (bp_book p) = Some q /\ canonical (price0 q.1) = bid) /\
    (exists q, best_ask (bp_book p) = Some q /\ canonical (price0 q.1) = ask) /\ 0 < bid < ask /\
    snapshot_levels (bp_book p) = Some (bl, al) /\
    v = sum_notional (fun price => (bid + ask) * 999 <=? 2 * price * 1000) bl +
        sum_notional (fun price => 2 * price * 1000 <=? (bid + ask) * 1001) al.
Proof.
  intros Hb. unfold depth_10bps. destruct (stale p t) eqn:Hst; [done|]. intros H.
  unfold stale in Hst. apply orb_false_iff in Hst as [Hr Hst]. split; [done|]. split.
  { destruct (bp_available_at_ns p) as [at_ns|]; [|done]. exists at_ns. split; [done|].
    destruct (checked_sub I64 t at_ns) eqn:E; [|done]. apply to_ty_Some in E as [-> _]. lia. }
  apply rbind_Ok in H as ([bp bq] & Ebid & H). apply ok_or_Ok in Ebid.
  apply rbind_Ok in H as ([ap aq] & Eask & H). apply ok_or_Ok in Eask.
  apply rbind_Ok in H as (bid & Hbid & H). apply rbind_Ok in H as (ask & Hask & H).
  destruct (Z.leb_spec bid 0); [done|]. destruct (Z.leb_spec ask bid); [done|]. cbn [orb] in H.
  apply rbind_Ok in H as (mid & Hmid & H). apply checked_Ok, to_ty_Some in Hmid as [-> _].
  apply rbind_Ok in H as ([bl al] & Esnap & H). apply ok_or_Ok in Esnap.
  apply depth_fold_Ok in H as [Hf ->]. rewrite sum_notional_app, Z.add_0_l.
  exists bid, ask, bl, al. split; [eexists; split; [exact Ebid|by apply canonical_Ok]|].
  split; [eexists; split; [exact Eask|by apply canonical_Ok]|]. split; [done|]. split; [done|].
  apply Forall_app in Hf as [Hfb Hfa].
  pose proof (sides_of_best _ _ _ _ _ _ _ _ _ Hb Ebid Eask Hbid Hask Esnap Hfb Hfa) as [Hlb Hla].
  f_equal; apply sum_notional_ext; eapply Forall_impl; [exact Hlb| |exact Hla|]; intros l Hl; cbn beta in Hl |- *.
  - set (price := canonical (price0 (level_price l))) in *. rewrite (proj2 (Z.leb_le price bid)) by done. lia.
  - set (price := canonical (price0 (level_price l))) in *. rewrite (proj2 (Z.leb_gt price bid)) by lia. lia.
Qed.

Lemma depth_exact_witness :
  let p := bp_run sample_history (bp_new 2 3 None) in
  exists v, depth_10bps p 50 = Ok v /\ v = 29999000000 /\ bp_resyncing p = false.
Proof.
  cbv zeta. eexists. split; [computed|]. split; [reflexivity|].
  eapply (depth_exact (bp_run sample_history (bp_new 2 3 None)) 50 29999000000); [|computed].
  apply (bp_run_inv 2 3 None); [solve_fits|solve_fits|done|apply sample_history_ok|apply bp_new_inv; [solve_fits|solve_fits|done]].
Defined.
