(* ===== verification/PulseFeatures.v ===== *)
(** * Event pulse: feature rows ([crates/event-pulse/src/features.rs])

    The nine canonical features, how a value and its conditions become an
    observation with a quality and a reason, the set of rows, and the flags
    and the overall quality derived from them. *)

From stdpp Require Import base tactics numbers strings option list.
From Stdlib Require Import ZArith Lia.
From S2P Require Import Prelude Collections Fixed PulseMath.

Local Open Scope Z_scope.

Inductive KnownDirection := KnownUp | KnownDown.

Inductive ReversalPolicy := PreEventZero | UnknownNormalZero | ReversalRequired (direction : KnownDirection).

#[export] Instance KnownDirection_eq_dec : EqDecision KnownDirection.
Proof. solve_decision. Defined.
#[export] Instance ReversalPolicy_eq_dec : EqDecision ReversalPolicy.
Proof. solve_decision. Defined.

Definition reversal_is_critical (p : ReversalPolicy) : bool :=
  match p with ReversalRequired _ => true | _ => false end.

Inductive FeatureName :=
  | BookDepth10bps | CrossVenueBreadth | CvdSlope | LiquidationNotional | LogReturn | OpenInterestChange
  | ReversalFromExtreme | SpreadBps | TakerImbalance.

#[export] Instance FeatureName_eq_dec : EqDecision FeatureName.
Proof. solve_decision. Defined.

Definition CANONICAL : list (FeatureName * Z) :=
  [(BookDepth10bps, 250); (CrossVenueBreadth, 1000); (CvdSlope, 1000); (LiquidationNotional, 5000); (LogReturn, 1000);
   (OpenInterestChange, 5000); (ReversalFromExtreme, 5000); (SpreadBps, 250); (TakerImbalance, 1000)].

(** Position in the declaration, which [derive(Ord)] compares. *)
Definition feature_index (n : FeatureName) : Z :=
  match n with
  | BookDepth10bps => 0 | CrossVenueBreadth => 1 | CvdSlope => 2 | LiquidationNotional => 3 | LogReturn => 4
  | OpenInterestChange => 5 | ReversalFromExtreme => 6 | SpreadBps => 7 | TakerImbalance => 8
  end.

(** [find_map] with [expect]; [None] would be the panic. *)
Definition horizon_ms (n : FeatureName) : option Z := snd <$> find (fun p => bool_decide (p.1 = n)) CANONICAL.

Definition is_critical (n : FeatureName) (policy : ReversalPolicy) : bool :=
  match n with LogReturn | TakerImbalance | CvdSlope | SpreadBps | BookDepth10bps => true | _ => false end
  || reversal_is_critical policy && bool_decide (n = ReversalFromExtreme).

Definition is_optional (n : FeatureName) : bool :=
  match n with OpenInterestChange | LiquidationNotional | CrossVenueBreadth => true | _ => false end.

Inductive FeatureReason :=
  | RArithmeticInvalid | RSourceInvalidated | RBookResyncing | RClockDegraded | RReconnectWarmup | RSourceStale
  | RInsufficientCoverage | RInsufficientSamples | RDirectionUnknown | ROutOfDomain | ROptionalSourceUnavailable
  | RObservationValid.

Inductive FeatureQuality := QInvalid | QDegraded | QUnavailable | QValidated.

#[export] Instance FeatureReason_eq_dec : EqDecision FeatureReason.
Proof. solve_decision. Defined.
#[export] Instance FeatureQuality_eq_dec : EqDecision FeatureQuality.
Proof. solve_decision. Defined.

(** [FeatureName::as_str] and [FeatureReason::as_str]. *)
Definition feature_str (n : FeatureName) : string :=
  match n with
  | BookDepth10bps => "book_depth_10bps" | CrossVenueBreadth => "cross_venue_breadth" | CvdSlope => "cvd_slope"
  | LiquidationNotional => "liquidation_notional" | LogReturn => "log_return"
  | OpenInterestChange => "open_interest_change" | ReversalFromExtreme => "reversal_from_extreme"
  | SpreadBps => "spread_bps" | TakerImbalance => "taker_imbalance"
  end.

Definition reason_str (r : FeatureReason) : string :=
  match r with
  | RArithmeticInvalid => "ARITHMETIC_INVALID" | RSourceInvalidated => "SOURCE_INVALIDATED"
  | RBookResyncing => "BOOK_RESYNCING" | RClockDegraded => "CLOCK_DEGRADED" | RReconnectWarmup => "RECONNECT_WARMUP"
  | RSourceStale => "SOURCE_STALE" | RInsufficientCoverage => "INSUFFICIENT_COVERAGE"
  | RInsufficientSamples => "INSUFFICIENT_SAMPLES" | RDirectionUnknown => "DIRECTION_UNKNOWN"
  | ROutOfDomain => "OUT_OF_DOMAIN" | ROptionalSourceUnavailable => "OPTIONAL_SOURCE_UNAVAILABLE"
  | RObservationValid => "OBSERVATION_VALID"
  end.

(** ** Flags *)

Inductive MechanicsFlag :=
  | FBookResyncing | FClockUncertain | FCrossVenueDivergence | FInsufficientCoverage | FOiStale | FQueueDrop
  | FReconnectWarmup | FSequenceGap | FSourceStale.

#[export] Instance MechanicsFlag_eq_dec : EqDecision MechanicsFlag.
Proof. solve_decision. Defined.

Definition flag_index (f : MechanicsFlag) : Z :=
  match f with
  | FBookResyncing => 0 | FClockUncertain => 1 | FCrossVenueDivergence => 2 | FInsufficientCoverage => 3 | FOiStale => 4
  | FQueueDrop => 5 | FReconnectWarmup => 6 | FSequenceGap => 7 | FSourceStale => 8
  end.

Record FlagConditions := mkFlagConditions {
  fc_sequence_failure : bool;
  fc_book_resyncing : bool;
  fc_clock_degraded : bool;
  fc_source_stale : bool;
  fc_oi_stale_or_unavailable : bool;
  fc_queue_drop : bool;
  fc_reconnect_warmup : bool;
  fc_incomplete_critical : bool;
  fc_breadth_unavailable_or_divergent : bool
}.

Definition mechanics_flags (c : FlagConditions) : list MechanicsFlag :=
  let push (b : bool) f flags := if b then flags ++ [f] else flags in
  let flags := [] in
  let flags := push (fc_book_resyncing c) FBookResyncing flags in
  let flags := push (fc_clock_degraded c) FClockUncertain flags in
  let flags := push (fc_breadth_unavailable_or_divergent c) FCrossVenueDivergence flags in
  let flags := push (fc_incomplete_critical c) FInsufficientCoverage flags in
  let flags := push (fc_oi_stale_or_unavailable c) FOiStale flags in
  let flags := push (fc_queue_drop c) FQueueDrop flags in
  let flags := push (fc_reconnect_warmup c) FReconnectWarmup flags in
  let flags := push (fc_sequence_failure c) FSequenceGap flags in
  let flags := push (fc_source_stale c) FSourceStale flags in
  sort_by (cmp_by flag_index) flags.

(** ** Observations *)

Record FeatureObservation := mkFeatureObservation {
  fo_name : FeatureName;
  fo_value : option Z;
  fo_quality : FeatureQuality;
  fo_reason : FeatureReason;
  fo_reversal_policy : option ReversalPolicy
}.

Inductive FeatureAuthoringError :=
  | ArithmeticAuthoringError | CriticalFeatureAuthoringError | InvalidFeatureObservation | InvalidFeatureSet
  | InvalidFeatureConditions.

Inductive FeatureCondition :=
  | CArithmeticInvalid | CSourceInvalidated | CBookResyncing | CClockDegraded | CReconnectWarmup | CSourceStale
  | CInsufficientCoverage | CInsufficientSamples | CDirectionUnknown | COutOfDomain | COptionalSourceUnavailable.

#[export] Instance FeatureCondition_eq_dec : EqDecision FeatureCondition.
Proof. solve_decision. Defined.

(** The set of conditions is a list used only by membership. *)
Record FeatureConditions := mkFeatureConditions { cs_name : FeatureName; cs_conditions : list FeatureCondition }.

Definition conditions_valid (n : FeatureName) : FeatureConditions := mkFeatureConditions n [].

Definition applicable (n : FeatureName) (c : FeatureCondition) : bool :=
  match c with
  | CBookResyncing => bool_decide (n = BookDepth10bps)
  | CDirectionUnknown => match n with CrossVenueBreadth | ReversalFromExtreme => true | _ => false end
  | COptionalSourceUnavailable => is_optional n
  | _ => true
  end.

Definition conditions_new (n : FeatureName) (cs : list FeatureCondition) : result FeatureConditions FeatureAuthoringError :=
  if forallb (applicable n) cs then Ok (mkFeatureConditions n cs) else Err InvalidFeatureConditions.

Definition cond_in (c : FeatureCondition) (cs : FeatureConditions) : bool := bool_decide (c ∈ cs_conditions cs).

Definition has_value (q : FeatureQuality) : bool :=
  match q with QValidated | QDegraded => true | _ => false end.

Definition evaluate_feature_inner (name : FeatureName) (value : option Z) (c : FeatureConditions) (policy : ReversalPolicy)
    : result FeatureObservation FeatureAuthoringError :=
  if negb (bool_decide (cs_name c = name)) then Err InvalidFeatureConditions else
  if cond_in CArithmeticInvalid c then Err ArithmeticAuthoringError else
  let? (reason, quality) :=
    if cond_in CSourceInvalidated c then Ok (RSourceInvalidated, QInvalid)
    else if cond_in CBookResyncing c then Ok (RBookResyncing, QInvalid)
    else if cond_in CReconnectWarmup c then Ok (RReconnectWarmup, QUnavailable)
    else if cond_in CSourceStale c then Ok (RSourceStale, QUnavailable)
    else if cond_in CInsufficientCoverage c then Ok (RInsufficientCoverage, QUnavailable)
    else if cond_in CInsufficientSamples c then Ok (RInsufficientSamples, QUnavailable)
    else if cond_in CDirectionUnknown c then Ok (RDirectionUnknown, QUnavailable)
    else if cond_in COutOfDomain c then
      if is_critical name policy then Err CriticalFeatureAuthoringError else Ok (ROutOfDomain, QUnavailable)
    else if cond_in COptionalSourceUnavailable c then Ok (ROptionalSourceUnavailable, QUnavailable)
    else if cond_in CClockDegraded c then Ok (RClockDegraded, QDegraded)
    else Ok (RObservationValid, QValidated) in
  if has_value quality && bool_decide (value = None) then Err InvalidFeatureObservation
  else Ok (mkFeatureObservation name (if has_value quality then value else None) quality reason
             (if bool_decide (name = ReversalFromExtreme) then Some policy else None)).

Definition evaluate_feature (name : FeatureName) (value : option Z) (c : FeatureConditions) (policy : ReversalPolicy)
    : result FeatureObservation FeatureAuthoringError :=
  if bool_decide (name = ReversalFromExtreme) then Err InvalidFeatureObservation
  else evaluate_feature_inner name value c policy.

Definition known_direction (d : KnownDirection) : Direction := match d with KnownUp => DirUp | KnownDown => DirDown end.

Definition evaluate_reversal (policy : ReversalPolicy) (anchor extreme current : Z) (c : FeatureConditions)
    : result FeatureObservation FeatureAuthoringError :=
  if negb (bool_decide (cs_name c = ReversalFromExtreme)) then Err InvalidFeatureConditions else
  if reversal_is_critical policy && cond_in CDirectionUnknown c then Err InvalidFeatureConditions else
  match policy with
  | PreEventZero | UnknownNormalZero =>
      Ok (mkFeatureObservation ReversalFromExtreme (Some 0) QValidated RObservationValid (Some policy))
  | ReversalRequired direction =>
      let add x := mkFeatureConditions (cs_name c) (x :: cs_conditions c) in
      let '(value, c) :=
        match reversal_from_extreme (known_direction direction) anchor extreme current with
        | Ok value => (Some value, c)
        | Err ArithDomain => (None, add COutOfDomain)
        | Err _ => (None, add CArithmeticInvalid)
        end in
      evaluate_feature_inner ReversalFromExtreme value c policy
  end.

(** ** Feature sets *)

Record FeatureSet := mkFeatureSet { fs_rows : list FeatureObservation; fs_reversal_policy : ReversalPolicy }.

Definition feature_set_new (rows : list FeatureObservation) (policy : ReversalPolicy)
    : result FeatureSet FeatureAuthoringError :=
  if negb (Z.of_nat (length rows) =? Z.of_nat (length CANONICAL)) then Err InvalidFeatureSet else
  let rows := sort_by (cmp_by (fun r => feature_index (fo_name r))) rows in
  if negb (bool_decide (fo_name <$> rows = CANONICAL.*1)) then Err InvalidFeatureSet else
  if existsb (fun row => if bool_decide (fo_name row = ReversalFromExtreme)
                         then negb (bool_decide (fo_reversal_policy row = Some policy))
                         else negb (bool_decide (fo_reversal_policy row = None))) rows then Err InvalidFeatureSet
  else Ok (mkFeatureSet rows policy).

Inductive EnvelopeQuality := EnvInvalid | EnvDegraded | EnvValidated.

Definition unusable (q : FeatureQuality) : bool := match q with QInvalid | QUnavailable => true | _ => false end.

Definition envelope_quality (set : FeatureSet) : EnvelopeQuality :=
  let policy := fs_reversal_policy set in
  if existsb (fun row => is_critical (fo_name row) policy && unusable (fo_quality row)) (fs_rows set) then EnvInvalid
  else if existsb (fun row => bool_decide (fo_quality row = QDegraded) ||
                              is_optional (fo_name row) && unusable (fo_quality row)) (fs_rows set) then EnvDegraded
  else EnvValidated.

(** ** Well-formed rows *)

(** An observation that the two evaluation functions can author under a
    policy, from conditions accepted for its feature. *)
Inductive authored (policy : ReversalPolicy) : FeatureObservation -> Prop :=
  | authored_feature name value cs c row :
      conditions_new name cs = Ok c -> evaluate_feature name value c policy = Ok row -> authored policy row
  | authored_reversal anchor extreme current cs c row :
      conditions_new ReversalFromExtreme cs = Ok c -> evaluate_reversal policy anchor extreme current c = Ok row ->
      authored policy row.

(** Quality, value, reason and policy of a row agree with each other. *)
Record row_wf (policy : ReversalPolicy) (r : FeatureObservation) : Prop := {
  rw_value : is_Some (fo_value r) <-> has_value (fo_quality r) = true;
  rw_quality : fo_quality r =
    match fo_reason r with
    | RObservationValid => QValidated
    | RClockDegraded => QDegraded
    | RSourceInvalidated | RBookResyncing => QInvalid
    | _ => QUnavailable
    end;
  rw_reason : fo_reason r <> RArithmeticInvalid /\
    (fo_reason r = RBookResyncing -> fo_name r = BookDepth10bps) /\
    (fo_reason r = RDirectionUnknown -> fo_name r = CrossVenueBreadth \/ fo_name r = ReversalFromExtreme) /\
    (fo_reason r = ROptionalSourceUnavailable -> is_optional (fo_name r) = true) /\
    (fo_reason r = ROutOfDomain -> is_critical (fo_name r) policy = false);
  rw_policy : fo_reversal_policy r = if bool_decide (fo_name r = ReversalFromExtreme) then Some policy else None;
  rw_reversal : fo_name r = ReversalFromExtreme -> reversal_is_critical policy = false -> fo_quality r = QValidated
}.

Definition conditions_wf (n : FeatureName) (c : FeatureConditions) : Prop :=
  cs_name c = n /\ forall x, x ∈ cs_conditions c -> applicable n x = true.

Lemma conditions_new_wf n cs c : conditions_new n cs = Ok c -> conditions_wf n c.
Proof.
  unfold conditions_new. destruct (forallb _ cs) eqn:E; [|done]. intros [= <-]. split; [done|].
  intros x Hx. cbn in Hx. rewrite forallb_forall in E. apply E. by apply list_elem_of_In.
Qed.

Lemma evaluate_inner_wf name value c policy row :
  conditions_wf name c -> (name = ReversalFromExtreme -> reversal_is_critical policy = true) ->
  evaluate_feature_inner name value c policy = Ok row -> row_wf policy row.
Proof.
  intros [Hn Happ] Hp H. unfold evaluate_feature_inner in H. rewrite Hn, bool_decide_eq_true_2 in H by done. cbn [negb] in H.
  assert (forall x, cond_in x c = true -> applicable name x = true) as Hc
    by (intros x; unfold cond_in; rewrite bool_decide_eq_true; apply Happ).
  destruct (cond_in CArithmeticInvalid c); [done|].
  repeat match type of H with
  | context [if cond_in ?x c then _ else _] => let E := fresh "E" in destruct (cond_in x c) eqn:E; [apply Hc in E|clear E]
  end; try match type of H with context [if is_critical name policy then _ else _] =>
    destruct (is_critical name policy) eqn:Hcrit; [discriminate H|] end;
  cbn [rbind has_value andb] in H; try (destruct value as [v|]; [cbn in H|discriminate H]);
  injection H as <-; (split; cbn [fo_name fo_value fo_quality fo_reason fo_reversal_policy has_value];
    [(split; [by intros [? ?]|discriminate]) || (by split; eauto)|done| |done|intros ->; rewrite Hp by done; discriminate]);
  cbn [applicable] in *; split_and! ; try discriminate; intros _;
  first [by apply bool_decide_eq_true_1 in E | destruct name; by auto || discriminate | done].
Qed.

Lemma authored_wf policy row : authored policy row -> row_wf policy row.
Proof.
  intros [name value cs c row' Hc He|anchor extreme current cs c row' Hc He]; apply conditions_new_wf in Hc.
  - unfold evaluate_feature in He. case_bool_decide as Hn; [done|]. by eapply evaluate_inner_wf.
  - unfold evaluate_reversal in He. rewrite bool_decide_eq_true_2 in He by apply Hc. cbn [negb] in He.
    destruct (reversal_is_critical policy && cond_in CDirectionUnknown c); [done|].
    destruct policy as [| |dir].
    1, 2: injection He as <-; split; cbn; try done; split_and! ; done.
    revert He. destruct Hc as [Hn Ha].
    assert (forall x, x = COutOfDomain \/ x = CArithmeticInvalid ->
      conditions_wf ReversalFromExtreme (mkFeatureConditions (cs_name c) (x :: cs_conditions c))) as Hadd.
    { intros x Hx. split; [done|]. intros y Hy. cbn in Hy. apply elem_of_cons in Hy as [->|Hy]; [by destruct Hx as [-> | ->]|auto]. }
    destruct (reversal_from_extreme _ _ _ _) as [v|[]]; intros He; (eapply evaluate_inner_wf; [| |exact He]; [|done]); auto.
    by split.
Qed.

(** C20. The nine rows of a feature set are well formed: every canonical feature
    has exactly one row, in canonical order, a row has a value exactly when its
    quality allows one, its reason is one that can apply to its feature, and
    the overall quality is [Validated] exactly when every row is, and [Invalid]
    exactly when a critical row has no value. *)
Theorem feature_set_wf policy rows set : Forall (authored policy) rows -> feature_set_new rows policy = Ok set ->
  fs_rows set ≡ₚ rows /\ fo_name <$> fs_rows set = CANONICAL.*1 /\ Forall (row_wf policy) (fs_rows set) /\
  (envelope_quality set = EnvValidated <-> Forall (fun r => fo_quality r = QValidated) (fs_rows set)) /\
  (envelope_quality set = EnvInvalid <->
   Exists (fun r => is_critical (fo_name r) policy = true /\ fo_value r = None) (fs_rows set)).
Proof.
  intros Ha H. unfold feature_set_new in H. destruct (negb _); [done|]. set (sorted := sort_by _ rows) in *.
  destruct (bool_decide (fo_name <$> sorted = _)) eqn:En; cbn [negb] in H; [|done]. apply bool_decide_eq_true in En.
  destruct (existsb _ sorted); [done|]. injection H as <-. cbn [fs_rows fs_reversal_policy].
  assert (sorted ≡ₚ rows) as Hperm by apply sort_by_perm.
  assert (Forall (row_wf policy) sorted) as Hw.
  { rewrite Hperm. eapply Forall_impl; [exact Ha|]. intros r. apply authored_wf. }
  split; [done|]. split; [done|]. split; [done|]. clearbody sorted. clear Ha Hperm En.
  unfold envelope_quality. cbn [fs_rows fs_reversal_policy].
  assert (forall r, row_wf policy r -> unusable (fo_quality r) = true <-> fo_value r = None) as Hval.
  { intros r [Hv _ _ _ _]. destruct (fo_value r), (fo_quality r); cbn in *; try done; destruct Hv as [Hv1 Hv2];
      (by specialize (Hv1 ltac:(eauto))) || (by destruct (Hv2 eq_refl)) || done. }
  assert (forall r, row_wf policy r -> is_critical (fo_name r) policy = false -> is_optional (fo_name r) = false ->
    fo_quality r = QValidated) as Hrest.
  { intros r Hr Hc Ho. apply (rw_reversal _ _ Hr); destruct (fo_name r); try done; destruct policy; try done; by rewrite bool_decide_eq_true_2 in Hc. }
  rewrite Forall_forall in Hw.
  destruct (existsb (fun row => is_critical _ _ && _) sorted) eqn:E1.
  - apply existsb_exists in E1 as (r & Hr & E1). apply andb_true_iff in E1 as [Ec Eu]. apply list_elem_of_In in Hr. split.
    + split; [done|]. intros Hall. rewrite Forall_forall in Hall. by rewrite (Hall r Hr) in Eu.
    + split; [|done]. intros _. apply Exists_exists. exists r. split; [done|]. split; [done|]. apply Hval; auto.
  - assert (forall r, r ∈ sorted -> is_critical (fo_name r) policy = true -> unusable (fo_quality r) = false) as Hcrit.
    { intros r Hr Hc. apply not_true_iff_false. intros Hu. apply not_true_iff_false in E1. apply E1. apply existsb_exists.
      exists r. split; [by apply list_elem_of_In|]. by rewrite Hc, Hu. }
    assert (~ Exists (fun r => is_critical (fo_name r) policy = true /\ fo_value r = None) sorted) as Hno.
    { intros (r & Hr & Hc & Hv)%Exists_exists. apply Hval in Hv; [|auto]. rewrite Hcrit in Hv; done. }
    match goal with |- context [existsb ?f sorted] => destruct (existsb f sorted) eqn:E2 end;
      (split; [|split; [done|intros Hx; by destruct (Hno Hx)]]).
    + split; [done|]. intros Hall. rewrite Forall_forall in Hall. apply existsb_exists in E2 as (r & Hr & E2).
      apply list_elem_of_In in Hr. by rewrite (Hall r Hr), andb_false_r in E2.
    + split; [|done]. intros _. apply Forall_forall. intros r Hr. apply not_true_iff_false in E2.
      destruct (is_critical (fo_name r) policy) eqn:Hc; [specialize (Hcrit r Hr Hc)|destruct (is_optional (fo_name r)) eqn:Ho;
        [|by apply Hrest; auto]].
      * destruct (fo_quality r) eqn:Hq; try done. exfalso. apply E2, existsb_exists. exists r.
        split; [by apply list_elem_of_In|]. by rewrite Hq.
      * destruct (fo_quality r) eqn:Hq; try done; exfalso; apply E2, existsb_exists; exists r;
          (split; [by apply list_elem_of_In|]); by rewrite Hq, Ho.
Qed.

(** Nine rows: the depth is resynchronising, the open interest has no source. *)
Definition sample_policy : ReversalPolicy := ReversalRequired KnownUp.
Definition sample_inputs : list (FeatureName * option Z * list FeatureCondition) :=
  [(TakerImbalance, Some 5, []); (BookDepth10bps, None, [CBookResyncing]); (CrossVenueBreadth, Some 50000000, [CClockDegraded]);
   (CvdSlope, Some 1, []); (LiquidationNotional, Some 0, []); (LogReturn, Some 200000, []);
   (OpenInterestChange, None, [COptionalSourceUnavailable; CClockDegraded]); (SpreadBps, Some 100000000, [])].
Definition sample_row (i : FeatureName * option Z * list FeatureCondition) : option FeatureObservation :=
  let '(name, value, cs) := i in
  c ← ok (conditions_new name cs); ok (evaluate_feature name value c sample_policy).
Definition sample_reversal : option FeatureObservation :=
  c ← ok (conditions_new ReversalFromExtreme []); ok (evaluate_reversal sample_policy 100 200 150 c).
Definition sample_rows : list FeatureObservation := omap id (sample_reversal :: (sample_row <$> sample_inputs)).

Lemma feature_set_wf_witness :
  exists set, feature_set_new sample_rows sample_policy = Ok set /\ length sample_rows = 9%nat /\
    envelope_quality set = EnvInvalid /\ Forall (row_wf sample_policy) (fs_rows set).
Proof.
  destruct (feature_set_new sample_rows sample_policy) as [set|] eqn:E; [|by vm_compute in E].
  exists set. split; [done|]. split; [done|]. split.
  - vm_compute in E. by injection E as <-.
  - apply (feature_set_wf sample_policy sample_rows set); [|done].
    repeat (apply Forall_cons; split); [by eapply (authored_reversal _ 100 200 150 [])|..|constructor].
    1: by eapply (authored_feature _ TakerImbalance (Some 5) []).
    1: by eapply (authored_feature _ BookDepth10bps None [CBookResyncing]).
    1: by eapply (authored_feature _ CrossVenueBreadth (Some 50000000) [CClockDegraded]).
    1: by eapply (authored_feature _ CvdSlope (Some 1) []).
    1: by eapply (authored_feature _ LiquidationNotional (Some 0) []).
    1: by eapply (authored_feature _ LogReturn (Some 200000) []).
    1: by eapply (authored_feature _ OpenInterestChange None [COptionalSourceUnavailable; CClockDegraded]).
    by eapply (authored_feature _ SpreadBps (Some 100000000) []).
Defined.

(** The flags are those whose condition holds, each once and in order. *)
Definition flag_holds (c : FlagConditions) (f : MechanicsFlag) : bool :=
  match f with
  | FBookResyncing => fc_book_resyncing c | FClockUncertain => fc_clock_degraded c
  | FCrossVenueDivergence => fc_breadth_unavailable_or_divergent c | FInsufficientCoverage => fc_incomplete_critical c
  | FOiStale => fc_oi_stale_or_unavailable c | FQueueDrop => fc_queue_drop c | FReconnectWarmup => fc_reconnect_warmup c
  | FSequenceGap => fc_sequence_failure c | FSourceStale => fc_source_stale c
  end.

Lemma mechanics_flags_exact c :
  mechanics_flags c = filter (fun f => flag_holds c f = true)
    [FBookResyncing; FClockUncertain; FCrossVenueDivergence; FInsufficientCoverage; FOiStale; FQueueDrop; FReconnectWarmup;
     FSequenceGap; FSourceStale].
Proof. destruct c as [[] [] [] [] [] [] [] [] []]; reflexivity. Qed.
