(* ===== verification/PulsePhase.v ===== *)
(** * Event pulse: phase classification ([crates/event-pulse/src/mechanics.rs])

    A machine of seven phases over time.  Evidence arrives with a time of
    availability; a transition that the evidence asks for becomes a candidate
    and fires when it has been asked for during its dwell time.  The theorems
    show that advancing terminates, that the state depends on the evidence and
    the time and not on how often the machine is polled, and that every phase
    change has been supported by the evidence for its whole dwell. *)

From stdpp Require Import base tactics numbers strings option list.
From Stdlib Require Import ZArith Lia.
From S2P Require Import Prelude PulseMath.

Local Open Scope Z_scope.

(** ** Data *)

Inductive Phase := PhNormal | PhBuildup | PhIgnition | PhCascade | PhExhaustion | PhAftermath | PhInvalid.

#[export] Instance Phase_eq_dec : EqDecision Phase.
Proof. solve_decision. Defined.

(** [Phase::as_str]. *)
Definition phase_str (p : Phase) : string :=
  match p with
  | PhNormal => "NORMAL" | PhBuildup => "BUILDUP" | PhIgnition => "IGNITION" | PhCascade => "CASCADE"
  | PhExhaustion => "EXHAUSTION" | PhAftermath => "AFTERMATH" | PhInvalid => "INVALID"
  end.

Record FamilyFlags := mkFamilyFlags {
  fam_price : bool;
  fam_flow : bool;
  fam_book : bool;
  fam_derivatives : bool;
  fam_breadth : bool
}.

Definition families_count (f : FamilyFlags) : Z :=
  Z.of_nat (length (filter (fun active : bool => active = true)
    [fam_price f; fam_flow f; fam_book f; fam_derivatives f; fam_breadth f])).

Definition families_intensity (f : FamilyFlags) : Z :=
  Z.b2z (fam_price f) * 25000000 + Z.b2z (fam_flow f) * 25000000 + Z.b2z (fam_book f) * 15000000 +
  Z.b2z (fam_derivatives f) * 20000000 + Z.b2z (fam_breadth f) * 15000000.

Record MechanicsEvidence := mkMechanicsEvidence {
  ev_available_at_ns : Z;
  ev_direction : Direction;
  ev_families : FamilyFlags;
  ev_intensity : Z;
  ev_confidence : Z;
  ev_reversal_risk : Z;
  ev_valid : bool;
  ev_fully_warmed : bool;
  ev_spread_bps : Z
}.

Inductive PhaseError := TimeRegression | ScoreDomain.

Record Candidate := mkCandidate { cand_target : Phase; cand_start_ns : Z; cand_dwell_ns : Z }.

Record PhaseMachine := mkPhaseMachine {
  pm_phase : Phase;
  pm_evidence : option MechanicsEvidence;
  pm_candidate : option Candidate;
  pm_now_ns : option Z
}.

#[export] Instance eta_PhaseMachine : Eta PhaseMachine := fun m =>
  mkPhaseMachine (pm_phase m) (pm_evidence m) (pm_candidate m) (pm_now_ns m).

Definition phase_new : PhaseMachine := mkPhaseMachine PhNormal None None None.

(** ** Transitions *)

Definition transition (phase : Phase) (e : MechanicsEvidence) : option (Phase * Z) :=
  if negb (ev_valid e) && negb (bool_decide (phase = PhInvalid)) then Some (PhInvalid, 0) else
  let intensity := ev_intensity e in
  let risk := ev_reversal_risk e in
  let f := ev_families e in
  let high := (80000000 <=? intensity) && fam_price f && fam_flow f in
  let wide := fam_derivatives f || fam_breadth f in
  match phase with
  | PhInvalid =>
      if ev_fully_warmed e && (intensity <? 40000000) then Some (PhNormal, 1000000000) else None
  | PhNormal =>
      if high then Some (PhIgnition, 100000000)
      else if (60000000 <=? intensity) && (80000000 <=? ev_confidence e) && (2 <=? families_count f)
      then Some (PhBuildup, 250000000) else None
  | PhBuildup =>
      if high then Some (PhIgnition, 100000000)
      else if intensity <? 40000000 then Some (PhNormal, 500000000) else None
  | PhIgnition =>
      if (85000000 <=? intensity) && wide then Some (PhCascade, 250000000)
      else if 65000000 <=? risk then Some (PhExhaustion, 250000000) else None
  | PhCascade =>
      if (65000000 <=? risk) || (intensity <=? 40000000) then Some (PhExhaustion, 250000000) else None
  | PhExhaustion =>
      if (85000000 <=? intensity) && (risk <? 35000000) && wide then Some (PhCascade, 250000000)
      else if (intensity <? 60000000) && (50000000 <=? risk) then Some (PhAftermath, 1000000000) else None
  | PhAftermath =>
      if (60000000 <=? intensity) && (risk <? 35000000) then Some (PhBuildup, 500000000)
      else if (intensity <? 40000000) && (risk <? 20000000) && (ev_spread_bps e <? 8 * SCALE)
      then Some (PhNormal, 5000000000) else None
  end.

(** ** The machine *)

Abbreviation Ph := (Eff PhaseMachine PhaseError).

Definition refresh_candidate (at_ns : Z) (m : PhaseMachine) : PhaseMachine :=
  match pm_evidence m with
  | None => m
  | Some evidence =>
      match transition (pm_phase m) evidence with
      | None => m ⟪ pm_candidate := None ⟫
      | Some (target, dwell_ns) =>
          let candidate :=
            match pm_candidate m with
            | Some c => if bool_decide (cand_target c = target) then c else mkCandidate target at_ns dwell_ns
            | None => mkCandidate target at_ns dwell_ns
            end in
          m ⟪ pm_candidate := Some candidate ⟫
      end
  end.

(** [self.now_ns.is_some_and(|now| at_ns < now)]. *)
Definition before_now (at_ns : Z) (m : PhaseMachine) : bool :=
  match pm_now_ns m with Some now => at_ns <? now | None => false end.

(** One turn of the loop of [advance_to]; [true] ends it. *)
Definition advance_turn (at_ns : Z) : Ph bool :=
  emod (fun m => refresh_candidate (default at_ns (pm_now_ns m)) m) !;
  let! m := eget in
  match pm_candidate m with
  | None => eret true
  | Some candidate =>
      let! deadline := elift (ok_or (checked_add I64 (cand_start_ns candidate) (cand_dwell_ns candidate)) ScoreDomain) in
      if at_ns <? deadline then eret true
      else
        emod (fun m => m ⟪ pm_now_ns := Some deadline ⟫ ⟪ pm_phase := cand_target candidate ⟫ ⟪ pm_candidate := None ⟫) !;
        eret false
  end.

(** The loop; [false] would mean that the fuel ran out. *)
Fixpoint advance_loop (fuel : nat) (at_ns : Z) : Ph bool :=
  match fuel with
  | O => eret false
  | S fuel =>
      let! ended := advance_turn at_ns in
      if (ended : bool) then eret true else advance_loop fuel at_ns
  end.

(** Two turns at most for every tenth of a second, the shortest dwell. *)
Definition advance_fuel (at_ns : Z) (m : PhaseMachine) : nat :=
  Z.to_nat (2 * ((at_ns - default at_ns (pm_now_ns m)) / 100000000) + 4).

Definition advance_to (at_ns : Z) : Ph bool :=
  let! m := eget in
  if before_now at_ns m then ethrow TimeRegression else
  let! ended := advance_loop (advance_fuel at_ns m) at_ns in
  if (ended : bool) then
    emod (fun m => refresh_candidate at_ns (m ⟪ pm_now_ns := Some at_ns ⟫)) !;
    eret true
  else eret false.

Definition in_ratio (v : Z) : bool := (0 <=? v) && (v <=? SCALE).

Definition phase_observe (evidence : MechanicsEvidence) : Ph bool :=
  let! m := eget in
  if before_now (ev_available_at_ns evidence) m then ethrow TimeRegression else
  if negb (in_ratio (ev_intensity evidence)) || negb (in_ratio (ev_confidence evidence)) ||
     negb (in_ratio (ev_reversal_risk evidence)) ||
     negb (ev_intensity evidence =? families_intensity (ev_families evidence))
  then ethrow ScoreDomain else
  let! ended := advance_to (ev_available_at_ns evidence) in
  emod (fun m => m ⟪ pm_evidence := Some evidence ⟫) !;
  if negb (ev_valid evidence) then
    emod (fun m => m ⟪ pm_phase := PhInvalid ⟫ ⟪ pm_candidate := None ⟫) !; eret ended
  else
    emod (refresh_candidate (ev_available_at_ns evidence)) !; eret ended.

(** ** Dwell times *)

Lemma transition_dwell p e q dwell : transition p e = Some (q, dwell) ->
  (100000000 <= dwell <= 5000000000 \/ q = PhInvalid /\ p <> PhInvalid /\ ev_valid e = false /\ dwell = 0) /\
  (ev_valid e = false -> p <> PhInvalid -> q = PhInvalid /\ dwell = 0).
Proof.
  unfold transition. destruct (ev_valid e) eqn:Hv; cbn [negb andb].
  - intros H. split; [left|done]. repeat case_match; simplify_eq; lia.
  - destruct (decide (p = PhInvalid)) as [->|Hp].
    + cbn. intros H. split; [left|done]. repeat case_match; simplify_eq; lia.
    + rewrite bool_decide_eq_false_2 by done. cbn. intros [= <- <-]. eauto 10.
Qed.

(** Phase and target determine the dwell. *)
Lemma transition_unique p e1 e2 q d1 d2 :
  transition p e1 = Some (q, d1) -> transition p e2 = Some (q, d2) -> d1 = d2.
Proof.
  unfold transition. intros H1 H2. destruct p; cbn in H1, H2;
    repeat match goal with
    | H : context [if ?b then _ else _] |- _ => destruct b
    end; simplify_eq; done.
Qed.

(** ** Reachable machines

    [reach h m]: [m] is reached, possibly in the middle of an advance, after
    the accepted observations [h], the latest first. *)
Inductive reach : list MechanicsEvidence -> PhaseMachine -> Prop :=
  | reach_new : reach [] phase_new
  | reach_turn h m at_ns r m' : reach h m -> before_now at_ns m = false -> advance_turn at_ns m = (r, m') -> reach h m'
  | reach_advance h m at_ns r m' : reach h m -> advance_to at_ns m = (r, m') -> reach h m'
  | reach_observe h m e m' : reach h m -> phase_observe e m = (Ok true, m') -> reach (e :: h) m'
  | reach_refused h m e err m' : reach h m -> phase_observe e m = (Err err, m') -> reach h m'.

(** The evidence in force from [since] on: the latest one available by then
    and everything after it. *)
Fixpoint in_force (since : Z) (h : list MechanicsEvidence) : list MechanicsEvidence :=
  match h with
  | [] => []
  | e :: h => if ev_available_at_ns e <=? since then [e] else e :: in_force since h
  end.

(** Every evidence in force since [since] asks for the transition. *)
Definition supported (h : list MechanicsEvidence) (since : Z) (p q : Phase) (dwell : Z) : Prop :=
  in_force since h <> [] /\ Forall (fun e => transition p e = Some (q, dwell)) (in_force since h).

Record phase_inv (h : list MechanicsEvidence) (m : PhaseMachine) : Prop := {
  pi_evidence : pm_evidence m = head h;
  pi_now : forall e, head h = Some e -> exists now, pm_now_ns m = Some now /\ ev_available_at_ns e <= now;
  pi_candidate : forall c, pm_candidate m = Some c -> exists now, pm_now_ns m = Some now /\
    cand_start_ns c <= now <= cand_start_ns c + cand_dwell_ns c /\
    supported h (cand_start_ns c) (pm_phase m) (cand_target c) (cand_dwell_ns c);
  pi_empty : h = [] -> pm_candidate m = None
}.

Lemma phase_inv_new : phase_inv [] phase_new.
Proof. by split. Qed.

(** Refreshing at the machine's time keeps a candidate that the evidence still
    asks for, and starts or drops one otherwise. *)
Lemma refresh_inv h m now : phase_inv h m -> pm_now_ns m = Some now -> phase_inv h (refresh_candidate now m).
Proof.
  intros [He Hn Hc H0] Hnow. unfold refresh_candidate. destruct (pm_evidence m) as [e|] eqn:Ee; [|by split; rewrite ?Ee].
  destruct h as [|e' h]; [done|]. injection He as ->. destruct (Hn e' eq_refl) as (n & En & Hle).
  rewrite Hnow in En. injection En as <-.
  destruct (transition (pm_phase m) e') as [[q dwell]|] eqn:Et; [|by split; cbn; [|eauto|..]].
  assert (0 <= dwell) as Hd by (apply transition_dwell in Et as [[?|(_ & _ & _ & ->)] _]; lia).
  split; cbn [pm_evidence pm_now_ns pm_phase pm_candidate set_field]; [done|eauto| |done].
  intros c [= <-]. exists now. split; [done|].
  assert (now <= now <= now + dwell /\ supported (e' :: h) now (pm_phase m) q dwell) as Hnew.
  { split; [lia|]. unfold supported. cbn. rewrite (proj2 (Z.leb_le _ _)) by done. by repeat constructor. }
  destruct (pm_candidate m) as [c0|] eqn:Ec; [|done]. case_bool_decide as Hq; [|done]. subst q.
  destruct (Hc c0 eq_refl) as (n & En & Hb & Hs). rewrite Hnow in En. injection En as <-. done.
Qed.

(** A refresh changes nothing once the candidate agrees with the evidence. *)
Definition settled (m : PhaseMachine) : Prop :=
  match pm_evidence m with
  | None => True
  | Some e =>
      match transition (pm_phase m) e with
      | None => pm_candidate m = None
      | Some (q, _) => exists c, pm_candidate m = Some c /\ cand_target c = q
      end
  end.

Lemma refresh_settled t m : settled (refresh_candidate t m).
Proof.
  unfold refresh_candidate, settled. destruct (pm_evidence m) as [e|] eqn:Ee; [|by rewrite Ee].
  destruct (transition (pm_phase m) e) as [[q dwell]|] eqn:Et; cbn; rewrite Ee, Et; [|done]. eexists. split; [done|].
  destruct (pm_candidate m) as [c|]; [|done]. by case_bool_decide.
Qed.

Lemma refresh_id t m : settled m -> refresh_candidate t m = m.
Proof.
  unfold refresh_candidate, settled. destruct (pm_evidence m) as [e|] eqn:Ee; [|done].
  destruct (transition (pm_phase m) e) as [[q dwell]|] eqn:Et.
  - intros (c & Ec & Hq). rewrite Ec, bool_decide_eq_true_2 by done. destruct m. cbn in *. by subst.
  - intros Ec. destruct m. cbn in *. by subst.
Qed.

(** ** One turn *)

(** The time a turn refreshes at. *)
Definition turn_refreshed (at_ns : Z) (m : PhaseMachine) : PhaseMachine :=
  refresh_candidate (default at_ns (pm_now_ns m)) m.

Definition fired (c : Candidate) (t : Z) (m : PhaseMachine) : PhaseMachine :=
  m ⟪ pm_now_ns := Some t ⟫ ⟪ pm_phase := cand_target c ⟫ ⟪ pm_candidate := None ⟫.

Lemma advance_turn_eq at_ns m :
  advance_turn at_ns m =
  let m1 := turn_refreshed at_ns m in
  match pm_candidate m1 with
  | None => (Ok true, m1)
  | Some c =>
      match checked_add I64 (cand_start_ns c) (cand_dwell_ns c) with
      | None => (Err ScoreDomain, m1)
      | Some t => if at_ns <? t then (Ok true, m1) else (Ok false, fired c t m1)
      end
  end.
Proof.
  unfold advance_turn, turn_refreshed. eff_unfold. destruct (pm_candidate _) as [c|]; [|done].
  destruct (checked_add I64 _ _) as [t|]; [|done]. cbn. by destruct (at_ns <? t).
Qed.

Lemma no_time_no_history h m : phase_inv h m -> pm_now_ns m = None -> h = [] /\ pm_evidence m = None /\ pm_candidate m = None.
Proof.
  intros [He Hn Hc H0] Hno. destruct h as [|e h]; [auto|]. destruct (Hn e eq_refl) as (now & E & _). congruence.
Qed.

Lemma refreshed_inv h m at_ns : phase_inv h m -> before_now at_ns m = false ->
  let m1 := turn_refreshed at_ns m in
  phase_inv h m1 /\ settled m1 /\ pm_phase m1 = pm_phase m /\ pm_now_ns m1 = pm_now_ns m /\ pm_evidence m1 = pm_evidence m.
Proof.
  intros Hi Hb. unfold turn_refreshed. split_and! ; [|apply refresh_settled| | |].
  - destruct (pm_now_ns m) as [now|] eqn:En; [by apply refresh_inv|]. cbn.
    destruct (no_time_no_history _ _ Hi En) as (_ & He & _). unfold refresh_candidate. by rewrite He.
  - unfold refresh_candidate. by repeat case_match.
  - unfold refresh_candidate. by repeat case_match.
  - unfold refresh_candidate. by repeat case_match.
Qed.

(** What a turn that fires does. *)
Definition fires (h : list MechanicsEvidence) (at_ns : Z) (m m' : PhaseMachine) : Prop :=
  exists now t dwell, pm_now_ns m = Some now /\ pm_now_ns m' = Some t /\ now <= t <= at_ns /\
    pm_evidence m' = pm_evidence m /\ pm_candidate m' = None /\
    supported h (t - dwell) (pm_phase m) (pm_phase m') dwell.

Lemma turn_outcome h m at_ns : phase_inv h m -> before_now at_ns m = false ->
  match advance_turn at_ns m with
  | (Ok true, m') => m' = turn_refreshed at_ns m /\ phase_inv h m' /\
      (forall c, pm_candidate m' = Some c -> at_ns < cand_start_ns c + cand_dwell_ns c)
  | (Ok false, m') => phase_inv h m' /\ before_now at_ns m' = false /\ fires h at_ns m m'
  | (Err _, m') => m' = turn_refreshed at_ns m /\ phase_inv h m'
  end.
Proof.
  intros Hi Hb. destruct (refreshed_inv h m at_ns Hi Hb) as (Hi1 & _ & Hp & Hnow & He). rewrite advance_turn_eq. cbv zeta.
  set (m1 := turn_refreshed at_ns m) in *. destruct (pm_candidate m1) as [c|] eqn:Ec; [|by rewrite Ec].
  destruct (checked_add I64 _ _) as [t|] eqn:Et; [|done]. apply to_ty_Some in Et as [-> _].
  destruct (Z.ltb_spec at_ns (cand_start_ns c + cand_dwell_ns c)) as [Hlt|Hge].
  - split; [done|]. split; [done|]. intros c' E. congruence.
  - destruct (pi_candidate _ _ Hi1 c Ec) as (now & En & Hrange & Hs). split; [|split].
    + split; cbn; [apply Hi1| |done|done]. intros e Hh. destruct (pi_now _ _ Hi1 e Hh) as (n & En' & Hle).
      eexists. split; [done|]. rewrite En in En'. injection En' as <-. lia.
    + unfold before_now. cbn. lia.
    + exists now, (cand_start_ns c + cand_dwell_ns c), (cand_dwell_ns c). cbn. rewrite <- Hp, <- Hnow, <- He.
      split_and! ; try done; try lia; rewrite Z.add_simpl_r; apply Hs.
Qed.

(** ** Whole operations *)

Lemma advance_loop_inv h fuel at_ns m : phase_inv h m -> before_now at_ns m = false ->
  phase_inv h (snd (advance_loop fuel at_ns m)) /\
  (fst (advance_loop fuel at_ns m) = Ok true ->
   let m' := snd (advance_loop fuel at_ns m) in
   settled m' /\ before_now at_ns m' = false /\ forall c, pm_candidate m' = Some c -> at_ns < cand_start_ns c + cand_dwell_ns c).
Proof.
  revert m. induction fuel as [|fuel IH]; intros m Hi Hb; [done|]. cbn [advance_loop]. unfold ebind.
  pose proof (turn_outcome h m at_ns Hi Hb) as Ht. destruct (advance_turn at_ns m) as [[[]|e] m1]; cbn [fst snd].
  - destruct Ht as (-> & Hi1 & Hc). split; [done|]. intros _. cbv zeta. cbn [eret snd]. split; [apply refresh_settled|]. split; [|done].
    unfold before_now. destruct (refreshed_inv h m at_ns Hi Hb) as (_ & _ & _ & -> & _). done.
  - destruct Ht as (Hi1 & Hb1 & _). by apply IH.
  - destruct Ht as [-> Hi1]. done.
Qed.

(** The machine after a completed advance. *)
Definition at_rest (at_ns : Z) (m : PhaseMachine) : Prop :=
  pm_now_ns m = Some at_ns /\ settled m /\ forall c, pm_candidate m = Some c -> at_ns < cand_start_ns c + cand_dwell_ns c.

Lemma settled_now t m : settled m -> settled (m ⟪ pm_now_ns := t ⟫).
Proof. done. Qed.

Lemma arrive_inv h at_ns m : phase_inv h m -> before_now at_ns m = false ->
  (forall c, pm_candidate m = Some c -> at_ns < cand_start_ns c + cand_dwell_ns c) ->
  phase_inv h (m ⟪ pm_now_ns := Some at_ns ⟫).
Proof.
  intros [He Hn Hc H0] Hb Hd. unfold before_now in Hb. split; cbn; [done| | |done].
  - intros e Hh. destruct (Hn e Hh) as (now & En & Hle). rewrite En in Hb. eexists. split; [done|]. lia.
  - intros c Ec. destruct (Hc c Ec) as (now & En & Hr & Hs). rewrite En in Hb. specialize (Hd c Ec). eexists. split; [done|].
    split; [lia|done].
Qed.

Lemma advance_to_eq at_ns m :
  advance_to at_ns m =
  if before_now at_ns m then (Err TimeRegression, m) else
  match advance_loop (advance_fuel at_ns m) at_ns m with
  | (Ok true, m1) => (Ok true, refresh_candidate at_ns (m1 ⟪ pm_now_ns := Some at_ns ⟫))
  | r => r
  end.
Proof.
  unfold advance_to. eff_unfold. destruct (before_now at_ns m); [done|]. by destruct (advance_loop _ at_ns m) as [[[]|e] m1].
Qed.

Lemma phase_advance_inv h at_ns m : phase_inv h m ->
  phase_inv h (snd (advance_to at_ns m)) /\
  (fst (advance_to at_ns m) = Ok true -> at_rest at_ns (snd (advance_to at_ns m))).
Proof.
  intros Hi. rewrite advance_to_eq. destruct (before_now at_ns m) eqn:Hb; [by split|].
  destruct (advance_loop_inv h (advance_fuel at_ns m) at_ns m Hi Hb) as [Hi1 Hrest].
  destruct (advance_loop _ at_ns m) as [[[]|e] m1]; cbn [fst snd] in *; [|by split..].
  destruct (Hrest eq_refl) as (Hs & Hb1 & Hd).
  rewrite refresh_id by by apply settled_now. split; [by apply arrive_inv|]. intros _. split; [done|]. split; [done|exact Hd].
Qed.

Lemma observe_refresh_inv h e m : phase_inv h m -> pm_now_ns m = Some (ev_available_at_ns e) ->
  phase_inv (e :: h) (refresh_candidate (ev_available_at_ns e) (m ⟪ pm_evidence := Some e ⟫)).
Proof.
  intros [He Hn Hc H0] Hnow. unfold refresh_candidate. cbn [pm_evidence set_field pm_phase pm_candidate].
  destruct (transition (pm_phase m) e) as [[q dwell]|] eqn:Et.
  2: { split; cbn; [done| |done|done]. intros e' [= <-]. exists (ev_available_at_ns e). split; [done|lia]. }
  assert (0 <= dwell) as Hd by (apply transition_dwell in Et as [[?|(_ & _ & _ & ->)] _]; lia).
  split; cbn [pm_evidence pm_now_ns pm_phase pm_candidate set_field head]; [done| | |done].
  { intros e' [= <-]. exists (ev_available_at_ns e). split; [done|lia]. }
  intros c [= <-]. exists (ev_available_at_ns e). split; [done|]. unfold supported. cbn [in_force].
  destruct (pm_candidate m) as [c|] eqn:Ec; [case_bool_decide as Hq|].
  - subst q. destruct (Hc c eq_refl) as (now & En & Hr & Hne & Hs). rewrite Hnow in En. injection En as <-.
    assert (dwell = cand_dwell_ns c) as ->.
    { destruct (in_force (cand_start_ns c) h) as [|e0 l]; [done|]. apply Forall_cons in Hs as [Hs _].
      by eapply transition_unique. }
    split; [done|]. destruct (ev_available_at_ns e <=? cand_start_ns c); split; try done; constructor; done || constructor.
  - cbn. rewrite (proj2 (Z.leb_le _ _)) by lia. split; [lia|]. by repeat constructor.
  - cbn. rewrite (proj2 (Z.leb_le _ _)) by lia. split; [lia|]. by repeat constructor.
Qed.

Lemma observe_inv h e m : phase_inv h m ->
  match phase_observe e m with
  | (Ok true, m') => phase_inv (e :: h) m' /\ pm_now_ns m' = Some (ev_available_at_ns e)
  | (Ok false, _) => fst (advance_to (ev_available_at_ns e) m) = Ok false
  | (Err _, m') => phase_inv h m'
  end.
Proof.
  intros Hi. unfold phase_observe. unfold ebind at 1, eget at 1. destruct (before_now _ m); [done|].
  destruct (_ || _); [done|]. unfold ebind at 1. destruct (phase_advance_inv h (ev_available_at_ns e) m Hi) as [Hi1 Hr].
  destruct (advance_to (ev_available_at_ns e) m) as [[b|err] m1]; cbn [fst snd] in *; [|done].
  unfold ebind at 1, emod at 1. destruct b.
  - destruct (Hr eq_refl) as (Hnow & _ & _). destruct (negb (ev_valid e)); unfold ebind, emod, eret; cbn [fst snd].
    + split; [|done]. split; cbn; [done| |done|done]. intros e' [= <-]. exists (ev_available_at_ns e). split; [done|lia].
    + split; [by apply observe_refresh_inv|]. unfold refresh_candidate. by repeat case_match.
  - by destruct (negb (ev_valid e)).
Qed.

Lemma reach_inv h m : reach h m -> phase_inv h m.
Proof.
  induction 1 as [|h m at_ns r m' _ IH Hb E|h m at_ns r m' _ IH E|h m e m' _ IH E|h m e err m' _ IH E].
  - apply phase_inv_new.
  - pose proof (turn_outcome h m at_ns IH Hb) as Ht. rewrite E in Ht. destruct r as [[]|]; apply Ht.
  - pose proof (proj1 (phase_advance_inv h at_ns m IH)) as Ht. by rewrite E in Ht.
  - pose proof (observe_inv h e m IH) as Ht. rewrite E in Ht. apply Ht.
  - pose proof (observe_inv h e m IH) as Ht. by rewrite E in Ht.
Qed.

(** ** Termination *)

(** Turns that can still fire when no candidate is pending. *)
Definition turns_left (at_ns now : Z) (p : Phase) : Z :=
  2 * ((at_ns - now) / 100000000) + (if bool_decide (p = PhInvalid) then 0 else 1).

Lemma turns_left_step at_ns now t p q dwell e :
  transition p e = Some (q, dwell) -> t = now + dwell -> t <= at_ns -> turns_left at_ns t q < turns_left at_ns now p.
Proof.
  intros Ht -> Hle. unfold turns_left. apply transition_dwell in Ht as [[[Hd _]|(-> & Hp & _ & ->)] _].
  - assert ((at_ns - (now + dwell)) / 100000000 <= (at_ns - now) / 100000000 - 1) as H.
    { replace ((at_ns - now) / 100000000 - 1) with ((at_ns - now + (-1) * 100000000) / 100000000)
        by (rewrite Z.div_add by lia; lia). apply Z.div_le_mono; lia. }
    repeat case_bool_decide; lia.
  - repeat case_bool_decide; try done. replace (now + 0) with now by lia. lia.
Qed.

Lemma loop_ends_idle h fuel at_ns m now : phase_inv h m -> before_now at_ns m = false -> pm_candidate m = None ->
  pm_now_ns m = Some now -> turns_left at_ns now (pm_phase m) < Z.of_nat fuel -> fst (advance_loop fuel at_ns m) <> Ok false.
Proof.
  revert m now. induction fuel as [|fuel IH]; intros m now Hi Hb Hc Hn Hf.
  { exfalso. unfold before_now in Hb. rewrite Hn in Hb. unfold turns_left in Hf.
    assert (0 <= (at_ns - now) / 100000000) by (apply Z.div_pos; lia). case_bool_decide; lia. }
  cbn [advance_loop]. unfold ebind. pose proof (turn_outcome h m at_ns Hi Hb) as Ht. rewrite advance_turn_eq in Ht |- *. cbv zeta in *.
  unfold turn_refreshed in *. rewrite Hn in Ht |- *. cbn [from_option id] in *. unfold refresh_candidate in *. rewrite Hc in Ht |- *.
  destruct (pm_evidence m) as [e|] eqn:Ee; [|by rewrite Hc].
  destruct (transition (pm_phase m) e) as [[q dwell]|] eqn:Et; [|done]. cbn [pm_candidate set_field cand_start_ns cand_dwell_ns] in *.
  destruct (checked_add I64 now dwell) as [t|] eqn:Ea; [|done]. apply to_ty_Some in Ea as [-> _].
  destruct (Z.ltb_spec at_ns (now + dwell)); [done|]. destruct Ht as (Hi' & Hb' & _).
  eapply IH; [exact Hi'|exact Hb'|done|done|]. pose proof (turns_left_step at_ns now (now + dwell) _ _ _ _ Et eq_refl ltac:(lia)).
  cbn. lia.
Qed.

Lemma advance_to_ends h m at_ns : phase_inv h m -> fst (advance_to at_ns m) <> Ok false.
Proof.
  intros Hi. rewrite advance_to_eq. destruct (before_now at_ns m) eqn:Hb; [done|].
  assert (fst (advance_loop (advance_fuel at_ns m) at_ns m) <> Ok false) as H;
    [|by destruct (advance_loop _ at_ns m) as [[[]|e] m1]].
  unfold advance_fuel. pose proof Hb as Hb0. unfold before_now in Hb0. set (q := (at_ns - default at_ns (pm_now_ns m)) / 100000000).
  assert (0 <= q) as Hq by (apply Z.div_pos; [destruct (pm_now_ns m); cbn in *|]; lia).
  replace (Z.to_nat (2 * q + 4)) with (S (Z.to_nat (2 * q + 3))) by lia. cbn [advance_loop]. unfold ebind.
  pose proof (turn_outcome h m at_ns Hi Hb) as Ht. destruct (advance_turn at_ns m) as [[[]|e] m1]; [done| |done].
  destruct Ht as (Hi1 & Hb1 & now & t & dwell & Hn & Ht & Hle & _ & Hc & _).
  eapply loop_ends_idle; [exact Hi1|exact Hb1|done|exact Ht|]. unfold turns_left.
  assert (q = (at_ns - now) / 100000000) as Eq by (unfold q; by rewrite Hn). clearbody q. subst q.
  assert ((at_ns - t) / 100000000 <= (at_ns - now) / 100000000) by (apply Z.div_le_mono; lia). case_bool_decide; lia.
Qed.

(** C38. Advancing and observing terminate: whatever was observed before, they
    return or fail within the turns that the elapsed time allows, two for
    every tenth of a second and four more. *)
Theorem phase_calls_end h m at_ns e : reach h m ->
  fst (advance_to at_ns m) <> Ok false /\ fst (phase_observe e m) <> Ok false.
Proof.
  intros Hr%reach_inv. split; [by eapply advance_to_ends|]. intros Hf. pose proof (observe_inv h e m Hr) as Ho.
  destruct (phase_observe e m) as [[[]|err] m']; try discriminate Hf. by eapply advance_to_ends.
Qed.

(** *** Phase changes

    [dwelt h until now p q]: from phase [p] at time [now] the evidence [h] leads
    to phase [q] by time [until], through changes each of which all evidence in
    force has asked for during its whole dwell. *)
Inductive dwelt (h : list MechanicsEvidence) (until : Z) : option Z -> Phase -> Phase -> Prop :=
  | dwelt_stay now p : dwelt h until now p p
  | dwelt_change now t dwell p q r :
      now <= t <= until -> in_force (t - dwell) h <> [] ->
      Forall (fun e => transition p e = Some (q, dwell)) (in_force (t - dwell) h) ->
      dwelt h until (Some t) q r -> dwelt h until (Some now) p r.

Lemma advance_loop_dwelt h fuel at_ns m : phase_inv h m -> before_now at_ns m = false ->
  dwelt h at_ns (pm_now_ns m) (pm_phase m) (pm_phase (snd (advance_loop fuel at_ns m))).
Proof.
  revert m. induction fuel as [|fuel IH]; intros m Hi Hb; [apply dwelt_stay|]. cbn [advance_loop]. unfold ebind.
  pose proof (turn_outcome h m at_ns Hi Hb) as Ht. pose proof (refreshed_inv h m at_ns Hi Hb) as (_ & _ & Hp & _).
  destruct (advance_turn at_ns m) as [[[]|e] m1]; cbn [snd eret].
  - destruct Ht as [-> _]. rewrite Hp. apply dwelt_stay.
  - destruct Ht as (Hi1 & Hb1 & now & t & dwell & -> & Ht & Hle & _ & _ & Hne & Hs).
    eapply (dwelt_change h at_ns now t dwell); [done|exact Hne|exact Hs|]. rewrite <- Ht. by apply IH.
  - destruct Ht as [-> _]. rewrite Hp. apply dwelt_stay.
Qed.

Lemma refresh_phase at_ns m : pm_phase (refresh_candidate at_ns m) = pm_phase m.
Proof. unfold refresh_candidate. by repeat case_match. Qed.

Lemma advance_to_dwelt h at_ns m : phase_inv h m ->
  dwelt h at_ns (pm_now_ns m) (pm_phase m) (pm_phase (snd (advance_to at_ns m))).
Proof.
  intros Hi. rewrite advance_to_eq. destruct (before_now at_ns m) eqn:Hb; [apply dwelt_stay|].
  pose proof (advance_loop_dwelt h (advance_fuel at_ns m) at_ns m Hi Hb) as Hd.
  destruct (advance_loop _ at_ns m) as [[[]|e] m1]; cbn [snd] in *; [|done..]. by rewrite refresh_phase.
Qed.

Lemma observe_dwelt h e m : phase_inv h m ->
  match phase_observe e m with
  | (Ok _, m') => exists p, dwelt h (ev_available_at_ns e) (pm_now_ns m) (pm_phase m) p /\
      pm_phase m' = if ev_valid e then p else PhInvalid
  | (Err _, m') => dwelt h (ev_available_at_ns e) (pm_now_ns m) (pm_phase m) (pm_phase m')
  end.
Proof.
  intros Hi. pose proof (advance_to_dwelt h (ev_available_at_ns e) m Hi) as Hd. unfold phase_observe.
  unfold ebind at 1, eget at 1. destruct (before_now _ m); [apply dwelt_stay|]. destruct (_ || _); [apply dwelt_stay|].
  unfold ebind at 1. destruct (advance_to (ev_available_at_ns e) m) as [[b|err] m1]; cbn [snd] in Hd; [|done].
  unfold ebind at 1, emod at 1. destruct (ev_valid e); cbn [negb]; unfold ebind, emod, eret; exists (pm_phase m1); [|done].
  by rewrite refresh_phase.
Qed.

(** C17. Every phase change has been asked for, without interruption and for its
    whole dwell, by the evidence in force, or is the immediate invalidation by
    evidence that is not valid.  A call of [advance_to], whether it succeeds or
    fails, takes the phase through a chain of changes at times that do not
    decrease, up to that of the call: before a change at time [t], all evidence
    in force from [t - dwell] on asked for this very transition.  When it succeeds the machine stands at the time of the call,
    with the candidate its evidence asks for and no change overdue.  A call of
    [phase_observe] first takes the phase through such a chain, on the evidence
    observed before; then evidence that is not valid makes it [Invalid], and
    valid evidence leaves it as it is. *)
Theorem phase_change_dwells h m : reach h m ->
  (forall at_ns r m', advance_to at_ns m = (r, m') ->
     dwelt h at_ns (pm_now_ns m) (pm_phase m) (pm_phase m') /\ (r = Ok true -> at_rest at_ns m')) /\
  (forall e m', phase_observe e m = (Ok true, m') ->
     exists p, dwelt h (ev_available_at_ns e) (pm_now_ns m) (pm_phase m) p /\
       pm_phase m' = (if ev_valid e then p else PhInvalid) /\
       pm_now_ns m' = Some (ev_available_at_ns e) /\ pm_evidence m' = Some e) /\
  (forall e err m', phase_observe e m = (Err err, m') ->
     dwelt h (ev_available_at_ns e) (pm_now_ns m) (pm_phase m) (pm_phase m') /\ pm_evidence m' = pm_evidence m).
Proof.
  intros Hi%reach_inv. split_and!.
  - intros at_ns r m' E. pose proof (advance_to_dwelt h at_ns m Hi) as Hd.
    pose proof (proj2 (phase_advance_inv h at_ns m Hi)) as Hr. rewrite E in Hd, Hr. by split.
  - intros e m' E. pose proof (observe_dwelt h e m Hi) as Hd. pose proof (observe_inv h e m Hi) as Ho. rewrite E in Hd, Ho.
    destruct Hd as (p & Hd & Hp), Ho as [Ho Hn]. exists p. split_and! ; [done..|apply Ho].
  - intros e err m' E. pose proof (observe_dwelt h e m Hi) as Hd. pose proof (observe_inv h e m Hi) as Ho. rewrite E in Hd, Ho.
    split; [done|]. by rewrite (pi_evidence _ _ Ho), (pi_evidence _ _ Hi).
Qed.

(** ** Polling *)

(** The outcome of the loop, whatever fuel it takes. *)
Definition loop_result (at_ns : Z) (m : PhaseMachine) (r : result bool PhaseError) (m' : PhaseMachine) : Prop :=
  r <> Ok false /\ exists fuel, advance_loop fuel at_ns m = (r, m').

Lemma advance_loop_more fuel k at_ns m r m' : r <> Ok false ->
  advance_loop fuel at_ns m = (r, m') -> advance_loop (fuel + k) at_ns m = (r, m').
Proof.
  intros Hr. revert m. induction fuel as [|fuel IH]; intros m; cbn [advance_loop Nat.add]; [by intros [= <- <-]|].
  unfold ebind. destruct (advance_turn at_ns m) as [[[]|e] m1]; [done|apply IH|done].
Qed.

Lemma loop_result_step at_ns m r m' :
  loop_result at_ns m r m' <->
  match advance_turn at_ns m with
  | (Ok false, m1) => loop_result at_ns m1 r m'
  | (r1, m1) => r = r1 /\ m' = m1
  end.
Proof.
  unfold loop_result.
  assert (forall r1 m1, r1 <> Ok false -> advance_turn at_ns m = (r1, m1) ->
    r <> Ok false /\ (exists fuel, advance_loop fuel at_ns m = (r, m')) <-> r = r1 /\ m' = m1) as Hend.
  { intros r1 m1 Hr1 Et. assert (advance_loop 1 at_ns m = (r1, m1)) as E1
      by (cbn; unfold ebind; rewrite Et; by destruct r1 as [[]|]).
    split; [intros (Hr & fuel & E)|intros [-> ->]; eauto].
    apply (advance_loop_more _ 1) in E; [|done]. apply (advance_loop_more _ fuel) in E1; [|done].
    rewrite Nat.add_comm in E1. rewrite E in E1. by injection E1. }
  destruct (advance_turn at_ns m) as [[[]|e] m1] eqn:Et; [by apply Hend| |by apply Hend].
  split.
  - intros (Hr & [|fuel] & E); [by injection E as <- <-|]. cbn in E. unfold ebind in E. rewrite Et in E. eauto.
  - intros (Hr & fuel & E). split; [done|]. exists (S fuel). cbn. unfold ebind. by rewrite Et.
Qed.

Lemma advance_to_result h at_ns m m2 : phase_inv h m ->
  advance_to at_ns m = (Ok true, m2) <->
  before_now at_ns m = false /\ exists m1, loop_result at_ns m (Ok true) m1 /\
    m2 = refresh_candidate at_ns (m1 ⟪ pm_now_ns := Some at_ns ⟫).
Proof.
  intros Hi. pose proof (advance_to_ends h m at_ns Hi) as Hend. rewrite advance_to_eq in *.
  destruct (before_now at_ns m); [split; [done|by intros [? _]]|].
  destruct (advance_loop (advance_fuel at_ns m) at_ns m) as [r m1] eqn:El. split.
  - destruct r as [[]|]; [|done|done]. intros [= <-]. split; [done|]. exists m1. split; [split; [done|eauto]|done].
  - intros (_ & m1' & (_ & fuel & E) & ->). destruct r as [[]|e]; [|done|].
    + apply (advance_loop_more _ fuel) in El; [|done]. apply (advance_loop_more _ (advance_fuel at_ns m)) in E; [|done].
      rewrite Nat.add_comm in E. rewrite E in El. by injection El as ->.
    + apply (advance_loop_more _ fuel) in El; [|done]. apply (advance_loop_more _ (advance_fuel at_ns m)) in E; [|done].
      rewrite Nat.add_comm in E. rewrite E in El. done.
Qed.

(** Reading the clock twice makes no difference to a refresh. *)
Lemma turn_refreshed_time h a b m : phase_inv h m -> turn_refreshed a m = turn_refreshed b m.
Proof.
  intros Hi. unfold turn_refreshed. destruct (pm_now_ns m) as [now|] eqn:En; [done|].
  destruct (no_time_no_history _ _ Hi En) as (_ & He & _). unfold refresh_candidate. by rewrite He.
Qed.

Lemma turn_refreshed_idem b m : settled m -> turn_refreshed b m = m.
Proof. intros Hs. by apply refresh_id. Qed.

Lemma turn_of_refreshed h a b m : phase_inv h m -> advance_turn b (turn_refreshed a m) = advance_turn b m.
Proof.
  intros Hi. rewrite !advance_turn_eq, (turn_refreshed_idem b (turn_refreshed a m)) by apply refresh_settled.
  by rewrite (turn_refreshed_time h a b m).
Qed.

(** A longer advance begins like a shorter one. *)
Lemma advance_turn_longer h a b m m' : phase_inv h m -> a <= b ->
  advance_turn a m = (Ok false, m') -> advance_turn b m = (Ok false, m').
Proof.
  intros Hi Hab. rewrite !advance_turn_eq, (turn_refreshed_time h a b m) by done. cbv zeta.
  destruct (pm_candidate _) as [c|]; [|done]. destruct (checked_add I64 _ _) as [t|]; [|done].
  destruct (Z.ltb_spec a t); [done|]. by rewrite (proj2 (Z.ltb_ge b t)) by lia.
Qed.

Lemma loop_result_longer h fuel a b m m1 r m2 : phase_inv h m -> before_now a m = false -> a <= b ->
  advance_loop fuel a m = (Ok true, m1) -> loop_result b m r m2 <-> loop_result b m1 r m2.
Proof.
  revert m. induction fuel as [|fuel IH]; intros m Hi Hb Hab E; [done|]. cbn [advance_loop] in E. unfold ebind in E.
  pose proof (turn_outcome h m a Hi Hb) as Ht. destruct (advance_turn a m) as [[[]|e] m'] eqn:Et; [| |done].
  - injection E as <-. destruct Ht as (-> & _). by rewrite !loop_result_step, (turn_of_refreshed h).
  - rewrite loop_result_step, (advance_turn_longer h a b m m' Hi Hab Et). apply IH; [apply Ht|apply Ht|done|done].
Qed.

(** C21. Polling does not matter: advancing to [a] on the way to [b] succeeds and
    ends in the same machine as advancing to [b] at once. *)
Theorem polling_irrelevant h m a b m1 m2 : reach h m -> a <= b -> advance_to a m = (Ok true, m1) ->
  advance_to b m = (Ok true, m2) <-> advance_to b m1 = (Ok true, m2).
Proof.
  intros Hi%reach_inv Hab Ea. destruct (phase_advance_inv h a m Hi) as [Hi1 Hrest]. rewrite Ea in Hi1, Hrest. cbn [fst snd] in *.
  destruct (Hrest eq_refl) as (Hn1 & _). rewrite !(advance_to_result h) by done. rewrite advance_to_eq in Ea.
  destruct (before_now a m) eqn:Hb; [done|]. destruct (advance_loop_inv h (advance_fuel a m) a m Hi Hb) as [Hiw Hw].
  destruct (advance_loop (advance_fuel a m) a m) as [[[]|e] w] eqn:El; try discriminate Ea. cbn [fst snd] in *.
  destruct (Hw eq_refl) as (Hs & _ & _). rewrite refresh_id in Ea by by apply settled_now.
  assert (settled m1 /\ pm_candidate m1 = pm_candidate w /\ (forall c t, fired c t m1 = fired c t w) /\
          forall t, m1 ⟪ pm_now_ns := t ⟫ = w ⟪ pm_now_ns := t ⟫) as (Hs1 & Hc1 & Hf1 & Ht1) by (by injection Ea as <-).
  assert (before_now b m = false) as -> by (unfold before_now in *; destruct (pm_now_ns m); lia).
  assert (before_now b m1 = false) as -> by (unfold before_now; rewrite Hn1; lia).
  assert (forall v k, settled v -> loop_result b v (Ok true) k <->
     match pm_candidate v with
     | None => k = v
     | Some c => match checked_add I64 (cand_start_ns c) (cand_dwell_ns c) with
                 | None => False
                 | Some t => if b <? t then k = v else loop_result b (fired c t v) (Ok true) k
                 end
     end) as Hfirst.
  { intros v k Hv. rewrite loop_result_step, advance_turn_eq, (turn_refreshed_idem b v Hv). cbv zeta.
    destruct (pm_candidate v) as [c|]; [|naive_solver]. destruct (checked_add I64 _ _) as [t|]; [|naive_solver].
    destruct (b <? t); naive_solver. }
  assert (forall k, loop_result b m (Ok true) k <-> loop_result b w (Ok true) k) as Hlong
    by (intros k; by eapply loop_result_longer).
  setoid_rewrite Hlong. setoid_rewrite (fun k => Hfirst w k Hs). setoid_rewrite (fun k => Hfirst m1 k Hs1). rewrite Hc1.
  destruct (pm_candidate w) as [c|]; [|naive_solver]. destruct (checked_add I64 _ _) as [t|]; [|naive_solver].
  rewrite Hf1. destruct (b <? t); naive_solver.
Qed.

(** ** A run *)

Definition all_families : FamilyFlags := mkFamilyFlags true true true true true.
Definition strong_evidence (t : Z) : MechanicsEvidence := mkMechanicsEvidence t DirUp all_families 100000000 90000000 0 true true 0.
Definition observed : PhaseMachine := Eval vm_compute in snd (phase_observe (strong_evidence 5) phase_new).
Definition confirmed : PhaseMachine := Eval vm_compute in snd (phase_observe (strong_evidence 50000005) observed).
Definition ignited : PhaseMachine := Eval vm_compute in snd (advance_to 100000005 confirmed).

Lemma confirmed_reach : reach [strong_evidence 50000005; strong_evidence 5] confirmed.
Proof.
  apply (reach_observe _ observed); [|computed]. apply (reach_observe _ phase_new); [apply reach_new|computed].
Qed.

Example ignition : pm_phase ignited = PhIgnition /\ pm_phase (snd (advance_to 350000005 confirmed)) = PhCascade.
Proof. split; computed. Qed.

Lemma phase_calls_end_witness :
  fst (advance_to 350000005 confirmed) = Ok true /\ fst (advance_to 350000005 confirmed) <> Ok false.
Proof. split; [computed|]. apply (phase_calls_end _ _ 350000005 (strong_evidence 0) confirmed_reach). Defined.

(** The call changes the phase twice, from normal over ignition to cascade. *)
Lemma phase_change_dwells_witness :
  exists m', advance_to 350000005 confirmed = (Ok true, m') /\ pm_phase confirmed <> pm_phase m' /\
    dwelt [strong_evidence 50000005; strong_evidence 5] 350000005 (pm_now_ns confirmed) (pm_phase confirmed) (pm_phase m') /\
    exists p, dwelt [strong_evidence 50000005; strong_evidence 5] 50000006 (pm_now_ns confirmed) (pm_phase confirmed) p /\
      pm_phase (snd (phase_observe (strong_evidence 50000006) confirmed)) = p.
Proof.
  destruct (phase_change_dwells _ confirmed confirmed_reach) as (Ha & Ho & _).
  exists (snd (advance_to 350000005 confirmed)).
  assert (E : advance_to 350000005 confirmed = (Ok true, snd (advance_to 350000005 confirmed))) by computed.
  split; [exact E|]. split; [vm_compute; discriminate|]. split; [exact (proj1 (Ha _ _ _ E))|].
  destruct (Ho (strong_evidence 50000006) (snd (phase_observe (strong_evidence 50000006) confirmed))) as (p & Hd & Hp & _).
  - computed.
  - exists p. split; [exact Hd|exact Hp].
Defined.

Lemma polling_irrelevant_witness :
  advance_to 350000005 confirmed = (Ok true, snd (advance_to 350000005 ignited)) /\ pm_phase ignited = PhIgnition.
Proof.
  split; [|reflexivity]. apply (polling_irrelevant _ confirmed 100000005 350000005 ignited _ confirmed_reach);
    [lia|computed|computed].
Defined.
