(* ===== verification/PulseWindow.v ===== *)
(** * Event pulse: availability-time windows ([crates/event-pulse/src/window.rs])

    The bounded windows that the features are computed over, the bank that
    holds one window per source, horizon and kind, and the test that coverage
    intervals leave no gap over a window. *)

From stdpp Require Import base tactics numbers strings option list sorting gmap fin_maps.
From Stdlib Require Import ZArith Lia Sorted.
From S2P Require Import Prelude.

Local Open Scope Z_scope.

(** ** Constants and data *)

Definition PER_WINDOW_CAPACITY : Z := 4096.
Definition PROCESSOR_RECORD_CAPACITY : Z := 65536.
Definition MAX_WINDOW_SOURCES : Z := 32.
Definition SUPPORTED_HORIZONS_NS : list Z :=
  [100000000; 250000000; 1000000000; 5000000000; 15000000000; 30000000000; 60000000000].
Definition MAX_WINDOW_TOPOLOGY : Z := MAX_WINDOW_SOURCES * Z.of_nat (length SUPPORTED_HORIZONS_NS) * 6.

Inductive WindowError :=
  | UnsupportedHorizon | AvailabilityRegression | WindowTimeOverflow | QueueDrop | InvalidTopology
  | UnconfiguredKey | EpochNotGreater.

#[export] Instance WindowError_eq_dec : EqDecision WindowError.
Proof. solve_decision. Defined.

Definition supported (horizon_ns : Z) : bool := existsb (Z.eqb horizon_ns) SUPPORTED_HORIZONS_NS.

Record Timed (T : Type) := mkTimed { timed_at : Z; timed_value : T }.
Arguments mkTimed {T}.
Arguments timed_at {T}.
Arguments timed_value {T}.

Record CoverageInterval := mkCoverage {
  covered_from_ns : Z;
  covered_through_ns : Z;
  coverage_available_at_ns : Z
}.

(** ** Coverage *)

Fixpoint coverage_loop (through decision_time_ns : Z) (intervals : list CoverageInterval) : bool :=
  match intervals with
  | [] => false
  | interval :: rest =>
      if decision_time_ns <? coverage_available_at_ns interval then coverage_loop through decision_time_ns rest else
      if (covered_through_ns interval <? covered_from_ns interval)
         || (coverage_available_at_ns interval <? covered_through_ns interval) then false else
      if covered_through_ns interval <? through then coverage_loop through decision_time_ns rest else
      if through <? covered_from_ns interval then false else
      let through := Z.max through (covered_through_ns interval) in
      if decision_time_ns <=? through then true else coverage_loop through decision_time_ns rest
  end.

Definition has_exact_coverage (intervals : list CoverageInterval) (decision_time_ns horizon_ns : Z)
    : result bool WindowError :=
  if negb (supported horizon_ns) then Err UnsupportedHorizon else
  let? start := ok_or (checked_sub I64 decision_time_ns horizon_ns) WindowTimeOverflow in
  Ok (coverage_loop start decision_time_ns intervals).

(** ** One window *)

Record FixedWindow (T : Type) := mkWindow {
  fw_horizon_ns : Z;
  fw_epoch_first_available_ns : Z;
  fw_records : list (Timed T);
  fw_invalid : bool
}.
Arguments mkWindow {T}.
Arguments fw_horizon_ns {T}.
Arguments fw_epoch_first_available_ns {T}.
Arguments fw_records {T}.
Arguments fw_invalid {T}.

#[export] Instance eta_FixedWindow {T} : Eta (FixedWindow T) := fun w =>
  mkWindow (fw_horizon_ns w) (fw_epoch_first_available_ns w) (fw_records w) (fw_invalid w).

Section Window.
Context {T : Type}.
Implicit Types (w : FixedWindow T) (r : Timed T).

Definition window_new (horizon_ns epoch_first_available_ns : Z) : result (FixedWindow T) WindowError :=
  if supported horizon_ns then Ok (mkWindow horizon_ns epoch_first_available_ns [] false) else Err UnsupportedHorizon.

Definition fw_len w : Z := Z.of_nat (length (fw_records w)).

Definition window_push (available_at_ns : Z) (value : T) : Eff (FixedWindow T) WindowError unit :=
  let! w := eget in
  if fw_invalid w then ethrow QueueDrop else
  if match last (fw_records w) with Some r => available_at_ns <? timed_at r | None => false end
  then ethrow AvailabilityRegression else
  if fw_len w =? PER_WINDOW_CAPACITY
  then eput (w ⟪ fw_records := [] ⟫ ⟪ fw_invalid := true ⟫) !; ethrow QueueDrop
  else eput (w ⟪ fw_records := fw_records w ++ [mkTimed available_at_ns value] ⟫).

(** [while front().is_some_and(..) { pop_front(); removed += 1 }]. *)
Fixpoint pop_older (boundary : Z) (l : list (Timed T)) : Z * list (Timed T) :=
  match l with
  | r :: rest => if timed_at r <? boundary then let '(n, l) := pop_older boundary rest in (n + 1, l) else (0, l)
  | [] => (0, [])
  end.

Definition window_evict (decision_time_ns : Z) : Eff (FixedWindow T) WindowError Z :=
  let! w := eget in
  let! boundary := elift (ok_or (checked_sub I64 decision_time_ns (fw_horizon_ns w)) WindowTimeOverflow) in
  let '(removed, rest) := pop_older boundary (fw_records w) in
  eput (w ⟪ fw_records := rest ⟫) !; eret removed.

Definition is_complete w (decision_time_ns : Z) : result bool WindowError :=
  let? boundary := ok_or (checked_sub I64 decision_time_ns (fw_horizon_ns w)) WindowTimeOverflow in
  Ok (negb (fw_invalid w) && (fw_epoch_first_available_ns w <=? boundary)).

Definition is_fresh w (decision_time_ns limit_ns : Z) : result bool WindowError :=
  let? boundary := ok_or (checked_sub I64 decision_time_ns limit_ns) WindowTimeOverflow in
  Ok (negb (fw_invalid w)
      && match last (fw_records w) with Some r => boundary <=? timed_at r | None => false end).

Definition clear_for_new_epoch (epoch_first_available_ns : Z) w : FixedWindow T :=
  mkWindow (fw_horizon_ns w) epoch_first_available_ns [] false.

(** [window.records.clear(); window.invalid = true]. *)
Definition spoil w : FixedWindow T := w ⟪ fw_records := [] ⟫ ⟪ fw_invalid := true ⟫.

End Window.

(** ** Keys *)

Definition WindowSource := string.
#[export] Typeclasses Transparent WindowSource.

Definition source_new (value : string) : result WindowSource WindowError :=
  if (String.length value =? 0)%nat || (128 <? Z.of_nat (String.length value))
     || negb (forallb (fun c => Ascii.N_of_ascii c <? 128)%N (String.list_ascii_of_string value))
  then Err InvalidTopology else Ok value.

Inductive WindowKind := KTrade | KQuote | KBook | KOpenInterest | KLiquidation | KConfirmationPrice.

#[export] Instance WindowKind_eq_dec : EqDecision WindowKind.
Proof. solve_decision. Defined.

Definition kind_code (k : WindowKind) : nat :=
  match k with KTrade => 0 | KQuote => 1 | KBook => 2 | KOpenInterest => 3 | KLiquidation => 4 | KConfirmationPrice => 5 end.

Definition kind_of (n : nat) : option WindowKind :=
  match n with
  | 0 => Some KTrade | 1 => Some KQuote | 2 => Some KBook | 3 => Some KOpenInterest | 4 => Some KLiquidation
  | 5 => Some KConfirmationPrice | _ => None
  end%nat.

#[export] Instance WindowKind_countable : Countable WindowKind.
Proof. refine (inj_countable kind_code kind_of _). by intros []. Defined.

Record WindowKey := mkWindowKey { key_source : WindowSource; key_horizon_ns : Z; key_kind : WindowKind }.

#[export] Instance WindowKey_eq_dec : EqDecision WindowKey.
Proof. solve_decision. Defined.

#[export] Program Instance WindowKey_countable : Countable WindowKey :=
  inj_countable' (fun k => (key_source k, key_horizon_ns k, key_kind k)) (fun '(s, h, k) => mkWindowKey s h k) _.
Next Obligation. by intros []. Qed.

Definition window_key_new (source : WindowSource) (horizon_ns : Z) (kind : WindowKind) : result WindowKey WindowError :=
  if supported horizon_ns then Ok (mkWindowKey source horizon_ns kind) else Err UnsupportedHorizon.

Record WindowSpec := mkWindowSpec {
  spec_key : WindowKey;
  spec_epoch_generation : Z;
  spec_epoch_first_available_ns : Z
}.

(** ** The bank *)

Record WindowBank (T : Type) := mkBank {
  bank_windows : gmap WindowKey (FixedWindow T);
  bank_source_generations : gmap WindowSource Z;
  bank_total_records : Z
}.
Arguments mkBank {T}.
Arguments bank_windows {T}.
Arguments bank_source_generations {T}.
Arguments bank_total_records {T}.

#[export] Instance eta_WindowBank {T} : Eta (WindowBank T) := fun b =>
  mkBank (bank_windows b) (bank_source_generations b) (bank_total_records b).

Section Bank.
Context {T : Type}.
Implicit Types (b : WindowBank T) (ws : gmap WindowKey (FixedWindow T)).

Abbreviation Bank := (Eff (WindowBank T) WindowError).

Definition size_Z {K V} `{Countable K} (m : gmap K V) : Z := Z.of_nat (size m).

Definition add_spec (acc : gmap WindowKey (FixedWindow T) * gmap WindowSource Z) (spec : WindowSpec)
    : result (gmap WindowKey (FixedWindow T) * gmap WindowSource Z) WindowError :=
  let '(windows, generations) := acc in
  let source := key_source (spec_key spec) in
  if size_Z windows =? MAX_WINDOW_TOPOLOGY then Err InvalidTopology else
  if match generations !! source with Some g => negb (g =? spec_epoch_generation spec) | None => false end
  then Err InvalidTopology else
  let generations := <[source := spec_epoch_generation spec]> generations in
  if MAX_WINDOW_SOURCES <? size_Z generations then Err InvalidTopology else
  let? w := window_new (key_horizon_ns (spec_key spec)) (spec_epoch_first_available_ns spec) in
  if windows !! spec_key spec is Some _ then Err InvalidTopology else Ok (<[spec_key spec := w]> windows, generations).

Definition bank_new (specs : list WindowSpec) : result (WindowBank T) WindowError :=
  let? acc := try_fold add_spec (∅, ∅) specs in
  let '(windows, generations) := acc in
  if size_Z windows =? 0 then Err InvalidTopology else Ok (mkBank windows generations 0).

(** The sum of the lengths of the windows whose key [p] selects. *)
Definition records_of (p : WindowKey -> bool) ws : Z :=
  map_fold (fun k w acc => if p k then fw_len w + acc else acc) 0 ws.

Definition of_source (source : WindowSource) (k : WindowKey) : bool := bool_decide (key_source k = source).

Definition update_source (source : WindowSource) (f : FixedWindow T -> FixedWindow T) ws :=
  map_imap (fun k w => Some (if of_source source k then f w else w)) ws.

Definition invalidate_source (source : WindowSource) b : WindowBank T :=
  mkBank (update_source source spoil (bank_windows b)) (bank_source_generations b)
    (wrap U64 (bank_total_records b - records_of (of_source source) (bank_windows b))).

Definition bank_push (key : WindowKey) (at_ns : Z) (value : T) : Bank unit := fun b =>
  match bank_windows b !! key with
  | None => (Err UnconfiguredKey, b)
  | Some w =>
      if bank_total_records b =? PROCESSOR_RECORD_CAPACITY
      then (Err QueueDrop, invalidate_source (key_source key) b) else
      let source_records_before := records_of (of_source (key_source key)) (bank_windows b) in
      let '(result, w') := window_push at_ns value w in
      let b' := b ⟪ bank_windows := <[key := w']> (bank_windows b) ⟫ in
      (result,
       match result with
       | Ok _ => b' ⟪ bank_total_records := wrap U64 (bank_total_records b + 1) ⟫
       | Err QueueDrop =>
           (invalidate_source (key_source key) b')
             ⟪ bank_total_records := wrap U64 (bank_total_records b - source_records_before) ⟫
       | Err _ => b'
       end)
  end.

Definition bank_evict (key : WindowKey) (decision_time_ns : Z) : Bank unit := fun b =>
  match bank_windows b !! key with
  | None => (Err UnconfiguredKey, b)
  | Some w =>
      match window_evict decision_time_ns w with
      | (Ok removed, w') =>
          (Ok tt, mkBank (<[key := w']> (bank_windows b)) (bank_source_generations b)
                    (wrap U64 (bank_total_records b - removed)))
      | (Err e, w') => (Err e, b ⟪ bank_windows := <[key := w']> (bank_windows b) ⟫)
      end
  end.

Definition invalidate_configured_source (source : WindowSource) : Bank unit := fun b =>
  match bank_source_generations b !! source with
  | None => (Err UnconfiguredKey, b)
  | Some _ => (Ok tt, invalidate_source source b)
  end.

(** The common body of [invalidate_configured_key] and [recover_configured_key]. *)
Definition replace_window (key : WindowKey) (f : FixedWindow T -> FixedWindow T) : Bank unit := fun b =>
  match bank_windows b !! key with
  | None => (Err UnconfiguredKey, b)
  | Some w =>
      (Ok tt, mkBank (<[key := f w]> (bank_windows b)) (bank_source_generations b)
                (wrap U64 (bank_total_records b - fw_len w)))
  end.

Definition invalidate_configured_key (key : WindowKey) : Bank unit := replace_window key spoil.

Definition recover_configured_key (key : WindowKey) (epoch_first_available_ns : Z) : Bank unit :=
  replace_window key (clear_for_new_epoch epoch_first_available_ns).

Definition advance_source_epoch (source : WindowSource) (generation epoch_first_available_ns : Z) : Bank unit := fun b =>
  match bank_source_generations b !! source with
  | None => (Err UnconfiguredKey, b)
  | Some current =>
      if generation <=? current then (Err EpochNotGreater, b) else
      (Ok tt,
       mkBank (update_source source (clear_for_new_epoch epoch_first_available_ns) (bank_windows b))
         (<[source := generation]> (bank_source_generations b))
         (wrap U64 (bank_total_records b - records_of (of_source source) (bank_windows b))))
  end.

(** The calls of a bank, and a run of them with the result of each. *)
Inductive bank_op :=
  | BPush (key : WindowKey) (at_ns : Z) (value : T)
  | BEvict (key : WindowKey) (decision_time_ns : Z)
  | BInvalidateSource (source : WindowSource)
  | BInvalidateKey (key : WindowKey)
  | BRecoverKey (key : WindowKey) (epoch_first_available_ns : Z)
  | BAdvanceEpoch (source : WindowSource) (generation epoch_first_available_ns : Z).

Definition bank_call (op : bank_op) : Bank unit :=
  match op with
  | BPush key at_ns value => bank_push key at_ns value
  | BEvict key decision => bank_evict key decision
  | BInvalidateSource source => invalidate_configured_source source
  | BInvalidateKey key => invalidate_configured_key key
  | BRecoverKey key first => recover_configured_key key first
  | BAdvanceEpoch source generation first => advance_source_epoch source generation first
  end.

Fixpoint bank_run (ops : list bank_op) b : list (bank_op * result unit WindowError) * WindowBank T :=
  match ops with
  | [] => ([], b)
  | op :: rest =>
      let '(r, b) := bank_call op b in
      let '(trace, b) := bank_run rest b in
      ((op, r) :: trace, b)
  end.

(** ** What a window promises, from the calls and their results alone

    [None] while the window may not be used; otherwise the records accepted
    since its epoch began, less those that an eviction found too old. *)
Definition promised (key : WindowKey) (held : option (list (Timed T))) (call : bank_op * result unit WindowError)
    : option (list (Timed T)) :=
  match call with
  | (BPush k at_ns value, Ok _) => if bool_decide (k = key) then (fun l => l ++ [mkTimed at_ns value]) <$> held else held
  | (BPush k _ _, Err QueueDrop) => if of_source (key_source k) key then None else held
  | (BEvict k decision, Ok _) =>
      if bool_decide (k = key)
      then filter (fun r => decision - key_horizon_ns key ≤ timed_at r) <$> held else held
  | (BInvalidateSource source, Ok _) => if of_source source key then None else held
  | (BInvalidateKey k, Ok _) => if bool_decide (k = key) then None else held
  | (BRecoverKey k _, Ok _) => if bool_decide (k = key) then Some [] else held
  | (BAdvanceEpoch source _ _, Ok _) => if of_source source key then Some [] else held
  | _ => held
  end.

Definition usable (w : FixedWindow T) : option (list (Timed T)) := if fw_invalid w then None else Some (fw_records w).

Definition held (key : WindowKey) (trace : list (bank_op * result unit WindowError)) := foldl (promised key) (Some []) trace.

End Bank.
Arguments bank_op : clear implicits.

(** ** Coverage is exact

    Over well-formed intervals in the order they begin, the test answers
    whether every nanosecond step of the window lies inside one interval known
    at the decision. *)

Definition well_formed (i : CoverageInterval) : Prop :=
  covered_from_ns i <= covered_through_ns i <= coverage_available_at_ns i.

Definition begins_before (i j : CoverageInterval) : Prop := covered_from_ns i <= covered_from_ns j.

Definition covers (decision : Z) (intervals : list CoverageInterval) (t : Z) : Prop :=
  exists i, i ∈ intervals /\ coverage_available_at_ns i <= decision /\ covered_from_ns i <= t < covered_through_ns i.

Definition all_covered (intervals : list CoverageInterval) (decision start : Z) : Prop :=
  forall t, start <= t < decision -> covers decision intervals t.

Lemma covers_cons decision i l t :
  covers decision (i :: l) t <->
  coverage_available_at_ns i <= decision /\ covered_from_ns i <= t < covered_through_ns i \/ covers decision l t.
Proof.
  unfold covers. split.
  - intros (j & [->|Hj]%elem_of_cons & Ha & Ht); [by left|right; by exists j].
  - intros [[Ha Ht]|(j & Hj & Ht)]; [exists i; split; [left|done]|exists j; split; [by right|done]].
Qed.

Lemma coverage_sound intervals decision through :
  coverage_loop through decision intervals = true -> all_covered intervals decision through.
Proof.
  revert through. induction intervals as [|i l IH]; intros through; cbn [coverage_loop]; [done|].
  intros H t Ht. apply covers_cons. repeat case_match; try discriminate H.
  - right. by apply (IH through).
  - right. by apply (IH through).
  - left. lia.
  - destruct (Z.lt_ge_cases t (covered_through_ns i)); [left; lia|right].
    apply (IH (Z.max through (covered_through_ns i))); [done|lia].
Qed.

Lemma coverage_complete intervals decision through : through < decision ->
  Forall well_formed intervals -> StronglySorted begins_before intervals ->
  all_covered intervals decision through -> coverage_loop through decision intervals = true.
Proof.
  intros Hlt Hw. revert through Hlt. induction Hw as [|i l Hi Hl IH]; intros through Hlt Hs Hc.
  { destruct (Hc through) as (j & Hj & _); [lia|]. by apply elem_of_nil in Hj. }
  apply StronglySorted_inv in Hs as [Hs Hb]. unfold well_formed in Hi. cbn [coverage_loop].
  assert (Hrest : forall through', through' < decision -> through <= through' ->
    (coverage_available_at_ns i <= decision -> covered_through_ns i <= through') ->
    coverage_loop through' decision l = true).
  { intros th' Hlt' Hle Hpast. apply IH; [done..|]. intros t Ht. destruct (Hc t) as (j & Hj & Ha & Hj'); [lia|].
    apply elem_of_cons in Hj as [->|Hj]; [specialize (Hpast Ha); lia|]. by exists j. }
  repeat case_match; try done.
  - apply Hrest; lia.
  - lia.
  - apply Hrest; lia.
  - destruct (Hc through) as (j & Hj & Ha & Hj'); [lia|]. apply elem_of_cons in Hj as [->|Hj]; [lia|].
    rewrite Forall_forall in Hb. specialize (Hb j Hj). unfold begins_before in Hb. lia.
  - apply Hrest; lia.
Qed.

Lemma supported_in horizon : supported horizon = true <-> horizon ∈ SUPPORTED_HORIZONS_NS.
Proof.
  unfold supported. rewrite existsb_exists. setoid_rewrite Z.eqb_eq. rewrite list_elem_of_In.
  split; [by intros (x & Hx & ->)|by exists horizon].
Qed.

Lemma supported_pos horizon : horizon ∈ SUPPORTED_HORIZONS_NS -> 0 < horizon.
Proof. apply Forall_forall. by repeat constructor. Qed.

(** For well-formed intervals in the order they begin, [has_exact_coverage]
    answers [true] exactly when every step of the window of a supported horizon
    before the decision lies in one interval that was available by then; it
    fails only for an unsupported horizon or a window that begins before the
    earliest representable time. *)
Theorem coverage_exact intervals decision horizon :
  Forall well_formed intervals -> StronglySorted begins_before intervals ->
  match has_exact_coverage intervals decision horizon with
  | Ok complete =>
      horizon ∈ SUPPORTED_HORIZONS_NS /\ (complete = true <-> all_covered intervals decision (decision - horizon))
  | Err UnsupportedHorizon => horizon ∉ SUPPORTED_HORIZONS_NS
  | Err WindowTimeOverflow => ~ fits I64 (decision - horizon)
  | Err _ => False
  end.
Proof.
  intros Hw Hs. unfold has_exact_coverage. destruct (supported horizon) eqn:Eh; cbn [negb].
  - apply supported_in in Eh. unfold checked_sub, to_ty. destruct (in_ty I64 (decision - horizon)) eqn:Ef; cbn.
    + split; [done|]. split; [apply coverage_sound|]. apply coverage_complete; [|done..].
      pose proof (supported_pos _ Eh). lia.
    + by apply in_ty_false.
  - rewrite <- supported_in. by rewrite Eh.
Qed.

Lemma coverage_exact_witness :
  let l := [mkCoverage 0 600000000 600000000; mkCoverage 500000000 1000000000 1000000000] in
  has_exact_coverage l 1000000000 1000000000 = Ok true /\
  all_covered l 1000000000 (1000000000 - 1000000000).
Proof.
  assert (H := coverage_exact [mkCoverage 0 600000000 600000000; mkCoverage 500000000 1000000000 1000000000]
    1000000000 1000000000).
  split; [reflexivity|].
  change (has_exact_coverage _ _ _) with (Ok true : result bool WindowError) in H. destruct H as [_ H].
  - repeat constructor; cbn; lia.
  - apply SSorted_cons; [apply SSorted_cons; [apply SSorted_nil|done]|].
    apply Forall_singleton. unfold begins_before. cbn. lia.
  - by apply H.
Defined.

(** ** Counting the records of a bank *)

Section BankFacts.
Context {T : Type}.
Implicit Types (b : WindowBank T) (ws : gmap WindowKey (FixedWindow T)) (w : FixedWindow T).

Abbreviation all := (fun _ : WindowKey => true).

Lemma fw_len_nonneg w : 0 <= fw_len w.
Proof. unfold fw_len. lia. Qed.

Lemma records_of_new p ws k w : ws !! k = None ->
  records_of p (<[k := w]> ws) = records_of p ws + (if p k then fw_len w else 0).
Proof.
  intros Hk. unfold records_of. rewrite map_fold_insert_L; [destruct (p k); lia| |done].
  intros. destruct (p j1), (p j2); lia.
Qed.

Lemma records_of_insert p ws k w w' : ws !! k = Some w ->
  records_of p (<[k := w']> ws) = records_of p ws + (if p k then fw_len w' - fw_len w else 0).
Proof.
  intros Hk. rewrite <- (insert_delete_id ws k w Hk) at 2. rewrite <- insert_delete_eq.
  rewrite !records_of_new by apply lookup_delete_eq. destruct (p k); lia.
Qed.

Lemma records_of_nonneg p ws : 0 <= records_of p ws.
Proof.
  induction ws as [|k w ws Hk IH] using map_ind; [done|]. rewrite records_of_new by done.
  pose proof (fw_len_nonneg w). destruct (p k); lia.
Qed.

Lemma records_of_le p ws : records_of p ws <= records_of all ws.
Proof.
  induction ws as [|k w ws Hk IH] using map_ind; [done|]. rewrite !records_of_new by done.
  pose proof (fw_len_nonneg w). destruct (p k); lia.
Qed.

Lemma window_le_records p ws k w : ws !! k = Some w -> p k = true -> fw_len w <= records_of p ws.
Proof.
  intros Hk Hp. rewrite <- (insert_delete_id ws k w Hk), records_of_new, Hp by apply lookup_delete_eq.
  pose proof (records_of_nonneg p (delete k ws)). lia.
Qed.

Lemma lookup_update_source source f ws k :
  update_source source f ws !! k = (fun w => if of_source source k then f w else w) <$> ws !! k.
Proof. unfold update_source. rewrite map_lookup_imap. by destruct (ws !! k). Qed.

(** Emptying the windows of a source takes away exactly the source's records. *)
Lemma records_of_update source f ws : (forall w, fw_records (f w) = []) ->
  records_of all (update_source source f ws) = records_of all ws - records_of (of_source source) ws.
Proof.
  intros Hf. induction ws as [|k w ws Hk IH] using map_ind; [done|]. unfold update_source.
  erewrite map_imap_insert_Some by done. change (map_imap _ ws) with (update_source source f ws).
  rewrite !records_of_new by (done || by rewrite lookup_update_source, Hk). rewrite IH.
  destruct (of_source source k); [|lia]. unfold fw_len at 1. rewrite Hf. cbn. lia.
Qed.

(** ** The invariant *)

Definition in_order (l : list (Timed T)) : Prop := StronglySorted (fun r s => timed_at r <= timed_at s) l.

Record window_ok (k : WindowKey) w : Prop := {
  wo_horizon : fw_horizon_ns w = key_horizon_ns k;
  wo_order : in_order (fw_records w);
  wo_length : fw_len w <= PER_WINDOW_CAPACITY;
  wo_invalid : fw_invalid w = true -> fw_records w = []
}.

Record bank_ok (h : list (bank_op T * result unit WindowError)) b : Prop := {
  bo_windows : forall k w, bank_windows b !! k = Some w -> window_ok k w /\ usable w = held k h;
  bo_total : bank_total_records b = records_of all (bank_windows b);
  bo_bound : bank_total_records b <= PROCESSOR_RECORD_CAPACITY
}.

Lemma wrap_total b p : bank_total_records b = records_of all (bank_windows b) ->
  bank_total_records b <= PROCESSOR_RECORD_CAPACITY ->
  wrap U64 (bank_total_records b - records_of p (bank_windows b)) =
  bank_total_records b - records_of p (bank_windows b).
Proof.
  intros Ht Hb. pose proof (records_of_le p (bank_windows b)). pose proof (records_of_nonneg p (bank_windows b)).
  apply wrap_fits. unfold PROCESSOR_RECORD_CAPACITY in *. solve_fits.
Qed.

Lemma filter_keeps_all (P : Timed T -> Prop) `{!forall r, Decision (P r)} l : Forall P l -> filter P l = l.
Proof. induction 1; [done|]. rewrite filter_cons_True by done. by f_equal. Qed.

Lemma pop_older_filter boundary l : in_order l ->
  pop_older boundary l =
  (Z.of_nat (length l) - Z.of_nat (length (filter (fun r => boundary ≤ timed_at r) l)),
   filter (fun r => boundary ≤ timed_at r) l).
Proof.
  induction 1 as [|r l Hs IH Hr]; [done|]. cbn [pop_older]. destruct (timed_at r <? boundary) eqn:E.
  - rewrite IH, filter_cons_False by lia. cbn [length]. f_equal. lia.
  - rewrite filter_cons_True by lia. rewrite filter_keeps_all.
    { cbn [length]. f_equal. lia. }
    rewrite Forall_forall in Hr. apply Forall_forall. intros x Hx. specialize (Hr x Hx). cbn in Hr. lia.
Qed.

Lemma in_order_filter P `{!forall r, Decision (P r)} l : in_order l -> in_order (filter P l).
Proof.
  induction 1 as [|r l Hs IH Hr]; [constructor|]. destruct (decide (P r)); [|by rewrite filter_cons_False].
  rewrite filter_cons_True by done. constructor; [done|].
  rewrite Forall_forall in *. intros x [_ Hx]%list_elem_of_filter. by apply Hr.
Qed.

Lemma in_order_snoc l at_ns (value : T) : in_order l ->
  match last l with Some r => at_ns <? timed_at r | None => false end = false -> in_order (l ++ [mkTimed at_ns value]).
Proof.
  intros Hl Hlast. apply StronglySorted_app. split_and! ; [|done|by repeat constructor].
  intros r s Hr ->%list_elem_of_singleton. cbn. destruct (last l) as [x|] eqn:El.
  2: { apply last_None in El. subst. by apply elem_of_nil in Hr. }
  apply last_Some in El as [l' ->]. apply elem_of_app in Hr as [Hr|Hr]; [|apply list_elem_of_singleton in Hr as ->; lia].
  apply StronglySorted_app_1_elem_of with (x1 := r) (x2 := x) in Hl; [lia|done|by left].
Qed.

Lemma spoil_ok k w : window_ok k w -> window_ok k (spoil w).
Proof. intros []. split; cbn; [done|constructor| |done]. unfold fw_len, PER_WINDOW_CAPACITY. cbn. lia. Qed.

Lemma clear_ok first k w : window_ok k w -> window_ok k (clear_for_new_epoch first w).
Proof. intros []. split; cbn; [done|constructor| |done]. unfold fw_len, PER_WINDOW_CAPACITY. cbn. lia. Qed.

(** ** Every call keeps the invariant *)

Lemma held_snoc k h (call : bank_op T * result unit WindowError) : held k (h ++ [call]) = promised k (held k h) call.
Proof. apply foldl_snoc. Qed.

Lemma same_ok h b call : bank_ok h b ->
  (forall k w, bank_windows b !! k = Some w -> promised k (held k h) call = held k h) -> bank_ok (h ++ [call]) b.
Proof.
  intros [Hw Ht Hb] Hp. split; [|done..]. intros k w Hk. rewrite held_snoc, (Hp k w Hk). by apply Hw.
Qed.

Lemma update_ok h b call source f g : bank_ok h b ->
  (forall k w, window_ok k w -> window_ok k (f w)) -> (forall w, fw_records (f w) = []) ->
  (forall k w, bank_windows b !! k = Some w ->
     usable (if of_source source k then f w else w) = promised k (held k h) call) ->
  bank_ok (h ++ [call])
    (mkBank (update_source source f (bank_windows b)) g
       (wrap U64 (bank_total_records b - records_of (of_source source) (bank_windows b)))).
Proof.
  intros [Hw Ht Hb] Hok Hf Hp. pose proof (records_of_nonneg (of_source source) (bank_windows b)).
  rewrite wrap_total by done. split; cbn [bank_windows bank_total_records].
  - intros k w'. rewrite lookup_update_source, held_snoc. intros (w & Hk & ->)%fmap_Some.
    destruct (Hw k w Hk) as [Hw' Hu]. rewrite <- (Hp k w Hk). split; [|done].
    destruct (of_source source k); [by apply Hok|done].
  - rewrite records_of_update by done. lia.
  - lia.
Qed.

Lemma replace_ok h b call key w w' g total : bank_ok h b -> bank_windows b !! key = Some w ->
  window_ok key w' -> usable w' = promised key (held key h) call ->
  (forall k, k <> key -> promised k (held k h) call = held k h) ->
  total = bank_total_records b + fw_len w' - fw_len w -> total <= PROCESSOR_RECORD_CAPACITY ->
  bank_ok (h ++ [call]) (mkBank (<[key := w']> (bank_windows b)) g total).
Proof.
  intros [Hw Ht Hb] Hk Hok Hu Hp -> Hle. split; cbn [bank_windows bank_total_records].
  - intros k x. rewrite held_snoc. destruct (decide (k = key)) as [->|Hne].
    + rewrite lookup_insert_eq. by intros [= <-].
    + rewrite lookup_insert_ne by done. rewrite Hp by done. apply Hw.
  - rewrite (records_of_insert _ _ _ _ _ Hk). lia.
  - done.
Qed.

Lemma update_source_insert source (f : FixedWindow T -> FixedWindow T) ws key w w' : ws !! key = Some w ->
  of_source source key = true -> f w' = f w ->
  update_source source f (<[key := w']> ws) = update_source source f ws.
Proof.
  intros Hk Hs Hf. apply map_eq. intros k. rewrite !lookup_update_source.
  destruct (decide (k = key)) as [->|Hne]; [|by rewrite lookup_insert_ne].
  rewrite lookup_insert_eq, Hk. cbn. by rewrite Hs, Hf.
Qed.

Lemma of_source_self key : of_source (key_source key) key = true.
Proof. unfold of_source. by apply bool_decide_eq_true. Qed.

Lemma window_push_cases at_ns (value : T) key w : window_ok key w ->
  match window_push at_ns value w with
  | (Ok _, w') =>
      window_ok key w' /\ fw_len w' = fw_len w + 1 /\
      exists l, usable w = Some l /\ usable w' = Some (l ++ [mkTimed at_ns value])
  | (Err QueueDrop, w') => spoil w' = spoil w
  | (Err _, w') => w' = w
  end.
Proof.
  intros [Hh Ho Hl Hi]. unfold window_push. eff_unfold. cbn. destruct (fw_invalid w) eqn:Ei; [done|].
  destruct (match last _ with Some _ => _ | None => _ end) eqn:El; [done|].
  destruct (fw_len w =? PER_WINDOW_CAPACITY) eqn:Ec; [done|]. cbn. split_and!.
  - split; cbn; [done|by apply in_order_snoc| |congruence]. revert Ec Hl. unfold fw_len. cbn.
    rewrite length_app. cbn. lia.
  - unfold fw_len. cbn. rewrite length_app. cbn. lia.
  - exists (fw_records w). unfold usable. cbn. by rewrite Ei.
Qed.

Lemma bank_push_ok h b key at_ns value : bank_ok h b ->
  bank_ok (h ++ [(BPush key at_ns value, fst (bank_push key at_ns value b))]) (snd (bank_push key at_ns value b)).
Proof.
  intros Hb. pose proof Hb as [Hw Ht Hle]. unfold bank_push. destruct (bank_windows b !! key) as [w|] eqn:Ek.
  2: { by apply same_ok. }
  assert (Hdrop : bank_ok (h ++ [(BPush key at_ns value, Err QueueDrop)]) (invalidate_source (key_source key) b)).
  { apply update_ok; [done|apply spoil_ok|done|]. intros k x Hk. cbn [promised].
    destruct (of_source (key_source key) k); [done|]. by apply Hw. }
  destruct (bank_total_records b =? PROCESSOR_RECORD_CAPACITY) eqn:Ec; [done|].
  destruct (Hw key w Ek) as [Hok Hu]. pose proof (window_push_cases at_ns value key w Hok) as Hp.
  destruct (window_push at_ns value w) as [[[]|e] w'].
  - destruct Hp as (Hok' & Hlen & l & Hl & Hl'). cbn [fst snd]. pose proof (records_of_nonneg all (bank_windows b)).
    apply (replace_ok _ _ _ _ w); [done..| | | |]; cbn [promised].
    + rewrite bool_decide_eq_true_2 by done. by rewrite <- Hu, Hl, Hl'.
    + intros k Hne. by rewrite bool_decide_eq_false_2.
    + rewrite wrap_fits; [lia|]. unfold PROCESSOR_RECORD_CAPACITY in *. solve_fits.
    + rewrite wrap_fits; [lia|]. unfold PROCESSOR_RECORD_CAPACITY in *. solve_fits.
  - destruct e; cbn [fst snd]; try (subst w'; rewrite insert_id by done; destruct b; by apply same_ok).
    unfold invalidate_source in *. cbn. by rewrite (update_source_insert _ _ _ _ w) by (done || apply of_source_self).
Qed.

Lemma bank_evict_ok h b key decision : bank_ok h b ->
  bank_ok (h ++ [(BEvict key decision, fst (bank_evict key decision b))]) (snd (bank_evict key decision b)).
Proof.
  intros Hb. pose proof Hb as [Hw Ht Hle]. unfold bank_evict. destruct (bank_windows b !! key) as [w|] eqn:Ek.
  2: { by apply same_ok. }
  destruct (Hw key w Ek) as [Hok Hu]. pose proof Hok as [Hh Ho Hl Hi]. unfold window_evict. eff_unfold.
  destruct (checked_sub I64 decision (fw_horizon_ns w)) as [boundary|] eqn:Es; cbn [ok_or fst snd].
  2: { cbn. rewrite insert_id by done. destruct b. by apply same_ok. }
  apply to_ty_Some in Es as [-> _]. rewrite pop_older_filter by done. cbn [fst snd].
  set (kept := filter _ _). assert (length kept <= length (fw_records w))%nat by apply length_filter.
  pose proof (window_le_records all _ _ _ Ek eq_refl). unfold fw_len in *.
  rewrite wrap_fits by (unfold PROCESSOR_RECORD_CAPACITY in *; solve_fits).
  apply (replace_ok _ _ _ _ w); [done..| | | | |]; cbn [promised].
  - split; cbn; [done|by apply in_order_filter|unfold fw_len; cbn; lia|]. intros Hinv. unfold kept. by rewrite Hi.
  - rewrite bool_decide_eq_true_2 by done. rewrite <- Hu, <- Hh. unfold usable. cbn. by destruct (fw_invalid w).
  - intros k Hne. by rewrite bool_decide_eq_false_2.
  - unfold fw_len. cbn. lia.
  - lia.
Qed.

Lemma replace_window_ok h b key f call : bank_ok h b ->
  (forall w, window_ok key w -> window_ok key (f w)) -> (forall w, fw_records (f w) = []) ->
  (forall w, usable (f w) = promised key (held key h) (call, Ok tt)) ->
  (forall k, k <> key -> promised k (held k h) (call, Ok tt) = held k h) ->
  (forall k, promised k (held k h) (call, Err UnconfiguredKey) = held k h) ->
  bank_ok (h ++ [(call, fst (replace_window key f b))]) (snd (replace_window key f b)).
Proof.
  intros Hb Hok Hf Hu Hne He. pose proof Hb as [Hw Ht Hle]. unfold replace_window.
  destruct (bank_windows b !! key) as [w|] eqn:Ek; cbn [fst snd]; [|by apply same_ok].
  pose proof (window_le_records all _ _ _ Ek eq_refl). pose proof (fw_len_nonneg w).
  rewrite wrap_fits by (unfold PROCESSOR_RECORD_CAPACITY in *; solve_fits).
  assert (fw_len (f w) = 0) by (unfold fw_len; by rewrite Hf).
  apply (replace_ok _ _ _ _ w); try done; [apply Hok; by apply Hw|lia|lia].
Qed.

Lemma bank_call_ok h b op : bank_ok h b -> bank_ok (h ++ [(op, fst (bank_call op b))]) (snd (bank_call op b)).
Proof.
  intros Hb. pose proof Hb as [Hw Ht Hle]. destruct op as [| |source|key|key first|source generation first]; cbn [bank_call].
  - by apply bank_push_ok.
  - by apply bank_evict_ok.
  - unfold invalidate_configured_source. destruct (bank_source_generations b !! source); [|by apply same_ok].
    apply update_ok; [done|apply spoil_ok|done|]. intros k w Hk. cbn [promised].
    destruct (of_source source k); [done|]. by apply Hw.
  - apply replace_window_ok; [done|apply spoil_ok|done| |intros k Hne|done]; cbn [promised].
    + by rewrite bool_decide_eq_true_2.
    + by rewrite bool_decide_eq_false_2.
  - apply replace_window_ok; [done|apply clear_ok|done| |intros k Hne|done]; cbn [promised].
    + by rewrite bool_decide_eq_true_2.
    + by rewrite bool_decide_eq_false_2.
  - unfold advance_source_epoch. destruct (bank_source_generations b !! source) as [g|]; [|by apply same_ok].
    destruct (generation <=? g); [by apply same_ok|].
    apply update_ok; [done|apply clear_ok|done|]. intros k w Hk. cbn [promised].
    destruct (of_source source k); [done|]. by apply Hw.
Qed.

Lemma bank_run_ok ops : forall h b, bank_ok h b ->
  bank_ok (h ++ fst (bank_run ops b)) (snd (bank_run ops b)).
Proof.
  induction ops as [|op ops IH]; intros h b Hb; cbn [bank_run]; [by rewrite app_nil_r|].
  apply (bank_call_ok _ _ op) in Hb. destruct (bank_call op b) as [r b1]. apply IH in Hb. cbn [fst snd] in Hb.
  destruct (bank_run ops b1) as [trace b2]. cbn [fst snd] in *. by rewrite <- app_assoc in Hb.
Qed.

End BankFacts.

Section BankTheorem.
Context {T : Type}.

Definition fresh (ws : gmap WindowKey (FixedWindow T)) : Prop :=
  forall k w, ws !! k = Some w -> fw_horizon_ns w = key_horizon_ns k /\ fw_records w = [] /\ fw_invalid w = false.

Lemma add_spec_fresh acc spec acc' : fresh acc.1 -> add_spec acc spec = Ok acc' -> fresh acc'.1.
Proof.
  destruct acc as [ws g]. cbn. intros Hf. unfold add_spec, window_new. intros H.
  assert (exists w, fw_horizon_ns w = key_horizon_ns (spec_key spec) /\ fw_records w = [] /\ fw_invalid w = false /\
    acc'.1 = <[spec_key spec := w]> ws) as (w0 & Hw0 & Hr0 & Hi0 & ->).
  { destruct (supported (key_horizon_ns (spec_key spec))); cbn [rbind] in H; repeat case_match; simplify_eq;
    by exists (mkWindow (key_horizon_ns (spec_key spec)) (spec_epoch_first_available_ns spec) [] false). }
  intros k w. destruct (decide (k = spec_key spec)) as [->|Hne]; [rewrite lookup_insert_eq; by intros [= <-]|].
  rewrite lookup_insert_ne by done. apply Hf.
Qed.

Lemma fresh_records ws : fresh ws -> records_of (fun _ => true) ws = 0.
Proof.
  induction ws as [|k w ws Hk IH] using map_ind; [done|]. intros Hf. rewrite records_of_new by done. rewrite IH.
  - destruct (Hf k w) as (_ & Hr & _); [by rewrite lookup_insert_eq|]. unfold fw_len. by rewrite Hr.
  - intros k' w' Hk'. apply Hf. rewrite lookup_insert_ne; [done|]. congruence.
Qed.

Lemma bank_new_ok specs (b : WindowBank T) : bank_new specs = Ok b -> bank_ok [] b.
Proof.
  unfold bank_new. intros ([ws g] & Hfold & H)%rbind_Ok. case_match; simplify_eq.
  assert (fresh ws) as Hf.
  { eapply (try_fold_inv (fun acc => fresh acc.1) add_spec specs (∅, ∅) (ws, g)); [done| |done].
    intros. by eapply add_spec_fresh. }
  split; cbn; [|by rewrite fresh_records|done]. intros k w Hk. destruct (Hf k w Hk) as (Hh & Hr & Hi). split.
  - split; [done|rewrite Hr; constructor|unfold fw_len, PER_WINDOW_CAPACITY; rewrite Hr; cbn; lia|done].
  - unfold usable, held. by rewrite Hi, Hr.
Qed.

(** C7. Whatever calls are made on a bank, each of its windows holds exactly
    what the calls and their results say: the records accepted since the
    window's epoch began, in order of availability, less those an eviction
    found older than the horizon; and it is invalid exactly from the call that
    dropped a record of its source, or invalidated it, until the next epoch or
    recovery.  The counter is the number of records held, within both limits. *)
Theorem bank_windows_exact specs (b0 : WindowBank T) ops : bank_new specs = Ok b0 ->
  let trace := fst (bank_run ops b0) in
  let b := snd (bank_run ops b0) in
  (forall k w, bank_windows b !! k = Some w ->
     usable w = held k trace /\ in_order (fw_records w) /\ fw_len w <= PER_WINDOW_CAPACITY) /\
  bank_total_records b = records_of (fun _ => true) (bank_windows b) /\
  bank_total_records b <= PROCESSOR_RECORD_CAPACITY.
Proof.
  intros H0 trace b. destruct (bank_run_ok ops [] b0 (bank_new_ok _ _ H0)) as [Hw Ht Hb]. split; [|done].
  intros k w Hk. by destruct (Hw k w Hk) as [[_ Ho Hl _] Hu].
Qed.

End BankTheorem.

Definition example_key : WindowKey := mkWindowKey "binance:btcusdt"%string 1000000000 KTrade.
Definition example_specs : list WindowSpec := [mkWindowSpec example_key 0 5].
Definition example_calls : list (bank_op Z) :=
  [BPush example_key 10 7; BPush example_key 1000000200 8; BEvict example_key 1000000100; BPush example_key 50 9].

Lemma bank_windows_exact_witness :
  held example_key (fst (bank_run example_calls (default (mkBank ∅ ∅ 0) (ok (bank_new example_specs))))) =
    Some [mkTimed 1000000200 8] /\
  forall w, bank_windows (snd (bank_run example_calls (default (mkBank ∅ ∅ 0) (ok (bank_new example_specs))))) !! example_key
            = Some w -> usable w = Some [mkTimed 1000000200 8].
Proof.
  assert (E : held example_key (fst (bank_run example_calls (default (mkBank ∅ ∅ 0) (ok (bank_new example_specs))))) =
    Some [mkTimed 1000000200 8]) by (vm_compute; reflexivity).
  split; [exact E|]. intros w Hw. rewrite <- E.
  eapply (bank_windows_exact example_specs _ example_calls); [|exact Hw]. vm_compute. reflexivity.
Defined.
