(* ===== verification/PulseKeys.v ===== *)
(** * Event pulse: identities, cursors and configuration ([crates/event-pulse/src/wire.rs])

    The identities that name sources, the cursors that order their inputs, the
    faults a system source reports, and the configuration and the catalogues
    that bind them together, with the checks of their constructors. *)

From stdpp Require Import base tactics numbers strings option list.
From Stdlib Require Import ZArith Lia.
From S2P Require Import Prelude Collections Fixed Text Model.

Local Open Scope Z_scope.

Inductive WireError := WireDecimal | WireTime | WireCursor | WireIdentity.

Definition MAX_I64_U64 : Z := 9223372036854775807.

(** ** Bytes of identities *)

Definition is_lower (b : Z) : bool := between 97 122 b.
Definition is_upper (b : Z) : bool := between 65 90 b.
Definition is_digit (b : Z) : bool := between 48 57 b.
Definition is_alphanumeric (b : Z) : bool := is_lower b || is_upper b || is_digit b.
Definition one_of (names : list string) (s : string) : bool := bool_decide (s ∈ names).

Definition first_byte (s : string) (p : Z -> bool) : bool :=
  match bytes_of_string s with b :: _ => p b | [] => false end.
Definition all_bytes (s : string) (p : Z -> bool) : bool := forallb p (bytes_of_string s).
Definition str_len (s : string) : Z := Z.of_nat (String.length s).

(** ** Canonical decimals *)

Definition split_dot (body : list Z) : list Z * option (list Z) :=
  match split_once 46 body with Some (i, f) => (i, Some f) | None => (body, None) end.

Definition all_zero (l : list Z) : bool := forallb (Z.eqb 48) l.

Definition decimal_parse (value : string) (max_integer max_fraction : Z) : result string WireError :=
  let bytes := bytes_of_string value in
  let max_len :=
    match checked_add U64 max_integer max_fraction with
    | Some v => default (int_max U64) (checked_add U64 v 2)
    | None => int_max U64
    end in
  if bool_decide (bytes = []) || (max_len <? Z.of_nat (length bytes)) then Err WireDecimal else
  match bytes with
  | 43 :: _ => Err WireDecimal
  | _ =>
      let '(negative, body) := match bytes with 45 :: rest => (true, rest) | _ => (false, bytes) end in
      if bool_decide (body = []) then Err WireDecimal else
      let '(integer, fraction) := split_dot body in
      if bool_decide (integer = []) || (max_integer <? Z.of_nat (length integer)) || negb (forallb is_digit integer)
         || ((1 <? Z.of_nat (length integer)) && bool_decide (head integer = Some 48))
      then Err WireDecimal else
      if match fraction with
         | Some f => bool_decide (f = []) || (max_fraction <? Z.of_nat (length f)) || negb (forallb is_digit f)
         | None => false
         end
      then Err WireDecimal else
      if negative && all_zero integer && match fraction with Some f => all_zero f | None => true end
      then Err WireDecimal else Ok value
  end.

Definition parse_unbounded (value : string) : result string WireError :=
  decimal_parse value (str_len value) (str_len value).

(** ** Times: the canonical text and the instant it names *)

Record Rfc3339Time := mkTime { time_canonical : string; utc_micros : Z }.

(** ** Cursors *)

Inductive CursorV1 :=
  | NativeRange (start end_ : Z)
  | DerivedAction (frame_ordinal action_index item_index : Z).

#[export] Instance CursorV1_eq_dec : EqDecision CursorV1.
Proof. solve_decision. Defined.

Definition native (start end_ : Z) : result CursorV1 WireError :=
  if (end_ <? start) || (MAX_I64_U64 <? end_) then Err WireCursor else Ok (NativeRange start end_).

Definition derived (frame_ordinal action_index item_index : Z) : result CursorV1 WireError :=
  if (action_index =? 65535) || (65535 <? item_index) then Err WireCursor else
  if MAX_I64_U64 <? (frame_ordinal * 65536 + action_index) * 65536 + item_index then Err WireCursor else
  Ok (DerivedAction frame_ordinal action_index item_index).

Definition display_sequence (self : CursorV1) : result Z WireError :=
  match self with
  | NativeRange _ end_ => Ok end_
  | DerivedAction frame action item =>
      match to_ty U64 ((frame * 65536 + action) * 65536 + item) with
      | Some value => if value <=? MAX_I64_U64 then Ok value else Err WireCursor
      | None => Err WireCursor
      end
  end.

Definition derived_drop (frame_ordinal item_index : Z) : result CursorV1 WireError :=
  if 2 <? item_index then Err WireCursor else
  let cursor := DerivedAction frame_ordinal 65535 item_index in
  let? _ := display_sequence cursor in
  Ok cursor.

Definition native_range (self : CursorV1) : option (Z * Z) :=
  match self with NativeRange start end_ => Some (start, end_) | DerivedAction _ _ _ => None end.

Definition derived_coordinate (self : CursorV1) : option (Z * Z * Z) :=
  match self with DerivedAction f a i => Some (f, a, i) | NativeRange _ _ => None end.

(** [#[derive(Ord)]]: native ranges first, then the fields in order. *)
Definition cursor_fields (c : CursorV1) : Z * (Z * (Z * Z)) :=
  match c with NativeRange s e => (0, (s, (e, 0))) | DerivedAction f a i => (1, (f, (a, i))) end.
#[export] Instance cursor_fields_inj : Inj (=) (=) cursor_fields.
Proof. intros [] [] H; cbn in H; by simplify_eq. Qed.
#[export] Instance ord_cursor : Ord CursorV1 := cmp_by cursor_fields.
#[export] Instance ord_laws_cursor : OrdLaws CursorV1 := ord_laws_by cursor_fields.

(** [CursorV1::deserialize]. *)
Definition cursor_of_wire (wire : CursorV1) : result CursorV1 WireError :=
  match wire with
  | NativeRange start end_ => native start end_
  | DerivedAction frame action item => if action =? 65535 then derived_drop frame item else derived frame action item
  end.

(** ** The chain of system inputs *)

Definition hex_digit (b : Z) : option Z :=
  if is_digit b then Some (b - 48) else if between 97 102 b then Some (b - 87) else None.

Fixpoint decode_pairs (l : list Z) : result (list Z) WireError :=
  match l with
  | a :: b :: rest =>
      match hex_digit a, hex_digit b with
      | Some a, Some b => let? rest := decode_pairs rest in Ok (a * 16 + b :: rest)
      | _, _ => Err WireIdentity
      end
  | _ => Ok []
  end.

Definition decoded (value : string) : result (list Z) WireError :=
  if negb (str_len value =? 64) then Err WireIdentity else decode_pairs (bytes_of_string value).

Definition preimage (predecessor : option string) (payload_hash : string) : result (list Z) WireError :=
  let? middle :=
    match predecessor with
    | None => Ok [0]
    | Some hash => let? bytes := decoded hash in Ok (1 :: bytes)
    end in
  let? payload := decoded payload_hash in
  Ok (bytes_of_string "event-pulse-system-chain-v1" ++ [0] ++ middle ++ payload).

Section Hash.
(** [Sha256::digest] followed by its lower-case hexadecimal rendering. *)
Context (sha256_hex : list Z -> string).

Definition hash_first (payload_hash : string) : result string WireError :=
  rmap sha256_hex (preimage None payload_hash).
Definition hash_next (predecessor payload_hash : string) : result string WireError :=
  rmap sha256_hex (preimage (Some predecessor) payload_hash).
End Hash.

(** ** Identities *)

Record ConnectionKeyV1 := mkConnectionKey { connection_source_id : string }.

Definition connection_key_new (source_id : string) : result ConnectionKeyV1 WireError :=
  if bool_decide (source_id = EmptyString) || negb (first_byte source_id is_lower)
     || negb (all_bytes source_id (fun b => is_lower b || is_digit b || (b =? 95)))
  then Err WireIdentity else Ok (mkConnectionKey source_id).

Definition bounded_identity (value : string) : result string WireError :=
  if bool_decide (value = EmptyString) || (128 <? str_len value)
     || negb (all_bytes value (fun b => is_alphanumeric b || (b =? 95) || (b =? 45)))
  then Err WireIdentity else Ok value.

Record InstrumentIdentityV1 := mkInstrumentIdentity {
  ii_base_asset : string;
  ii_quote_asset : string;
  ii_market_type : string;
  ii_venue : string;
  ii_venue_symbol : string
}.

Definition instrument_identity_new (base_asset quote_asset market_type venue venue_symbol : string)
    : result InstrumentIdentityV1 WireError :=
  if negb (one_of ["BTC"; "ETH"; "SOL"; "BNB"; "HYPE"]%string base_asset)
     || negb (one_of ["USD"; "USDC"; "USDT"]%string quote_asset)
     || negb (one_of ["SPOT"; "PERPETUAL"]%string market_type)
     || negb (one_of ["BINANCE"; "HYPERLIQUID"]%string venue)
     || bool_decide (base_asset = quote_asset) || bool_decide (venue_symbol = EmptyString)
     || negb (first_byte venue_symbol (fun b => is_upper b || is_digit b))
     || negb (all_bytes venue_symbol (fun b => is_upper b || is_digit b || (b =? 95) || (b =? 45)))
  then Err WireIdentity
  else Ok (mkInstrumentIdentity base_asset quote_asset market_type venue venue_symbol).

Definition instrument_identity_validate (i : InstrumentIdentityV1) : result unit WireError :=
  rmap (fun _ => tt)
    (instrument_identity_new (ii_base_asset i) (ii_quote_asset i) (ii_market_type i) (ii_venue i) (ii_venue_symbol i)).

Record ContributorKeyV1 := mkContributorKey { ck_source_id : string; ck_instrument : InstrumentIdentityV1 }.

Definition contributor_key_new (source_id : string) (instrument : InstrumentIdentityV1)
    : result ContributorKeyV1 WireError :=
  let? source := connection_key_new source_id in
  let? _ := instrument_identity_validate instrument in
  Ok (mkContributorKey (connection_source_id source) instrument).

Definition checked_epoch (value : string) : result string WireError :=
  match strip_prefix (bytes_of_string "epoch_") (bytes_of_string value) with
  | None => Err WireIdentity
  | Some suffix =>
      if bool_decide (suffix = []) || (64 <? Z.of_nat (length suffix))
         || negb (match suffix with b :: _ => is_alphanumeric b | [] => false end)
         || negb (forallb (fun b => is_alphanumeric b || (b =? 95) || (b =? 45)) suffix)
      then Err WireIdentity else Ok value
  end.

Record ContributorV1 := mkContributor {
  co_key : ContributorKeyV1;
  co_connection_epoch : string;
  co_epoch_generation : Z
}.

Definition contributor_new (key : ContributorKeyV1) (epoch : string) (generation : Z) : result ContributorV1 WireError :=
  let? epoch := checked_epoch epoch in Ok (mkContributor key epoch generation).

Inductive FamilyV1 := FTrade | FQuote | FBook | FOpenInterest | FLiquidation | FConfirmationPrice.
Inductive CursorModeV1 := Native | Derived.

Record ClockSourceKeyV1 := mkClockKey { clk_source_id : string; clk_subject : ContributorKeyV1 }.
Record ClockSourceV1 := mkClockSource { cls_key : ClockSourceKeyV1; cls_epoch : string; cls_epoch_generation : Z }.

Record CoverageSourceKeyV1 := mkCoverageKey {
  cov_source_id : string;
  cov_subject : ContributorKeyV1;
  cov_family : FamilyV1
}.
Record CoverageSourceV1 := mkCoverageSource { cvs_key : CoverageSourceKeyV1; cvs_epoch : string; cvs_epoch_generation : Z }.

Inductive ConfiguredTargetKeyV1 :=
  | TContributor (key : ContributorKeyV1)
  | TConnection (key : ConnectionKeyV1)
  | TProcessor (id : string).

Inductive FaultScopeKindV1 := KContributor | KConnectionEpoch | KProcessor.

Definition contributor_key (t : ConfiguredTargetKeyV1) : option ContributorKeyV1 :=
  match t with TContributor key => Some key | _ => None end.
Definition connection_key (t : ConfiguredTargetKeyV1) : option ConnectionKeyV1 :=
  match t with TConnection key => Some key | _ => None end.
Definition processor_id (t : ConfiguredTargetKeyV1) : option string :=
  match t with TProcessor id => Some id | _ => None end.

Record SystemSourceKeyV1 := mkSystemKey {
  sk_source_id : string;
  sk_scope_kind : FaultScopeKindV1;
  sk_configured_target_key : ConfiguredTargetKeyV1;
  sk_cursor_mode : CursorModeV1
}.

Definition system_key_new (source_id : string) (scope_kind : FaultScopeKindV1) (target : ConfiguredTargetKeyV1)
    (cursor_mode : CursorModeV1) : result SystemSourceKeyV1 WireError :=
  if negb (match scope_kind, target with
           | KContributor, TContributor _ | KConnectionEpoch, TConnection _ | KProcessor, TProcessor _ => true
           | _, _ => false
           end) then Err WireIdentity else
  let? _ := match target with TProcessor id => rmap (fun _ => tt) (bounded_identity id) | _ => Ok tt end in
  let? source := connection_key_new source_id in
  Ok (mkSystemKey (connection_source_id source) scope_kind target cursor_mode).

Record SystemSourceV1 := mkSystemSource { sys_key : SystemSourceKeyV1; sys_epoch : string; sys_epoch_generation : Z }.

(** The check of [ClockSourceV1::new], [CoverageSourceV1::new] and [SystemSourceV1::new]. *)
Definition checked_source_epoch (source_id epoch : string) (generation : Z) : result (string * string * Z) WireError :=
  let? source := connection_key_new source_id in
  let? epoch := checked_epoch epoch in
  Ok (connection_source_id source, epoch, generation).

Inductive FaultScopeV1 :=
  | ScopeContributor (contributor : ContributorV1)
  | ScopeConnectionEpoch (key : ConnectionKeyV1) (connection_epoch : string) (epoch_generation : Z)
  | ScopeProcessor (id : string).

Inductive DropCategoryV1 := ActionBufferDrop | MarketDispatchDrop | SystemDispatchDrop.

Inductive SystemFaultV1 :=
  | FaultDisconnected
  | FaultSequenceGap (expected actual : Z)
  | FaultEventsDropped (count : Z) (category : DropCategoryV1)
  | FaultChecksumMismatch
  | FaultClockJump (delta_ns : Z)
  | FaultBookInvalidated
  | FaultBookResynchronized.

Definition events_dropped (count : Z) (category : DropCategoryV1) : result SystemFaultV1 WireError :=
  if count =? 0 then Err WireIdentity else Ok (FaultEventsDropped count category).

#[export] Instance ConnectionKeyV1_eq_dec : EqDecision ConnectionKeyV1.
Proof. solve_decision. Defined.
#[export] Instance InstrumentIdentityV1_eq_dec : EqDecision InstrumentIdentityV1.
Proof. solve_decision. Defined.
#[export] Instance ContributorKeyV1_eq_dec : EqDecision ContributorKeyV1.
Proof. solve_decision. Defined.
#[export] Instance FamilyV1_eq_dec : EqDecision FamilyV1.
Proof. solve_decision. Defined.
#[export] Instance CursorModeV1_eq_dec : EqDecision CursorModeV1.
Proof. solve_decision. Defined.
#[export] Instance ClockSourceKeyV1_eq_dec : EqDecision ClockSourceKeyV1.
Proof. solve_decision. Defined.
#[export] Instance CoverageSourceKeyV1_eq_dec : EqDecision CoverageSourceKeyV1.
Proof. solve_decision. Defined.
#[export] Instance ConfiguredTargetKeyV1_eq_dec : EqDecision ConfiguredTargetKeyV1.
Proof. solve_decision. Defined.
#[export] Instance FaultScopeKindV1_eq_dec : EqDecision FaultScopeKindV1.
Proof. solve_decision. Defined.
#[export] Instance SystemSourceKeyV1_eq_dec : EqDecision SystemSourceKeyV1.
Proof. solve_decision. Defined.

(** ** Orders, derived from the fields *)

Definition contributor_fields (k : ContributorKeyV1) :=
  let i := ck_instrument k in
  (ck_source_id k, (ii_base_asset i, (ii_quote_asset i, (ii_market_type i, (ii_venue i, ii_venue_symbol i))))).
#[export] Instance contributor_fields_inj : Inj (=) (=) contributor_fields.
Proof. intros [? []] [? []] [=]. cbn in *. by subst. Qed.
#[export] Instance ord_contributor_key : Ord ContributorKeyV1 := cmp_by contributor_fields.
#[export] Instance ord_laws_contributor_key : OrdLaws ContributorKeyV1 := ord_laws_by contributor_fields.

#[export] Instance connection_source_id_inj : Inj (=) (=) connection_source_id.
Proof. intros [] [] H. cbn in H. by simplify_eq. Qed.
#[export] Instance ord_connection_key : Ord ConnectionKeyV1 := cmp_by connection_source_id.
#[export] Instance ord_laws_connection_key : OrdLaws ConnectionKeyV1 := ord_laws_by connection_source_id.

Definition family_tag (f : FamilyV1) : Z :=
  match f with FTrade => 0 | FQuote => 1 | FBook => 2 | FOpenInterest => 3 | FLiquidation => 4 | FConfirmationPrice => 5 end.
#[export] Instance family_tag_inj : Inj (=) (=) family_tag.
Proof. by intros [] []. Qed.
#[export] Instance ord_family : Ord FamilyV1 := cmp_by family_tag.
#[export] Instance ord_laws_family : OrdLaws FamilyV1 := ord_laws_by family_tag.

Definition mode_tag (m : CursorModeV1) : Z := match m with Native => 0 | Derived => 1 end.
#[export] Instance mode_tag_inj : Inj (=) (=) mode_tag.
Proof. by intros [] []. Qed.
#[export] Instance ord_mode : Ord CursorModeV1 := cmp_by mode_tag.
#[export] Instance ord_laws_mode : OrdLaws CursorModeV1 := ord_laws_by mode_tag.

Definition clock_fields (k : ClockSourceKeyV1) := (clk_source_id k, clk_subject k).
#[export] Instance clock_fields_inj : Inj (=) (=) clock_fields.
Proof. intros [] [] H. cbn in H. by simplify_eq. Qed.
#[export] Instance ord_clock_key : Ord ClockSourceKeyV1 := cmp_by clock_fields.
#[export] Instance ord_laws_clock_key : OrdLaws ClockSourceKeyV1 := ord_laws_by clock_fields.

Definition coverage_fields (k : CoverageSourceKeyV1) := (cov_source_id k, (cov_subject k, cov_family k)).
#[export] Instance coverage_fields_inj : Inj (=) (=) coverage_fields.
Proof. intros [] [] H. cbn in H. by simplify_eq. Qed.
#[export] Instance ord_coverage_key : Ord CoverageSourceKeyV1 := cmp_by coverage_fields.
#[export] Instance ord_laws_coverage_key : OrdLaws CoverageSourceKeyV1 := ord_laws_by coverage_fields.

(** The variant first, then its field; the other fields are padding. *)
Definition target_fields (t : ConfiguredTargetKeyV1) :=
  let pad s := (s, (EmptyString, (EmptyString, (EmptyString, (EmptyString, EmptyString))))) in
  match t with
  | TContributor key => (0, contributor_fields key)
  | TConnection key => (1, pad (connection_source_id key))
  | TProcessor id => (2, pad id)
  end.
#[export] Instance target_fields_inj : Inj (=) (=) target_fields.
Proof.
  intros [k| |] [k'| |] H; unfold target_fields in H; simplify_eq; try done.
Qed.
#[export] Instance ord_target : Ord ConfiguredTargetKeyV1 := cmp_by target_fields.
#[export] Instance ord_laws_target : OrdLaws ConfiguredTargetKeyV1 := ord_laws_by target_fields.

(** ** The configuration *)

Inductive ContributorRoleV1 := Primary | Confirmation.

#[export] Instance ContributorRoleV1_eq_dec : EqDecision ContributorRoleV1.
Proof. solve_decision. Defined.

Definition set_of {K} `{Ord K} (l : list K) : BTreeSet K := BTreeSet.extend [] l.

Record ContributorSpecV1 := mkContributorSpec {
  spec_key : ContributorKeyV1;
  spec_role : ContributorRoleV1;
  spec_allowed_families : BTreeSet FamilyV1
}.

Definition primary_family (f : FamilyV1) : bool := negb (bool_decide (f = FConfirmationPrice)).

Definition contributor_spec_new (key : ContributorKeyV1) (role : ContributorRoleV1) (families : list FamilyV1)
    : result ContributorSpecV1 WireError :=
  let allowed := set_of families in
  let valid :=
    match role with
    | Primary => negb (bool_decide (allowed = [])) && forallb primary_family (BTreeSet.elements allowed)
    | Confirmation => bool_decide (allowed = set_of [FConfirmationPrice])
    end in
  if valid then Ok (mkContributorSpec key role allowed) else Err WireIdentity.

Record MechanicsConfigV1 := mkConfig {
  cfg_processor_id : string;
  cfg_connections : list ConnectionKeyV1;
  cfg_contributors : list ContributorSpecV1;
  cfg_contributor_connections : BTreeMap ContributorKeyV1 ConnectionKeyV1;
  cfg_clock_sources : list ClockSourceKeyV1;
  cfg_coverage_sources : list CoverageSourceKeyV1;
  cfg_system_sources : list SystemSourceKeyV1
}.

Definition len {A} (l : list A) : Z := Z.of_nat (length l).

Section Config.
Context (contributors : list ContributorSpecV1).

Definition of_role (role : ContributorRoleV1) : list ContributorSpecV1 :=
  filter (fun c => spec_role c = role) contributors.

Definition primary_instrument_valid : bool :=
  match of_role Primary with
  | primary :: _ =>
      forallb (fun c => bool_decide (ck_instrument (spec_key c) = ck_instrument (spec_key primary))) (of_role Primary)
  | [] => false
  end.

Definition primary_family_owner_count (family : FamilyV1) : Z :=
  len (filter (fun c => BTreeSet.contains (spec_allowed_families c) family = true) (of_role Primary)).

Definition primary_family_ownership_valid : bool :=
  forallb (fun f => primary_family_owner_count f =? 1) [FTrade; FQuote; FBook]
  && forallb (fun f => primary_family_owner_count f <=? 1) [FOpenInterest; FLiquidation].

Definition confirmation_venues : BTreeSet string :=
  set_of (map (fun c => ii_venue (ck_instrument (spec_key c))) (of_role Confirmation)).

Definition confirms (primary confirmation : InstrumentIdentityV1) : bool :=
  bool_decide (ii_base_asset confirmation = ii_base_asset primary)
  && bool_decide (ii_quote_asset confirmation = ii_quote_asset primary)
  && bool_decide (ii_market_type confirmation = ii_market_type primary)
  && negb (bool_decide (ii_venue confirmation = ii_venue primary)).

Definition confirmation_identity_valid : bool :=
  match of_role Primary with
  | primary :: _ =>
      forallb (fun c => confirms (ck_instrument (spec_key primary)) (ck_instrument (spec_key c))) (of_role Confirmation)
  | [] => false
  end.

Definition expected_coverage : BTreeSet (ContributorKeyV1 * FamilyV1) :=
  set_of (mjoin (map (fun c => map (fun f => (spec_key c, f)) (BTreeSet.elements (spec_allowed_families c))) contributors)).

End Config.

(** [for id in ids { if !set.insert(id) { return Err } }]. *)
Fixpoint all_fresh (seen : BTreeSet string) (ids : list string) : bool :=
  match ids with
  | [] => true
  | id :: rest => if BTreeSet.contains seen id then false else all_fresh (BTreeSet.insert seen id) rest
  end.

Definition target_configured (contributors : BTreeSet ContributorKeyV1) (connections : BTreeSet ConnectionKeyV1)
    (processor : string) (target : ConfiguredTargetKeyV1) : bool :=
  match target with
  | TContributor key => BTreeSet.contains contributors key
  | TConnection key => BTreeSet.contains connections key
  | TProcessor id => bool_decide (id = processor)
  end.

Definition config_new (processor : string) (connections : list ConnectionKeyV1) (contributors : list ContributorSpecV1)
    (contributor_connections : BTreeMap ContributorKeyV1 ConnectionKeyV1) (clock_sources : list ClockSourceKeyV1)
    (coverage_sources : list CoverageSourceKeyV1) (system_sources : list SystemSourceKeyV1)
    : result MechanicsConfigV1 WireError :=
  let? processor := bounded_identity processor in
  if bool_decide (connections = []) || (32 <? len connections) || bool_decide (contributors = [])
     || (32 <? len contributors) || (32 <? len clock_sources) || (192 <? len coverage_sources)
     || (130 <? len system_sources) then Err WireIdentity else
  let contributors_set := set_of (map spec_key contributors) in
  let connections_set := set_of connections in
  if negb (len connections_set =? len connections) || negb (len contributors_set =? len contributors)
     || negb (len contributor_connections =? len contributors)
     || existsb (fun '(contributor, connection) => negb (BTreeSet.contains contributors_set contributor)
                                                   || negb (BTreeSet.contains connections_set connection))
          contributor_connections
     || (len (of_role contributors Primary) =? 0) || negb (primary_instrument_valid contributors)
     || negb (primary_family_ownership_valid contributors) || (15 <? len (of_role contributors Confirmation))
     || negb (len (confirmation_venues contributors) =? len (of_role contributors Confirmation))
     || negb (confirmation_identity_valid contributors) || negb (len clock_sources =? len contributors)
     || existsb (fun source => negb (BTreeSet.contains contributors_set (clk_subject source))) clock_sources
     || existsb (fun source => negb (BTreeSet.contains contributors_set (cov_subject source))) coverage_sources
  then Err WireIdentity else
  if negb (all_fresh []
       (map (fun c => ck_source_id (spec_key c)) contributors ++ map clk_source_id clock_sources
        ++ map cov_source_id coverage_sources ++ map sk_source_id system_sources))
  then Err WireIdentity else
  let unique_clocks := set_of (map clk_subject clock_sources) in
  let unique_coverage := set_of (map (fun s => (cov_subject s, cov_family s)) coverage_sources) in
  let unique_system := set_of (map (fun s => (sk_configured_target_key s, sk_cursor_mode s)) system_sources) in
  if existsb (fun s => negb (target_configured contributors_set connections_set processor (sk_configured_target_key s)))
       system_sources then Err WireIdentity else
  if negb (len unique_clocks =? len clock_sources) || negb (len unique_coverage =? len coverage_sources)
     || negb (bool_decide (unique_coverage = expected_coverage contributors))
     || negb (len unique_system =? len system_sources)
  then Err WireIdentity else
  Ok (mkConfig processor connections contributors contributor_connections clock_sources coverage_sources system_sources).

(** ** Catalogues *)

Record VenueCatalogEntryV1 := mkVenueEntry { ve_venue : string; ve_source_id : string }.

Definition venue_entry_new (venue source_id : string) : result VenueCatalogEntryV1 WireError :=
  if negb (one_of ["BINANCE"; "HYPERLIQUID"]%string venue) then Err WireIdentity else
  let? source := connection_key_new source_id in
  Ok (mkVenueEntry venue (connection_source_id source)).

Record ReplayEpochEntryV1 := mkReplayEpoch {
  re_connection_id : Z;
  re_session_id : Z;
  re_connection_epoch : string;
  re_epoch_generation : Z
}.

Definition replay_epoch_new (connection_id session_id : Z) (epoch : string) (generation : Z)
    : result ReplayEpochEntryV1 WireError :=
  let? epoch := checked_epoch epoch in Ok (mkReplayEpoch connection_id session_id epoch generation).

Inductive OpenInterestEncodingV1 := OiContracts | OiBase (contracts_per_base : string).

Definition oi_base (value : string) : result OpenInterestEncodingV1 WireError :=
  let? value := decimal_parse value 18 8 in
  if first_byte value (Z.eqb 45) || all_bytes value (fun b => (b =? 48) || (b =? 46)) then Err WireDecimal
  else Ok (OiBase value).

Record ReplayCatalogV1 := mkCatalog {
  cat_venue_sources : BTreeMap Z VenueCatalogEntryV1;
  cat_instruments : BTreeMap Z InstrumentIdentityV1;
  cat_connection_epochs : list ReplayEpochEntryV1;
  cat_open_interest : BTreeMap Z OpenInterestEncodingV1
}.

Definition catalog_new (venue_sources : BTreeMap Z VenueCatalogEntryV1) (instruments : BTreeMap Z InstrumentIdentityV1)
    (connection_epochs : list ReplayEpochEntryV1) (open_interest : BTreeMap Z OpenInterestEncodingV1)
    : result ReplayCatalogV1 WireError :=
  if (len venue_sources =? 0) || (32 <? len venue_sources) || (len instruments =? 0) || (32 <? len instruments)
     || (len connection_epochs =? 0) || (32 <? len connection_epochs)
     || existsb (fun id => negb (BTreeMap.contains_key instruments id)) (BTreeMap.keys open_interest)
  then Err WireIdentity else
  if existsb (fun i => negb (existsb (fun v => bool_decide (ve_venue v = ii_venue i)) (BTreeMap.values venue_sources)))
       (BTreeMap.values instruments) then Err WireIdentity else
  let epochs := set_of (map (fun e => (re_connection_id e, re_session_id e)) connection_epochs) in
  if negb (len epochs =? len connection_epochs) then Err WireIdentity else
  Ok (mkCatalog venue_sources instruments connection_epochs open_interest).

Definition of_session (envelope : EventEnvelope) (entry : ReplayEpochEntryV1) : bool :=
  (re_connection_id entry =? (env_connection envelope)) && (re_session_id entry =? (env_session envelope)).

Definition contains_envelope (catalog : ReplayCatalogV1) (envelope : EventEnvelope) : bool :=
  match BTreeMap.get (cat_venue_sources catalog) ((env_venue envelope)) with
  | None => false
  | Some venue =>
      let instrument :=
        match env_instrument envelope with
        | None => Some None
        | Some id =>
            match BTreeMap.get (cat_instruments catalog) (id) with
            | Some i => if bool_decide (ii_venue i = ve_venue venue) then Some (Some id) else None
            | None => None
            end
        end in
      match instrument with
      | None => false
      | Some instrument =>
          (env_schema_version envelope =? 1)
          && match env_exchange_ts envelope with Some t => t <=? (env_receive_ts envelope) | None => false end
          && match env_source_sequence envelope with
             | Some s => (seq_first s <=? seq_last s) && (seq_last s <=? MAX_I64_U64)
             | None => true
             end
          && match env_payload envelope with
             | EvOpenInterest _ =>
                 match instrument with Some id => BTreeMap.contains_key (cat_open_interest catalog) (id) | None => false end
             | _ => true
             end
          && existsb (of_session envelope) (cat_connection_epochs catalog)
      end
  end.

Definition validate_market_catalog_action (catalog : ReplayCatalogV1) (envelope : EventEnvelope) (action_index : Z)
    : result unit WireError :=
  if (65534 <? action_index) || negb (contains_envelope catalog envelope) then Err WireIdentity else Ok tt.

Definition market_cursor (envelope : EventEnvelope) (action_index : Z) : result CursorV1 WireError :=
  match env_source_sequence envelope with
  | Some sequence => native (seq_first sequence) (seq_last sequence)
  | None => derived (env_frame_seq envelope) action_index (env_event_index envelope)
  end.

Definition validate_market_mapping (catalog : ReplayCatalogV1) (envelope : EventEnvelope) (action_index : Z)
    : result unit WireError :=
  let? _ := validate_market_catalog_action catalog envelope action_index in
  rmap (fun _ => tt) (market_cursor envelope action_index).

Definition validate_system_binding (source : SystemSourceV1) (scope : FaultScopeV1) (cursor : CursorV1)
    (fault : SystemFaultV1) : result unit WireError :=
  let mode_matches :=
    match sk_cursor_mode (sys_key source) with
    | Native => bool_decide (is_Some (native_range cursor))
    | Derived => bool_decide (is_Some (derived_coordinate cursor))
    end in
  let scope_matches :=
    match sk_configured_target_key (sys_key source), scope with
    | TContributor expected, ScopeContributor actual => bool_decide (expected = co_key actual)
    | TConnection expected, ScopeConnectionEpoch actual _ _ => bool_decide (expected = actual)
    | TProcessor expected, ScopeProcessor actual => bool_decide (expected = actual)
    | _, _ => false
    end in
  let scope_kind_matches :=
    match sk_scope_kind (sys_key source), scope with
    | KContributor, ScopeContributor _ | KConnectionEpoch, ScopeConnectionEpoch _ _ _ | KProcessor, ScopeProcessor _ => true
    | _, _ => false
    end in
  let fault_matches :=
    match fault, scope with
    | FaultSequenceGap _ _, ScopeContributor _ | FaultChecksumMismatch, ScopeContributor _
    | FaultBookInvalidated, ScopeContributor _ | FaultBookResynchronized, ScopeContributor _
    | FaultDisconnected, ScopeConnectionEpoch _ _ _ | FaultEventsDropped _ _, ScopeProcessor _
    | FaultClockJump _, ScopeProcessor _ => true
    | _, _ => false
    end in
  let reserved_matches :=
    match derived_coordinate cursor with
    | Some (_, action, item) =>
        match fault with
        | FaultEventsDropped _ category =>
            if action =? 65535
            then item =? match category with ActionBufferDrop => 0 | MarketDispatchDrop => 1 | SystemDispatchDrop => 2 end
            else true
        | _ => negb (action =? 65535)
        end
    | None => true
    end in
  if mode_matches && scope_matches && scope_kind_matches && fault_matches && reserved_matches then Ok tt else Err WireCursor.

(** ** Sets collected from lists *)

Section Sets.
Context {K : Type} `{OrdLaws K} `{!EqDecision K}.
Implicit Types (l : list K) (s : BTreeSet K).

Lemma contains_insert s k k' : BTreeSet.contains (BTreeSet.insert s k) k' = bool_decide (k' = k) || BTreeSet.contains s k'.
Proof.
  unfold BTreeSet.contains, BTreeSet.insert, BTreeMap.contains_key. case_bool_decide as E.
  - subst. by rewrite BTreeMap.get_insert_eq.
  - by rewrite BTreeMap.get_insert_ne.
Qed.

Lemma contains_extend l s k : BTreeSet.contains (BTreeSet.extend s l) k = true <-> k ∈ l \/ BTreeSet.contains s k = true.
Proof.
  revert s. induction l as [|x l IH]; intros s; cbn; [rewrite elem_of_nil; tauto|].
  change (foldl BTreeSet.insert (BTreeSet.insert s x) l) with (BTreeSet.extend (BTreeSet.insert s x) l).
  rewrite IH, contains_insert, elem_of_cons, orb_true_iff, bool_decide_eq_true. tauto.
Qed.

Lemma contains_set_of l k : BTreeSet.contains (set_of l) k = true <-> k ∈ l.
Proof. unfold set_of. rewrite contains_extend. cbn. naive_solver. Qed.

Lemma wf_extend l s : BTreeMap.wf s -> BTreeMap.wf (BTreeSet.extend s l).
Proof. revert s. induction l as [|x l IH]; intros s Hs; [done|]. cbn. apply IH. by apply BTreeMap.wf_insert. Qed.

Lemma wf_set_of l : BTreeMap.wf (set_of l).
Proof. apply wf_extend, BTreeMap.wf_empty. Qed.

Lemma length_set_insert s k : BTreeMap.wf s ->
  length (BTreeSet.insert s k) = ((if BTreeSet.contains s k then 0 else 1) + length s)%nat.
Proof.
  intros Hs. unfold BTreeSet.insert, BTreeSet.contains. rewrite BTreeMap.length_insert by done.
  by destruct (BTreeMap.contains_key s k).
Qed.

Lemma length_extend_le l s : BTreeMap.wf s -> (length (BTreeSet.extend s l) <= length l + length s)%nat.
Proof.
  revert s. induction l as [|x l IH]; intros s Hs; cbn [BTreeSet.extend foldl length]; [cbn; lia|].
  etransitivity; [by apply IH, BTreeMap.wf_insert|]. rewrite length_set_insert by done.
  destruct (BTreeSet.contains s x); lia.
Qed.

Lemma length_extend l s : BTreeMap.wf s ->
  length (BTreeSet.extend s l) = (length l + length s)%nat <-> NoDup l /\ Forall (fun k => BTreeSet.contains s k = false) l.
Proof.
  revert s. induction l as [|x l IH]; intros s Hs; cbn [length].
  { split; [|done]. intros _. by repeat constructor. }
  assert (BTreeMap.wf (BTreeSet.insert s x)) as Hs' by by apply BTreeMap.wf_insert.
  pose proof (length_extend_le l _ Hs') as Hle. pose proof (length_set_insert s x Hs) as Hi. specialize (IH _ Hs').
  change (BTreeSet.extend s (x :: l)) with (BTreeSet.extend (BTreeSet.insert s x) l).
  rewrite NoDup_cons, Forall_cons. destruct (BTreeSet.contains s x) eqn:Ec.
  - split; [lia|]. by intros [_ [? _]].
  - rewrite Hi in IH. replace (S (length l) + length s)%nat with (length l + (1 + length s))%nat by lia. rewrite IH.
    rewrite !Forall_forall. setoid_rewrite contains_insert. setoid_rewrite orb_false_iff.
    setoid_rewrite bool_decide_eq_false. naive_solver.
Qed.

Lemma len_set_of l : len (set_of l) = len l <-> NoDup l.
Proof.
  unfold len, set_of. pose proof (length_extend l [] BTreeMap.wf_empty) as H'. cbn [length] in H'.
  rewrite Nat.add_0_r in H'. rewrite Nat2Z.inj_iff, H'. split; [by intros [? _]|]. intros Hn. split; [done|].
  by apply Forall_true.
Qed.

Lemma set_of_eq l1 l2 : set_of l1 = set_of l2 <-> forall k, k ∈ l1 <-> k ∈ l2.
Proof.
  split.
  - intros E k. by rewrite <- !contains_set_of, E.
  - intros E. apply BTreeMap.map_ext; [apply wf_set_of..|]. intros k.
    assert (BTreeSet.contains (set_of l1) k = BTreeSet.contains (set_of l2) k) as Hc.
    { apply eq_bool_prop_intro. rewrite !Is_true_true, !contains_set_of. apply E. }
    unfold BTreeSet.contains, BTreeMap.contains_key in Hc. by destruct (BTreeMap.get _ k) as [[]|], (BTreeMap.get _ k) as [[]|].
Qed.

End Sets.

Lemma all_fresh_spec ids seen : all_fresh seen ids = true <-> NoDup ids /\ Forall (fun k => BTreeSet.contains seen k = false) ids.
Proof.
  revert seen. induction ids as [|id ids IH]; intros seen; cbn [all_fresh].
  { split; [|done]. intros _. by repeat constructor. }
  rewrite NoDup_cons, Forall_cons. destruct (BTreeSet.contains seen id) eqn:Ec; [naive_solver|]. rewrite IH, !Forall_forall.
  setoid_rewrite contains_insert. setoid_rewrite orb_false_iff. setoid_rewrite bool_decide_eq_false. naive_solver.
Qed.

Lemma all_fresh_NoDup ids : all_fresh [] ids = true <-> NoDup ids.
Proof. rewrite all_fresh_spec. split; [by intros [? _]|]. split; [done|]. by apply Forall_true. Qed.

(** ** What the configuration promises *)

Definition coverage_pairs (sources : list CoverageSourceKeyV1) : list (ContributorKeyV1 * FamilyV1) :=
  map (fun s => (cov_subject s, cov_family s)) sources.

Definition known_target (c : MechanicsConfigV1) (t : ConfiguredTargetKeyV1) : Prop :=
  match t with
  | TContributor key => key ∈ map spec_key (cfg_contributors c)
  | TConnection key => key ∈ cfg_connections c
  | TProcessor id => id = cfg_processor_id c
  end.

Definition owners (c : MechanicsConfigV1) (f : FamilyV1) : list ContributorSpecV1 :=
  filter (fun spec => spec_role spec = Primary /\ BTreeSet.contains (spec_allowed_families spec) f = true) (cfg_contributors c).

Record config_ok (c : MechanicsConfigV1) : Prop := {
  ok_processor : bounded_identity (cfg_processor_id c) = Ok (cfg_processor_id c);
  ok_sizes : 1 <= len (cfg_connections c) <= 32 /\ 1 <= len (cfg_contributors c) <= 32 /\
             len (cfg_coverage_sources c) <= 192 /\ len (cfg_system_sources c) <= 130;
  ok_connections : NoDup (cfg_connections c);
  ok_contributors : NoDup (map spec_key (cfg_contributors c));
  (** every contributor is bound to one configured connection, and nothing else is bound *)
  ok_bound : BTreeMap.keys (cfg_contributor_connections c) ≡ₚ map spec_key (cfg_contributors c);
  ok_bound_to : Forall (fun p => p.2 ∈ cfg_connections c) (cfg_contributor_connections c);
  (** every contributor has one clock *)
  ok_clocks : map clk_subject (cfg_clock_sources c) ≡ₚ map spec_key (cfg_contributors c);
  (** and one coverage source for each of its families *)
  ok_coverage_once : NoDup (coverage_pairs (cfg_coverage_sources c));
  ok_coverage : forall k f, (k, f) ∈ coverage_pairs (cfg_coverage_sources c) <->
    exists spec, spec ∈ cfg_contributors c /\ spec_key spec = k /\ BTreeSet.contains (spec_allowed_families spec) f = true;
  ok_systems_once : NoDup (map (fun s => (sk_configured_target_key s, sk_cursor_mode s)) (cfg_system_sources c));
  ok_systems : Forall (fun s => known_target c (sk_configured_target_key s)) (cfg_system_sources c);
  ok_source_ids : NoDup (map (fun s => ck_source_id (spec_key s)) (cfg_contributors c)
    ++ map clk_source_id (cfg_clock_sources c) ++ map cov_source_id (cfg_coverage_sources c)
    ++ map sk_source_id (cfg_system_sources c));
  (** the primary contributors share one instrument, and split its families among them *)
  ok_primary : exists primary, primary ∈ cfg_contributors c /\ spec_role primary = Primary /\
    Forall (fun spec => match spec_role spec with
                        | Primary => ck_instrument (spec_key spec) = ck_instrument (spec_key primary)
                        | Confirmation => confirms (ck_instrument (spec_key primary)) (ck_instrument (spec_key spec)) = true
                        end) (cfg_contributors c);
  ok_owners : Forall (fun f => length (owners c f) = 1%nat) [FTrade; FQuote; FBook] /\
              Forall (fun f => (length (owners c f) <= 1)%nat) [FOpenInterest; FLiquidation];
  ok_confirmations : len (of_role (cfg_contributors c) Confirmation) <= 15 /\
    NoDup (map (fun s => ii_venue (ck_instrument (spec_key s))) (of_role (cfg_contributors c) Confirmation))
}.

Lemma if_Err_Ok {A E} (b : bool) (e : E) (r : result A E) a : (if b then Err e else r) = Ok a <-> b = false /\ r = Ok a.
Proof. destruct b; naive_solver. Qed.

Lemma existsb_negb_false {A} (p : A -> bool) l : existsb (fun x => negb (p x)) l = false <-> Forall (fun x => p x = true) l.
Proof.
  induction l as [|x l IH]; cbn; [by split|]. rewrite orb_false_iff, negb_false_iff, IH, Forall_cons. done.
Qed.

Lemma permutation_checks {A} (l k : list A) :
  l ≡ₚ k /\ NoDup k <-> len l = len k /\ Forall (fun x => x ∈ k) l /\ NoDup l /\ NoDup k.
Proof.
  unfold len. rewrite Nat2Z.inj_iff. split.
  - intros [Hp Hk]. rewrite Hp. split_and! ; try done. by apply Forall_forall.
  - intros (Hl & Hf & Hn & Hk). split; [|done]. apply submseteq_length_Permutation; [|lia].
    apply NoDup_submseteq; [done|]. by apply Forall_forall.
Qed.

Lemma expected_coverage_spec (contributors : list ContributorSpecV1) k f :
  (k, f) ∈ mjoin (map (fun c => map (fun f => (spec_key c, f)) (BTreeSet.elements (spec_allowed_families c))) contributors) <->
  exists spec, spec ∈ contributors /\ spec_key spec = k /\ BTreeSet.contains (spec_allowed_families spec) f = true.
Proof.
  rewrite list_elem_of_join. split.
  - intros (l & Hl & [spec [-> Hs]]%list_elem_of_fmap). apply list_elem_of_fmap in Hl as (f' & [= -> ->] & Hf).
    exists spec. split_and! ; [done|done|]. by apply BTreeMap.elem_keys.
  - intros (spec & Hs & <- & Hf). eexists. split; [|apply list_elem_of_fmap; by exists spec].
    apply list_elem_of_fmap. exists f. split; [done|]. by apply BTreeMap.elem_keys.
Qed.

Lemma bounded_identity_Ok v r : bounded_identity v = Ok r -> r = v.
Proof. unfold bounded_identity. by destruct (_ || _); intros [= ->]. Qed.

Section ConfigChecks.
Context (processor : string) (connections : list ConnectionKeyV1) (contributors : list ContributorSpecV1)
  (bound : BTreeMap ContributorKeyV1 ConnectionKeyV1) (clocks : list ClockSourceKeyV1)
  (coverage : list CoverageSourceKeyV1) (systems : list SystemSourceKeyV1).

Abbreviation config := (mkConfig processor connections contributors bound clocks coverage systems).
Abbreviation keys := (map spec_key contributors).

Lemma of_role_elem role spec : spec ∈ of_role contributors role <-> spec ∈ contributors /\ spec_role spec = role.
Proof. unfold of_role. rewrite list_elem_of_filter. tauto. Qed.

Lemma role_checks :
  primary_instrument_valid contributors = true /\ confirmation_identity_valid contributors = true <->
  exists primary, primary ∈ contributors /\ spec_role primary = Primary /\
    Forall (fun spec => match spec_role spec with
                        | Primary => ck_instrument (spec_key spec) = ck_instrument (spec_key primary)
                        | Confirmation => confirms (ck_instrument (spec_key primary)) (ck_instrument (spec_key spec)) = true
                        end) contributors.
Proof.
  unfold primary_instrument_valid, confirmation_identity_valid.
  pose proof (of_role_elem Primary) as Hp. pose proof (of_role_elem Confirmation) as Hc. split.
  - destruct (of_role contributors Primary) as [|primary rest]; [by intros []|].
    rewrite !forallb_forall. setoid_rewrite <- list_elem_of_In. intros [H1 H2]. exists primary.
    destruct (proj1 (Hp primary) ltac:(by left)) as [Hin Hr]. split_and! ; [done..|]. apply Forall_forall. intros spec Hs.
    destruct (spec_role spec) eqn:Er; [|apply H2; by apply Hc].
    by apply (bool_decide_unpack _), Is_true_true, H1, Hp.
  - intros (primary & Hin & Hr & Hall). rewrite Forall_forall in Hall.
    destruct (of_role contributors Primary) as [|first rest].
    { exfalso. exact (not_elem_of_nil _ (proj2 (Hp primary) (conj Hin Hr))). }
    destruct (proj1 (Hp first) ltac:(by left)) as [Hf Hfr]. pose proof (Hall first Hf) as Ef. rewrite Hfr in Ef.
    rewrite !forallb_forall. setoid_rewrite <- list_elem_of_In. rewrite Ef. split; intros spec Hs.
    + apply Hp in Hs as [Hs Er]. specialize (Hall spec Hs). rewrite Er in Hall. by apply bool_decide_eq_true.
    + apply Hc in Hs as [Hs Er]. specialize (Hall spec Hs). by rewrite Er in Hall.
Qed.

Lemma owner_count f : primary_family_owner_count contributors f = Z.of_nat (length (owners config f)).
Proof.
  unfold primary_family_owner_count, owners, of_role, len. cbn [cfg_contributors]. rewrite list_filter_filter.
  do 2 f_equal. apply list_filter_iff. tauto.
Qed.

Lemma owner_checks : primary_family_ownership_valid contributors = true <->
  Forall (fun f => length (owners config f) = 1%nat) [FTrade; FQuote; FBook] /\
  Forall (fun f => (length (owners config f) <= 1)%nat) [FOpenInterest; FLiquidation].
Proof.
  unfold primary_family_ownership_valid. cbn [forallb]. rewrite !owner_count, !andb_true_iff, !Forall_cons, !Z.eqb_eq, !Z.leb_le.
  rewrite !Forall_nil. lia.
Qed.

Lemma target_check t :
  target_configured (set_of keys) (set_of connections) processor t = true <-> known_target config t.
Proof. destruct t; cbn; [apply contains_set_of..|apply bool_decide_eq_true]. Qed.

Lemma bound_check :
  existsb (fun '(contributor, connection) => negb (BTreeSet.contains (set_of keys) contributor)
                                             || negb (BTreeSet.contains (set_of connections) connection)) bound = false <->
  Forall (fun k => k ∈ keys) (BTreeMap.keys bound) /\ Forall (fun p => p.2 ∈ connections) bound.
Proof.
  unfold BTreeMap.keys. rewrite Forall_fmap. induction bound as [|[k n] l IH]; cbn; [by split|].
  rewrite !Forall_cons, !orb_false_iff, !negb_false_iff, !contains_set_of, IH. tauto.
Qed.

Lemma subject_check {A} (f : A -> ContributorKeyV1) l :
  existsb (fun s => negb (BTreeSet.contains (set_of keys) (f s))) l = false <-> Forall (fun k => k ∈ keys) (map f l).
Proof. rewrite existsb_negb_false, Forall_map. apply Forall_iff. intros x. apply contains_set_of. Qed.

Lemma coverage_check :
  set_of (coverage_pairs coverage) = expected_coverage contributors <->
  forall k f, (k, f) ∈ coverage_pairs coverage <->
    exists spec, spec ∈ contributors /\ spec_key spec = k /\ BTreeSet.contains (spec_allowed_families spec) f = true.
Proof.
  unfold expected_coverage. rewrite set_of_eq. split.
  - intros H k f. rewrite H. apply expected_coverage_spec.
  - intros H [k f]. rewrite H. symmetry. apply expected_coverage_spec.
Qed.

End ConfigChecks.

Lemma nonempty_len {A} (l : list A) : l <> [] <-> 1 <= len l.
Proof. unfold len. destruct l; cbn; [split; [done|lia]|split; [lia|done]]. Qed.

(** A list built with [map] passes a distinctness test on its own length. *)
Lemma len_set_of_map {A K} `{OrdLaws K} `{!EqDecision K} (f : A -> K) l : len (set_of (map f l)) = len l <-> NoDup (map f l).
Proof. rewrite <- len_set_of. unfold len. by rewrite length_map. Qed.

(** The boolean tests of [MechanicsConfigV1::new], read as propositions. *)
Ltac config_tests :=
  rewrite !if_Err_Ok, !orb_false_iff, !negb_false_iff, !bool_decide_eq_false, !Z.eqb_eq, !Z.ltb_ge,
    bound_check, (subject_check _ clk_subject), (subject_check _ cov_subject), all_fresh_NoDup, bool_decide_eq_true,
    existsb_negb_false, !nonempty_len; unfold confirmation_venues; rewrite !len_set_of_map, len_set_of.

Section ConfigTheorem.
Context (processor : string) (connections : list ConnectionKeyV1) (contributors : list ContributorSpecV1)
  (bound : BTreeMap ContributorKeyV1 ConnectionKeyV1) (clocks : list ClockSourceKeyV1)
  (coverage : list CoverageSourceKeyV1) (systems : list SystemSourceKeyV1).
Context (Hwf : BTreeMap.wf bound).

Abbreviation config := (mkConfig processor connections contributors bound clocks coverage systems).

Lemma list_lengths :
  len (BTreeMap.keys bound) = len bound /\ len (map clk_subject clocks) = len clocks /\
  len (map spec_key contributors) = len contributors.
Proof. unfold len, BTreeMap.keys. by rewrite length_fmap, !length_map. Qed.

Lemma config_sound c : config_new processor connections contributors bound clocks coverage systems = Ok c ->
  c = config /\ config_ok config.
Proof.
  unfold config_new. intros (processor' & Hproc & H)%rbind_Ok. pose proof (bounded_identity_Ok _ _ Hproc) as ->.
  revert H. config_tests. rewrite (owner_checks processor connections contributors bound clocks coverage systems).
  intros H. destruct_and! H. destruct list_lengths as (El1 & El2 & El3). simplify_eq. split; [done|].
  pose proof (BTreeMap.keys_NoDup _ Hwf) as Hk.
  split; cbn; try done.
  - refine (proj1 (proj2 (permutation_checks (BTreeMap.keys bound) _) _)). by rewrite El1, El3.
  - refine (proj1 (proj2 (permutation_checks (map clk_subject clocks) _) _)). by rewrite El2, El3.
  - by apply coverage_check.
  - eapply Forall_impl; [eassumption|]. intros x. cbn. apply target_check.
  - by apply role_checks.
Qed.

Lemma config_complete : config_ok config ->
  config_new processor connections contributors bound clocks coverage systems = Ok config.
Proof.
  intros Hok. pose proof Hok as [Hproc Hsz Hn Hkeys Hb Hbt Hc Hcov1 Hcov Hs1 Hs Hids Hprim Hown Hconf].
  cbn [cfg_processor_id cfg_connections cfg_contributors cfg_contributor_connections cfg_clock_sources cfg_coverage_sources
    cfg_system_sources] in *. unfold config_new. rewrite Hproc. cbn [rbind]. destruct list_lengths as (El1 & El2 & El3).
  destruct (proj1 (permutation_checks _ _) (conj Hb Hkeys)) as (Lb & Fb & Nb & _).
  destruct (proj1 (permutation_checks _ _) (conj Hc Hkeys)) as (Lc & Fc & Nc & _). rewrite El1, El3 in Lb. rewrite El2, El3 in Lc.
  assert (Forall (fun k => k ∈ map spec_key contributors) (map cov_subject coverage)) as Fcov.
  { apply Forall_forall. intros k [s [-> Hin]]%list_elem_of_fmap.
    destruct (proj1 (Hcov (cov_subject s) (cov_family s))) as (spec & Hspec & <- & _).
    - apply list_elem_of_fmap. by exists s.
    - apply list_elem_of_fmap. by exists spec. }
  assert (1 <= len (of_role contributors Primary)) as Hp.
  { destruct Hprim as (p & Hin & Hr & _). apply nonempty_len. intros E.
    apply (not_elem_of_nil p). rewrite <- E. by apply of_role_elem. }
  apply role_checks in Hprim as [Hr1 Hr2]. apply coverage_check in Hcov.
  assert (Forall (fun s => target_configured (set_of (map spec_key contributors)) (set_of connections) processor
    (sk_configured_target_key s) = true) systems) as Ft.
  { eapply Forall_impl; [exact Hs|]. intros s. cbn. apply target_check. }
  apply owner_checks in Hown. config_tests.
  rewrite Z.eqb_neq. destruct Hsz as (? & ? & ? & ?), Hconf as [? ?]. split_and! ; try done; lia.
Qed.

End ConfigTheorem.

(** C19. [MechanicsConfigV1::new] accepts exactly the well-formed
    configurations, and returns its arguments: within the size limits, with
    distinct connections, contributors and source ids, every contributor bound
    to one configured connection, with one clock and one coverage source per
    allowed family, system sources that name configured targets, one primary
    instrument whose families have one owner each, and confirmations of the
    same pair on other, distinct venues. *)
Theorem config_accepts_exactly processor connections contributors bound clocks coverage systems c :
  BTreeMap.wf bound ->
  config_new processor connections contributors bound clocks coverage systems = Ok c <->
  c = mkConfig processor connections contributors bound clocks coverage systems /\ config_ok c.
Proof.
  intros Hwf. split.
  - intros H. by destruct (config_sound _ _ _ _ _ _ _ Hwf c H) as [-> Hok].
  - intros [-> Hok]. by apply config_complete.
Qed.

(** ** An example configuration *)

Definition btc : ContributorKeyV1 :=
  mkContributorKey "binance_usdm" (mkInstrumentIdentity "BTC" "USDT" "PERPETUAL" "BINANCE" "BTCUSDT").
Definition usdm : ConnectionKeyV1 := mkConnectionKey "binance_ws".
Definition btc_spec : ContributorSpecV1 := mkContributorSpec btc Primary (set_of [FTrade; FQuote; FBook]).
Definition btc_clock : ClockSourceKeyV1 := mkClockKey "clock_btc" btc.
Definition btc_coverage : list CoverageSourceKeyV1 :=
  [mkCoverageKey "cov_trade" btc FTrade; mkCoverageKey "cov_quote" btc FQuote; mkCoverageKey "cov_book" btc FBook].
Definition btc_faults : SystemSourceKeyV1 := mkSystemKey "sys_btc" KContributor (TContributor btc) Derived.
Definition link_faults : SystemSourceKeyV1 := mkSystemKey "sys_link" KConnectionEpoch (TConnection usdm) Derived.

Definition example_config : result MechanicsConfigV1 WireError :=
  config_new "mechanics" [usdm] [btc_spec] [(btc, usdm)] [btc_clock] btc_coverage [btc_faults; link_faults].

Lemma config_accepts_exactly_witness :
  config_ok (mkConfig "mechanics" [usdm] [btc_spec] [(btc, usdm)] [btc_clock] btc_coverage [btc_faults; link_faults]).
Proof.
  eapply (proj1 (config_accepts_exactly "mechanics" [usdm] [btc_spec] [(btc, usdm)] [btc_clock] btc_coverage
    [btc_faults; link_faults] _ _)).
  vm_compute. reflexivity.
  Unshelve. repeat constructor.
Defined.

(** ** Derived cursors and their display numbers *)

(** The coordinates that [CursorV1::derived] is meant for. *)
Definition in_coordinates (c : CursorV1) : Prop :=
  match c with
  | NativeRange _ _ => False
  | DerivedAction frame action item => 0 <= frame /\ 0 <= action < 65536 /\ 0 <= item < 65536
  end.

Lemma display_value c n : display_sequence c = Ok n ->
  match c with
  | NativeRange _ e => n = e
  | DerivedAction f a i => n = (f * 65536 + a) * 65536 + i
  end.
Proof.
  destruct c as [|f a i]; cbn; [by intros [= ->]|]. unfold to_ty.
  destruct (in_ty _ _); [|done]. destruct (_ <=? _); [|done]. by intros [= <-].
Qed.

Lemma cmp_derived f a i f' a' i' :
  cmp (DerivedAction f a i) (DerivedAction f' a' i') = then_with (f ?= f') (then_with (a ?= a') (i ?= i')).
Proof. done. Qed.

(** On coordinates below 65536 the display number orders derived cursors
    exactly as the cursors are ordered: it compares the same way, so that two
    cursors with one number are the same cursor. *)
Theorem display_order_exact c c' n n' : in_coordinates c -> in_coordinates c' ->
  display_sequence c = Ok n -> display_sequence c' = Ok n' -> cmp c c' = (n ?= n').
Proof.
  destruct c as [|f a i], c' as [|f' a' i']; try done. intros (? & ? & ?) (? & ? & ?) ->%display_value ->%display_value.
  rewrite cmp_derived.
  destruct (Z.compare_spec f f') as [->|Hf|Hf]; cbn [then_with].
  - destruct (Z.compare_spec a a') as [->|Ha|Ha]; cbn [then_with].
    + destruct (Z.compare_spec i i') as [->|Hi|Hi]; symmetry; [by apply Z.compare_eq_iff|apply Z.compare_lt_iff|apply Z.compare_gt_iff]; lia.
    + symmetry. apply Z.compare_lt_iff. nia.
    + symmetry. apply Z.compare_gt_iff. nia.
  - symmetry. apply Z.compare_lt_iff. nia.
  - symmetry. apply Z.compare_gt_iff. nia.
Qed.

Lemma display_order_exact_witness : cmp (DerivedAction 3 9 40000) (DerivedAction 3 10 2) = Lt.
Proof.
  rewrite (display_order_exact (DerivedAction 3 9 40000) (DerivedAction 3 10 2) 12885531712 12885557250);
    [reflexivity|cbn; lia|cbn; lia|reflexivity|reflexivity].
Defined.

(** [CursorV1::derived] only rejects the reserved action index itself: an
    action index above it is accepted and shares its display number with a
    cursor of a later frame, which the cursor order puts after it. *)
Theorem display_number_shared :
  derived 0 65536 7 = Ok (DerivedAction 0 65536 7) /\ derived 1 0 7 = Ok (DerivedAction 1 0 7) /\
  display_sequence (DerivedAction 0 65536 7) = display_sequence (DerivedAction 1 0 7) /\
  cmp (DerivedAction 0 65536 7) (DerivedAction 1 0 7) = Lt.
Proof. repeat split. Qed.
