(* ===== verification/PulseInput.v ===== *)
(** * Event pulse: inputs and their static checks ([crates/event-pulse/src/wire.rs], [wire_v2.rs])

    The inputs of both versions and [validate_static], which every input passes
    before a state machine sees it.  The payload hash is taken over the JSON
    rendering of the input, which is a parameter. *)

From stdpp Require Import base tactics numbers strings option list.
From Stdlib Require Import ZArith Lia.
From S2P Require Import Prelude Collections Fixed Text Model PulseKeys.

Local Open Scope Z_scope.

(** ** Version 1 *)

Inductive ClockStateV1 := ClockSynchronized | ClockDegraded.
Inductive ClockQualityV1 := QualityValidated | QualityDegraded.

Inductive MechanicsInputV1 :=
  | InMarket (envelope : EventEnvelope) (action_index : Z) (catalog : ReplayCatalogV1) (payload_hash : string)
  | InSystem (source : SystemSourceV1) (scope : FaultScopeV1) (occurred_at available_at : Rfc3339Time) (cursor : CursorV1)
      (fault : SystemFaultV1) (predecessor : option string) (payload_hash : string)
  | InCoverage (contributor : ContributorV1) (source : CoverageSourceV1) (family : FamilyV1)
      (covered_from covered_through available_at : Rfc3339Time) (cursor : CursorV1) (payload_hash : string)
  | InClock (contributor : ContributorV1) (source : ClockSourceV1) (observed_at available_at : Rfc3339Time)
      (cursor : CursorV1) (state : ClockStateV1) (observed_skew_ms : string) (freshness_limit_ms : Z)
      (quality : ClockQualityV1) (reason_code : string) (payload_hash : string).

Definition input_payload_hash (input : MechanicsInputV1) : string :=
  match input with
  | InMarket _ _ _ h | InSystem _ _ _ _ _ _ _ h | InCoverage _ _ _ _ _ _ _ h | InClock _ _ _ _ _ _ _ _ _ _ h => h
  end.

(** [Rfc3339Time] compares instants only. *)
Definition later (a b : Rfc3339Time) : bool := utc_micros b <? utc_micros a.

Definition catalog_validate (catalog : ReplayCatalogV1) : result unit WireError :=
  rmap (fun _ => tt)
    (catalog_new (cat_venue_sources catalog) (cat_instruments catalog) (cat_connection_epochs catalog) (cat_open_interest catalog)).

Definition valid_hash (value : string) : result unit WireError := rmap (fun _ => tt) (preimage None value).

Definition native_cursor (cursor : CursorV1) : result unit WireError :=
  rmap (fun _ => tt) (ok_or (native_range cursor) WireCursor).

Section Static.
(** SHA-256, in hexadecimal, of the JSON rendering without the payload hash. *)
Context (expected_payload_hash : MechanicsInputV1 -> result string WireError).

Definition validate_static (input : MechanicsInputV1) : result unit WireError :=
  let? expected := expected_payload_hash input in
  if negb (bool_decide (expected = input_payload_hash input)) then Err WireIdentity else
  match input with
  | InMarket envelope action_index catalog payload_hash =>
      let? _ := catalog_validate catalog in
      let? _ := validate_market_mapping catalog envelope action_index in
      valid_hash payload_hash
  | InSystem source scope occurred_at available_at cursor fault predecessor payload_hash =>
      if later occurred_at available_at then Err WireTime else
      let? _ := valid_hash payload_hash in
      let? _ := match predecessor with Some h => valid_hash h | None => Ok tt end in
      validate_system_binding source scope cursor fault
  | InCoverage contributor source family covered_from covered_through available_at cursor payload_hash =>
      if later covered_from covered_through || later covered_through available_at
         || negb (bool_decide (cov_subject (cvs_key source) = co_key contributor))
         || negb (bool_decide (cov_family (cvs_key source) = family)) then Err WireIdentity else
      let? _ := native_cursor cursor in
      valid_hash payload_hash
  | InClock contributor source observed_at available_at cursor _ _ freshness_limit_ms _ reason_code payload_hash =>
      if later observed_at available_at || (freshness_limit_ms =? 0)
         || negb (bool_decide (clk_subject (cls_key source) = co_key contributor))
         || bool_decide (reason_code = EmptyString)
         || negb (all_bytes reason_code (fun b => is_upper b || is_digit b || (b =? 95))) then Err WireIdentity else
      let? _ := native_cursor cursor in
      valid_hash payload_hash
  end.

End Static.

(** ** Version 2 *)

Definition MAX_TIMESTAMP_MS : Z := 9223372036854.

Inductive MarketCursorV2 :=
  | Native2 (first_sequence last_sequence : Z)
  | Derived2 (raw_frame_seq action_index item_index : Z).

#[export] Instance MarketCursorV2_eq_dec : EqDecision MarketCursorV2.
Proof. solve_decision. Defined.

Definition cursor2_fields (c : MarketCursorV2) : Z * (Z * (Z * Z)) :=
  match c with Native2 s e => (0, (s, (e, 0))) | Derived2 f a i => (1, (f, (a, i))) end.
#[export] Instance cursor2_fields_inj : Inj (=) (=) cursor2_fields.
Proof. intros [] [] H; cbn in H; by simplify_eq. Qed.
#[export] Instance ord_cursor2 : Ord MarketCursorV2 := cmp_by cursor2_fields.
#[export] Instance ord_laws_cursor2 : OrdLaws MarketCursorV2 := ord_laws_by cursor2_fields.

Definition cursor2_validate (c : MarketCursorV2) : result unit WireError :=
  match c with
  | Native2 first last => if (first <=? last) && (last <=? MAX_I64_U64) then Ok tt else Err WireCursor
  | Derived2 frame action item =>
      if (0 <? frame) && (action <=? 65534) && (item <=? 65535) then Ok tt else Err WireCursor
  end.

Inductive SourceProvenanceV2 :=
  | ProvNone
  | BinanceBookTicker (update_id event_time_ms transaction_time_ms : Z)
  | BinanceBookDelta (first_update_id final_update_id previous_final_update_id event_time_ms transaction_time_ms : Z)
  | BinanceBookSnapshot (last_update_id event_time_ms transaction_time_ms : Z)
  | BinanceAggregateTrade (aggregate_trade_id event_time_ms trade_time_ms : Z)
  | BinanceOpenInterest (source_time_ms : Z)
  | BinanceForceOrder (event_time_ms order_trade_time_ms : Z).

Definition bounded_time (value : Z) : result unit WireError := if value <=? MAX_TIMESTAMP_MS then Ok tt else Err WireTime.
Definition bounded_native (value : Z) : result unit WireError := if value <=? MAX_I64_U64 then Ok tt else Err WireCursor.

Definition validate_bounds (p : SourceProvenanceV2) : result unit WireError :=
  match p with
  | ProvNone => Ok tt
  | BinanceBookTicker _ event transaction => let? _ := bounded_time event in bounded_time transaction
  | BinanceBookDelta first final previous event transaction =>
      let? _ := bounded_native first in
      let? _ := bounded_native final in
      let? _ := bounded_native previous in
      if final <? first then Err WireCursor else
      let? _ := bounded_time event in bounded_time transaction
  | BinanceBookSnapshot last event transaction =>
      let? _ := bounded_native last in
      let? _ := bounded_time event in bounded_time transaction
  | BinanceAggregateTrade id event trade =>
      let? _ := bounded_native id in
      let? _ := bounded_time event in bounded_time trade
  | BinanceOpenInterest source => bounded_time source
  | BinanceForceOrder event order => let? _ := bounded_time event in bounded_time order
  end.

Inductive MechanicsInputV2 :=
  | Market2 (envelope : EventEnvelope) (action_index : Z) (catalog : ReplayCatalogV1) (cursor : MarketCursorV2)
      (provenance : SourceProvenanceV2) (payload_hash : string)
  | NonMarket2 (input : MechanicsInputV1).

Definition validate_cursor_binding (envelope : EventEnvelope) (action_index : Z) (cursor : MarketCursorV2) : result unit WireError :=
  match cursor, env_source_sequence envelope with
  | Native2 first last, Some sequence =>
      if (first =? seq_first sequence) && (last =? seq_last sequence) then Ok tt else Err WireCursor
  | Derived2 frame action item, None =>
      if (frame =? env_frame_seq envelope) && (action =? action_index) && (item =? env_event_index envelope)
      then Ok tt else Err WireCursor
  | _, _ => Err WireCursor
  end.

Definition require_exchange_time (source_ms exchange_ns : Z) : result unit WireError :=
  match to_ty I64 source_ms with
  | Some v => match checked_mul I64 v 1000000 with
              | Some source_ns => if source_ns =? exchange_ns then Ok tt else Err WireTime
              | None => Err WireTime
              end
  | None => Err WireTime
  end.

Definition exact_instrument (source : string) (i : InstrumentIdentityV1) : bool :=
  (if one_of ["binance_primary_public"; "binance_primary_market"]%string source
   then bool_decide (ii_venue i = "BINANCE"%string) && bool_decide (ii_venue_symbol i = "BNBUSDT"%string)
   else if bool_decide (source = "hyperliquid_confirmation"%string)
   then bool_decide (ii_venue i = "HYPERLIQUID"%string) && bool_decide (ii_venue_symbol i = "BNB"%string)
   else false)
  && bool_decide (ii_base_asset i = "BNB"%string) && bool_decide (ii_quote_asset i = "USDT"%string)
  && bool_decide (ii_market_type i = "PERPETUAL"%string).

(** The final [match] of [validate_market_without_hash]. *)
Definition provenance_binding (payload : MarketEvent) (source : string) (p : SourceProvenanceV2) (cursor : MarketCursorV2)
    (exchange_ns : Z) : result unit WireError :=
  let public := bool_decide (source = "binance_primary_public"%string) in
  let market := bool_decide (source = "binance_primary_market"%string) in
  let confirmation := bool_decide (source = "hyperliquid_confirmation"%string) in
  let when (b : bool) (r : result unit WireError) := if b then r else Err WireIdentity in
  match payload, p, cursor with
  | EvQuote _, BinanceBookTicker _ _ transaction, Derived2 _ _ _ => when public (require_exchange_time transaction exchange_ns)
  | EvBookDelta _, BinanceBookDelta first final _ _ transaction, Native2 f l =>
      when (public && (first =? f) && (final =? l)) (require_exchange_time transaction exchange_ns)
  | EvBookSnapshot _, BinanceBookSnapshot last _ transaction, Native2 f l =>
      when (public && (last =? f) && (last =? l)) (require_exchange_time transaction exchange_ns)
  | EvTrade _, BinanceAggregateTrade id _ trade, Native2 f l =>
      when (market && (id =? f) && (id =? l)) (require_exchange_time trade exchange_ns)
  | EvOpenInterest _, BinanceOpenInterest source_time, Derived2 _ _ _ => when market (require_exchange_time source_time exchange_ns)
  | EvLiquidation _, BinanceForceOrder _ order, Derived2 _ _ _ => when market (require_exchange_time order exchange_ns)
  | EvMarkPrice _, ProvNone, Derived2 _ _ _ | EvIndexPrice _, ProvNone, Derived2 _ _ _ => when confirmation (Ok tt)
  | _, _, _ => Err WireIdentity
  end.

Definition validate_market_without_hash (input : MechanicsInputV2) : result unit WireError :=
  match input with
  | NonMarket2 _ => Err WireIdentity
  | Market2 envelope action_index catalog cursor provenance _ =>
      let? _ := catalog_validate catalog in
      let? _ := validate_market_catalog_action catalog envelope action_index in
      let? _ := cursor2_validate cursor in
      let? _ := validate_bounds provenance in
      let? _ := validate_cursor_binding envelope action_index cursor in
      let? venue := ok_or (BTreeMap.get (cat_venue_sources catalog) (env_venue envelope)) WireIdentity in
      let? instrument := ok_or (env_instrument envelope ≫= BTreeMap.get (cat_instruments catalog)) WireIdentity in
      if negb (exact_instrument (ve_source_id venue) instrument) then Err WireIdentity else
      let? exchange_ns := ok_or (env_exchange_ts envelope) WireTime in
      provenance_binding (env_payload envelope) (ve_source_id venue) provenance cursor exchange_ns
  end.

Definition lower_hex (b : Z) : bool := is_digit b || between 97 102 b.

Section Static2.
Context (expected_payload_hash : MechanicsInputV1 -> result string WireError)
  (expected_payload_hash2 : MechanicsInputV2 -> result string WireError).

Definition validate_static2 (input : MechanicsInputV2) : result unit WireError :=
  match input with
  | NonMarket2 v1 => validate_static expected_payload_hash v1
  | Market2 _ _ _ _ _ payload_hash =>
      let? _ := validate_market_without_hash input in
      let? expected := expected_payload_hash2 input in
      if negb (bool_decide (expected = payload_hash)) then Err WireIdentity else
      if (str_len payload_hash =? 64) && all_bytes payload_hash lower_hex then Ok tt else Err WireIdentity
  end.

End Static2.
