(* ===== verification/PulseSlot.v ===== *)
(** * Event pulse: source slots ([crates/event-pulse/src/cursor.rs])

    The state one source keeps: its epoch and the history of epochs, its
    cursor, the warm-up it must pass before it is live, and the invalidity that
    only a new epoch, or a new processor, lifts.  [Slot] serves contributors,
    clocks, coverage and system sources; [ConnectionSlot] the connections. *)

From stdpp Require Import base tactics numbers strings option list.
From Stdlib Require Import ZArith Lia.
From S2P Require Import Prelude Collections Text PulseKeys.

Local Open Scope Z_scope.

Definition WARMUP_NS : Z := 60000000000.

Inductive SlotState := Cold | Warming | SlotLive | Invalid.
Inductive Invalidity := Recoverable | Terminal.
Inductive IngestOutcome := AcceptedWarming | AcceptedLive | Invalidated | IgnoredDuplicate.

Inductive CursorError :=
  | UnconfiguredIdentity | SubjectNotInitialized | SubjectEpochMismatch | EpochMismatch | EpochReused
  | EpochHistoryExhausted | NativeOverlap | NativeGap | NativeRegression | DerivedRegression | MutatedDuplicate
  | AvailabilityRegression | CursorMode | SystemPredecessor | FaultScopeMismatch | EmptyFaultExpansion | TimeOverflow
  | TerminalInvalid.

#[export] Instance SlotState_eq_dec : EqDecision SlotState.
Proof. solve_decision. Defined.
#[export] Instance Invalidity_eq_dec : EqDecision Invalidity.
Proof. solve_decision. Defined.
#[export] Instance IngestOutcome_eq_dec : EqDecision IngestOutcome.
Proof. solve_decision. Defined.
#[export] Instance CursorError_eq_dec : EqDecision CursorError.
Proof. solve_decision. Defined.

Definition invalidates_state (self : CursorError) : bool :=
  match self with
  | NativeOverlap | NativeGap | NativeRegression | DerivedRegression | MutatedDuplicate | AvailabilityRegression
  | EpochMismatch | EpochReused | EpochHistoryExhausted | CursorMode | TimeOverflow | TerminalInvalid => true
  | _ => false
  end.

(** ** One source *)

Record Slot := mkSlot {
  sl_state : SlotState;
  sl_invalidity : option Invalidity;
  sl_epoch : option string;
  sl_generation : option Z;
  sl_history : BTreeSet string;
  sl_first_available_ns : option Z;
  sl_cursor : option CursorV1;
  sl_available_at_ns : option Z;
  sl_retained_available_at_ns : option Z;
  sl_payload_hash : option string;
  sl_cursor_mode : option CursorModeV1;
  sl_observation_present : bool;
  sl_observation_subject_epoch : option (string * Z);
  sl_book_eligible : bool;
  sl_book_snapshot_permitted : bool
}.

#[export] Instance eta_Slot : Eta Slot := fun s =>
  mkSlot (sl_state s) (sl_invalidity s) (sl_epoch s) (sl_generation s) (sl_history s) (sl_first_available_ns s) (sl_cursor s)
    (sl_available_at_ns s) (sl_retained_available_at_ns s) (sl_payload_hash s) (sl_cursor_mode s) (sl_observation_present s)
    (sl_observation_subject_epoch s) (sl_book_eligible s) (sl_book_snapshot_permitted s).

Definition slot_default : Slot :=
  mkSlot Cold None None None [] None None None None None None false None false false.

Abbreviation SlotM := (Eff Slot CursorError).

Definition is_terminal (s : Slot) : bool := bool_decide (sl_invalidity s = Some Terminal).

Definition clear_observation (s : Slot) : Slot :=
  s ⟪ sl_observation_present := false ⟫ ⟪ sl_observation_subject_epoch := None ⟫.

Definition invalidate_recoverable (s : Slot) : Slot :=
  if is_terminal s then s else s ⟪ sl_state := Invalid ⟫ ⟪ sl_invalidity := Some Recoverable ⟫.

Definition invalidate_terminal (s : Slot) : Slot :=
  s ⟪ sl_state := Invalid ⟫ ⟪ sl_invalidity := Some Terminal ⟫.

Definition clear_current (s : Slot) : Slot :=
  if is_terminal s then clear_observation (s ⟪ sl_state := Invalid ⟫) else
  mkSlot Cold None None None (sl_history s) None None None (sl_retained_available_at_ns s) None None false None false false.

Definition retire_cursor (s : Slot) : Slot :=
  if is_terminal s then clear_observation (s ⟪ sl_state := Invalid ⟫) else
  mkSlot Cold None (sl_epoch s) (sl_generation s) (sl_history s) None None None (sl_retained_available_at_ns s) None None
    false None false false.

Definition preflight_epoch_transition (epoch : string) : SlotM unit :=
  let! s := eget in
  if BTreeSet.contains (sl_history s) epoch then emod invalidate_terminal !; ethrow EpochReused else
  if 256 <=? len (sl_history s) then emod invalidate_terminal !; ethrow EpochHistoryExhausted else
  eret tt.

Definition preflight_time (at_ns : Z) : SlotM unit :=
  let! s := eget in
  if match sl_retained_available_at_ns s with Some retained => at_ns <? retained | None => false end
  then emod invalidate_recoverable !; ethrow AvailabilityRegression else eret tt.

Definition begin_epoch (epoch : string) (generation at_ns : Z) : SlotM unit :=
  let! s := eget in
  if is_terminal s then ethrow TerminalInvalid else
  preflight_epoch_transition epoch !;
  preflight_time at_ns !;
  emod (fun s =>
    mkSlot Warming None (Some epoch) (Some generation) (BTreeSet.insert (sl_history s) epoch) (Some at_ns) None None
      (Some at_ns) None None false None false false).

Definition prepare_epoch (epoch : string) (generation at_ns : Z) : SlotM bool :=
  let! s := eget in
  if is_terminal s then ethrow TerminalInvalid else
  (if bool_decide (sl_epoch s = Some epoch) then eret tt else preflight_epoch_transition epoch) !;
  match sl_generation s, sl_epoch s with
  | None, None => begin_epoch epoch generation at_ns !; eret true
  | Some current, current_epoch =>
      if (generation =? current) && bool_decide (current_epoch = Some epoch) then
        if bool_decide (sl_state s = Invalid) then ethrow EpochMismatch else
        (if bool_decide (sl_state s = Cold)
         then emod (fun s => s ⟪ sl_first_available_ns := Some at_ns ⟫ ⟪ sl_state := Warming ⟫) else eret tt) !;
        eret false
      else if current <? generation then begin_epoch epoch generation at_ns !; eret true
      else emod invalidate_recoverable !; ethrow EpochMismatch
  | None, Some _ => emod invalidate_recoverable !; ethrow EpochMismatch
  end.

(** The comparison of a cursor with the one accepted before it. *)
Definition follows (mode : CursorModeV1) (previous cursor : CursorV1) : SlotM unit :=
  match mode with
  | Native =>
      let! range := elift (ok_or (native_range cursor) CursorMode) in
      let! previous_range := elift (ok_or (native_range previous) CursorMode) in
      let '(start, _) := range in
      let '(previous_start, previous_end) := previous_range in
      if start <=? previous_end
      then emod invalidate_recoverable !; ethrow (if start <? previous_start then NativeRegression else NativeOverlap)
      else if bool_decide (checked_add U64 previous_end 1 = Some start) then eret tt
      else emod invalidate_recoverable !; ethrow NativeGap
  | Derived =>
      if bool_decide (derived_coordinate cursor = None) || bool_decide (derived_coordinate previous = None)
      then ethrow CursorMode
      else if bool_decide (cmp cursor previous = Lt) then emod invalidate_recoverable !; ethrow DerivedRegression
      else eret tt
  end.

Definition mode_fits (mode : CursorModeV1) (cursor : CursorV1) : SlotM unit :=
  match mode with
  | Native => if bool_decide (native_range cursor = None) then ethrow CursorMode else eret tt
  | Derived => if bool_decide (derived_coordinate cursor = None) then ethrow CursorMode else eret tt
  end.

Definition warmed (elapsed : Z) : SlotState * IngestOutcome :=
  if WARMUP_NS <=? elapsed then (SlotLive, AcceptedLive) else (Warming, AcceptedWarming).

(** The tail of [accept_cursor]. *)
Definition commit_cursor (cursor : CursorV1) (at_ns : Z) (payload_hash : string) (mode : CursorModeV1) : SlotM IngestOutcome :=
  let! s := eget in
  match sl_first_available_ns s with
  | None => emod invalidate_recoverable !; ethrow TimeOverflow
  | Some first =>
      match checked_sub I64 at_ns first with
      | None => emod invalidate_recoverable !; ethrow TimeOverflow
      | Some elapsed =>
          let '(state, outcome) := warmed elapsed in
          emod (fun s =>
            s ⟪ sl_cursor := Some cursor ⟫ ⟪ sl_cursor_mode := Some mode ⟫ ⟪ sl_available_at_ns := Some at_ns ⟫
              ⟪ sl_retained_available_at_ns := Some at_ns ⟫ ⟪ sl_payload_hash := Some payload_hash ⟫
              ⟪ sl_observation_present := true ⟫ ⟪ sl_state := state ⟫) !;
          eret outcome
      end
  end.

Definition accept_cursor (cursor : CursorV1) (at_ns : Z) (payload_hash : string) (mode : CursorModeV1) : SlotM IngestOutcome :=
  preflight_time at_ns !;
  let! s := eget in
  if match sl_cursor_mode s with Some current => negb (bool_decide (current = mode)) | None => false end
  then emod invalidate_recoverable !; ethrow CursorMode else
  if match sl_available_at_ns s with Some last => at_ns <? last | None => false end
  then emod invalidate_recoverable !; ethrow AvailabilityRegression else
  match sl_cursor s with
  | Some previous =>
      if bool_decide (previous = cursor) then
        if bool_decide (sl_payload_hash s = Some payload_hash) then eret IgnoredDuplicate
        else emod invalidate_recoverable !; ethrow MutatedDuplicate
      else follows mode previous cursor !; commit_cursor cursor at_ns payload_hash mode
  | None => mode_fits mode cursor !; commit_cursor cursor at_ns payload_hash mode
  end.

Record CursorView := mkCursorView {
  view_epoch : string;
  view_epoch_generation : Z;
  view_cursor : CursorV1;
  view_available_at_ns : Z;
  view_payload_hash : string
}.

Definition view (s : Slot) : option CursorView :=
  epoch ← sl_epoch s; generation ← sl_generation s; cursor ← sl_cursor s; at_ns ← sl_available_at_ns s;
  payload_hash ← sl_payload_hash s; Some (mkCursorView epoch generation cursor at_ns payload_hash).

Definition invalidate_slot_for_queue_drop (s : Slot) : Slot :=
  invalidate_recoverable (retire_cursor (invalidate_recoverable s)).

(** ** One connection *)

Record ConnectionSlot := mkConnectionSlot {
  cn_state : SlotState;
  cn_invalidity : option Invalidity;
  cn_epoch : option string;
  cn_generation : option Z;
  cn_history : BTreeSet string
}.

#[export] Instance eta_ConnectionSlot : Eta ConnectionSlot := fun s =>
  mkConnectionSlot (cn_state s) (cn_invalidity s) (cn_epoch s) (cn_generation s) (cn_history s).

Definition connection_slot_default : ConnectionSlot := mkConnectionSlot Cold None None None [].

Definition connection_invalidate_recoverable (s : ConnectionSlot) : ConnectionSlot :=
  if bool_decide (cn_invalidity s = Some Terminal) then s
  else s ⟪ cn_state := Invalid ⟫ ⟪ cn_invalidity := Some Recoverable ⟫.

Definition connection_invalidate_terminal (s : ConnectionSlot) : ConnectionSlot :=
  s ⟪ cn_state := Invalid ⟫ ⟪ cn_invalidity := Some Terminal ⟫.

Definition connection_begin_epoch (epoch : string) (generation : Z) : Eff ConnectionSlot CursorError unit :=
  let! s := eget in
  if bool_decide (cn_invalidity s = Some Terminal) then ethrow TerminalInvalid else
  if BTreeSet.contains (cn_history s) epoch then emod connection_invalidate_terminal !; ethrow EpochReused else
  if 256 <=? len (cn_history s) then emod connection_invalidate_terminal !; ethrow EpochHistoryExhausted else
  eput (mkConnectionSlot Warming None (Some epoch) (Some generation) (BTreeSet.insert (cn_history s) epoch)).

(** ** What accepting a cursor means *)

(** [cursor], read at [at_ns], continues what the slot has accepted. *)
Definition in_sequence (previous cursor : CursorV1) : Prop :=
  match previous, cursor with
  | NativeRange _ last, NativeRange start _ => start = last + 1
  | DerivedAction _ _ _, DerivedAction _ _ _ => cmp previous cursor = Lt
  | _, _ => False
  end.

Definition of_mode (mode : CursorModeV1) (cursor : CursorV1) : Prop :=
  match mode, cursor with Native, NativeRange _ _ | Derived, DerivedAction _ _ _ => True | _, _ => False end.

Record continues (mode : CursorModeV1) (s : Slot) (cursor : CursorV1) (at_ns : Z) : Prop := {
  ct_time : forall r, sl_retained_available_at_ns s = Some r -> r <= at_ns;
  ct_available : forall r, sl_available_at_ns s = Some r -> r <= at_ns;
  ct_mode : forall m, sl_cursor_mode s = Some m -> m = mode;
  ct_fits : of_mode mode cursor;
  ct_next : forall p, sl_cursor s = Some p -> in_sequence p cursor
}.

Definition committed (s : Slot) (cursor : CursorV1) (at_ns : Z) (payload_hash : string) (mode : CursorModeV1)
    (state : SlotState) : Slot :=
  s ⟪ sl_cursor := Some cursor ⟫ ⟪ sl_cursor_mode := Some mode ⟫ ⟪ sl_available_at_ns := Some at_ns ⟫
    ⟪ sl_retained_available_at_ns := Some at_ns ⟫ ⟪ sl_payload_hash := Some payload_hash ⟫
    ⟪ sl_observation_present := true ⟫ ⟪ sl_state := state ⟫.

Definition failed (s s' : Slot) : Prop := s' = s \/ s' = invalidate_recoverable s.

Lemma preflight_time_cases at_ns s :
  match preflight_time at_ns s with
  | (Ok _, s') => s' = s /\ forall r, sl_retained_available_at_ns s = Some r -> r <= at_ns
  | (Err e, s') => e = AvailabilityRegression /\ s' = invalidate_recoverable s
  end.
Proof.
  unfold preflight_time. eff_unfold. destruct (sl_retained_available_at_ns s) as [r|]; [|done].
  destruct (at_ns <? r) eqn:E; [done|]. cbn. split; [done|]. intros ? [= <-]. lia.
Qed.

Lemma follows_cases mode previous cursor s :
  match follows mode previous cursor s with
  | (Ok _, s') => s' = s /\ (previous <> cursor -> of_mode mode cursor /\ in_sequence previous cursor)
  | (Err e, s') => failed s s'
  end.
Proof.
  unfold follows, failed. destruct mode.
  - eff_unfold. destruct cursor as [start e|], previous as [pstart pend|]; cbn; try by left.
    destruct (start <=? pend); [by right|]. case_bool_decide as Ha; [|by right].
    cbn. split; [done|]. intros _. apply to_ty_Some in Ha as [-> _]. done.
  - destruct cursor as [|f a i], previous as [|pf pa pi]; cbn [derived_coordinate]; try by left.
    rewrite !bool_decide_eq_false_2 by done. cbn [orb]. eff_unfold. case_bool_decide as Hc; [by right|]. cbn.
    split; [done|]. intros Hne. split; [done|]. cbn. destruct (cmp (DerivedAction f a i) (DerivedAction pf pa pi)) eqn:E; [|done|].
    + apply cmp_eq in E. congruence.
    + by apply cmp_gt_lt.
Qed.

Lemma mode_fits_cases mode cursor s :
  match mode_fits mode cursor s with (Ok _, s') => s' = s /\ of_mode mode cursor | (Err e, s') => s' = s end.
Proof. unfold mode_fits. destruct mode, cursor; cbn; done. Qed.

Lemma commit_cursor_cases cursor at_ns payload_hash mode s :
  match commit_cursor cursor at_ns payload_hash mode s with
  | (Ok o, s') => exists first, sl_first_available_ns s = Some first /\ (o = AcceptedLive <-> WARMUP_NS <= at_ns - first) /\
      (o = AcceptedLive /\ s' = committed s cursor at_ns payload_hash mode SlotLive \/
       o = AcceptedWarming /\ s' = committed s cursor at_ns payload_hash mode Warming)
  | (Err e, s') => failed s s'
  end.
Proof.
  unfold commit_cursor, failed. eff_unfold. destruct (sl_first_available_ns s) as [first|] eqn:Ef; [|by right].
  destruct (checked_sub I64 at_ns first) as [elapsed|] eqn:Es; [|by right]. apply to_ty_Some in Es as [-> _].
  unfold warmed. destruct (WARMUP_NS <=? at_ns - first) eqn:Ew; cbn; exists first.
  - split_and! ; [done|split; [lia|done]|by left].
  - split_and! ; [done|split; [done|lia]|by right].
Qed.

Lemma accept_cursor_cases cursor at_ns payload_hash mode s :
  match accept_cursor cursor at_ns payload_hash mode s with
  | (Ok o, s') =>
      (o = IgnoredDuplicate /\ s' = s /\ sl_cursor s = Some cursor /\ sl_payload_hash s = Some payload_hash) \/
      continues mode s cursor at_ns /\
      exists first, sl_first_available_ns s = Some first /\ (o = AcceptedLive <-> WARMUP_NS <= at_ns - first) /\
      (o = AcceptedLive /\ s' = committed s cursor at_ns payload_hash mode SlotLive \/
       o = AcceptedWarming /\ s' = committed s cursor at_ns payload_hash mode Warming)
  | (Err e, s') => failed s s'
  end.
Proof.
  unfold accept_cursor. pose proof (preflight_time_cases at_ns s) as Ht. unfold ebind at 1.
  destruct (preflight_time at_ns s) as [[[]|e] s1]; [|destruct Ht as [_ ->]; by right].
  destruct Ht as [-> Ht]. unfold ebind at 1, eget at 1.
  destruct (match sl_cursor_mode s with Some _ => _ | None => _ end) eqn:Em; [by right|].
  destruct (match sl_available_at_ns s with Some _ => _ | None => _ end) eqn:Ea; [by right|].
  assert (Hm : forall m, sl_cursor_mode s = Some m -> m = mode).
  { intros m E. rewrite E in Em. by apply negb_false_iff, bool_decide_eq_true in Em. }
  assert (Ha : forall r, sl_available_at_ns s = Some r -> r <= at_ns) by (intros r E; rewrite E in Ea; lia).
  destruct (sl_cursor s) as [previous|] eqn:Ec.
  - case_bool_decide as Hp; [subst; case_bool_decide; [by left|by right]|].
    pose proof (follows_cases mode previous cursor s) as Hf. unfold ebind.
    destruct (follows mode previous cursor s) as [[[]|e] s1]; [|done]. destruct Hf as [-> Hf]. specialize (Hf Hp) as [Hf1 Hf2].
    pose proof (commit_cursor_cases cursor at_ns payload_hash mode s) as Hc.
    destruct (commit_cursor cursor at_ns payload_hash mode s) as [[o|e] s']; [|done]. right. split; [|done].
    split; try done. intros p E. rewrite Ec in E. by injection E as <-.
  - pose proof (mode_fits_cases mode cursor s) as Hf. unfold ebind.
    destruct (mode_fits mode cursor s) as [[[]|e] s1]; [|by left]. destruct Hf as [-> Hf].
    pose proof (commit_cursor_cases cursor at_ns payload_hash mode s) as Hc.
    destruct (commit_cursor cursor at_ns payload_hash mode s) as [[o|e] s']; [|done]. right. split; [|done].
    split; try done. intros p E. by rewrite Ec in E.
Qed.

(** ** The invariant of a slot *)

Record slot_core (s : Slot) : Prop := {
  sc_epoch : is_Some (sl_generation s) <-> is_Some (sl_epoch s);
  sc_known : forall e, sl_epoch s = Some e -> BTreeSet.contains (sl_history s) e = true;
  sc_history : BTreeMap.wf (sl_history s) /\ len (sl_history s) <= 256;
  sc_cursor :
    match sl_cursor s, sl_cursor_mode s, sl_available_at_ns s, sl_payload_hash s with
    | Some c, Some m, Some t, Some _ =>
        of_mode m c /\ is_Some (sl_epoch s) /\ exists r, sl_retained_available_at_ns s = Some r /\ t <= r
    | None, None, None, None => True
    | _, _, _, _ => False
    end;
  sc_running : sl_state s = Warming \/ sl_state s = SlotLive -> is_Some (sl_epoch s) /\ is_Some (sl_first_available_ns s);
  sc_live : sl_state s = SlotLive ->
    exists first t, sl_first_available_ns s = Some first /\ sl_available_at_ns s = Some t /\ WARMUP_NS <= t - first
}.

Definition settled (s : Slot) : Prop := sl_state s = Invalid <-> is_Some (sl_invalidity s).
Definition slot_ok (s : Slot) : Prop := slot_core s /\ settled s.

(** What no operation undoes: terminal invalidity, the history of epochs and
    the latest time seen. *)
Record grows (s s' : Slot) : Prop := {
  gr_terminal : is_terminal s = true -> is_terminal s' = true;
  gr_history : forall e, BTreeSet.contains (sl_history s) e = true -> BTreeSet.contains (sl_history s') e = true;
  gr_time : forall r, sl_retained_available_at_ns s = Some r -> exists r', sl_retained_available_at_ns s' = Some r' /\ r <= r'
}.

#[export] Instance grows_preorder : PreOrder grows.
Proof.
  split.
  - intros s. split; [done..|]. intros r Hr. by exists r.
  - intros s1 s2 s3 [T1 H1 R1] [T2 H2 R2]. split; [auto..|]. intros r Hr. destruct (R1 r Hr) as (r' & Hr' & Hle).
    destruct (R2 r' Hr') as (r'' & Hr'' & Hle'). exists r''. split; [done|lia].
Qed.

Lemma default_ok : slot_ok slot_default.
Proof.
  split; [|by split; [|intros []]]. split; cbn; try done; [|by intros [|]]. split; [apply BTreeMap.wf_empty|done].
Qed.

Lemma terminal_spec s : is_terminal s = true <-> sl_invalidity s = Some Terminal.
Proof. unfold is_terminal. apply bool_decide_eq_true. Qed.

Lemma invalidate_recoverable_core s : slot_core s -> slot_core (invalidate_recoverable s).
Proof. intros H. unfold invalidate_recoverable. destruct (is_terminal s); [done|]. destruct H. split; cbn; try done. by intros [|]. Qed.

(** Invalidation settles a slot whatever its state was. *)
Lemma invalidate_recoverable_settled s : (is_terminal s = true -> sl_state s = Invalid) -> settled (invalidate_recoverable s).
Proof.
  intros H. unfold invalidate_recoverable, settled. destruct (is_terminal s) eqn:E; [|split; [by eexists|done]].
  split; [|by intros _; apply H]. intros _. apply terminal_spec in E. by rewrite E.
Qed.

Lemma settled_terminal s : settled s -> is_terminal s = true -> sl_state s = Invalid.
Proof. intros H Ht. apply H. apply terminal_spec in Ht. by rewrite Ht. Qed.

Lemma settled_valid s : settled s -> sl_state s <> Invalid -> sl_invalidity s = None.
Proof. intros H Hne. destruct (sl_invalidity s) eqn:E; [|done]. exfalso. apply Hne, H. by rewrite E. Qed.

Lemma invalidate_recoverable_ok s : slot_ok s -> slot_ok (invalidate_recoverable s).
Proof.
  intros [Hc Hs]. split; [by apply invalidate_recoverable_core|]. apply invalidate_recoverable_settled.
  by apply settled_terminal.
Qed.

Lemma invalidate_recoverable_grows s : grows s (invalidate_recoverable s).
Proof. unfold invalidate_recoverable. destruct (is_terminal s) eqn:E; [done|]. split; cbn; [congruence|done|]. intros r Hr. by exists r. Qed.

Lemma invalidate_terminal_ok s : slot_core s -> slot_ok (invalidate_terminal s).
Proof. intros []. split; [|split; [by eexists|done]]. split; cbn; try done. by intros [|]. Qed.

Lemma invalidate_terminal_grows s : grows s (invalidate_terminal s).
Proof. split; cbn; [done|done|]. intros r Hr. by exists r. Qed.

Lemma clear_observation_ok s : slot_ok s -> slot_ok (clear_observation s).
Proof. by intros [[] Hs]. Qed.

Lemma clear_observation_grows s : grows s (clear_observation s).
Proof. split; cbn; [done|done|]. intros r Hr. by exists r. Qed.

Lemma retire_terminal_ok s : slot_ok s -> is_terminal s = true -> slot_ok (clear_observation (s ⟪ sl_state := Invalid ⟫)).
Proof.
  intros [[] Hs] Ht. split; [|split; [|done]]; cbn.
  - split; cbn; try done. by intros [|].
  - intros _. apply terminal_spec in Ht. by rewrite Ht.
Qed.

Lemma clear_current_ok s : slot_ok s -> slot_ok (clear_current s).
Proof.
  intros H. unfold clear_current. destruct (is_terminal s) eqn:E; [by apply retire_terminal_ok|]. destruct H as [[] _].
  split; [|by split; [|intros []]]. split; cbn; try done. by intros [|].
Qed.

Lemma clear_current_grows s : grows s (clear_current s).
Proof.
  unfold clear_current. destruct (is_terminal s) eqn:E; split; cbn; try done; try (intros r Hr; by exists r). congruence.
Qed.

Lemma retire_cursor_ok s : slot_ok s -> slot_ok (retire_cursor s).
Proof.
  intros H. unfold retire_cursor. destruct (is_terminal s) eqn:E; [by apply retire_terminal_ok|]. destruct H as [[] _].
  split; [|by split; [|intros []]]. split; cbn; try done. by intros [|].
Qed.

Lemma retire_cursor_grows s : grows s (retire_cursor s).
Proof.
  unfold retire_cursor. destruct (is_terminal s) eqn:E; split; cbn; try done; try (intros r Hr; by exists r). congruence.
Qed.

Lemma queue_drop_ok s : slot_ok s -> slot_ok (invalidate_slot_for_queue_drop s).
Proof. intros H. by apply invalidate_recoverable_ok, retire_cursor_ok, invalidate_recoverable_ok. Qed.

Lemma queue_drop_grows s : grows s (invalidate_slot_for_queue_drop s).
Proof.
  etransitivity; [apply invalidate_recoverable_grows|]. etransitivity; [apply retire_cursor_grows|].
  apply invalidate_recoverable_grows.
Qed.

(** ** Epochs *)

Definition opened (s : Slot) (epoch : string) (generation at_ns : Z) : Slot :=
  mkSlot Warming None (Some epoch) (Some generation) (BTreeSet.insert (sl_history s) epoch) (Some at_ns) None None
    (Some at_ns) None None false None false false.

Record may_open (s : Slot) (epoch : string) (at_ns : Z) : Prop := {
  mo_terminal : is_terminal s = false;
  mo_new : BTreeSet.contains (sl_history s) epoch = false;
  mo_room : len (sl_history s) < 256;
  mo_time : forall r, sl_retained_available_at_ns s = Some r -> r <= at_ns
}.

Definition refused (s s' : Slot) : Prop := s' = s \/ s' = invalidate_recoverable s \/ s' = invalidate_terminal s.

Lemma preflight_epoch_cases epoch s :
  match preflight_epoch_transition epoch s with
  | (Ok _, s') => s' = s /\ BTreeSet.contains (sl_history s) epoch = false /\ len (sl_history s) < 256
  | (Err e, s') => (e = EpochReused \/ e = EpochHistoryExhausted) /\ s' = invalidate_terminal s
  end.
Proof.
  unfold preflight_epoch_transition. eff_unfold. destruct (BTreeSet.contains (sl_history s) epoch); [by split; [left|]|].
  destruct (256 <=? len (sl_history s)) eqn:E; [by split; [right|]|]. cbn. split_and! ; [done..|lia].
Qed.

Lemma begin_epoch_cases epoch generation at_ns s :
  match begin_epoch epoch generation at_ns s with
  | (Ok _, s') => may_open s epoch at_ns /\ s' = opened s epoch generation at_ns
  | (Err e, s') => invalidates_state e = true /\ refused s s'
  end.
Proof.
  unfold begin_epoch, refused. unfold ebind at 1, eget at 1. destruct (is_terminal s) eqn:Et; [by split; [|left]|].
  pose proof (preflight_epoch_cases epoch s) as He. unfold ebind at 1.
  destruct (preflight_epoch_transition epoch s) as [[[]|e] s1]; [|destruct He as [[-> | ->] ->]; by split; [|right; right]].
  destruct He as (-> & Hn & Hr). pose proof (preflight_time_cases at_ns s) as Hp. unfold ebind.
  destruct (preflight_time at_ns s) as [[[]|e] s1]; [|destruct Hp as [-> ->]; by split; [|right; left]].
  destruct Hp as [-> Hp]. done.
Qed.

Lemma opened_ok s epoch generation at_ns : slot_core s -> may_open s epoch at_ns -> slot_ok (opened s epoch generation at_ns).
Proof.
  intros [_ _ [Hw Hl] _ _ _] [_ Hn Hr _]. split; [|by split; [|intros []]]. split; cbn; try done.
  - intros e [= <-]. by rewrite contains_insert, bool_decide_eq_true_2.
  - split; [by apply BTreeMap.wf_insert|]. unfold len in *. rewrite length_set_insert by done. rewrite Hn. lia.
Qed.

Lemma opened_grows s epoch generation at_ns : may_open s epoch at_ns -> grows s (opened s epoch generation at_ns).
Proof.
  intros [Ht Hn Hr Hp]. split; cbn; [congruence| |].
  - intros e He. by rewrite contains_insert, He, orb_true_r.
  - intros r E. exists at_ns. split; [done|]. by apply Hp.
Qed.

Lemma refused_ok s s' : slot_ok s -> refused s s' -> slot_ok s'.
Proof. intros H [->|[->| ->]]; [done|by apply invalidate_recoverable_ok|by apply invalidate_terminal_ok, H]. Qed.

Lemma refused_grows s s' : refused s s' -> grows s s'.
Proof. intros [->|[->| ->]]; [done|apply invalidate_recoverable_grows|apply invalidate_terminal_grows]. Qed.

Lemma begin_epoch_ok epoch generation at_ns s : slot_ok s ->
  slot_ok (snd (begin_epoch epoch generation at_ns s)) /\ grows s (snd (begin_epoch epoch generation at_ns s)).
Proof.
  intros H. pose proof (begin_epoch_cases epoch generation at_ns s) as Hc.
  destruct (begin_epoch epoch generation at_ns s) as [[[]|e] s']; cbn.
  - destruct Hc as [Hm ->]. split; [by apply opened_ok; [apply H|]|by apply opened_grows].
  - destruct Hc as [_ Hr]. split; [by eapply refused_ok|by apply refused_grows].
Qed.

(** A prepared slot is valid and in the epoch it was prepared for. *)
Record prepared (epoch : string) (generation : Z) (s : Slot) : Prop := {
  pr_state : sl_state s <> Invalid;
  pr_invalidity : sl_invalidity s = None;
  pr_epoch : sl_epoch s = Some epoch;
  pr_generation : sl_generation s = Some generation
}.

Lemma opened_prepared s epoch generation at_ns : prepared epoch generation (opened s epoch generation at_ns).
Proof. by split. Qed.

Lemma prepare_epoch_cases epoch generation at_ns s : slot_ok s ->
  match prepare_epoch epoch generation at_ns s with
  | (Ok true, s') => may_open s epoch at_ns /\ s' = opened s epoch generation at_ns
  | (Ok false, s') => prepared epoch generation s' /\
      (s' = s \/ sl_state s = Cold /\ s' = s ⟪ sl_first_available_ns := Some at_ns ⟫ ⟪ sl_state := Warming ⟫)
  | (Err e, s') => invalidates_state e = true /\ refused s s'
  end.
Proof.
  intros [Hcore Hset]. unfold prepare_epoch. unfold ebind at 1, eget at 1.
  destruct (is_terminal s) eqn:Et; [by split; [|left]|].
  pose proof (preflight_epoch_cases epoch s) as He. unfold ebind at 1.
  assert (Hbegin : match (begin_epoch epoch generation at_ns !; eret true) s with
    | (Ok true, s') => may_open s epoch at_ns /\ s' = opened s epoch generation at_ns
    | (Ok false, s') => False
    | (Err e, s') => invalidates_state e = true /\ refused s s'
    end).
  { unfold ebind. pose proof (begin_epoch_cases epoch generation at_ns s) as Hb.
    by destruct (begin_epoch epoch generation at_ns s) as [[[]|e] s']. }
  assert (Hrec : invalidates_state EpochMismatch = true /\ refused s (invalidate_recoverable s)) by (split; [done|right; by left]).
  case_bool_decide as Ee.
  - unfold eret at 1. rewrite Ee. destruct (sl_generation s) as [current|] eqn:Eg; [|done].
    rewrite andb_true_r. destruct (generation =? current) eqn:E.
    + apply Z.eqb_eq in E as ->. case_bool_decide as Ei; [split; [done|by left]|].
      assert (sl_invalidity s = None) as Hn.
      { destruct (sl_invalidity s) eqn:E; [|done]. exfalso. apply Ei, Hset. by rewrite E. }
      case_bool_decide as Ec; cbn; (split; [by split|]); [by right|by left].
    + destruct (current <? generation); [|done]. revert Hbegin.
      by destruct ((begin_epoch epoch generation at_ns !; eret true) s) as [[[]|e] s'].
  - destruct (preflight_epoch_transition epoch s) as [[[]|e] s1].
    2: { destruct He as [[-> | ->] ->]; (split; [done|right; by right]). }
    destruct He as (-> & _ & _). destruct (sl_generation s) as [current|] eqn:Eg.
    + rewrite andb_false_r.
      destruct (current <? generation); [|done]. revert Hbegin.
      by destruct ((begin_epoch epoch generation at_ns !; eret true) s) as [[[]|e] s'].
    + destruct (sl_epoch s); [done|]. revert Hbegin.
      by destruct ((begin_epoch epoch generation at_ns !; eret true) s) as [[[]|e] s'].
Qed.

Lemma prepare_epoch_ok epoch generation at_ns s : slot_ok s ->
  let '(r, s') := prepare_epoch epoch generation at_ns s in
  slot_ok s' /\ grows s s' /\ (forall b, r = Ok b -> prepared epoch generation s').
Proof.
  intros H. pose proof (prepare_epoch_cases epoch generation at_ns s H) as Hc.
  destruct (prepare_epoch epoch generation at_ns s) as [[[]|e] s'].
  - destruct Hc as [Hm ->]. split_and! ; [by apply opened_ok; [apply H|]|by apply opened_grows|].
    intros b _. apply opened_prepared.
  - destruct Hc as [Hp [->|[Hcold ->]]]; [done|]. split_and! ; [|split; cbn; [done..|]; intros r Hr; by exists r|done].
    destruct H as [[] Hs]. destruct Hp. cbn in *. split; [split; cbn; try done|split; cbn; [done|]; intros [? ?]; congruence].
  - destruct Hc as [_ Hr]. split_and! ; [by eapply refused_ok|by apply refused_grows|done].
Qed.

Lemma committed_core s cursor at_ns payload_hash mode state first : slot_core s -> continues mode s cursor at_ns ->
  is_Some (sl_epoch s) -> sl_first_available_ns s = Some first -> state = Warming \/ state = SlotLive ->
  (state = SlotLive -> WARMUP_NS <= at_ns - first) -> slot_core (committed s cursor at_ns payload_hash mode state).
Proof.
  intros [] [] He Hf Hst Hl. split; cbn; try done.
  - split_and! ; [done..|]. exists at_ns. split; [done|lia].
  - intros E. exists first, at_ns. split_and! ; [done..|]. by apply Hl.
Qed.

Lemma committed_grows s cursor at_ns payload_hash mode state : continues mode s cursor at_ns ->
  grows s (committed s cursor at_ns payload_hash mode state).
Proof. intros []. split; cbn; [done|done|]. intros r Hr. exists at_ns. split; [done|]. by apply ct_time0. Qed.

Lemma failed_core s s' : slot_core s -> failed s s' -> slot_core s'.
Proof. intros H [->| ->]; [done|by apply invalidate_recoverable_core]. Qed.

Lemma failed_refused s s' : failed s s' -> refused s s'.
Proof. intros [->| ->]; [by left|right; by left]. Qed.

(** Accepting keeps the invariant of a running slot; an invalid slot, which
    may accept a book snapshot, has to be invalidated again. *)
Lemma accept_cursor_core cursor at_ns payload_hash mode s : slot_core s -> is_Some (sl_epoch s) ->
  slot_core (snd (accept_cursor cursor at_ns payload_hash mode s)) /\
  grows s (snd (accept_cursor cursor at_ns payload_hash mode s)) /\
  (sl_invalidity (snd (accept_cursor cursor at_ns payload_hash mode s)) = sl_invalidity s \/
   exists e, fst (accept_cursor cursor at_ns payload_hash mode s) = Err e).
Proof.
  intros H He. pose proof (accept_cursor_cases cursor at_ns payload_hash mode s) as Hc.
  destruct (accept_cursor cursor at_ns payload_hash mode s) as [[o|e] s']; cbn [fst snd].
  - destruct Hc as [(_ & -> & _)|(Hc & first & Hf & Hw & [[-> ->]|[-> ->]])].
    + split_and! ; [done..|by left].
    + split_and! ; [eapply committed_core; eauto; intros _; by apply Hw|by apply committed_grows|by left].
    + split_and! ; [eapply committed_core; eauto; done|by apply committed_grows|by left].
  - split_and! ; [by eapply failed_core|by apply refused_grows, failed_refused|right; by eexists].
Qed.

Lemma accept_cursor_ok cursor at_ns payload_hash mode s epoch generation : slot_ok s -> prepared epoch generation s ->
  slot_ok (snd (accept_cursor cursor at_ns payload_hash mode s)) /\
  grows s (snd (accept_cursor cursor at_ns payload_hash mode s)).
Proof.
  intros H Hp. destruct (accept_cursor_core cursor at_ns payload_hash mode s (proj1 H)) as (Hc & Hg & _).
  { destruct Hp. by eexists. }
  split; [|done]. split; [done|]. clear Hc Hg. pose proof (accept_cursor_cases cursor at_ns payload_hash mode s) as Hc.
  destruct (accept_cursor cursor at_ns payload_hash mode s) as [[o|e] s']; cbn [snd].
  - destruct Hp as [Hst Hi _ _].
    destruct Hc as [(_ & -> & _)|(_ & first & _ & _ & [[-> ->]|[-> ->]])]; [apply H|split; cbn; [done|]..]; rewrite Hi; by intros [].
  - apply failed_refused in Hc. by apply (refused_ok _ _ H Hc).
Qed.

(** ** Connections *)

Record connection_ok (c : ConnectionSlot) : Prop := {
  co_epoch : is_Some (cn_generation c) <-> is_Some (cn_epoch c);
  co_known : forall e, cn_epoch c = Some e -> BTreeSet.contains (cn_history c) e = true;
  co_history : BTreeMap.wf (cn_history c) /\ len (cn_history c) <= 256;
  co_state : cn_state c = Invalid <-> is_Some (cn_invalidity c)
}.

Record connection_grows (c c' : ConnectionSlot) : Prop := {
  cg_terminal : cn_invalidity c = Some Terminal -> cn_invalidity c' = Some Terminal;
  cg_history : forall e, BTreeSet.contains (cn_history c) e = true -> BTreeSet.contains (cn_history c') e = true
}.

#[export] Instance connection_grows_preorder : PreOrder connection_grows.
Proof. split; [done|]. intros c1 c2 c3 [] []. split; auto. Qed.

Lemma connection_default_ok : connection_ok connection_slot_default.
Proof. split; cbn; try done. split; [apply BTreeMap.wf_empty|done]. Qed.

Lemma connection_recoverable_ok c : connection_ok c ->
  connection_ok (connection_invalidate_recoverable c) /\ connection_grows c (connection_invalidate_recoverable c).
Proof.
  intros [He Hk Hh Hs]. unfold connection_invalidate_recoverable. case_bool_decide as Ht; [done|].
  split; split; cbn; done.
Qed.

Lemma connection_terminal_ok c : connection_ok c ->
  connection_ok (connection_invalidate_terminal c) /\ connection_grows c (connection_invalidate_terminal c).
Proof. intros [He Hk Hh Hs]. split; split; cbn; done. Qed.

Definition connection_opened (c : ConnectionSlot) (epoch : string) (generation : Z) : ConnectionSlot :=
  mkConnectionSlot Warming None (Some epoch) (Some generation) (BTreeSet.insert (cn_history c) epoch).

Lemma connection_begin_cases epoch generation c :
  match connection_begin_epoch epoch generation c with
  | (Ok _, c') => cn_invalidity c <> Some Terminal /\ BTreeSet.contains (cn_history c) epoch = false /\
      len (cn_history c) < 256 /\ c' = connection_opened c epoch generation
  | (Err e, c') => invalidates_state e = true /\ (c' = c \/ c' = connection_invalidate_terminal c)
  end.
Proof.
  unfold connection_begin_epoch. eff_unfold. case_bool_decide as Ht; [by split; [|left]|].
  destruct (BTreeSet.contains (cn_history c) epoch) eqn:Ec; [by split; [|right]|].
  destruct (256 <=? len (cn_history c)) eqn:El; [by split; [|right]|]. cbn. split_and! ; [done..|lia|done].
Qed.

Lemma connection_begin_ok epoch generation c : connection_ok c ->
  connection_ok (snd (connection_begin_epoch epoch generation c)) /\
  connection_grows c (snd (connection_begin_epoch epoch generation c)).
Proof.
  intros H. pose proof (connection_begin_cases epoch generation c) as Hc.
  destruct (connection_begin_epoch epoch generation c) as [[[]|e] c']; cbn [snd].
  - destruct Hc as (Ht & Hn & Hl & ->). destruct H as [He Hk [Hw Hh] Hs]. split; split; cbn; try done.
    + intros x [= <-]. by rewrite contains_insert, bool_decide_eq_true_2.
    + split; [by apply BTreeMap.wf_insert|]. unfold len in *. rewrite length_set_insert by done. rewrite Hn. lia.
    + intros x Hx. by rewrite contains_insert, Hx, orb_true_r.
  - destruct Hc as [_ [->| ->]]; [done|]. by apply connection_terminal_ok.
Qed.
