(* ===== verification/PulseCursor.v ===== *)
(** * Event pulse: the source state machine ([crates/event-pulse/src/cursor.rs])

    The machine that admits market, coverage, clock and system inputs: which
    slot an input belongs to, how a connection moves to a new epoch with all the
    contributors bound to it, and what a fault invalidates. *)

From stdpp Require Import base tactics numbers strings option list.
From Stdlib Require Import ZArith Lia.
From S2P Require Import Prelude Collections Fixed Text Model PulseKeys PulseInput PulseSlot.

Local Open Scope Z_scope.

Definition time_ns (value : Rfc3339Time) : option Z := checked_mul I64 (utc_micros value) 1000.

(** ** State *)

Record SystemSlot := mkSystemSlot {
  sy_source : SystemSourceKeyV1;
  sy_slot : Slot;
  sy_chain_head : option string
}.

#[export] Instance eta_SystemSlot : Eta SystemSlot := fun s => mkSystemSlot (sy_source s) (sy_slot s) (sy_chain_head s).

Record SourceStateMachine := mkMachine {
  sm_config : MechanicsConfigV1;
  sm_connections : BTreeMap ConnectionKeyV1 ConnectionSlot;
  sm_contributors : BTreeMap ContributorKeyV1 Slot;
  sm_clocks : BTreeMap ClockSourceKeyV1 Slot;
  sm_coverage : BTreeMap CoverageSourceKeyV1 Slot;
  sm_systems : list SystemSlot
}.

#[export] Instance eta_SourceStateMachine : Eta SourceStateMachine := fun m =>
  mkMachine (sm_config m) (sm_connections m) (sm_contributors m) (sm_clocks m) (sm_coverage m) (sm_systems m).

Definition collect {K V} `{Ord K} (l : list K) (v : V) : BTreeMap K V := foldl (fun m k => BTreeMap.insert m k v) [] l.

Definition machine_new (config : MechanicsConfigV1) : SourceStateMachine :=
  mkMachine config (collect (cfg_connections config) connection_slot_default)
    (collect (map spec_key (cfg_contributors config)) slot_default) (collect (cfg_clock_sources config) slot_default)
    (collect (cfg_coverage_sources config) slot_default)
    (map (fun source => mkSystemSlot source slot_default None) (cfg_system_sources config)).

(** An error of the crate, or the panic of an [expect]. *)
Inductive Fault := Refused (e : CursorError) | Panicked.

Abbreviation Machine := (Eff SourceStateMachine Fault).

Definition refuse {A} (e : CursorError) : Machine A := ethrow (Refused e).

(** A call on the slot of one key; [missing] is what happens when there is none. *)
Definition on_contributor {A} (missing : Fault) (key : ContributorKeyV1) (m : SlotM A) : Machine A := fun sm =>
  match BTreeMap.get (sm_contributors sm) key with
  | None => (Err missing, sm)
  | Some slot =>
      let '(r, slot') := m slot in
      (map_err Refused r, sm ⟪ sm_contributors := BTreeMap.insert (sm_contributors sm) key slot' ⟫)
  end.

Definition on_clock {A} (key : ClockSourceKeyV1) (m : SlotM A) : Machine A := fun sm =>
  match BTreeMap.get (sm_clocks sm) key with
  | None => (Err (Refused UnconfiguredIdentity), sm)
  | Some slot =>
      let '(r, slot') := m slot in (map_err Refused r, sm ⟪ sm_clocks := BTreeMap.insert (sm_clocks sm) key slot' ⟫)
  end.

Definition on_coverage {A} (key : CoverageSourceKeyV1) (m : SlotM A) : Machine A := fun sm =>
  match BTreeMap.get (sm_coverage sm) key with
  | None => (Err (Refused UnconfiguredIdentity), sm)
  | Some slot =>
      let '(r, slot') := m slot in (map_err Refused r, sm ⟪ sm_coverage := BTreeMap.insert (sm_coverage sm) key slot' ⟫)
  end.

Definition on_connection {A} (missing : Fault) (key : ConnectionKeyV1) (m : Eff ConnectionSlot CursorError A) : Machine A :=
  fun sm =>
  match BTreeMap.get (sm_connections sm) key with
  | None => (Err missing, sm)
  | Some slot =>
      let '(r, slot') := m slot in
      (map_err Refused r, sm ⟪ sm_connections := BTreeMap.insert (sm_connections sm) key slot' ⟫)
  end.

Definition on_system {A} (index : nat) (m : Eff SystemSlot CursorError A) : Machine A := fun sm =>
  match sm_systems sm !! index with
  | None => (Err Panicked, sm)
  | Some system =>
      let '(r, system') := m system in (map_err Refused r, sm ⟪ sm_systems := <[index := system']> (sm_systems sm) ⟫)
  end.

Definition on_slot {A} (m : SlotM A) : Eff SystemSlot CursorError A :=
  ezoom sy_slot (fun slot s => s ⟪ sy_slot := slot ⟫) m.

Definition unconfigured : Fault := Refused UnconfiguredIdentity.

(** ** Epochs of connections *)

Definition bound_to (config : MechanicsConfigV1) (key : ConnectionKeyV1) : list ContributorKeyV1 :=
  map fst (filter (fun p => p.2 = key) (cfg_contributor_connections config)).

Definition clear_observations (key : ContributorKeyV1) (sm : SourceStateMachine) : SourceStateMachine :=
  sm ⟪ sm_clocks :=
         BTreeMap.map_values (fun k slot => if bool_decide (clk_subject k = key) then clear_observation slot else slot)
           (sm_clocks sm) ⟫
     ⟪ sm_coverage :=
         BTreeMap.map_values (fun k slot => if bool_decide (cov_subject k = key) then clear_observation slot else slot)
           (sm_coverage sm) ⟫.

Definition targets_connection (key : ConnectionKeyV1) (bound : list ContributorKeyV1) (t : ConfiguredTargetKeyV1) : bool :=
  bool_decide (connection_key t = Some key)
  || match contributor_key t with Some k => bool_decide (k ∈ bound) | None => false end.

Definition retire_systems (key : ConnectionKeyV1) (bound : list ContributorKeyV1) (sm : SourceStateMachine) : SourceStateMachine :=
  sm ⟪ sm_systems :=
    map (fun system =>
           if targets_connection key bound (sk_configured_target_key (sy_source system))
           then mkSystemSlot (sy_source system) (retire_cursor (sy_slot system)) None else system) (sm_systems sm) ⟫.

Definition advance_connection (key : ConnectionKeyV1) (trigger : ContributorKeyV1) (epoch : string) (generation at_ns : Z)
    : Machine unit :=
  on_connection unconfigured key (connection_begin_epoch epoch generation) !;
  let! sm := eget in
  let bound := bound_to (sm_config sm) key in
  efor bound (fun k =>
    on_contributor Panicked k
      (if bool_decide (k = trigger) then begin_epoch epoch generation at_ns else emod clear_current) !;
    emod (clear_observations k)) !;
  emod (retire_systems key bound).

(** ** Market inputs *)

Definition cursor_mode (cursor : CursorV1) : CursorModeV1 :=
  match native_range cursor with Some _ => Native | None => Derived end.

Definition eligible (slot : Slot) : Slot := slot ⟪ sl_book_eligible := true ⟫ ⟪ sl_book_snapshot_permitted := false ⟫.

(** The end of [ingest_market], once the epoch is right. *)
Definition accept_market (key : ContributorKeyV1) (cursor : CursorV1) (at_ns : Z) (payload_hash : string)
    (is_book_snapshot : bool) : Machine IngestOutcome :=
  let! outcome := on_contributor unconfigured key (accept_cursor cursor at_ns payload_hash (cursor_mode cursor)) in
  (if is_book_snapshot && negb (bool_decide (outcome = IgnoredDuplicate))
   then on_contributor Panicked key (emod eligible) else eret tt) !;
  eret outcome.

(** A book snapshot that an invalid contributor may take. *)
Definition resnapshot (key : ContributorKeyV1) (cursor : CursorV1) (at_ns : Z) (payload_hash : string) : Machine IngestOutcome :=
  let! outcome := on_contributor unconfigured key (accept_cursor cursor at_ns payload_hash (cursor_mode cursor)) in
  if bool_decide (outcome = IgnoredDuplicate) then eret IgnoredDuplicate else
  on_contributor unconfigured key (emod (fun slot => eligible (invalidate_recoverable slot))) !;
  eret Invalidated.

(** [preflight_time], its result kept as a value. *)
Definition time_allows (at_ns : Z) : SlotM bool := fun slot =>
  match preflight_time at_ns slot with (Ok _, slot') => (Ok true, slot') | (Err _, slot') => (Ok false, slot') end.

Definition in_history (transition : bool) (history : BTreeSet string) (epoch : string) : bool :=
  transition && BTreeSet.contains history epoch.
Definition history_full (transition : bool) (history : BTreeSet string) : bool := transition && (256 <=? len history).

Definition ingest_market (key : ContributorKeyV1) (epoch : string) (generation : Z) (cursor : CursorV1) (at_ns : Z)
    (payload_hash : string) (is_book_snapshot : bool) : Machine IngestOutcome :=
  let! sm := eget in
  let! link := elift (ok_or (BTreeMap.get (cfg_contributor_connections (sm_config sm)) key) unconfigured) in
  let connection := BTreeMap.get (sm_connections sm) link in
  let contributor := BTreeMap.get (sm_contributors sm) key in
  if match connection with Some slot => bool_decide (cn_invalidity slot = Some Terminal) | None => false end
     || match contributor with Some slot => is_terminal slot | None => false end
  then refuse TerminalInvalid else
  let! connection := elift (ok_or connection unconfigured) in
  let! contributor := elift (ok_or contributor unconfigured) in
  let connection_transition := negb (bool_decide (cn_epoch connection = Some epoch)) in
  let contributor_transition := negb (bool_decide (sl_epoch contributor = Some epoch)) in
  let epoch_reused := in_history connection_transition (cn_history connection) epoch
                      || in_history contributor_transition (sl_history contributor) epoch in
  let history_exhausted := history_full connection_transition (cn_history connection)
                           || history_full contributor_transition (sl_history contributor) in
  if epoch_reused || history_exhausted then
    on_connection Panicked link (emod connection_invalidate_terminal) !;
    on_contributor Panicked key (emod invalidate_terminal) !;
    refuse (if epoch_reused then EpochReused else EpochHistoryExhausted)
  else
  let! on_time := on_contributor unconfigured key (time_allows at_ns) in
  if negb on_time then
    on_contributor Panicked key (emod invalidate_recoverable) !; refuse AvailabilityRegression
  else
  let! advance :=
    match cn_generation connection with
    | None => eret true
    | Some current =>
        if current <? generation then eret true
        else if (generation =? current) && bool_decide (cn_epoch connection = Some epoch) then
          if bool_decide (cn_state connection = Invalid) then refuse EpochMismatch else eret false
        else on_contributor unconfigured key (emod invalidate_recoverable) !; refuse EpochMismatch
    end in
  if advance then
    advance_connection link key epoch generation at_ns !;
    accept_market key cursor at_ns payload_hash is_book_snapshot
  else
    match sl_generation contributor with
    | None =>
        on_contributor unconfigured key (begin_epoch epoch generation at_ns) !;
        accept_market key cursor at_ns payload_hash is_book_snapshot
    | Some current =>
        if negb (current =? generation) || negb (bool_decide (sl_epoch contributor = Some epoch)) then
          on_contributor unconfigured key (emod invalidate_recoverable) !; refuse EpochMismatch
        else if bool_decide (sl_state contributor = Invalid) then
          if is_book_snapshot && sl_book_snapshot_permitted contributor
          then resnapshot key cursor at_ns payload_hash else refuse EpochMismatch
        else accept_market key cursor at_ns payload_hash is_book_snapshot
    end.

(** ** Coverage and clock inputs *)

Definition check_subject (key : ContributorKeyV1) (epoch : string) (generation : Z) : Machine unit := fun sm =>
  match BTreeMap.get (sm_contributors sm) key with
  | None => (Err unconfigured, sm)
  | Some slot =>
      if bool_decide (sl_generation slot = None) then (Err (Refused SubjectNotInitialized), sm) else
      if negb (bool_decide (sl_generation slot = Some generation)) || negb (bool_decide (sl_epoch slot = Some epoch))
      then (Err (Refused SubjectEpochMismatch), sm) else (Ok tt, sm)
  end.

(** What coverage and clock inputs do with the slot of their source. *)
Definition observe (epoch : string) (generation : Z) (available_at : Rfc3339Time) (cursor : CursorV1) (payload_hash : string)
    (subject_epoch : string * Z) : SlotM IngestOutcome :=
  let! slot := eget in
  if is_terminal slot then ethrow TerminalInvalid else
  match time_ns available_at with
  | None => emod invalidate_recoverable !; ethrow TimeOverflow
  | Some at_ns =>
      prepare_epoch epoch generation at_ns !;
      let! outcome := accept_cursor cursor at_ns payload_hash Native in
      emod (fun slot => slot ⟪ sl_observation_subject_epoch := Some subject_epoch ⟫) !;
      eret outcome
  end.

Definition ingest_coverage (contributor : ContributorV1) (source : CoverageSourceV1) (available_at : Rfc3339Time)
    (cursor : CursorV1) (payload_hash : string) : Machine IngestOutcome :=
  check_subject (co_key contributor) (co_connection_epoch contributor) (co_epoch_generation contributor) !;
  on_coverage (cvs_key source)
    (observe (cvs_epoch source) (cvs_epoch_generation source) available_at cursor payload_hash
       (co_connection_epoch contributor, co_epoch_generation contributor)).

Definition ingest_clock (contributor : ContributorV1) (source : ClockSourceV1) (available_at : Rfc3339Time)
    (cursor : CursorV1) (payload_hash : string) : Machine IngestOutcome :=
  check_subject (co_key contributor) (co_connection_epoch contributor) (co_epoch_generation contributor) !;
  on_clock (cls_key source)
    (observe (cls_epoch source) (cls_epoch_generation source) available_at cursor payload_hash
       (co_connection_epoch contributor, co_epoch_generation contributor)).

(** ** System inputs *)

Definition validate_scope (scope : FaultScopeV1) (target : ConfiguredTargetKeyV1) : Machine unit :=
  match scope, target with
  | ScopeContributor contributor, TContributor key =>
      if bool_decide (co_key contributor = key)
      then check_subject key (co_connection_epoch contributor) (co_epoch_generation contributor)
      else refuse FaultScopeMismatch
  | ScopeConnectionEpoch connection epoch generation, TConnection key =>
      if bool_decide (connection = key) then
        let! sm := eget in
        let! slot := elift (ok_or (BTreeMap.get (sm_connections sm) key) unconfigured) in
        if bool_decide (cn_epoch slot = Some epoch) && bool_decide (cn_generation slot = Some generation)
        then eret tt else refuse FaultScopeMismatch
      else refuse FaultScopeMismatch
  | ScopeProcessor processor, TProcessor id => if bool_decide (processor = id) then eret tt else refuse FaultScopeMismatch
  | _, _ => refuse FaultScopeMismatch
  end.

Definition fault_targets (config : MechanicsConfigV1) (scope : FaultScopeV1) : list ContributorKeyV1 :=
  match scope with
  | ScopeContributor contributor => [co_key contributor]
  | ScopeConnectionEpoch key _ _ => bound_to config key
  | ScopeProcessor _ => map spec_key (cfg_contributors config)
  end.

Definition each_target (targets : list ContributorKeyV1) (f : Slot -> Slot) : Machine unit :=
  efor targets (fun key => on_contributor Panicked key (emod f)).

Definition invalidate_targets (scope : FaultScopeV1) : Machine unit :=
  let! sm := eget in
  let targets := fault_targets (sm_config sm) scope in
  if bool_decide (targets = []) then refuse EmptyFaultExpansion else each_target targets invalidate_recoverable.

Definition apply_fault (scope : FaultScopeV1) (fault : SystemFaultV1) : Machine unit :=
  let! sm := eget in
  let targets := fault_targets (sm_config sm) scope in
  if bool_decide (targets = []) then refuse EmptyFaultExpansion else
  match fault with
  | FaultBookResynchronized =>
      each_target targets (fun slot => slot ⟪ sl_book_eligible := false ⟫ ⟪ sl_book_snapshot_permitted := true ⟫)
  | FaultClockJump _ =>
      each_target targets invalidate_recoverable !;
      emod (fun sm => sm ⟪ sm_clocks :=
        BTreeMap.map_values (fun _ slot => (invalidate_recoverable slot) ⟪ sl_observation_present := false ⟫) (sm_clocks sm) ⟫)
  | FaultBookInvalidated | FaultChecksumMismatch =>
      each_target targets (fun slot =>
        (invalidate_recoverable slot) ⟪ sl_book_eligible := false ⟫ ⟪ sl_book_snapshot_permitted := false ⟫)
  | FaultSequenceGap _ _ | FaultEventsDropped _ _ => each_target targets invalidate_recoverable
  | FaultDisconnected =>
      each_target targets invalidate_recoverable !;
      match scope with
      | ScopeConnectionEpoch key _ _ => on_connection Panicked key (emod connection_invalidate_recoverable)
      | _ => eret tt
      end
  end.

Section Machine.
Context (sha256_hex : list Z -> string).

Definition next_head (head : option string) (payload_hash : string) : result string CursorError :=
  map_err (fun _ => SystemPredecessor)
    match head with
    | None => hash_first sha256_hex payload_hash
    | Some previous => hash_next sha256_hex previous payload_hash
    end.

(** [match cursor_result { Err(error) => { if .. { self.invalidate_targets(scope)? } return Err(error) } .. }]. *)
Definition accept_system (index : nat) (scope : FaultScopeV1) (cursor : CursorV1) (at_ns : Z) (payload_hash : string)
    (mode : CursorModeV1) : Machine IngestOutcome := fun sm =>
  match on_system index (on_slot (accept_cursor cursor at_ns payload_hash mode)) sm with
  | (Err (Refused e), sm') =>
      (if invalidates_state e then invalidate_targets scope !; refuse e else refuse e) sm'
  | r => r
  end.

Definition ingest_system (key : SystemSourceKeyV1) (epoch : string) (generation : Z) (scope : FaultScopeV1)
    (available_at : Rfc3339Time) (cursor : CursorV1) (fault : SystemFaultV1) (predecessor : option string)
    (payload_hash : string) : Machine IngestOutcome :=
  validate_scope scope (sk_configured_target_key key) !;
  let! sm := eget in
  match list_find (fun system => sy_source system = key) (sm_systems sm) with
  | None => ethrow unconfigured
  | Some (index, system) =>
      if is_terminal (sy_slot system) then refuse TerminalInvalid else
      match time_ns available_at with
      | None => on_system index (on_slot (emod invalidate_recoverable)) !; refuse TimeOverflow
      | Some at_ns =>
          let slot := sy_slot system in
          let same_epoch := bool_decide (sl_generation slot = Some generation) && bool_decide (sl_epoch slot = Some epoch) in
          if same_epoch && bool_decide (sl_cursor slot = Some cursor)
          then on_system index (on_slot (accept_cursor cursor at_ns payload_hash (sk_cursor_mode key))) else
          let old_head := sy_chain_head system in
          let! new_epoch := on_system index (on_slot (prepare_epoch epoch generation at_ns)) in
          let required := if new_epoch && bool_decide (is_Some old_head) then old_head else sy_chain_head system in
          if negb (bool_decide (predecessor = required)) then refuse SystemPredecessor else
          let! outcome := accept_system index scope cursor at_ns payload_hash (sk_cursor_mode key) in
          let! head := elift (map_err Refused (next_head (sy_chain_head system) payload_hash)) in
          on_system index (emod (fun s => s ⟪ sy_chain_head := Some head ⟫)) !;
          apply_fault scope fault !;
          eret (match fault with FaultBookResynchronized => outcome | _ => Invalidated end)
      end
  end.

(** ** The machine *)

Definition catalog_epoch (catalog : ReplayCatalogV1) (envelope : EventEnvelope) : option ReplayEpochEntryV1 :=
  snd <$> list_find (fun entry => of_session envelope entry = true) (cat_connection_epochs catalog).

Definition market_contributor (catalog : ReplayCatalogV1) (envelope : EventEnvelope) : option ContributorKeyV1 :=
  venue ← BTreeMap.get (cat_venue_sources catalog) (env_venue envelope);
  id ← env_instrument envelope;
  instrument ← BTreeMap.get (cat_instruments catalog) id;
  ok (contributor_key_new (ve_source_id venue) instrument).

Definition is_snapshot (payload : MarketEvent) : bool := match payload with EvBookSnapshot _ => true | _ => false end.

Definition ingest_inner (input : MechanicsInputV1) : Machine IngestOutcome :=
  match input with
  | InMarket envelope action_index catalog payload_hash =>
      let! key := elift (ok_or (market_contributor catalog envelope) unconfigured) in
      let! epoch := elift (ok_or (catalog_epoch catalog envelope) unconfigured) in
      let! cursor := elift (map_err (fun _ => Refused CursorMode) (market_cursor envelope action_index)) in
      ingest_market key (re_connection_epoch epoch) (re_epoch_generation epoch) cursor (env_receive_ts envelope) payload_hash
        (is_snapshot (env_payload envelope))
  | InCoverage contributor source _ _ _ available_at cursor payload_hash =>
      ingest_coverage contributor source available_at cursor payload_hash
  | InClock contributor source _ available_at cursor _ _ _ _ _ payload_hash =>
      ingest_clock contributor source available_at cursor payload_hash
  | InSystem source scope _ available_at cursor fault predecessor payload_hash =>
      ingest_system (sys_key source) (sys_epoch source) (sys_epoch_generation source) scope available_at cursor fault
        predecessor payload_hash
  end.

(** A candidate copy takes the input, and replaces the machine when it
    accepted, or failed in a way that invalidates. *)
Definition ingest (input : MechanicsInputV1) : Machine IngestOutcome := fun sm =>
  let '(r, candidate) := ingest_inner input sm in
  (r, match r with
      | Ok _ => candidate
      | Err (Refused e) => if invalidates_state e then candidate else sm
      | Err Panicked => sm
      end).

(** The processor's own reports of records it had to drop. *)
Inductive queue_drop :=
  | DropContributor (key : ContributorKeyV1)
  | DropClock (key : ClockSourceKeyV1)
  | DropCoverage (key : CoverageSourceKeyV1)
  | DropSystem (key : SystemSourceKeyV1).

Definition invalidate_for_queue_drop (drop : queue_drop) : Machine unit :=
  match drop with
  | DropContributor key => on_contributor unconfigured key (emod invalidate_slot_for_queue_drop)
  | DropClock key => on_clock key (emod invalidate_slot_for_queue_drop)
  | DropCoverage key => on_coverage key (emod invalidate_slot_for_queue_drop)
  | DropSystem key => fun sm =>
      match list_find (fun system => sy_source system = key) (sm_systems sm) with
      | None => (Err unconfigured, sm)
      | Some (index, _) => on_system index (on_slot (emod invalidate_slot_for_queue_drop)) sm
      end
  end.

Inductive machine_op := MIngest (input : MechanicsInputV1) | MDrop (drop : queue_drop).

Definition machine_call (op : machine_op) (sm : SourceStateMachine) : result unit Fault * SourceStateMachine :=
  match op with
  | MIngest input => let '(r, sm') := ingest input sm in (rmap (fun _ => tt) r, sm')
  | MDrop drop => invalidate_for_queue_drop drop sm
  end.

Definition machine_run (ops : list machine_op) (sm : SourceStateMachine) : SourceStateMachine :=
  foldl (fun sm op => snd (machine_call op sm)) sm ops.

End Machine.

(** ** What the machine shows *)

Definition observation_matches_subject (sm : SourceStateMachine) (slot : Slot) (subject : ContributorKeyV1) : bool :=
  match BTreeMap.get (sm_contributors sm) subject with
  | None => false
  | Some contributor =>
      sl_observation_present slot
      && match sl_observation_subject_epoch slot, sl_epoch contributor, sl_generation contributor with
         | Some (epoch, generation), Some current_epoch, Some current => bool_decide (epoch = current_epoch) && (generation =? current)
         | _, _, _ => false
         end
  end.

Definition contributor_state (sm : SourceStateMachine) (key : ContributorKeyV1) : option SlotState :=
  sl_state <$> BTreeMap.get (sm_contributors sm) key.
Definition contributor_invalidity (sm : SourceStateMachine) (key : ContributorKeyV1) : option Invalidity :=
  BTreeMap.get (sm_contributors sm) key ≫= sl_invalidity.
Definition contributor_cursor (sm : SourceStateMachine) (key : ContributorKeyV1) : option CursorView :=
  BTreeMap.get (sm_contributors sm) key ≫= view.
Definition connection_invalidity (sm : SourceStateMachine) (key : ConnectionKeyV1) : option Invalidity :=
  BTreeMap.get (sm_connections sm) key ≫= cn_invalidity.

Definition clock_cursor (sm : SourceStateMachine) (key : ClockSourceKeyV1) : option CursorView :=
  slot ← BTreeMap.get (sm_clocks sm) key;
  if observation_matches_subject sm slot (clk_subject key) then view slot else None.
Definition coverage_cursor (sm : SourceStateMachine) (key : CoverageSourceKeyV1) : option CursorView :=
  slot ← BTreeMap.get (sm_coverage sm) key;
  if observation_matches_subject sm slot (cov_subject key) then view slot else None.

Definition system_chain_head (sm : SourceStateMachine) (key : SystemSourceKeyV1) : option string :=
  list_find (fun system => sy_source system = key) (sm_systems sm) ≫= fun p => sy_chain_head p.2.
