(* ===== verification/PulseSafety.v ===== *)
(** * Event pulse: what the source state machine never does

    Every machine built from an accepted configuration, whatever inputs and
    queue drops it is given, keeps every slot well formed, keeps every
    contributor in the epoch of its connection, and never reaches one of the
    [expect]s of the code. *)

From stdpp Require Import base tactics numbers strings option list.
From Stdlib Require Import ZArith Lia.
From S2P Require Import Prelude Collections Fixed Text Model PulseKeys PulseInput PulseSlot PulseCursor.

Local Open Scope Z_scope.

(** ** The invariant *)

Definition within (a b : BTreeSet string) : Prop :=
  forall e, BTreeSet.contains a e = true -> BTreeSet.contains b e = true.

(** A contributor is in its connection's epoch, or in none. *)
Record link_ok (s : Slot) (c : ConnectionSlot) : Prop := {
  lk_epoch : sl_epoch s = None \/ sl_epoch s = cn_epoch c /\ sl_generation s = cn_generation c;
  lk_history : within (sl_history s) (cn_history c);
  lk_terminal : is_terminal s = true -> cn_invalidity c = Some Terminal
}.

(** While a connection moves on, its contributors may still be in the old epoch. *)
Record link_pending (s : Slot) (c : ConnectionSlot) : Prop := {
  lp_history : within (sl_history s) (cn_history c);
  lp_terminal : is_terminal s = false
}.

Record machine_ok (pending : list ContributorKeyV1) (sm : SourceStateMachine) : Prop := {
  mk_config : config_ok (sm_config sm);
  mk_wf : BTreeMap.wf (cfg_contributor_connections (sm_config sm));
  mk_contributor_keys : forall k, k ∈ map spec_key (cfg_contributors (sm_config sm)) -> is_Some (BTreeMap.get (sm_contributors sm) k);
  mk_connection_keys : forall n, n ∈ cfg_connections (sm_config sm) -> is_Some (BTreeMap.get (sm_connections sm) n);
  mk_contributors : forall k s, BTreeMap.get (sm_contributors sm) k = Some s -> slot_ok s;
  mk_clocks : forall k s, BTreeMap.get (sm_clocks sm) k = Some s -> slot_ok s;
  mk_coverage : forall k s, BTreeMap.get (sm_coverage sm) k = Some s -> slot_ok s;
  mk_systems : Forall (fun system => slot_ok (sy_slot system)) (sm_systems sm);
  mk_connections : forall n c, BTreeMap.get (sm_connections sm) n = Some c -> connection_ok c;
  mk_link : forall k n s c, BTreeMap.get (cfg_contributor_connections (sm_config sm)) k = Some n ->
    BTreeMap.get (sm_contributors sm) k = Some s -> BTreeMap.get (sm_connections sm) n = Some c ->
    if bool_decide (k ∈ pending) then link_pending s c else link_ok s c
}.

Definition slots_grow {K} `{Ord K} (m m' : BTreeMap K Slot) : Prop :=
  forall k s, BTreeMap.get m k = Some s -> exists s', BTreeMap.get m' k = Some s' /\ grows s s'.

(** Nothing that is final is taken back: the configuration, terminal
    invalidity, the epochs used and the latest times. *)
Record machine_grows (sm sm' : SourceStateMachine) : Prop := {
  mg_config : sm_config sm' = sm_config sm;
  mg_contributors : slots_grow (sm_contributors sm) (sm_contributors sm');
  mg_clocks : slots_grow (sm_clocks sm) (sm_clocks sm');
  mg_coverage : slots_grow (sm_coverage sm) (sm_coverage sm');
  mg_systems : Forall2 (fun a b => sy_source b = sy_source a /\ grows (sy_slot a) (sy_slot b)) (sm_systems sm) (sm_systems sm');
  mg_connections : forall n c, BTreeMap.get (sm_connections sm) n = Some c ->
    exists c', BTreeMap.get (sm_connections sm') n = Some c' /\ connection_grows c c'
}.

Section Grow.
Context {K : Type} `{OrdLaws K} `{!EqDecision K}.

Lemma slots_grow_refl (m : BTreeMap K Slot) : slots_grow m m.
Proof. intros k s Hk. by exists s. Qed.

Lemma slots_grow_trans (m1 m2 m3 : BTreeMap K Slot) : slots_grow m1 m2 -> slots_grow m2 m3 -> slots_grow m1 m3.
Proof.
  intros H1 H2 k s Hk. destruct (H1 k s Hk) as (s' & Hk' & Hg). destruct (H2 k s' Hk') as (s'' & Hk'' & Hg').
  exists s''. split; [done|]. by etransitivity.
Qed.

Lemma slots_grow_insert (m : BTreeMap K Slot) k s s' : BTreeMap.get m k = Some s -> grows s s' ->
  slots_grow m (BTreeMap.insert m k s').
Proof.
  intros Hk Hg k' x Hx. destruct (decide (k' = k)) as [->|Hne].
  - rewrite Hk in Hx. injection Hx as <-. exists s'. by rewrite BTreeMap.get_insert_eq.
  - exists x. by rewrite BTreeMap.get_insert_ne.
Qed.

Lemma slots_grow_map (m : BTreeMap K Slot) f : (forall k s, grows s (f k s)) -> slots_grow m (BTreeMap.map_values f m).
Proof. intros Hf k s Hk. exists (f k s). by rewrite BTreeMap.get_map_values, Hk. Qed.

Lemma get_insert_cases (m : BTreeMap K Slot) k s' k' x : BTreeMap.get (BTreeMap.insert m k s') k' = Some x ->
  k' = k /\ x = s' \/ k' <> k /\ BTreeMap.get m k' = Some x.
Proof.
  destruct (decide (k' = k)) as [->|Hne].
  - rewrite BTreeMap.get_insert_eq. intros [= <-]. by left.
  - rewrite BTreeMap.get_insert_ne by done. by right.
Qed.

End Grow.

#[export] Instance machine_grows_preorder : PreOrder machine_grows.
Proof.
  split.
  - intros sm. split; [done|apply slots_grow_refl..| |].
    + apply Forall_Forall2_diag, Forall_forall. by intros x _.
    + intros n c Hn. by exists c.
  - intros m1 m2 m3 [A1 B1 C1 D1 E1 F1] [A2 B2 C2 D2 E2 F2]. split; [congruence|by eapply slots_grow_trans..| |].
    + eapply Forall2_trans; [|exact E1|exact E2]. intros x y z [Hs Hg] [Hs' Hg'].
      split; [congruence|by etransitivity].
    + intros n c Hn. destruct (F1 n c Hn) as (c' & Hn' & Hg). destruct (F2 n c' Hn') as (c'' & Hn'' & Hg').
      exists c''. split; [done|by etransitivity].
Qed.

(** ** Steps *)

Definition step_ok {A} (m : Machine A) (sm : SourceStateMachine) : Prop :=
  machine_ok [] (snd (m sm)) /\ machine_grows sm (snd (m sm)) /\ fst (m sm) <> Err Panicked.

Lemma call_ret {A} (a : A) sm : machine_ok [] sm -> step_ok (eret a) sm.
Proof. by intros H. Qed.

Lemma step_refuse {A} e sm : machine_ok [] sm -> step_ok (refuse e : Machine A) sm.
Proof. by intros H. Qed.

Lemma call_bind {A B} (m : Machine A) (k : A -> Machine B) sm : step_ok m sm ->
  (forall a sm', m sm = (Ok a, sm') -> machine_ok [] sm' -> step_ok (k a) sm') -> step_ok (ebind m k) sm.
Proof.
  unfold step_ok, ebind. intros (Hm & Hg & Hp) Hk. destruct (m sm) as [[a|e] sm'] eqn:E; cbn in *.
  - destruct (Hk a sm' eq_refl Hm) as (Hm' & Hg' & Hp'). split_and! ; [done|by etransitivity|done].
  - split_and! ; [done..|]. congruence.
Qed.

Lemma step_get {A} (k : SourceStateMachine -> Machine A) sm : step_ok (k sm) sm -> step_ok (ebind eget k) sm.
Proof. done. Qed.

Lemma step_lift {A B} (r : result A Fault) (k : A -> Machine B) sm : machine_ok [] sm -> r <> Err Panicked ->
  (forall a, r = Ok a -> step_ok (k a) sm) -> step_ok (ebind (elift r) k) sm.
Proof. intros H Hr Hk. destruct r as [a|e]; [by apply Hk|]. split_and! ; [done..|]. cbn. congruence. Qed.

(** ** Changing one slot *)

(** [pending'] differs from [pending] at most in the changed contributor. *)
Lemma update_contributor_pending pending pending' sm k s s' : machine_ok pending sm ->
  BTreeMap.get (sm_contributors sm) k = Some s -> slot_ok s' -> grows s s' ->
  (forall k', k' <> k -> k' ∈ pending <-> k' ∈ pending') ->
  (forall n c, BTreeMap.get (cfg_contributor_connections (sm_config sm)) k = Some n ->
     BTreeMap.get (sm_connections sm) n = Some c ->
     if bool_decide (k ∈ pending') then link_pending s' c else link_ok s' c) ->
  let sm' := sm ⟪ sm_contributors := BTreeMap.insert (sm_contributors sm) k s' ⟫ in
  machine_ok pending' sm' /\ machine_grows sm sm'.
Proof.
  intros [] Hk Hok Hg Hpend Hl. split; [split; cbn; try done|split; cbn; try apply slots_grow_refl; try done].
  - intros k' Hk'. destruct (decide (k' = k)) as [->|Hne]; [rewrite BTreeMap.get_insert_eq; by eexists|].
    rewrite BTreeMap.get_insert_ne by done. by apply mk_contributor_keys0.
  - intros k' x [[-> ->]|[_ Hx]]%get_insert_cases; [done|]. by eapply mk_contributors0.
  - intros k' n x c Hn [[-> ->]|[Hne Hx]]%get_insert_cases Hc; [by apply (Hl n)|].
    rewrite <- (bool_decide_ext _ _ (Hpend k' Hne)). by apply (mk_link0 k' n).
  - by eapply slots_grow_insert.
  - apply Forall_Forall2_diag, Forall_forall. by intros x _.
  - intros n c Hn. by exists c.
Qed.

Lemma update_contributor pending sm k s s' : machine_ok pending sm -> BTreeMap.get (sm_contributors sm) k = Some s ->
  slot_ok s' -> grows s s' ->
  (forall n c, BTreeMap.get (cfg_contributor_connections (sm_config sm)) k = Some n ->
     BTreeMap.get (sm_connections sm) n = Some c ->
     if bool_decide (k ∈ pending) then link_pending s' c else link_ok s' c) ->
  let sm' := sm ⟪ sm_contributors := BTreeMap.insert (sm_contributors sm) k s' ⟫ in
  machine_ok pending sm' /\ machine_grows sm sm'.
Proof. intros. by eapply update_contributor_pending. Qed.

(** A change that keeps the epoch, or drops it. *)
Record quiet (s s' : Slot) : Prop := {
  qt_ok : slot_ok s';
  qt_grows : grows s s';
  qt_history : sl_history s' = sl_history s;
  qt_epoch : sl_epoch s' = None \/ sl_epoch s' = sl_epoch s /\ sl_generation s' = sl_generation s;
  qt_terminal : is_terminal s' = true -> is_terminal s = true
}.

Lemma quiet_link s s' c : quiet s s' -> link_ok s c -> link_ok s' c.
Proof.
  intros [_ _ Hh He Ht] [Le Lh Lt]. split.
  - destruct He as [He|[He Hg]]; [by left|]. destruct Le as [Le|[Le Lg]]; [left; congruence|right; split; congruence].
  - by rewrite Hh.
  - auto.
Qed.

Lemma on_contributor_ok {A} missing key (m : SlotM A) sm : machine_ok [] sm ->
  (BTreeMap.get (sm_contributors sm) key = None -> missing <> Panicked) ->
  (forall s, BTreeMap.get (sm_contributors sm) key = Some s -> quiet s (snd (m s))) ->
  step_ok (on_contributor missing key m) sm.
Proof.
  intros H Hmiss Hq. unfold step_ok, on_contributor. destruct (BTreeMap.get (sm_contributors sm) key) as [s|] eqn:Ek.
  2: { cbn. split_and! ; [done..|]. intros [= E]. by apply Hmiss. }
  specialize (Hq s eq_refl). destruct (m s) as [r s'] eqn:Em. cbn [fst snd] in *.
  destruct (update_contributor [] sm key s s' H Ek) as [H' Hg']; [apply Hq|apply Hq| |].
  - intros n c Hn Hc. apply (quiet_link s); [done|]. by apply (mk_link [] sm H key n).
  - split_and! ; [done..|]. by destruct r.
Qed.

Lemma update_connection sm n c c' : machine_ok [] sm -> BTreeMap.get (sm_connections sm) n = Some c ->
  connection_ok c' -> connection_grows c c' -> (forall s, link_ok s c -> link_ok s c') ->
  let sm' := sm ⟪ sm_connections := BTreeMap.insert (sm_connections sm) n c' ⟫ in
  machine_ok [] sm' /\ machine_grows sm sm'.
Proof.
  intros [] Hn Hok Hg Hl. split; [split; cbn; try done|split; cbn; try apply slots_grow_refl; try done].
  - intros n' Hn'. destruct (decide (n' = n)) as [->|Hne]; [rewrite BTreeMap.get_insert_eq; by eexists|].
    rewrite BTreeMap.get_insert_ne by done. by apply mk_connection_keys0.
  - intros n' x Hx. destruct (decide (n' = n)) as [->|Hne].
    + rewrite BTreeMap.get_insert_eq in Hx. by injection Hx as <-.
    + rewrite BTreeMap.get_insert_ne in Hx by done. by eapply mk_connections0.
  - intros k n' s x Hb Hs Hx. destruct (decide (n' = n)) as [->|Hne].
    + rewrite BTreeMap.get_insert_eq in Hx. injection Hx as <-. apply Hl. by apply (mk_link0 k n).
    + rewrite BTreeMap.get_insert_ne in Hx by done. by apply (mk_link0 k n').
  - apply Forall_Forall2_diag, Forall_forall. by intros x _.
  - intros n' x Hx. destruct (decide (n' = n)) as [->|Hne].
    + rewrite Hn in Hx. injection Hx as <-. exists c'. by rewrite BTreeMap.get_insert_eq.
    + exists x. by rewrite BTreeMap.get_insert_ne.
Qed.

Lemma connection_invalidated_link s c c' : cn_epoch c' = cn_epoch c -> cn_generation c' = cn_generation c ->
  cn_history c' = cn_history c -> (cn_invalidity c = Some Terminal -> cn_invalidity c' = Some Terminal) ->
  link_ok s c -> link_ok s c'.
Proof. intros E G H T [Le Lh Lt]. split; [by rewrite E, G|by rewrite H|auto]. Qed.

Lemma on_connection_ok missing n (f : ConnectionSlot -> ConnectionSlot) sm : machine_ok [] sm ->
  (BTreeMap.get (sm_connections sm) n = None -> missing <> Panicked) ->
  (forall c, connection_ok c -> connection_ok (f c) /\ connection_grows c (f c)) ->
  (forall s c, link_ok s c -> link_ok s (f c)) ->
  step_ok (on_connection missing n (emod f)) sm.
Proof.
  intros H Hmiss Hf Hl. unfold step_ok, on_connection. destruct (BTreeMap.get (sm_connections sm) n) as [c|] eqn:En.
  2: { cbn. split_and! ; [done..|]. intros [= E]. by apply Hmiss. }
  destruct (Hf c (mk_connections [] sm H n c En)) as [Hok Hg]. cbn.
  destruct (update_connection sm n c (f c) H En Hok Hg) as [H' Hg']; [auto|]. by split_and!.
Qed.

Lemma update_clock sm k s s' : machine_ok [] sm -> BTreeMap.get (sm_clocks sm) k = Some s -> slot_ok s' -> grows s s' ->
  let sm' := sm ⟪ sm_clocks := BTreeMap.insert (sm_clocks sm) k s' ⟫ in machine_ok [] sm' /\ machine_grows sm sm'.
Proof.
  intros [] Hk Hok Hg. split; [split; cbn; try done|split; cbn; try apply slots_grow_refl; try done].
  - intros k' x [[-> ->]|[_ Hx]]%get_insert_cases; [done|]. by eapply mk_clocks0.
  - by eapply slots_grow_insert.
  - apply Forall_Forall2_diag, Forall_forall. by intros x _.
  - intros n c Hn. by exists c.
Qed.

Lemma update_coverage sm k s s' : machine_ok [] sm -> BTreeMap.get (sm_coverage sm) k = Some s -> slot_ok s' -> grows s s' ->
  let sm' := sm ⟪ sm_coverage := BTreeMap.insert (sm_coverage sm) k s' ⟫ in machine_ok [] sm' /\ machine_grows sm sm'.
Proof.
  intros [] Hk Hok Hg. split; [split; cbn; try done|split; cbn; try apply slots_grow_refl; try done].
  - intros k' x [[-> ->]|[_ Hx]]%get_insert_cases; [done|]. by eapply mk_coverage0.
  - by eapply slots_grow_insert.
  - apply Forall_Forall2_diag, Forall_forall. by intros x _.
  - intros n c Hn. by exists c.
Qed.

Lemma update_system sm i x x' : machine_ok [] sm -> sm_systems sm !! i = Some x -> slot_ok (sy_slot x') ->
  grows (sy_slot x) (sy_slot x') -> sy_source x' = sy_source x ->
  let sm' := sm ⟪ sm_systems := <[i := x']> (sm_systems sm) ⟫ in machine_ok [] sm' /\ machine_grows sm sm'.
Proof.
  intros [] Hi Hok Hg Hs. split; [split; cbn; try done|split; cbn; try apply slots_grow_refl; try done].
  - by apply Forall_insert.
  - rewrite <- (list_insert_id (sm_systems sm) i x Hi) at 1. apply Forall2_insert; [|done].
    apply Forall_Forall2_diag, Forall_forall. by intros y _.
  - intros n c Hn. by exists c.
Qed.

(** A call that leaves the slot well formed and takes nothing final back. *)
Definition keeps {A} (m : SlotM A) (s : Slot) : Prop := let '(_, s') := m s in slot_ok s' /\ grows s s'.

Lemma on_clock_ok {A} key (m : SlotM A) sm : machine_ok [] sm ->
  (forall s, slot_ok s -> keeps m s) -> step_ok (on_clock key m) sm.
Proof.
  intros H Hm. unfold step_ok, on_clock. destruct (BTreeMap.get (sm_clocks sm) key) as [s|] eqn:Ek; [|done].
  specialize (Hm s (mk_clocks [] sm H key s Ek)). unfold keeps in Hm. destruct (m s) as [r s']. destruct Hm as [Hok Hg]. cbn in *.
  destruct (update_clock sm key s s' H Ek Hok Hg) as [H' Hg']. split_and! ; [done..|]. by destruct r.
Qed.

Lemma on_coverage_ok {A} key (m : SlotM A) sm : machine_ok [] sm ->
  (forall s, slot_ok s -> keeps m s) -> step_ok (on_coverage key m) sm.
Proof.
  intros H Hm. unfold step_ok, on_coverage. destruct (BTreeMap.get (sm_coverage sm) key) as [s|] eqn:Ek; [|done].
  specialize (Hm s (mk_coverage [] sm H key s Ek)). unfold keeps in Hm. destruct (m s) as [r s']. destruct Hm as [Hok Hg]. cbn in *.
  destruct (update_coverage sm key s s' H Ek Hok Hg) as [H' Hg']. split_and! ; [done..|]. by destruct r.
Qed.

Lemma on_system_ok {A} i (m : Eff SystemSlot CursorError A) sm x : machine_ok [] sm -> sm_systems sm !! i = Some x ->
  slot_ok (sy_slot (snd (m x))) -> grows (sy_slot x) (sy_slot (snd (m x))) -> sy_source (snd (m x)) = sy_source x ->
  step_ok (on_system i m) sm.
Proof.
  intros H Hi Hok Hg Hs. unfold step_ok, on_system. rewrite Hi. destruct (m x) as [r x']. cbn in *.
  destruct (update_system sm i x x' H Hi Hok Hg Hs) as [H' Hg']. split_and! ; [done..|]. by destruct r.
Qed.

(** ** Quiet changes *)

Lemma quiet_refl s : slot_ok s -> quiet s s.
Proof. intros H. split; [done|done|done|by right|done]. Qed.

Lemma quiet_trans s1 s2 s3 : quiet s1 s2 -> quiet s2 s3 -> quiet s1 s3.
Proof.
  intros [A1 B1 C1 D1 E1] [A2 B2 C2 D2 E2]. split; [done|by etransitivity|congruence| |auto].
  destruct D2 as [D2|[D2 G2]]; [by left|]. destruct D1 as [D1|[D1 G1]]; [left|right; split]; congruence.
Qed.

Lemma quiet_recoverable s : slot_ok s -> quiet s (invalidate_recoverable s).
Proof.
  intros H. split; [by apply invalidate_recoverable_ok|apply invalidate_recoverable_grows|..];
    unfold invalidate_recoverable; destruct (is_terminal s) eqn:E; try done; by right.
Qed.

Lemma quiet_clear s : slot_ok s -> quiet s (clear_current s).
Proof.
  intros H. split; [by apply clear_current_ok|apply clear_current_grows|..];
    unfold clear_current; destruct (is_terminal s) eqn:E; try done; [by right|by left].
Qed.

Lemma quiet_retire s : slot_ok s -> quiet s (retire_cursor s).
Proof.
  intros H. split; [by apply retire_cursor_ok|apply retire_cursor_grows|..];
    unfold retire_cursor; destruct (is_terminal s) eqn:E; try done; by right.
Qed.

Lemma quiet_queue_drop s : slot_ok s -> quiet s (invalidate_slot_for_queue_drop s).
Proof.
  intros H. pose proof (quiet_recoverable s H) as H1. pose proof (quiet_retire _ (qt_ok _ _ H1)) as H2.
  pose proof (quiet_recoverable _ (qt_ok _ _ H2)) as H3. eapply quiet_trans; [exact H1|]. by eapply quiet_trans.
Qed.

(** The flags of the book say nothing about the rest of a slot. *)
Lemma quiet_flags s a b : slot_ok s -> quiet s (s ⟪ sl_book_eligible := a ⟫ ⟪ sl_book_snapshot_permitted := b ⟫).
Proof. intros [[] Hs]. split; [by split|split; [done..|]; intros r Hr; by exists r|done|by right|done]. Qed.

Lemma failed_quiet s s' : slot_ok s -> failed s s' -> quiet s s'.
Proof. intros H [->| ->]; [by apply quiet_refl|by apply quiet_recoverable]. Qed.

Lemma quiet_accept cursor at_ns payload_hash mode s epoch generation : slot_ok s -> prepared epoch generation s ->
  quiet s (snd (accept_cursor cursor at_ns payload_hash mode s)).
Proof.
  intros H Hp. destruct (accept_cursor_ok cursor at_ns payload_hash mode s epoch generation H Hp) as [Hok Hg].
  pose proof (accept_cursor_cases cursor at_ns payload_hash mode s) as Hc.
  destruct (accept_cursor cursor at_ns payload_hash mode s) as [[o|e] s']; cbn [snd] in *; [|by apply failed_quiet].
  destruct Hc as [(_ & -> & _)|(_ & _ & _ & _ & [[_ ->]|[_ ->]])]; split; try done; by right.
Qed.

Lemma accept_quiet_prepared cursor at_ns payload_hash mode s o s' epoch generation : prepared epoch generation s ->
  accept_cursor cursor at_ns payload_hash mode s = (Ok o, s') -> prepared epoch generation s'.
Proof.
  intros Hp E. pose proof (accept_cursor_cases cursor at_ns payload_hash mode s) as Hc. rewrite E in Hc.
  destruct Hc as [(_ & -> & _)|(_ & _ & _ & _ & [[_ ->]|[_ ->]])]; [done|..]; destruct Hp; split; cbn; auto.
Qed.

Lemma on_contributor_bind {A B} key (m : SlotM A) (k : A -> SlotM B) sm :
  (let! a := on_contributor unconfigured key m in on_contributor unconfigured key (k a)) sm =
  on_contributor unconfigured key (let! a := m in k a) sm.
Proof.
  unfold ebind, on_contributor. destruct (BTreeMap.get (sm_contributors sm) key) as [s|] eqn:Ek; [|done].
  destruct (m s) as [[a|e] s'] eqn:Em; cbn; [|done]. rewrite BTreeMap.get_insert_eq. destruct (k a s') as [r s''] eqn:E2.
  by rewrite BTreeMap.insert_insert.
Qed.

(** The slot's share of [resnapshot]. *)
Definition resnapshot_slot (cursor : CursorV1) (at_ns : Z) (payload_hash : string) : SlotM IngestOutcome :=
  let! outcome := accept_cursor cursor at_ns payload_hash (cursor_mode cursor) in
  if bool_decide (outcome = IgnoredDuplicate) then eret IgnoredDuplicate else
  emod (fun slot => eligible (invalidate_recoverable slot)) !; eret Invalidated.

Lemma resnapshot_eq key cursor at_ns payload_hash sm :
  resnapshot key cursor at_ns payload_hash sm = on_contributor unconfigured key (resnapshot_slot cursor at_ns payload_hash) sm.
Proof.
  unfold resnapshot, resnapshot_slot. rewrite <- on_contributor_bind. unfold ebind, on_contributor, emod, eret.
  destruct (BTreeMap.get (sm_contributors sm) key) as [s|] eqn:Ek; [|done].
  destruct (accept_cursor cursor at_ns payload_hash (cursor_mode cursor) s) as [[o|e] s1]; cbn; [|done].
  rewrite BTreeMap.get_insert_eq. case_bool_decide; cbn; rewrite BTreeMap.insert_insert; [done|].
  rewrite BTreeMap.get_insert_eq. cbn. by rewrite BTreeMap.insert_insert.
Qed.

Lemma quiet_resnapshot cursor at_ns payload_hash s : slot_ok s -> is_Some (sl_epoch s) -> is_terminal s = false ->
  quiet s (snd (resnapshot_slot cursor at_ns payload_hash s)).
Proof.
  intros H He Ht. unfold resnapshot_slot, ebind. set (mode := cursor_mode cursor).
  pose proof (accept_cursor_core cursor at_ns payload_hash mode s (proj1 H) He) as (Hc & Hg & _).
  pose proof (accept_cursor_cases cursor at_ns payload_hash mode s) as Hcases.
  destruct (accept_cursor cursor at_ns payload_hash mode s) as [[o|e] s1]; cbn [fst snd] in *; [|by apply failed_quiet].
  destruct Hcases as [(-> & -> & _)|(_ & first & _ & _ & Hcom)]; [by apply quiet_refl|].
  assert (is_terminal s1 = false /\ sl_history s1 = sl_history s /\ sl_epoch s1 = sl_epoch s /\ sl_generation s1 = sl_generation s)
    as (Ht1 & Hh1 & He1 & Hg1) by (by destruct Hcom as [[_ ->]|[_ ->]]).
  assert (slot_ok (invalidate_recoverable s1)) as Hok.
  { split; [by apply invalidate_recoverable_core|]. apply invalidate_recoverable_settled. congruence. }
  case_bool_decide as Eo; [destruct Hcom as [[-> _]|[-> _]]; done|]. cbn.
  assert (quiet s (invalidate_recoverable s1)) as Hq.
  { split; [done|etransitivity; [exact Hg|apply invalidate_recoverable_grows]|..];
      unfold invalidate_recoverable; rewrite Ht1; cbn; [done|by right|done]. }
  eapply quiet_trans; [exact Hq|]. by apply quiet_flags.
Qed.

Lemma accept_market_ok key cursor at_ns payload_hash snapshot sm s epoch generation : machine_ok [] sm ->
  BTreeMap.get (sm_contributors sm) key = Some s -> prepared epoch generation s ->
  step_ok (accept_market key cursor at_ns payload_hash snapshot) sm.
Proof.
  intros H Hk Hp. unfold accept_market. apply call_bind.
  - apply on_contributor_ok; [done|by rewrite Hk|]. intros s' Hs'. rewrite Hk in Hs'. injection Hs' as <-.
    eapply quiet_accept; [|exact Hp]. by eapply mk_contributors.
  - intros o sm' E H'. apply call_bind; [|intros [] sm'' _ H''; by apply call_ret].
    destruct (snapshot && _); [|by apply call_ret]. apply on_contributor_ok; [done| |].
    + unfold on_contributor in E. rewrite Hk in E. destruct (accept_cursor _ _ _ _ s) as [r s']. injection E as _ <-.
      cbn. by rewrite BTreeMap.get_insert_eq.
    + intros s' Hs'. cbn. apply quiet_flags. by eapply mk_contributors.
Qed.

Lemma begin_epoch_opens epoch generation at_ns s : may_open s epoch at_ns ->
  begin_epoch epoch generation at_ns s = (Ok tt, opened s epoch generation at_ns).
Proof.
  intros [Ht Hn Hr Hp]. unfold begin_epoch, preflight_epoch_transition, preflight_time. eff_unfold. rewrite Ht, Hn.
  rewrite (proj2 (Z.leb_gt _ _)) by lia. cbn. destruct (sl_retained_available_at_ns s) as [r|]; [|done].
  specialize (Hp r eq_refl). by rewrite (proj2 (Z.ltb_ge _ _)).
Qed.

(** A contributor that joins the current epoch of its connection. *)
Lemma join_epoch_ok key epoch generation at_ns sm s n c : machine_ok [] sm ->
  BTreeMap.get (cfg_contributor_connections (sm_config sm)) key = Some n ->
  BTreeMap.get (sm_contributors sm) key = Some s -> BTreeMap.get (sm_connections sm) n = Some c ->
  may_open s epoch at_ns -> cn_epoch c = Some epoch -> cn_generation c = Some generation ->
  let sm' := sm ⟪ sm_contributors := BTreeMap.insert (sm_contributors sm) key (opened s epoch generation at_ns) ⟫ in
  on_contributor unconfigured key (begin_epoch epoch generation at_ns) sm = (Ok tt, sm') /\
  machine_ok [] sm' /\ machine_grows sm sm'.
Proof.
  intros H Hb Hk Hn Hm He Hg sm'. split.
  { unfold on_contributor. by rewrite Hk, begin_epoch_opens. }
  apply (update_contributor [] sm key s); [done|done| |by apply opened_grows|].
  - apply opened_ok; [|done]. by apply (mk_contributors [] sm H key).
  - intros n' c' Hn' Hc'. rewrite Hb in Hn'. injection Hn' as <-. rewrite Hn in Hc'. injection Hc' as <-.
    rewrite bool_decide_eq_false_2 by apply not_elem_of_nil. pose proof (mk_link [] sm H key n s c Hb Hk Hn) as [Le Lh Lt].
    split; cbn; [right; by rewrite He, Hg| |done].
    intros e. rewrite contains_insert, orb_true_iff, bool_decide_eq_true. intros [->|Hin]; [|by apply Lh].
    by apply (mk_connections [] sm H n).
Qed.

(** ** A connection moves to a new epoch *)

Lemma clear_observations_ok pending key sm : machine_ok pending sm ->
  machine_ok pending (clear_observations key sm) /\ machine_grows sm (clear_observations key sm).
Proof.
  intros []. unfold clear_observations. split; [split; cbn; try done|split; cbn; try done].
  - intros k s. rewrite BTreeMap.get_map_values. intros (x & Hx & ->)%fmap_Some.
    case_bool_decide; [apply clear_observation_ok|]; by eapply mk_clocks0.
  - intros k s. rewrite BTreeMap.get_map_values. intros (x & Hx & ->)%fmap_Some.
    case_bool_decide; [apply clear_observation_ok|]; by eapply mk_coverage0.
  - apply slots_grow_refl.
  - apply slots_grow_map. intros k s. case_bool_decide; [apply clear_observation_grows|done].
  - apply slots_grow_map. intros k s. case_bool_decide; [apply clear_observation_grows|done].
  - apply Forall_Forall2_diag, Forall_forall. by intros x _.
  - intros n c Hn. by exists c.
Qed.

Lemma retire_systems_ok pending key bound sm : machine_ok pending sm ->
  machine_ok pending (retire_systems key bound sm) /\ machine_grows sm (retire_systems key bound sm).
Proof.
  intros []. unfold retire_systems. split; [split; cbn; try done|split; cbn; try apply slots_grow_refl; try done].
  - apply Forall_map. eapply Forall_impl; [exact mk_systems0|]. intros x Hx. cbn.
    destruct (targets_connection _ _ _); [by apply retire_cursor_ok|done].
  - apply Forall2_fmap_r, Forall_Forall2_diag, Forall_forall. intros x _. cbn.
    destruct (targets_connection _ _ _); cbn; [split; [done|apply retire_cursor_grows]|done].
  - intros n c Hn. by exists c.
Qed.

Lemma open_connection_ok sm n c epoch generation : machine_ok [] sm -> BTreeMap.get (sm_connections sm) n = Some c ->
  cn_invalidity c <> Some Terminal -> connection_ok (connection_opened c epoch generation) ->
  let sm' := sm ⟪ sm_connections := BTreeMap.insert (sm_connections sm) n (connection_opened c epoch generation) ⟫ in
  machine_ok (bound_to (sm_config sm) n) sm' /\ machine_grows sm sm'.
Proof.
  intros [] Hn Ht Hok. split; [split; cbn; try done|split; cbn; try apply slots_grow_refl; try done].
  - intros n' Hn'. destruct (decide (n' = n)) as [->|Hne]; [rewrite BTreeMap.get_insert_eq; by eexists|].
    rewrite BTreeMap.get_insert_ne by done. by apply mk_connection_keys0.
  - intros n' x Hx. destruct (decide (n' = n)) as [->|Hne].
    + rewrite BTreeMap.get_insert_eq in Hx. by injection Hx as <-.
    + rewrite BTreeMap.get_insert_ne in Hx by done. by eapply mk_connections0.
  - intros k n' s x Hb Hs Hx. destruct (decide (n' = n)) as [->|Hne].
    + rewrite BTreeMap.get_insert_eq in Hx. injection Hx as <-. rewrite bool_decide_eq_true_2.
      2: { unfold bound_to. apply list_elem_of_fmap. exists (k, n). split; [done|]. apply list_elem_of_filter.
           split; [done|]. by apply BTreeMap.get_Some_elem. }
      pose proof (mk_link0 k n s c Hb Hs Hn) as [Le Lh Lt]. split; cbn.
      * intros e He. by rewrite contains_insert, (Lh e He), orb_true_r.
      * apply not_true_iff_false. intros E. by apply Ht, Lt.
    + rewrite BTreeMap.get_insert_ne in Hx by done. rewrite bool_decide_eq_false_2; [by apply (mk_link0 k n')|].
      unfold bound_to. intros ([k0 n0] & -> & [Hn0 Hin]%list_elem_of_filter)%list_elem_of_fmap. cbn in *. subst.
      apply (BTreeMap.elem_get _ _ _ mk_wf0) in Hin. congruence.
  - apply Forall_Forall2_diag, Forall_forall. by intros x _.
  - intros n' x Hx. destruct (decide (n' = n)) as [->|Hne].
    + rewrite Hn in Hx. injection Hx as <-. eexists. rewrite BTreeMap.get_insert_eq. split; [done|]. split; [done|].
      intros e He. cbn. by rewrite contains_insert, He, orb_true_r.
    + exists x. by rewrite BTreeMap.get_insert_ne.
Qed.

Section Advance.
Context (n : ConnectionKeyV1) (trigger : ContributorKeyV1) (epoch : string) (generation at_ns : Z).

Definition advance_one (k : ContributorKeyV1) : Machine unit :=
  on_contributor Panicked k (if bool_decide (k = trigger) then begin_epoch epoch generation at_ns else emod clear_current) !;
  emod (clear_observations k).

(** One contributor leaves the old epoch. *)
Lemma advance_one_ok k rest sm s c : machine_ok (k :: rest) sm -> k ∉ rest ->
  BTreeMap.get (cfg_contributor_connections (sm_config sm)) k = Some n -> BTreeMap.get (sm_contributors sm) k = Some s ->
  BTreeMap.get (sm_connections sm) n = Some c -> cn_epoch c = Some epoch -> cn_generation c = Some generation ->
  (k = trigger -> may_open s epoch at_ns) ->
  let s' := if bool_decide (k = trigger) then opened s epoch generation at_ns else clear_current s in
  exists sm', advance_one k sm = (Ok tt, sm') /\ machine_ok rest sm' /\ machine_grows sm sm' /\
    sm_connections sm' = sm_connections sm /\ sm_contributors sm' = BTreeMap.insert (sm_contributors sm) k s'.
Proof.
  intros H Hnin Hb Hk Hn He Hg Hm s'.
  pose proof (mk_link _ _ H k n s c Hb Hk Hn) as Hl. rewrite bool_decide_eq_true_2 in Hl by by left. destruct Hl as [Lh Lt].
  pose proof (mk_contributors _ _ H k s Hk) as Hok.
  set (sm1 := sm ⟪ sm_contributors := BTreeMap.insert (sm_contributors sm) k s' ⟫).
  assert (Hstep : on_contributor Panicked k (if bool_decide (k = trigger) then begin_epoch epoch generation at_ns else emod clear_current) sm
    = (Ok tt, sm1)).
  { unfold on_contributor. rewrite Hk. unfold s' in sm1. case_bool_decide as E; [by rewrite begin_epoch_opens by auto|done]. }
  assert (slot_ok s' /\ grows s s' /\ link_ok s' c) as (Hok' & Hg' & Hl').
  { unfold s'. case_bool_decide as E.
    - specialize (Hm E). split_and! ; [by apply opened_ok; [apply Hok|]|by apply opened_grows|].
      split; cbn; [right; by rewrite He, Hg| |done]. intros e.
      rewrite contains_insert, orb_true_iff, bool_decide_eq_true. intros [->|Hin]; [|by apply Lh]. by apply (mk_connections _ _ H n).
    - split_and! ; [by apply clear_current_ok|apply clear_current_grows|]. unfold clear_current. rewrite Lt.
      split; cbn; [by left|done|done]. }
  destruct (update_contributor_pending (k :: rest) rest sm k s s' H Hk Hok' Hg') as [H1 Hg1].
  - intros k' Hne. rewrite elem_of_cons. naive_solver.
  - intros n' c' Hn' Hc'. rewrite Hb in Hn'. injection Hn' as <-. rewrite Hn in Hc'. injection Hc' as <-.
    by rewrite bool_decide_eq_false_2.
  - destruct (clear_observations_ok rest k sm1 H1) as [H2 Hg2]. exists (clear_observations k sm1).
    unfold advance_one. unfold ebind. rewrite Hstep. split_and! ; try done. by etransitivity.
Qed.

Lemma advance_loop_ok l : forall sm c, NoDup l -> machine_ok l sm ->
  Forall (fun k => BTreeMap.get (cfg_contributor_connections (sm_config sm)) k = Some n /\
                   exists s, BTreeMap.get (sm_contributors sm) k = Some s /\ (k = trigger -> may_open s epoch at_ns)) l ->
  BTreeMap.get (sm_connections sm) n = Some c -> cn_epoch c = Some epoch -> cn_generation c = Some generation ->
  exists sm', efor l advance_one sm = (Ok tt, sm') /\ machine_ok [] sm' /\ machine_grows sm sm' /\
    (trigger ∉ l -> BTreeMap.get (sm_contributors sm') trigger = BTreeMap.get (sm_contributors sm) trigger) /\
    (trigger ∈ l -> exists s, BTreeMap.get (sm_contributors sm) trigger = Some s /\
       BTreeMap.get (sm_contributors sm') trigger = Some (opened s epoch generation at_ns)).
Proof.
  induction l as [|k l IH]; intros sm c Hnd H Hall Hn He Hg.
  { exists sm. split_and! ; try done. by intros []%not_elem_of_nil. }
  apply NoDup_cons in Hnd as [Hk Hnd]. apply Forall_cons in Hall as [(Hb & s & Hs & Hm) Hall].
  destruct (advance_one_ok k l sm s c H Hk Hb Hs Hn He Hg Hm) as (sm1 & E1 & H1 & Hg1 & Hcn & Hct).
  assert (sm_config sm1 = sm_config sm) as Hcfg by apply Hg1.
  destruct (IH sm1 c Hnd H1) as (sm2 & E2 & H2 & Hg2 & Hout & Hin); [|by rewrite Hcn|done|done|].
  - rewrite Hcfg, Hct. apply Forall_forall. intros k' Hk'. rewrite Forall_forall in Hall.
    destruct (Hall k' Hk') as (Hb' & s' & Hs' & Hm'). split; [done|]. exists s'.
    rewrite BTreeMap.get_insert_ne by (by intros ->). done.
  - exists sm2. cbn [efor]. unfold ebind. rewrite E1. split_and! ; [done|done|by etransitivity|..].
    + intros [Hne Hnot]%not_elem_of_cons. rewrite (Hout Hnot), Hct, BTreeMap.get_insert_ne by done. done.
    + intros [->|Hl]%elem_of_cons.
      * exists s. split; [done|]. rewrite (Hout Hk), Hct, BTreeMap.get_insert_eq, bool_decide_eq_true_2 by done. done.
      * destruct (Hin Hl) as (s0 & Hs0 & Hr). exists s0. split; [|done].
        rewrite Hct, BTreeMap.get_insert_ne in Hs0 by (by intros ->). done.
Qed.

End Advance.

Lemma bound_to_spec config n k : BTreeMap.wf (cfg_contributor_connections config) ->
  k ∈ bound_to config n <-> BTreeMap.get (cfg_contributor_connections config) k = Some n.
Proof.
  intros Hw. unfold bound_to. rewrite list_elem_of_fmap. split.
  - intros ([k0 n0] & -> & [Hn Hin]%list_elem_of_filter). cbn in *. subst. by apply BTreeMap.elem_get.
  - intros Hk. exists (k, n). split; [done|]. apply list_elem_of_filter. split; [done|]. by apply BTreeMap.get_Some_elem.
Qed.

Lemma bound_to_NoDup config n : BTreeMap.wf (cfg_contributor_connections config) -> NoDup (bound_to config n).
Proof.
  intros Hw. unfold bound_to. eapply sublist_NoDup; [exact (BTreeMap.keys_NoDup _ Hw)|].
  unfold BTreeMap.keys. apply fmap_sublist, sublist_filter.
Qed.

Lemma bound_contributor pending sm k n : machine_ok pending sm ->
  BTreeMap.get (cfg_contributor_connections (sm_config sm)) k = Some n ->
  is_Some (BTreeMap.get (sm_contributors sm) k) /\ is_Some (BTreeMap.get (sm_connections sm) n).
Proof.
  intros [] Hk. apply BTreeMap.get_Some_elem in Hk. split.
  - apply mk_contributor_keys0. rewrite <- (ok_bound _ mk_config0). unfold BTreeMap.keys. apply list_elem_of_fmap. by exists (k, n).
  - apply mk_connection_keys0. pose proof (ok_bound_to _ mk_config0) as Hf. rewrite Forall_forall in Hf. by apply (Hf (k, n)).
Qed.

Lemma advance_connection_eq n key epoch generation at_ns sm :
  advance_connection n key epoch generation at_ns sm =
  match on_connection unconfigured n (connection_begin_epoch epoch generation) sm with
  | (Ok _, sm1) =>
      match efor (bound_to (sm_config sm1) n) (advance_one key epoch generation at_ns) sm1 with
      | (Ok _, sm2) => (Ok tt, retire_systems n (bound_to (sm_config sm1) n) sm2)
      | r => r
      end
  | r => r
  end.
Proof.
  unfold advance_connection. unfold ebind at 1. destruct (on_connection _ _ _ sm) as [[[]|e] sm1]; [|done].
  unfold ebind at 1, eget at 1. fold (advance_one key epoch generation at_ns). unfold ebind at 1.
  by destruct (efor _ _ sm1) as [[[]|e] sm2].
Qed.

Lemma advance_connection_ok n key epoch generation at_ns sm s c : machine_ok [] sm ->
  BTreeMap.get (cfg_contributor_connections (sm_config sm)) key = Some n ->
  BTreeMap.get (sm_contributors sm) key = Some s -> BTreeMap.get (sm_connections sm) n = Some c ->
  (BTreeSet.contains (cn_history c) epoch = false -> may_open s epoch at_ns) ->
  step_ok (advance_connection n key epoch generation at_ns) sm /\
  (forall sm', advance_connection n key epoch generation at_ns sm = (Ok tt, sm') ->
     BTreeMap.get (sm_contributors sm') key = Some (opened s epoch generation at_ns)).
Proof.
  intros H Hb Hk Hn Hm. unfold step_ok. rewrite advance_connection_eq. unfold on_connection. rewrite Hn.
  pose proof (connection_begin_cases epoch generation c) as Hc. pose proof (connection_begin_ok epoch generation c) as Hok.
  specialize (Hok (mk_connections [] sm H n c Hn)) as [Hok Hgr].
  destruct (connection_begin_epoch epoch generation c) as [[[]|e] c']; cbn [map_err snd] in *.
  2: { destruct Hc as [_ Hc]. split; [|done].
       destruct (update_connection sm n c c' H Hn Hok Hgr) as [H' Hg']; [|done].
       intros x Hx. destruct Hc as [->| ->]; [done|]. by apply (connection_invalidated_link x c). }
  destruct Hc as (Ht & Hnew & Hroom & ->). specialize (Hm Hnew).
  destruct (open_connection_ok sm n c epoch generation H Hn Ht Hok) as [H1 Hg1].
  set (sm1 := sm ⟪ sm_connections := _ ⟫) in *. change (sm_config sm1) with (sm_config sm).
  destruct (advance_loop_ok n key epoch generation at_ns (bound_to (sm_config sm) n) sm1
    (connection_opened c epoch generation)) as (sm2 & E2 & H2 & Hg2 & _ & Hin); [|done| | |done|done|].
  - by apply bound_to_NoDup, (mk_wf [] sm H).
  - apply Forall_forall. intros k Hbk. apply bound_to_spec in Hbk; [|by apply (mk_wf [] sm H)]. split; [done|].
    destruct (bound_contributor [] sm k n H Hbk) as [[x Hx] _]. exists x. split; [done|]. intros ->. congruence.
  - unfold sm1. cbn. by rewrite BTreeMap.get_insert_eq.
  - rewrite E2. destruct (retire_systems_ok [] n (bound_to (sm_config sm) n) sm2 H2) as [H3 Hg3]. split.
    + split_and! ; [done| |done]. cbn [snd]. etransitivity; [exact Hg1|]. by etransitivity.
    + intros sm' [= <-]. cbn. destruct Hin as (s0 & Hs0 & Hr).
      { apply bound_to_spec; [by apply (mk_wf [] sm H)|done]. }
      change (BTreeMap.get (sm_contributors sm) key = Some s0) in Hs0. congruence.
Qed.

(** ** Market inputs *)

Lemma time_allows_quiet at_ns s : slot_ok s -> quiet s (snd (time_allows at_ns s)) /\
  (fst (time_allows at_ns s) = Ok true -> snd (time_allows at_ns s) = s /\ forall r, sl_retained_available_at_ns s = Some r -> r <= at_ns).
Proof.
  intros H. unfold time_allows. pose proof (preflight_time_cases at_ns s) as Hc.
  destruct (preflight_time at_ns s) as [[[]|e] s']; cbn.
  - destruct Hc as [-> Hc]. split; [by apply quiet_refl|done].
  - destruct Hc as [_ ->]. split; [by apply quiet_recoverable|done].
Qed.


(** Both slots of a reused or exhausted epoch become terminal. *)
Lemma kill_ok {A} n key e sm s c : machine_ok [] sm ->
  BTreeMap.get (cfg_contributor_connections (sm_config sm)) key = Some n ->
  BTreeMap.get (sm_contributors sm) key = Some s -> BTreeMap.get (sm_connections sm) n = Some c ->
  step_ok (on_connection Panicked n (emod connection_invalidate_terminal) !;
           on_contributor Panicked key (emod invalidate_terminal) !; (refuse e : Machine A)) sm.
Proof.
  intros H Hb Hk Hn. apply call_bind.
  { apply on_connection_ok; [done|by rewrite Hn|apply connection_terminal_ok|]. intros x y. by apply connection_invalidated_link. }
  intros [] sm1 E H1. unfold on_connection in E. rewrite Hn in E. cbn in E. injection E as <-.
  apply call_bind; [|intros [] sm2 _ H2; by apply step_refuse].
  unfold step_ok, on_contributor. cbn [sm_contributors set_field]. rewrite Hk. cbn [emod fst snd map_err].
  set (sm1 := mkMachine _ _ _ _ _ _) in *.
  destruct (update_contributor [] sm1 key s (invalidate_terminal s) H1 Hk) as [H2 Hg2].
  - apply invalidate_terminal_ok. by apply (mk_contributors [] sm H key).
  - apply invalidate_terminal_grows.
  - intros n' c' Hn' Hc'. rewrite bool_decide_eq_false_2 by apply not_elem_of_nil. unfold sm1 in Hn', Hc'. cbn in Hn', Hc'.
    rewrite Hb in Hn'. injection Hn' as <-. rewrite BTreeMap.get_insert_eq in Hc'. injection Hc' as <-.
    pose proof (mk_link [] sm H key n s c Hb Hk Hn) as [Le Lh Lt]. by split.
  - by split_and!.
Qed.

Lemma advance_market_ok n key epoch generation cursor at_ns payload_hash snapshot sm s c : machine_ok [] sm ->
  BTreeMap.get (cfg_contributor_connections (sm_config sm)) key = Some n ->
  BTreeMap.get (sm_contributors sm) key = Some s -> BTreeMap.get (sm_connections sm) n = Some c ->
  (BTreeSet.contains (cn_history c) epoch = false -> may_open s epoch at_ns) ->
  step_ok (advance_connection n key epoch generation at_ns !; accept_market key cursor at_ns payload_hash snapshot) sm.
Proof.
  intros H Hb Hk Hn Hm. destruct (advance_connection_ok n key epoch generation at_ns sm s c H Hb Hk Hn Hm) as [Hs Hr].
  apply call_bind; [done|]. intros [] sm' E H'. eapply accept_market_ok; [done|by apply Hr|apply opened_prepared].
Qed.

Lemma join_market_ok n key epoch generation cursor at_ns payload_hash snapshot sm s c : machine_ok [] sm ->
  BTreeMap.get (cfg_contributor_connections (sm_config sm)) key = Some n ->
  BTreeMap.get (sm_contributors sm) key = Some s -> BTreeMap.get (sm_connections sm) n = Some c ->
  may_open s epoch at_ns -> cn_epoch c = Some epoch -> cn_generation c = Some generation ->
  step_ok (on_contributor unconfigured key (begin_epoch epoch generation at_ns) !;
           accept_market key cursor at_ns payload_hash snapshot) sm.
Proof.
  intros H Hb Hk Hn Hm He Hg. destruct (join_epoch_ok key epoch generation at_ns sm s n c H Hb Hk Hn Hm He Hg) as (E & H' & Hg').
  apply call_bind; [by unfold step_ok; rewrite E|]. intros [] sm' E' _. rewrite E in E'. injection E' as <-.
  eapply accept_market_ok; [done|cbn; by rewrite BTreeMap.get_insert_eq|apply opened_prepared].
Qed.

(** What the checks at the start of [ingest_market] leave to be true. *)
Lemma checks_open s c epoch at_ns : slot_ok s -> connection_ok c -> link_ok s c -> is_terminal s = false ->
  in_history (negb (bool_decide (sl_epoch s = Some epoch))) (sl_history s) epoch = false ->
  history_full (negb (bool_decide (sl_epoch s = Some epoch))) (sl_history s) = false ->
  (forall r, sl_retained_available_at_ns s = Some r -> r <= at_ns) ->
  sl_epoch s <> Some epoch \/ BTreeSet.contains (cn_history c) epoch = false -> may_open s epoch at_ns.
Proof.
  intros [[_ Hknown _ _ _ _] _] _ [_ Lh _] Ht Hi Hf Hr Hn. assert (sl_epoch s <> Some epoch) as Hne.
  { destruct Hn as [Hn|Hn]; [done|]. intros E. apply Hknown, Lh in E. congruence. }
  rewrite bool_decide_eq_false_2 in Hi, Hf by done. unfold in_history, history_full in *. cbn in *. split; [done..|lia|done].
Qed.

(** The connection stays in its epoch. *)
Lemma stay_market_ok n key epoch generation cursor at_ns payload_hash snapshot sm s c : machine_ok [] sm ->
  BTreeMap.get (cfg_contributor_connections (sm_config sm)) key = Some n ->
  BTreeMap.get (sm_contributors sm) key = Some s -> BTreeMap.get (sm_connections sm) n = Some c -> is_terminal s = false ->
  cn_epoch c = Some epoch -> cn_generation c = Some generation -> (sl_epoch s <> Some epoch -> may_open s epoch at_ns) ->
  step_ok match sl_generation s with
  | None =>
      on_contributor unconfigured key (begin_epoch epoch generation at_ns) !;
      accept_market key cursor at_ns payload_hash snapshot
  | Some current =>
      if negb (current =? generation) || negb (bool_decide (sl_epoch s = Some epoch)) then
        on_contributor unconfigured key (emod invalidate_recoverable) !; refuse EpochMismatch
      else if bool_decide (sl_state s = Invalid) then
        if snapshot && sl_book_snapshot_permitted s
        then resnapshot key cursor at_ns payload_hash else refuse EpochMismatch
      else accept_market key cursor at_ns payload_hash snapshot
  end sm.
Proof.
  intros H Hb Hk Hn Ht He Hg Hopen. pose proof (mk_contributors [] sm H key s Hk) as Hs.
  destruct (sl_generation s) as [current|] eqn:Eg.
  2: { eapply join_market_ok; try done. apply Hopen. intros E. destruct Hs as [[Hge _ _ _ _ _] _].
       rewrite Eg, E in Hge. by destruct (proj2 Hge ltac:(by eexists)). }
  destruct (negb (current =? generation) || _) eqn:Em.
  { apply call_bind; [|intros [] sm2 _ H2; by apply step_refuse]. apply on_contributor_ok; [done|done|].
    intros x Hx. cbn. apply quiet_recoverable. by apply (mk_contributors [] sm H key). }
  apply orb_false_iff in Em as [->%negb_false_iff%Z.eqb_eq Hse%negb_false_iff%bool_decide_eq_true].
  case_bool_decide as Ei.
  - destruct (snapshot && sl_book_snapshot_permitted s); [|by apply step_refuse].
    unfold step_ok. rewrite resnapshot_eq. apply on_contributor_ok; [done|done|]. intros x Hx. rewrite Hk in Hx. injection Hx as <-.
    apply quiet_resnapshot; [done|by eexists|done].
  - eapply accept_market_ok; [done|exact Hk|]. split; [done|by apply settled_valid; [apply Hs|]|done|done].
Qed.

Lemma ingest_market_ok key epoch generation cursor at_ns payload_hash snapshot sm : machine_ok [] sm ->
  step_ok (ingest_market key epoch generation cursor at_ns payload_hash snapshot) sm.
Proof.
  intros H. unfold ingest_market. apply step_get. apply step_lift; [done|by destruct (BTreeMap.get _ key)|].
  intros n Hb%ok_or_Ok. destruct (bound_contributor [] sm key n H Hb) as [[s Hk] [c Hn]]. rewrite Hk, Hn.
  destruct (bool_decide (cn_invalidity c = Some Terminal) || is_terminal s) eqn:Et; [by apply step_refuse|].
  apply orb_false_iff in Et as [Etc Ets]. cbn [ok_or]. apply step_lift; [done..|]. intros ? [= <-].
  apply step_lift; [done..|]. intros ? [= <-].
  match goal with |- step_ok (if ?b || ?h then _ else _) _ => destruct b eqn:Er; [by eapply kill_ok|destruct h eqn:Eh; [by eapply kill_ok|]] end.
  cbn [orb]. apply orb_false_iff in Er as [_ Er], Eh as [_ Eh].
  pose proof (mk_contributors [] sm H key s Hk) as Hs. pose proof (mk_connections [] sm H n c Hn) as Hc.
  pose proof (mk_link [] sm H key n s c Hb Hk Hn) as Hl. rewrite bool_decide_eq_false_2 in Hl by apply not_elem_of_nil.
  destruct (time_allows_quiet at_ns s Hs) as [Hq Htime].
  apply call_bind.
  { apply on_contributor_ok; [done|by rewrite Hk|]. intros ? E. rewrite Hk in E. by injection E as <-. }
  intros on_time sm1 E H1. unfold on_contributor in E. rewrite Hk in E. destruct (time_allows at_ns s) as [r s1]. cbn in E, Hq, Htime.
  injection E as E <-. set (sm1 := mkMachine _ _ _ _ _ _) in *.
  assert (Hk1 : BTreeMap.get (sm_contributors sm1) key = Some s1) by (cbn; by rewrite BTreeMap.get_insert_eq).
  assert (Hinv : forall e, step_ok (on_contributor unconfigured key (emod invalidate_recoverable) !; (refuse e : Machine bool)) sm1).
  { intros e. apply call_bind; [|intros [] sm2 _ H2; by apply step_refuse]. apply on_contributor_ok; [done|done|].
    intros x Hx. cbn. apply quiet_recoverable. by apply (mk_contributors [] sm1 H1 key). }
  destruct on_time; cbn [negb].
  2: { apply call_bind; [|intros [] sm2 _ H2; by apply step_refuse]. apply on_contributor_ok; [done|by rewrite Hk1|].
       intros x Hx. cbn. apply quiet_recoverable. by apply (mk_contributors [] sm1 H1 key). }
  destruct Htime as [-> Hr]; [by destruct r; simplify_eq/=|].
  assert (Hopen : sl_epoch s <> Some epoch \/ BTreeSet.contains (cn_history c) epoch = false -> may_open s epoch at_ns)
    by (by apply checks_open).
  assert (Hadv : step_ok (advance_connection n key epoch generation at_ns !; accept_market key cursor at_ns payload_hash snapshot) sm1)
    by (eapply advance_market_ok; [done|exact Hb|exact Hk1|exact Hn|auto]).
  assert (Hstay : cn_epoch c = Some epoch -> cn_generation c = Some generation ->
    step_ok match sl_generation s with
    | None =>
        on_contributor unconfigured key (begin_epoch epoch generation at_ns) !;
        accept_market key cursor at_ns payload_hash snapshot
    | Some current =>
        if negb (current =? generation) || negb (bool_decide (sl_epoch s = Some epoch)) then
          on_contributor unconfigured key (emod invalidate_recoverable) !; refuse EpochMismatch
        else if bool_decide (sl_state s = Invalid) then
          if snapshot && sl_book_snapshot_permitted s
          then resnapshot key cursor at_ns payload_hash else refuse EpochMismatch
        else accept_market key cursor at_ns payload_hash snapshot
    end sm1).
  { intros He Hg. eapply stay_market_ok; [exact H1|exact Hb|exact Hk1|exact Hn|done|done|done|auto]. }
  destruct (cn_generation c) as [current|]; [|done]. destruct (current <? generation); [done|].
  destruct ((generation =? current) && bool_decide (cn_epoch c = Some epoch)) eqn:Es.
  - apply andb_true_iff in Es as [->%Z.eqb_eq Hce%bool_decide_eq_true].
    destruct (bool_decide (cn_state c = Invalid)); [by apply step_refuse|]. by apply Hstay.
  - apply call_bind; [apply Hinv|]. intros b sm2 E2. unfold ebind, on_contributor in E2. rewrite Hk1 in E2. discriminate E2.
Qed.

(** ** Coverage, clocks and faults *)

Lemma observe_ok epoch generation available_at cursor payload_hash subject s : slot_ok s ->
  keeps (observe epoch generation available_at cursor payload_hash subject) s.
Proof.
  intros H. unfold keeps, observe. unfold ebind at 1, eget. destruct (is_terminal s); [done|].
  destruct (time_ns available_at) as [at_ns|].
  2: { cbn. split; [by apply invalidate_recoverable_ok|apply invalidate_recoverable_grows]. }
  pose proof (prepare_epoch_ok epoch generation at_ns s H) as Hp. unfold ebind.
  destruct (prepare_epoch epoch generation at_ns s) as [[b|e] s1]; [|by destruct Hp as (? & ? & _)].
  destruct Hp as (H1 & Hg1 & Hp). specialize (Hp b eq_refl).
  destruct (accept_cursor_ok cursor at_ns payload_hash Native s1 epoch generation H1 Hp) as [H2 Hg2].
  destruct (accept_cursor cursor at_ns payload_hash Native s1) as [[o|e] s2]; cbn in *; [|split; [done|by etransitivity]].
  split; [by destruct H2 as [[] ?]|]. etransitivity; [exact Hg1|]. etransitivity; [exact Hg2|].
  split; cbn; [done..|]. intros r Hr. by exists r.
Qed.

Lemma check_subject_ok key epoch generation sm : machine_ok [] sm -> step_ok (check_subject key epoch generation) sm.
Proof.
  intros H. unfold step_ok, check_subject. destruct (BTreeMap.get (sm_contributors sm) key); [|done].
  case_bool_decide; [done|]. by destruct (_ || _).
Qed.

Lemma check_subject_Ok key epoch generation sm sm' : check_subject key epoch generation sm = (Ok tt, sm') ->
  sm' = sm /\ is_Some (BTreeMap.get (sm_contributors sm) key).
Proof.
  unfold check_subject. destruct (BTreeMap.get (sm_contributors sm) key); [|done].
  case_bool_decide; [done|]. destruct (_ || _); [done|]. intros [= <-]. by split; [|eexists].
Qed.

(** The targets of a validated fault exist. *)
Definition scope_known (sm : SourceStateMachine) (scope : FaultScopeV1) : Prop :=
  match scope with
  | ScopeContributor contributor => is_Some (BTreeMap.get (sm_contributors sm) (co_key contributor))
  | ScopeConnectionEpoch key _ _ => is_Some (BTreeMap.get (sm_connections sm) key)
  | ScopeProcessor _ => True
  end.

Lemma scope_known_grows sm sm' scope : machine_grows sm sm' -> scope_known sm scope -> scope_known sm' scope.
Proof.
  intros [_ Hc _ _ _ Hn]. destruct scope as [c|key ? ?|]; cbn; [|..|done].
  - intros [s Hs]. destruct (Hc _ _ Hs) as (s' & -> & _). by eexists.
  - intros [s Hs]. destruct (Hn _ _ Hs) as (s' & -> & _). by eexists.
Qed.

Lemma validate_scope_ok scope target sm : machine_ok [] sm -> step_ok (validate_scope scope target) sm.
Proof.
  intros H. unfold validate_scope. destruct scope as [c|key e g|p], target; try by apply step_refuse.
  - case_bool_decide; [by apply check_subject_ok|by apply step_refuse].
  - case_bool_decide; [|by apply step_refuse]. apply step_get, step_lift; [done|by destruct (BTreeMap.get _ _)|].
    intros slot _. by destruct (_ && _).
  - by case_bool_decide.
Qed.

Lemma validate_scope_Ok scope target sm sm' : validate_scope scope target sm = (Ok tt, sm') -> sm' = sm /\ scope_known sm scope.
Proof.
  unfold validate_scope. destruct scope as [c|key e g|p], target as [k|k|id]; try done; case_bool_decide; try done.
  - subst. apply check_subject_Ok.
  - subst. eff_unfold. cbn. destruct (BTreeMap.get (sm_connections sm) k); [|done]. cbn. destruct (_ && _); [|done].
    intros [= <-]. by split; [|eexists].
  - by intros [= <-].
Qed.

Lemma fault_targets_known sm scope : machine_ok [] sm -> scope_known sm scope ->
  Forall (fun k => is_Some (BTreeMap.get (sm_contributors sm) k)) (fault_targets (sm_config sm) scope).
Proof.
  intros H Hs. destruct scope as [c|key e g|p]; cbn in *.
  - by repeat constructor.
  - apply Forall_forall. intros k Hk. apply bound_to_spec in Hk; [|by apply (mk_wf [] sm H)].
    by destruct (bound_contributor [] sm k key H Hk).
  - apply Forall_forall. by apply (mk_contributor_keys [] sm H).
Qed.

Lemma each_target_ok l f : forall sm, machine_ok [] sm -> (forall s, slot_ok s -> quiet s (f s)) ->
  Forall (fun k => is_Some (BTreeMap.get (sm_contributors sm) k)) l -> step_ok (each_target l f) sm.
Proof.
  induction l as [|k l IH]; intros sm H Hf Hl; [by apply call_ret|]. apply Forall_cons in Hl as [[s Hk] Hl].
  unfold each_target. cbn [efor].
  assert (Hone : step_ok (on_contributor Panicked k (emod f)) sm).
  { apply on_contributor_ok; [done|by rewrite Hk|]. intros x Hx. cbn. apply Hf. by apply (mk_contributors [] sm H k). }
  apply call_bind; [done|]. intros [] sm' E H'. apply IH; [done..|]. eapply Forall_impl; [exact Hl|]. intros k' [x Hx]. cbn.
  destruct Hone as (_ & [_ Hg _ _ _ _] & _). rewrite E in Hg. cbn [snd] in Hg. destruct (Hg k' x Hx) as (x' & -> & _). by eexists.
Qed.

Lemma invalidate_targets_ok scope sm : machine_ok [] sm -> scope_known sm scope -> step_ok (invalidate_targets scope) sm.
Proof.
  intros H Hs. apply step_get. cbv beta zeta. case_bool_decide; [by apply step_refuse|].
  apply each_target_ok; [done|apply quiet_recoverable|by apply fault_targets_known].
Qed.

Lemma clock_jump_ok sm : machine_ok [] sm ->
  step_ok (emod (fun sm => sm ⟪ sm_clocks :=
    BTreeMap.map_values (fun _ slot => (invalidate_recoverable slot) ⟪ sl_observation_present := false ⟫) (sm_clocks sm) ⟫)) sm.
Proof.
  intros []. split_and! ; [split; cbn; try done|split; cbn; try apply slots_grow_refl; try done|done].
  - intros k s. rewrite BTreeMap.get_map_values. intros (x & Hx & ->)%fmap_Some.
    assert (slot_ok (invalidate_recoverable x)) as [[] ?] by (apply invalidate_recoverable_ok; by eapply mk_clocks0). by split.
  - apply slots_grow_map. intros k s. etransitivity; [apply invalidate_recoverable_grows|].
    split; cbn; [done..|]. intros r Hr. by exists r.
  - apply Forall_Forall2_diag, Forall_forall. by intros x _.
  - intros n c Hn. by exists c.
Qed.

Lemma apply_fault_ok scope fault sm : machine_ok [] sm -> scope_known sm scope -> step_ok (apply_fault scope fault) sm.
Proof.
  intros H Hs. apply step_get. cbv beta zeta. case_bool_decide; [by apply step_refuse|].
  pose proof (fault_targets_known sm scope H Hs) as Ht.
  assert (Hinv : step_ok (each_target (fault_targets (sm_config sm) scope) invalidate_recoverable) sm)
    by (apply each_target_ok; [done|apply quiet_recoverable|done]).
  destruct fault; try done.
  - apply call_bind; [done|]. intros [] sm' E H'. destruct scope as [|key e g|]; [by apply call_ret| |by apply call_ret].
    apply on_connection_ok; [done| |apply connection_recoverable_ok|].
    + destruct Hinv as (_ & Hg & _). rewrite E in Hg. cbn [snd] in Hg. destruct (scope_known_grows _ _ _ Hg Hs) as [c Hc]. by rewrite Hc.
    + intros s c. unfold connection_invalidate_recoverable. case_bool_decide; [done|]. by apply connection_invalidated_link.
  - apply each_target_ok; [done| |done]. intros s Hok. eapply quiet_trans; [by apply quiet_recoverable|].
    apply quiet_flags. by apply invalidate_recoverable_ok.
  - apply call_bind; [done|]. intros [] sm' _ H'. by apply clock_jump_ok.
  - apply each_target_ok; [done| |done]. intros s Hok. eapply quiet_trans; [by apply quiet_recoverable|].
    apply quiet_flags. by apply invalidate_recoverable_ok.
  - apply each_target_ok; [done| |done]. intros s Hok. by apply quiet_flags.
Qed.

(** ** System inputs *)

Lemma on_slot_ok {A} index (m : SlotM A) sm x : machine_ok [] sm -> sm_systems sm !! index = Some x -> keeps m (sy_slot x) ->
  step_ok (on_system index (on_slot m)) sm.
Proof.
  intros H Hi Hk. unfold keeps in Hk.
  apply (on_system_ok index _ sm x); try done; unfold on_slot, ezoom; destruct (m (sy_slot x)); cbn; by destruct Hk.
Qed.

Lemma system_slot_ok sm index x : machine_ok [] sm -> sm_systems sm !! index = Some x -> slot_ok (sy_slot x).
Proof. intros H Hi. pose proof (mk_systems [] sm H) as Hf. rewrite Forall_lookup in Hf. by apply (Hf index). Qed.

Lemma on_system_lookup {A} index (m : Eff SystemSlot CursorError A) sm x : sm_systems sm !! index = Some x ->
  fst (on_system index m sm) = map_err Refused (fst (m x)) /\
  sm_systems (snd (on_system index m sm)) !! index = Some (snd (m x)).
Proof.
  intros Hi. unfold on_system. rewrite Hi. destruct (m x) as [r x']. split; [done|]. cbn.
  apply list_lookup_insert_eq. by eapply lookup_lt_Some.
Qed.

Lemma accept_keeps cursor at_ns payload_hash mode s epoch generation : slot_ok s -> prepared epoch generation s ->
  keeps (accept_cursor cursor at_ns payload_hash mode) s.
Proof.
  intros H Hp. unfold keeps. destruct (accept_cursor_ok cursor at_ns payload_hash mode s epoch generation H Hp) as [Hok Hg].
  by destruct (accept_cursor cursor at_ns payload_hash mode s).
Qed.

Lemma accept_system_ok index scope cursor at_ns payload_hash mode sm x epoch generation : machine_ok [] sm ->
  scope_known sm scope -> sm_systems sm !! index = Some x -> prepared epoch generation (sy_slot x) ->
  step_ok (accept_system index scope cursor at_ns payload_hash mode) sm.
Proof.
  intros H Hs Hi Hp. unfold accept_system.
  assert (Hone : step_ok (on_system index (on_slot (accept_cursor cursor at_ns payload_hash mode))) sm).
  { eapply on_slot_ok; [done|done|]. eapply accept_keeps; [|done]. by eapply system_slot_ok. }
  unfold step_ok in Hone |- *. destruct (on_system index _ sm) as [[o|[e|]] sm']; cbn [fst snd] in *; [done| |done].
  destruct Hone as (H' & Hg & _).
  assert (step_ok (if invalidates_state e then invalidate_targets scope !; refuse e else (refuse e : Machine IngestOutcome)) sm')
    as (H2 & Hg2 & Hp2).
  { destruct (invalidates_state e); [|by apply step_refuse]. apply call_bind; [|intros [] sm2 _ H2; by apply step_refuse].
    apply invalidate_targets_ok; [done|]. by eapply scope_known_grows. }
  split_and! ; [done|by etransitivity|done].
Qed.

(** A duplicate of the last cursor changes nothing, or invalidates. *)
Lemma duplicate_keeps cursor at_ns payload_hash mode s : slot_ok s -> sl_cursor s = Some cursor ->
  keeps (accept_cursor cursor at_ns payload_hash mode) s.
Proof.
  intros H Hc. assert (Hf : failed s (snd (accept_cursor cursor at_ns payload_hash mode s))).
  { unfold accept_cursor. pose proof (preflight_time_cases at_ns s) as Ht. unfold ebind at 1.
    destruct (preflight_time at_ns s) as [[[]|e] s1]; [|destruct Ht as [_ ->]; by right]. destruct Ht as [-> _].
    unfold ebind at 1, eget. destruct (match sl_cursor_mode s with Some _ => _ | None => _ end); [by right|].
    destruct (match sl_available_at_ns s with Some _ => _ | None => _ end); [by right|]. rewrite Hc, bool_decide_eq_true_2 by done.
    case_bool_decide; [by left|by right]. }
  unfold keeps. apply failed_refused in Hf. destruct (accept_cursor cursor at_ns payload_hash mode s) as [r s'].
  split; [by eapply refused_ok|by apply refused_grows].
Qed.

Section Safety.
Context (sha256_hex : list Z -> string).

Lemma ingest_system_ok key epoch generation scope available_at cursor fault predecessor payload_hash sm : machine_ok [] sm ->
  step_ok (ingest_system sha256_hex key epoch generation scope available_at cursor fault predecessor payload_hash) sm.
Proof.
  intros H. unfold ingest_system. apply call_bind; [by apply validate_scope_ok|]. intros [] sm0 E0 _.
  apply validate_scope_Ok in E0 as [-> Hs]. apply step_get.
  destruct (list_find _ (sm_systems sm)) as [[index x]|] eqn:Ef; [|done]. apply list_find_Some in Ef as (Hi & Hsrc & _).
  pose proof (system_slot_ok sm index x H Hi) as Hx. destruct (is_terminal (sy_slot x)); [by apply step_refuse|].
  destruct (time_ns available_at) as [at_ns|].
  2: { apply call_bind; [|intros [] sm' _ H'; by apply step_refuse]. eapply on_slot_ok; [done|done|].
       split; [by apply invalidate_recoverable_ok|apply invalidate_recoverable_grows]. }
  cbv zeta. destruct (_ && _ && _) eqn:Edup.
  { apply andb_true_iff in Edup as [_ Ecur%bool_decide_eq_true]. eapply on_slot_ok; [done|done|by apply duplicate_keeps]. }
  pose proof (prepare_epoch_ok epoch generation at_ns (sy_slot x) Hx) as Hprep.
  assert (Hone : step_ok (on_system index (on_slot (prepare_epoch epoch generation at_ns))) sm).
  { eapply on_slot_ok; [done|done|]. unfold keeps. by destruct (prepare_epoch _ _ _ _), Hprep as (? & ? & _). }
  apply call_bind; [done|]. intros new_epoch sm1 E1 H1.
  destruct (on_system_lookup index (on_slot (prepare_epoch epoch generation at_ns)) sm x Hi) as [Er Hi1].
  assert (Hg1 : machine_grows sm sm1) by (destruct Hone as (_ & Hg & _); by rewrite E1 in Hg).
  rewrite E1 in Er, Hi1. cbn [fst snd] in Er, Hi1. unfold on_slot, ezoom in Er, Hi1.
  destruct (prepare_epoch epoch generation at_ns (sy_slot x)) as [r s1]. destruct Hprep as (Hs1 & _ & Hprep).
  cbn [fst snd] in Er, Hi1. assert (prepared epoch generation s1) as Hp1 by (destruct r; [by eapply Hprep|done]).
  destruct (negb _); [by apply step_refuse|].
  assert (Hacc : step_ok (accept_system index scope cursor at_ns payload_hash (sk_cursor_mode key)) sm1).
  { eapply accept_system_ok; [done|by eapply scope_known_grows|exact Hi1|exact Hp1]. }
  apply call_bind; [done|]. intros o sm2 E2 H2. assert (Hg2 : machine_grows sm1 sm2) by (destruct Hacc as (_ & Hg & _); by rewrite E2 in Hg).
  apply step_lift; [done|by destruct (next_head _ _ _)|]. intros head _.
  destruct (Forall2_lookup_l _ _ _ _ _ (mg_systems _ _ Hg2) Hi1) as (x2 & Hi2 & _).
  assert (Hset : step_ok (on_system index (emod (fun s => s ⟪ sy_chain_head := Some head ⟫))) sm2).
  { eapply on_system_ok; [done|exact Hi2|..]; cbn; [by eapply system_slot_ok|done|done]. }
  apply call_bind; [done|]. intros [] sm3 E3 H3. assert (Hg3 : machine_grows sm2 sm3) by (destruct Hset as (_ & Hg & _); by rewrite E3 in Hg).
  apply call_bind; [|intros [] sm4 _ H4; by apply call_ret]. apply apply_fault_ok; [done|].
  by eapply scope_known_grows, scope_known_grows, scope_known_grows.
Qed.

Lemma ingest_inner_ok input sm : machine_ok [] sm -> step_ok (ingest_inner sha256_hex input) sm.
Proof.
  intros H. destruct input as [envelope action catalog hash|source scope o a cursor fault pred hash|contributor source f cf ct a cursor hash|contributor source o a cursor st sk fl q rc hash]; cbn [ingest_inner].
  - apply step_lift; [done|by destruct (market_contributor _ _)|]. intros key _.
    apply step_lift; [done|by destruct (catalog_epoch _ _)|]. intros epoch _.
    apply step_lift; [done|by destruct (market_cursor _ _)|]. intros cursor _. by apply ingest_market_ok.
  - by apply ingest_system_ok.
  - unfold ingest_coverage. apply call_bind; [by apply check_subject_ok|]. intros [] sm' _ H'.
    apply on_coverage_ok; [done|]. intros s Hs. by apply observe_ok.
  - unfold ingest_clock. apply call_bind; [by apply check_subject_ok|]. intros [] sm' _ H'.
    apply on_clock_ok; [done|]. intros s Hs. by apply observe_ok.
Qed.

Lemma ingest_ok input sm : machine_ok [] sm -> step_ok (ingest sha256_hex input) sm.
Proof.
  intros H. pose proof (ingest_inner_ok input sm H) as (Hok & Hg & Hp). unfold step_ok, ingest.
  destruct (ingest_inner sha256_hex input sm) as [[o|[e|]] sm']; cbn [fst snd] in *; [done| |done].
  split_and! ; [|..|done]; by destruct (invalidates_state e).
Qed.

Lemma queue_drop_step_ok drop sm : machine_ok [] sm -> step_ok (invalidate_for_queue_drop drop) sm.
Proof.
  intros H. assert (Hk : forall s, slot_ok s -> keeps (emod invalidate_slot_for_queue_drop) s).
  { intros s Hs. split; [by apply queue_drop_ok|apply queue_drop_grows]. }
  destruct drop as [key|key|key|key]; cbn [invalidate_for_queue_drop].
  - apply on_contributor_ok; [done|done|]. intros s Hs. cbn. apply quiet_queue_drop. by apply (mk_contributors [] sm H key).
  - by apply on_clock_ok.
  - by apply on_coverage_ok.
  - unfold step_ok. destruct (list_find _ (sm_systems sm)) as [[index x]|] eqn:Ef; [|done].
    apply list_find_Some in Ef as (Hi & _). apply (on_slot_ok index _ sm x); [done|done|]. apply Hk. by eapply system_slot_ok.
Qed.

Lemma machine_call_ok op sm : machine_ok [] sm ->
  machine_ok [] (snd (machine_call sha256_hex op sm)) /\ machine_grows sm (snd (machine_call sha256_hex op sm)) /\
  fst (machine_call sha256_hex op sm) <> Err Panicked.
Proof.
  intros H. destruct op as [input|drop]; cbn [machine_call].
  - pose proof (ingest_ok input sm H) as (Hok & Hg & Hp). destruct (ingest sha256_hex input sm) as [r sm']; cbn in *.
    split_and! ; [done..|]. destruct r; cbn; congruence.
  - by apply queue_drop_step_ok.
Qed.

Lemma machine_run_ok ops : forall sm, machine_ok [] sm -> machine_ok [] (machine_run sha256_hex ops sm).
Proof. induction ops as [|op ops IH]; intros sm H; [done|]. apply IH. by apply machine_call_ok. Qed.

Lemma machine_run_grows ops : forall sm, machine_ok [] sm -> machine_grows sm (machine_run sha256_hex ops sm).
Proof.
  induction ops as [|op ops IH]; intros sm H; [done|]. destruct (machine_call_ok op sm H) as (H1 & Hg & _).
  etransitivity; [exact Hg|by apply IH].
Qed.

End Safety.

(** ** A new machine *)

Lemma get_collect {K V} `{OrdLaws K} `{!EqDecision K} (l : list K) (v : V) k :
  BTreeMap.get (collect l v) k = if bool_decide (k ∈ l) then Some v else None.
Proof.
  unfold collect. assert (forall m, BTreeMap.get (foldl (fun m k => BTreeMap.insert m k v) m l) k =
    if bool_decide (k ∈ l) then Some v else BTreeMap.get m k) as Hm; [|by rewrite Hm].
  induction l as [|x l IH]; intros m; cbn [foldl]; [by rewrite bool_decide_eq_false_2 by apply not_elem_of_nil|].
  rewrite IH. case_bool_decide as E1.
  - by rewrite bool_decide_eq_true_2 by by right.
  - destruct (decide (k = x)) as [->|Hne].
    + by rewrite BTreeMap.get_insert_eq, bool_decide_eq_true_2 by by left.
    + rewrite BTreeMap.get_insert_ne, bool_decide_eq_false_2 by (done || by apply not_elem_of_cons). done.
Qed.

Lemma get_collect_Some {K V} `{OrdLaws K} `{!EqDecision K} (l : list K) (v : V) k x :
  BTreeMap.get (collect l v) k = Some x -> x = v.
Proof. rewrite get_collect. case_bool_decide; by intros [= <-]. Qed.

Lemma machine_new_ok config : config_ok config -> BTreeMap.wf (cfg_contributor_connections config) ->
  machine_ok [] (machine_new config).
Proof.
  intros Hok Hwf. split; cbn; [done|done|..].
  - intros k Hk. rewrite get_collect, bool_decide_eq_true_2 by done. by eexists.
  - intros k Hk. rewrite get_collect, bool_decide_eq_true_2 by done. by eexists.
  - intros k s ->%get_collect_Some. apply default_ok.
  - intros k s ->%get_collect_Some. apply default_ok.
  - intros k s ->%get_collect_Some. apply default_ok.
  - apply Forall_map, Forall_forall. intros x _. apply default_ok.
  - intros k s ->%get_collect_Some. apply connection_default_ok.
  - intros k n s c _ ->%get_collect_Some ->%get_collect_Some. split; [by left|by intros e|done].
Qed.

(** What holds of every slot the machine keeps: of contributors, of clocks, of
    coverage and of systems, whether or not a configuration binds it. *)
Definition every_slot (P : Slot -> Prop) (sm : SourceStateMachine) : Prop :=
  (forall k s, BTreeMap.get (sm_contributors sm) k = Some s -> P s) /\
  (forall k s, BTreeMap.get (sm_clocks sm) k = Some s -> P s) /\
  (forall k s, BTreeMap.get (sm_coverage sm) k = Some s -> P s) /\
  (forall system, system ∈ sm_systems sm -> P (sy_slot system)).

Lemma machine_ok_every_slot pending sm : machine_ok pending sm -> every_slot slot_ok sm.
Proof.
  intros [_ _ _ _ Hcontributors Hclocks Hcoverage Hsystems _ _]. split_and! ; [done..|].
  intros system Hin. by apply (proj1 (list.Forall_forall _ _) Hsystems).
Qed.

Lemma every_slot_impl (P Q : Slot -> Prop) sm : (forall s, P s -> Q s) -> every_slot P sm -> every_slot Q sm.
Proof. intros HPQ (H1 & H2 & H3 & H4). split_and! ; eauto. Qed.

(** C4. A source state machine built from an accepted configuration, whatever
    inputs and queue drops it has been given: the next call does not panic and
    takes nothing final back (terminal invalidity, used epochs and the latest
    times stay); every contributor is in no epoch or in the current epoch and
    generation of its connection; every slot of the machine (of contributors,
    clocks, coverage and systems) is live only once its cursor is a minute past
    the start of its epoch and has used at most 256 epochs; and every
    connection has used at most 256 epochs. *)
Theorem source_machine_safe sha256_hex processor connections contributors bound clocks coverage systems config ops op :
  BTreeMap.wf bound -> config_new processor connections contributors bound clocks coverage systems = Ok config ->
  let sm := machine_run sha256_hex ops (machine_new config) in
  fst (machine_call sha256_hex op sm) <> Err Panicked /\ machine_grows sm (snd (machine_call sha256_hex op sm)) /\
  (forall k n, BTreeMap.get bound k = Some n -> exists s c,
     BTreeMap.get (sm_contributors sm) k = Some s /\ BTreeMap.get (sm_connections sm) n = Some c /\
     slot_ok s /\ connection_ok c /\ link_ok s c) /\
  every_slot slot_ok sm /\ every_slot (fun s => len (sl_history s) <= 256) sm /\
  (forall n c, BTreeMap.get (sm_connections sm) n = Some c -> connection_ok c /\ len (cn_history c) <= 256).
Proof.
  intros Hwf Hnew sm. destruct (config_sound _ _ _ _ _ _ _ Hwf config Hnew) as [-> Hok].
  assert (machine_ok [] sm) as H by (by apply machine_run_ok, machine_new_ok).
  assert (sm_config sm = mkConfig processor connections contributors bound clocks coverage systems) as Hcfg.
  { by apply (mg_config _ _ (machine_run_grows sha256_hex ops _ (machine_new_ok _ Hok Hwf))). }
  destruct (machine_call_ok sha256_hex op sm H) as (_ & Hg & Hp). split; [done|]. split; [done|].
  split; [|split; [by eapply machine_ok_every_slot|split; [|intros n c Hc; split; [|apply (co_history c)]; by apply (mk_connections [] sm H n)]]].
  2: { apply (every_slot_impl slot_ok); [intros s [Hcore _]; apply (sc_history s Hcore)|by eapply machine_ok_every_slot]. }
  intros k n Hk.
  assert (BTreeMap.get (cfg_contributor_connections (sm_config sm)) k = Some n) as Hb by (by rewrite Hcfg).
  destruct (bound_contributor [] sm k n H Hb) as [[s Hs] [c Hc]]. exists s, c. split_and! ; [done|done|..].
  - by apply (mk_contributors [] sm H k).
  - by apply (mk_connections [] sm H n).
  - by apply (mk_link [] sm H k n).
Qed.

(** ** An example: two sessions of one connection *)

Definition no_hash (_ : list Z) : string := EmptyString.

Definition session_catalog (epoch : string) (generation : Z) : ReplayCatalogV1 :=
  mkCatalog [(1, mkVenueEntry "BINANCE" "binance_usdm")] [(7, ck_instrument btc)] [mkReplayEpoch 3 4 epoch generation] [].

Definition btc_trade (at_ns first last : Z) : EventEnvelope :=
  mkEventEnvelope 1 1 (Some 7) 3 4 0 0 (Some at_ns) at_ns (Some (mkSequenceRange first last)) 0
    (EvTrade (mkTrade (mkPrice (mkFixed 1 0)) (mkQuantity (mkFixed 1 0)) Buy None)).

Definition btc_input (epoch : string) (generation at_ns first last : Z) (payload_hash : string) : machine_op :=
  MIngest (InMarket (btc_trade at_ns first last) 0 (session_catalog epoch generation) payload_hash).

Definition example_machine : SourceStateMachine :=
  match example_config with Ok config => machine_new config | Err _ => machine_new (mkConfig EmptyString [] [] [] [] [] []) end.

(** Two trades in one epoch, a minute apart. *)
Definition example_ops : list machine_op :=
  [btc_input "epoch_a" 0 1000 10 11 "h1"; btc_input "epoch_a" 0 60000001000 12 12 "h2"].

Lemma source_machine_safe_witness :
  exists s c, BTreeMap.get (sm_contributors (machine_run no_hash example_ops example_machine)) btc = Some s /\
    BTreeMap.get (sm_connections (machine_run no_hash example_ops example_machine)) usdm = Some c /\
    sl_state s = SlotLive /\ link_ok s c.
Proof.
  destruct (source_machine_safe no_hash "mechanics" [usdm] [btc_spec] [(btc, usdm)] [btc_clock] btc_coverage
    [btc_faults; link_faults] (sm_config example_machine) example_ops (btc_input "epoch_b" 1 60000002000 1 2 "h3"))
    as (_ & _ & Hall & _).
  - repeat constructor.
  - vm_compute. reflexivity.
  - destruct (Hall btc usdm eq_refl) as (s & c & Hs & Hc & _ & _ & Hl). exists s, c.
    split; [exact Hs|]. split; [exact Hc|]. split; [|exact Hl].
    assert (E : sl_state <$> BTreeMap.get (sm_contributors (machine_run no_hash example_ops (machine_new (sm_config example_machine)))) btc
      = Some SlotLive) by (vm_compute; reflexivity).
    rewrite Hs in E. cbn in E. congruence.
Defined.
