(* ===== verification/PulseAdmission.v ===== *)
(** * Event pulse: what an accepted market input means

    An input the source state machine accepts continues its contributor's
    sequence, or begins a new epoch, and the contributor is live exactly when it
    is a minute into the epoch. *)

From stdpp Require Import base tactics numbers strings option list.
From Stdlib Require Import ZArith Lia.
From S2P Require Import Prelude Collections Fixed Text Model PulseKeys PulseInput PulseSlot PulseCursor PulseSafety.

Local Open Scope Z_scope.

(** From slot [s] to slot [s'] by the input with this cursor. *)
Record admitted (epoch : string) (generation : Z) (cursor : CursorV1) (at_ns : Z) (payload_hash : string)
    (o : IngestOutcome) (s s' : Slot) : Prop := {
  ad_time : forall r, sl_retained_available_at_ns s = Some r -> r <= at_ns;
  ad_next :
    sl_epoch s = Some epoch /\ sl_generation s = Some generation /\
      (forall p, sl_cursor s = Some p -> in_sequence p cursor) /\ sl_first_available_ns s' = sl_first_available_ns s \/
    BTreeSet.contains (sl_history s) epoch = false /\ sl_first_available_ns s' = Some at_ns;
  ad_view : view s' = Some (mkCursorView epoch generation cursor at_ns payload_hash);
  ad_live : exists first, sl_first_available_ns s' = Some first /\ (sl_state s' = SlotLive <-> WARMUP_NS <= at_ns - first);
  ad_outcome : o = AcceptedLive /\ sl_state s' = SlotLive \/ o = AcceptedWarming /\ sl_state s' = Warming
}.

Definition accepted (o : IngestOutcome) : Prop := o = AcceptedWarming \/ o = AcceptedLive.

Lemma accept_market_spec key cursor at_ns payload_hash snapshot sm sm' s o :
  BTreeMap.get (sm_contributors sm) key = Some s ->
  accept_market key cursor at_ns payload_hash snapshot sm = (Ok o, sm') ->
  exists s1 s', accept_cursor cursor at_ns payload_hash (cursor_mode cursor) s = (Ok o, s1) /\
    (s' = s1 \/ s' = eligible s1) /\ BTreeMap.get (sm_contributors sm') key = Some s'.
Proof.
  intros Hk H. unfold accept_market in H. apply ebind_Ok in H as (o1 & sm1 & E1 & H).
  unfold on_contributor at 1 in E1. rewrite Hk in E1.
  destruct (accept_cursor cursor at_ns payload_hash (cursor_mode cursor) s) as [[o2|e] s1]; cbn in E1; [|done].
  injection E1 as -> <-. apply ebind_Ok in H as ([] & sm2 & E2 & H). injection H as -> <-. exists s1.
  destruct (snapshot && _) in E2.
  - unfold on_contributor in E2. cbn in E2. rewrite BTreeMap.get_insert_eq in E2. injection E2 as <-.
    exists (eligible s1). split_and! ; [done|by right|]. cbn. by rewrite BTreeMap.get_insert_eq.
  - injection E2 as <-. exists s1. split_and! ; [done|by left|]. cbn. by rewrite BTreeMap.get_insert_eq.
Qed.

(** The slot that takes the cursor is already in the input's epoch. *)
Lemma accept_admitted key epoch generation cursor at_ns payload_hash snapshot sm sm' s o : accepted o ->
  BTreeMap.get (sm_contributors sm) key = Some s -> sl_epoch s = Some epoch -> sl_generation s = Some generation ->
  accept_market key cursor at_ns payload_hash snapshot sm = (Ok o, sm') ->
  exists s', BTreeMap.get (sm_contributors sm') key = Some s' /\ continues (cursor_mode cursor) s cursor at_ns /\
    sl_first_available_ns s' = sl_first_available_ns s /\
    view s' = Some (mkCursorView epoch generation cursor at_ns payload_hash) /\
    (exists first, sl_first_available_ns s' = Some first /\ (sl_state s' = SlotLive <-> WARMUP_NS <= at_ns - first)) /\
    (o = AcceptedLive /\ sl_state s' = SlotLive \/ o = AcceptedWarming /\ sl_state s' = Warming).
Proof.
  intros Ho Hk He Hg H. destruct (accept_market_spec _ _ _ _ _ _ _ _ _ Hk H) as (s1 & s' & E & Hs' & Hk').
  pose proof (accept_cursor_cases cursor at_ns payload_hash (cursor_mode cursor) s) as Hc. rewrite E in Hc.
  destruct Hc as [(-> & _)|(Hc & first & Hf & Hw & Hcom)]; [by destruct Ho|]. exists s'.
  assert (Hs1 : sl_epoch s1 = Some epoch /\ sl_generation s1 = Some generation /\ sl_cursor s1 = Some cursor /\
    sl_available_at_ns s1 = Some at_ns /\ sl_payload_hash s1 = Some payload_hash /\ sl_first_available_ns s1 = Some first /\
    (o = AcceptedLive /\ sl_state s1 = SlotLive \/ o = AcceptedWarming /\ sl_state s1 = Warming)).
  { destruct Hcom as [[-> ->]|[-> ->]]; cbn; split_and! ; auto. }
  assert (Hsame : sl_epoch s' = sl_epoch s1 /\ sl_generation s' = sl_generation s1 /\ sl_cursor s' = sl_cursor s1 /\
    sl_available_at_ns s' = sl_available_at_ns s1 /\ sl_payload_hash s' = sl_payload_hash s1 /\
    sl_first_available_ns s' = sl_first_available_ns s1 /\ sl_state s' = sl_state s1) by (by destruct Hs' as [->| ->]).
  destruct Hs1 as (A1 & A2 & A3 & A4 & A5 & A6 & A7), Hsame as (B1 & B2 & B3 & B4 & B5 & B6 & B7).
  split_and! ; [done|done|congruence| | |by rewrite B7].
  - unfold view. by rewrite B1, B2, B3, B4, B5, A1, A2, A3, A4, A5.
  - exists first. split; [congruence|]. rewrite B7, <- Hw. destruct A7 as [[-> ->]|[-> ->]]; naive_solver.
Qed.

Lemma begun_admitted key epoch generation cursor at_ns payload_hash snapshot sm sm' s o : accepted o ->
  may_open s epoch at_ns -> BTreeMap.get (sm_contributors sm) key = Some (opened s epoch generation at_ns) ->
  accept_market key cursor at_ns payload_hash snapshot sm = (Ok o, sm') ->
  exists s', BTreeMap.get (sm_contributors sm') key = Some s' /\ admitted epoch generation cursor at_ns payload_hash o s s'.
Proof.
  intros Ho [_ Hn _ Ht] Hk H.
  destruct (accept_admitted key epoch generation _ _ _ _ _ _ _ _ Ho Hk eq_refl eq_refl H) as (s' & Hk' & _ & Hf & Hv & Hl & Hst).
  exists s'. split; [done|]. split; try done. by right.
Qed.

Lemma advance_admits n key epoch generation cursor at_ns payload_hash snapshot sm sm' s c o : machine_ok [] sm -> accepted o ->
  BTreeMap.get (cfg_contributor_connections (sm_config sm)) key = Some n ->
  BTreeMap.get (sm_contributors sm) key = Some s -> BTreeMap.get (sm_connections sm) n = Some c ->
  (sl_epoch s <> Some epoch \/ BTreeSet.contains (cn_history c) epoch = false -> may_open s epoch at_ns) ->
  (advance_connection n key epoch generation at_ns !; accept_market key cursor at_ns payload_hash snapshot) sm = (Ok o, sm') ->
  exists s', BTreeMap.get (sm_contributors sm') key = Some s' /\ admitted epoch generation cursor at_ns payload_hash o s s'.
Proof.
  intros H Ho Hb Hk Hn Hopen E. apply ebind_Ok in E as ([] & sm1 & E1 & E).
  destruct (advance_connection_ok n key epoch generation at_ns sm s c H Hb Hk Hn) as [_ Hr]; [auto|].
  eapply begun_admitted; [done| |by apply Hr|done]. apply Hopen. right.
  rewrite advance_connection_eq in E1. unfold on_connection in E1. rewrite Hn in E1.
  pose proof (connection_begin_cases epoch generation c) as Hc.
  destruct (connection_begin_epoch epoch generation c) as [[[]|e] c']; cbn in E1; [by destruct Hc as (_ & ? & _)|done].
Qed.

Lemma stay_admits n key epoch generation cursor at_ns payload_hash snapshot sm sm' s c o : machine_ok [] sm -> accepted o ->
  BTreeMap.get (cfg_contributor_connections (sm_config sm)) key = Some n ->
  BTreeMap.get (sm_contributors sm) key = Some s -> BTreeMap.get (sm_connections sm) n = Some c -> cn_epoch c = Some epoch ->
  cn_generation c = Some generation ->
  (sl_epoch s <> Some epoch \/ BTreeSet.contains (cn_history c) epoch = false -> may_open s epoch at_ns) ->
  match sl_generation s with
  | None =>
      on_contributor unconfigured key (begin_epoch epoch generation at_ns) !;
      accept_market key cursor at_ns payload_hash snapshot
  | Some current =>
      if negb (current =? generation) || negb (bool_decide (sl_epoch s = Some epoch)) then
        on_contributor unconfigured key (emod invalidate_recoverable) !; refuse EpochMismatch
      else if bool_decide (sl_state s = Invalid) then
        if snapshot && sl_book_snapshot_permitted s
        then resnapshot key cursor at_ns payload_hash else refuse EpochMismatch
      else accept_market key cursor at_ns payload_hash snapshot
  end sm = (Ok o, sm') ->
  exists s', BTreeMap.get (sm_contributors sm') key = Some s' /\ admitted epoch generation cursor at_ns payload_hash o s s'.
Proof.
  intros H Ho Hb Hk Hn He Hg Hopen E. pose proof (mk_contributors [] sm H key s Hk) as [[Hge _ _ _ _ _] _].
  destruct (sl_generation s) as [current|] eqn:Eg.
  2: { assert (may_open s epoch at_ns) as Hm.
       { apply Hopen. left. intros Ee. rewrite Ee in Hge. by destruct (proj2 Hge ltac:(by eexists)). }
       destruct (join_epoch_ok key epoch generation at_ns sm s n c H Hb Hk Hn Hm He Hg) as (Ej & _). unfold ebind in E.
       rewrite Ej in E. eapply begun_admitted; [done|done| |exact E]. cbn. by rewrite BTreeMap.get_insert_eq. }
  destruct (negb (current =? generation) || _) eqn:Em; [by apply ebind_Ok in E as ([] & sm1 & _ & E)|].
  apply orb_false_iff in Em as [->%negb_false_iff%Z.eqb_eq Hse%negb_false_iff%bool_decide_eq_true].
  case_bool_decide as Ei.
  - destruct (snapshot && _); [|done]. unfold resnapshot in E. apply ebind_Ok in E as (o1 & sm1 & _ & E).
    case_bool_decide; [injection E as <- _; by destruct Ho|]. apply ebind_Ok in E as ([] & sm2 & _ & E).
    injection E as <- _. by destruct Ho.
  - destruct (accept_admitted key epoch generation _ _ _ _ _ _ _ _ Ho Hk Hse Eg E) as (s' & Hk' & Hc & Hf & Hv & Hl & Hst).
    exists s'. split; [done|]. destruct Hc as [Ht _ _ _ Hnx]. split; try done. left. by split_and!.
Qed.

Lemma ingest_market_admits key epoch generation cursor at_ns payload_hash snapshot sm sm' o : machine_ok [] sm ->
  accepted o -> ingest_market key epoch generation cursor at_ns payload_hash snapshot sm = (Ok o, sm') ->
  exists s s', BTreeMap.get (sm_contributors sm) key = Some s /\ BTreeMap.get (sm_contributors sm') key = Some s' /\
    admitted epoch generation cursor at_ns payload_hash o s s'.
Proof.
  intros H Ho E. unfold ingest_market in E. unfold ebind at 1, eget in E.
  apply ebind_Ok in E as (n & sm0 & En & E). unfold elift in En. injection En as Hb%ok_or_Ok <-.
  destruct (bound_contributor [] sm key n H Hb) as [[s Hk] [c Hn]]. rewrite Hk, Hn in E.
  destruct (bool_decide (cn_invalidity c = Some Terminal) || is_terminal s) eqn:Et; [done|].
  apply orb_false_iff in Et as [_ Ets]. cbn [ok_or] in E. unfold ebind at 1 2, elift in E.
  match type of E with (if ?b || ?h then _ else _) _ = _ => destruct (b || h) eqn:Ech end.
  { apply ebind_Ok in E as ([] & sm1 & _ & E). by apply ebind_Ok in E as ([] & sm2 & _ & E). }
  apply orb_false_iff in Ech as [Er Eh]. apply orb_false_iff in Er as [_ Er], Eh as [_ Eh].
  pose proof (mk_contributors [] sm H key s Hk) as Hs. pose proof (mk_connections [] sm H n c Hn) as Hc.
  pose proof (mk_link [] sm H key n s c Hb Hk Hn) as Hl. rewrite bool_decide_eq_false_2 in Hl by apply not_elem_of_nil.
  destruct (time_allows_quiet at_ns s Hs) as [Hq Htime].
  apply ebind_Ok in E as (on_time & sm1 & E1 & E).
  unfold on_contributor in E1. rewrite Hk in E1. destruct (time_allows at_ns s) as [r s1]. cbn in E1, Htime.
  destruct on_time; cbn [negb] in E; [|by apply ebind_Ok in E as ([] & sm2 & _ & E)].
  destruct r as [b|]; cbn in E1; [|done]. injection E1 as -> E1. destruct Htime as [-> Hr]; [done|].
  assert (machine_ok [] sm1) as H1.
  { subst sm1. apply (update_contributor [] sm key s s); [done|done|done|done|]. intros n' c' Hn' Hc'. by apply (mk_link [] sm H key n'). }
  assert (Hk1 : BTreeMap.get (sm_contributors sm1) key = Some s) by (subst sm1; cbn; by rewrite BTreeMap.get_insert_eq).
  assert (Hb1 : BTreeMap.get (cfg_contributor_connections (sm_config sm1)) key = Some n) by (by subst sm1).
  assert (Hn1 : BTreeMap.get (sm_connections sm1) n = Some c) by (by subst sm1). clear E1.
  assert (Hopen : sl_epoch s <> Some epoch \/ BTreeSet.contains (cn_history c) epoch = false -> may_open s epoch at_ns)
    by (by apply checks_open).
  exists s. assert (Hadv : (advance_connection n key epoch generation at_ns !; accept_market key cursor at_ns payload_hash snapshot) sm1
      = (Ok o, sm') -> exists s', BTreeMap.get (sm_contributors sm') key = Some s' /\ admitted epoch generation cursor at_ns payload_hash o s s').
  { intros Ea. by eapply advance_admits. }
  apply ebind_Ok in E as (advance & sm2 & E2 & E).
  destruct (cn_generation c) as [current|] eqn:Eg.
  2: { injection E2 as <- <-. destruct (Hadv E) as (s' & ? & ?). by exists s'. }
  destruct (current <? generation).
  { injection E2 as <- <-. destruct (Hadv E) as (s' & ? & ?). by exists s'. }
  destruct ((generation =? current) && bool_decide (cn_epoch c = Some epoch)) eqn:Es.
  2: { by apply ebind_Ok in E2 as ([] & sm3 & _ & E2). }
  apply andb_true_iff in Es as [->%Z.eqb_eq Hce%bool_decide_eq_true].
  destruct (bool_decide (cn_state c = Invalid)); [done|]. injection E2 as <- <-.
  destruct (stay_admits n key epoch current cursor at_ns payload_hash snapshot sm1 sm' s c o) as (s' & ? & ?); auto.
  by exists s'.
Qed.

(** C5. A market input that a machine accepts names a contributor and a cursor
    through its catalogue, is not older than anything the contributor has
    seen, and either directly follows the contributor's last cursor in the same
    epoch (native ranges without a gap or an overlap, derived cursors
    increasing) or begins an epoch the contributor has never used; the machine
    then shows exactly this cursor, and the contributor is live if and only if
    the input is a minute past the first of the epoch. *)
Theorem accepted_market_continues sha256_hex processor connections contributors bound clocks coverage systems config ops
    envelope action_index catalog payload_hash o sm' :
  BTreeMap.wf bound -> config_new processor connections contributors bound clocks coverage systems = Ok config ->
  let sm := machine_run sha256_hex ops (machine_new config) in
  ingest sha256_hex (InMarket envelope action_index catalog payload_hash) sm = (Ok o, sm') -> accepted o ->
  exists key entry cursor s s',
    market_contributor catalog envelope = Some key /\ catalog_epoch catalog envelope = Some entry /\
    market_cursor envelope action_index = Ok cursor /\
    BTreeMap.get (sm_contributors sm) key = Some s /\ BTreeMap.get (sm_contributors sm') key = Some s' /\
    admitted (re_connection_epoch entry) (re_epoch_generation entry) cursor (env_receive_ts envelope) payload_hash o s s'.
Proof.
  intros Hwf Hnew sm E Ho. destruct (config_sound _ _ _ _ _ _ _ Hwf config Hnew) as [-> Hok].
  assert (machine_ok [] sm) as H by (by apply machine_run_ok, machine_new_ok).
  unfold ingest in E. destruct (ingest_inner sha256_hex (InMarket envelope action_index catalog payload_hash) sm) as [r m] eqn:Ei.
  injection E as -> <-. cbn [ingest_inner] in Ei.
  apply ebind_Ok in Ei as (key & sm1 & E1 & Ei). injection E1 as Hkey%ok_or_Ok <-.
  apply ebind_Ok in Ei as (entry & sm1 & E1 & Ei). injection E1 as Hentry%ok_or_Ok <-.
  apply ebind_Ok in Ei as (cursor & sm1 & E1 & Ei). injection E1 as Hcursor%map_err_Ok <-.
  destruct (ingest_market_admits _ _ _ _ _ _ _ _ _ _ H Ho Ei) as (s & s' & Hs & Hs' & Ha).
  by exists key, entry, cursor, s, s'.
Qed.

Lemma accepted_market_continues_witness :
  let sm := machine_run no_hash [btc_input "epoch_a" 0 1000 10 11 "h1"] (machine_new (sm_config example_machine)) in
  exists sm' s s', ingest no_hash (InMarket (btc_trade 60000001000 12 12) 0 (session_catalog "epoch_a" 0) "h2") sm = (Ok AcceptedLive, sm') /\
    admitted "epoch_a" 0 (NativeRange 12 12) 60000001000 "h2" AcceptedLive s s' /\
    BTreeMap.get (sm_contributors sm') btc = Some s'.
Proof.
  intros sm. destruct (ingest no_hash (InMarket (btc_trade 60000001000 12 12) 0 (session_catalog "epoch_a" 0) "h2") sm) as [r sm'] eqn:E.
  assert (Hr : r = Ok AcceptedLive) by (change r with (fst (r, sm')); rewrite <- E; vm_compute; reflexivity). rewrite Hr in *.
  destruct (accepted_market_continues no_hash "mechanics" [usdm] [btc_spec] [(btc, usdm)] [btc_clock] btc_coverage
    [btc_faults; link_faults] (sm_config example_machine) [btc_input "epoch_a" 0 1000 10 11 "h1"]
    (btc_trade 60000001000 12 12) 0 (session_catalog "epoch_a" 0) "h2" AcceptedLive sm')
    as (key & entry & cursor & s & s' & Hk & He & Hc & Hs & Hs' & Ha).
  - repeat constructor.
  - vm_compute. reflexivity.
  - exact E.
  - right. reflexivity.
  - exists sm', s, s'. split; [reflexivity|].
    assert (key = btc) as -> by (injection Hk as <-; reflexivity).
    assert (entry = mkReplayEpoch 3 4 "epoch_a" 0) as -> by (vm_compute in He; injection He as <-; reflexivity).
    assert (cursor = NativeRange 12 12) as -> by (injection Hc as <-; reflexivity).
    split; [exact Ha|exact Hs'].
Defined.

(** ** A reused epoch name *)

Lemma time_allows_late at_ns s : (forall r, sl_retained_available_at_ns s = Some r -> r <= at_ns) ->
  time_allows at_ns s = (Ok true, s).
Proof.
  intros Hr. unfold time_allows. pose proof (preflight_time_cases at_ns s) as Hc. unfold preflight_time in *. eff_unfold.
  destruct (sl_retained_available_at_ns s) as [r|]; [|done]. cbn in *. specialize (Hr r eq_refl).
  by rewrite (proj2 (Z.ltb_ge at_ns r)) by lia.
Qed.

(** A market input whose catalogue names this contributor, epoch and generation. *)
Record names_epoch (envelope : EventEnvelope) (action_index : Z) (catalog : ReplayCatalogV1) (key : ContributorKeyV1)
    (epoch : string) (generation : Z) : Prop := {
  ne_contributor : market_contributor catalog envelope = Some key;
  ne_epoch : exists entry, catalog_epoch catalog envelope = Some entry /\ re_connection_epoch entry = epoch /\
    re_epoch_generation entry = generation;
  ne_cursor : exists cursor, market_cursor envelope action_index = Ok cursor
}.

Lemma ingest_named sha256_hex envelope action_index catalog payload_hash key epoch generation sm :
  names_epoch envelope action_index catalog key epoch generation ->
  exists cursor, ingest_inner sha256_hex (InMarket envelope action_index catalog payload_hash) sm =
    ingest_market key epoch generation cursor (env_receive_ts envelope) payload_hash (is_snapshot (env_payload envelope)) sm.
Proof.
  intros [Hk (entry & He & <- & <-) [cursor Hc]]. exists cursor. unfold ingest_inner, ebind, elift.
  by rewrite Hk, He, Hc.
Qed.

(** Every input of a contributor whose connection is terminally invalid is refused. *)
Lemma terminal_refuses sha256_hex envelope action_index catalog payload_hash key epoch generation n c sm :
  names_epoch envelope action_index catalog key epoch generation ->
  BTreeMap.get (cfg_contributor_connections (sm_config sm)) key = Some n ->
  BTreeMap.get (sm_connections sm) n = Some c -> cn_invalidity c = Some Terminal ->
  ingest sha256_hex (InMarket envelope action_index catalog payload_hash) sm = (Err (Refused TerminalInvalid), sm).
Proof.
  intros Hn Hb Hc Ht. unfold ingest.
  destruct (ingest_named sha256_hex _ _ _ payload_hash _ _ _ sm Hn) as [cursor ->].
  unfold ingest_market, ebind, eget, elift. rewrite Hb. cbn [ok_or]. rewrite Hc, bool_decide_eq_true_2 by done. done.
Qed.

(** The connection refuses to begin an epoch it has used. *)
Lemma ingest_market_reuses key epoch generation g cursor at_ns payload_hash snapshot n sm s c :
  BTreeMap.get (cfg_contributor_connections (sm_config sm)) key = Some n ->
  BTreeMap.get (sm_contributors sm) key = Some s -> BTreeMap.get (sm_connections sm) n = Some c ->
  cn_invalidity c <> Some Terminal -> is_terminal s = false ->
  sl_epoch s = Some epoch -> cn_epoch c = Some epoch -> cn_generation c = Some g -> g < generation ->
  BTreeSet.contains (cn_history c) epoch = true -> (forall r, sl_retained_available_at_ns s = Some r -> r <= at_ns) ->
  ingest_market key epoch generation cursor at_ns payload_hash snapshot sm =
    (Err (Refused EpochReused),
     sm ⟪ sm_contributors := BTreeMap.insert (sm_contributors sm) key s ⟫
        ⟪ sm_connections := BTreeMap.insert (sm_connections sm) n (connection_invalidate_terminal c) ⟫).
Proof.
  intros Hb Hs Hc Ht Hst Hse Hce Hcg Hlt Hold Htime. unfold ingest_market, ebind at 1 2, eget, elift.
  rewrite Hb. cbn [ok_or]. rewrite Hs, Hc, Hst, bool_decide_eq_false_2 by done. cbn [orb ok_or]. unfold ebind at 1 2.
  rewrite Hse, Hce, !bool_decide_eq_true_2 by done. unfold in_history, history_full. cbn [negb andb orb].
  unfold ebind at 1, on_contributor. rewrite Hs, time_allows_late by done. cbn [negb map_err]. unfold ebind at 1.
  rewrite Hcg, (proj2 (Z.ltb_lt g generation)) by done. unfold eret at 1. unfold ebind. rewrite advance_connection_eq.
  unfold on_connection. cbn. rewrite Hc. unfold connection_begin_epoch, ebind, eget, emod, ethrow.
  by rewrite bool_decide_eq_false_2, Hold by done.
Qed.

(** C39. Any machine built from an accepted configuration, after any inputs and
    queue drops: an input that names a contributor's current epoch again under
    a greater generation, and is not older than the contributor's last, passes
    the reuse test of [ingest_market], which looks at changes of name only, and
    is refused when the connection begins the epoch.  The connection is then terminally
    invalid: every later market input of every contributor bound to it is
    refused, whatever happens in between.  But no contributor's slot has
    changed: those that were live are still shown as live, with their
    cursors. *)
Theorem reused_epoch_leaves_live sha256_hex processor connections contributors bound clocks coverage systems config ops
    envelope action_index catalog payload_hash key n epoch generation s g :
  BTreeMap.wf bound -> config_new processor connections contributors bound clocks coverage systems = Ok config ->
  let sm := machine_run sha256_hex ops (machine_new config) in
  BTreeMap.get bound key = Some n -> connection_invalidity sm n <> Some Terminal ->
  BTreeMap.get (sm_contributors sm) key = Some s -> sl_epoch s = Some epoch -> sl_generation s = Some g -> g < generation ->
  (forall r, sl_retained_available_at_ns s = Some r -> r <= env_receive_ts envelope) ->
  names_epoch envelope action_index catalog key epoch generation ->
  let '(r, sm') := ingest sha256_hex (InMarket envelope action_index catalog payload_hash) sm in
  r = Err (Refused EpochReused) /\ connection_invalidity sm' n = Some Terminal /\
  (forall k, contributor_state sm' k = contributor_state sm k /\ contributor_invalidity sm' k = contributor_invalidity sm k /\
     contributor_cursor sm' k = contributor_cursor sm k) /\
  (forall ops' k later index cat hash e t, BTreeMap.get bound k = Some n -> names_epoch later index cat k e t ->
     let sm'' := machine_run sha256_hex ops' sm' in
     ingest sha256_hex (InMarket later index cat hash) sm'' = (Err (Refused TerminalInvalid), sm'')).
Proof.
  intros Hwf Hnew sm Hb Hnt Hs Hse Hsg Hlt Htime Hin. destruct (config_sound _ _ _ _ _ _ _ Hwf config Hnew) as [-> Hok].
  pose proof (machine_run_ok sha256_hex ops _ (machine_new_ok _ Hok Hwf)) as H. fold sm in H.
  pose proof (mg_config _ _ (machine_run_grows sha256_hex ops _ (machine_new_ok _ Hok Hwf))) as Hcfg. fold sm in Hcfg.
  assert (BTreeMap.get (cfg_contributor_connections (sm_config sm)) key = Some n) as Hb' by (by rewrite Hcfg).
  destruct (bound_contributor [] sm key n H Hb') as [_ [c Hc]].
  pose proof (mk_link [] sm H key n s c Hb' Hs Hc) as Hl. rewrite bool_decide_eq_false_2 in Hl by apply not_elem_of_nil.
  destruct Hl as [[|[He Hg]] _ Hterm]; [congruence|]. unfold connection_invalidity in Hnt. rewrite Hc in Hnt. cbn in Hnt.
  assert (is_terminal s = false) as Hst by (destruct (is_terminal s); [by destruct Hnt, Hterm|done]).
  pose proof (machine_call_ok sha256_hex (MIngest (InMarket envelope action_index catalog payload_hash)) sm H) as (H' & _ & _).
  cbn in H'. revert H'. unfold ingest at 1 2.
  destruct (ingest_named sha256_hex _ _ _ payload_hash _ _ _ sm Hin) as [cursor ->].
  rewrite (ingest_market_reuses key epoch generation g cursor _ payload_hash _ n sm s c); try done; try congruence.
  2: { apply (co_known c); [by apply (mk_connections [] sm H n)|congruence]. }
  cbn [invalidates_state snd]. set (sm' := sm ⟪ sm_contributors := _ ⟫ ⟪ sm_connections := _ ⟫). intros H'.
  assert (Hc' : BTreeMap.get (sm_connections sm') n = Some (connection_invalidate_terminal c))
    by (cbn; by rewrite BTreeMap.get_insert_eq).
  split_and! ; [done|unfold connection_invalidity; by rewrite Hc'| |].
  - intros k. assert (BTreeMap.get (sm_contributors sm') k = BTreeMap.get (sm_contributors sm) k) as Hk.
    { cbn. destruct (decide (k = key)) as [->|]; [by rewrite BTreeMap.get_insert_eq|by rewrite BTreeMap.get_insert_ne]. }
    unfold contributor_state, contributor_invalidity, contributor_cursor. by rewrite Hk.
  - intros ops' k later index cat hash e t Hbk Hlater. destruct (machine_run_grows sha256_hex ops' sm' H') as [Hcfg' _ _ _ _ Hgc].
    destruct (Hgc n _ Hc') as (c'' & Hc'' & [Hct _]). eapply terminal_refuses; [done| |exact Hc''|by apply Hct].
    rewrite Hcfg'. change (sm_config sm') with (sm_config sm). by rewrite Hcfg.
Qed.

(** The contributor of the example, live, is named again in its epoch. *)
Definition again : EventEnvelope := btc_trade 60000002000 13 13.

Lemma again_names : names_epoch again 0 (session_catalog "epoch_a" 1) btc "epoch_a" 1.
Proof.
  split; [reflexivity| |eexists; reflexivity]. exists (mkReplayEpoch 3 4 "epoch_a" 1). split; [computed|]. by split.
Qed.

Lemma reused_epoch_leaves_live_witness :
  let sm := machine_run no_hash example_ops (machine_new (sm_config example_machine)) in
  contributor_state sm btc = Some SlotLive /\
  let '(r, sm') := ingest no_hash (InMarket again 0 (session_catalog "epoch_a" 1) "h3") sm in
  r = Err (Refused EpochReused) /\ connection_invalidity sm' usdm = Some Terminal /\
  contributor_state sm' btc = contributor_state sm btc.
Proof.
  intros sm. split; [vm_compute; reflexivity|].
  assert (Hnew : config_new "mechanics" [usdm] [btc_spec] [(btc, usdm)] [btc_clock] btc_coverage [btc_faults; link_faults]
    = Ok (sm_config example_machine)) by (vm_compute; reflexivity).
  assert (Hwf : BTreeMap.wf [(btc, usdm)]) by (repeat constructor).
  assert (exists s, BTreeMap.get (sm_contributors sm) btc = Some s /\ sl_epoch s = Some "epoch_a"%string /\ sl_generation s = Some 0 /\
    sl_retained_available_at_ns s = Some 60000001000) as (s & Hs & He & Hg & Hr)
    by (eexists; split; [vm_compute; reflexivity|]; auto).
  assert (Hnt : connection_invalidity sm usdm <> Some Terminal) by (vm_compute; discriminate).
  assert (Htime : forall r, sl_retained_available_at_ns s = Some r -> r <= env_receive_ts again)
    by (intros r; rewrite Hr; intros [= <-]; vm_compute; discriminate).
  pose proof (reused_epoch_leaves_live no_hash "mechanics" [usdm] [btc_spec] [(btc, usdm)] [btc_clock] btc_coverage
    [btc_faults; link_faults] (sm_config example_machine) example_ops again 0 (session_catalog "epoch_a" 1) "h3" btc usdm
    "epoch_a" 1 s 0 Hwf Hnew eq_refl Hnt Hs He Hg eq_refl Htime again_names) as H.
  fold sm in H. clearbody sm. destruct (ingest no_hash _ sm) as [r sm']. destruct H as (Hr' & Hn & Hk & _).
  split; [exact Hr'|]. split; [exact Hn|]. exact (proj1 (Hk btc)).
Defined.
