(* ===== verification/PulseFamilies.v ===== *)
(** * Event pulse: the second source state machine ([crates/event-pulse/src/cursor.rs])

    Version 2 keeps one slot per contributor and family beside the machine of
    version 1, and follows the update ids of order books. *)

From stdpp Require Import base tactics numbers strings option list.
From Stdlib Require Import ZArith Lia.
From S2P Require Import Prelude Collections Fixed Text Model PulseKeys PulseInput PulseSlot PulseCursor.

Local Open Scope Z_scope.

(** ** One family of a contributor *)

Inductive BookContinuityV2 := NotBook | AwaitingSnapshot | BookSnapshotAt (last_update_id : Z) | BookDeltaAt (final_update_id : Z).

#[export] Instance BookContinuityV2_eq_dec : EqDecision BookContinuityV2.
Proof. solve_decision. Defined.

Record MarketFamilySlotV2 := mkFamilySlot {
  mf_state : SlotState;
  mf_invalidity : option Invalidity;
  mf_epoch : option string;
  mf_generation : option Z;
  mf_history : BTreeSet string;
  mf_first_available_ns : option Z;
  mf_cursor : option MarketCursorV2;
  mf_available_at_ns : option Z;
  mf_retained_available_at_ns : option Z;
  mf_payload_hash : option string;
  mf_book_continuity : BookContinuityV2
}.

#[export] Instance eta_MarketFamilySlotV2 : Eta MarketFamilySlotV2 := fun s =>
  mkFamilySlot (mf_state s) (mf_invalidity s) (mf_epoch s) (mf_generation s) (mf_history s) (mf_first_available_ns s)
    (mf_cursor s) (mf_available_at_ns s) (mf_retained_available_at_ns s) (mf_payload_hash s) (mf_book_continuity s).

Abbreviation FamilyM := (Eff MarketFamilySlotV2 CursorError).

Definition family_new (family : FamilyV1) : MarketFamilySlotV2 :=
  mkFamilySlot Cold None None None [] None None None None None
    (if bool_decide (family = FBook) then AwaitingSnapshot else NotBook).

Definition mf_terminal (s : MarketFamilySlotV2) : bool := bool_decide (mf_invalidity s = Some Terminal).

Definition reset_continuity (c : BookContinuityV2) : BookContinuityV2 := match c with NotBook => NotBook | _ => AwaitingSnapshot end.

Definition reset_book_continuity (s : MarketFamilySlotV2) : MarketFamilySlotV2 :=
  s ⟪ mf_book_continuity := reset_continuity (mf_book_continuity s) ⟫.

Definition mf_invalidate_recoverable (s : MarketFamilySlotV2) : MarketFamilySlotV2 :=
  if mf_terminal s then s else s ⟪ mf_state := Invalid ⟫ ⟪ mf_invalidity := Some Recoverable ⟫.

Definition mf_invalidate_terminal (s : MarketFamilySlotV2) : MarketFamilySlotV2 :=
  s ⟪ mf_state := Invalid ⟫ ⟪ mf_invalidity := Some Terminal ⟫.

Definition mf_clear_current (s : MarketFamilySlotV2) : MarketFamilySlotV2 :=
  if mf_terminal s then s ⟪ mf_state := Invalid ⟫ else
  mkFamilySlot Cold None None None (mf_history s) None None None (mf_retained_available_at_ns s) None
    (reset_continuity (mf_book_continuity s)).

Definition mf_retire_cursor (s : MarketFamilySlotV2) : MarketFamilySlotV2 :=
  if mf_terminal s then s ⟪ mf_state := Invalid ⟫ else
  mkFamilySlot Cold None (mf_epoch s) (mf_generation s) (mf_history s) None None None (mf_retained_available_at_ns s) None
    (reset_continuity (mf_book_continuity s)).

Definition invalidate_book_recoverable (s : MarketFamilySlotV2) : MarketFamilySlotV2 :=
  mf_invalidate_recoverable (mf_retire_cursor s).

Definition latch_queue_drop (epoch : string) (generation at_ns : Z) (s : MarketFamilySlotV2) : MarketFamilySlotV2 :=
  if mf_terminal s then s else
  let s :=
    if match mf_generation s with None => true | Some current => current <? generation end
    then s ⟪ mf_epoch := Some epoch ⟫ ⟪ mf_generation := Some generation ⟫ else s in
  s ⟪ mf_retained_available_at_ns :=
        Some (match mf_retained_available_at_ns s with None => at_ns | Some current => Z.max current at_ns end) ⟫
    ⟪ mf_state := Invalid ⟫ ⟪ mf_invalidity := Some Recoverable ⟫.

Definition mf_preflight_epoch (epoch : string) : FamilyM unit :=
  let! s := eget in
  if BTreeSet.contains (mf_history s) epoch then emod mf_invalidate_terminal !; ethrow EpochReused else
  if 256 <=? len (mf_history s) then emod mf_invalidate_terminal !; ethrow EpochHistoryExhausted else
  eret tt.

Definition mf_preflight_time (at_ns : Z) : FamilyM unit :=
  let! s := eget in
  if match mf_retained_available_at_ns s with Some retained => at_ns <? retained | None => false end
  then emod mf_invalidate_recoverable !; ethrow AvailabilityRegression else eret tt.

Definition mf_begin_epoch (epoch : string) (generation at_ns : Z) : FamilyM unit :=
  let! s := eget in
  if mf_terminal s then ethrow TerminalInvalid else
  mf_preflight_epoch epoch !;
  mf_preflight_time at_ns !;
  emod (fun s =>
    mkFamilySlot Warming None (Some epoch) (Some generation) (BTreeSet.insert (mf_history s) epoch) (Some at_ns) None None
      (Some at_ns) None (reset_continuity (mf_book_continuity s))).

Definition mf_prepare_epoch (epoch : string) (generation at_ns : Z) (allow_book_resnapshot : bool) : FamilyM unit :=
  let! s := eget in
  if mf_terminal s then ethrow TerminalInvalid else
  (if bool_decide (mf_epoch s = Some epoch) then eret tt else mf_preflight_epoch epoch) !;
  match mf_generation s, mf_epoch s with
  | None, None => mf_begin_epoch epoch generation at_ns
  | Some current, current_epoch =>
      if (generation =? current) && bool_decide (current_epoch = Some epoch) then
        if bool_decide (mf_state s = Invalid) then
          if allow_book_resnapshot && bool_decide (mf_invalidity s = Some Recoverable) then
            mf_preflight_time at_ns !;
            emod (fun s =>
              mkFamilySlot Warming None (mf_epoch s) (mf_generation s) (mf_history s) (Some at_ns) None None
                (mf_retained_available_at_ns s) None (reset_continuity (mf_book_continuity s)))
          else ethrow EpochMismatch
        else if bool_decide (mf_state s = Cold)
        then emod (fun s => s ⟪ mf_first_available_ns := Some at_ns ⟫ ⟪ mf_state := Warming ⟫)
        else eret tt
      else if current <? generation then mf_begin_epoch epoch generation at_ns
      else emod mf_invalidate_recoverable !; ethrow EpochMismatch
  | None, Some _ => emod mf_invalidate_recoverable !; ethrow EpochMismatch
  end.

Definition mf_commit_cursor (cursor : MarketCursorV2) (at_ns : Z) (payload_hash : string) : FamilyM IngestOutcome :=
  let! s := eget in
  match mf_first_available_ns s with
  | None => emod mf_invalidate_recoverable !; ethrow TimeOverflow
  | Some first =>
      match checked_sub I64 at_ns first with
      | None => emod mf_invalidate_recoverable !; ethrow TimeOverflow
      | Some elapsed =>
          let '(state, outcome) := warmed elapsed in
          emod (fun s =>
            s ⟪ mf_cursor := Some cursor ⟫ ⟪ mf_available_at_ns := Some at_ns ⟫ ⟪ mf_retained_available_at_ns := Some at_ns ⟫
              ⟪ mf_payload_hash := Some payload_hash ⟫ ⟪ mf_state := state ⟫) !;
          eret outcome
      end
  end.

(** The comparison with the cursor accepted before. *)
Definition mf_follows (previous cursor : MarketCursorV2) : FamilyM unit :=
  match previous, cursor with
  | Native2 previous_start previous_end, Native2 start _ =>
      if start <=? previous_end
      then emod mf_invalidate_recoverable !; ethrow (if start <? previous_start then NativeRegression else NativeOverlap)
      else if bool_decide (checked_add U64 previous_end 1 = Some start) then eret tt
      else emod mf_invalidate_recoverable !; ethrow NativeGap
  | Derived2 _ _ _, Derived2 _ _ _ =>
      if bool_decide (cmp cursor previous = Lt) then emod mf_invalidate_recoverable !; ethrow DerivedRegression else eret tt
  | _, _ => emod mf_invalidate_recoverable !; ethrow CursorMode
  end.

Definition mf_accept_cursor (cursor : MarketCursorV2) (at_ns : Z) (payload_hash : string) : FamilyM IngestOutcome :=
  mf_preflight_time at_ns !;
  let! s := eget in
  if match mf_available_at_ns s with Some last => at_ns <? last | None => false end
  then emod mf_invalidate_recoverable !; ethrow AvailabilityRegression else
  match mf_cursor s with
  | Some previous =>
      if bool_decide (previous = cursor) then
        if bool_decide (mf_payload_hash s = Some payload_hash) then eret IgnoredDuplicate
        else emod mf_invalidate_recoverable !; ethrow MutatedDuplicate
      else mf_follows previous cursor !; mf_commit_cursor cursor at_ns payload_hash
  | None => mf_commit_cursor cursor at_ns payload_hash
  end.

Definition preflight_duplicate (cursor : MarketCursorV2) (payload_hash : string) : FamilyM (option IngestOutcome) :=
  let! s := eget in
  if negb (bool_decide (mf_cursor s = Some cursor)) then eret None else
  if bool_decide (mf_payload_hash s = Some payload_hash) then eret (Some IgnoredDuplicate)
  else emod invalidate_book_recoverable !; ethrow MutatedDuplicate.

Definition commit_book (continuity : BookContinuityV2) (cursor : MarketCursorV2) (at_ns : Z) (payload_hash : string)
    : FamilyM IngestOutcome :=
  emod (fun s => s ⟪ mf_book_continuity := continuity ⟫) !; mf_commit_cursor cursor at_ns payload_hash.

Definition accept_book_snapshot (cursor : MarketCursorV2) (last_update_id at_ns : Z) (payload_hash : string) : FamilyM IngestOutcome :=
  mf_preflight_time at_ns !;
  let! s := eget in
  let commit := commit_book (BookSnapshotAt last_update_id) cursor at_ns payload_hash in
  let regress := emod invalidate_book_recoverable !; ethrow NativeRegression in
  match mf_book_continuity s with
  | BookSnapshotAt prior =>
      let! duplicate := preflight_duplicate cursor payload_hash in
      match duplicate with
      | Some outcome => eret outcome
      | None => if last_update_id <? prior then regress else commit
      end
  | BookDeltaAt prior => if last_update_id <? prior then regress else commit
  | _ => commit
  end.

Definition accept_book_delta (cursor : MarketCursorV2) (first_update_id final_update_id previous_final_update_id at_ns : Z)
    (payload_hash : string) : FamilyM IngestOutcome :=
  mf_preflight_time at_ns !;
  let! s := eget in
  let commit := commit_book (BookDeltaAt final_update_id) cursor at_ns payload_hash in
  let reject e := emod invalidate_book_recoverable !; ethrow e in
  match mf_book_continuity s with
  | BookSnapshotAt last => if (first_update_id <=? last) && (last <=? final_update_id) then commit else reject NativeGap
  | BookDeltaAt prior =>
      let! duplicate := preflight_duplicate cursor payload_hash in
      match duplicate with
      | Some outcome => eret outcome
      | None =>
          if negb (previous_final_update_id =? prior) then reject NativeGap
          else if final_update_id <=? prior then reject NativeRegression else commit
      end
  | NotBook | AwaitingSnapshot => reject NativeGap
  end.

Record MarketCursorViewV2 := mkCursorView2 {
  v2_epoch : string;
  v2_epoch_generation : Z;
  v2_cursor : MarketCursorV2;
  v2_available_at_ns : Z;
  v2_payload_hash : string
}.

Definition mf_view (s : MarketFamilySlotV2) : option MarketCursorViewV2 :=
  epoch ← mf_epoch s; generation ← mf_generation s; cursor ← mf_cursor s; at_ns ← mf_available_at_ns s;
  payload_hash ← mf_payload_hash s; Some (mkCursorView2 epoch generation cursor at_ns payload_hash).

(** ** The machine *)

Record SourceStateMachineV2 := mkMachine2 {
  m2_v1 : SourceStateMachine;
  m2_market_families : BTreeMap (ContributorKeyV1 * FamilyV1) MarketFamilySlotV2
}.

#[export] Instance eta_SourceStateMachineV2 : Eta SourceStateMachineV2 := fun m => mkMachine2 (m2_v1 m) (m2_market_families m).

Abbreviation Machine2 := (Eff SourceStateMachineV2 Fault).

Definition configured_families (config : MechanicsConfigV1) : list (ContributorKeyV1 * FamilyV1) :=
  mjoin (map (fun spec => map (fun f => (spec_key spec, f)) (BTreeSet.elements (spec_allowed_families spec)))
           (cfg_contributors config)).

Definition machine2_new (config : MechanicsConfigV1) : SourceStateMachineV2 :=
  mkMachine2 (machine_new config)
    (foldl (fun m k => BTreeMap.insert m k (family_new k.2)) [] (configured_families config)).

Definition on_v1 {A} (m : Machine A) : Machine2 A := ezoom m2_v1 (fun v m => m ⟪ m2_v1 := v ⟫) m.

Definition on_family {A} (key : ContributorKeyV1 * FamilyV1) (m : FamilyM A) : Machine2 A := fun sm =>
  match BTreeMap.get (m2_market_families sm) key with
  | None => (Err unconfigured, sm)
  | Some slot =>
      let '(r, slot') := m slot in
      (map_err Refused r, sm ⟪ m2_market_families := BTreeMap.insert (m2_market_families sm) key slot' ⟫)
  end.

Definition family_for_v2_market (payload : MarketEvent) : option FamilyV1 :=
  match payload with
  | EvTrade _ => Some FTrade
  | EvQuote _ => Some FQuote
  | EvBookSnapshot _ | EvBookDelta _ => Some FBook
  | EvOpenInterest _ => Some FOpenInterest
  | EvLiquidation _ => Some FLiquidation
  | EvMarkPrice _ | EvIndexPrice _ => Some FConfirmationPrice
  | _ => None
  end.

(** [synchronize_family_invalidity] for one family. *)
Definition imposed_invalidity (v1 : SourceStateMachine) (contributor : ContributorKeyV1) : option Invalidity :=
  let connection := BTreeMap.get (cfg_contributor_connections (sm_config v1)) contributor ≫= BTreeMap.get (sm_connections v1) in
  match BTreeMap.get (sm_contributors v1) contributor, connection with
  | Some aggregate, Some connection =>
      if is_terminal aggregate || bool_decide (cn_invalidity connection = Some Terminal) then Some Terminal
      else if bool_decide (sl_state aggregate = Invalid) || bool_decide (cn_state connection = Invalid) then Some Recoverable
      else None
  | _, _ => None
  end.

Definition synchronize_family_invalidity (sm : SourceStateMachineV2) : SourceStateMachineV2 :=
  sm ⟪ m2_market_families :=
    BTreeMap.map_values (fun key slot =>
      match imposed_invalidity (m2_v1 sm) key.1 with
      | None => slot
      | Some Terminal => mf_invalidate_terminal (mf_retire_cursor slot)
      | Some Recoverable => mf_invalidate_recoverable (mf_retire_cursor slot)
      end) (m2_market_families sm) ⟫.

Definition prepare_lifecycle (link : ConnectionKeyV1) (key : ContributorKeyV1) (epoch : string) (generation at_ns : Z)
    : Machine unit :=
  let! sm := eget in
  let! connection := elift (ok_or (BTreeMap.get (sm_connections sm) link) unconfigured) in
  let mismatch := on_contributor unconfigured key (emod invalidate_recoverable) !; refuse EpochMismatch in
  match cn_generation connection with
  | None => advance_connection link key epoch generation at_ns
  | Some current =>
      if current <? generation then advance_connection link key epoch generation at_ns
      else if (generation =? current) && bool_decide (cn_epoch connection = Some epoch) then
        let! contributor := elift (ok_or (BTreeMap.get (sm_contributors sm) key) unconfigured) in
        if bool_decide (sl_generation contributor = None) then
          on_contributor unconfigured key (begin_epoch epoch generation at_ns)
        else if bool_decide (sl_generation contributor = Some generation) && bool_decide (sl_epoch contributor = Some epoch)
                && negb (bool_decide (sl_state contributor = Invalid)) then
          on_contributor unconfigured key (preflight_time at_ns)
        else mismatch
      else mismatch
  end.

Definition is_book_snapshot (payload : MarketEvent) (p : SourceProvenanceV2) : bool :=
  match payload, p with EvBookSnapshot _, BinanceBookSnapshot _ _ _ => true | _, _ => false end.

Definition accept_family (payload : MarketEvent) (p : SourceProvenanceV2) (cursor : MarketCursorV2) (at_ns : Z)
    (payload_hash : string) : FamilyM IngestOutcome :=
  match payload, p with
  | EvBookSnapshot _, BinanceBookSnapshot last _ _ => accept_book_snapshot cursor last at_ns payload_hash
  | EvBookDelta _, BinanceBookDelta first final previous _ _ => accept_book_delta cursor first final previous at_ns payload_hash
  | _, _ => mf_accept_cursor cursor at_ns payload_hash
  end.

Definition ingest_market_v2 (envelope : EventEnvelope) (catalog : ReplayCatalogV1) (cursor : MarketCursorV2)
    (provenance : SourceProvenanceV2) (payload_hash : string) : Machine2 IngestOutcome :=
  let at_ns := env_receive_ts envelope in
  let! contributor := elift (ok_or (market_contributor catalog envelope) unconfigured) in
  let! family := elift (ok_or (family_for_v2_market (env_payload envelope)) unconfigured) in
  let! sm := eget in
  if negb (BTreeMap.contains_key (m2_market_families sm) (contributor, family)) then ethrow unconfigured else
  let! entry := elift (ok_or (catalog_epoch catalog envelope) unconfigured) in
  let epoch := re_connection_epoch entry in
  let generation := re_epoch_generation entry in
  let! link := elift (ok_or (BTreeMap.get (cfg_contributor_connections (sm_config (m2_v1 sm))) contributor) unconfigured) in
  let! connection := elift (ok_or (BTreeMap.get (sm_connections (m2_v1 sm)) link) unconfigured) in
  let advances :=
    match cn_generation connection with
    | None => true
    | Some current => (current <? generation) || negb (bool_decide (cn_epoch connection = Some epoch))
    end in
  on_v1 (prepare_lifecycle link contributor epoch generation at_ns) !;
  (if advances then
     emod (fun sm => sm ⟪ m2_market_families :=
       BTreeMap.map_values (fun key slot =>
         if bool_decide (key.1 ∈ bound_to (sm_config (m2_v1 sm)) link) then mf_clear_current slot else slot)
         (m2_market_families sm) ⟫)
   else eret tt) !;
  let! outcome :=
    on_family (contributor, family)
      (mf_prepare_epoch epoch generation at_ns (is_book_snapshot (env_payload envelope) provenance) !;
       accept_family (env_payload envelope) provenance cursor at_ns payload_hash) in
  (if bool_decide (outcome = IgnoredDuplicate) then eret tt else
   on_v1 (on_contributor unconfigured contributor
     (preflight_time at_ns !; emod (fun slot => slot ⟪ sl_retained_available_at_ns := Some at_ns ⟫)))) !;
  eret outcome.

Section Machine2.
Context (sha256_hex : list Z -> string) (expected_payload_hash : MechanicsInputV1 -> result string WireError)
  (expected_payload_hash2 : MechanicsInputV2 -> result string WireError).

Definition ingest2 (input : MechanicsInputV2) : Machine2 IngestOutcome := fun sm =>
  match validate_static2 expected_payload_hash expected_payload_hash2 input with
  | Err _ => (Err (Refused CursorMode), sm)
  | Ok _ =>
      let '(r, candidate) :=
        match input with
        | NonMarket2 v1 => on_v1 (ingest sha256_hex v1) sm
        | Market2 envelope _ catalog cursor provenance payload_hash =>
            ingest_market_v2 envelope catalog cursor provenance payload_hash sm
        end in
      let candidate := synchronize_family_invalidity candidate in
      (r, match r with
          | Ok _ => candidate
          | Err (Refused e) => if invalidates_state e then candidate else sm
          | Err Panicked => sm
          end)
  end.

End Machine2.

Definition invalidate_market_family_for_queue_drop (key : ContributorKeyV1) (family : FamilyV1) (epoch : string)
    (generation at_ns : Z) : Machine2 unit := on_family (key, family) (emod (latch_queue_drop epoch generation at_ns)).

Definition invalidate_clock_for_queue_drop2 (key : ClockSourceKeyV1) : Machine2 unit := on_v1 (invalidate_for_queue_drop (DropClock key)).
Definition invalidate_coverage_for_queue_drop2 (key : CoverageSourceKeyV1) : Machine2 unit :=
  on_v1 (invalidate_for_queue_drop (DropCoverage key)).

Definition market_state (sm : SourceStateMachineV2) (key : ContributorKeyV1) (family : FamilyV1) : option SlotState :=
  mf_state <$> BTreeMap.get (m2_market_families sm) (key, family).

Definition family_slot_if_current (sm : SourceStateMachineV2) (key : ContributorKeyV1) (family : FamilyV1) : option MarketFamilySlotV2 :=
  aggregate ← BTreeMap.get (sm_contributors (m2_v1 sm)) key;
  link ← BTreeMap.get (cfg_contributor_connections (sm_config (m2_v1 sm))) key;
  connection ← BTreeMap.get (sm_connections (m2_v1 sm)) link;
  slot ← BTreeMap.get (m2_market_families sm) (key, family);
  if bool_decide (sl_state aggregate = Invalid) || bool_decide (cn_state connection = Invalid)
     || negb (bool_decide (sl_epoch aggregate = mf_epoch slot)) || negb (bool_decide (sl_generation aggregate = mf_generation slot))
     || negb (bool_decide (cn_epoch connection = mf_epoch slot)) || negb (bool_decide (cn_generation connection = mf_generation slot))
  then None else Some slot.

Definition market_cursor_v2 (sm : SourceStateMachineV2) (key : ContributorKeyV1) (family : FamilyV1) : option MarketCursorViewV2 :=
  family_slot_if_current sm key family ≫= mf_view.


Definition market_invalidity (sm : SourceStateMachineV2) (key : ContributorKeyV1) (family : FamilyV1) : option Invalidity :=
  BTreeMap.get (m2_market_families sm) (key, family) ≫= mf_invalidity.

(** ** Order books without gaps *)

(** What a book input tells of its update ids, and the cursor it carries. *)
Inductive book_event := BookSnap (last : Z) | BookUpd (first final previous : Z).

Definition book_event_of (payload : MarketEvent) (p : SourceProvenanceV2) : option book_event :=
  match payload, p with
  | EvBookSnapshot _, BinanceBookSnapshot last _ _ => Some (BookSnap last)
  | EvBookDelta _, BinanceBookDelta first final previous _ _ => Some (BookUpd first final previous)
  | _, _ => None
  end.

Definition event_cursor (e : book_event) : MarketCursorV2 :=
  match e with BookSnap last => Native2 last last | BookUpd first final _ => Native2 first final end.

(** The accepted events, the newest first: every update connects to the one
    before it, down to a snapshot. *)
Inductive chained : BookContinuityV2 -> list book_event -> Prop :=
  | chained_snapshot last l : chained (BookSnapshotAt last) (BookSnap last :: l)
  | chained_first first final previous last l :
      chained (BookSnapshotAt last) l -> first <= last <= final ->
      chained (BookDeltaAt final) (BookUpd first final previous :: l)
  | chained_next first final previous l :
      chained (BookDeltaAt previous) l -> previous < final ->
      chained (BookDeltaAt final) (BookUpd first final previous :: l).

Record book_ok (s : MarketFamilySlotV2) (log : list book_event) : Prop := {
  bk_book : mf_book_continuity s <> NotBook;
  bk_chain :
    mf_state s = Invalid \/ mf_cursor s = None /\ mf_book_continuity s = AwaitingSnapshot \/
    exists e rest, log = e :: rest /\ mf_cursor s = Some (event_cursor e) /\ chained (mf_book_continuity s) log
}.

(** A step of a book slot that accepts nothing: it forgets the chain, or keeps it. *)
Record book_step (s s' : MarketFamilySlotV2) : Prop := {
  bs_book : mf_book_continuity s <> NotBook -> mf_book_continuity s' <> NotBook;
  bs_chain : mf_book_continuity s <> NotBook ->
    mf_state s' = Invalid \/ mf_cursor s' = None /\ mf_book_continuity s' = AwaitingSnapshot \/
    mf_state s <> Invalid /\ mf_cursor s' = mf_cursor s /\ mf_book_continuity s' = mf_book_continuity s
}.

#[export] Instance book_step_refl : Reflexive book_step.
Proof. intros s. split; [done|]. intros _. destruct (decide (mf_state s = Invalid)); auto. Qed.

#[export] Instance book_step_trans : Transitive book_step.
Proof.
  intros s1 s2 s3 [Hb1 Hc1] [Hb2 Hc2]. split; [auto|]. intros H.
  destruct (Hc2 (Hb1 H)) as [?|[?|(Hs2 & -> & ->)]]; auto. destruct (Hc1 H) as [?|[?|(? & -> & ->)]]; [done|auto|auto].
Qed.

Lemma book_step_chain s s' log : book_step s s' -> book_ok s log -> book_ok s' log.
Proof.
  intros [Hb Hc] [Hs Hl]. split; [auto|]. destruct (Hc Hs) as [?|[?|(Hi & -> & ->)]]; [auto|auto|]. right. by destruct Hl.
Qed.

(** Steps that leave the slot invalid, or without a cursor. *)
Lemma book_step_invalid s s' : mf_state s' = Invalid -> mf_book_continuity s' = mf_book_continuity s -> book_step s s'.
Proof. intros Hi He. split; rewrite He; auto. Qed.

Lemma book_step_reset s s' : mf_cursor s' = None -> mf_book_continuity s' = reset_continuity (mf_book_continuity s) -> book_step s s'.
Proof. intros Hc He. split; rewrite He; destruct (mf_book_continuity s); auto; done. Qed.

Lemma book_step_same s s' : mf_state s <> Invalid -> mf_cursor s' = mf_cursor s -> mf_book_continuity s' = mf_book_continuity s ->
  book_step s s'.
Proof. intros Hi Hc He. split; rewrite He; auto. Qed.

Lemma step_recoverable s : book_step s (mf_invalidate_recoverable s).
Proof. unfold mf_invalidate_recoverable. destruct (mf_terminal s); [done|]. by apply book_step_invalid. Qed.

Lemma step_terminal s : book_step s (mf_invalidate_terminal s).
Proof. by apply book_step_invalid. Qed.

Lemma step_clear s : book_step s (mf_clear_current s).
Proof. unfold mf_clear_current. destruct (mf_terminal s); [by apply book_step_invalid|by apply book_step_reset]. Qed.

Lemma step_retire s : book_step s (mf_retire_cursor s).
Proof. unfold mf_retire_cursor. destruct (mf_terminal s); [by apply book_step_invalid|by apply book_step_reset]. Qed.

Lemma step_latch epoch generation at_ns s : book_step s (latch_queue_drop epoch generation at_ns s).
Proof. unfold latch_queue_drop. destruct (mf_terminal s); [done|]. apply book_step_invalid; [done|]. cbn. by destruct (mf_generation s) as [g|]; [destruct (g <? generation)|]. Qed.

Lemma step_invalidate_book s : book_step s (invalidate_book_recoverable s).
Proof. etransitivity; [apply step_retire|apply step_recoverable]. Qed.

Create HintDb book.
#[export] Hint Resolve step_recoverable step_terminal step_clear step_retire step_latch step_invalidate_book : book.
#[export] Hint Extern 1 (book_step ?s ?s) => reflexivity : book.

Definition book_keeps {A} (m : FamilyM A) (s : MarketFamilySlotV2) : Prop := book_step s (snd (m s)).

Lemma keeps_preflight_epoch epoch s : book_keeps (mf_preflight_epoch epoch) s.
Proof.
  unfold book_keeps, mf_preflight_epoch. eff_unfold. destruct (BTreeSet.contains _ _); cbn [snd]; [auto with book|].
  destruct (256 <=? _); cbn [snd]; auto with book.
Qed.

Lemma keeps_preflight_time at_ns s : book_keeps (mf_preflight_time at_ns) s.
Proof. unfold book_keeps, mf_preflight_time. eff_unfold. destruct (mf_retained_available_at_ns s) as [r|]; [destruct (at_ns <? r)|]; cbn [snd]; auto with book. Qed.

Lemma preflight_epoch_Ok epoch s s' : mf_preflight_epoch epoch s = (Ok tt, s') -> s' = s.
Proof. unfold mf_preflight_epoch. eff_unfold. destruct (BTreeSet.contains _ _); cbn; [done|]. destruct (256 <=? _); cbn; congruence. Qed.

Lemma preflight_time_Ok at_ns s s' : mf_preflight_time at_ns s = (Ok tt, s') -> s' = s.
Proof. unfold mf_preflight_time. eff_unfold. destruct (mf_retained_available_at_ns s) as [r|]; [destruct (at_ns <? r)|]; cbn; congruence. Qed.

(** A bind keeps the chain when its parts do. *)
Lemma family_bind {A B} (m : FamilyM A) (k : A -> FamilyM B) s : book_keeps m s ->
  (forall a s', m s = (Ok a, s') -> book_keeps (k a) s') -> book_keeps (ebind m k) s.
Proof.
  unfold book_keeps, ebind. destruct (m s) as [[a|e] s'] eqn:E; cbn; [|done]. intros H Hk. etransitivity; [exact H|]. by apply Hk.
Qed.

Lemma keeps_begin_epoch epoch generation at_ns s : book_keeps (mf_begin_epoch epoch generation at_ns) s.
Proof.
  unfold book_keeps, mf_begin_epoch. unfold ebind at 1, eget at 1. destruct (mf_terminal s); [by apply book_step_refl|].
  apply family_bind; [apply keeps_preflight_epoch|]. intros [] s1 ->%preflight_epoch_Ok.
  apply family_bind; [apply keeps_preflight_time|]. intros [] s2 ->%preflight_time_Ok. by apply book_step_reset.
Qed.

Lemma begin_epoch_state epoch generation at_ns s s' : mf_begin_epoch epoch generation at_ns s = (Ok tt, s') ->
  mf_state s' <> Invalid /\ mf_terminal s' = false.
Proof.
  unfold mf_begin_epoch. unfold ebind at 1, eget at 1. destruct (mf_terminal s); [done|].
  intros (? & ? & _ & (? & ? & _ & [= <-])%ebind_Ok)%ebind_Ok. done.
Qed.

(** And a success leaves the slot valid. *)
Definition resumes (m : FamilyM unit) (s : MarketFamilySlotV2) : Prop :=
  book_keeps m s /\ forall s', m s = (Ok tt, s') -> mf_state s' <> Invalid /\ mf_terminal s' = false.

Lemma resumes_fail e s : resumes (ethrow e) s.
Proof. split; [by apply book_step_refl|done]. Qed.

Lemma resumes_mismatch s : resumes (emod mf_invalidate_recoverable !; ethrow EpochMismatch) s.
Proof. split; [apply step_recoverable|done]. Qed.

Lemma resumes_begin epoch generation at_ns s : resumes (mf_begin_epoch epoch generation at_ns) s.
Proof. split; [apply keeps_begin_epoch|]. by intros s' ?%begin_epoch_state. Qed.

Lemma resumes_after (m k : FamilyM unit) s : book_keeps m s -> (forall s', m s = (Ok tt, s') -> s' = s) -> resumes k s ->
  resumes (m !; k) s.
Proof.
  intros Hm Hs [Hk Hok]. split.
  - apply family_bind; [done|]. by intros [] s1 ->%Hs.
  - intros s' ([] & s1 & ->%Hs & E)%ebind_Ok. by apply Hok.
Qed.

Lemma resumes_prepare epoch generation at_ns allow s : resumes (mf_prepare_epoch epoch generation at_ns allow) s.
Proof.
  unfold mf_prepare_epoch. match goal with |- resumes (ebind eget ?k) s => change (resumes (k s) s); cbn beta end.
  destruct (mf_terminal s) eqn:Et; [apply resumes_fail|]. apply resumes_after.
  { case_bool_decide; [by apply book_step_refl|apply keeps_preflight_epoch]. }
  { intros s'. case_bool_decide; [by intros [= <-]|apply preflight_epoch_Ok]. }
  destruct (mf_generation s) as [current|]; [|destruct (mf_epoch s); [apply resumes_mismatch|apply resumes_begin]].
  destruct ((generation =? current) && _);
    [|destruct (current <? generation); [apply resumes_begin|apply resumes_mismatch]].
  case_bool_decide as Ei.
  - destruct (allow && _); [|apply resumes_fail].
    apply resumes_after; [apply keeps_preflight_time|apply preflight_time_Ok|]. split; [by apply book_step_reset|by intros s' [= <-]].
  - case_bool_decide; (split; [by apply book_step_same|by intros s' [= <-]]).
Qed.

(** ** Accepting book events *)

Definition book_accept (e : book_event) (at_ns : Z) (payload_hash : string) : FamilyM IngestOutcome :=
  match e with
  | BookSnap last => accept_book_snapshot (event_cursor e) last at_ns payload_hash
  | BookUpd first final previous => accept_book_delta (event_cursor e) first final previous at_ns payload_hash
  end.

Definition extend (o : IngestOutcome) (e : book_event) (log : list book_event) : list book_event :=
  match o with IgnoredDuplicate => log | _ => e :: log end.

Lemma commit_book_ok c e at_ns payload_hash s log : book_ok s log -> mf_terminal s = false -> chained c (e :: log) ->
  match commit_book c (event_cursor e) at_ns payload_hash s with
  | (Ok o, s') => book_ok s' (extend o e log)
  | (Err _, s') => book_ok s' log
  end.
Proof.
  intros H Ht Hc. assert (c <> NotBook) as Hn by (by inversion Hc).
  unfold commit_book, mf_commit_cursor. eff_unfold. set (s1 := s ⟪ mf_book_continuity := c ⟫).
  assert (Hf : book_ok (mf_invalidate_recoverable s1) log).
  { unfold mf_invalidate_recoverable. change (mf_terminal s1) with (mf_terminal s). rewrite Ht. split; [done|by left]. }
  change (mf_first_available_ns s1) with (mf_first_available_ns s). destruct (mf_first_available_ns s) as [first|]; [|done].
  destruct (checked_sub I64 at_ns first) as [elapsed|]; [|done]. unfold warmed.
  destruct (WARMUP_NS <=? elapsed); cbn [extend]; (split; [done|]); right; right; by exists e, log.
Qed.

Lemma book_ok_valid s log : book_ok s log -> mf_state s <> Invalid ->
  mf_cursor s = None /\ mf_book_continuity s = AwaitingSnapshot \/ chained (mf_book_continuity s) log.
Proof. intros [_ [?|[?|(e & rest & ? & ? & ?)]]] Hi; [done|by left|by right]. Qed.

Lemma reject_ok e s log : book_ok s log ->
  match (emod invalidate_book_recoverable !; ethrow e : FamilyM IngestOutcome) s with
  | (Ok o, s') => False
  | (Err _, s') => book_ok s' log
  end.
Proof. intros H. eapply book_step_chain; [apply step_invalidate_book|done]. Qed.

Lemma duplicate_ok e payload_hash (k : FamilyM IngestOutcome) s log : book_ok s log ->
  match k s with (Ok o, s') => book_ok s' (extend o e log) | (Err _, s') => book_ok s' log end ->
  match (let! duplicate := preflight_duplicate (event_cursor e) payload_hash in
         match duplicate with Some outcome => eret outcome | None => k end) s with
  | (Ok o, s') => book_ok s' (extend o e log)
  | (Err _, s') => book_ok s' log
  end.
Proof.
  intros H Hk. unfold preflight_duplicate. eff_unfold.
  destruct (negb (bool_decide (mf_cursor s = Some (event_cursor e)))); [exact Hk|].
  case_bool_decide; [done|]. eapply book_step_chain; [apply step_invalidate_book|done].
Qed.

Lemma book_accept_ok e at_ns payload_hash s log : book_ok s log -> mf_state s <> Invalid -> mf_terminal s = false ->
  match book_accept e at_ns payload_hash s with
  | (Ok o, s') => book_ok s' (extend o e log)
  | (Err _, s') => book_ok s' log
  end.
Proof.
  intros H Hi Ht. pose proof (book_ok_valid s log H Hi) as Hv.
  assert (Hrej : forall x, match (emod invalidate_book_recoverable !; ethrow x : FamilyM IngestOutcome) s with
    | (Ok o, s') => book_ok s' (extend o e log) | (Err _, s') => book_ok s' log end) by (intros x; by apply (reject_ok x)).
  pose proof (keeps_preflight_time at_ns s) as Hp. pose proof (preflight_time_Ok at_ns s) as Hs. unfold book_keeps in Hp.
  destruct e as [last|first final previous]; cbn [book_accept].
  - unfold accept_book_snapshot. unfold ebind at 1. destruct (mf_preflight_time at_ns s) as [[[]|x] s1]; [|by eapply book_step_chain].
    rewrite (Hs s1 eq_refl). unfold ebind at 1, eget.
    assert (Hcommit := commit_book_ok (BookSnapshotAt last) (BookSnap last) at_ns payload_hash s log H Ht (chained_snapshot _ _)).
    destruct (mf_book_continuity s) as [| |prior|prior]; [exact Hcommit|exact Hcommit| |].
    + apply duplicate_ok; [done|]. destruct (last <? prior); [apply Hrej|exact Hcommit].
    + destruct (last <? prior); [apply Hrej|exact Hcommit].
  - unfold accept_book_delta. unfold ebind at 1. destruct (mf_preflight_time at_ns s) as [[[]|x] s1]; [|by eapply book_step_chain].
    rewrite (Hs s1 eq_refl). unfold ebind at 1, eget.
    pose proof (commit_book_ok (BookDeltaAt final) (BookUpd first final previous) at_ns payload_hash s log H Ht) as Hcommit.
    destruct (mf_book_continuity s) as [| |last|prior]; [apply Hrej|apply Hrej| |].
    + destruct Hv as [[_ ?]|Hv]; [done|]. destruct ((first <=? last) && _) eqn:E; [|apply Hrej].
      apply andb_true_iff in E as [?%Z.leb_le ?%Z.leb_le]. apply Hcommit. by apply (chained_first _ _ _ last).
    + destruct Hv as [[_ ?]|Hv]; [done|]. apply duplicate_ok; [done|].
      destruct (previous =? prior) eqn:E; cbn [negb]; [|apply Hrej]. apply Z.eqb_eq in E as ->.
      destruct (final <=? prior) eqn:E; [apply Hrej|]. apply Z.leb_gt in E. apply Hcommit. by constructor.
Qed.
