(* ===== verification/PulseChain.v ===== *)
(** * Event pulse: order books of the second source state machine

    Over every sequence of calls on a [SourceStateMachineV2], the book inputs a
    contributor's book family has accepted since its last snapshot are connected
    by their update ids. *)

From stdpp Require Import base tactics numbers strings option list.
From Stdlib Require Import ZArith Lia.
From S2P Require Import Prelude Collections Fixed Text Model PulseKeys PulseInput PulseSlot PulseCursor PulseSafety PulseFamilies.

Local Open Scope Z_scope.

(** ** Calls on the machine, and what they accepted *)

Inductive machine2_op :=
  | V2Ingest (input : MechanicsInputV2)
  | V2DropFamily (key : ContributorKeyV1) (family : FamilyV1) (epoch : string) (generation at_ns : Z)
  | V2DropClock (key : ClockSourceKeyV1)
  | V2DropCoverage (key : CoverageSourceKeyV1).

(** The log after an accepted input. *)
Definition logged (o : IngestOutcome) (k : ContributorKeyV1) (e : option book_event)
    (log : list (ContributorKeyV1 * book_event)) : list (ContributorKeyV1 * book_event) :=
  match o, e with IgnoredDuplicate, _ | _, None => log | _, Some e => (k, e) :: log end.

(** The book event an accepted input adds, with its contributor. *)
Definition log_entry (op : machine2_op) (r : result (option IngestOutcome) Fault) : list (ContributorKeyV1 * book_event) :=
  match op, r with
  | V2Ingest (Market2 envelope _ catalog _ provenance _), Ok (Some o) =>
      match market_contributor catalog envelope with
      | Some key => logged o key (book_event_of (env_payload envelope) provenance) []
      | None => []
      end
  | _, _ => []
  end.

Definition book_log (key : ContributorKeyV1) (log : list (ContributorKeyV1 * book_event)) : list book_event :=
  map snd (filter (fun p => p.1 = key) log).

Section Run.
Context (sha256_hex : list Z -> string) (expected_payload_hash : MechanicsInputV1 -> result string WireError)
  (expected_payload_hash2 : MechanicsInputV2 -> result string WireError).

Definition machine2_call (op : machine2_op) (sm : SourceStateMachineV2)
    : result (option IngestOutcome) Fault * SourceStateMachineV2 :=
  let quiet (m : Machine2 unit) := let '(r, sm') := m sm in (rmap (fun _ => None) r, sm') in
  match op with
  | V2Ingest input =>
      let '(r, sm') := ingest2 sha256_hex expected_payload_hash expected_payload_hash2 input sm in (rmap Some r, sm')
  | V2DropFamily key family epoch generation at_ns =>
      quiet (invalidate_market_family_for_queue_drop key family epoch generation at_ns)
  | V2DropClock key => quiet (invalidate_clock_for_queue_drop2 key)
  | V2DropCoverage key => quiet (invalidate_coverage_for_queue_drop2 key)
  end.

Definition machine2_run (ops : list machine2_op) (sm : SourceStateMachineV2)
    : SourceStateMachineV2 * list (ContributorKeyV1 * book_event) :=
  foldl (fun '(sm, log) op => let '(r, sm') := machine2_call op sm in (sm', log_entry op r ++ log)) (sm, []) ops.

End Run.

(** ** The chain of every book family *)

Definition books_ok (sm : SourceStateMachineV2) (log : list (ContributorKeyV1 * book_event)) : Prop :=
  forall key s, BTreeMap.get (m2_market_families sm) (key, FBook) = Some s -> book_ok s (book_log key log).

Lemma books_ok_map f sm log : (forall key s, book_step s (f key s)) -> books_ok sm log ->
  books_ok (sm ⟪ m2_market_families := BTreeMap.map_values f (m2_market_families sm) ⟫) log.
Proof.
  intros Hf H key s Hk. cbn in Hk. rewrite BTreeMap.get_map_values in Hk.
  destruct (BTreeMap.get (m2_market_families sm) (key, FBook)) as [s0|] eqn:E; [|done]. injection Hk as <-.
  eapply book_step_chain; [apply Hf|]. by apply H.
Qed.

Lemma synchronize_ok sm log : books_ok sm log -> books_ok (synchronize_family_invalidity sm) log.
Proof.
  apply books_ok_map. intros key s. destruct (imposed_invalidity _ _) as [[]|]; [| |done].
  - etransitivity; [apply step_retire|apply step_recoverable].
  - etransitivity; [apply step_retire|apply step_terminal].
Qed.

Lemma books_ok_v1 v sm log : books_ok sm log -> books_ok (sm ⟪ m2_v1 := v ⟫) log.
Proof. done. Qed.

Lemma on_v1_books {A} (m : Machine A) sm log : books_ok sm log -> books_ok (snd (on_v1 m sm)) log.
Proof. unfold on_v1, ezoom. by destruct (m (m2_v1 sm)). Qed.

(** One family's slot replaced. *)
Lemma books_ok_insert sm log log' k s : books_ok sm log -> (k.2 = FBook -> book_ok s (book_log k.1 log')) ->
  (forall key, (key, FBook) <> k -> book_log key log' = book_log key log) ->
  books_ok (sm ⟪ m2_market_families := BTreeMap.insert (m2_market_families sm) k s ⟫) log'.
Proof.
  intros H Hs Hl key s' Hk. cbn in Hk. destruct (decide ((key, FBook) = k)) as [<-|Hn].
  - rewrite BTreeMap.get_insert_eq in Hk. injection Hk as <-. by apply Hs.
  - rewrite BTreeMap.get_insert_ne in Hk by done. rewrite Hl by done. by apply H.
Qed.

(** ** Connections stay configured *)

Record wired (sm sm' : SourceStateMachine) : Prop := {
  wr_config : sm_config sm' = sm_config sm;
  wr_connections : forall n, is_Some (BTreeMap.get (sm_connections sm) n) -> is_Some (BTreeMap.get (sm_connections sm') n)
}.

#[export] Instance wired_refl : Reflexive wired.
Proof. by intros sm. Qed.

#[export] Instance wired_trans : Transitive wired.
Proof. intros a b c [H1 H2] [H3 H4]. split; [congruence|auto]. Qed.

Lemma on_contributor_wired {A} missing key (m : SlotM A) sm : wired sm (snd (on_contributor missing key m sm)).
Proof. unfold on_contributor. destruct (BTreeMap.get (sm_contributors sm) key); [|done]. by destruct (m s). Qed.

Lemma on_connection_wired {A} missing n (m : Eff ConnectionSlot CursorError A) sm : wired sm (snd (on_connection missing n m sm)).
Proof.
  unfold on_connection. destruct (BTreeMap.get (sm_connections sm) n) as [c|] eqn:E; [|done]. destruct (m c) as [r c']. split; [done|].
  intros n' Hn. cbn. destruct (decide (n' = n)) as [->|]; [rewrite BTreeMap.get_insert_eq; by eexists|by rewrite BTreeMap.get_insert_ne].
Qed.

Lemma advance_one_wired key epoch generation at_ns k sm : wired sm (snd (advance_one key epoch generation at_ns k sm)).
Proof.
  unfold advance_one. unfold ebind. pose proof (on_contributor_wired Panicked k
    (if bool_decide (k = key) then begin_epoch epoch generation at_ns else emod clear_current) sm) as H.
  destruct (on_contributor _ _ _ sm) as [[a|e] sm1]; [|done]. etransitivity; [exact H|done].
Qed.

Lemma advance_connection_wired n key epoch generation at_ns sm : wired sm (snd (advance_connection n key epoch generation at_ns sm)).
Proof.
  rewrite advance_connection_eq. pose proof (on_connection_wired unconfigured n (connection_begin_epoch epoch generation) sm) as H.
  destruct (on_connection _ _ _ sm) as [[a|e] sm1]; [|done]. cbn in H.
  assert (wired sm1 (snd (efor (bound_to (sm_config sm1) n) (advance_one key epoch generation at_ns) sm1))) as H2.
  { apply (efor_inv (wired sm1)); [done|]. intros k sm2 _ Hw. etransitivity; [exact Hw|apply advance_one_wired]. }
  destruct (efor _ _ sm1) as [[b|e] sm2]; (etransitivity; [exact H|]); [|done]. etransitivity; [exact H2|done].
Qed.

Lemma prepare_lifecycle_wired link key epoch generation at_ns sm :
  wired sm (snd (prepare_lifecycle link key epoch generation at_ns sm)).
Proof.
  assert (Hmis : wired sm (snd ((on_contributor unconfigured key (emod invalidate_recoverable) !; refuse EpochMismatch : Machine unit) sm))).
  { unfold ebind. pose proof (on_contributor_wired unconfigured key (emod invalidate_recoverable) sm) as H.
    by destruct (on_contributor _ _ _ sm) as [[a|e] sm1]. }
  unfold prepare_lifecycle. unfold ebind at 1, eget. rewrite ebind_elift.
  destruct (BTreeMap.get (sm_connections sm) link) as [c|]; cbn [ok_or]; [|done].
  destruct (cn_generation c) as [current|]; [|apply advance_connection_wired].
  destruct (current <? generation); [apply advance_connection_wired|]. destruct ((generation =? current) && _); [|exact Hmis].
  rewrite ebind_elift. destruct (BTreeMap.get (sm_contributors sm) key) as [s|]; cbn [ok_or]; [|done].
  case_bool_decide; [apply on_contributor_wired|]. destruct (_ && _); [apply on_contributor_wired|exact Hmis].
Qed.

(** ** Inputs *)

Lemma validated_book expected expected2 envelope action_index catalog cursor provenance payload_hash :
  validate_static2 expected expected2 (Market2 envelope action_index catalog cursor provenance payload_hash) = Ok tt ->
  family_for_v2_market (env_payload envelope) = Some FBook ->
  exists e, book_event_of (env_payload envelope) provenance = Some e /\ cursor = event_cursor e.
Proof.
  intros (x1 & H & _)%rbind_Ok Hf. unfold validate_market_without_hash in H.
  do 7 (apply rbind_Ok in H as (? & _ & H)). destruct (negb _); [done|]. apply rbind_Ok in H as (exchange & _ & H).
  unfold provenance_binding in H.
  destruct (env_payload envelope); try done; destruct provenance, cursor; try done.
  - destruct (_ && _) eqn:E; [|done]. apply andb_true_iff in E as [[_ ->%Z.eqb_eq]%andb_true_iff ->%Z.eqb_eq]. by eexists.
  - destruct (_ && _) eqn:E; [|done]. apply andb_true_iff in E as [[_ ->%Z.eqb_eq]%andb_true_iff <-%Z.eqb_eq]. by eexists.
Qed.

Lemma accept_family_event payload p e at_ns payload_hash : book_event_of payload p = Some e ->
  accept_family payload p (event_cursor e) at_ns payload_hash = book_accept e at_ns payload_hash.
Proof. intros H. destruct payload; try done; destruct p; try done; injection H as <-; done. Qed.

(** A book slot that prepares the epoch and takes an event. *)
Lemma book_slot_ok epoch generation at_ns allow e payload_hash s log : book_ok s log ->
  match (mf_prepare_epoch epoch generation at_ns allow !; book_accept e at_ns payload_hash) s with
  | (Ok o, s') => book_ok s' (extend o e log)
  | (Err _, s') => book_ok s' log
  end.
Proof.
  intros H. destruct (resumes_prepare epoch generation at_ns allow s) as [Hk Hs]. unfold book_keeps in Hk. unfold ebind.
  destruct (mf_prepare_epoch epoch generation at_ns allow s) as [[[]|x] s1]; [|by eapply book_step_chain].
  destruct (Hs s1 eq_refl) as [Hi Ht]. apply book_accept_ok; [by eapply book_step_chain|done|done].
Qed.

Lemma book_log_other key k e log : key <> k -> book_log key ((k, e) :: log) = book_log key log.
Proof. intros Hn. unfold book_log. by rewrite filter_cons_False by (cbn; congruence). Qed.

Lemma book_log_same k e log : book_log k ((k, e) :: log) = e :: book_log k log.
Proof. unfold book_log. by rewrite filter_cons_True. Qed.

Lemma book_log_logged o k e log : book_log k (logged o k (Some e) log) = extend o e (book_log k log).
Proof. destruct o; cbn [logged extend]; by rewrite ?book_log_same. Qed.

Lemma book_log_logged_other o k e log key : key <> k -> book_log key (logged o k e log) = book_log key log.
Proof. intros Hn. destruct o, e; cbn [logged]; by rewrite ?book_log_other. Qed.

Lemma book_event_family payload p e : book_event_of payload p = Some e -> family_for_v2_market payload = Some FBook.
Proof. by destruct payload, p. Qed.

Lemma on_family_books envelope provenance cursor payload_hash k family epoch generation at_ns allow sm log :
  family_for_v2_market (env_payload envelope) = Some family ->
  (family = FBook -> exists e, book_event_of (env_payload envelope) provenance = Some e /\ cursor = event_cursor e) ->
  books_ok sm log ->
  match on_family (k, family) (mf_prepare_epoch epoch generation at_ns allow !;
          accept_family (env_payload envelope) provenance cursor at_ns payload_hash) sm with
  | (Ok o, sm') => books_ok sm' (logged o k (book_event_of (env_payload envelope) provenance) log)
  | (Err _, sm') => books_ok sm' log
  end.
Proof.
  intros Hfam He H. unfold on_family. destruct (BTreeMap.get (m2_market_families sm) (k, family)) as [s|] eqn:Es; [|done].
  destruct (decide (family = FBook)) as [->|Hn].
  - destruct He as (e & He & ->); [done|]. rewrite accept_family_event with (e := e) by done. rewrite He.
    pose proof (book_slot_ok epoch generation at_ns allow e payload_hash s (book_log k log) (H k s Es)) as Hs.
    destruct ((mf_prepare_epoch epoch generation at_ns allow !; book_accept e at_ns payload_hash) s) as [[o|x] s']; cbn [map_err].
    + eapply books_ok_insert; [exact H| |].
      * intros _. cbn [fst]. by rewrite book_log_logged.
      * intros key Hne. apply book_log_logged_other. congruence.
    + eapply books_ok_insert; [exact H|by intros _|done].
  - assert (book_event_of (env_payload envelope) provenance = None) as ->.
    { destruct (book_event_of _ _) as [e|] eqn:E; [|done]. apply book_event_family in E. congruence. }
    destruct (ebind _ _ s) as [[o|x] s']; cbn [map_err]; (eapply books_ok_insert; [exact H|done|]); [by destruct o|done].
Qed.

Lemma synchronize_get sm k : BTreeMap.get (m2_market_families (synchronize_family_invalidity sm)) k =
  (fun slot => match imposed_invalidity (m2_v1 sm) k.1 with
     | None => slot
     | Some Terminal => mf_invalidate_terminal (mf_retire_cursor slot)
     | Some Recoverable => mf_invalidate_recoverable (mf_retire_cursor slot)
     end) <$> BTreeMap.get (m2_market_families sm) k.
Proof. apply BTreeMap.get_map_values. Qed.

(** A contributor that the input's time invalidates takes its families with it. *)
Lemma late_contributor_books link k at_ns sm log log' :
  BTreeMap.get (cfg_contributor_connections (sm_config (m2_v1 sm))) k = Some link ->
  is_Some (BTreeMap.get (sm_connections (m2_v1 sm)) link) ->
  books_ok sm log' -> (forall key, key <> k -> book_log key log' = book_log key log) ->
  match on_v1 (on_contributor unconfigured k
      (preflight_time at_ns !; emod (fun slot => slot ⟪ sl_retained_available_at_ns := Some at_ns ⟫))) sm with
  | (Ok _, sm') => books_ok sm' log'
  | (Err (Refused e), sm') => invalidates_state e = true -> books_ok (synchronize_family_invalidity sm') log
  | (Err Panicked, _) => False
  end.
Proof.
  intros Hl [c Hc] H Hlog. unfold on_v1, ezoom, on_contributor.
  destruct (BTreeMap.get (sm_contributors (m2_v1 sm)) k) as [s|] eqn:Es; [|done].
  unfold preflight_time. eff_unfold. destruct (match sl_retained_available_at_ns s with Some _ => _ | None => _ end); [|done].
  cbn [map_err]. intros _. set (sm' := sm ⟪ m2_v1 := _ ⟫).
  assert (Himp : is_Some (imposed_invalidity (m2_v1 sm') k)).
  { assert (Hk : BTreeMap.get (sm_contributors (m2_v1 sm')) k = Some (invalidate_recoverable s)) by (apply BTreeMap.get_insert_eq).
    assert (Hb : BTreeMap.get (cfg_contributor_connections (sm_config (m2_v1 sm'))) k = Some link) by done.
    assert (Hn : BTreeMap.get (sm_connections (m2_v1 sm')) link = Some c) by done.
    unfold imposed_invalidity. rewrite Hk, Hb. cbn [mbind option_bind]. rewrite Hn.
    destruct (_ || _) eqn:E; [by eexists|]. apply orb_false_iff in E as [E _]. rewrite bool_decide_eq_true_2; [by eexists|].
    unfold invalidate_recoverable in *. destruct (is_terminal s) eqn:Et; [congruence|done]. }
  intros key x Hx. pose proof Hx as Hx'. rewrite synchronize_get in Hx. change (m2_market_families sm') with (m2_market_families sm) in Hx.
  destruct (BTreeMap.get (m2_market_families sm) (key, FBook)) as [x0|] eqn:Ex; [|done]. apply (inj Some) in Hx. cbn beta in Hx. cbn [fst] in Hx.
  pose proof (H key x0 Ex) as Hx0. destruct (decide (key = k)) as [->|Hn].
  - destruct Hx0 as [Hb _]. destruct Himp as [i Hi]. rewrite Hi in Hx. subst x.
    assert (mf_book_continuity (mf_retire_cursor x0) <> NotBook) as Hr by (by apply (bs_book _ _ (step_retire x0))).
    destruct i; [|split; [done|by left]]. unfold mf_invalidate_recoverable. destruct (mf_terminal (mf_retire_cursor x0)) eqn:Et.
    + split; [done|left]. unfold mf_retire_cursor in *. by destruct (mf_terminal x0).
    + split; [done|by left].
  - rewrite <- Hlog by done. by apply (synchronize_ok sm' log' H key).
Qed.

Definition follows_log (r : result IngestOutcome Fault) (sm' : SourceStateMachineV2) (key : ContributorKeyV1)
    (e : option book_event) (log : list (ContributorKeyV1 * book_event)) : Prop :=
  match r with
  | Ok o => books_ok sm' (logged o key e log)
  | Err (Refused x) => invalidates_state x = true -> books_ok (synchronize_family_invalidity sm') log
  | Err Panicked => True
  end.

Lemma follows_failed x sm' key e log : books_ok sm' log -> follows_log (Err x) sm' key e log.
Proof. destruct x; cbn; [|done]. intros H _. by apply synchronize_ok. Qed.

Lemma on_family_v1 {A} key (m : FamilyM A) sm : m2_v1 (snd (on_family key m sm)) = m2_v1 sm.
Proof. unfold on_family. destruct (BTreeMap.get (m2_market_families sm) key) as [s|]; [|done]. by destruct (m s). Qed.

Lemma family_step_books envelope provenance cursor payload_hash k link family epoch generation at_ns sm log :
  family_for_v2_market (env_payload envelope) = Some family ->
  (family = FBook -> exists e, book_event_of (env_payload envelope) provenance = Some e /\ cursor = event_cursor e) ->
  BTreeMap.get (cfg_contributor_connections (sm_config (m2_v1 sm))) k = Some link ->
  is_Some (BTreeMap.get (sm_connections (m2_v1 sm)) link) -> books_ok sm log ->
  let '(r, sm') :=
    (let! outcome := on_family (k, family) (mf_prepare_epoch epoch generation at_ns
         (is_book_snapshot (env_payload envelope) provenance) !;
         accept_family (env_payload envelope) provenance cursor at_ns payload_hash) in
     (if bool_decide (outcome = IgnoredDuplicate) then eret tt else
      on_v1 (on_contributor unconfigured k
        (preflight_time at_ns !; emod (fun slot => slot ⟪ sl_retained_available_at_ns := Some at_ns ⟫)))) !;
     eret outcome) sm in
  follows_log r sm' k (book_event_of (env_payload envelope) provenance) log.
Proof.
  intros Hfam He Hl Hc H. set (m := on_family _ _).
  pose proof (on_family_books envelope provenance cursor payload_hash k family epoch generation at_ns
    (is_book_snapshot (env_payload envelope) provenance) sm log Hfam He H) as Hs. fold m in Hs.
  assert (Hv : m2_v1 (snd (m sm)) = m2_v1 sm) by (apply on_family_v1).
  unfold ebind at 1. destruct (m sm) as [[o|x] sm1]; [|by apply follows_failed]. cbn in Hv.
  case_bool_decide as Ed; [by subst o|].
  rewrite <- Hv in Hl, Hc.
  pose proof (late_contributor_books link k at_ns sm1 log _ Hl Hc Hs) as Hlate.
  specialize (Hlate (fun key Hn => book_log_logged_other _ _ _ _ _ Hn)). unfold ebind at 1.
  destruct (on_v1 _ sm1) as [[[]|[x|]] sm2]; exact Hlate || done.
Qed.

Lemma clear_step_books (b : bool) link sm log : books_ok sm log ->
  exists sm2, (if b then emod (fun sm => sm ⟪ m2_market_families :=
       BTreeMap.map_values (fun key slot =>
         if bool_decide (key.1 ∈ bound_to (sm_config (m2_v1 sm)) link) then mf_clear_current slot else slot)
         (m2_market_families sm) ⟫) else eret tt : Machine2 unit) sm = (Ok tt, sm2) /\ books_ok sm2 log /\ m2_v1 sm2 = m2_v1 sm.
Proof.
  intros H. destruct b; [|by exists sm]. eexists. split; [done|]. split; [|done]. apply books_ok_map; [|done].
  intros key s. case_bool_decide; [apply step_clear|done].
Qed.

Lemma ingest_market_v2_books envelope catalog cursor provenance payload_hash sm log :
  (family_for_v2_market (env_payload envelope) = Some FBook ->
     exists e, book_event_of (env_payload envelope) provenance = Some e /\ cursor = event_cursor e) ->
  books_ok sm log ->
  let '(r, sm') := ingest_market_v2 envelope catalog cursor provenance payload_hash sm in
  (forall k, market_contributor catalog envelope = Some k ->
     follows_log r sm' k (book_event_of (env_payload envelope) provenance) log) /\
  (market_contributor catalog envelope = None -> r = Err unconfigured).
Proof.
  intros He H. unfold ingest_market_v2. rewrite ebind_elift.
  destruct (market_contributor catalog envelope) as [k|]; cbn [ok_or]; [|by split]. match goal with |- let '(r, sm') := ?m in _ => enough
    (let '(r, sm') := m in follows_log r sm' k (book_event_of (env_payload envelope) provenance) log) as Hf end.
  { destruct (ebind _ _ sm) as [r sm']. split; [|done]. by intros ? [= <-]. }
  rewrite ebind_elift. destruct (family_for_v2_market (env_payload envelope)) as [family|] eqn:Ef; cbn [ok_or]; [|done].
  unfold ebind at 1, eget. destruct (negb _); [done|]. rewrite ebind_elift.
  destruct (catalog_epoch catalog envelope) as [entry|]; cbn [ok_or]; [|done]. rewrite ebind_elift.
  destruct (BTreeMap.get (cfg_contributor_connections (sm_config (m2_v1 sm))) k) as [link|] eqn:El; cbn [ok_or]; [|done].
  rewrite ebind_elift. destruct (BTreeMap.get (sm_connections (m2_v1 sm)) link) as [c|] eqn:Ec; cbn [ok_or]; [|done].
  set (epoch := re_connection_epoch entry). set (generation := re_epoch_generation entry).
  set (at_ns := env_receive_ts envelope). unfold ebind at 1.
  pose proof (prepare_lifecycle_wired link k epoch generation at_ns (m2_v1 sm)) as [Hcfg Hcon]. unfold on_v1 at 1, ezoom.
  destruct (prepare_lifecycle link k epoch generation at_ns (m2_v1 sm)) as [[[]|x] v]; [|by apply follows_failed].
  cbn [snd] in Hcfg, Hcon. set (sm1 := sm ⟪ m2_v1 := v ⟫). assert (books_ok sm1 log) as H1 by done.
  match goal with |- context [ebind (if ?b then emod ?f else eret tt) _ sm1] =>
    destruct (clear_step_books b link sm1 log H1) as (sm2 & Eclr & H2 & Hv) end.
  unfold ebind at 1. rewrite Eclr. change (m2_v1 sm1) with v in Hv.
  apply family_step_books with (link := link); [done|intros ->; by apply He|..|done]; rewrite Hv.
  - by rewrite Hcfg.
  - apply Hcon. by eexists.
Qed.

Section Gapless.
Context (sha256_hex : list Z -> string) (expected_payload_hash : MechanicsInputV1 -> result string WireError)
  (expected_payload_hash2 : MechanicsInputV2 -> result string WireError).

Lemma ingest2_books input sm log : books_ok sm log ->
  let '(r, sm') := ingest2 sha256_hex expected_payload_hash expected_payload_hash2 input sm in
  books_ok sm' (log_entry (V2Ingest input) (rmap Some r) ++ log).
Proof.
  intros H. unfold ingest2. destruct (validate_static2 _ _ input) as [[]|x] eqn:Ev; [|by destruct input].
  destruct input as [envelope action_index catalog cursor provenance payload_hash|v1].
  - pose proof (ingest_market_v2_books envelope catalog cursor provenance payload_hash sm log
      (validated_book _ _ _ _ _ _ _ _ Ev) H) as Hm.
    destruct (ingest_market_v2 envelope catalog cursor provenance payload_hash sm) as [r sm1]. cbn [log_entry].
    destruct (market_contributor catalog envelope) as [k|].
    + destruct Hm as [Hm _]. specialize (Hm k eq_refl). destruct r as [o|[x|]]; cbn [rmap app]; [|destruct (invalidates_state x) eqn:Ei; [by apply Hm|done]|done].
      apply synchronize_ok. cbn in Hm. destruct o, (book_event_of _ _); exact Hm.
    + destruct Hm as [_ Hm]. by rewrite Hm.
  - pose proof (on_v1_books (ingest sha256_hex v1) sm log H) as Hm.
    destruct (on_v1 _ sm) as [r sm1]. cbn [log_entry app]. cbn [snd] in Hm.
    destruct r as [o|[x|]]; [by apply synchronize_ok|destruct (invalidates_state x); [by apply synchronize_ok|done]|done].
Qed.

Lemma machine2_call_books op sm log : books_ok sm log ->
  let '(r, sm') := machine2_call sha256_hex expected_payload_hash expected_payload_hash2 op sm in books_ok sm' (log_entry op r ++ log).
Proof.
  intros H. destruct op as [input|key family epoch generation at_ns|key|key]; cbn [machine2_call].
  - pose proof (ingest2_books input sm log H) as Hi. by destruct (ingest2 _ _ _ input sm).
  - unfold invalidate_market_family_for_queue_drop, on_family.
    destruct (BTreeMap.get (m2_market_families sm) (key, family)) as [s|] eqn:E; [|done]. cbn -[latch_queue_drop].
    apply books_ok_insert with (log := log); [done| |done]. cbn [fst snd]. intros ->.
    eapply book_step_chain; [apply step_latch|]. by apply H.
  - pose proof (on_v1_books (invalidate_for_queue_drop (DropClock key)) sm log H) as Hm. unfold invalidate_clock_for_queue_drop2.
    by destruct (on_v1 _ sm) as [r sm1].
  - pose proof (on_v1_books (invalidate_for_queue_drop (DropCoverage key)) sm log H) as Hm. unfold invalidate_coverage_for_queue_drop2.
    by destruct (on_v1 _ sm) as [r sm1].
Qed.

Lemma machine2_run_books ops sm : books_ok sm [] ->
  let '(sm', log) := machine2_run sha256_hex expected_payload_hash expected_payload_hash2 ops sm in books_ok sm' log.
Proof.
  unfold machine2_run. generalize (@nil (ContributorKeyV1 * book_event)) as log. revert sm.
  induction ops as [|op ops IH]; intros sm log H; [done|]. cbn [foldl]. pose proof (machine2_call_books op sm log H) as Hc.
  destruct (machine2_call _ _ _ op sm) as [r sm1]. by apply IH.
Qed.

End Gapless.

Lemma families_new (l : list (ContributorKeyV1 * FamilyV1)) : forall m k s,
  (forall s, BTreeMap.get m k = Some s -> s = family_new k.2) ->
  BTreeMap.get (foldl (fun m k => BTreeMap.insert m k (family_new k.2)) m l) k = Some s -> s = family_new k.2.
Proof.
  induction l as [|k0 l IH]; intros m k s Hm Hs; [by apply Hm|]. eapply IH; [|exact Hs]. intros s0.
  destruct (decide (k = k0)) as [->|Hn]; [rewrite BTreeMap.get_insert_eq; congruence|].
  rewrite BTreeMap.get_insert_ne by done. apply Hm.
Qed.

Lemma machine2_new_books config : books_ok (machine2_new config) [].
Proof.
  intros key s Hs. apply families_new in Hs as ->; [|done]. split; [done|]. right. by left.
Qed.

(** C6. Over every sequence of inputs and queue drops, whatever they hold, a book
    family that is valid and shows a cursor shows that of the last book input
    the machine accepted from its contributor, and the accepted book inputs
    reach back without a gap to a snapshot: the first update after the snapshot
    spans its update id, every later one names the final id of the update
    before it as its predecessor, and the ids increase. *)
Theorem book_family_gapless sha256_hex expected_payload_hash expected_payload_hash2 config ops key s :
  let run := machine2_run sha256_hex expected_payload_hash expected_payload_hash2 ops (machine2_new config) in
  BTreeMap.get (m2_market_families (fst run)) (key, FBook) = Some s -> mf_state s <> Invalid -> is_Some (mf_cursor s) ->
  exists e older, book_log key (snd run) = e :: older /\ mf_cursor s = Some (event_cursor e) /\
    chained (mf_book_continuity s) (e :: older).
Proof.
  intros run. pose proof (machine2_run_books sha256_hex expected_payload_hash expected_payload_hash2 ops _ (machine2_new_books config)) as H.
  fold run in H. destruct run as [sm log]. cbn. intros Hs Hv [c Hc].
  destruct (H key s Hs) as [_ [?|[[? _]|(e & older & El & ? & ?)]]]; [done|congruence|]. exists e, older. by rewrite <- El.
Qed.

(** ** An example: the trades and the book of one market on one connection *)

Definition bnb : InstrumentIdentityV1 := mkInstrumentIdentity "BNB" "USDT" "PERPETUAL" "BINANCE" "BNBUSDT".
Definition bnb_market : ContributorKeyV1 := mkContributorKey "binance_primary_market" bnb.
Definition bnb_public : ContributorKeyV1 := mkContributorKey "binance_primary_public" bnb.
Definition bnb_specs : list ContributorSpecV1 :=
  [mkContributorSpec bnb_market Primary (set_of [FTrade]); mkContributorSpec bnb_public Primary (set_of [FQuote; FBook])].

Definition bnb_config : result MechanicsConfigV1 WireError :=
  config_new "mechanics" [usdm] bnb_specs [(bnb_market, usdm); (bnb_public, usdm)]
    [mkClockKey "clock_market" bnb_market; mkClockKey "clock_public" bnb_public]
    [mkCoverageKey "cov_trade" bnb_market FTrade; mkCoverageKey "cov_quote" bnb_public FQuote; mkCoverageKey "cov_book" bnb_public FBook]
    [].

Definition configured (r : result MechanicsConfigV1 WireError) : MechanicsConfigV1 :=
  match r with Ok config => config | Err _ => mkConfig EmptyString [] [] [] [] [] [] end.

Definition bnb_machine : SourceStateMachineV2 := machine2_new (configured bnb_config).

Definition bnb_catalog (epoch : string) (generation : Z) : ReplayCatalogV1 :=
  mkCatalog [(1, mkVenueEntry "BINANCE" "binance_primary_market"); (2, mkVenueEntry "BINANCE" "binance_primary_public")]
    [(7, bnb)] [mkReplayEpoch 3 generation epoch generation] [].

Definition some_hash : string := "0123456789abcdef0123456789abcdef0123456789abcdef0123456789abcdef".
Definition trusting1 (_ : MechanicsInputV1) : result string WireError := Ok some_hash.
Definition trusting2 (_ : MechanicsInputV2) : result string WireError := Ok some_hash.

(** An envelope received at the given second. *)
Definition bnb_envelope (venue generation second first last : Z) (payload : MarketEvent) : EventEnvelope :=
  mkEventEnvelope 1 venue (Some 7) 3 generation 1 0 (Some (second * 1000000000)) (second * 1000000000)
    (Some (mkSequenceRange first last)) 0 payload.

Definition bnb_trade (generation second id : Z) : EventEnvelope :=
  bnb_envelope 1 generation second id id (EvTrade (mkTrade (mkPrice (mkFixed 600 0)) (mkQuantity (mkFixed 1 0)) Buy None)).
Definition bnb_snapshot (generation second last : Z) : EventEnvelope :=
  bnb_envelope 2 generation second last last (EvBookSnapshot (mkBookSnapshot [] [] None None)).
Definition bnb_delta (generation second first final : Z) : EventEnvelope :=
  bnb_envelope 2 generation second first final (EvBookDelta (mkBookDelta [] None)).

Definition market_input (epoch : string) (generation second id : Z) : MechanicsInputV2 :=
  Market2 (bnb_trade generation second id) 0 (bnb_catalog epoch generation) (Native2 id id)
    (BinanceAggregateTrade id (second * 1000) (second * 1000)) some_hash.
Definition snapshot_input (epoch : string) (generation second last : Z) : MechanicsInputV2 :=
  Market2 (bnb_snapshot generation second last) 0 (bnb_catalog epoch generation) (Native2 last last)
    (BinanceBookSnapshot last (second * 1000) (second * 1000)) some_hash.
Definition delta_input (epoch : string) (generation second first final previous : Z) : MechanicsInputV2 :=
  Market2 (bnb_delta generation second first final) 0 (bnb_catalog epoch generation) (Native2 first final)
    (BinanceBookDelta first final previous (second * 1000) (second * 1000)) some_hash.

Definition bnb_run (inputs : list MechanicsInputV2) : SourceStateMachineV2 :=
  fst (machine2_run no_hash trusting1 trusting2 (map V2Ingest inputs) bnb_machine).

(** A snapshot and two updates. *)
Definition book_inputs : list MechanicsInputV2 :=
  [snapshot_input "epoch_a" 0 100 10; delta_input "epoch_a" 0 101 8 12 7; delta_input "epoch_a" 0 170 13 15 12].

Definition book_slot : MarketFamilySlotV2 :=
  mkFamilySlot SlotLive None (Some "epoch_a"%string) (Some 0) [("epoch_a"%string, tt)] (Some 100000000000) (Some (Native2 13 15))
    (Some 170000000000) (Some 170000000000) (Some some_hash) (BookDeltaAt 15).

Lemma book_family_gapless_witness :
  BTreeMap.get (m2_market_families (fst (machine2_run no_hash trusting1 trusting2 (map V2Ingest book_inputs)
    (machine2_new (configured bnb_config))))) (bnb_public, FBook) = Some book_slot /\
  exists e older, mf_cursor book_slot = Some (event_cursor e) /\ chained (mf_book_continuity book_slot) (e :: older).
Proof.
  assert (E : BTreeMap.get (m2_market_families (fst (machine2_run no_hash trusting1 trusting2 (map V2Ingest book_inputs)
    (machine2_new (configured bnb_config))))) (bnb_public, FBook) = Some book_slot) by computed.
  split; [exact E|].
  destruct (book_family_gapless no_hash trusting1 trusting2 (configured bnb_config) (map V2Ingest book_inputs) bnb_public
    book_slot E) as (e & older & _ & He & Hch).
  - intros Hs. discriminate Hs.
  - eexists. reflexivity.
  - exists e, older. split; [exact He|exact Hch].
Defined.

(** ** A late input of a new epoch *)

(** The input begins an epoch the connection and the contributor may begin, but
    is older than the contributor's last; the contributors of the connection
    are [before], [key] and [after], in the order of their keys. *)
Record late_transition (v : SourceStateMachine) (n : ConnectionKeyV1) (key : ContributorKeyV1) (epoch : string)
    (generation at_ns : Z) (c : ConnectionSlot) (before after : list ContributorKeyV1) : Prop := {
  lt_wf : BTreeMap.wf (cfg_contributor_connections (sm_config v));
  lt_bound : bound_to (sm_config v) n = before ++ key :: after;
  lt_known : Forall (fun k => is_Some (BTreeMap.get (sm_contributors v) k)) before;
  lt_connection : BTreeMap.get (sm_connections v) n = Some c;
  lt_opens : cn_invalidity c <> Some Terminal /\ BTreeSet.contains (cn_history c) epoch = false /\ len (cn_history c) < 256;
  lt_newer : match cn_generation c with Some g => g < generation | None => True end;
  lt_late : exists s r, BTreeMap.get (sm_contributors v) key = Some s /\ is_terminal s = false /\
    BTreeSet.contains (sl_history s) epoch = false /\ len (sl_history s) < 256 /\
    sl_retained_available_at_ns s = Some r /\ at_ns < r
}.

(** What the refused input leaves behind. *)
Record left_behind (v v' : SourceStateMachine) (n : ConnectionKeyV1) (key : ContributorKeyV1) (c' : ConnectionSlot)
    (after : list ContributorKeyV1) : Prop := {
  lb_config : sm_config v' = sm_config v;
  lb_connection : BTreeMap.get (sm_connections v') n = Some c';
  lb_trigger : BTreeMap.get (sm_contributors v') key = invalidate_recoverable <$> BTreeMap.get (sm_contributors v) key;
  lb_after : forall k, k ∈ after -> BTreeMap.get (sm_contributors v') k = BTreeMap.get (sm_contributors v) k
}.

Lemma preflight_time_regresses at_ns s r : sl_retained_available_at_ns s = Some r -> at_ns < r ->
  preflight_time at_ns s = (Err AvailabilityRegression, invalidate_recoverable s).
Proof. intros Hr Hlt. unfold preflight_time. eff_unfold. by rewrite Hr, (proj2 (Z.ltb_lt at_ns r)). Qed.

Lemma advance_one_late key epoch generation at_ns v s r : BTreeMap.get (sm_contributors v) key = Some s ->
  is_terminal s = false -> BTreeSet.contains (sl_history s) epoch = false -> len (sl_history s) < 256 ->
  sl_retained_available_at_ns s = Some r -> at_ns < r ->
  advance_one key epoch generation at_ns key v = (Err (Refused AvailabilityRegression),
    v ⟪ sm_contributors := BTreeMap.insert (sm_contributors v) key (invalidate_recoverable s) ⟫).
Proof.
  intros Hs Ht Hn Hroom Hr Hlt. unfold advance_one. unfold ebind at 1, on_contributor. rewrite Hs, bool_decide_eq_true_2 by done.
  unfold begin_epoch, preflight_epoch_transition. unfold ebind, eget, eret. rewrite Ht, Hn, (proj2 (Z.leb_gt 256 _)) by done.
  by rewrite (preflight_time_regresses at_ns s r).
Qed.

(** The loop over the contributors stops at the late one. *)
Lemma advance_loop_late key epoch generation at_ns after before : forall v s r, key ∉ before ->
  Forall (fun k => is_Some (BTreeMap.get (sm_contributors v) k)) before ->
  BTreeMap.get (sm_contributors v) key = Some s -> is_terminal s = false ->
  BTreeSet.contains (sl_history s) epoch = false -> len (sl_history s) < 256 ->
  sl_retained_available_at_ns s = Some r -> at_ns < r ->
  exists v', efor (before ++ key :: after) (advance_one key epoch generation at_ns) v = (Err (Refused AvailabilityRegression), v') /\
    sm_config v' = sm_config v /\ sm_connections v' = sm_connections v /\
    BTreeMap.get (sm_contributors v') key = Some (invalidate_recoverable s) /\
    forall k, k ∉ before -> k <> key -> BTreeMap.get (sm_contributors v') k = BTreeMap.get (sm_contributors v) k.
Proof.
  induction before as [|x before IH]; intros v s r Hn Hknown Hs Ht Hnew Hroom Hr Hlt; cbn [efor app]; unfold ebind at 1.
  - rewrite (advance_one_late key epoch generation at_ns v s r) by done. eexists. split; [done|]. cbn.
    split_and! ; [done|done|by rewrite BTreeMap.get_insert_eq|]. intros k _ Hk. by rewrite BTreeMap.get_insert_ne.
  - apply not_elem_of_cons in Hn as [Hx Hn]. apply Forall_cons in Hknown as [[y Hy] Hknown].
    unfold advance_one at 1, ebind at 1, on_contributor. rewrite Hy, bool_decide_eq_false_2 by done. cbn [emod map_err].
    set (v1 := clear_observations x _).
    destruct (IH v1 s r) as (v' & E & Hcfg & Hcon & Hkey & Hrest); try done.
    + eapply Forall_impl; [exact Hknown|]. intros k Hk. cbn. destruct (decide (k = x)) as [->|];
        [rewrite BTreeMap.get_insert_eq; by eexists|by rewrite BTreeMap.get_insert_ne].
    + cbn. by rewrite BTreeMap.get_insert_ne.
    + exists v'. split_and! ; [exact E|done|done|done|]. intros k [Hkx Hk]%not_elem_of_cons Hkk. rewrite Hrest by done. cbn.
      by rewrite BTreeMap.get_insert_ne.
Qed.

Lemma advance_late v n key epoch generation at_ns c before after : late_transition v n key epoch generation at_ns c before after ->
  exists v', advance_connection n key epoch generation at_ns v = (Err (Refused AvailabilityRegression), v') /\
    left_behind v v' n key (connection_opened c epoch generation) after.
Proof.
  intros [Hwf Hb Hknown Hc (Ho & Hn & Hroom) _ (s & r & Hs & Ht & Hnew & Hl & Hr & Hlt)].
  pose proof (bound_to_NoDup (sm_config v) n Hwf) as Hnd. rewrite Hb in Hnd.
  apply NoDup_app in Hnd as (_ & Hdis & [Hka _]%NoDup_cons).
  rewrite advance_connection_eq. unfold on_connection. rewrite Hc. unfold connection_begin_epoch, ebind, eget, eput.
  rewrite bool_decide_eq_false_2, Hn, (proj2 (Z.leb_gt 256 _)) by done. cbn [map_err].
  set (v1 := v ⟪ sm_connections := _ ⟫). change (sm_config v1) with (sm_config v). rewrite Hb.
  destruct (advance_loop_late key epoch generation at_ns after before v1 s r) as (v' & E & Hcfg & Hcon & Hkey & Hrest); try done.
  { intros Hk. apply (Hdis key Hk), list_elem_of_here. }
  rewrite E. exists v'. split; [done|]. split; [done|rewrite Hcon; cbn; by rewrite BTreeMap.get_insert_eq|by rewrite Hkey, Hs|].
  intros k Hk. apply Hrest; [|by intros ->]. intros Hkb. apply (Hdis k Hkb). by apply list_elem_of_further.
Qed.

(** A market input of the second machine that names this contributor and epoch,
    and one of the contributor's configured families. *)
Record names_family (sm : SourceStateMachineV2) (envelope : EventEnvelope) (catalog : ReplayCatalogV1) (key : ContributorKeyV1)
    (epoch : string) (generation : Z) : Prop := {
  nf_contributor : market_contributor catalog envelope = Some key;
  nf_family : exists family, family_for_v2_market (env_payload envelope) = Some family /\
    BTreeMap.contains_key (m2_market_families sm) (key, family) = true;
  nf_epoch : exists entry, catalog_epoch catalog envelope = Some entry /\ re_connection_epoch entry = epoch /\
    re_epoch_generation entry = generation
}.

(** An input the lifecycle refuses is refused, and its families follow the first machine. *)
Lemma ingest_market_v2_refused envelope catalog cursor provenance payload_hash key epoch generation n c e v' sm :
  names_family sm envelope catalog key epoch generation ->
  BTreeMap.get (cfg_contributor_connections (sm_config (m2_v1 sm))) key = Some n ->
  BTreeMap.get (sm_connections (m2_v1 sm)) n = Some c ->
  prepare_lifecycle n key epoch generation (env_receive_ts envelope) (m2_v1 sm) = (Err e, v') ->
  ingest_market_v2 envelope catalog cursor provenance payload_hash sm = (Err e, sm ⟪ m2_v1 := v' ⟫).
Proof.
  intros [Hk (family & Hf & Hin) (entry & He & <- & <-)] Hb Hc E. unfold ingest_market_v2.
  rewrite Hk, ebind_elift. cbn [ok_or]. rewrite Hf, ebind_elift. cbn [ok_or]. unfold ebind at 1, eget. rewrite Hin. cbn [negb].
  rewrite He, ebind_elift. cbn [ok_or]. rewrite Hb, ebind_elift. cbn [ok_or]. rewrite Hc, ebind_elift. cbn [ok_or].
  unfold ebind at 1, on_v1, ezoom. by rewrite E.
Qed.

(** A contributor in another epoch than the connection, of the same generation or not. *)
Lemma prepare_lifecycle_mismatch n key epoch generation at_ns v c t : BTreeMap.get (sm_connections v) n = Some c ->
  cn_generation c = Some generation -> cn_epoch c = Some epoch -> BTreeMap.get (sm_contributors v) key = Some t ->
  is_Some (sl_generation t) -> sl_epoch t <> Some epoch ->
  exists v', prepare_lifecycle n key epoch generation at_ns v = (Err (Refused EpochMismatch), v').
Proof.
  intros Hc Hg He Ht [g Hgt] Hne. unfold prepare_lifecycle, ebind at 1, eget. rewrite Hc, ebind_elift. cbn [ok_or].
  rewrite Hg, He, Z.ltb_irrefl, Z.eqb_refl, bool_decide_eq_true_2 by done. cbn [andb]. rewrite Ht, ebind_elift. cbn [ok_or].
  rewrite Hgt, bool_decide_eq_false_2 by done. rewrite (bool_decide_eq_false_2 (sl_epoch t = Some epoch)) by done.
  rewrite andb_false_r. cbn [andb]. unfold ebind, on_contributor. rewrite Ht. cbn. by eexists.
Qed.

Section Stranded.
Context (sha256_hex : list Z -> string) (expected_payload_hash : MechanicsInputV1 -> result string WireError)
  (expected_payload_hash2 : MechanicsInputV2 -> result string WireError).

Lemma ingest2_refused envelope index catalog cursor provenance payload_hash e candidate sm :
  validate_static2 expected_payload_hash expected_payload_hash2 (Market2 envelope index catalog cursor provenance payload_hash) = Ok tt ->
  ingest_market_v2 envelope catalog cursor provenance payload_hash sm = (Err (Refused e), candidate) -> invalidates_state e = true ->
  ingest2 sha256_hex expected_payload_hash expected_payload_hash2 (Market2 envelope index catalog cursor provenance payload_hash) sm =
    (Err (Refused e), synchronize_family_invalidity candidate).
Proof. intros Hv E Hi. unfold ingest2. by rewrite Hv, E, Hi. Qed.

Lemma get_synchronized sm k : BTreeMap.get (m2_market_families (synchronize_family_invalidity sm)) k =
  (fun slot => match imposed_invalidity (m2_v1 sm) k.1 with
     | None => slot
     | Some Terminal => mf_invalidate_terminal (mf_retire_cursor slot)
     | Some Recoverable => mf_invalidate_recoverable (mf_retire_cursor slot)
     end) <$> BTreeMap.get (m2_market_families sm) k.
Proof. unfold synchronize_family_invalidity. cbn. by rewrite BTreeMap.get_map_values. Qed.

Lemma contains_synchronized sm k : BTreeMap.contains_key (m2_market_families (synchronize_family_invalidity sm)) k =
  BTreeMap.contains_key (m2_market_families sm) k.
Proof.
  unfold BTreeMap.contains_key. rewrite get_synchronized.
  by destruct (BTreeMap.get (m2_market_families sm) k).
Qed.

(** A sibling that was valid in the old epoch keeps its families and shows no cursor. *)
Lemma sibling_kept sm v' n key k c epoch generation after t family :
  BTreeMap.get (cfg_contributor_connections (sm_config (m2_v1 sm))) k = Some n ->
  left_behind (m2_v1 sm) v' n key (connection_opened c epoch generation) after -> k ∈ after ->
  BTreeMap.get (sm_contributors (m2_v1 sm)) k = Some t -> sl_state t <> Invalid -> sl_invalidity t = None ->
  sl_epoch t <> Some epoch ->
  let sm' := synchronize_family_invalidity (sm ⟪ m2_v1 := v' ⟫) in
  market_state sm' k family = market_state sm k family /\ market_cursor_v2 sm' k family = None.
Proof.
  intros Hb [Hcfg Hc _ Hafter] Hk Ht Hv Hi He sm'. rewrite <- (Hafter k Hk) in Ht.
  assert (Hsame : BTreeMap.get (m2_market_families sm') (k, family) = BTreeMap.get (m2_market_families sm) (k, family)).
  { unfold sm'. rewrite get_synchronized. change (m2_market_families (sm ⟪ m2_v1 := v' ⟫)) with (m2_market_families sm).
    change (m2_v1 (sm ⟪ m2_v1 := v' ⟫)) with v'.
    destruct (BTreeMap.get (m2_market_families sm) (k, family)); [|done]. cbn.
    unfold imposed_invalidity. rewrite Hcfg, Hb. cbn. rewrite Hc, Ht. cbn. unfold is_terminal.
    by rewrite Hi, !bool_decide_eq_false_2. }
  split; [unfold market_state; by rewrite Hsame|].
  unfold market_cursor_v2, family_slot_if_current. rewrite Hsame. cbn. rewrite Ht. cbn. rewrite Hcfg, Hb. cbn. rewrite Hc. cbn.
  destruct (BTreeMap.get (m2_market_families sm) (k, family)) as [x|]; [|done]. cbn.
  destruct (decide (mf_epoch x = Some epoch)) as [Ex|Ex].
  - rewrite (bool_decide_eq_false_2 (sl_epoch t = mf_epoch x)) by congruence. cbn. by rewrite !orb_true_r.
  - rewrite (bool_decide_eq_false_2 (Some epoch = mf_epoch x)) by congruence. cbn. by rewrite !orb_true_r.
Qed.

(** The first machine looks at the time first. *)
Lemma v1_refuses_late v n key epoch generation cursor at_ns payload_hash snapshot c before after :
  late_transition v n key epoch generation at_ns c before after ->
  exists v', ingest_market key epoch generation cursor at_ns payload_hash snapshot v = (Err (Refused AvailabilityRegression), v') /\
    sm_connections v' = sm_connections v /\
    forall k, k <> key -> BTreeMap.get (sm_contributors v') k = BTreeMap.get (sm_contributors v) k.
Proof.
  intros [Hwf Hb _ Hc (Ho & Hn & Hroom) _ (s & r & Hs & Ht & Hnew & Hl & Hr & Hlt)].
  assert (BTreeMap.get (cfg_contributor_connections (sm_config v)) key = Some n) as Hk.
  { apply bound_to_spec; [done|]. rewrite Hb. apply elem_of_app. right. apply list_elem_of_here. }
  unfold ingest_market. unfold ebind at 1, eget. rewrite Hk, ebind_elift. cbn [ok_or]. rewrite Hs, Hc, Ht, bool_decide_eq_false_2 by done.
  cbn [orb]. rewrite !ebind_elift. cbn [ok_or]. rewrite !ebind_elift. unfold in_history, history_full.
  rewrite Hn, Hnew, !andb_false_r, !(proj2 (Z.leb_gt 256 _)), !andb_false_r by done. cbn [orb].
  unfold ebind at 1, on_contributor at 1. rewrite Hs. unfold time_allows. rewrite (preflight_time_regresses at_ns s r) by done.
  cbn [map_err negb]. unfold ebind, on_contributor. cbn. rewrite BTreeMap.get_insert_eq. eexists. split; [done|]. cbn.
  split; [done|]. intros k Hne. by rewrite !BTreeMap.get_insert_ne.
Qed.


End Stranded.

(** Both families live; then a trade of the next epoch that is a second
    older than the last trade, and a book snapshot of that epoch. *)
Definition live_inputs : list MechanicsInputV2 :=
  [market_input "epoch_a" 0 100 1; snapshot_input "epoch_a" 0 100 10; market_input "epoch_a" 0 170 2;
   snapshot_input "epoch_a" 0 170 11].
Definition late_input : MechanicsInputV2 := market_input "epoch_b" 1 169 1.
Definition recent_input : MechanicsInputV2 := snapshot_input "epoch_b" 1 171 30.

Definition old_connection : ConnectionSlot :=
  mkConnectionSlot Warming None (Some "epoch_a"%string) (Some 0) [("epoch_a"%string, tt)].

Lemma live_late : late_transition (m2_v1 (bnb_run live_inputs)) usdm bnb_market "epoch_b" 1 (env_receive_ts (bnb_trade 1 169 1))
  old_connection [] [bnb_public].
Proof.
  split.
  - let x := eval vm_compute in (cfg_contributor_connections (sm_config (m2_v1 (bnb_run live_inputs)))) in
      assert (cfg_contributor_connections (sm_config (m2_v1 (bnb_run live_inputs))) = x) as -> by computed.
    repeat constructor.
  - computed.
  - constructor.
  - computed.
  - split; [done|]. by split.
  - reflexivity.
  - eexists _, _. split; [vm_compute; reflexivity|]. by split_and!.
Qed.

Lemma live_names (second id : Z) : names_family (bnb_run live_inputs) (bnb_trade 1 second id) (bnb_catalog "epoch_b" 1) bnb_market "epoch_b" 1.
Proof.
  split; [reflexivity|exists FTrade; split; [reflexivity|computed]|].
  exists (mkReplayEpoch 3 1 "epoch_b" 1). split; [reflexivity|]. by split.
Qed.

Lemma live_names_book (second last : Z) :
  names_family (bnb_run live_inputs) (bnb_snapshot 1 second last) (bnb_catalog "epoch_b" 1) bnb_public "epoch_b" 1.
Proof.
  split; [reflexivity|exists FBook; split; [reflexivity|computed]|].
  exists (mkReplayEpoch 3 1 "epoch_b" 1). split; [reflexivity|]. by split.
Qed.

