(* ===== verification/PulseBreadth.v ===== *)
(** * Event pulse: breadth across venues ([crates/event-pulse/src/features.rs])

    Which share of the configured venues moves with the primary market: the
    returns supplied by configured contributors that the source state machine
    shows as live, against a threshold. *)

From stdpp Require Import base tactics numbers strings option list.
From Stdlib Require Import ZArith Lia.
From S2P Require Import Prelude Collections Fixed PulseMath PulseKeys PulseSlot PulseCursor.

Local Open Scope Z_scope.

Record VenueReturn := mkVenueReturn {
  vr_contributor : ContributorKeyV1;
  vr_log_return : Z;
  vr_complete : bool
}.

Definition validate_return (owner_keys : BTreeSet ContributorKeyV1) (supplied : BTreeMap ContributorKeyV1 VenueReturn)
    (observation : VenueReturn) : result (BTreeMap ContributorKeyV1 VenueReturn) ArithmeticError :=
  if negb (vr_complete observation) || negb (BTreeSet.contains owner_keys (vr_contributor observation))
     || BTreeMap.contains_key supplied (vr_contributor observation)
  then Err ArithDomain else Ok (BTreeMap.insert supplied (vr_contributor observation) observation).

Definition validate_breadth_returns (owner_keys : BTreeSet ContributorKeyV1) (returns : list VenueReturn)
    : result (BTreeMap ContributorKeyV1 VenueReturn) ArithmeticError :=
  try_fold (validate_return owner_keys) [] returns.

(** The owners: the primary contributor of trades, and every confirmation. *)
Definition breadth_owner (spec : ContributorSpecV1) : bool :=
  match spec_role spec with
  | Primary => BTreeSet.contains (spec_allowed_families spec) FTrade
  | Confirmation => true
  end.

Definition confirms_direction (direction : Direction) (log_return : Z) : bool :=
  match direction with
  | DirUp => 200000 <=? log_return
  | DirDown => log_return <=? -200000
  | DirUnknown => false
  end.

Record BreadthCounts := mkCounts { bc_venues : BTreeSet string; bc_usable : Z; bc_confirming : Z }.

(** One turn of the loop over the owners. *)
Definition count_owner (sm : SourceStateMachine) (supplied : BTreeMap ContributorKeyV1 VenueReturn) (direction : Direction)
    (counts : BreadthCounts) (owner : ContributorSpecV1) : BreadthCounts :=
  let venues := BTreeSet.insert (bc_venues counts) (ii_venue (ck_instrument (spec_key owner))) in
  match BTreeMap.get supplied (spec_key owner) with
  | None => mkCounts venues (bc_usable counts) (bc_confirming counts)
  | Some observation =>
      if negb (vr_complete observation) || negb (bool_decide (contributor_state sm (spec_key owner) = Some SlotLive))
      then mkCounts venues (bc_usable counts) (bc_confirming counts)
      else mkCounts venues (bc_usable counts + 1)
             (bc_confirming counts + (if confirms_direction direction (vr_log_return observation) then 1 else 0))
  end.

Definition configured_cross_venue_breadth (config : MechanicsConfigV1) (sm : SourceStateMachine) (direction : Direction)
    (returns : list VenueReturn) : result Z ArithmeticError :=
  if bool_decide (direction = DirUnknown) then Err ArithDomain else
  let owners := filter (fun spec => breadth_owner spec = true) (cfg_contributors config) in
  let owner_keys := set_of (map spec_key owners) in
  let? supplied := validate_breadth_returns owner_keys returns in
  let counts := foldl (count_owner sm supplied direction) (mkCounts [] 0 0) owners in
  if (bc_usable counts <? 2) || (len (bc_venues counts) <? 2) then Err ArithDomain
  else cross_venue_breadth (bc_confirming counts) (len (bc_venues counts)).

(** ** Valid returns *)

Lemma validate_return_Ok keys supplied o supplied' :
  validate_return keys supplied o = Ok supplied' <->
  vr_complete o = true /\ BTreeSet.contains keys (vr_contributor o) = true /\
  BTreeMap.get supplied (vr_contributor o) = None /\ supplied' = BTreeMap.insert supplied (vr_contributor o) o.
Proof.
  unfold validate_return. rewrite if_Err_Ok, !orb_false_iff, !negb_false_iff. unfold BTreeMap.contains_key.
  destruct (BTreeMap.get supplied (vr_contributor o)); naive_solver.
Qed.

(** The map holds each return under its contributor. *)
Lemma validate_returns_Ok keys returns : forall supplied supplied',
  try_fold (validate_return keys) supplied returns = Ok supplied' <->
  Forall (fun o => vr_complete o = true /\ BTreeSet.contains keys (vr_contributor o) = true /\
                   BTreeMap.get supplied (vr_contributor o) = None) returns /\
  NoDup (map vr_contributor returns) /\ supplied' = foldl (fun m o => BTreeMap.insert m (vr_contributor o) o) supplied returns.
Proof.
  induction returns as [|o returns IH]; intros supplied supplied'; cbn [try_fold map foldl].
  { split; [by intros [= <-]; repeat constructor|]. by intros (_ & _ & ->). }
  rewrite rbind_Ok, Forall_cons, NoDup_cons. split.
  - intros (m & (Hc & Hk & Hn & ->)%validate_return_Ok & (Hf & Hd & ->)%IH). split_and! ; try done.
    + eapply Forall_impl; [exact Hf|]. intros x (? & ? & Hx). split_and! ; try done. destruct (decide (vr_contributor x = vr_contributor o)) as [E|].
      * rewrite E, BTreeMap.get_insert_eq in Hx. done.
      * by rewrite BTreeMap.get_insert_ne in Hx.
    + intros (x & E & Hx)%list_elem_of_fmap. rewrite Forall_forall in Hf. destruct (Hf x Hx) as (_ & _ & Hx').
      rewrite <- E, BTreeMap.get_insert_eq in Hx'. done.
  - intros (((Hc & Hk & Hn) & Hf) & (Ho & Hd) & ->). exists (BTreeMap.insert supplied (vr_contributor o) o).
    split; [by apply validate_return_Ok|]. apply IH. split_and! ; try done.
    rewrite Forall_forall in *. intros x Hx. destruct (Hf x Hx) as (? & ? & ?). split_and! ; try done.
    rewrite BTreeMap.get_insert_ne; [done|]. intros E. apply Ho. rewrite <- E. by apply list_elem_of_fmap_2.
Qed.

Lemma supplied_get returns : forall m k, NoDup (map vr_contributor returns) ->
  BTreeMap.get (foldl (fun m o => BTreeMap.insert m (vr_contributor o) o) m returns) k =
  match list_find (fun o => vr_contributor o = k) returns with Some (_, o) => Some o | None => BTreeMap.get m k end.
Proof.
  induction returns as [|o returns IH]; intros m k Hd; [done|]. cbn [foldl map] in *. apply NoDup_cons in Hd as [Ho Hd].
  rewrite IH by done. cbn [list_find]. case_decide as E.
  - subst k. destruct (list_find _ returns) as [[i x]|] eqn:Ef; [|by rewrite BTreeMap.get_insert_eq].
    apply list_find_Some in Ef as (Hx%list_elem_of_lookup_2 & E & _). destruct Ho. rewrite <- E. by apply list_elem_of_fmap_2.
  - destruct (list_find _ returns) as [[i x]|]; [done|]. by rewrite BTreeMap.get_insert_ne by congruence.
Qed.

(** ** Counting *)

Abbreviation spec_venue := (fun spec => ii_venue (ck_instrument (spec_key spec))).

(** What the machine lets a return count for. *)
Definition live_return (sm : SourceStateMachine) (o : VenueReturn) : bool :=
  bool_decide (contributor_state sm (vr_contributor o) = Some SlotLive).
Definition confirming_return (sm : SourceStateMachine) (direction : Direction) (o : VenueReturn) : bool :=
  live_return sm o && confirms_direction direction (vr_log_return o).

Definition owner_has (supplied : BTreeMap ContributorKeyV1 VenueReturn) (Q : VenueReturn -> bool) (spec : ContributorSpecV1) : bool :=
  match BTreeMap.get supplied (spec_key spec) with Some o => Q o | None => false end.

Lemma NoDup_filter_map {A B} (f : A -> B) (P : A -> Prop) `{!forall x, Decision (P x)} l : NoDup (map f l) -> NoDup (map f (filter P l)).
Proof.
  induction l as [|x l IH]; [done|]. cbn [map]. rewrite NoDup_cons. intros [Hx Hl]. destruct (decide (P x)).
  - rewrite filter_cons_True by done. cbn [map]. apply NoDup_cons. split; [|by apply IH].
    intros (y & E & [_ Hy]%list_elem_of_filter)%list_elem_of_fmap. apply Hx. rewrite E. by apply list_elem_of_fmap_2.
  - rewrite filter_cons_False by done. by apply IH.
Qed.

Lemma NoDup_map_eq {A B} (f : A -> B) l x y : NoDup (map f l) -> x ∈ l -> y ∈ l -> f x = f y -> x = y.
Proof.
  induction l as [|z l IH]; [by intros _ ?%elem_of_nil|]. cbn [map]. rewrite NoDup_cons, !elem_of_cons. intros [Hz Hl] Hx Hy E.
  destruct Hx as [->|Hx], Hy as [->|Hy]; [done| | |by apply IH]; destruct Hz; [rewrite E|rewrite <- E]; by apply list_elem_of_fmap_2.
Qed.

Lemma len_filter_cons {A} (P : A -> bool) x l :
  len (filter (fun x => P x = true) (x :: l)) = (if P x then 1 else 0) + len (filter (fun x => P x = true) l).
Proof.
  unfold len. destruct (P x) eqn:E; [rewrite filter_cons_True by done|rewrite filter_cons_False by congruence]; cbn [length]; lia.
Qed.

Lemma count_owners sm supplied direction owners : forall v u c,
  (forall k o, BTreeMap.get supplied k = Some o -> vr_contributor o = k /\ vr_complete o = true) ->
  foldl (count_owner sm supplied direction) (mkCounts v u c) owners =
  mkCounts (BTreeSet.extend v (map spec_venue owners))
    (u + len (filter (fun spec => owner_has supplied (live_return sm) spec = true) owners))
    (c + len (filter (fun spec => owner_has supplied (confirming_return sm direction) spec = true) owners)).
Proof.
  induction owners as [|spec owners IH]; intros v u c Hs; [cbn; by rewrite !Z.add_0_r|].
  rewrite !len_filter_cons. cbn [foldl map]. unfold count_owner at 2. cbn [bc_venues bc_usable bc_confirming].
  assert (Hh : forall Q, owner_has supplied Q spec =
    match BTreeMap.get supplied (spec_key spec) with Some o => Q o | None => false end) by done. rewrite !Hh.
  destruct (BTreeMap.get supplied (spec_key spec)) as [o|] eqn:E; [|rewrite IH by done; f_equal; lia].
  destruct (Hs _ o E) as [Hk ->].
  assert (live_return sm o = bool_decide (contributor_state sm (spec_key spec) = Some SlotLive)) as Hl by (unfold live_return; by rewrite Hk).
  unfold confirming_return at 1. rewrite Hl. cbn [negb orb].
  destruct (bool_decide _); cbn [negb andb]; rewrite IH by done; f_equal; destruct (confirms_direction direction (vr_log_return o)); lia.
Qed.

Lemma owners_of_returns Q (owners : list ContributorSpecV1) returns : NoDup (map spec_key owners) ->
  NoDup (map vr_contributor returns) -> Forall (fun o => vr_contributor o ∈ map spec_key owners) returns ->
  let supplied := foldl (fun m o => BTreeMap.insert m (vr_contributor o) o) [] returns in
  len (filter (fun spec => owner_has supplied Q spec = true) owners) = len (filter (fun o => Q o = true) returns).
Proof.
  intros Ho Hr Hin supplied. unfold len. rewrite <- (length_map spec_key), <- (length_map vr_contributor (filter _ returns)).
  f_equal. apply Permutation_length, NoDup_Permutation.
  - by apply (NoDup_filter_map spec_key).
  - by apply (NoDup_filter_map vr_contributor).
  - intros k. rewrite !list_elem_of_fmap. split.
    + intros (spec & -> & (Hq & Hs)%list_elem_of_filter). unfold owner_has, supplied in Hq. rewrite supplied_get in Hq by done.
      destruct (list_find _ returns) as [[i o]|] eqn:Ef; [|done].
      apply list_find_Some in Ef as (Hx%list_elem_of_lookup_2 & E & _). exists o. by rewrite list_elem_of_filter.
    + intros (o & -> & (Hq & Hx)%list_elem_of_filter). rewrite Forall_forall in Hin. pose proof (Hin o Hx) as Hk.
      apply list_elem_of_fmap in Hk as (spec & E & Hspec). exists spec. split; [done|]. apply list_elem_of_filter. split; [|done].
      unfold owner_has, supplied. rewrite supplied_get, <- E by done.
      destruct (list_find_elem_of (fun o' => vr_contributor o' = vr_contributor o) returns o Hx eq_refl) as [[i o'] Ef].
      rewrite Ef. apply list_find_Some in Ef as (Hx'%list_elem_of_lookup_2 & E' & _). by rewrite (NoDup_map_eq vr_contributor returns o' o).
Qed.

(** ** The venues of the owners *)

Lemma filter_split {A} (P Q R : A -> Prop) `{!forall x, Decision (P x), !forall x, Decision (Q x), !forall x, Decision (R x)} l :
  (forall x, P x <-> Q x \/ R x) -> (forall x, Q x -> ~ R x) -> filter P l ≡ₚ filter Q l ++ filter R l.
Proof.
  intros HP HQ. induction l as [|x l IH]; [done|]. destruct (decide (Q x)) as [q|q].
  - rewrite (filter_cons_True P), (filter_cons_True Q), (filter_cons_False R) by naive_solver. cbn. by rewrite IH.
  - rewrite (filter_cons_False Q) by done. destruct (decide (R x)).
    + rewrite (filter_cons_True P), (filter_cons_True R) by naive_solver. by rewrite IH, Permutation_middle.
    + by rewrite (filter_cons_False P), (filter_cons_False R) by naive_solver.
Qed.

Definition breadth_owners (config : MechanicsConfigV1) : list ContributorSpecV1 :=
  filter (fun spec => breadth_owner spec = true) (cfg_contributors config).

Lemma owner_venues_distinct config : config_ok config -> NoDup (map spec_venue (breadth_owners config)).
Proof.
  intros H. destruct (ok_primary config H) as (primary & Hin & Hrole & Hall), (ok_confirmations config H) as [_ Hconf].
  pose proof (proj1 (Forall_cons _ _ _) (proj1 (ok_owners config H))) as [Hone _].
  assert (breadth_owners config ≡ₚ owners config FTrade ++ of_role (cfg_contributors config) Confirmation) as ->.
  { apply filter_split; intros spec; unfold breadth_owner; destruct (spec_role spec); naive_solver. }
  rewrite map_app. apply NoDup_app. split_and! ; [| |exact Hconf].
  - destruct (owners config FTrade) as [|x [|]]; [constructor|apply NoDup_singleton|done].
  - rewrite Forall_forall in Hall. intros v (p & -> & [[Hp _] Hpin]%list_elem_of_filter)%list_elem_of_fmap
      (q & E & [Hq Hqin]%list_elem_of_filter)%list_elem_of_fmap.
    pose proof (Hall p Hpin) as H1. pose proof (Hall q Hqin) as H2. rewrite Hp in H1. rewrite Hq in H2. unfold confirms in H2.
    apply andb_true_iff in H2 as [_ H2%negb_true_iff%bool_decide_eq_false]. apply H2. rewrite <- E. by rewrite H1.
Qed.

Lemma breadth_runs confirming eligible : 2 <= eligible <= 32 -> 0 <= confirming <= eligible ->
  cross_venue_breadth confirming eligible = Ok (rnd (confirming * SCALE) eligible).
Proof.
  intros He Hc. unfold cross_venue_breadth, checked. rewrite (proj2 (Z.ltb_ge eligible 2)), (proj2 (Z.ltb_ge eligible confirming)) by lia.
  assert (fits I128 (confirming * SCALE)) as Hf by (unfold SCALE; split; cbn; lia).
  unfold checked_mul. rewrite to_ty_fits by done. cbn [ok_or rbind]. apply rounded_div_spec; [done| |lia]. split; cbn; lia.
Qed.

(** What the specification asks of the returns. *)
Record usable_returns (config : MechanicsConfigV1) (sm : SourceStateMachine) (returns : list VenueReturn) : Prop := {
  ur_complete : Forall (fun o => vr_complete o = true) returns;
  ur_owned : Forall (fun o => vr_contributor o ∈ map spec_key (breadth_owners config)) returns;
  ur_distinct : NoDup (map vr_contributor returns);
  ur_live : 2 <= len (filter (fun o => live_return sm o = true) returns)
}.

Lemma len_filter_le {A} (P : A -> bool) (l : list A) : 0 <= len (filter (fun x => P x = true) l) <= len l.
Proof. induction l as [|x l IH]; [done|]. rewrite len_filter_cons. unfold len in *. cbn [length]. destruct (P x); lia. Qed.

Lemma len_filter_mono {A} (P Q : A -> bool) (l : list A) : (forall x, P x = true -> Q x = true) ->
  len (filter (fun x => P x = true) l) <= len (filter (fun x => Q x = true) l).
Proof.
  intros H. induction l as [|x l IH]; [done|]. rewrite !len_filter_cons. destruct (P x) eqn:E; [rewrite (H x E); lia|].
  destruct (Q x); lia.
Qed.

Lemma breadth_counts config sm direction returns supplied : config_ok config ->
  validate_breadth_returns (set_of (map spec_key (breadth_owners config))) returns = Ok supplied ->
  foldl (count_owner sm supplied direction) (mkCounts [] 0 0) (breadth_owners config) =
  mkCounts (set_of (map spec_venue (breadth_owners config))) (len (filter (fun o => live_return sm o = true) returns))
    (len (filter (fun o => confirming_return sm direction o = true) returns)).
Proof.
  intros Hok (Hall & Hd & ->)%validate_returns_Ok.
  assert (NoDup (map spec_key (breadth_owners config))) as Ho by (apply NoDup_filter_map, (ok_contributors config Hok)).
  assert (Forall (fun o => vr_contributor o ∈ map spec_key (breadth_owners config)) returns) as Hin.
  { eapply Forall_impl; [exact Hall|]. intros o (_ & Hk & _). by apply contains_set_of in Hk. }
  rewrite count_owners.
  - by rewrite !owners_of_returns, !Z.add_0_l by done.
  - intros k o Hk. rewrite supplied_get in Hk by done. destruct (list_find _ returns) as [[i x]|] eqn:Ef; [|done].
    injection Hk as <-. apply list_find_Some in Ef as (Hx%list_elem_of_lookup_2 & E & _). split; [done|].
    rewrite Forall_forall in Hall. by destruct (Hall x Hx).
Qed.

(** C22. The breadth is computed exactly when the direction is known and the
    returns are complete, from distinct contributors that own a venue, at least
    two of them live; it is then the share, rounded to eight places, of live
    returns that confirm the direction among all configured venues. *)
Theorem breadth_exact config sm direction returns v : config_ok config ->
  configured_cross_venue_breadth config sm direction returns = Ok v <->
  direction <> DirUnknown /\ usable_returns config sm returns /\
  v = rnd (len (filter (fun o => confirming_return sm direction o = true) returns) * SCALE) (len (breadth_owners config)).
Proof.
  intros Hok. unfold configured_cross_venue_breadth. fold (breadth_owners config).
  rewrite if_Err_Ok, bool_decide_eq_false, rbind_Ok.
  assert (Hvenues : len (set_of (map spec_venue (breadth_owners config))) = len (breadth_owners config))
    by (by apply len_set_of_map, owner_venues_distinct).
  assert (Hcap : len (breadth_owners config) <= 32).
  { pose proof (ok_sizes config Hok). pose proof (len_filter_le breadth_owner (cfg_contributors config)). unfold breadth_owners. lia. }
  assert (Hconf : len (filter (fun o => confirming_return sm direction o = true) returns) <=
                  len (filter (fun o => live_return sm o = true) returns)).
  { apply len_filter_mono. intros o. unfold confirming_return. by rewrite andb_true_iff; intros []. }
  pose proof (len_filter_le (confirming_return sm direction) returns) as Hpos.
  assert (Hlive : NoDup (map vr_contributor returns) -> Forall (fun o => vr_contributor o ∈ map spec_key (breadth_owners config)) returns ->
    len (filter (fun o => live_return sm o = true) returns) <= len (breadth_owners config)).
  { intros Hd Hin. rewrite <- (owners_of_returns _ (breadth_owners config) returns); [|by apply NoDup_filter_map, (ok_contributors config Hok)|done|done].
    apply len_filter_le. }
  split.
  - intros (Hdir & supplied & Hsup & H). split; [done|]. pose proof Hsup as (Hall & Hd & _)%validate_returns_Ok.
    rewrite (breadth_counts config sm direction returns supplied Hok Hsup) in H. cbn [bc_usable bc_venues bc_confirming] in H.
    rewrite Hvenues in H. apply if_Err_Ok in H as [[Hu%Z.ltb_ge Hv%Z.ltb_ge]%orb_false_iff H].
    assert (Forall (fun o => vr_contributor o ∈ map spec_key (breadth_owners config)) returns) as Hin.
    { eapply Forall_impl; [exact Hall|]. intros o (_ & Hk & _). by apply contains_set_of in Hk. }
    specialize (Hlive Hd Hin). rewrite breadth_runs in H by lia. injection H as <-. split; [|done].
    split; [|done|done|done]. eapply Forall_impl; [exact Hall|]. by intros o [].
  - intros (Hdir & [Hc Hin Hd Hl] & ->). split; [done|]. specialize (Hlive Hd Hin).
    assert (Hsup : validate_breadth_returns (set_of (map spec_key (breadth_owners config))) returns =
      Ok (foldl (fun m o => BTreeMap.insert m (vr_contributor o) o) [] returns)).
    { apply validate_returns_Ok. split_and! ; [|done|done]. rewrite Forall_forall in *. intros o Ho. split_and! ; [by apply Hc| |done].
      apply contains_set_of. by apply Hin. }
    eexists. split; [exact Hsup|]. rewrite (breadth_counts config sm direction returns _ Hok Hsup). cbn [bc_usable bc_venues bc_confirming].
    rewrite Hvenues, (proj2 (Z.ltb_ge _ 2)), (proj2 (Z.ltb_ge _ 2)) by lia. apply breadth_runs; lia.
Qed.

(** ** An example: a primary market and one confirming venue *)

Definition hype : ContributorKeyV1 :=
  mkContributorKey "hyperliquid" (mkInstrumentIdentity "BTC" "USDT" "PERPETUAL" "HYPERLIQUID" "BTC").
Definition hype_ws : ConnectionKeyV1 := mkConnectionKey "hyperliquid_ws".

Definition hype_spec : ContributorSpecV1 := mkContributorSpec hype Confirmation (set_of [FConfirmationPrice]).
Definition hype_clock : ClockSourceKeyV1 := mkClockKey "clock_hype" hype.
Definition hype_coverage : list CoverageSourceKeyV1 := btc_coverage ++ [mkCoverageKey "cov_hype" hype FConfirmationPrice].

Definition two_venues : MechanicsConfigV1 :=
  mkConfig "mechanics" [usdm; hype_ws] [btc_spec; hype_spec] [(btc, usdm); (hype, hype_ws)] [btc_clock; hype_clock] hype_coverage [].

Lemma two_venues_ok : config_ok two_venues.
Proof.
  assert (E : config_new "mechanics" [usdm; hype_ws] [btc_spec; hype_spec] [(btc, usdm); (hype, hype_ws)] [btc_clock; hype_clock]
    hype_coverage [] = Ok two_venues) by computed.
  apply config_sound in E as [_ H]; [exact H|repeat constructor].
Qed.

(** Both contributors a minute into their epochs. *)
Definition both_live : SourceStateMachine :=
  fold_right (fun '(key, at_ns, first) sm => snd (ingest_market key "epoch_a" 0 (NativeRange first first) at_ns "h" false sm))
    (machine_new two_venues) [(hype, 60000001000, 2); (btc, 60000001000, 2); (hype, 1000, 1); (btc, 1000, 1)].

Lemma breadth_exact_witness :
  configured_cross_venue_breadth two_venues both_live DirUp [mkVenueReturn btc 250000 true; mkVenueReturn hype 100000 true] = Ok 50000000.
Proof.
  apply (breadth_exact two_venues both_live DirUp [mkVenueReturn btc 250000 true; mkVenueReturn hype 100000 true] 50000000).
  - exact two_venues_ok.
  - split; [discriminate|]. split; [|vm_compute; reflexivity]. split.
    + repeat constructor.
    + repeat constructor.
    + repeat constructor; vm_compute; intros H; inversion H as [|? ? ? H']; inversion H'.
    + vm_compute. discriminate.
Defined.
