(* ===== verification/PulseEvidence.v ===== *)
(** * Event pulse: from features to evidence ([crates/event-pulse/src/snapshot.rs])

    The observation of a moment and the evidence that the phase machine is given
    for it.  The theorems connect the feature rows ([PulseFeatures]) with the
    phase machine ([PulsePhase]): what the one authors, the other accepts. *)

From stdpp Require Import base tactics numbers strings option list sorting.
From Stdlib Require Import ZArith Lia.
From S2P Require Import Prelude Collections Fixed Text PulseMath PulseFeatures PulsePhase PulseKeys PulseCursor.

Local Open Scope Z_scope.

(** ** Data *)

(** The texts of the errors are left out. *)
Inductive SnapshotError :=
  | SnInputTimeRegression | SnInputOrderRegression | SnInvalidInput | SnCapacity | SnFeatureQueueDrop | SnSealedInput
  | SnDecisionTimeRegression | SnFutureAvailability | SnMissingCausalAnchor | SnStaleCausalAnchor | SnMissingClockEvidence
  | SnInvalidCausalTime | SnCursorConflict | SnRevisionOverflow | SnPhase | SnContract.

Definition arithmetic_overflow : SnapshotError := SnContract.

Record MarketAnchor := mkMarketAnchor {
  ma_source_event_time : Rfc3339Time;
  ma_received_at : Rfc3339Time;
  ma_normalized_at : Rfc3339Time;
  ma_available_at : Rfc3339Time;
  ma_payload_hash : string
}.

Record SnapshotCursor := mkSnapshotCursor {
  sc_source_id : string;
  sc_connection_epoch : string;
  sc_sequence_start : Z;
  sc_sequence_end : Z;
  sc_available_at : Rfc3339Time;
  sc_payload_hash : string
}.

Record ClockEvidence := mkClockEvidence {
  ce_source_id : string;
  ce_available_at : Rfc3339Time;
  ce_observed_skew_ms : Z;
  ce_freshness_limit_ms : Z;
  ce_degraded : bool
}.

Record SnapshotObservation := mkObservation {
  ob_available_at : Rfc3339Time;
  ob_features : FeatureSet;
  ob_flag_conditions : FlagConditions;
  ob_liquidation_confirms_direction : bool;
  ob_fully_warmed : bool;
  ob_critical_fault : bool;
  ob_anchor : option MarketAnchor;
  ob_cursors : list SnapshotCursor;
  ob_required_clock_sources : list string;
  ob_clocks : list ClockEvidence
}.

(** ** Scaled decimals *)

(** [str::parse::<i128>]. *)
Definition parse_i128 (bytes : list Z) : option Z :=
  let read (sign : Z) digits :=
    if bool_decide (digits = []) || negb (forallb is_ascii_digit digits) then None
    else to_ty I128 (sign * digits_value 0 digits) in
  match bytes with
  | 43 :: digits => read 1 digits
  | 45 :: digits => read (-1) digits
  | digits => read 1 digits
  end.

(** [trim_start_matches('-')]. *)
Fixpoint trim_minus (l : list Z) : list Z :=
  match l with
  | b :: l' => if b =? byte_minus then trim_minus l' else l
  | [] => []
  end.

Definition parse_scaled (value : list Z) : result Z SnapshotError :=
  let negative := match value with b :: _ => b =? byte_minus | [] => false end in
  let unsigned := trim_minus value in
  let '(whole, fraction) := default (unsigned, []) (split_once byte_dot unsigned) in
  if 8 <? Z.of_nat (length fraction) then Err SnInvalidInput else
  let? whole := ok_or (parse_i128 whole) SnInvalidInput in
  let fraction := fraction ++ replicate (8 - length fraction) byte_zero in
  let? fraction := ok_or (parse_i128 fraction) SnInvalidInput in
  let? scaled := ok_or (w ← checked_mul I128 whole SCALE; checked_add I128 w fraction) SnCapacity in
  if negative then ok_or (checked_neg I128 scaled) arithmetic_overflow else Ok scaled.

(** ** Conditions of a feature *)

Inductive FeatureOutcomeCause :=
  | OValid | OSourceInvalidated | OSourceStale | OInsufficientCoverage | OInsufficientSamples | ODirectionUnknown
  | OOptionalUnavailable.

Definition outcome_condition (cause : FeatureOutcomeCause) : option FeatureCondition :=
  match cause with
  | OValid => None
  | OSourceInvalidated => Some CSourceInvalidated
  | OSourceStale => Some CSourceStale
  | OInsufficientCoverage => Some CInsufficientCoverage
  | OInsufficientSamples => Some CInsufficientSamples
  | ODirectionUnknown => Some CDirectionUnknown
  | OOptionalUnavailable => Some COptionalSourceUnavailable
  end.

(** The error is the panic of [expect("conditions match feature")]. *)
Definition feature_conditions (name : FeatureName) (cause : FeatureOutcomeCause) (degraded : bool)
    : result FeatureConditions FeatureAuthoringError :=
  let conditions := match outcome_condition cause with Some c => [c] | None => [] end in
  conditions_new name (if degraded then conditions ++ [CClockDegraded] else conditions).

(** ** Evidence *)

Definition agrees (value : Z) (d : Direction) : bool :=
  match d with DirUp => Z.sgn value =? 1 | DirDown => Z.sgn value =? -1 | DirUnknown => false end.

#[export] Instance EnvelopeQuality_eq_dec : EqDecision EnvelopeQuality.
Proof. solve_decision. Defined.

(** [value(name)] of [derive_evidence]. *)
Definition row_value (features : FeatureSet) (name : FeatureName) : option Z :=
  row ← find (fun row => bool_decide (fo_name row = name)) (fs_rows features); fo_value row.

Definition checked_magnitude (v : Z) : result Z SnapshotError := ok_or (checked_abs I128 v) arithmetic_overflow.

(** [value.map(..).transpose()?]. *)
Definition optional_magnitude (v : option Z) : result (option Z) SnapshotError :=
  match v with Some v => rmap Some (checked_magnitude v) | None => Ok None end.

Definition direction_of (log_return : Z) : Direction :=
  match cmp log_return 0 with Gt => DirUp | Lt => DirDown | Eq => DirUnknown end.

Definition strong (v magnitude : option Z) (least : Z) (d : Direction) : bool :=
  match v, magnitude with Some v, Some magnitude => (least <=? magnitude) && agrees v d | _, _ => false end.

Definition at_least (least : Z) (v : option Z) : bool := match v with Some v => least <=? v | None => false end.

Definition derive_evidence (o : SnapshotObservation) : result MechanicsEvidence SnapshotError :=
  let value := row_value (ob_features o) in
  let log_return := default 0 (value LogReturn) in
  let direction := direction_of log_return in
  let oi := value OpenInterestChange in
  let liquidation := value LiquidationNotional in
  let? log_magnitude := checked_magnitude log_return in
  let? imbalance_magnitude := optional_magnitude (value TakerImbalance) in
  let? cvd_magnitude := optional_magnitude (value CvdSlope) in
  let families := mkFamilyFlags
    (200000 <=? log_magnitude)
    (strong (value TakerImbalance) imbalance_magnitude 60000000 direction
     || strong (value CvdSlope) cvd_magnitude (2 * SCALE) direction)
    (at_least (8 * SCALE) (value SpreadBps))
    (match oi with Some v => v <=? -100 * SCALE | None => false end
     || at_least (1000000 * SCALE) liquidation && ob_liquidation_confirms_direction o
        && negb (bool_decide (direction = DirUnknown)))
    (at_least 67000000 (value CrossVenueBreadth)) in
  let quality := envelope_quality (ob_features o) in
  let conditions := ob_flag_conditions o in
  let invalid := bool_decide (quality = EnvInvalid) || ob_critical_fault o || fc_incomplete_critical conditions
                 || negb (ob_fully_warmed o) in
  let degraded := bool_decide (quality = EnvDegraded) || fc_clock_degraded conditions
                  || fc_oi_stale_or_unavailable conditions || fc_breadth_unavailable_or_divergent conditions in
  let? available_at_ns := ok_or (checked_mul I64 (utc_micros (ob_available_at o)) 1000) SnPhase in
  Ok (mkMechanicsEvidence available_at_ns direction families (families_intensity families)
        (if invalid then 0 else if degraded then 80000000 else SCALE)
        (default 0 (value ReversalFromExtreme)) (negb invalid) (ob_fully_warmed o) (default 0 (value SpreadBps))).

(** ** Decimals read back *)

Lemma digits_value_acc acc l : digits_value acc l = acc * 10 ^ Z.of_nat (length l) + digits_value 0 l.
Proof.
  revert acc. induction l as [|b l IH]; intros acc; [cbn; lia|]. cbn [length]. rewrite Nat2Z.inj_succ, Z.pow_succ_r by lia.
  change (digits_value ?a (b :: l)) with (digits_value (a * 10 + (b - 48)) l). rewrite (IH (acc * 10 + _)), (IH (0 * 10 + _)). lia.
Qed.

Lemma digits_forallb l : Forall digit l -> forallb is_ascii_digit l = true.
Proof. induction 1 as [|b l Hb _ IH]; [done|]. cbn. by rewrite IH, (proj2 (is_ascii_digit_true b) Hb). Qed.

Lemma parse_i128_digits l : l <> [] -> Forall digit l -> parse_i128 l = to_ty I128 (digits_value 0 l).
Proof.
  intros Hne Hd. assert (forall b l', l = b :: l' -> digit b) as Hb by (intros b l' ->; by inversion Hd).
  unfold parse_i128. rewrite bool_decide_eq_false_2, (digits_forallb l) by done. cbn [orb negb]. rewrite Z.mul_1_l.
  destruct l as [|b l]; [done|]. specialize (Hb b l eq_refl). unfold digit in Hb.
  assert (b <> 43) by lia. assert (b <> 45) by lia. repeat (case_match; simplify_eq; try done).
Qed.

Lemma trim_minus_digits s int rest : int <> [] -> Forall digit int -> s <> PlusSign ->
  trim_minus (sign_bytes s ++ int ++ rest) = int ++ rest.
Proof.
  intros Hne Hd Hs. assert (trim_minus (int ++ rest) = int ++ rest) as H; [|by destruct s].
  destruct Hd as [|b l Hb _]; [done|]. cbn. unfold digit in Hb. unfold byte_minus. by rewrite (proj2 (Z.eqb_neq b 45)) by lia.
Qed.

Lemma split_once_digits int rest : Forall digit int ->
  split_once byte_dot (int ++ rest) = (fun p => (int ++ p.1, p.2)) <$> split_once byte_dot rest.
Proof.
  induction 1 as [|b int Hb _ IH]; cbn; [by destruct (split_once _ rest) as [[]|]|]. unfold digit in Hb.
  unfold byte_dot in *. rewrite (proj2 (Z.eqb_neq b 46)) by lia. rewrite IH. by destruct (split_once _ rest) as [[]|].
Qed.

(** Every scaled value, printed, is read back. *)
Lemma parse_scaled_canonical v : Z.abs v <= int_max I128 -> parse_scaled (canonical_decimal v) = Ok v.
Proof.
  intros Hm. assert (fits I128 v) as Hf by (unfold fits; cbn in Hm |- *; lia).
  destruct (canonical_parts v Hf Hm) as ((Hi & Hfr & _) & k & Hk & Ek & Hv). rewrite canonical_render.
  assert (lit_int (canonical_literal v) <> []) as Hne by by apply dec_digits_cons.
  assert (lit_sign (canonical_literal v) = if v <? 0 then MinusSign else NoSign) as Es by done.
  set (l := canonical_literal v) in *. clearbody l. destruct l as [s int fr]. cbn [lit_sign lit_int lit_frac] in *.
  set (f := default [] fr) in *. unfold parse_scaled, render. cbn [lit_sign lit_int lit_frac].
  rewrite trim_minus_digits; [|done|done|by subst s; destruct (v <? 0)].
  rewrite split_once_digits by done.
  assert (default (int ++ match fr with Some f => byte_dot :: f | None => [] end, [])
    ((fun p => (int ++ p.1, p.2)) <$> split_once byte_dot (match fr with Some f => byte_dot :: f | None => [] end)) = (int, f)) as ->.
  { destruct fr; cbn; by rewrite app_nil_r. }
  rewrite (proj2 (Z.ltb_ge _ _)) by lia. rewrite parse_i128_digits by done.
  set (fz := f ++ replicate (8 - length f) byte_zero).
  assert (Forall digit fz) as Hz by (apply Forall_app; split; [done|]; apply Forall_replicate; by unfold digit, byte_zero).
  assert (length fz = 8%nat) as Hl by (unfold fz; rewrite length_app, length_replicate; lia).
  rewrite parse_i128_digits by (done || by destruct fz).
  pose proof (digits_value_ge 0 int ltac:(lia) Hi) as G1. pose proof (digits_value_ge 0 fz ltac:(lia) Hz) as G2.
  assert (digits_value 0 int * SCALE + digits_value 0 fz = Z.abs v) as Hsum.
  { rewrite <- Hv. unfold fz in *. rewrite (digits_value_app 0 int), (digits_value_app 0 f), digits_value_zeros, (digits_value_acc (digits_value 0 int)).
    replace (Z.of_nat (8 - length f)) with (8 - k) by lia. rewrite <- Ek, Z.mul_add_distr_r, <- Z.mul_assoc, <- Z.pow_add_r by lia.
    by replace (k + (8 - k)) with 8 by lia. }
  assert (fits I128 (digits_value 0 int)) as F1 by (unfold fits, SCALE in *; cbn in Hm |- *; lia).
  assert (fits I128 (digits_value 0 fz)) as F2 by (unfold fits, SCALE in *; cbn in Hm |- *; lia).
  assert (fits I128 (digits_value 0 int * SCALE)) as F3 by (unfold fits, SCALE in *; cbn in Hm |- *; lia).
  rewrite !to_ty_fits by done. cbn [ok_or rbind]. unfold checked_mul, checked_add. rewrite to_ty_fits by done. cbn [mbind option_bind].
  rewrite Hsum, to_ty_fits by (unfold fits; cbn in Hm |- *; lia). cbn [ok_or rbind].
  destruct (Z.ltb_spec v 0); subst s; cbn [sign_bytes app].
  - rewrite Z.eqb_refl. unfold checked_neg. rewrite to_ty_fits by (unfold fits; cbn in Hm |- *; lia). cbn. f_equal. lia.
  - destruct Hi as [|b int Hb _]; [done|]. cbn [app]. unfold digit in Hb. unfold byte_minus. rewrite (proj2 (Z.eqb_neq b 45)) by lia.
    f_equal. lia.
Qed.

(** ** Features of an observation *)

(** A feature set of rows that the evaluation functions authored. *)
Definition observed_set (set : FeatureSet) : Prop :=
  exists rows policy, Forall (authored policy) rows /\ feature_set_new rows policy = Ok set.

Lemma inner_value name value c policy row v : evaluate_feature_inner name value c policy = Ok row ->
  fo_value row = Some v -> value = Some v.
Proof.
  unfold evaluate_feature_inner. intros H Hv. destruct (negb _); [done|]. destruct (cond_in CArithmeticInvalid c); [done|].
  apply rbind_Ok in H as ([reason quality] & _ & H). destruct (_ && _); [done|]. injection H as <-. cbn in Hv.
  by destruct (has_value quality).
Qed.

Lemma authored_reversal_ratio policy row v : authored policy row -> fo_name row = ReversalFromExtreme -> fo_value row = Some v ->
  0 <= v <= SCALE.
Proof.
  intros [name value cs c row' _ He|anchor extreme current cs c row' _ He] Hn Hv.
  - unfold evaluate_feature in He. case_bool_decide as Hd; [done|]. destruct Hd. rewrite <- Hn.
    unfold evaluate_feature_inner in He. destruct (negb _); [done|]. destruct (cond_in CArithmeticInvalid c); [done|].
    apply rbind_Ok in He as ([? ?] & _ & He). destruct (_ && _); [done|]. injection He as <-. done.
  - unfold evaluate_reversal in He. destruct (negb _); [done|]. destruct (_ && _); [done|].
    destruct policy as [| |dir]; [injection He as <-; cbn in Hv; injection Hv as <-; unfold SCALE; lia..|].
    destruct (reversal_from_extreme _ _ _ _) as [w|[]] eqn:Er; eapply inner_value in He; try exact Hv; try discriminate He.
    injection He as <-. by apply reversal_Ok in Er as [? _].
Qed.

Lemma observed_rows set row : observed_set set -> row ∈ fs_rows set -> authored (fs_reversal_policy set) row.
Proof.
  intros (rows & policy & Ha & H). unfold feature_set_new in H. repeat (destruct (negb _); [done|]).
  destruct (existsb _ _); [done|]. injection H as <-. cbn. rewrite elem_of_sort_by. revert row. by apply list.Forall_forall.
Qed.

Lemma row_value_elem set name v : row_value set name = Some v -> exists row, row ∈ fs_rows set /\ fo_name row = name /\ fo_value row = Some v.
Proof.
  unfold row_value. destruct (find _ (fs_rows set)) as [row|] eqn:E; [|done]. cbn. intros Hv.
  apply find_some in E as [Hin Hn]. apply bool_decide_eq_true in Hn. exists row. by rewrite list_elem_of_In.
Qed.

Lemma risk_ratio set : observed_set set -> 0 <= default 0 (row_value set ReversalFromExtreme) <= SCALE.
Proof.
  intros Hs. destruct (row_value set ReversalFromExtreme) as [v|] eqn:E; [|done].
  apply row_value_elem in E as (row & Hin & Hn & Hv). eapply authored_reversal_ratio; [by eapply observed_rows|done|done].
Qed.

Lemma intensity_ratio f : 0 <= families_intensity f <= SCALE.
Proof. by destruct f as [[] [] [] [] []]. Qed.

(** Values of the rows whose magnitude exists. *)
Definition measurable (set : FeatureSet) : Prop :=
  forall row v, row ∈ fs_rows set -> fo_value row = Some v -> Z.abs v <= int_max I128.

Lemma checked_magnitude_ok v : Z.abs v <= int_max I128 -> checked_magnitude v = Ok (Z.abs v).
Proof. intros H. unfold checked_magnitude, checked_abs. rewrite to_ty_fits; [done|]. unfold fits. cbn in *. lia. Qed.

Lemma optional_magnitude_ok v : (forall w, v = Some w -> Z.abs w <= int_max I128) -> optional_magnitude v = Ok (Z.abs <$> v).
Proof. intros H. destruct v as [v|]; [|done]. cbn. by rewrite checked_magnitude_ok by auto. Qed.

(** What the evidence of an observation is. *)
Lemma derive_evidence_ok o : measurable (ob_features o) -> fits I64 (utc_micros (ob_available_at o) * 1000) ->
  exists e, derive_evidence o = Ok e /\ ev_available_at_ns e = utc_micros (ob_available_at o) * 1000 /\
    ev_intensity e = families_intensity (ev_families e) /\ 0 <= ev_confidence e <= SCALE /\
    ev_reversal_risk e = default 0 (row_value (ob_features o) ReversalFromExtreme).
Proof.
  intros Hm Ht. assert (forall name v, row_value (ob_features o) name = Some v -> Z.abs v <= int_max I128) as Hv.
  { intros name v (row & Hin & _ & E)%row_value_elem. eauto. }
  unfold derive_evidence. cbv zeta. rewrite checked_magnitude_ok.
  2: { destruct (row_value _ LogReturn) as [v|] eqn:E; [by eapply Hv|done]. }
  cbn [rbind]. rewrite !optional_magnitude_ok by eauto. cbn [rbind]. unfold checked_mul. rewrite to_ty_fits by done.
  eexists. split; [reflexivity|]. cbn. split_and! ; try done; by repeat case_match.
Qed.

(** ** The phase machine accepts it *)

(** Seconds of room that the longest dwell needs before the end of time. *)
Definition in_time (at_ns : Z) : Prop := fits I64 at_ns /\ at_ns + 5000000000 <= int_max I64.

Definition times_fit (m : PhaseMachine) : Prop :=
  (forall now, pm_now_ns m = Some now -> fits I64 now) /\ (forall c, pm_candidate m = Some c -> fits I64 (cand_start_ns c)).

Lemma refresh_times_fit t m : fits I64 t -> times_fit m -> times_fit (refresh_candidate t m).
Proof.
  intros Ht [Hn Hc]. unfold refresh_candidate. repeat case_match; split; cbn; intros; simplify_eq/=; auto.
Qed.

Lemma supported_dwell h since p q dwell : PulsePhase.supported h since p q dwell -> 0 <= dwell <= 5000000000.
Proof.
  intros [Hne Hs]. destruct (in_force since h) as [|e l]; [done|]. apply Forall_cons in Hs as [Ht _].
  apply transition_dwell in Ht as [[?|(_ & _ & _ & ->)] _]; lia.
Qed.

Lemma turn_succeeds h m at_ns : phase_inv h m -> before_now at_ns m = false -> times_fit m -> in_time at_ns ->
  exists b m', advance_turn at_ns m = (Ok b, m') /\ times_fit m'.
Proof.
  intros Hi Hb Hf [Hat Hroom]. destruct (refreshed_inv h m at_ns Hi Hb) as (Hi1 & _ & _ & Hnow & _). rewrite advance_turn_eq. cbv zeta.
  assert (times_fit (turn_refreshed at_ns m)) as Hf1.
  { apply refresh_times_fit; [|done]. destruct (pm_now_ns m) as [now|] eqn:E; [by apply Hf|done]. }
  set (m1 := turn_refreshed at_ns m) in *. destruct (pm_candidate m1) as [c|] eqn:Ec; [|by eexists _, _].
  destruct (pi_candidate _ _ Hi1 c Ec) as (now & En & Hr & Hd%supported_dwell). pose proof (proj2 Hf1 c Ec) as Hs.
  unfold before_now in Hb. rewrite <- Hnow, En in Hb.
  assert (fits I64 (cand_start_ns c + cand_dwell_ns c)) as Hfit by (unfold fits in *; cbn in *; lia).
  unfold checked_add. rewrite to_ty_fits by done. destruct (at_ns <? cand_start_ns c + cand_dwell_ns c); eexists _, _; (split; [reflexivity|]); [done|].
  split; cbn; intros; simplify_eq; done.
Qed.

Lemma loop_succeeds h fuel at_ns m : phase_inv h m -> before_now at_ns m = false -> times_fit m -> in_time at_ns ->
  exists b m', advance_loop fuel at_ns m = (Ok b, m') /\ times_fit m'.
Proof.
  revert m. induction fuel as [|fuel IH]; intros m Hi Hb Hf Ht; [by eexists _, _|]. cbn [advance_loop]. unfold ebind.
  destruct (turn_succeeds h m at_ns Hi Hb Hf Ht) as (b & m1 & E & Hf1). pose proof (turn_outcome h m at_ns Hi Hb) as Ho.
  rewrite E in Ho |- *. destruct b; [eauto|]. destruct Ho as (Hi1 & Hb1 & _). eauto.
Qed.

Lemma advance_succeeds h at_ns m : phase_inv h m -> before_now at_ns m = false -> times_fit m -> in_time at_ns ->
  exists m', advance_to at_ns m = (Ok true, m') /\ times_fit m'.
Proof.
  intros Hi Hb Hf Ht. pose proof (advance_to_ends h m at_ns Hi) as He. rewrite advance_to_eq, Hb in *.
  destruct (loop_succeeds h (advance_fuel at_ns m) at_ns m Hi Hb Hf Ht) as (b & m1 & E & Hf1). rewrite E in *.
  destruct b; [|done]. eexists. split; [done|]. apply refresh_times_fit; [apply Ht|]. split; cbn; [|apply Hf1].
  intros now [= <-]. apply Ht.
Qed.

Lemma observe_succeeds h e m : phase_inv h m -> times_fit m -> before_now (ev_available_at_ns e) m = false ->
  in_time (ev_available_at_ns e) -> ev_intensity e = families_intensity (ev_families e) ->
  0 <= ev_confidence e <= SCALE -> 0 <= ev_reversal_risk e <= SCALE ->
  exists m', phase_observe e m = (Ok true, m') /\ phase_inv (e :: h) m' /\ times_fit m' /\ pm_now_ns m' = Some (ev_available_at_ns e).
Proof.
  intros Hi Hf Hb Ht Hint Hc Hr. pose proof (observe_inv h e m Hi) as Ho.
  destruct (advance_succeeds h _ m Hi Hb Hf Ht) as (m1 & E & Hf1).
  assert (exists m', phase_observe e m = (Ok true, m') /\ times_fit m') as (m' & E' & Hf').
  { unfold phase_observe, ebind, eget. rewrite Hb, Hint, Z.eqb_refl. pose proof (intensity_ratio (ev_families e)) as Hx.
    unfold in_ratio. rewrite !(proj2 (Z.leb_le _ _)) by lia. cbn [andb orb negb]. rewrite E. unfold emod.
    destruct (ev_valid e); cbn [negb]; eexists; (split; [reflexivity|]).
    - apply refresh_times_fit; [apply Ht|]. done.
    - split; cbn; [apply Hf1|done]. }
  rewrite E' in Ho. destruct Ho as [Hi' Hn]. eauto.
Qed.

(** The loop of [phase_at], over the observations that the processor derives for
    its replay times; [false] when the fuel of the phase machine ran out. *)
Definition observe_one (o : SnapshotObservation) : Eff PhaseMachine SnapshotError bool := fun m =>
  match derive_evidence o with
  | Err e => (Err e, m)
  | Ok e => let '(r, m') := phase_observe e m in (map_err (fun _ => SnPhase) r, m')
  end.

Fixpoint phase_feed (l : list SnapshotObservation) : Eff PhaseMachine SnapshotError bool :=
  match l with
  | [] => eret true
  | o :: l => let! ended := observe_one o in if (ended : bool) then phase_feed l else eret false
  end.

Definition phase_until (l : list SnapshotObservation) (decision_micros : Z) : Eff PhaseMachine SnapshotError bool :=
  let! ended := phase_feed l in
  if negb ended then eret false else
  let! decision_ns := elift (ok_or (checked_mul I64 decision_micros 1000) SnPhase) in
  fun m => let '(r, m') := advance_to decision_ns m in (map_err (fun _ => SnPhase) r, m').

(** An observation whose evidence can be derived. *)
Definition observable (o : SnapshotObservation) : Prop :=
  observed_set (ob_features o) /\ measurable (ob_features o) /\ in_time (utc_micros (ob_available_at o) * 1000).

Definition earlier (o o' : SnapshotObservation) : Prop := utc_micros (ob_available_at o) <= utc_micros (ob_available_at o').

Lemma observe_one_succeeds h o m : reach h m -> times_fit m -> observable o ->
  (forall now, pm_now_ns m = Some now -> now <= utc_micros (ob_available_at o) * 1000) ->
  exists e m', derive_evidence o = Ok e /\ observe_one o m = (Ok true, m') /\ reach (e :: h) m' /\ times_fit m' /\
    pm_now_ns m' = Some (utc_micros (ob_available_at o) * 1000).
Proof.
  intros Hr Hf (Hs & Hm & Ht) Hnow. destruct (derive_evidence_ok o Hm (proj1 Ht)) as (e & E & Ha & Hi & Hc & Hrisk).
  destruct (observe_succeeds h e m (reach_inv _ _ Hr) Hf) as (m' & Eo & _ & Hf' & Hn); rewrite ?Ha, ?Hrisk; try done.
  - unfold before_now. destruct (pm_now_ns m) as [now|]; [|done]. specialize (Hnow now eq_refl). lia.
  - by apply risk_ratio.
  - exists e, m'. split; [done|]. split; [unfold observe_one; by rewrite E, Eo|]. split; [by eapply reach_observe|].
    by rewrite <- Ha.
Qed.

Lemma phase_feed_succeeds l : forall h m, reach h m -> times_fit m -> Forall observable l -> StronglySorted earlier l ->
  (forall now o, pm_now_ns m = Some now -> o ∈ l -> now <= utc_micros (ob_available_at o) * 1000) ->
  exists es m', Forall2 (fun o e => derive_evidence o = Ok e) l es /\ phase_feed l m = (Ok true, m') /\
    reach (rev es ++ h) m' /\ times_fit m' /\
    (forall now, pm_now_ns m' = Some now -> pm_now_ns m = Some now \/ exists o, o ∈ l /\ now = utc_micros (ob_available_at o) * 1000).
Proof.
  induction l as [|o l IH]; intros h m Hr Hf Ho Hs Hnow; [exists [], m; by eauto 6|].
  apply Forall_cons in Ho as [Ho Hl]. apply StronglySorted_inv in Hs as [Hs Hfirst].
  destruct (observe_one_succeeds h o m Hr Hf Ho) as (e & m1 & E & Eo & Hr1 & Hf1 & Hn1); [intros; eapply Hnow; [done|left]|].
  destruct (IH (e :: h) m1 Hr1 Hf1 Hl Hs) as (es & m2 & H2 & E2 & Hr2 & Hf2 & Hn2).
  { intros now o' Hn Hin. rewrite Hn1 in Hn. injection Hn as <-.
    pose proof (proj1 (list.Forall_forall _ _) Hfirst o' Hin). unfold earlier in *. lia. }
  exists (e :: es), m2. split; [by constructor|]. cbn [phase_feed]. unfold ebind. rewrite Eo. split; [done|].
  split; [cbn; by rewrite <- app_assoc|]. split; [done|]. intros now Hn. right.
  destruct (Hn2 now Hn) as [Hm|(o' & Hin & ->)]; [|exists o'; split; [by right|done]].
  exists o. split; [left|congruence].
Qed.

(** C16. What the evaluation functions author, the phase machine accepts: a history
    of observations in order of availability, over feature sets of authored
    rows, is observed in full and advanced to the decision time, without an
    error and without running out of turns.  Every observation contributes
    exactly the evidence that is derived from it. *)
Theorem observations_accepted l decision : Forall observable l -> StronglySorted earlier l ->
  (forall o, o ∈ l -> utc_micros (ob_available_at o) <= decision) -> in_time (decision * 1000) ->
  exists es m, Forall2 (fun o e => derive_evidence o = Ok e) l es /\ phase_until l decision phase_new = (Ok true, m) /\
    reach (rev es) m /\ pm_now_ns m = Some (decision * 1000) /\ pm_evidence m = last es.
Proof.
  intros Ho Hs Hd Ht. destruct (phase_feed_succeeds l [] phase_new) as (es & m & H2 & E & Hr & Hf & Hn); try done; [constructor|].
  rewrite app_nil_r in Hr. pose proof (reach_inv _ _ Hr) as Hi.
  assert (before_now (decision * 1000) m = false) as Hb.
  { unfold before_now. destruct (pm_now_ns m) as [now|] eqn:En; [|done].
    destruct (Hn now eq_refl) as [?|(o & Hin & ->)]; [done|]. specialize (Hd o Hin). lia. }
  destruct (advance_succeeds (rev es) _ m Hi Hb Hf Ht) as (m' & Ea & _).
  assert (reach (rev es) m') as Hr' by by eapply reach_advance.
  exists es, m'. split; [done|]. split; [|split; [done|]].
  - unfold phase_until, ebind. rewrite E. cbn [negb]. unfold elift, checked_mul. rewrite to_ty_fits by apply Ht. cbn [ok_or].
    by rewrite Ea.
  - pose proof (phase_advance_inv (rev es) (decision * 1000) m Hi) as [_ Hrest]. rewrite Ea in Hrest. split; [by apply Hrest|].
    rewrite (pi_evidence _ _ (reach_inv _ _ Hr')). rewrite rev_alt. apply head_reverse.
Qed.

(** A squeeze: price and flow point up, the spread is wide, open interest falls
    and every venue confirms. *)
Definition squeeze_policy : ReversalPolicy := ReversalRequired KnownUp.
Definition squeeze_inputs : list (FeatureName * Z) :=
  [(BookDepth10bps, 500000000); (CrossVenueBreadth, SCALE); (CvdSlope, 300000000); (LiquidationNotional, 0); (LogReturn, 250000);
   (OpenInterestChange, -20000000000); (SpreadBps, 900000000); (TakerImbalance, 70000000)].
Definition squeeze_rows : list FeatureObservation :=
  omap id (ok (evaluate_reversal squeeze_policy 100 200 190 (conditions_valid ReversalFromExtreme))
    :: ((fun i => ok (evaluate_feature i.1 (Some i.2) (conditions_valid i.1) squeeze_policy)) <$> squeeze_inputs)).
Definition squeeze_set : FeatureSet :=
  Eval vm_compute in match feature_set_new squeeze_rows squeeze_policy with Ok set => set | Err _ => mkFeatureSet [] squeeze_policy end.
Definition no_flags : FlagConditions := mkFlagConditions false false false false false false false false false.
Definition at_micros (t : Z) : Rfc3339Time := mkTime "t" t.
Definition squeeze_at (micros : Z) : SnapshotObservation :=
  mkObservation (at_micros micros) squeeze_set no_flags false true false None [] [] [].

Lemma squeeze_observed : observed_set squeeze_set.
Proof.
  exists squeeze_rows, squeeze_policy. split; [|by vm_compute].
  assert (forall p, p ∈ squeeze_inputs -> forall row, ok (evaluate_feature p.1 (Some p.2) (conditions_valid p.1) squeeze_policy) = Some row ->
    authored squeeze_policy row) as Hrow.
  { intros p _ row Hrow. eapply (authored_feature _ p.1 (Some p.2) []); [done|]. by destruct (evaluate_feature _ _ _ _); simplify_eq/=. }
  apply list.Forall_forall. intros row (o & Ho & Hi)%list_elem_of_omap. cbn [id] in Hi. subst o.
  apply elem_of_cons in Ho as [E|Ho].
  - by eapply (authored_reversal _ 100 200 190 []); [done|]; injection E as ->.
  - apply list_elem_of_fmap in Ho as (p & E & Hp). by eapply Hrow.
Qed.

Lemma squeeze_observable t : in_time (t * 1000) -> observable (squeeze_at t).
Proof.
  intros Ht. split; [apply squeeze_observed|]. split; [|done]. intros row v Hin Hv. cbn in Hin.
  repeat (apply elem_of_cons in Hin as [->|Hin]; [cbn in Hv |- *; injection Hv as <-; lia|]). by apply elem_of_nil in Hin.
Qed.

(** The squeeze, seen twice: ignition after a tenth of a second, then a cascade. *)
Lemma observations_accepted_witness :
  exists es m, Forall2 (fun o e => derive_evidence o = Ok e) [squeeze_at 5; squeeze_at 50005] es /\
    phase_until [squeeze_at 5; squeeze_at 50005] 400000 phase_new = (Ok true, m) /\ reach (rev es) m /\
    pm_now_ns m = Some 400000000 /\ pm_evidence m = last es /\
    pm_phase (snd (phase_until [squeeze_at 5; squeeze_at 50005] 400000 phase_new)) = PhCascade.
Proof.
  destruct (observations_accepted [squeeze_at 5; squeeze_at 50005] 400000) as (es & m & H1 & H2 & H3 & H4 & H5).
  - repeat constructor; apply squeeze_observable; unfold in_time, fits; cbn; lia.
  - repeat constructor. unfold earlier. cbn. lia.
  - intros o Ho. rewrite !elem_of_cons in Ho. destruct Ho as [->|[->|Ho]]; cbn; [lia..|by apply elem_of_nil in Ho].
  - unfold in_time, fits; cbn; lia.
  - exists es, m. split; [exact H1|]. split; [exact H2|]. split; [exact H3|]. split; [exact H4|]. split; [exact H5|].
    computed.
Defined.
