(* ===== verification/PulseAuthor.v ===== *)
(** * Event pulse: the content of a snapshot ([crates/event-pulse/src/snapshot.rs])

    What [MechanicsProcessor::author] publishes for a decision: the clock that
    bounds it, the cursors it is attributed to, its quality, flags and scores.
    The body is modelled up to its rendering as JSON, its hash and the check
    against the contract. *)

From stdpp Require Import base tactics numbers strings option list sorting.
From Stdlib Require Import ZArith Lia.
From S2P Require Import Prelude Collections Fixed Text AnalyticsCore PulseMath PulseFeatures PulsePhase PulseKeys PulseCursor PulseEvidence.

Local Open Scope Z_scope.

(** ** The clock of a snapshot *)

Record AggregateClock := mkAggregateClock { ac_max_abs_skew : Z; ac_freshness_limit_ms : Z; ac_degraded : bool }.

(** One required source. *)
Definition clock_step (clocks : BTreeMap string ClockEvidence) (decision : Rfc3339Time) (acc : AggregateClock) (source : string)
    : result AggregateClock SnapshotError :=
  let? clock := ok_or (BTreeMap.get clocks source) SnMissingClockEvidence in
  let age := wrap I64 (utc_micros decision - utc_micros (ce_available_at clock)) in
  if negb ((0 <=? age) && (age <=? 1000000)) || (ce_freshness_limit_ms clock =? 0) then Err SnMissingClockEvidence else
  let? skew := ok_or (checked_abs I128 (ce_observed_skew_ms clock)) SnContract in
  Ok (mkAggregateClock (Z.max (ac_max_abs_skew acc) skew) (Z.min (ac_freshness_limit_ms acc) (ce_freshness_limit_ms clock))
        (ac_degraded acc || ce_degraded clock)).

Definition aggregate_clock (o : SnapshotObservation) (decision : Rfc3339Time) (anchor : MarketAnchor)
    : result AggregateClock SnapshotError :=
  let clocks := foldl (fun m clock => BTreeMap.insert m (ce_source_id clock) clock) [] (ob_clocks o) in
  if negb (len clocks =? len (ob_clocks o)) || bool_decide (ob_required_clock_sources o = []) then Err SnMissingClockEvidence else
  let? acc := try_fold (clock_step clocks decision) (mkAggregateClock 0 (int_max U64) false) (ob_required_clock_sources o) in
  let anchor_age := wrap I64 (utc_micros decision - utc_micros (ma_source_event_time anchor)) in
  if (anchor_age <? 0) || (ac_freshness_limit_ms acc * 1000 <? anchor_age) then Err SnStaleCausalAnchor else Ok acc.

(** ** Provenance *)

(** The order of the cursors and what makes two of them the same. *)
Definition cursor_key (c : SnapshotCursor) : Z * (string * (string * (Z * (Z * string)))) :=
  (utc_micros (sc_available_at c), (sc_source_id c, (sc_connection_epoch c, (sc_sequence_start c, (sc_sequence_end c, sc_payload_hash c))))).

(** [windows(2).any(..)]. *)
Fixpoint adjacent_same (l : list SnapshotCursor) : bool :=
  match l with
  | a :: (b :: _) as l' => bool_decide (cursor_key a = cursor_key b) || adjacent_same l'
  | _ => false
  end.

(** [cursor_json], up to the rendering of a cursor as a JSON object. *)
Definition cursor_rows (cursors : list SnapshotCursor) : result (list SnapshotCursor) SnapshotError :=
  let ordered := sort_by (cmp_by cursor_key) cursors in
  if bool_decide (ordered = []) || adjacent_same ordered then Err SnCursorConflict else Ok ordered.

(** ** Text of the fields *)

Definition feature_unit (n : FeatureName) : string :=
  match n with
  | BookDepth10bps | LiquidationNotional => "USDC"
  | CrossVenueBreadth | ReversalFromExtreme => "RATIO"
  | CvdSlope => "BASE_PER_SECOND"
  | LogReturn => "LOG_RETURN"
  | OpenInterestChange => "CONTRACTS"
  | SpreadBps => "BPS"
  | TakerImbalance => "RATIO"
  end.

Definition feature_quality (q : FeatureQuality) : string :=
  match q with
  | QInvalid => "INVALID" | QDegraded => "DEGRADED" | QUnavailable => "UNAVAILABLE" | QValidated => "VALIDATED"
  end.

Definition direction_str (d : Direction) : string :=
  match d with DirUp => "UP" | DirDown => "DOWN" | DirUnknown => "UNKNOWN" end.

Definition event_type (phase : Phase) (e : MechanicsEvidence) : string :=
  match phase with
  | PhNormal | PhBuildup | PhInvalid => "UNKNOWN"
  | _ =>
      let f := ev_families e in
      if fam_derivatives f then
        match ev_direction e with DirUp => "SHORT_SQUEEZE" | DirDown => "LONG_LIQUIDATION" | DirUnknown => "UNKNOWN" end
      else if fam_price f && fam_flow f then "FLOW_SHOCK"
      else if fam_book f then "BOOK_DISLOCATION"
      else "UNKNOWN"
  end.

Definition flag_string (f : MechanicsFlag) : string :=
  match f with
  | FBookResyncing => "BOOK_RESYNCING" | FClockUncertain => "CLOCK_UNCERTAIN"
  | FCrossVenueDivergence => "CROSS_VENUE_DIVERGENCE" | FInsufficientCoverage => "INSUFFICIENT_COVERAGE"
  | FOiStale => "OI_STALE" | FQueueDrop => "QUEUE_DROP" | FReconnectWarmup => "RECONNECT_WARMUP"
  | FSequenceGap => "SEQUENCE_GAP" | FSourceStale => "SOURCE_STALE"
  end.

(** [feature_json], one row. *)
Record FeatureRow := mkFeatureRow {
  row_name : string;
  row_horizon_ms : option Z;
  row_unit : string;
  row_text : option (list Z);
  row_quality : string;
  row_reason : string
}.

Definition feature_row (r : FeatureObservation) : FeatureRow :=
  mkFeatureRow (feature_str (fo_name r)) (horizon_ms (fo_name r)) (feature_unit (fo_name r))
    (canonical_decimal <$> fo_value r) (feature_quality (fo_quality r)) (reason_str (fo_reason r)).

Definition feature_json (features : FeatureSet) : list FeatureRow := feature_row <$> fs_rows features.

(** ** The body *)

(** The fields that [author] computes; those it copies from the authoring
    configuration, the revision and the predecessor are left out. *)
Record SnapshotBody := mkSnapshotBody {
  sb_source_event_time : Rfc3339Time;
  sb_received_at : Rfc3339Time;
  sb_normalized_at : Rfc3339Time;
  sb_available_at : Rfc3339Time;
  sb_decision_time : Rfc3339Time;
  sb_observed_skew_ms : list Z;
  sb_freshness_limit_ms : Z;
  sb_clock_degraded : bool;
  sb_phase : Phase;
  sb_event_type : string;
  sb_direction : Direction;
  sb_intensity : list Z;
  sb_confidence : list Z;
  sb_reversal_risk : list Z;
  sb_quality_state : string;
  sb_quality_flags : list MechanicsFlag;
  sb_features : list FeatureRow;
  sb_source_cursors : list SnapshotCursor
}.

Definition effective_flags (conditions : FlagConditions) (clock_degraded : bool) : list MechanicsFlag :=
  let flags := mechanics_flags conditions in
  if clock_degraded then dedup (sort_by (cmp_by flag_index) (flags ++ [FClockUncertain])) else flags.

Definition author (o : SnapshotObservation) (phase : PhaseMachine) (decision_time : Rfc3339Time) : result SnapshotBody SnapshotError :=
  let? anchor := ok_or (ob_anchor o) SnMissingCausalAnchor in
  let available_micros := utc_micros (ob_available_at o) in
  if utc_micros decision_time <? available_micros then Err SnFutureAvailability else
  if negb ((utc_micros (ma_source_event_time anchor) <=? utc_micros (ma_received_at anchor))
           && (utc_micros (ma_received_at anchor) <=? utc_micros (ma_normalized_at anchor))
           && (utc_micros (ma_normalized_at anchor) <=? available_micros)) then Err SnInvalidCausalTime else
  let? clock := aggregate_clock o decision_time anchor in
  let? evidence := derive_evidence o in
  let flags := mechanics_flags (ob_flag_conditions o) in
  let quality := envelope_quality (ob_features o) in
  let invalid := negb (ev_valid evidence) || bool_decide (pm_phase phase = PhInvalid) in
  if invalid && bool_decide (flags = []) then Err SnContract else
  let quality_state :=
    if invalid then "INVALID"
    else if bool_decide (quality = EnvDegraded) || ac_degraded clock then "DEGRADED"
    else "VALIDATED" in
  let '(intensity, confidence, reversal) :=
    if invalid then (0, 0, 0) else (ev_intensity evidence, ev_confidence evidence, ev_reversal_risk evidence) in
  let shown := if invalid then PhInvalid else pm_phase phase in
  let? cursors := cursor_rows (ob_cursors o) in
  Ok (mkSnapshotBody (ma_source_event_time anchor) (ma_received_at anchor) (ma_normalized_at anchor) (ob_available_at o)
        decision_time (canonical_decimal (ac_max_abs_skew clock)) (ac_freshness_limit_ms clock) (ac_degraded clock)
        shown (event_type shown evidence) (if invalid then DirUnknown else ev_direction evidence)
        (canonical_decimal intensity) (canonical_decimal confidence) (canonical_decimal reversal)
        quality_state (effective_flags (ob_flag_conditions o) (ac_degraded clock)) (feature_json (ob_features o)) cursors).

(** ** Cursors are strictly ordered *)

Definition before_cursor (a b : SnapshotCursor) : Prop := cmp (cursor_key a) (cursor_key b) = Lt.

Lemma sorted_distinct_strict l : StronglySorted (not_after (cmp_by cursor_key)) l -> adjacent_same l = false ->
  StronglySorted before_cursor l.
Proof.
  induction 1 as [|a l Hs IH Ha]; intros Hd; [constructor|]. destruct l as [|b l]; [by repeat constructor|].
  cbn [adjacent_same] in Hd. apply orb_false_iff in Hd as [Hab Hd]. apply bool_decide_eq_false in Hab. specialize (IH Hd).
  constructor; [done|]. apply Forall_cons in Ha as [Hle _].
  assert (before_cursor a b) as Hlt.
  { unfold before_cursor, not_after, cmp_by in *. destruct (cmp _ _) eqn:E; [|done|done]. by apply cmp_eq in E. }
  apply StronglySorted_inv in IH as [_ Hb]. constructor; [done|]. eapply Forall_impl; [exact Hb|].
  intros c. unfold before_cursor in *. by apply cmp_trans.
Qed.

Lemma adjacent_same_dup l : adjacent_same l = true -> ~ NoDup (cursor_key <$> l).
Proof.
  induction l as [|a [|b l] IH]; [done|done|]. cbn [adjacent_same]. rewrite orb_true_iff, bool_decide_eq_true.
  intros [E|E] Hd; cbn [fmap list_fmap] in Hd; apply NoDup_cons in Hd as [Ha Hd]; [|by apply IH]. apply Ha. rewrite E. left.
Qed.

Lemma strict_NoDup l : StronglySorted before_cursor l -> NoDup (cursor_key <$> l).
Proof.
  induction 1 as [|a l _ IH Ha]; cbn; [constructor|]. constructor; [|done]. intros (b & E & Hin)%list_elem_of_fmap.
  pose proof (proj1 (list.Forall_forall _ _) Ha b Hin) as Hlt. unfold before_cursor in Hlt. rewrite E in Hlt. by apply cmp_lt_irrefl in Hlt.
Qed.

(** The cursors are published exactly when there are some and no two agree, and
    then all of them, in strictly increasing order. *)
Lemma cursor_rows_exact cursors rows : cursor_rows cursors = Ok rows <->
  cursors <> [] /\ NoDup (cursor_key <$> cursors) /\ rows ≡ₚ cursors /\ StronglySorted before_cursor rows /\
  rows = sort_by (cmp_by cursor_key) cursors.
Proof.
  unfold cursor_rows. set (s := sort_by _ cursors). assert (s ≡ₚ cursors) as Hp by apply sort_by_perm.
  assert (StronglySorted (not_after (cmp_by cursor_key)) s) as Hs by (apply sort_by_sorted, comparator_by).
  split.
  - destruct (bool_decide (s = [])) eqn:E0; [done|]. destruct (adjacent_same s) eqn:E; [done|]. cbn. intros [= <-].
    apply bool_decide_eq_false in E0. pose proof (sorted_distinct_strict s Hs E) as Hlt. split_and! ; try done.
    + intros ->. by apply Permutation_nil_r in Hp.
    + rewrite <- Hp. by apply strict_NoDup.
  - intros (Hne & Hd & _ & _ & ->). rewrite bool_decide_eq_false_2.
    + destruct (adjacent_same s) eqn:E; [|done]. apply adjacent_same_dup in E. by rewrite Hp in E.
    + intros E. rewrite E in Hp. by apply Permutation_nil_l in Hp.
Qed.

(** ** The clock *)

(** A time that a calendar of four-digit years can name. *)
Definition calendar (t : Rfc3339Time) : Prop := Z.abs (utc_micros t) <= 2 ^ 60.

Lemma calendar_age a b : calendar a -> calendar b -> wrap I64 (utc_micros a - utc_micros b) = utc_micros a - utc_micros b.
Proof. unfold calendar. intros. apply wrap_fits. unfold fits. cbn in *. lia. Qed.

Lemma collect_clocks l : let m := foldl (fun m clock => BTreeMap.insert m (ce_source_id clock) clock) [] l in
  BTreeMap.wf m /\ (length m <= length l)%nat /\ forall s c, BTreeMap.get m s = Some c -> c ∈ l /\ ce_source_id c = s.
Proof.
  induction l as [|x l IH] using rev_ind; [split_and! ; [apply BTreeMap.wf_empty|done|done]|].
  cbv zeta. rewrite foldl_app. cbn [foldl]. destruct IH as (Hwf & Hlen & Hget). set (m := foldl _ _ l) in *.
  split; [by apply BTreeMap.wf_insert|]. split.
  - rewrite BTreeMap.length_insert, length_app by done. cbn. case_match; lia.
  - intros s c Hc. destruct (decide (s = ce_source_id x)) as [->|Hne].
    + rewrite BTreeMap.get_insert_eq in Hc. injection Hc as <-. split; [|done]. apply elem_of_app. right. by left.
    + rewrite BTreeMap.get_insert_ne in Hc by done. destruct (Hget s c Hc). split; [|done]. apply elem_of_app. by left.
Qed.

(** The clock covers the evidence of one required source. *)
Record covers_source (o : SnapshotObservation) (decision : Rfc3339Time) (agg : AggregateClock) (source : string) : Prop := {
  cv_clock : exists c, c ∈ ob_clocks o /\ ce_source_id c = source /\
    0 <= utc_micros decision - utc_micros (ce_available_at c) <= 1000000 /\
    Z.abs (ce_observed_skew_ms c) <= ac_max_abs_skew agg /\
    ce_freshness_limit_ms c <> 0 /\ ac_freshness_limit_ms agg <= ce_freshness_limit_ms c /\
    (ce_degraded c = true -> ac_degraded agg = true)
}.

Definition tighter (agg agg' : AggregateClock) : Prop :=
  ac_max_abs_skew agg <= ac_max_abs_skew agg' /\ ac_freshness_limit_ms agg' <= ac_freshness_limit_ms agg /\
  (ac_degraded agg = true -> ac_degraded agg' = true).

Lemma covers_tighter o decision agg agg' s : tighter agg agg' -> covers_source o decision agg s -> covers_source o decision agg' s.
Proof. intros (H1 & H2 & H3) [(c & ? & ? & ? & ? & ? & ? & ?)]. split. exists c. split_and! ; try done; try lia; auto. Qed.

Lemma clock_step_Ok o clocks decision agg s agg' :
  (forall s c, BTreeMap.get clocks s = Some c -> c ∈ ob_clocks o /\ ce_source_id c = s) -> calendar decision ->
  Forall (fun c => calendar (ce_available_at c)) (ob_clocks o) -> clock_step clocks decision agg s = Ok agg' ->
  tighter agg agg' /\ covers_source o decision agg' s /\
  (ac_degraded agg' = true -> ac_degraded agg = true \/ exists c, c ∈ ob_clocks o /\ ce_degraded c = true).
Proof.
  intros Hget Hd Hc H. unfold clock_step in H. apply rbind_Ok in H as (c & E%ok_or_Ok & H). destruct (Hget s c E) as [Hin Hs].
  pose proof (proj1 (list.Forall_forall _ _) Hc c Hin) as Hcal. cbv beta in Hcal.
  rewrite calendar_age in H by done. destruct (_ || _) eqn:Hb; [done|].
  apply orb_false_iff in Hb as [Hage Hlim]. apply negb_false_iff, andb_true_iff in Hage as [Ha1 Ha2].
  apply rbind_Ok in H as (skew & Es%ok_or_Ok & H). unfold checked_abs in Es. apply to_ty_Some in Es as [-> _]. injection H as <-.
  split; [|split].
  - split_and! ; cbn; [lia|lia|]. intros ->. done.
  - split. exists c. cbn. split_and! ; try done; try lia. intros ->. by destruct (ac_degraded agg).
  - cbn. intros [?|?]%orb_true_iff; eauto.
Qed.

Lemma clock_fold_Ok o clocks decision l agg agg' :
  (forall s c, BTreeMap.get clocks s = Some c -> c ∈ ob_clocks o /\ ce_source_id c = s) -> calendar decision ->
  Forall (fun c => calendar (ce_available_at c)) (ob_clocks o) -> try_fold (clock_step clocks decision) agg l = Ok agg' ->
  tighter agg agg' /\ Forall (covers_source o decision agg') l /\
  (ac_degraded agg' = true -> ac_degraded agg = true \/ exists c, c ∈ ob_clocks o /\ ce_degraded c = true).
Proof.
  intros Hget Hd Hc. revert agg. induction l as [|s l IH]; intros agg H; cbn [try_fold] in H.
  { injection H as <-. split; [by split_and!|]. split; [constructor|auto]. }
  apply rbind_Ok in H as (agg1 & H1 & H). apply (clock_step_Ok o) in H1 as (Ht1 & Hcov & Hdeg1); try done.
  destruct (IH agg1 H) as (Ht & Hall & Hdeg). split; [|split].
  - unfold tighter in *. destruct Ht1 as (? & ? & ?), Ht as (? & ? & ?). split_and! ; [lia|lia|auto].
  - constructor; [by eapply covers_tighter|done].
  - intros Hx. destruct (Hdeg Hx) as [Hy|Hy]; auto.
Qed.

Lemma clock_fold_skew clocks decision l agg agg' : 0 <= ac_max_abs_skew agg <= int_max I128 ->
  try_fold (clock_step clocks decision) agg l = Ok agg' -> 0 <= ac_max_abs_skew agg' <= int_max I128.
Proof.
  intros Ha. apply (try_fold_inv (fun agg => 0 <= ac_max_abs_skew agg <= int_max I128)); [done|]. clear agg Ha agg'.
  intros agg s agg' Ha _ H1. unfold clock_step in H1. apply rbind_Ok in H1 as (c & _ & H1).
  destruct (_ || _); [done|]. apply rbind_Ok in H1 as (skew & Es%ok_or_Ok & H1). unfold checked_abs in Es.
  apply to_ty_Some in Es as [-> Hf]. injection H1 as <-. cbn [ac_max_abs_skew]. unfold fits in Hf. lia.
Qed.

Lemma aggregate_clock_Ok o decision anchor agg : calendar decision -> calendar (ma_source_event_time anchor) ->
  Forall (fun c => calendar (ce_available_at c)) (ob_clocks o) -> aggregate_clock o decision anchor = Ok agg ->
  ob_required_clock_sources o <> [] /\ Forall (covers_source o decision agg) (ob_required_clock_sources o) /\
  0 <= utc_micros decision - utc_micros (ma_source_event_time anchor) <= ac_freshness_limit_ms agg * 1000 /\
  (ac_degraded agg = true -> exists c, c ∈ ob_clocks o /\ ce_degraded c = true) /\ 0 <= ac_max_abs_skew agg <= int_max I128.
Proof.
  intros Hd Ha Hc H. unfold aggregate_clock in H. cbv zeta in H. destruct (collect_clocks (ob_clocks o)) as (_ & _ & Hget).
  destruct (_ || _) eqn:Hb; [done|]. apply orb_false_iff in Hb as [_ Hreq]. apply bool_decide_eq_false in Hreq.
  apply rbind_Ok in H as (acc & Hf & H). rewrite calendar_age in H by done. destruct (_ || _) eqn:Hb; [done|]. injection H as <-.
  destruct (clock_fold_Ok o _ _ _ _ _ Hget Hd Hc Hf) as (_ & Hall & Hdeg). split; [done|]. split; [done|]. split; [lia|].
  split; [|eapply clock_fold_skew; [|exact Hf]; done]. intros Hx. by destruct (Hdeg Hx).
Qed.

(** ** What a snapshot says *)

(** Why a snapshot cannot vouch for the mechanics. *)
Definition unsound (o : SnapshotObservation) (phase : PhaseMachine) : Prop :=
  envelope_quality (ob_features o) = EnvInvalid \/ ob_critical_fault o = true \/
  fc_incomplete_critical (ob_flag_conditions o) = true \/ ob_fully_warmed o = false \/ pm_phase phase = PhInvalid.

(** A score: a decimal text that reads back as a ratio. *)
Definition reads_ratio (text : list Z) : Prop := exists v, parse_scaled text = Ok v /\ 0 <= v <= SCALE.

Record body_coherent (o : SnapshotObservation) (phase : PhaseMachine) (b : SnapshotBody) : Prop := {
  bc_causal : utc_micros (sb_source_event_time b) <= utc_micros (sb_received_at b) <= utc_micros (sb_normalized_at b) /\
    utc_micros (sb_normalized_at b) <= utc_micros (sb_available_at b) <= utc_micros (sb_decision_time b);
  bc_fresh : utc_micros (sb_decision_time b) - utc_micros (sb_source_event_time b) <= sb_freshness_limit_ms b * 1000;
  bc_clock : exists skew, parse_scaled (sb_observed_skew_ms b) = Ok skew /\
    Forall (covers_source o (sb_decision_time b) (mkAggregateClock skew (sb_freshness_limit_ms b) (sb_clock_degraded b)))
      (ob_required_clock_sources o);
  bc_cursors : sb_source_cursors b <> [] /\ sb_source_cursors b ≡ₚ ob_cursors o /\
    StronglySorted before_cursor (sb_source_cursors b);
  bc_invalid : sb_quality_state b = "INVALID" <-> unsound o phase;
  bc_closed : unsound o phase -> sb_phase b = PhInvalid /\ sb_event_type b = "UNKNOWN" /\ sb_direction b = DirUnknown /\
    sb_intensity b = [byte_zero] /\ sb_confidence b = [byte_zero] /\ sb_reversal_risk b = [byte_zero] /\ sb_quality_flags b <> [];
  bc_open : ~ unsound o phase -> sb_phase b = pm_phase phase /\
    (sb_quality_state b = "VALIDATED" <-> envelope_quality (ob_features o) = EnvValidated /\ sb_clock_degraded b = false);
  bc_flags : forall f, f ∈ sb_quality_flags b <->
    flag_holds (ob_flag_conditions o) f = true \/ f = FClockUncertain /\ sb_clock_degraded b = true;
  bc_flag_order : StronglySorted (fun f g => flag_index f < flag_index g) (sb_quality_flags b);
  bc_scores : reads_ratio (sb_intensity b) /\ reads_ratio (sb_confidence b) /\ reads_ratio (sb_reversal_risk b)
}.

(** Publishing the clock's own degradation is raising the flag for it. *)
Lemma effective_flags_eq c d : effective_flags c d = mechanics_flags (mkFlagConditions (fc_sequence_failure c)
  (fc_book_resyncing c) (fc_clock_degraded c || d) (fc_source_stale c) (fc_oi_stale_or_unavailable c) (fc_queue_drop c)
  (fc_reconnect_warmup c) (fc_incomplete_critical c) (fc_breadth_unavailable_or_divergent c)).
Proof. destruct c as [[] [] [] [] [] [] [] [] []], d; reflexivity. Qed.

Lemma effective_flags_elem c d f : f ∈ effective_flags c d <-> flag_holds c f = true \/ f = FClockUncertain /\ d = true.
Proof.
  rewrite effective_flags_eq, mechanics_flags_exact, list_elem_of_filter.
  assert (f ∈ [FBookResyncing; FClockUncertain; FCrossVenueDivergence; FInsufficientCoverage; FOiStale; FQueueDrop;
    FReconnectWarmup; FSequenceGap; FSourceStale]) as Hin
    by (rewrite !elem_of_cons; destruct f; tauto).
  split.
  - intros [H _]. destruct f; auto. cbn in H. apply orb_true_iff in H as [?|?]; auto.
  - intros H. split; [|done]. destruct H as [H|[-> ->]]; [|cbn; by rewrite orb_true_r]. destruct f; cbn in *; try done. by rewrite H.
Qed.

Lemma sorted_filter {A} (R : A -> A -> Prop) (P : A -> Prop) `{!forall x, Decision (P x)} l :
  StronglySorted R l -> StronglySorted R (filter P l).
Proof.
  induction 1 as [|x l _ IH Hx]; [constructor|]. rewrite filter_cons. case_decide; [|done]. constructor; [done|].
  apply list.Forall_forall. intros y [_ Hy]%list_elem_of_filter. by apply (proj1 (list.Forall_forall _ _) Hx).
Qed.

Lemma flags_sorted c : StronglySorted (fun f g => flag_index f < flag_index g) (mechanics_flags c).
Proof.
  rewrite mechanics_flags_exact. apply sorted_filter. repeat (constructor; [|by repeat constructor]). constructor.
Qed.

Lemma reads_canonical v : 0 <= v <= SCALE -> reads_ratio (canonical_decimal v).
Proof. intros H. exists v. split; [|done]. apply parse_scaled_canonical. unfold SCALE in H. cbn. lia. Qed.

(** What [derive_evidence] says on validity and scores. *)
Lemma derive_evidence_Ok o e : observed_set (ob_features o) -> derive_evidence o = Ok e ->
  ev_intensity e = families_intensity (ev_families e) /\ 0 <= ev_confidence e <= SCALE /\ 0 <= ev_reversal_risk e <= SCALE /\
  (ev_valid e = false <-> envelope_quality (ob_features o) = EnvInvalid \/ ob_critical_fault o = true \/
     fc_incomplete_critical (ob_flag_conditions o) = true \/ ob_fully_warmed o = false).
Proof.
  intros Hs H. unfold derive_evidence in H. cbv zeta in H. apply rbind_Ok in H as (lm & _ & H). apply rbind_Ok in H as (im & _ & H).
  apply rbind_Ok in H as (cm & _ & H). apply rbind_Ok in H as (at_ns & _ & H). injection H as <-.
  cbn [ev_intensity ev_families ev_confidence ev_reversal_risk ev_valid]. split_and! ; try done.
  1, 2: repeat case_match; unfold SCALE; lia.
  1, 2: by apply risk_ratio.
  rewrite negb_false_iff, !orb_true_iff, negb_true_iff, bool_decide_eq_true. tauto.
Qed.

(** C15. The whole content of a snapshot is coherent with the observation and the
    phase it is authored from: its times are ordered from the source event to
    the decision and within the clock's limit, every required clock is covered,
    the cursors are strictly ordered, and a snapshot says it is invalid exactly
    when it has a reason to be, and then claims nothing. *)
Theorem authored_snapshot_coherent o phase decision b :
  calendar decision -> (forall a, ob_anchor o = Some a -> calendar (ma_source_event_time a)) ->
  Forall (fun c => calendar (ce_available_at c)) (ob_clocks o) ->
  observed_set (ob_features o) -> author o phase decision = Ok b -> body_coherent o phase b.
Proof.
  intros Hd Ha Hc Hs H. unfold author in H.
  apply rbind_Ok in H as (a & Ea%ok_or_Ok & H). specialize (Ha a Ea). cbv zeta in H.
  destruct (_ <? _) eqn:Hfut in H; [done|]. destruct (negb _) eqn:Hcausal in H; [done|].
  apply negb_false_iff in Hcausal. rewrite !andb_true_iff, !Z.leb_le in Hcausal.
  apply rbind_Ok in H as (clock & Hclock & H). apply rbind_Ok in H as (e & He & H).
  destruct (aggregate_clock_Ok o decision a clock Hd Ha Hc Hclock) as (_ & Hcov & Hage & _ & Hskew).
  destruct (derive_evidence_Ok o e Hs He) as (Hint & Hconf & Hrisk & Hvalid). pose proof (intensity_ratio (ev_families e)) as Hir.
  set (invalid := negb (ev_valid e) || bool_decide (pm_phase phase = PhInvalid)) in *.
  assert (invalid = true <-> unsound o phase) as Hinv.
  { unfold invalid, unsound. rewrite orb_true_iff, negb_true_iff, Hvalid, bool_decide_eq_true. tauto. }
  clearbody invalid. destruct (invalid && _) eqn:Hempty; [done|].
  destruct (if invalid then _ else _) as [[i c] r] eqn:Escore.
  apply rbind_Ok in H as (cursors & Hcur & H). injection H as <-.
  apply cursor_rows_exact in Hcur as (Hne & _ & Hp & Hlt & _).
  split; cbn [sb_source_event_time sb_received_at sb_normalized_at sb_available_at sb_decision_time sb_observed_skew_ms
    sb_freshness_limit_ms sb_clock_degraded sb_phase sb_event_type sb_direction sb_intensity sb_confidence sb_reversal_risk
    sb_quality_state sb_quality_flags sb_features sb_source_cursors].
  - lia.
  - lia.
  - exists (ac_max_abs_skew clock). split; [apply parse_scaled_canonical; lia|]. by destruct clock.
  - split; [|done]. intros ->. by apply Permutation_nil_l in Hp.
  - rewrite <- Hinv. destruct invalid; [done|]. by destruct (_ || _).
  - intros Hu%Hinv. subst invalid. injection Escore as <- <- <-. split_and! ; try done.
    cbn [andb] in Hempty. apply bool_decide_eq_false in Hempty. unfold effective_flags.
    intros Hn. destruct (ac_degraded clock); [|done]. apply dedup_nil, sort_by_nil, app_nil in Hn. by destruct Hn.
  - intros Hu. destruct invalid; [by destruct Hu; apply Hinv|]. split; [done|].
    destruct (envelope_quality (ob_features o)) eqn:Eq, (ac_degraded clock); cbn;
      first [by destruct Hu; left|split; [by intros|by intros [? ?]]].
  - intros f. apply effective_flags_elem.
  - rewrite effective_flags_eq. apply flags_sorted.
  - destruct invalid; injection Escore as <- <- <-; split_and! ; apply reads_canonical; unfold SCALE in *; lia.
Qed.

(** The squeeze of [PulseEvidence], authored at its cascade. *)
Definition squeeze_anchor : MarketAnchor := mkMarketAnchor (at_micros 50003) (at_micros 50004) (at_micros 50004) (at_micros 50005) "h".
Definition squeeze_observation : SnapshotObservation :=
  mkObservation (at_micros 50005) squeeze_set no_flags false true false (Some squeeze_anchor)
    [mkSnapshotCursor "binance" "e1" 7 9 (at_micros 50005) "h2"; mkSnapshotCursor "binance" "e1" 4 6 (at_micros 40005) "h1"]
    ["clock_btc"] [mkClockEvidence "clock_btc" (at_micros 390000) (-250000000) 500 true].
Definition squeeze_phase : PhaseMachine :=
  Eval vm_compute in snd (phase_until [squeeze_at 5; squeeze_at 50005] 400000 phase_new).
Lemma authored_snapshot_coherent_witness :
  exists b, author squeeze_observation squeeze_phase (at_micros 400000) = Ok b /\ body_coherent squeeze_observation squeeze_phase b /\
    sb_event_type b = "SHORT_SQUEEZE"%string /\ sb_quality_state b = "DEGRADED"%string /\ sb_quality_flags b = [FClockUncertain].
Proof.
  destruct (author squeeze_observation squeeze_phase (at_micros 400000)) as [b|] eqn:E; [|by vm_compute in E].
  exists b. split; [reflexivity|]. split; [|vm_compute in E; injection E as <-; done].
  apply (authored_snapshot_coherent squeeze_observation squeeze_phase (at_micros 400000) b).
  - unfold calendar. cbn. lia.
  - intros a [= <-]. unfold calendar. cbn. lia.
  - repeat constructor. unfold calendar. cbn. lia.
  - apply squeeze_observed.
  - exact E.
Defined.
